(* ===== verification/_CoqProject ===== *)
-Q . S2P
Prelude.v
Modbus.v
ModbusFacts.v
ModbusDevice.v
Msm.v
LinkStateMachine.v
LinkFacts.v
EvLinkStateMachine.v
IecStateMachine.v
IecFacts.v
IecTimers.v
CiString.v
MessageTypes.v
Json.v
MessageQueue.v
MessageProtocol.v
MessageQueueRefines.v
MessageQueueFacts.v
MessageQueueStore.v
MessageQueueTypes.v
MessageQueueRuns.v
MessageQueueDemo.v
ChargePointFsm.v
CpFsmFacts.v
ComponentState.v
CsmFacts.v
CsmInit.v
StdPermutation.v
EvseContext.v
Reservation.v
ReservationFacts.v
ReservationInv.v
ReservationRestart.v
Resume.v
AuthHandler.v
AuthToken.v
AuthFacts.v
AuthSystem.v
AuthThreads.v
AuthGrant.v
AuthRuns.v
AuthReserve.v
AuthDemo.v
Float32.v
Profile.v
ProfileFacts.v
ScheduleFacts.v
SmartCharging.v
CompositeFacts.v
CompositeSchedule.v
SmartChargingFacts.v
SmartChargingRuns.v
SmartChargingDemo.v
ChargerTypes.v
ChargerOps.v
ChargerStates.v
Charger.v
ChargerCore.v
ChargerPass.v
ChargerLoop.v
ChargerRuns.v
ChargerFacts.v
ChargerBoard.v
ChargerDemo.v
FloatRound.v
EnergyMarket.v
EnergyBroker.v
EnergyManager.v
EnergyAmounts.v
EnergyTrades.v
EnergyFacts.v
EnergyRuns.v
EnergyTree.v
EnergyTotals.v
EnergyOptimizer.v
EnergyMinimum.v
EnergyNode.v
EnergyNodeFacts.v
EnergyDemo.v
