(* ===== verification/Prelude.v ===== *)
(** * EVerest: a verification library

    EVerest is a firmware stack for charging stations: modules that talk over MQTT,
    and the libraries they are built from.  This library models the parts of it that
    decide when power may flow, what the station tells the outside about itself and
    which promises it keeps, and proves them correct.  Source paths are relative to
    [src/].

    ** The parts and how they interact

    - The control pilot state machine of [modules/EVSE/EvseManager]
      ([IECStateMachine]) receives what the board measures and what the charger
      wants, and commands the contactors, the PWM and the connector lock.
    - The charger of the same module ([Charger]) runs the charging sessions: it takes
      authorizations, energy limits, errors, the events of the control pilot machine
      and of the high level communication, and drives that machine, the meters and the
      session events the rest of the station follows.
    - The data link state machines of the megawatt charging system
      ([modules/EVSE/McsDataLink], [modules/EV/McsEvDataLink]) replace power-line
      matching by an Ethernet link; their owner executes the effects they return.
    - The Modbus RTU client of [modules/Misc/SerialCommHub] carries the requests of
      meter and board drivers over a serial line.
    - The OCPP library ([lib/everest/ocpp]) reports connector states to the back
      office: in 1.6 through [ChargePointStates], in 2.x through
      [ComponentStateManager], which persists availability in a database.  Their
      strings are [CiString]s.  Every call to the back office goes through the message
      queue, which delivers transaction messages in order and at least once across
      restarts; a received text is checked for its nesting depth before it is parsed.
      Charging profiles from the back office (1.6) are installed per connector and
      stored; from them the library computes the limits the station has to keep to.
    - The auth handler of [modules/EVSE/Auth] decides which presented token starts or
      stops charging at which EVSE: it asks the validators, waits for a car to be
      plugged in, tells the EVSE, and withdraws authorizations that are not used in
      time.  Its requests run in threads of their own.  The reservation handler it owns
      decides which reservations can be accepted, from the connector states the auth
      handler feeds it, and whether a car may charge without one.
    - The energy nodes ([modules/EnergyManagement/EnergyNode]) form a tree of fuses:
      each passes the requests of its children up, with its own and external limits,
      and routes limits down.  At the root the energy manager
      ([modules/EnergyManagement/EnergyManager]) lets brokers of the EVSEs trade what
      the tree offers, and sends the result as limits to the EVSEs, where the charger
      keeps to them.

    ** Files

    - [Prelude]: outcomes of C++ code ([outcome]: return, exception, undefined
      behaviour), the state, output and exception monad [cmd], the proof rules for it
      ([Preserves]; [leads], [Tracks] and the tactic [track] for commands that return;
      [hoare], [Keeps] and the tactic [keep] for commands that may throw), machine
      integers, sorted lists.
    - [Modbus] ([crc16.cpp], [tiny_modbus_rtu.hpp], [tiny_modbus_rtu.cpp]): [Crc16],
      framing and decoding, and in [Rtu] the transfer loops over a record [port_ops]
      of operating system calls.  [ModbusFacts]: the checksum, the wire format, the
      decoder, the loops.  [ModbusDevice]: the interface [ModbusSlave] of a line with
      a device on it, and a whole transfer against it.
    - [Msm]: transition tables as [boost::msm] runs them; which of several enabled
      rows is taken is the class [MsmBackend].  [LinkStateMachine] and [LinkFacts]
      ([modules/EVSE/McsDataLink/main/link_state_machine.cpp]), [EvLinkStateMachine]
      ([modules/EV/McsEvDataLink/main/link_state_machine.cpp]): the tables row by
      row, guards, actions, and the effects in order.
    - [IecStateMachine] ([IECStateMachine.cpp], [Timeout.hpp]): one record for the
      object, one definition per member function and per [case] of the big switch,
      the [AsyncTimeout] timers with their wait threads.  [IecFacts]: contactors and
      lock.  [IecTimers]: the C1 timeout, state F, published states.
    - [CiString] ([string.hpp], [cistring.hpp]); [MessageTypes] (the enumerations and
      conversions of [v16/types.cpp] and [v2/types.cpp]); [Json]: JSON values, the
      check of [nesting_depth.hpp] and the grammar it is compared with.
    - [MessageQueue] ([message_queue.hpp], [call_types.hpp], the message tables of
      [database_handler_common.cpp]): one record for the object, one definition per
      member function, the worker thread turn by turn; what the two OCPP versions
      differ in is the class [MessageKind], what the queue asks its surroundings the
      class [Environment].  [MessageProtocol]: the abstract transmission protocol, a
      step relation.  [MessageQueueRefines]: the simulation; [MessageQueueFacts]:
      what follows from it, and the clean-up of long queues; [MessageQueueStore]: the
      tables and the restart; [MessageQueueTypes]: well-formed messages and totality;
      [MessageQueueRuns]: progress, pauses, retries; [MessageQueueDemo]: concrete runs.
    - [ChargePointFsm] and [CpFsmFacts]
      ([lib/ocpp/v16/charge_point_state_machine.cpp]): the table, the errors of a
      connector, the map of connectors.
    - [ComponentState] ([lib/ocpp/v2/component_state_manager.cpp] and the
      availability table of [database_handler.cpp]); [CsmFacts]: every operation run
      to its result; [CsmInit]: the constructor and the theorems.
    - [StdPermutation]: [std::next_permutation].  [EvseContext]
      ([ConnectorStateMachine.cpp], [Connector.cpp]).  [Reservation]
      ([ReservationHandler.cpp] and [AuthHandler::submit_event_for_connector]);
      [ReservationFacts]: what [is_reservation_possible] decides; [ReservationInv]:
      the invariant; [ReservationRestart]: restart, lost reservations, concrete runs.
    - [Resume]: programs made of critical sections separated by waits, with
      rely-guarantee contracts ([fulfils], [serves]).  [AuthHandler], [AuthToken]
      ([AuthHandler.cpp]): one record for the object, commands for the functions that
      keep [event_mutex], programs for those that release it.  [AuthSystem]: the
      threads, interleaved at their waits ([sys_step]).  [AuthFacts]: what every
      command keeps; [AuthThreads]: contracts of sessions, timeouts and withdrawals;
      [AuthGrant]: the contract of a presented token; [AuthRuns]: the invariant of all
      interleavings; [AuthReserve]: authorizations and reservations, withdrawals;
      [AuthDemo]: concrete runs.
    - [Float32]: binary32 numbers and their order.  [Profile] ([v16/profile.cpp]): the
      schedule of a profile, the layout of overlapping periods, the merging of
      schedules.  [ProfileFacts]: which period is in force when; [ScheduleFacts]:
      layout and merging second by second.  [SmartCharging] ([v16/smart_charging.cpp],
      the profile table of [v16/database_handler.cpp], the requests and the loading of
      profiles of [v16/charge_point_impl.cpp]): one record for the handler.
      [CompositeFacts], [CompositeSchedule]: composite schedules; [SmartChargingFacts],
      [SmartChargingRuns]: memory and table; [SmartChargingDemo]: the main statements
      and concrete runs.
    - [ChargerTypes] ([Charger.hpp], [types/*.yaml]): the object as one record, the
      outgoing calls.  [ChargerOps] ([Charger.cpp]): control pilot signals, limits,
      transactions, errors, the enable table.  [ChargerStates]: [run_state_machine],
      one definition per [case] with its entry actions.  [Charger]: the events of the
      control pilot and the requests.  [ChargerCore]: the part of the object that
      decides ([core]), the session protocol ([obey]), what an observer of the calls
      sees ([view]) and the tactic [walk] that runs an operation on both.
      [ChargerPass]: the invariant and the actions of every state; [ChargerLoop]: the
      loop; [ChargerRuns]: every request, and the theorems; [ChargerFacts]: restart and
      enable table; [ChargerBoard]: the charger composed with [IecStateMachine];
      [ChargerDemo]: concrete runs.
    - [FloatRound]: what rounding guarantees, with numbers counted in grains of
      [2^-298].  [EnergyMarket] ([Market.cpp], [Offer.cpp], [types/energy.yaml]): time
      slots, limits of a node, the store of markets, offers.  [EnergyBroker]
      ([Broker.cpp], [BrokerFastCharging.cpp]): purchases, and the trade in a time slot
      as a command.  [EnergyManager] ([EnergyManagerImpl.cpp]): rounds of trading, the
      limits published.  [EnergyAmounts]: single purchases; [EnergyTrades]: a turn of a
      broker; [EnergyFacts]: offers and accounts of the nodes; [EnergyRuns]: rounds, and
      stores with equal amounts; [EnergyTree]: the store and the EVSEs of a request;
      [EnergyTotals]: sums over EVSEs; [EnergyOptimizer], [EnergyMinimum]: the theorems.
      [EnergyNode] ([energyImpl.cpp], [energy_schedule_utils.cpp],
      [external_energy_limitsImpl.cpp]); [EnergyNodeFacts]: runs of a node, and a node
      together with the energy manager.  [EnergyDemo]: concrete runs.

    ** What the theorems show

    - Control pilot: power is only granted in a charging state, with PWM and a
      standing permission; in every run the contactor permission is withdrawn outside
      C and D, the lock is closed while the contactors are, and opens only when that
      is safe; the power is off after the C1 timeout; a requested state F stands.
    - Data link: executing the effects gives the owner exactly the view of the
      machine's state; restarts are bounded by the attempts left; the reset of an error
      routine is absorbed; the tables are deterministic.
    - Modbus: the checksum detects every corruption of two adjacent bytes; requests
      have the wire format; replies decode to the registers sent and never out of
      bounds; a chunked transfer reads all registers.
    - OCPP 1.6: notifications report the effective state, histories follow the
      table, raising and clearing an error is a round trip.
    - OCPP 2: reported statuses stay equal to the effective ones, unknown components
      are refused, the constructor restores what was persisted.
    - Message queue: every run is a run of the protocol, so transaction messages are
      sent in order and no more often than configured; across any number of restarts
      of a station with a working database the table holds exactly the messages that
      are not settled, and the next start brings them back; the worker sends when it
      may and has been told of new messages, and not while paused; every failed
      delivery is retried or reported; the clean-up keeps what must be kept; nothing
      throws on well-formed messages.  All of it holds for OCPP 1.6 and 2.x.
      The nesting check is exact on JSON texts.
    - Reservations: the simulation of arriving cars decides a game (no order of
      arrival and no choice of EVSEs strands a car); while all reservations name a
      connector type and no connector becomes available, every request keeps the
      accepted ones servable and mirrored in the store; they survive a restart.
    - Authorization: in every interleaving of the threads an EVSE is only authorized by
      the thread a token was presented to, with a result the validators gave to it, at
      an EVSE it allows; tokens are processed once, no thread throws (with a selection
      algorithm other than UserInput, and requests for EVSEs that exist), the published
      statuses are in order, and waiting threads never block each other for good.  An
      authorization uses exactly the reservation the token has, and without one it
      leaves all others servable; a withdrawal reaches exactly what it names.
    - Smart charging: the entries computed for profiles are exactly the periods in
      force; the layout ends and shows the highest stack level at every second; merging
      is pointwise; for profiles whose periods are in order the composite limit never
      exceeds that of a profile that counts;
      stored profiles are installed in every run, and a cleared one does not return.
    - Charger: in every run the session events follow the protocol of sessions and
      transactions, which the flags and the persistent store mirror; the contactors are
      permitted only for an authorized car in a running transaction, and with the
      control pilot machine behind it the driver closes them only there; the loop ends,
      and a turn of the main loop leaves the machine at rest in a state the car, the
      errors and the requests allow; an interrupted transaction is ended after a
      restart, and the meters are told which; the enable table decides by priority.
    - Energy: the net amount traded through a node stays between its export and its
      import limit, for current and power and every time slot; what is published for the EVSEs below a
      node adds up to no more than its limit, and behind an energy node to no more than
      its fuse; an EVSE gets its minimal current or nothing; trading before the last
      round ends only when nobody can buy; a node publishes no limit above its fuse and
      sends limits through the connections behind which the node they are for was last
      reported; when the merging of prices ends.
    - Findings: theorems that show where the code does something else than a comment
      says or than it means to.  They are stated as the code behaves.

    ** Modelling choices

    Bytes and words are [Z] with their width written out where it matters; doubles
    and floats are the binary64 and binary32 numbers of [SpecFloat].  A [DateTime] is
    a number of nanoseconds.  [std::sort] is the class [StdSort]: some sorted
    permutation.  A member function that holds the
    object's mutex is one atomic step; where the code releases the mutex between two
    critical sections ([set_pwm]) the sections are separate definitions.  Calls to
    the outside (drivers, signals, callbacks, the store) are outputs in order; a
    callback that calls back into the object is a further request.  Answers of the
    environment (results of SQLite statements, whether a notification was sent) are
    lists in the state, and the theorems quantify over them.  The expiry of a timer is
    a request at a time of the environment's choosing.  Objects shared through
    pointers that the code compares (queued messages) carry an identity.  Stored
    timestamps are cut to the milliseconds that are written.  No query has an ORDER BY:
    the rows of the message tables come in an order that the class [Environment] gives,
    and a theorem that needs the order of insertion says so; the rows of the profile
    table are read in the order of insertion.  A message queue stops between two
    requests.  Parsers of OCPP payloads are generated code and class
    parameters.  [std::map] is traversed in key order; the order of [std::unordered_map] is the class [Traversal].  Parsing dates
    is the class [DateParser].  EVSE and connector ids are [Z] in the range both
    integer types of the source share.

    A thread of the auth handler stops where the source releases [event_mutex]: in the
    call of the validators, in a condition variable, between two locked calls, and
    before the lambda of a fired timer sets its flag.  A thread that waits may go on
    whenever its predicate holds, whoever notified it; a wait for a plug in may also
    time out.  [timeout] replaces the lambda of an armed timer; a fired lambda is a
    thread.  The functions of the reservation handler that are called outside of
    [event_mutex] lock [reservation_mutex] and are sections of their own; the callbacks
    made between them are part of the section.  The answers of [reserved_callback] are
    a list in the state.

    A request to the charger holds [state_machine_mutex] and is one step, the sections
    of [dlink_error] and the sleeps included.  The clocks, the ids of new sessions, the
    answers of the meters and the rating of the cable are in the state and changed by
    the request [Environment].  The theorems on runs assume what the callers keep to:
    an authorization is withdrawn only while no transaction runs, [authorize] is not
    called to refuse, the early return for the state of charge is not configured, and
    the clean-up after a restart comes first.

    The tree of markets, whose nodes point to their parents, is a store of nodes; a
    pointer is the path to a node.  Timestamps of schedules are the time points their
    strings stand for, cut to milliseconds where a time is printed; readings of the
    clock are a list in the state.  The theorems on the energy manager take limits and
    slices in the range of [sane_run], compare amounts exactly, and state the error of
    rounding: one part in [2^20] for an account, two in [2^24] per turn for a sum.  A
    message to an energy node is one step; prices that do not merge make it [no_return].

    Loops that poll the port take fuel, and [None] means that the loop has not ended:
    [read_reply] needs one turn more than the buffer has bytes (it is shown to need
    no more, and to run forever on a dead port), [txrx] one turn per register.  The
    enumeration of [n] cars' orders gets [n! + 1] turns, which is shown to reach every
    order.  The clean-up loops of the message queue get one turn per queued message,
    and the clean-up is shown to end within them.  The layout of [n] entries gets
    [2 n + 2] turns, the merging of schedules one per period, the occurrences of a
    recurring profile one per recurrence up to the end of the span; all are shown to
    be enough.  The loop of the charger's state machine gets 14 passes, and is shown to
    end within them from every reachable state.  The 100 rounds of the optimizer are the
    source's own bound; the merging of prices gets a pass for each entry and price, and
    is shown to end within them or never.

    ** Not modelled

    Opening and configuring serial ports and GPIO; logging; the threads of the other
    components (only the order of critical sections); SQL other than the availability,
    message and profile tables; the start-up queue of the Auth module; which errors of
    other modules EvseManager turns into a shutdown; the power meters of the energy tree
    but for the frequency.  The other parts of EVerest: the charging profiles of OCPP 2
    (a variant of the modelled ones on generated types), message dispatch, ISO 15118 and
    SLAC (state machines around generated codecs and raw sockets), the framework,
    security, device drivers and simulators (input and output); generated and
    vendored code. *)

From stdpp Require Export base tactics list list_numbers gmap strings sorting.
From Stdlib Require Export ZArith Lia.

#[global] Open Scope Z_scope.

(** ** Outcomes of C++ code

    [Ret a] is a normal return, [Throw x] an exception of type [X] that leaves
    the function, and [Undef] an access outside the bounds of a buffer or a
    vector (undefined behaviour in the source). *)
Inductive outcome (X A : Type) : Type :=
| Ret (a : A)
| Throw (x : X)
| Undef.
Arguments Ret {X A} a.
Arguments Throw {X A} x.
Arguments Undef {X A}.

Definition outcome_bind {X A B} (k : A → outcome X B) (o : outcome X A) : outcome X B :=
  match o with
  | Ret a => k a
  | Throw x => Throw x
  | Undef => Undef
  end.

#[global] Instance outcome_ret {X} : MRet (outcome X) := λ A a, Ret a.
#[global] Instance outcome_mbind {X} : MBind (outcome X) := λ A B k o, outcome_bind k o.

(** ** Stateful code with exceptions and observable outputs

    [cmd S O X A]: a member function of an object with state [S] that calls out
    to the rest of the system.  [O] is the type of the outgoing calls (a driver
    command, a callback, a signal); a run returns its outcome, the state it
    leaves (also when it throws) and the calls it made, in order. *)
Definition cmd (S O X A : Type) : Type := S → outcome X A * S * list O.

Definition cmd_ret {S O X A} (a : A) : cmd S O X A := λ s, (Ret a, s, []).

Definition cmd_bind {S O X A B} (k : A → cmd S O X B) (m : cmd S O X A) : cmd S O X B :=
  λ s, match m s with
       | (Ret a, s1, t1) => let '(r, s2, t2) := k a s1 in (r, s2, t1 ++ t2)
       | (Throw x, s1, t1) => (Throw x, s1, t1)
       | (Undef, s1, t1) => (Undef, s1, t1)
       end.

#[global] Instance cmd_mret {S O X} : MRet (cmd S O X) := λ A a, cmd_ret a.
#[global] Instance cmd_mbind {S O X} : MBind (cmd S O X) := λ A B k m, cmd_bind k m.

Definition cget {S O X} : cmd S O X S := λ s, (Ret s, s, []).
Definition cmodify {S O X} (f : S → S) : cmd S O X () := λ s, (Ret tt, f s, []).
Definition cemit {S O X} (o : O) : cmd S O X () := λ s, (Ret tt, s, [o]).
Definition cthrow {S O X A} (x : X) : cmd S O X A := λ s, (Throw x, s, []).
Definition clift {S O X A} (r : outcome X A) : cmd S O X A := λ s, (r, s, []).
Definition cwhen {S O X} (b : bool) (m : cmd S O X ()) : cmd S O X () :=
  if b then m else mret tt.

(** [try m catch]: [h] gives the handler of the exceptions that are caught. *)
Definition ccatch {S O X A} (m : cmd S O X A) (h : X → option (cmd S O X A)) : cmd S O X A :=
  λ s, match m s with
       | (Throw x, s1, t1) =>
           match h x with
           | Some k => let '(r, s2, t2) := k s1 in (r, s2, t1 ++ t2)
           | None => (Throw x, s1, t1)
           end
       | res => res
       end.

(** A [for] loop over the elements of a list, stopping at the first throw. *)
Fixpoint cfor {S O X A} (l : list A) (body : A → cmd S O X ()) : cmd S O X () :=
  match l with
  | [] => mret tt
  | a :: l' => body a ;; cfor l' body
  end.

(** Evaluate the combinators on a state. *)
Ltac cexpand :=
  cbv [mbind cmd_mbind cmd_bind mret cmd_mret cmd_ret cget cmodify cemit cthrow clift cwhen].
Ltac crun := cexpand; cbn.

(** Runs of a sequence, when the run of its first part is known. *)
Lemma bind_eq {S O X A B} (m : cmd S O X A) (k : A → cmd S O X B) s a s1 t1 r s2 t2 :
  m s = (Ret a, s1, t1) → k a s1 = (r, s2, t2) → (m ≫= k) s = (r, s2, t1 ++ t2).
Proof. unfold mbind, cmd_mbind, cmd_bind. by intros -> ->. Qed.
Lemma bind_pure {S O X A B} (m : cmd S O X A) (k : A → cmd S O X B) s a :
  m s = (Ret a, s, []) → (m ≫= k) s = k a s.
Proof. unfold mbind, cmd_mbind, cmd_bind. intros ->. by destruct (k a s) as [[]]. Qed.
Lemma bind_silent {S O X A B} (m : cmd S O X A) (k : A → cmd S O X B) s a s1 :
  m s = (Ret a, s1, []) → (m ≫= k) s = k a s1.
Proof. unfold mbind, cmd_mbind, cmd_bind. intros ->. by destruct (k a s1) as [[]]. Qed.
Lemma bind_run {S O X A B} (m m' : cmd S O X A) (k : A → cmd S O X B) s s' :
  m s = m' s' → (m ≫= k) s = (m' ≫= k) s'.
Proof. unfold mbind, cmd_mbind, cmd_bind. by intros ->. Qed.
Lemma bind_throw {S O X A B} (m : cmd S O X A) (k : A → cmd S O X B) s x :
  m s = (Throw x, s, []) → (m ≫= k) s = (Throw x, s, []).
Proof. unfold mbind, cmd_mbind, cmd_bind. by intros ->. Qed.
Lemma bind_get {S O X B} (k : S → cmd S O X B) s : (cget ≫= k) s = k s s.
Proof. by apply bind_pure. Qed.
Lemma bind_modify {S O X B} (g : S → S) (k : () → cmd S O X B) s : (cmodify g ≫= k) s = k tt (g s).
Proof. unfold mbind, cmd_mbind, cmd_bind, cmodify. by destruct (k tt (g s)) as [[]]. Qed.
Lemma bind_ret {S O X A B} (a : A) (k : A → cmd S O X B) s : (mret a ≫= k) s = k a s.
Proof. by apply bind_pure. Qed.

(** Execute the next statement, whose run is known to be pure, or a primitive. *)
Ltac cstep H := rewrite (bind_pure _ _ _ _ H); cbv beta.
Ltac cprim := repeat (first [rewrite bind_get | rewrite bind_modify | rewrite bind_ret]; cbv beta).

(** Projections of a run. *)
Definition res_of {S O X A} (r : outcome X A * S * list O) : outcome X A := r.1.1.
Definition st_of {S O X A} (r : outcome X A * S * list O) : S := r.1.2.
Definition out_of {S O X A} (r : outcome X A * S * list O) : list O := r.2.

(** ** Member assignment

    [set_field eta proj v s]: the record [s] with the field read by [proj]
    replaced by [v]; [eta] is the field-by-field copy of the record. *)
Ltac set_field eta proj v s :=
  let b := eval cbv beta delta [eta] in (eta s) in
  match b with
  | context C [proj s] => let b' := context C [v] in exact b'
  end.

(** ** Invariants of stateful code

    [Preserves I m]: every run of [m] from a state satisfying [I], also one that
    throws, leaves a state satisfying [I].  The instances close the property
    under the combinators, so that an operation's invariant proof is reduced to
    its elementary updates. *)
Class Preserves {S O X A} (I : S → Prop) (m : cmd S O X A) : Prop :=
  preserves : ∀ s, I s → I (st_of (m s)).

Section preserves.
Context {S O X : Type} (I : S → Prop).

#[global] Instance preserves_ret {A} (a : A) : Preserves (O:=O) (X:=X) I (mret a).
Proof. intros s Hs. exact Hs. Qed.

#[global] Instance preserves_get : Preserves (O:=O) (X:=X) I cget.
Proof. intros s Hs. exact Hs. Qed.

#[global] Instance preserves_throw {A} (x : X) : Preserves (O:=O) (A:=A) I (cthrow x).
Proof. intros s Hs. exact Hs. Qed.

#[global] Instance preserves_lift {A} (r : outcome X A) : Preserves (O:=O) I (clift r).
Proof. intros s Hs. exact Hs. Qed.

#[global] Instance preserves_emit (o : O) : Preserves (X:=X) I (cemit o).
Proof. intros s Hs. exact Hs. Qed.

Lemma preserves_modify (f : S → S) :
  (∀ s, I s → I (f s)) → Preserves (O:=O) (X:=X) I (cmodify f).
Proof. intros Hf s Hs. exact (Hf s Hs). Qed.

#[global] Instance preserves_bind {A B} (m : cmd S O X A) (k : A → cmd S O X B) :
  Preserves I m → (∀ a, Preserves I (k a)) → Preserves I (m ≫= k).
Proof.
  intros Hm Hk s Hs. specialize (Hm s Hs).
  unfold mbind, cmd_mbind, cmd_bind, st_of in *.
  destruct (m s) as [[[a|x|] s1] t1]; simpl in *; try done.
  specialize (Hk a s1 Hm). unfold st_of in Hk.
  destruct (k a s1) as [[r s2] t2]. exact Hk.
Qed.

#[global] Instance preserves_when (b : bool) (m : cmd S O X ()) :
  Preserves I m → Preserves I (cwhen b m).
Proof. intros Hm. destruct b; [exact Hm | apply _]. Qed.

#[global] Instance preserves_for {A} (l : list A) (body : A → cmd S O X ()) :
  (∀ a, Preserves I (body a)) → Preserves I (cfor l body).
Proof. intros Hb. induction l; simpl; apply _. Qed.
End preserves.

(** ** Contracts that relate the state to the calls made

    [f] accumulates what the outside has seen of the calls.  [leads f P m Q]:
    from a state and view satisfying [P], [m] returns, with a result, a state and
    a view satisfying [Q].  [Tracks f I m]: [m] returns and keeps [I]. *)
Definition leads {S O X A V} (f : V → O → V) (P : S → V → Prop) (m : cmd S O X A)
    (Q : A → S → V → Prop) : Prop :=
  ∀ s v, P s v → ∃ a s' t, m s = (Ret a, s', t) ∧ Q a s' (foldl f v t).

Class Tracks {S O X A V} (f : V → O → V) (I : S → V → Prop) (m : cmd S O X A) : Prop :=
  tracks : leads f I m (λ _, I).

Section tracks.
Context {S O X V : Type} (f : V → O → V).
Implicit Types P I : S → V → Prop.

Lemma leads_bind {A B} P (m : cmd S O X A) (k : A → cmd S O X B) Q R :
  leads f P m Q → (∀ a, leads f (Q a) (k a) R) → leads f P (m ≫= k) R.
Proof.
  intros Hm Hk s v Hs. destruct (Hm s v Hs) as (a & s1 & t1 & Em & HQ).
  destruct (Hk a s1 _ HQ) as (b & s2 & t2 & Ek & HR).
  exists b, s2, (t1 ++ t2). unfold mbind, cmd_mbind, cmd_bind. rewrite Em, Ek.
  by rewrite foldl_app.
Qed.

Lemma leads_conseq {A} P P' (m : cmd S O X A) (Q Q' : A → S → V → Prop) :
  leads f P' m Q' → (∀ s v, P s v → P' s v) → (∀ a s v, Q' a s v → Q a s v) → leads f P m Q.
Proof.
  intros Hm HP HQ s v Hs. destruct (Hm s v (HP _ _ Hs)) as (a & s1 & t & E & H). eauto 6.
Qed.

Lemma leads_get {B} P (k : S → cmd S O X B) R :
  (∀ s0, leads f (λ s v, s = s0 ∧ P s v) (k s0) R) → leads f P (cget ≫= k) R.
Proof.
  intros Hk s v Hs. destruct (Hk s s v (conj eq_refl Hs)) as (b & s2 & t2 & Ek & HR).
  exists b, s2, t2. unfold mbind, cmd_mbind, cmd_bind, cget. by rewrite Ek.
Qed.

Lemma leads_ret {A} P (a : A) (Q : A → S → V → Prop) :
  (∀ s v, P s v → Q a s v) → leads (X:=X) f P (mret a : cmd S O X A) Q.
Proof. intros HQ s v Hs. exists a, s, []. eauto. Qed.

Lemma leads_modify P (g : S → S) (Q : () → S → V → Prop) :
  (∀ s v, P s v → Q tt (g s) v) → leads (X:=X) f P (cmodify g) Q.
Proof. intros HQ s v Hs. exists tt, (g s), []. eauto. Qed.

Lemma leads_emit P (o : O) (Q : () → S → V → Prop) :
  (∀ s v, P s v → Q tt s (f v o)) → leads (X:=X) f P (cemit o) Q.
Proof. intros HQ s v Hs. exists tt, s, [o]. eauto. Qed.

(** Use what the precondition says about values already read. *)
Lemma leads_assume {A} (φ : Prop) P (m : cmd S O X A) (Q : A → S → V → Prop) :
  (∀ s v, P s v → φ) → (φ → leads f P m Q) → leads f P m Q.
Proof. intros HP Hm s v Hs. exact (Hm (HP s v Hs) s v Hs). Qed.

Lemma leads_forget {A} s0 P (m : cmd S O X A) (Q : A → S → V → Prop) :
  leads f P m Q → leads f (λ s v, s = s0 ∧ P s v) m Q.
Proof. intros Hm s v [_ Hs]. exact (Hm s v Hs). Qed.

(** The state and view a run that keeps [I] leaves. *)
Lemma tracks_st {A} I (m : cmd S O X A) s v :
  Tracks f I m → I s v → I (st_of (m s)) (foldl f v (out_of (m s))).
Proof. intros Hm Hs. by destruct (Hm s v Hs) as (a & s1 & t & -> & H). Qed.

#[global] Instance tracks_ret {A} I (a : A) : Tracks (X:=X) f I (mret a : cmd S O X A).
Proof. by apply leads_ret. Qed.

#[global] Instance tracks_get I : Tracks (X:=X) f I cget.
Proof. intros s v Hs. exists s, s, []. eauto. Qed.

Lemma tracks_emit I (o : O) : (∀ s v, I s v → I s (f v o)) → Tracks (X:=X) f I (cemit o).
Proof. intros H. by apply (leads_emit I o (λ _, I)). Qed.

Lemma tracks_modify I (g : S → S) :
  (∀ s v, I s v → I (g s) v) → Tracks (X:=X) f I (cmodify g).
Proof. intros H. by apply (leads_modify I g (λ _, I)). Qed.

#[global] Instance tracks_bind {A B} I (m : cmd S O X A) (k : A → cmd S O X B) :
  Tracks f I m → (∀ a, Tracks f I (k a)) → Tracks f I (m ≫= k).
Proof. intros Hm Hk. by eapply leads_bind. Qed.

#[global] Instance tracks_when I (b : bool) (m : cmd S O X ()) :
  Tracks f I m → Tracks f I (cwhen b m).
Proof. intros Hm. destruct b; [exact Hm | apply _]. Qed.

#[global] Instance tracks_for {A} I (l : list A) (body : A → cmd S O X ()) :
  (∀ a, Tracks f I (body a)) → Tracks f I (cfor l body).
Proof. intros Hb. induction l; simpl; apply _. Qed.
End tracks.

(** [track leaf]: follow the text of the operation, unfolding the functions it
    calls unless an instance is known; [leaf] closes the updates and calls. *)
Ltac head_of t := lazymatch t with ?f _ => head_of f | _ => t end.
Ltac track leaf :=
  cbv beta;
  lazymatch goal with
  | |- leads ?f ?I ?m _ => change (Tracks f I m); track leaf
  | |- Tracks _ _ (mret _) => apply tracks_ret
  | |- Tracks _ _ cget => apply tracks_get
  | |- Tracks _ _ (_ ≫= _) => apply tracks_bind; [track leaf | intros ?; track leaf]
  | |- Tracks _ _ (cwhen _ _) => apply tracks_when; track leaf
  | |- Tracks _ _ (cfor _ _) => apply tracks_for; intros ?; track leaf
  | |- Tracks _ _ (let _ := _ in _) => cbv zeta; track leaf
  | |- Tracks _ _ (match ?x with _ => _ end) => destruct x; track leaf
  | |- Tracks _ _ (cemit _) => apply tracks_emit; leaf
  | |- Tracks _ _ (cmodify _) => apply tracks_modify; leaf
  | |- Tracks _ _ ?m => first [ apply _ | let h := head_of m in unfold h; track leaf ]
  end.

(** ** Contracts for code that may throw

    [hoare f P m Q E]: from a state and view satisfying [P], [m] either returns with a
    result, a state and a view satisfying [Q], or leaves with an exception ([Some x])
    or undefined behaviour ([None]) in a state and view satisfying [E].  [Keeps f I m]:
    [m] keeps [I] in every case. *)
Definition hoare {S O X A V} (f : V → O → V) (P : S → V → Prop) (m : cmd S O X A)
    (Q : A → S → V → Prop) (E : option X → S → V → Prop) : Prop :=
  ∀ s v, P s v →
    match m s with
    | (Ret a, s', t) => Q a s' (foldl f v t)
    | (Throw x, s', t) => E (Some x) s' (foldl f v t)
    | (Undef, s', t) => E None s' (foldl f v t)
    end.

Class Keeps {S O X A V} (f : V → O → V) (I : S → V → Prop) (m : cmd S O X A) : Prop :=
  keeps : hoare f I m (λ _, I) (λ _, I).

Section hoare.
Context {S O X V : Type} (f : V → O → V).
Implicit Types P I : S → V → Prop.
Implicit Types E : option X → S → V → Prop.

Lemma hoare_bind {A B} P (m : cmd S O X A) (k : A → cmd S O X B) Q R E :
  hoare f P m Q E → (∀ a, hoare f (Q a) (k a) R E) → hoare f P (m ≫= k) R E.
Proof.
  intros Hm Hk s v Hs. specialize (Hm s v Hs). unfold mbind, cmd_mbind, cmd_bind.
  destruct (m s) as [[[a|x|] s1] t1]; [|done|done]. specialize (Hk a s1 _ Hm).
  destruct (k a s1) as [[[b|x|] s2] t2]; by rewrite foldl_app.
Qed.

Lemma hoare_conseq {A} P P' (m : cmd S O X A) (Q Q' : A → S → V → Prop) E E' :
  hoare f P' m Q' E' → (∀ s v, P s v → P' s v) → (∀ a s v, Q' a s v → Q a s v) →
  (∀ x s v, E' x s v → E x s v) → hoare f P m Q E.
Proof.
  intros Hm HP HQ HE s v Hs. specialize (Hm s v (HP _ _ Hs)).
  destruct (m s) as [[[a|x|] s1] t]; auto.
Qed.

Lemma hoare_pre {A} P P' (m : cmd S O X A) Q E :
  hoare f P' m Q E → (∀ s v, P s v → P' s v) → hoare f P m Q E.
Proof. intros Hm HP. by apply (hoare_conseq P P' m Q Q E E). Qed.

Lemma hoare_get {B} P (k : S → cmd S O X B) R E :
  (∀ s0, hoare f (λ s v, s = s0 ∧ P s v) (k s0) R E) → hoare f P (cget ≫= k) R E.
Proof.
  intros Hk s v Hs. specialize (Hk s s v (conj eq_refl Hs)).
  unfold mbind, cmd_mbind, cmd_bind, cget. by destruct (k s s) as [[[b|x|] s2] t2].
Qed.

Lemma hoare_ret {A} P (a : A) (Q : A → S → V → Prop) E :
  (∀ s v, P s v → Q a s v) → hoare f P (mret a : cmd S O X A) Q E.
Proof. intros HQ s v Hs. by apply HQ. Qed.

Lemma hoare_modify P (g : S → S) (Q : () → S → V → Prop) E :
  (∀ s v, P s v → Q tt (g s) v) → hoare f P (cmodify g) Q E.
Proof. intros HQ s v Hs. by apply HQ. Qed.

Lemma hoare_emit P (o : O) (Q : () → S → V → Prop) E :
  (∀ s v, P s v → Q tt s (f v o)) → hoare f P (cemit o) Q E.
Proof. intros HQ s v Hs. by apply HQ. Qed.

Lemma hoare_lift {A} P (r : outcome X A) (Q : A → S → V → Prop) E :
  (∀ s v, P s v → match r with Ret a => Q a s v | Throw x => E (Some x) s v | Undef => E None s v end) →
  hoare f P (clift r) Q E.
Proof. intros H s v Hs. specialize (H s v Hs). by destruct r. Qed.

Lemma hoare_throw {A} P (x : X) (Q : A → S → V → Prop) E :
  (∀ s v, P s v → E (Some x) s v) → hoare f P (cthrow x) Q E.
Proof. intros H s v Hs. by apply H. Qed.

Lemma hoare_when P (b : bool) (m : cmd S O X ()) (Q : () → S → V → Prop) E :
  (b = true → hoare f P m Q E) → (b = false → ∀ s v, P s v → Q tt s v) → hoare f P (cwhen b m) Q E.
Proof. intros Hm Hr. destruct b; [by apply Hm|by apply hoare_ret, Hr]. Qed.

Lemma hoare_catch {A} P (m : cmd S O X A) h (Q : A → S → V → Prop) E E' :
  hoare f P m Q E' →
  (∀ x, match h x with Some k => hoare f (E' (Some x)) k Q E | None => ∀ s v, E' (Some x) s v → E (Some x) s v end) →
  (∀ s v, E' None s v → E None s v) → hoare f P (ccatch m h) Q E.
Proof.
  intros Hm Hh Hu s v Hs. specialize (Hm s v Hs). unfold ccatch.
  destruct (m s) as [[[a|x|] s1] t1]; [done| |by apply Hu].
  specialize (Hh x). destruct (h x) as [k|]; [|by apply Hh]. specialize (Hh s1 _ Hm).
  destruct (k s1) as [[[b|y|] s2] t2]; by rewrite foldl_app.
Qed.

(** Use what the precondition says about values already read. *)
Lemma hoare_assume {A} (φ : Prop) P (m : cmd S O X A) (Q : A → S → V → Prop) E :
  (∀ s v, P s v → φ) → (φ → hoare f P m Q E) → hoare f P m Q E.
Proof. intros HP Hm s v Hs. exact (Hm (HP s v Hs) s v Hs). Qed.

Lemma hoare_forget {A} s0 P (m : cmd S O X A) (Q : A → S → V → Prop) E :
  hoare f P m Q E → hoare f (λ s v, s = s0 ∧ P s v) m Q E.
Proof. intros Hm s v [_ Hs]. exact (Hm s v Hs). Qed.

(** Contracts without an exceptional case. *)
Lemma hoare_leads {A} P (m : cmd S O X A) Q :
  hoare f P m Q (λ _ _ _, False) → leads f P m Q.
Proof. intros H s v Hs. specialize (H s v Hs). destruct (m s) as [[[a|x|] s'] t]; [eauto 6|done..]. Qed.

Lemma leads_hoare {A} P (m : cmd S O X A) Q E : leads f P m Q → hoare f P m Q E.
Proof. intros H s v Hs. by destruct (H s v Hs) as (a & s' & t & -> & HQ). Qed.

Lemma leads_lift {A} P (a : A) (Q : A → S → V → Prop) :
  (∀ s v, P s v → Q a s v) → leads (X:=X) f P (clift (Ret a)) Q.
Proof. intros HQ s v Hs. exists a, s, []. eauto. Qed.

(** Code that keeps [I], inside a contract with another exceptional case. *)
Lemma hoare_keeps {A} I (m : cmd S O X A) E :
  Keeps f I m → (∀ x s v, I s v → E x s v) → hoare f I m (λ _, I) E.
Proof. intros Hm HE. by eapply hoare_conseq; [exact Hm| | |]. Qed.

(** The state and view every run of code that keeps [I] leaves. *)
Lemma keeps_st {A} I (m : cmd S O X A) s v :
  Keeps f I m → I s v → I (st_of (m s)) (foldl f v (out_of (m s))).
Proof. intros Hm Hs. specialize (Hm s v Hs). by destruct (m s) as [[[]]]. Qed.

#[global] Instance keeps_ret {A} I (a : A) : Keeps (X:=X) f I (mret a : cmd S O X A).
Proof. by apply hoare_ret. Qed.

#[global] Instance keeps_get I : Keeps (X:=X) f I cget.
Proof. by intros s v Hs. Qed.

#[global] Instance keeps_lift {A} I (r : outcome X A) : Keeps (X:=X) f I (clift r).
Proof. apply hoare_lift. by destruct r. Qed.

#[global] Instance keeps_throw {A} I (x : X) : Keeps (A:=A) f I (cthrow x).
Proof. by apply hoare_throw. Qed.

Lemma keeps_emit I (o : O) : (∀ s v, I s v → I s (f v o)) → Keeps (X:=X) f I (cemit o).
Proof. apply (hoare_emit I o (λ _, I)). Qed.

Lemma keeps_modify I (g : S → S) : (∀ s v, I s v → I (g s) v) → Keeps (X:=X) f I (cmodify g).
Proof. apply (hoare_modify I g (λ _, I)). Qed.

#[global] Instance keeps_bind {A B} I (m : cmd S O X A) (k : A → cmd S O X B) :
  Keeps f I m → (∀ a, Keeps f I (k a)) → Keeps f I (m ≫= k).
Proof. intros Hm Hk. by eapply hoare_bind. Qed.

#[global] Instance keeps_when I (b : bool) (m : cmd S O X ()) : Keeps f I m → Keeps f I (cwhen b m).
Proof. intros Hm. destruct b; [exact Hm|apply _]. Qed.

#[global] Instance keeps_for {A} I (l : list A) (body : A → cmd S O X ()) :
  (∀ a, Keeps f I (body a)) → Keeps f I (cfor l body).
Proof. intros Hb. induction l; simpl; apply _. Qed.

Lemma keeps_catch {A} I (m : cmd S O X A) h :
  Keeps f I m → (∀ x k, h x = Some k → Keeps f I k) → Keeps f I (ccatch m h).
Proof.
  intros Hm Hh. eapply hoare_catch; [exact Hm| |done].
  intros x. destruct (h x) as [k|] eqn:Ex; [by apply (Hh x)|done].
Qed.

(** What follows an access to the state may use that the state satisfies [I]. *)
Lemma keeps_get_with {B} I (k : S → cmd S O X B) :
  (∀ s0, hoare f (λ s v, s = s0 ∧ I s v) (k s0) (λ _, I) (λ _, I)) → Keeps f I (cget ≫= k).
Proof. apply hoare_get. Qed.
End hoare.

(** [keep leaf]: the analogue of [track] for [Keeps]. *)
Ltac keep leaf :=
  cbv beta;
  lazymatch goal with
  | |- hoare ?f ?I ?m _ _ => change (Keeps f I m); keep leaf
  | |- Keeps _ _ (mret _) => apply keeps_ret
  | |- Keeps _ _ cget => apply keeps_get
  | |- Keeps _ _ (clift _) => apply keeps_lift
  | |- Keeps _ _ (cthrow _) => apply keeps_throw
  | |- Keeps _ _ (_ ≫= _) => apply keeps_bind; [keep leaf | intros ?; keep leaf]
  | |- Keeps _ _ (cwhen _ _) => apply keeps_when; keep leaf
  | |- Keeps _ _ (cfor _ _) => apply keeps_for; intros ?; keep leaf
  | |- Keeps _ _ (let _ := _ in _) => cbv zeta; keep leaf
  | |- Keeps _ _ (match ?x with _ => _ end) => destruct x; keep leaf
  | |- Keeps _ _ (cemit _) => apply keeps_emit; leaf
  | |- Keeps _ _ (cmodify _) => apply keeps_modify; leaf
  | |- Keeps _ _ ?m => first [ apply _ | let h := head_of m in unfold h; keep leaf ]
  end.

(** ** Machine integers *)
Definition is_u8 (z : Z) : Prop := 0 ≤ z < 2 ^ 8.
Definition is_u16 (z : Z) : Prop := 0 ≤ z < 2 ^ 16.
Definition u8 (z : Z) : Z := z mod 2 ^ 8.
Definition u16 (z : Z) : Z := z mod 2 ^ 16.

Lemma u8_id z : is_u8 z → u8 z = z.
Proof. unfold is_u8, u8. intros. apply Z.mod_small. lia. Qed.
Lemma u16_id z : is_u16 z → u16 z = z.
Proof. unfold is_u16, u16. intros. apply Z.mod_small. lia. Qed.
Lemma is_u8_u8 z : is_u8 (u8 z).
Proof. unfold is_u8, u8. apply Z.mod_pos_bound. lia. Qed.
Lemma is_u16_u16 z : is_u16 (u16 z).
Proof. unfold is_u16, u16. apply Z.mod_pos_bound. lia. Qed.

Lemma lxor_range n x y :
  0 ≤ n → 0 ≤ x < 2 ^ n → 0 ≤ y < 2 ^ n → 0 ≤ Z.lxor x y < 2 ^ n.
Proof.
  intros Hn Hx Hy.
  assert (0 ≤ Z.lxor x y) as H0 by (apply Z.lxor_nonneg; lia). split; [done|].
  destruct (decide (Z.lxor x y = 0)) as [->|Hne]; [by apply Z.pow_pos_nonneg|].
  apply Z.log2_lt_pow2; [lia|].
  pose proof (Z.log2_lxor x y ltac:(lia) ltac:(lia)) as Hxor.
  assert (∀ z, 0 ≤ z < 2 ^ n → z = 0 ∨ Z.log2 z < n) as Hl.
  { intros z Hz. destruct (decide (z = 0)); [by left|right]. apply Z.log2_lt_pow2; lia. }
  destruct (Hl x Hx) as [->|]; [by rewrite Z.lxor_0_l in *; destruct (Hl y Hy); lia|].
  destruct (Hl y Hy) as [->|]; [by rewrite Z.lxor_0_r in *; lia|]. lia.
Qed.

Lemma is_u16_lxor x y : is_u16 x → is_u16 y → is_u16 (Z.lxor x y).
Proof. by apply lxor_range. Qed.
Lemma is_u8_lxor x y : is_u8 x → is_u8 y → is_u8 (Z.lxor x y).
Proof. by apply lxor_range. Qed.
Lemma is_u8_u16 b : is_u8 b → is_u16 b.
Proof. unfold is_u8, is_u16. lia. Qed.

(** Bits shifted above a field do not meet the field. *)
Lemma lor_shiftl_add n x y : 0 ≤ n → 0 ≤ y < 2 ^ n → Z.lor (Z.shiftl x n) y = x * 2 ^ n + y.
Proof.
  intros Hn Hy.
  assert (Z.land (Z.shiftl x n) y = 0) as Hland.
  { apply Z.bits_inj'. intros k Hk. rewrite Z.land_spec, Z.bits_0.
    destruct (decide (k < n)).
    - by rewrite Z.shiftl_spec_low.
    - rewrite <- (Z.mod_small y (2 ^ n)) by lia.
      rewrite Z.mod_pow2_bits_high by lia. apply andb_false_r. }
  rewrite <- Z.lxor_lor by done. rewrite <- Z.add_nocarry_lxor by done.
  by rewrite Z.shiftl_mul_pow2.
Qed.

(** ** Lists *)
Lemma list_filter_all {A} (P : A → Prop) `{!∀ x, Decision (P x)} (l : list A) :
  (∀ x, x ∈ l → P x) → filter P l = l.
Proof.
  induction l as [|x l IH]; intros HP; [done|].
  rewrite filter_cons_True by (apply HP; left). f_equal. apply IH. intros y Hy. apply HP. by right.
Qed.

Lemma list_filter_ext_in {A} (P Q : A → Prop) `{!∀ x, Decision (P x), !∀ x, Decision (Q x)} (l : list A) :
  (∀ x, x ∈ l → P x ↔ Q x) → filter P l = filter Q l.
Proof.
  induction l as [|x l IH]; intros HPQ; [done|]. rewrite !filter_cons.
  rewrite IH by (intros y Hy; apply HPQ; by right). specialize (HPQ x ltac:(left)).
  repeat case_decide; tauto.
Qed.

Lemma Forall_sublist {A} (P : A → Prop) l k : Forall P l → k `sublist_of` l → Forall P k.
Proof. rewrite !Forall_forall. intros Hl Hk x Hx. apply Hl. by eapply sublist_subseteq. Qed.

Lemma sublist_map {A B} (g : A → B) (l k : list A) : k `sublist_of` l → (g <$> k) `sublist_of` (g <$> l).
Proof. induction 1; cbn; by constructor. Qed.

Lemma sublist_same_length {A} (l k : list A) : k `sublist_of` l → length k = length l → k = l.
Proof.
  induction 1 as [|x k l Hk IH|x k l Hk IH]; cbn; intros E; [done|by rewrite IH by lia|].
  apply sublist_length in Hk. lia.
Qed.

Lemma StronglySorted_sublist {A} (R : relation A) l k :
  StronglySorted R l → k `sublist_of` l → StronglySorted R k.
Proof.
  intros Hl. revert k. induction Hl as [|x l Hl IH Hx]; intros k Hk.
  - apply sublist_nil_r in Hk as ->. constructor.
  - apply sublist_cons_r in Hk as [Hk|(k' & -> & Hk)]; [auto|].
    constructor; [auto|]. eauto using Forall_sublist.
Qed.

Create HintDb everest.
#[export] Hint Resolve is_u8_u8 is_u16_u16 is_u16_lxor is_u8_lxor is_u8_u16 : everest.

(** ** Maps *)
(** An [std::map] is traversed in the order of its keys. *)
Definition key_le {A} (p q : Z * A) : Prop := p.1 ≤ q.1.
#[global] Instance key_le_dec {A} : RelDecision (@key_le A).
Proof. intros p q. unfold key_le. apply _. Defined.

Definition items {A} (m : gmap Z A) : list (Z * A) := merge_sort key_le (map_to_list m).

Lemma items_perm {A} (m : gmap Z A) : items m ≡ₚ map_to_list m.
Proof. apply merge_sort_Permutation. Qed.

Lemma elem_of_items {A} (m : gmap Z A) k x : (k, x) ∈ items m ↔ m !! k = Some x.
Proof. by rewrite items_perm, elem_of_map_to_list. Qed.
