(* ===== verification/Modbus.v ===== *)
(** * Modbus RTU master of the SerialCommHub module

    Models [src/modules/Misc/SerialCommHub/crc16.cpp] and
    [src/modules/Misc/SerialCommHub/tiny_modbus_rtu.cpp]: the CRC-16, the
    construction of requests, the decoding of replies and the transfer loop
    that splits a request into chunks.

    A byte is a [Z] in [0, 256) and a [uint16_t] a [Z] in [0, 65536); every
    narrowing store writes [u8] or [u16].  The target is a little-endian host,
    so [memcpy] of a [uint16_t] stores the low byte first and [htobe16] and
    [be16toh] swap the two bytes.  Exceptions are the constructors of
    [modbus_error]; an access outside a buffer is [Undef]. *)

From S2P Require Import Prelude.

(** ** crc16.cpp *)
Module Crc16.

(** One turn of the inner loop of [calculate_modbus_crc16]. *)
Definition crc_bit (crc : Z) : Z :=
  if Z.land crc 1 =? 0 then Z.shiftr crc 1 else Z.lxor (Z.shiftr crc 1) 0xA001.

(** One turn of the outer loop: [crc ^= *buf++] and eight inner turns. *)
Definition crc_byte (crc b : Z) : Z := Nat.iter 8 crc_bit (Z.lxor crc b).

(** [calculate_modbus_crc16(buf, len)]. *)
Definition calculate_modbus_crc16 (buf : list Z) (len : nat) : Z :=
  foldl crc_byte 0xFFFF (take len buf).

End Crc16.
Import Crc16.

(** ** tiny_modbus_rtu.hpp: positions, sizes and function codes *)
Definition DEVICE_ADDRESS_POS : nat := 0.
Definition FUNCTION_CODE_POS : nat := 1.
Definition REQ_TX_FIRST_REGISTER_ADDR_POS : nat := 2.
Definition REQ_TX_QUANTITY_POS : nat := 4.
Definition REQ_TX_SINGLE_REG_PAYLOAD_POS : nat := 4.
Definition REQ_TX_MULTIPLE_REG_BYTE_COUNT_POS : nat := 6.
Definition RES_RX_LEN_POS : nat := 2.
Definition RES_RX_START_OF_PAYLOAD : nat := 3.
Definition RES_TX_START_OF_PAYLOAD : nat := 2.
Definition RES_EXCEPTION_CODE : nat := 2.
Definition MODBUS_MAX_REPLY_SIZE : nat := 255 + 6.
Definition MODBUS_MIN_REPLY_SIZE : nat := 5.
Definition MODBUS_BASE_PAYLOAD_SIZE : nat := 8.

Definition READ_COILS : Z := 0x01.
Definition READ_DISCRETE_INPUTS : Z := 0x02.
Definition READ_MULTIPLE_HOLDING_REGISTERS : Z := 0x03.
Definition READ_INPUT_REGISTERS : Z := 0x04.
Definition WRITE_SINGLE_COIL : Z := 0x05.
Definition WRITE_SINGLE_HOLDING_REGISTER : Z := 0x06.
Definition WRITE_MULTIPLE_COILS : Z := 0x0F.
Definition WRITE_MULTIPLE_HOLDING_REGISTERS : Z := 0x10.

Definition FunctionCode_to_string (fc : Z) : string :=
  if fc =? READ_COILS then "READ_COILS"
  else if fc =? READ_DISCRETE_INPUTS then "READ_DISCRETE_INPUTS"
  else if fc =? READ_MULTIPLE_HOLDING_REGISTERS then "READ_MULTIPLE_HOLDING_REGISTERS"
  else if fc =? READ_INPUT_REGISTERS then "READ_INPUT_REGISTERS"
  else if fc =? WRITE_SINGLE_COIL then "WRITE_SINGLE_COIL"
  else if fc =? WRITE_SINGLE_HOLDING_REGISTER then "WRITE_SINGLE_HOLDING_REGISTER"
  else if fc =? WRITE_MULTIPLE_COILS then "WRITE_MULTIPLE_COILS"
  else if fc =? WRITE_MULTIPLE_HOLDING_REGISTERS then "WRITE_MULTIPLE_HOLDING_REGISTERS"
  else "unknown".

(** The exception classes of the header; [LogicError] and [SystemError] are the
    [std::logic_error] and [std::system_error] of the source, [OutOfRange] the
    [std::out_of_range] of [vector::at].  Formatted texts are not modelled,
    except those that tell the Modbus exceptions apart. *)
Inductive modbus_error : Type :=
| TimeoutException
| ShortPacketException
| AddressMismatchException
| FunctionCodeMismatchException
| ChecksumErrorException
| IncompletePacketException
| OddByteCountException
| ModbusException (msg : string)
| LogicError
| SystemError
| OutOfRange.

(** ** Byte order and buffer primitives of the C library *)

(** Swap the two bytes of a [uint16_t]: [htobe16] and [be16toh]. *)
Definition bswap16 (w : Z) : Z := u16 (Z.lor (Z.shiftl w 8) (Z.shiftr w 8)).

Definition lo8 (w : Z) : Z := Z.land w 0xFF.
Definition hi8 (w : Z) : Z := Z.shiftr w 8.

(** [memcpy(dst + i, &w, 2)] of a [uint16_t]. *)
Definition memcpy_u16 (dst : list Z) (i : nat) (w : Z) : outcome modbus_error (list Z) :=
  if decide (i + 2 ≤ length dst)%nat
  then Ret (<[S i := hi8 w]> (<[i := lo8 w]> dst)) else Undef.

(** [dst[i] = b]. *)
Definition store_u8 (dst : list Z) (i : nat) (b : Z) : outcome modbus_error (list Z) :=
  if decide (i < length dst)%nat then Ret (<[i := u8 b]> dst) else Undef.

(** [buf[i]]. *)
Definition load_u8 (buf : list Z) (i : nat) : outcome modbus_error Z :=
  match buf !! i with Some b => Ret b | None => Undef end.

(** [memcpy(&t, buf + i, n)] with [t = 0] before, for [n] of 1 or 2. *)
Definition memcpy_to_u16 (buf : list Z) (i n : nat) : outcome modbus_error Z :=
  b0 ← load_u8 buf i;
  if decide (n = 2%nat) then b1 ← load_u8 buf (S i); Ret (Z.lor b0 (Z.shiftl b1 8))
  else Ret b0.

(** ** Checksums, lines 77-108 *)
Definition check_for_exception (received_function_code : Z) : bool :=
  negb (Z.land received_function_code (Z.shiftl 1 7) =? 0).

Definition clear_exception_bit (received_function_code : Z) : Z :=
  u8 (Z.land received_function_code (Z.lnot (Z.shiftl 1 7))).

Definition append_checksum (msg : list Z) (msg_len : nat) : outcome modbus_error (list Z) :=
  if decide (msg_len < 5)%nat then Ret msg
  else
    let crc_sum := calculate_modbus_crc16 msg (msg_len - 2) in
    memcpy_u16 msg (msg_len - 2) crc_sum.

Definition validate_checksum (msg : list Z) (msg_len : nat) : outcome modbus_error bool :=
  if decide (msg_len < 5)%nat then Ret false
  else
    let crc_sum := calculate_modbus_crc16 msg (msg_len - 2) in
    crc_msg ← memcpy_to_u16 msg (msg_len - 2) 2;
    Ret (crc_msg =? crc_sum).

(** ** decode_reply, lines 110-237 *)

(** The [switch (err_code)] of an exception reply. *)
Definition modbus_exception_text (err_code : Z) : string :=
  if err_code =? 0x01 then "Modbus exception: Illegal function"
  else if err_code =? 0x02 then "Modbus exception: Illegal data address"
  else if err_code =? 0x03 then "Modbus exception: Illegal data value"
  else if err_code =? 0x04 then "Modbus exception: Client device failure"
  else if err_code =? 0x05 then "Modbus ACK"
  else if err_code =? 0x06 then "Modbus exception: Client device busy"
  else if err_code =? 0x07 then "Modbus exception: NACK"
  else if err_code =? 0x08 then "Modbus exception: Memory parity error"
  else if err_code =? 0x09 then "Modbus exception: Out of resources"
  else if err_code =? 0x0A then "Modbus exception: Gateway path unavailable"
  else if err_code =? 0x0B then "Modbus exception: Gateway target device failed to respond"
  else "Modbus exception: Unknown".

Definition is_write_function (function : Z) : bool :=
  (function =? WRITE_SINGLE_COIL) || (function =? WRITE_SINGLE_HOLDING_REGISTER) ||
  (function =? WRITE_MULTIPLE_COILS) || (function =? WRITE_MULTIPLE_HOLDING_REGISTERS).

Definition is_register_read_function (function : Z) : bool :=
  (function =? READ_MULTIPLE_HOLDING_REGISTERS) || (function =? READ_INPUT_REGISTERS).

Definition is_bit_read_function (function : Z) : bool :=
  (function =? READ_COILS) || (function =? READ_DISCRETE_INPUTS).

(** The [switch (function)]: byte count, start of the result and whether an even
    byte count is expected. *)
Definition reply_layout (buf : list Z) (function : Z) : outcome modbus_error (Z * nat * bool) :=
  if is_write_function function then Ret (4, RES_TX_START_OF_PAYLOAD, false)
  else if is_register_read_function function then
    byte_cnt ← load_u8 buf RES_RX_LEN_POS; Ret (byte_cnt, RES_RX_START_OF_PAYLOAD, true)
  else if is_bit_read_function function then
    byte_cnt ← load_u8 buf RES_RX_LEN_POS; Ret (byte_cnt, RES_RX_START_OF_PAYLOAD, false)
  else Throw LogicError.

(** The copy loop [for (i = start; i < start + byte_cnt; i += 2)]; [turns] is the
    number of turns, [(byte_cnt + 1) / 2]. *)
Fixpoint copy_result (buf : list Z) (len i turns : nat) : outcome modbus_error (list Z) :=
  match turns with
  | O => Ret []
  | S turns' =>
      let num_bytes_to_copy := if decide (i < len - 1)%nat then 2%nat else 1%nat in
      t ← memcpy_to_u16 buf i num_bytes_to_copy;
      rest ← copy_result buf len (i + 2) turns';
      Ret (bswap16 t :: rest)
  end.

Definition decode_reply (buf : list Z) (len : nat) (expected_device_address function : Z) :
    outcome modbus_error (list Z) :=
  if decide (len = 0%nat) then Throw TimeoutException
  else if decide (len < MODBUS_MIN_REPLY_SIZE)%nat then Throw ShortPacketException
  else
    device_address ← load_u8 buf DEVICE_ADDRESS_POS;
    if negb (expected_device_address =? device_address) then Throw AddressMismatchException
    else
      function_code_recvd ← load_u8 buf FUNCTION_CODE_POS;
      let exception := check_for_exception function_code_recvd in
      let function_code_recvd :=
        if exception then clear_exception_bit function_code_recvd else function_code_recvd in
      if negb (function =? function_code_recvd) then Throw FunctionCodeMismatchException
      else
        valid ← validate_checksum buf len;
        if negb valid then Throw ChecksumErrorException
        else if (exception : bool) then
          err_code ← load_u8 buf RES_EXCEPTION_CODE;
          Throw (ModbusException (modbus_exception_text err_code))
        else
          layout ← reply_layout buf function;
          let '(byte_cnt, start_of_result, even_byte_cnt_expected) := layout in
          if Z.of_nat len <? Z.of_nat start_of_result + byte_cnt then Throw IncompletePacketException
          else if (even_byte_cnt_expected : bool) && (byte_cnt mod 2 =? 1) then Throw OddByteCountException
          else copy_result buf len start_of_result (Z.to_nat ((byte_cnt + 1) / 2)).

(** ** Requests, lines 419-468 *)
Definition make_single_write_request (device_address function register_address data : Z) :
    outcome modbus_error (list Z) :=
  let req_len := 8%nat in
  let req := replicate req_len 0 in
  req ← store_u8 req DEVICE_ADDRESS_POS device_address;
  req ← store_u8 req FUNCTION_CODE_POS function;
  let register_address := bswap16 register_address in
  let data := bswap16 data in
  req ← memcpy_u16 req REQ_TX_FIRST_REGISTER_ADDR_POS register_address;
  req ← memcpy_u16 req REQ_TX_SINGLE_REG_PAYLOAD_POS data;
  append_checksum req req_len.

(** The loop over [request] of [_make_generic_request]. *)
Fixpoint add_request_data (req : list Z) (i : nat) (request : list Z) : outcome modbus_error (list Z) :=
  match request with
  | [] => Ret req
  | r :: request' =>
      req ← memcpy_u16 req i (bswap16 r);
      add_request_data req (i + 2) request'
  end.

Definition make_generic_request (device_address function first_register_address register_quantity : Z)
    (request : list Z) : outcome modbus_error (list Z) :=
  let req_len :=
    ((match request with [] => 0 | _ => 2 * length request + 1 end) + MODBUS_BASE_PAYLOAD_SIZE)%nat in
  let req := replicate req_len 0 in
  req ← store_u8 req DEVICE_ADDRESS_POS device_address;
  req ← store_u8 req FUNCTION_CODE_POS function;
  let first_register_address := bswap16 first_register_address in
  let register_quantity := bswap16 register_quantity in
  req ← memcpy_u16 req REQ_TX_FIRST_REGISTER_ADDR_POS first_register_address;
  req ← memcpy_u16 req REQ_TX_QUANTITY_POS register_quantity;
  req ← (if function =? WRITE_MULTIPLE_HOLDING_REGISTERS then
           req ← store_u8 req REQ_TX_MULTIPLE_REG_BYTE_COUNT_POS (Z.of_nat (length request) * 2);
           add_request_data req (REQ_TX_MULTIPLE_REG_BYTE_COUNT_POS + 1) request
         else Ret req);
  append_checksum req req_len.

(** ** The transfer loops, lines 330-417 and 473-524

    The serial port is the operating system's: its calls are the operations of
    a record over an abstract world [W].  A loop of the source that polls the
    port takes [fuel]; [None] stands for a loop that has not ended. *)
Module Rtu.

Record port_ops (W : Type) : Type := {
  (** [write(fd, buf, n)]: the returned count, -1 for an error *)
  op_write : list Z → W → Z * W;
  (** [select] on the port with a timeout in milliseconds: its return value *)
  op_select : Z → W → Z * W;
  (** [read(fd, buf, n)]: the bytes read, [None] for an error *)
  op_read : nat → W → option (list Z) * W;
  (** [tcflush(fd, TCIOFLUSH)] *)
  op_flush : W → W;
  (** [rxtx_gpio.set] and [rxtx_gpio.is_ready] *)
  op_gpio_set : bool → W → W;
  op_gpio_ready : W → bool;
  (** [fast_tcdrain] and [tcdrain] *)
  op_fast_drain : W → W;
  op_drain : W → W;
}.
Arguments op_write {W}. Arguments op_select {W}. Arguments op_read {W}.
Arguments op_flush {W}. Arguments op_gpio_set {W}. Arguments op_gpio_ready {W}.
Arguments op_fast_drain {W}. Arguments op_drain {W}.

(** The members of [TinyModbusRTU] the transfers read. *)
Record TinyModbusRTU : Type := {
  fd : Z;
  ignore_echo : bool;
  initial_timeout : Z;
  within_message_timeout : Z;
}.

Section transfer.
Context {W : Type} (port : port_ops W) (self : TinyModbusRTU).

(** The [while (true)] of [read_reply]; [got] holds the bytes already in [rxbuf]. *)
Fixpoint read_loop (fuel : nat) (rxbuf_len : nat) (timeout : Z) (got : list Z) (w : W) :
    option (list Z * W) :=
  match fuel with
  | O => None
  | S fuel' =>
      let '(rv, w) := op_select port timeout w in
      if rv =? -1 then Some (got, w)
      else if rv =? 0 then Some (got, w)
      else if decide (rxbuf_len ≤ length got)%nat then Some (got, w)
      else
        let '(bytes, w) := op_read port (rxbuf_len - length got) w in
        read_loop fuel' rxbuf_len (within_message_timeout self) (got ++ default [] bytes) w
  end.

Definition read_reply (fuel rxbuf_len : nat) (w : W) : option (list Z * W) :=
  if fd self =? -1 then Some ([], w) else read_loop fuel rxbuf_len (initial_timeout self) [] w.

(** The [while (written < req.size())] of [txrx_impl]. *)
Fixpoint write_loop (fuel : nat) (req : list Z) (written : nat) (w : W) :
    option (outcome modbus_error () * W) :=
  if decide (length req ≤ written)%nat then Some (Ret tt, w)
  else match fuel with
  | O => None
  | S fuel' =>
      let '(c, w) := op_write port (drop written req) w in
      if c =? -1 then Some (Throw SystemError, w)
      else write_loop fuel' req (written + Z.to_nat c) w
  end.

(** The request [txrx_impl] sends. *)
Definition txrx_request (device_address function first_register_address register_quantity : Z)
    (request : list Z) : outcome modbus_error (list Z) :=
  if (function =? WRITE_SINGLE_HOLDING_REGISTER) || (function =? WRITE_SINGLE_COIL) then
    match request with
    | [] => Throw OutOfRange
    | data :: _ => make_single_write_request device_address function first_register_address data
    end
  else make_generic_request device_address function first_register_address register_quantity request.

Definition txrx_impl (fuel : nat) (device_address function first_register_address register_quantity : Z)
    (wait_for_reply : bool) (request : list Z) (w : W) : option (outcome modbus_error (list Z) * W) :=
  if fd self =? -1 then Some (Ret [], w)
  else match txrx_request device_address function first_register_address register_quantity request with
  | Throw x => Some (Throw x, w)
  | Undef => Some (Undef, w)
  | Ret req =>
      let w := op_flush port w in
      let w := op_gpio_set port false w in
      '(sent, w) ← write_loop fuel req 0 w;
      match sent with
      | Throw x => Some (Throw x, w)
      | Undef => Some (Undef, w)
      | Ret _ =>
          let w := if op_gpio_ready port w then op_fast_drain port w else op_drain port w in
          let w := op_gpio_set port true w in
          '(_, w) ← (if ignore_echo self then read_reply fuel (length req) w else Some ([], w));
          if wait_for_reply then
            '(rxbuf, w) ← read_reply fuel MODBUS_MAX_REPLY_SIZE w;
            Some (decode_reply rxbuf (length rxbuf) device_address function, w)
          else Some (Ret [], w)
      end
  end.

(** The [while (register_quantity)] of [txrx].  [impl] is [txrx_impl] applied to
    the device address, the function code and [wait_for_reply]; its arguments are
    the first register, the quantity and the request data of one chunk. *)
Fixpoint txrx_loop (impl : Z → Z → list Z → W → option (outcome modbus_error (list Z) * W))
    (turns : nat) (register_chunk first_register_address register_quantity : Z)
    (written_elements : nat) (request out : list Z) (w : W) :
    option (outcome modbus_error (list Z) * W) :=
  if register_quantity =? 0 then Some (Ret out, w)
  else match turns with
  | O => None
  | S turns' =>
      let current_register_quantity := Z.min register_quantity register_chunk in
      let next := (written_elements + Z.to_nat current_register_quantity)%nat in
      let '(current_request, written_elements) :=
        if decide (next < length request)%nat
        then (take (Z.to_nat current_register_quantity) (drop written_elements request), next)
        else (drop written_elements request, length request) in
      '(res, w) ← impl first_register_address current_register_quantity current_request w;
      match res with
      | Throw x => Some (Throw x, w)
      | Undef => Some (Undef, w)
      | Ret [] => Some (Ret [], w)
      | Ret res =>
          txrx_loop impl turns' register_chunk (u16 (first_register_address + current_register_quantity))
            (u16 (register_quantity - current_register_quantity)) written_elements request (out ++ res) w
      end
  end.

Definition txrx_chunks (impl : Z → Z → list Z → W → option (outcome modbus_error (list Z) * W))
    (first_register_address register_quantity max_packet_size : Z) (request : list Z) (w : W) :
    option (outcome modbus_error (list Z) * W) :=
  if max_packet_size <? Z.of_nat MODBUS_MIN_REPLY_SIZE + 2 then Some (Ret [], w)
  else
    let register_chunk := u16 ((max_packet_size - Z.of_nat MODBUS_MIN_REPLY_SIZE) / 2) in
    txrx_loop impl (Z.to_nat register_quantity) register_chunk first_register_address
      register_quantity 0 request [] w.

Definition txrx (fuel : nat) (device_address function first_register_address register_quantity
    max_packet_size : Z) (wait_for_reply : bool) (request : list Z) (w : W) :
    option (outcome modbus_error (list Z) * W) :=
  txrx_chunks (λ first quantity req, txrx_impl fuel device_address function first quantity wait_for_reply req)
    first_register_address register_quantity max_packet_size request w.

End transfer.
End Rtu.
