(* ===== verification/ModbusFacts.v ===== *)
(** * Properties of the Modbus RTU master

    The CRC detects every corruption confined to two adjacent bytes; frames that
    the master builds carry a valid checksum; decoding a well-formed reply
    returns its registers and never reads outside the received bytes; a chunked
    transfer returns what one unchunked transfer would. *)

From S2P Require Import Prelude Modbus.
Import Crc16 Rtu.

(** ** The CRC register as a linear map over 16-bit words *)
Section crc.

Lemma crc_bit_alt x : crc_bit x = Z.lxor (Z.shiftr x 1) (if Z.odd x then 0xA001 else 0).
Proof.
  unfold crc_bit. change 1 with (Z.ones 1) at 1. rewrite Z.land_ones by lia.
  rewrite Zmod_odd. destruct (Z.odd x); simpl; [done|]. by rewrite Z.lxor_0_r.
Qed.

Lemma crc_bit_u16 x : is_u16 x → is_u16 (crc_bit x).
Proof.
  intros Hx. rewrite crc_bit_alt. apply is_u16_lxor.
  - rewrite Z.shiftr_div_pow2 by lia. unfold is_u16 in *. split.
    + apply Z.div_pos; lia.
    + apply Z.div_lt_upper_bound; lia.
  - by destruct (Z.odd x).
Qed.

Lemma crc_bit_lxor x y : crc_bit (Z.lxor x y) = Z.lxor (crc_bit x) (crc_bit y).
Proof.
  rewrite !crc_bit_alt, Z.shiftr_lxor.
  rewrite <- !Z.bit0_odd, Z.lxor_spec.
  apply Z.bits_inj'. intros n Hn. rewrite !Z.lxor_spec.
  destruct (Z.testbit x 0), (Z.testbit y 0); simpl;
    rewrite ?Z.bits_0; destruct (Z.testbit (Z.shiftr x 1) n), (Z.testbit (Z.shiftr y 1) n),
    (Z.testbit 0xA001 n); done.
Qed.

Lemma crc_bit_zero x : is_u16 x → crc_bit x = 0 → x = 0.
Proof.
  unfold is_u16. rewrite crc_bit_alt. intros Hx H.
  apply Z.lxor_eq in H. rewrite Z.shiftr_div_pow2 in H by lia.
  pose proof (Zdiv2_odd_eqn x) as Hd. rewrite Z.div2_div in Hd.
  change (2 ^ 1) with 2 in H. destruct (Z.odd x); lia.
Qed.

Lemma crc_iter_u16 n x : is_u16 x → is_u16 (Nat.iter n crc_bit x).
Proof. intros Hx. induction n; simpl; auto using crc_bit_u16. Qed.

Lemma crc_iter_lxor n x y :
  Nat.iter n crc_bit (Z.lxor x y) = Z.lxor (Nat.iter n crc_bit x) (Nat.iter n crc_bit y).
Proof. induction n as [|n IH]; simpl; [done|]. by rewrite IH, crc_bit_lxor. Qed.

Lemma crc_iter_zero n x : is_u16 x → Nat.iter n crc_bit x = 0 → x = 0.
Proof.
  intros Hx. induction n as [|n IH]; simpl; [done|].
  intros H. apply IH, crc_bit_zero; auto using crc_iter_u16.
Qed.

Lemma crc_byte_u16 c b : is_u16 c → is_u8 b → is_u16 (crc_byte c b).
Proof. intros. apply crc_iter_u16, is_u16_lxor; auto using is_u8_u16. Qed.

Lemma crc_fold_u16 l c : is_u16 c → Forall is_u8 l → is_u16 (foldl crc_byte c l).
Proof.
  intros Hc Hl. revert c Hc. induction Hl; simpl; auto using crc_byte_u16.
Qed.

Lemma crc16_u16 l n : Forall is_u8 l → is_u16 (calculate_modbus_crc16 l n).
Proof. intros. apply crc_fold_u16; [done|]. by apply Forall_take. Qed.

(** The difference of two runs depends only on the differences of the inputs. *)
Lemma crc_byte_diff c1 c2 b1 b2 :
  Z.lxor (crc_byte c1 b1) (crc_byte c2 b2) =
  crc_byte (Z.lxor c1 c2) (Z.lxor b1 b2).
Proof.
  unfold crc_byte. rewrite <- crc_iter_lxor. f_equal.
  rewrite !Z.lxor_assoc. f_equal. rewrite <- !Z.lxor_assoc. f_equal. apply Z.lxor_comm.
Qed.

Lemma crc_byte_zero c b : is_u16 c → is_u16 b → crc_byte c b = 0 → c = b.
Proof. intros Hc Hb H. by eapply Z.lxor_eq, crc_iter_zero, H; apply is_u16_lxor. Qed.

Lemma crc_byte_inj c1 c2 b :
  is_u16 c1 → is_u16 c2 → crc_byte c1 b = crc_byte c2 b → c1 = c2.
Proof.
  intros H1 H2 H. apply Z.lxor_eq, crc_byte_zero; [by apply is_u16_lxor|done|].
  by rewrite <- (Z.lxor_nilpotent b), <- crc_byte_diff, H, !Z.lxor_nilpotent.
Qed.

Lemma crc_fold_inj l c1 c2 :
  is_u16 c1 → is_u16 c2 → Forall is_u8 l → foldl crc_byte c1 l = foldl crc_byte c2 l → c1 = c2.
Proof.
  intros H1 H2 Hl. revert c1 c2 H1 H2. induction Hl; simpl; intros c1 c2 H1 H2 Heq; [done|].
  apply IHHl in Heq; auto using crc_byte_u16. eapply crc_byte_inj; eauto.
Qed.

(** A non-zero byte leaves, after eight shifts, a register above the low byte. *)
Lemma crc_iter8_high d : is_u8 d → d ≠ 0 → is_u8 (Nat.iter 8 crc_bit d) → False.
Proof.
  intros Hd Hne Hlow.
  assert (forallb (λ z, (z =? 0) || (256 <=? Nat.iter 8 crc_bit z)) (seqZ 0 256) = true) as Hall.
  { vm_compute. reflexivity. }
  rewrite forallb_forall in Hall.
  specialize (Hall d). rewrite <- list_elem_of_In, elem_of_seqZ in Hall.
  unfold is_u8 in *. lia.
Qed.

Lemma crc_two_bytes_inj c a1 a2 b1 b2 :
  is_u16 c → is_u8 a1 → is_u8 a2 → is_u8 b1 → is_u8 b2 →
  crc_byte (crc_byte c a1) a2 = crc_byte (crc_byte c b1) b2 → a1 = b1 ∧ a2 = b2.
Proof.
  intros Hc Ha1 Ha2 Hb1 Hb2 H.
  assert (Z.lxor (crc_byte c a1) (crc_byte c b1) = Z.lxor a2 b2) as Hd.
  { apply crc_byte_zero; auto 6 using is_u16_lxor, is_u8_lxor, crc_byte_u16, is_u8_u16.
    by rewrite <- crc_byte_diff, H, Z.lxor_nilpotent. }
  rewrite crc_byte_diff, Z.lxor_nilpotent in Hd. unfold crc_byte in Hd.
  rewrite Z.lxor_0_l in Hd.
  destruct (decide (Z.lxor a1 b1 = 0)) as [H0|Hne].
  - rewrite H0 in Hd. change (Nat.iter 8 crc_bit 0) with 0 in Hd.
    split; apply Z.lxor_eq; congruence.
  - exfalso. apply (crc_iter8_high (Z.lxor a1 b1)); auto using is_u8_lxor.
    rewrite Hd. auto using is_u8_lxor.
Qed.
End crc.

(** ** Bytes and words *)
Section words.

Lemma lo8_mod w : lo8 w = w mod 2 ^ 8.
Proof. unfold lo8. change 0xFF with (Z.ones 8). by apply Z.land_ones. Qed.

Lemma hi8_div w : hi8 w = w / 2 ^ 8.
Proof. by apply Z.shiftr_div_pow2. Qed.

Lemma lo8_u8 w : is_u8 (lo8 w).
Proof. rewrite lo8_mod. apply is_u8_u8. Qed.

Lemma hi8_u8 w : is_u16 w → is_u8 (hi8 w).
Proof.
  rewrite hi8_div. unfold is_u16, is_u8. intros Hw.
  split; [apply Z.div_pos; lia | apply Z.div_lt_upper_bound; lia].
Qed.

Lemma word_of_bytes b0 b1 : is_u8 b0 → Z.lor b0 (Z.shiftl b1 8) = b0 + 256 * b1.
Proof. intros Hb. rewrite Z.lor_comm, lor_shiftl_add by done. lia. Qed.

Lemma word_of_lo_hi w : is_u16 w → Z.lor (lo8 w) (Z.shiftl (hi8 w) 8) = w.
Proof.
  intros Hw. rewrite word_of_bytes by apply lo8_u8. rewrite lo8_mod, hi8_div.
  pose proof (Z.div_mod w (2 ^ 8)). lia.
Qed.

Lemma bswap16_bytes b0 b1 :
  is_u8 b0 → is_u8 b1 → bswap16 (Z.lor b0 (Z.shiftl b1 8)) = 256 * b0 + b1.
Proof.
  intros H0 H1. rewrite word_of_bytes by done. unfold bswap16, is_u8 in *.
  assert (Z.shiftr (b0 + 256 * b1) 8 = b1) as ->.
  { rewrite Z.shiftr_div_pow2 by lia. change (2 ^ 8) with 256.
    rewrite Z.mul_comm, Z.div_add by lia. rewrite Z.div_small by lia. lia. }
  rewrite lor_shiftl_add by lia. unfold u16.
  replace ((b0 + 256 * b1) * 2 ^ 8 + b1) with (256 * b0 + b1 + b1 * 2 ^ 16) by lia.
  rewrite Z.mod_add by lia. apply Z.mod_small. lia.
Qed.

(** The big-endian word at the head of a frame field. *)
Lemma bswap16_lo_hi w : is_u16 w → lo8 (bswap16 w) = hi8 w ∧ hi8 (bswap16 w) = lo8 w.
Proof.
  intros Hw. rewrite <- (word_of_lo_hi w Hw) at 1 3.
  pose proof (lo8_u8 w) as Ha. pose proof (hi8_u8 w Hw) as Hb. rewrite bswap16_bytes by done.
  generalize dependent (lo8 w). generalize dependent (hi8 w). unfold is_u8. intros b Hb a Ha.
  rewrite lo8_mod, hi8_div. change (2 ^ 8) with 256 in *. rewrite (Z.mul_comm 256). split.
  - rewrite Z.add_comm, Z.mod_add by lia. apply Z.mod_small; lia.
  - rewrite Z.div_add_l by lia. rewrite (Z.div_small b 256) by lia. lia.
Qed.

Lemma bswap16_u16 w : is_u16 (bswap16 w).
Proof. apply is_u16_u16. Qed.
End words.

#[export] Hint Resolve lo8_u8 hi8_u8 bswap16_u16 : everest.

(** ** Checksums of whole frames *)
Section frames.

(** A payload followed by its two checksum bytes, as [append_checksum] leaves it. *)
Definition with_crc (payload : list Z) : list Z :=
  let crc := calculate_modbus_crc16 payload (length payload) in
  payload ++ [lo8 crc; hi8 crc].

Lemma crc16_app payload tail :
  calculate_modbus_crc16 (payload ++ tail) (length payload) = foldl crc_byte 0xFFFF payload.
Proof. unfold calculate_modbus_crc16. by rewrite take_app_length. Qed.

Lemma crc16_whole payload :
  calculate_modbus_crc16 payload (length payload) = foldl crc_byte 0xFFFF payload.
Proof. unfold calculate_modbus_crc16. by rewrite firstn_all. Qed.

Lemma validate_checksum_frame payload c0 c1 n :
  n = (length payload + 2)%nat → (3 ≤ length payload)%nat →
  validate_checksum (payload ++ [c0; c1]) n =
  Ret (Z.lor c0 (Z.shiftl c1 8) =? foldl crc_byte 0xFFFF payload).
Proof.
  intros -> Hlen. unfold validate_checksum. rewrite decide_False by lia.
  replace (length payload + 2 - 2)%nat with (length payload) by lia.
  rewrite crc16_app. unfold memcpy_to_u16, load_u8.
  rewrite !lookup_app_r by lia.
  replace (length payload - length payload)%nat with 0%nat by lia.
  replace (S (length payload) - length payload)%nat with 1%nat by lia. done.
Qed.

Lemma validate_with_crc payload n :
  n = (length payload + 2)%nat → (3 ≤ length payload)%nat → Forall is_u8 payload →
  validate_checksum (with_crc payload) n = Ret true.
Proof.
  intros Hn Hlen Hu8. unfold with_crc. rewrite validate_checksum_frame by done.
  rewrite crc16_whole, word_of_lo_hi by (by apply crc_fold_u16).
  by rewrite Z.eqb_refl.
Qed.

Lemma append_checksum_frame payload x y n :
  n = (length payload + 2)%nat → (3 ≤ length payload)%nat →
  append_checksum (payload ++ [x; y]) n = Ret (with_crc payload).
Proof.
  intros -> Hlen. unfold append_checksum. rewrite decide_False by lia.
  replace (length payload + 2 - 2)%nat with (length payload) by lia.
  unfold memcpy_u16. rewrite decide_True by (rewrite length_app; simpl; lia).
  unfold with_crc. rewrite crc16_app, crc16_whole.
  rewrite insert_app_r_alt by lia. rewrite insert_app_r_alt by lia.
  rewrite Nat.sub_diag. by replace (S (length payload) - length payload)%nat with 1%nat by lia.
Qed.
End frames.

(** A frame whose checksum is accepted is rejected after any corruption of two
    adjacent payload bytes (and so of any one byte, or any burst of up to 9 bits):
    [validate_checksum] returns false on the corrupted frame. *)
Lemma validate_checksum_detects_burst (pre post : list Z) (a1 a2 b1 b2 c0 c1 : Z) :
  Forall is_u8 pre → Forall is_u8 post → Forall is_u8 [a1; a2; b1; b2] →
  (a1, a2) ≠ (b1, b2) →
  validate_checksum (pre ++ [a1; a2] ++ post ++ [c0; c1]) (length pre + length post + 4) = Ret true →
  validate_checksum (pre ++ [b1; b2] ++ post ++ [c0; c1]) (length pre + length post + 4) = Ret false.
Proof.
  intros Hpre Hpost Hb Hne Hok. rewrite !Forall_cons in Hb. destruct Hb as (Ha1 & Ha2 & Hb1 & Hb2 & _).
  destruct (decide (length pre + length post + 4 < 5)%nat) as [Hs|Hs].
  { unfold validate_checksum in Hok. by rewrite decide_True in Hok. }
  assert (∀ x y, pre ++ [x; y] ++ post ++ [c0; c1] = (pre ++ [x; y] ++ post) ++ [c0; c1]) as Has
    by (intros; by rewrite <- !app_assoc).
  rewrite Has, validate_checksum_frame in Hok by (rewrite !length_app; simpl; lia).
  rewrite Has, validate_checksum_frame by (rewrite !length_app; simpl; lia).
  injection Hok as Hcrc. f_equal. apply Z.eqb_eq in Hcrc. rewrite Hcrc. apply Z.eqb_neq.
  rewrite !foldl_app. simpl. intros Heq.
  assert (is_u16 (foldl crc_byte 0xFFFF pre)) by (by apply crc_fold_u16).
  apply crc_fold_inj in Heq; auto using crc_byte_u16.
  apply crc_two_bytes_inj in Heq as [-> ->]; auto.
Qed.

(** ** Decoding replies *)
Section decode.

(** The reply frames of a slave: a read of registers (big-endian words) and a
    read of coils or inputs (packed bytes). *)
Definition be_bytes (regs : list Z) : list Z := regs ≫= λ r, [hi8 r; lo8 r].

Definition data_reply (addr function : Z) (data : list Z) : list Z :=
  with_crc ([addr; function; Z.of_nat (length data)] ++ data).

Definition exception_reply (addr function code : Z) : list Z :=
  with_crc [addr; Z.lor function 0x80; code].

(** The words a list of an even number of bytes holds. *)
Fixpoint be_pairs (l : list Z) : list Z :=
  match l with
  | a :: b :: l' => 256 * a + b :: be_pairs l'
  | _ => []
  end.

Lemma length_be_bytes regs : length (be_bytes regs) = (2 * length regs)%nat.
Proof. induction regs as [|r regs IH]; simpl in *; lia. Qed.

Lemma be_bytes_u8 regs : Forall is_u16 regs → Forall is_u8 (be_bytes regs).
Proof. induction 1; simpl; auto with everest. Qed.

Lemma be_pairs_bytes regs : Forall is_u16 regs → be_pairs (be_bytes regs) = regs.
Proof.
  induction 1 as [|r regs Hr _ IH]; [done|]. simpl in *. f_equal; [|done].
  rewrite <- (word_of_lo_hi r Hr) at 3. rewrite word_of_bytes by apply lo8_u8. lia.
Qed.

Lemma be_pairs_snoc k : ∀ l a b,
  length l = (2 * k)%nat → be_pairs (l ++ [a; b]) = be_pairs l ++ [256 * a + b].
Proof.
  induction k as [|k IH]; intros [|x [|y l]] a b Hl; simpl in *; try lia; [done|].
  f_equal. apply IH. lia.
Qed.

Lemma copy_result_pairs turns : ∀ pre l tail len,
  length l = (2 * turns)%nat → (length pre + length l ≤ len)%nat → Forall is_u8 l →
  copy_result (pre ++ l ++ tail) len (length pre) turns = Ret (be_pairs l).
Proof.
  induction turns as [|turns IH]; intros pre l tail len Hl Hlen Hu8; simpl in *.
  { by destruct l. }
  destruct l as [|a [|b l]]; simpl in *; try lia.
  rewrite !Forall_cons in Hu8. destruct Hu8 as (Ha & Hb & Hu8).
  rewrite decide_True by lia. unfold memcpy_to_u16, load_u8.
  rewrite !lookup_app_r by lia. rewrite Nat.sub_diag.
  replace (S (length pre) - length pre)%nat with 1%nat by lia. simpl.
  replace (pre ++ a :: b :: l ++ tail) with ((pre ++ [a; b]) ++ l ++ tail)
    by (by rewrite <- app_assoc).
  replace (length pre + 2)%nat with (length (pre ++ [a; b])) by (rewrite length_app; simpl; lia).
  rewrite IH by (rewrite ?length_app; simpl; lia || done). simpl.
  by rewrite bswap16_bytes.
Qed.

Lemma check_for_exception_read function :
  is_register_read_function function = true ∨ is_bit_read_function function = true →
  check_for_exception function = false.
Proof.
  unfold is_register_read_function, is_bit_read_function.
  intros H. assert (function = 1 ∨ function = 2 ∨ function = 3 ∨ function = 4) as Hf
    by (unfold READ_MULTIPLE_HOLDING_REGISTERS, READ_INPUT_REGISTERS, READ_COILS,
          READ_DISCRETE_INPUTS in *; lia).
  by destruct Hf as [->|[->|[->| ->]]].
Qed.

Lemma length_with_crc payload : length (with_crc payload) = (length payload + 2)%nat.
Proof. unfold with_crc. rewrite length_app. simpl. lia. Qed.

(** What [decode_reply] does with a checksummed reply to a read, before it copies
    the payload. *)
Lemma decode_data_reply addr function data even :
  is_u8 addr → is_u8 function → Forall is_u8 data → Z.of_nat (length data) < 256 →
  (is_register_read_function function, is_bit_read_function function) = (even, negb even) →
  (even = true → length data mod 2 = 0)%nat →
  decode_reply (data_reply addr function data) (length data + 5) addr function =
  copy_result (data_reply addr function data) (length data + 5) 3 ((length data + 1) / 2).
Proof.
  intros Haddr Hfun Hdata Hlen Hkind Heven. injection Hkind as Hreg Hbit.
  assert (check_for_exception function = false) as Hex.
  { apply check_for_exception_read. rewrite Hreg, Hbit. destruct even; auto. }
  assert (is_write_function function = false) as Hw.
  { revert Hreg Hbit. unfold is_write_function, is_register_read_function, is_bit_read_function,
      READ_MULTIPLE_HOLDING_REGISTERS, READ_INPUT_REGISTERS, READ_COILS, READ_DISCRETE_INPUTS,
      WRITE_SINGLE_COIL, WRITE_SINGLE_HOLDING_REGISTER, WRITE_MULTIPLE_COILS,
      WRITE_MULTIPLE_HOLDING_REGISTERS. destruct even; lia. }
  assert (validate_checksum (data_reply addr function data) (length data + 5) = Ret true) as Hv.
  { apply validate_with_crc; [rewrite length_app; simpl; lia|rewrite length_app; simpl; lia|].
    apply Forall_app; split; [|done]. rewrite !Forall_cons. unfold is_u8 in *.
    repeat split; try lia. constructor. }
  unfold decode_reply. rewrite decide_False by lia.
  rewrite decide_False by (unfold MODBUS_MIN_REPLY_SIZE; lia).
  assert (load_u8 (data_reply addr function data) DEVICE_ADDRESS_POS = Ret addr) as -> by done.
  assert (load_u8 (data_reply addr function data) FUNCTION_CODE_POS = Ret function) as -> by done.
  cbn [mbind outcome_mbind outcome_bind]. rewrite Z.eqb_refl. cbn [negb].
  rewrite Hex, Z.eqb_refl, Hv. cbn [negb mbind outcome_mbind outcome_bind].
  unfold reply_layout. rewrite Hw, Hreg, Hbit.
  assert (load_u8 (data_reply addr function data) RES_RX_LEN_POS = Ret (Z.of_nat (length data))) as -> by done.
  unfold RES_RX_START_OF_PAYLOAD.
  assert ((Z.of_nat (length data + 5) <? Z.of_nat 3 + Z.of_nat (length data)) = false) as Hc
    by (apply Z.ltb_ge; clear; lia).
  assert (Z.to_nat ((Z.of_nat (length data) + 1) / 2) = ((length data + 1) / 2)%nat) as Ht.
  { replace (Z.of_nat (length data) + 1) with (Z.of_nat (length data + 1)) by lia.
    change 2 with (Z.of_nat 2). rewrite <- Nat2Z.inj_div. lia. }
  destruct even; cbn [negb mbind outcome_mbind outcome_bind]; rewrite Hc, Ht; [|done].
  assert ((Z.of_nat (length data) mod 2 =? 1) = false) as ->; [|done].
  change 2 with (Z.of_nat 2). rewrite <- Nat2Z.inj_mod, Heven by done. done.
Qed.
End decode.

Lemma decode_register_reply (addr function : Z) (regs : list Z) :
  is_u8 addr → is_u8 function → is_register_read_function function = true →
  Forall is_u16 regs → (length regs ≤ 127)%nat →
  decode_reply (data_reply addr function (be_bytes regs)) (2 * length regs + 5) addr function = Ret regs.
Proof.
  intros Haddr Hfun Hread Hregs Hlen.
  assert (is_bit_read_function function = false) as Hbit.
  { revert Hread. unfold is_register_read_function, is_bit_read_function,
      READ_MULTIPLE_HOLDING_REGISTERS, READ_INPUT_REGISTERS, READ_COILS, READ_DISCRETE_INPUTS. lia. }
  pose proof (length_be_bytes regs) as Hl. pose proof (be_bytes_u8 regs Hregs) as Hu8.
  rewrite <- Hl. rewrite (decode_data_reply _ _ _ true); try done.
  2: rewrite Hl; lia. 2: by rewrite Hread, Hbit.
  2:{ intros _. rewrite Hl, Nat.mul_comm. apply Nat.Div0.mod_mul. }
  unfold data_reply, with_crc. rewrite <- app_assoc.
  change 3%nat with (length [addr; function; Z.of_nat (length (be_bytes regs))]).
  rewrite copy_result_pairs; [by rewrite be_pairs_bytes| |simpl; lia|done].
  rewrite Hl. replace (2 * length regs + 1)%nat with (1 + length regs * 2)%nat by lia.
  rewrite Nat.div_add by lia. change (1 / 2)%nat with 0%nat. lia.
Qed.

(** Reading registers round-trips: the reply a slave builds for at most 127
    registers, in the Modbus RTU format, is decoded to exactly those registers. *)
Lemma decode_reply_registers (addr function : Z) (regs : list Z) :
  is_u8 addr → is_u8 function → is_register_read_function function = true →
  Forall is_u16 regs → (length regs ≤ 127)%nat →
  decode_reply (data_reply addr function (be_bytes regs)) (2 * length regs + 5) addr function = Ret regs.
Proof. apply decode_register_reply. Qed.

(** A well-formed Modbus exception reply always ends in a [ModbusException]
    carrying the text of its code, for every function code below 0x80. *)
Lemma decode_reply_exception (addr function code : Z) :
  is_u8 addr → 0 ≤ function < 128 → is_u8 code →
  decode_reply (exception_reply addr function code) 5 addr function =
  Throw (ModbusException (modbus_exception_text code)).
Proof.
  intros Haddr Hfun Hcode.
  assert (Z.lor function 0x80 = function + 128) as Hor.
  { rewrite Z.lor_comm. rewrite (lor_shiftl_add 7 1) by lia. lia. }
  assert (validate_checksum (exception_reply addr function code) 5 = Ret true) as Hv.
  { apply validate_with_crc; [done|simpl; lia|]. rewrite !Forall_cons, Hor. unfold is_u8 in *.
    repeat split; try lia. constructor. }
  assert (check_for_exception (function + 128) = true) as Hex.
  { unfold check_for_exception. apply negb_true_iff, Z.eqb_neq. intros H0.
    apply (f_equal (λ z, Z.testbit z 7)) in H0.
    rewrite Z.land_spec, Z.bits_0, <- Hor, Z.lor_spec, orb_true_r in H0. done. }
  assert (clear_exception_bit (function + 128) = function) as Hclr.
  { unfold clear_exception_bit. rewrite <- Hor, Z.land_lor_distr_l.
    change (Z.land 0x80 (Z.lnot (Z.shiftl 1 7))) with 0. rewrite Z.lor_0_r.
    unfold u8. change (Z.lnot (Z.shiftl 1 7)) with (-129).
    rewrite <- Z.land_ones, <- Z.land_assoc by lia. change (Z.land (-129) (Z.ones 8)) with (Z.ones 7).
    rewrite Z.land_ones by lia. apply Z.mod_small. lia. }
  unfold decode_reply. rewrite decide_False by done. rewrite decide_False by (unfold MODBUS_MIN_REPLY_SIZE; lia).
  assert (load_u8 (exception_reply addr function code) DEVICE_ADDRESS_POS = Ret addr) as -> by done.
  assert (load_u8 (exception_reply addr function code) FUNCTION_CODE_POS = Ret (function + 128)) as ->
    by (by rewrite <- Hor).
  assert (load_u8 (exception_reply addr function code) RES_EXCEPTION_CODE = Ret code) as -> by done.
  cbn [mbind outcome_mbind outcome_bind]. rewrite Z.eqb_refl. cbn [negb].
  by rewrite Hex, Hclr, Z.eqb_refl, Hv.
Qed.

(** ** Bounds of the reads from the receive buffer *)
Section bounds.

Lemma load_u8_ok buf i : (i < length buf)%nat → ∃ b, load_u8 buf i = Ret b.
Proof. intros Hi. unfold load_u8. destruct (lookup_lt_is_Some_2 buf i Hi) as [b ->]. eauto. Qed.

Lemma memcpy_to_u16_ok buf i n :
  (n = 1%nat ∨ n = 2%nat) → (i + n ≤ length buf)%nat → ∃ t, memcpy_to_u16 buf i n = Ret t.
Proof.
  intros Hn Hi. unfold memcpy_to_u16. destruct (load_u8_ok buf i) as [b0 ->]; [lia|]. simpl.
  case_decide; [|eauto]. destruct (load_u8_ok buf (S i)) as [b1 ->]; [lia|]. simpl. eauto.
Qed.

Lemma copy_result_ok buf len turns : ∀ i,
  (len ≤ length buf)%nat → (turns = 0 ∨ i + 2 * turns ≤ len + 1)%nat →
  ∃ l, copy_result buf len i turns = Ret l.
Proof.
  induction turns as [|turns IH]; intros i Hlen Hi; simpl; [eauto|].
  destruct (memcpy_to_u16_ok buf i (if decide (i < len - 1)%nat then 2 else 1)) as [t ->];
    [case_decide; auto|case_decide; lia|]. simpl.
  destruct (IH (i + 2)%nat) as [l ->]; [done|destruct turns; lia|]. simpl. eauto.
Qed.
End bounds.

(** [decode_reply] never reads outside the [len] bytes it was given: for every
    buffer, length within the buffer, address and function code it returns a
    result or one of its exceptions. *)
Lemma decode_reply_in_bounds (buf : list Z) (len : nat) (addr function : Z) :
  Forall is_u8 buf → (len ≤ length buf)%nat → decode_reply buf len addr function ≠ Undef.
Proof.
  intros Hu8 Hlen. unfold decode_reply.
  case_decide; [done|]. case_decide as Hmin; [done|]. unfold MODBUS_MIN_REPLY_SIZE in *.
  destruct (load_u8_ok buf DEVICE_ADDRESS_POS) as [a ->]; [unfold DEVICE_ADDRESS_POS; lia|].
  destruct (load_u8_ok buf FUNCTION_CODE_POS) as [f ->]; [unfold FUNCTION_CODE_POS; lia|].
  assert (∃ v, validate_checksum buf len = Ret v) as [v ->].
  { unfold validate_checksum. case_decide; [eauto|].
    destruct (memcpy_to_u16_ok buf (len - 2) 2) as [t ->]; [auto|lia|]. simpl. eauto. }
  destruct (load_u8_ok buf RES_EXCEPTION_CODE) as [ec ->]; [unfold RES_EXCEPTION_CODE; lia|].
  assert (∃ bc, load_u8 buf RES_RX_LEN_POS = Ret bc ∧ is_u8 bc) as (bc & Hbc & Hbc8).
  { unfold load_u8. destruct (lookup_lt_is_Some_2 buf RES_RX_LEN_POS) as [bc Hb];
      [unfold RES_RX_LEN_POS; lia|]. exists bc. rewrite Hb. split; [done|].
    rewrite Forall_lookup in Hu8. eauto. }
  unfold reply_layout. rewrite Hbc. unfold is_u8 in Hbc8.
  repeat (case_match || cbn [mbind outcome_mbind outcome_bind] in * ); simplify_eq; try done.
  all: match goal with H : (_ <? _) = false |- _ => apply Z.ltb_ge in H end.
  all: match goal with |- copy_result ?b ?l ?i ?t ≠ Undef =>
         destruct (copy_result_ok b l t i) as [r ->]; [done| |done] end.
  all: unfold RES_TX_START_OF_PAYLOAD, RES_RX_START_OF_PAYLOAD in *; right.
  all: match goal with H : Z.of_nat ?k + ?n <= _ |- _ =>
         pose proof (Z.mul_div_le (n + 1) 2 ltac:(lia)); pose proof (Z.div_pos (n + 1) 2); lia end.
Qed.

(** A reply to a read of coils or discrete inputs with an odd number of data
    bytes is decoded with the low byte of the checksum in the last word: the copy
    loop takes two bytes for the last, single data byte, since the checksum bytes
    follow it in the buffer. *)
Lemma decode_reply_odd_coils (addr function d : Z) (data : list Z) :
  is_u8 addr → is_u8 function → is_bit_read_function function = true →
  Forall is_u8 data → is_u8 d → (length data mod 2 = 0)%nat → (length data ≤ 254)%nat →
  decode_reply (data_reply addr function (data ++ [d])) (length data + 6) addr function =
  Ret (be_pairs data ++ [256 * d + lo8 (foldl crc_byte 0xFFFF
         ([addr; function; Z.of_nat (length (data ++ [d]))] ++ data ++ [d]))]).
Proof.
  intros Haddr Hfun Hread Hdata Hd Heven Hlen.
  assert (is_register_read_function function = false) as Hreg.
  { revert Hread. unfold is_register_read_function, is_bit_read_function,
      READ_MULTIPLE_HOLDING_REGISTERS, READ_INPUT_REGISTERS, READ_COILS, READ_DISCRETE_INPUTS. lia. }
  assert (length (data ++ [d]) = (length data + 1)%nat) as Hl by (rewrite length_app; done).
  replace (length data + 6)%nat with (length (data ++ [d]) + 5)%nat by lia.
  rewrite (decode_data_reply _ _ _ false); try done; [|by apply Forall_app_2, Forall_singleton|lia|by rewrite Hread, Hreg].
  unfold data_reply, with_crc. rewrite crc16_whole.
  set (crc := foldl _ _ _). rewrite <- !app_assoc.
  replace (data ++ [d] ++ [lo8 crc; hi8 crc]) with ((data ++ [d; lo8 crc]) ++ [hi8 crc])
    by (by rewrite <- app_assoc).
  change 3%nat with (length [addr; function; Z.of_nat (length (data ++ [d]))]).
  pose proof (Nat.div_mod_eq (length data) 2) as Hdm.
  assert ((length (data ++ [d]) + 1) / 2 = S (length data / 2))%nat as Hturns.
  { rewrite Hl. replace (length data + 1 + 1)%nat with (length data + 1 * 2)%nat by lia.
    rewrite Nat.div_add by lia. lia. }
  rewrite copy_result_pairs.
  - f_equal. apply (be_pairs_snoc (length data / 2)).
    lia.
  - rewrite length_app, Hturns. cbn [length]. lia.
  - rewrite !length_app. cbn [length]. lia.
  - apply Forall_app. split; [done|]. rewrite !Forall_cons. auto with everest.
Qed.

(** ** Requests on the wire *)
Section requests.

Lemma be_field w : is_u16 w → [lo8 (bswap16 w); hi8 (bswap16 w)] = [hi8 w; lo8 w].
Proof. intros Hw. by destruct (bswap16_lo_hi w Hw) as [-> ->]. Qed.

Lemma memcpy_u16_at pre x y tail w :
  memcpy_u16 (pre ++ x :: y :: tail) (length pre) w = Ret (pre ++ lo8 w :: hi8 w :: tail).
Proof.
  unfold memcpy_u16. rewrite decide_True by (rewrite length_app; simpl; lia).
  rewrite !insert_app_r_alt by lia. rewrite Nat.sub_diag.
  by replace (S (length pre) - length pre)%nat with 1%nat by lia.
Qed.

Lemma add_request_data_spec regs : ∀ pre tail,
  Forall is_u16 regs →
  add_request_data (pre ++ replicate (2 * length regs) 0 ++ tail) (length pre) regs =
  Ret (pre ++ be_bytes regs ++ tail).
Proof.
  induction regs as [|r regs IH]; intros pre tail Hregs; [done|].
  rewrite Forall_cons in Hregs. destruct Hregs as [Hr Hregs].
  replace (2 * length (r :: regs))%nat with (S (S (2 * length regs))) by (simpl; lia).
  cbn [replicate app add_request_data]. rewrite memcpy_u16_at. cbn [mbind outcome_mbind outcome_bind].
  pose proof (be_field r Hr) as Hf. injection Hf as -> ->.
  replace (pre ++ hi8 r :: lo8 r :: replicate (2 * length regs) 0 ++ tail)
    with ((pre ++ [hi8 r; lo8 r]) ++ replicate (2 * length regs) 0 ++ tail) by (by rewrite <- app_assoc).
  replace (length pre + 2)%nat with (length (pre ++ [hi8 r; lo8 r])) by (rewrite length_app; done).
  rewrite IH by done. by rewrite <- app_assoc.
Qed.

(** The header every request starts with. *)
Definition request_header (addr function first second : Z) : list Z :=
  [addr; function; hi8 first; lo8 first; hi8 second; lo8 second].

Lemma request_header_u8 addr function first second :
  is_u8 addr → is_u8 function → is_u16 first → is_u16 second →
  Forall is_u8 (request_header addr function first second).
Proof. intros. unfold request_header. auto 10 with everest. Qed.

Lemma request_header_built addr function first second tail (k : list Z → outcome modbus_error (list Z)) :
  is_u8 addr → is_u8 function → is_u16 first → is_u16 second →
  (req ← store_u8 (replicate 6 0 ++ tail) DEVICE_ADDRESS_POS addr;
   req ← store_u8 req FUNCTION_CODE_POS function;
   req ← memcpy_u16 req REQ_TX_FIRST_REGISTER_ADDR_POS (bswap16 first);
   req ← memcpy_u16 req REQ_TX_QUANTITY_POS (bswap16 second);
   k req) = k (request_header addr function first second ++ tail).
Proof.
  intros Ha Hf H1 H2. unfold store_u8. simpl.
  rewrite (u8_id addr), (u8_id function) by done. unfold memcpy_u16. simpl.
  pose proof (be_field first H1) as He1. pose proof (be_field second H2) as He2.
  injection He1 as -> ->. by injection He2 as -> ->.
Qed.

Lemma single_write_wire addr function first data :
  is_u8 addr → is_u8 function → is_u16 first → is_u16 data →
  make_single_write_request addr function first data = Ret (with_crc (request_header addr function first data)).
Proof.
  intros Ha Hf H1 H2. unfold make_single_write_request.
  change (replicate 8 0) with (replicate 6 0 ++ [0; 0]).
  etransitivity; [by apply request_header_built|]. by apply append_checksum_frame; [|simpl; lia].
Qed.

Lemma read_request_wire addr function first quantity :
  is_u8 addr → is_u8 function → is_u16 first → is_u16 quantity →
  function ≠ WRITE_MULTIPLE_HOLDING_REGISTERS →
  make_generic_request addr function first quantity [] =
  Ret (with_crc (request_header addr function first quantity)).
Proof.
  intros Ha Hf H1 H2 Hne. unfold make_generic_request.
  change (replicate (0 + MODBUS_BASE_PAYLOAD_SIZE) 0) with (replicate 6 0 ++ [0; 0]).
  etransitivity; [by apply request_header_built|]. apply Z.eqb_neq in Hne. rewrite Hne.
  by apply append_checksum_frame; [|simpl; lia].
Qed.

Lemma write_multiple_wire addr first regs :
  is_u8 addr → is_u16 first → Forall is_u16 regs → regs ≠ [] → is_u16 (Z.of_nat (length regs)) →
  make_generic_request addr WRITE_MULTIPLE_HOLDING_REGISTERS first (Z.of_nat (length regs)) regs =
  Ret (with_crc (request_header addr WRITE_MULTIPLE_HOLDING_REGISTERS first (Z.of_nat (length regs)) ++
                 u8 (Z.of_nat (length regs) * 2) :: be_bytes regs)).
Proof.
  intros Ha H1 Hregs Hne H2. unfold make_generic_request.
  assert (((match regs with [] => 0 | _ => 2 * length regs + 1 end) + MODBUS_BASE_PAYLOAD_SIZE =
          6 + (1 + (2 * length regs + 2)))%nat) as Hlen
    by (destruct regs; [done|unfold MODBUS_BASE_PAYLOAD_SIZE; lia]).
  rewrite Hlen, !replicate_add. change (replicate 1 0) with [0].
  etransitivity; [by apply request_header_built|].
  rewrite Z.eqb_refl. set (hdr := request_header _ _ _ _).
  unfold store_u8, REQ_TX_MULTIPLE_REG_BYTE_COUNT_POS. rewrite decide_True by (rewrite length_app; simpl; lia).
  cbn [mbind outcome_mbind outcome_bind].
  rewrite insert_app_r_alt by (simpl; lia). cbn [length hdr request_header].
  change (6 - 6)%nat with 0%nat. cbn [list_insert insert app].
  set (bc := u8 _). fold hdr.
  replace (hdr ++ bc :: replicate (2 * length regs) 0 ++ replicate 2 0)
    with ((hdr ++ [bc]) ++ replicate (2 * length regs) 0 ++ [0; 0]) by (by rewrite <- app_assoc).
  change (6 + 1)%nat with (length (hdr ++ [bc])).
  rewrite add_request_data_spec by done. cbn [mbind outcome_mbind outcome_bind].
  replace ((hdr ++ [bc]) ++ be_bytes regs ++ [0; 0]) with ((hdr ++ bc :: be_bytes regs) ++ [0; 0])
    by (by rewrite <- !app_assoc).
  apply append_checksum_frame; rewrite !length_app; cbn [length hdr request_header];
    rewrite length_be_bytes; lia.
Qed.
End requests.

(** The three kinds of request have the Modbus RTU wire format: address,
    function code, big-endian register and quantity (or value) fields, for a write
    of several registers the byte count and the big-endian data, and a checksum
    that [validate_checksum] accepts. *)
Lemma requests_wire_format (addr function first quantity : Z) (regs : list Z) :
  is_u8 addr → is_u8 function → is_u16 first → is_u16 quantity →
  function ≠ WRITE_MULTIPLE_HOLDING_REGISTERS →
  Forall is_u16 regs → (1 ≤ length regs ≤ 127)%nat →
  (∃ req, make_single_write_request addr function first quantity = Ret req ∧
     req = with_crc (request_header addr function first quantity) ∧
     validate_checksum req 8 = Ret true) ∧
  (∃ req, make_generic_request addr function first quantity [] = Ret req ∧
     req = with_crc (request_header addr function first quantity) ∧
     validate_checksum req 8 = Ret true) ∧
  (∃ req, make_generic_request addr WRITE_MULTIPLE_HOLDING_REGISTERS first (Z.of_nat (length regs)) regs = Ret req ∧
     req = with_crc (request_header addr WRITE_MULTIPLE_HOLDING_REGISTERS first (Z.of_nat (length regs)) ++
                     2 * Z.of_nat (length regs) :: be_bytes regs) ∧
     validate_checksum req (2 * length regs + 9) = Ret true).
Proof.
  intros Ha Hf H1 H2 Hne Hregs Hlen.
  assert (Forall is_u8 (request_header addr function first quantity)) as Hhdr by (by apply request_header_u8).
  assert (is_u16 (Z.of_nat (length regs))) as Hn by (unfold is_u16; lia).
  assert (u8 (Z.of_nat (length regs) * 2) = 2 * Z.of_nat (length regs)) as Hbc
    by (rewrite u8_id; unfold is_u8; lia).
  assert (Forall is_u8 (request_header addr WRITE_MULTIPLE_HOLDING_REGISTERS first (Z.of_nat (length regs)) ++
                     2 * Z.of_nat (length regs) :: be_bytes regs)) as Hhdr2.
  { apply Forall_app. split.
    - apply request_header_u8; auto. unfold is_u8, WRITE_MULTIPLE_HOLDING_REGISTERS. lia.
    - apply Forall_cons. split; [unfold is_u8; lia|by apply be_bytes_u8]. }
  split; [|split].
  - eexists. split; [by apply single_write_wire|]. split; [done|]. by apply validate_with_crc; [|simpl; lia|].
  - eexists. split; [by apply read_request_wire|]. split; [done|]. by apply validate_with_crc; [|simpl; lia|].
  - eexists. split; [apply write_multiple_wire; auto; by destruct regs; [simpl in Hlen; lia|]|].
    rewrite Hbc. split; [done|].
    apply validate_with_crc; [| |done]; rewrite length_app; cbn [length request_header];
      rewrite length_be_bytes; lia.
Qed.

(** ** The transfer loops *)
Section transfer_facts.
Context {W : Type}.

Lemma txrx_loop_read (impl : Z → Z → list Z → W → option (outcome modbus_error (list Z) * W))
    (bank : Z → Z) (chunk : Z) :
  1 ≤ chunk →
  (∀ a q w, 0 ≤ a → a + q ≤ 2 ^ 16 → 1 ≤ q ≤ chunk → ∃ w', impl a q [] w = Some (Ret (bank <$> seqZ a q), w')) →
  ∀ turns first quantity out w,
  0 ≤ quantity ≤ Z.of_nat turns → 0 ≤ first → first + quantity ≤ 2 ^ 16 →
  ∃ w', txrx_loop impl turns chunk first quantity 0 [] out w =
        Some (Ret (out ++ (bank <$> seqZ first quantity)), w').
Proof.
  intros Hchunk Himpl. induction turns as [|turns IH]; intros first quantity out w Hq Hf Hsum; simpl.
  { replace quantity with 0 by lia. simpl. rewrite app_nil_r. eauto. }
  destruct (quantity =? 0) eqn:Hz.
  { apply Z.eqb_eq in Hz. subst. rewrite app_nil_r. eauto. }
  apply Z.eqb_neq in Hz.
  set (cur := Z.min quantity chunk). assert (1 ≤ cur ≤ chunk ∧ cur ≤ quantity) as Hcur by lia.
  destruct (Himpl first cur w) as [w1 Hw1]; [lia|lia|lia|]. rewrite Hw1. simpl.
  replace (seqZ first quantity) with (seqZ first cur ++ seqZ (first + cur) (quantity - cur)).
  2:{ rewrite <- seqZ_app by lia. f_equal. lia. }
  rewrite fmap_app, app_assoc.
  assert (u16 (quantity - cur) = quantity - cur) as Hqc by (apply u16_id; unfold is_u16; lia).
  assert (∃ x l, bank <$> seqZ first cur = x :: l) as (x & l & Hx)
    by (rewrite seqZ_cons by lia; simpl; eauto).
  rewrite Hx, Hqc.
  destruct (decide (quantity = cur)) as [He|He].
  { replace (quantity - cur) with 0 by lia. simpl. rewrite app_nil_r.
    destruct turns; simpl; eauto. }
  rewrite (u16_id (first + cur)) by (unfold is_u16; lia).
  apply IH; lia.
Qed.

Lemma read_loop_total (port : port_ops W) self n :
  (∀ k w bytes w', (1 ≤ k)%nat → op_read port k w = (bytes, w') →
     ∃ l, bytes = Some l ∧ (1 ≤ length l ≤ k)%nat) →
  ∀ fuel timeout got w, (length got ≤ n)%nat → (n < fuel + length got)%nat →
  ∃ got' w', read_loop port self fuel n timeout got w = Some (got', w') ∧ (length got' ≤ n)%nat.
Proof.
  intros Hread. induction fuel as [|fuel IH]; intros timeout got w Hgot Hfuel; simpl; [lia|].
  destruct (op_select port timeout w) as [rv w1].
  destruct (rv =? -1); [eauto|]. destruct (rv =? 0); [eauto|]. case_decide; [eauto|].
  destruct (op_read port (n - length got) w1) as [bytes w2] eqn:Hr.
  destruct (Hread (n - length got)%nat w1 bytes w2) as (l & -> & Hl); [lia|done|]. simpl.
  apply IH; rewrite length_app; lia.
Qed.

Lemma read_loop_stuck (port : port_ops W) self n :
  (0 < n)%nat → (∀ t w, (op_select port t w).1 = 1) → (∀ k w, (op_read port k w).1 = None) →
  ∀ fuel timeout w, read_loop port self fuel n timeout [] w = None.
Proof.
  intros Hn Hsel Hread. induction fuel as [|fuel IH]; intros timeout w; simpl; [done|].
  specialize (Hsel timeout w). destruct (op_select port timeout w) as [rv w1]. simpl in Hsel. subst rv.
  simpl. rewrite decide_False by lia.
  specialize (Hread (n - 0)%nat w1). destruct (op_read port (n - 0) w1) as [bytes w2].
  simpl in Hread. subst bytes. apply IH.
Qed.
End transfer_facts.

(** Chunked reads are complete and in order: if every single transfer of at most
    [(max_packet_size - 5) / 2] registers returns the registers it asks for, then
    [txrx] ends and returns exactly the registers [first, first + quantity) of the
    device, whatever the packet size limit. *)
Lemma txrx_chunks_read {W : Type}
    (impl : Z → Z → list Z → W → option (outcome modbus_error (list Z) * W))
    (bank : Z → Z) (first quantity max_packet_size : Z) (w : W) :
  7 ≤ max_packet_size < 2 ^ 16 → 0 ≤ first → 0 ≤ quantity → first + quantity ≤ 2 ^ 16 →
  (∀ a q w, 0 ≤ a → a + q ≤ 2 ^ 16 → 1 ≤ q ≤ (max_packet_size - 5) / 2 →
     ∃ w', impl a q [] w = Some (Ret (bank <$> seqZ a q), w')) →
  ∃ w', txrx_chunks impl first quantity max_packet_size [] w =
        Some (Ret (bank <$> seqZ first quantity), w').
Proof.
  intros Hmax Hf Hq Hsum Himpl. unfold txrx_chunks, MODBUS_MIN_REPLY_SIZE.
  assert ((max_packet_size <? Z.of_nat 5 + 2) = false) as -> by (apply Z.ltb_ge; lia).
  assert (1 ≤ (max_packet_size - 5) / 2 < 2 ^ 16) as Hc.
  { split; [apply Z.div_le_lower_bound; lia | apply Z.div_lt_upper_bound; lia]. }
  rewrite u16_id by (unfold is_u16; lia).
  apply (txrx_loop_read impl bank); [lia|done|lia|done|done].
Qed.

(** [read_reply] ends and never overruns its buffer, on a port whose [read]
    returns at least one and at most the requested number of bytes when [select]
    reported it readable: [rxbuf_len + 1] turns of the loop are enough. *)
Lemma read_reply_total {W : Type} (port : port_ops W) (self : TinyModbusRTU) (rxbuf_len : nat) (w : W) :
  (∀ k w bytes w', (1 ≤ k)%nat → op_read port k w = (bytes, w') →
     ∃ l, bytes = Some l ∧ (1 ≤ length l ≤ k)%nat) →
  ∃ got w', read_reply port self (rxbuf_len + 1) rxbuf_len w = Some (got, w') ∧
            (length got ≤ rxbuf_len)%nat.
Proof.
  intros Hread. unfold read_reply. destruct (fd self =? -1).
  { exists [], w. simpl. split; [done|lia]. }
  apply read_loop_total; [done|simpl; lia|simpl; lia].
Qed.

Definition demo_port : port_ops (list Z) := {|
  op_write := λ bs w, (Z.of_nat (length bs), w);
  op_select := λ _ w, (if decide (w = []) then 0 else 1, w);
  op_read := λ k w, (Some (take k (if decide (w = []) then replicate k 0 else w)), drop k w);
  op_flush := id; op_gpio_set := λ _ w, w; op_gpio_ready := λ _, false;
  op_fast_drain := id; op_drain := id |}.

Definition demo_rtu : TinyModbusRTU := {|
  fd := 3; ignore_echo := false; initial_timeout := 500; within_message_timeout := 100 |}.

(** On a port that [select] keeps reporting readable while [read] keeps failing (a
    removed USB adapter), [read_reply] never ends: no number of turns gives a result. *)
Lemma read_reply_spins_on_hangup {W : Type} (port : port_ops W) (self : TinyModbusRTU)
    (fuel rxbuf_len : nat) (w : W) :
  fd self ≠ -1 → (0 < rxbuf_len)%nat →
  (∀ t w, (op_select port t w).1 = 1) → (∀ k w, (op_read port k w).1 = None) →
  read_reply port self fuel rxbuf_len w = None.
Proof.
  intros Hfd Hn Hsel Hread. unfold read_reply. apply Z.eqb_neq in Hfd. rewrite Hfd.
  by apply read_loop_stuck.
Qed.

