(* ===== verification/ModbusDevice.v ===== *)
(** * A whole Modbus transfer

    The client of [Modbus] against a device that answers: what the serial port and
    the device on the other side promise is an interface, and against it [txrx]
    reads the registers it asks for. *)

From S2P Require Import Prelude Modbus ModbusFacts.

Import Rtu.

(** A serial line with a Modbus slave on it.  [pending w] are the bytes that can be
    read, [sent w] those written since the last flush.  [write] and [read] may
    transfer any positive number of bytes of what is asked for; once a request has
    been drained its answer arrives, after the echo of the request if the line
    echoes.  The slave answers a read request for [function] with the registers of
    its [bank]. *)
Class ModbusSlave {W} (port : port_ops W) (self : TinyModbusRTU) (addr function : Z) (bank : Z → Z)
    (pending sent : W → list Z) : Prop := {
  slave_flush w : pending (op_flush port w) = [] ∧ sent (op_flush port w) = [];
  slave_gpio b w : pending (op_gpio_set port b w) = pending w ∧ sent (op_gpio_set port b w) = sent w;
  slave_write bs w c w' :
    op_write port bs w = (c, w') → bs ≠ [] →
    1 ≤ c ≤ Z.of_nat (length bs) ∧ sent w' = sent w ++ take (Z.to_nat c) bs ∧ pending w' = pending w;
  slave_drain w first quantity :
    is_u16 first → 0 ≤ quantity ≤ 127 →
    sent w = with_crc (request_header addr function first quantity) → pending w = [] →
    let answer := (if ignore_echo self then sent w else []) ++
                  data_reply addr function (be_bytes (bank <$> seqZ first quantity)) in
    pending (op_drain port w) = answer ∧ pending (op_fast_drain port w) = answer;
  slave_select t w rv w' :
    op_select port t w = (rv, w') →
    pending w' = pending w ∧ rv = (if bool_decide (pending w = []) then 0 else 1);
  slave_read k w bytes w' :
    op_read port k w = (bytes, w') → (1 ≤ k)%nat → pending w ≠ [] →
    ∃ n, (1 ≤ n ≤ k)%nat ∧ bytes = Some (take n (pending w)) ∧ pending w' = drop n (pending w);
}.

Section transfer.
Context {W : Type} (port : port_ops W) (self : TinyModbusRTU) (addr function : Z) (bank : Z → Z).
Context (pending sent : W → list Z) `{!ModbusSlave port self addr function bank pending sent}.

(** Reading takes the pending bytes, as many as the buffer holds. *)
Lemma read_loop_takes n fuel timeout got w :
  (length got ≤ n)%nat → (n - length got < fuel)%nat →
  ∃ w', read_loop port self fuel n timeout got w = Some (got ++ take (n - length got) (pending w), w') ∧
        pending w' = drop (n - length got) (pending w).
Proof.
  revert timeout got w. induction fuel as [|fuel IH]; intros timeout got w Hgot Hfuel; [lia|]. cbn.
  destruct (op_select port timeout w) as [rv w1] eqn:Hsel.
  destruct (slave_select _ _ _ _ Hsel) as [Hp1 ->].
  case_bool_decide as Hemp; cbn.
  { exists w1. rewrite Hp1, Hemp, take_nil, drop_nil, app_nil_r. done. }
  case_decide as Hfull.
  { exists w1. replace (n - length got)%nat with 0%nat by lia. by rewrite Hp1, take_0, drop_0, app_nil_r. }
  destruct (op_read port (n - length got) w1) as [bytes w2] eqn:Hr.
  destruct (slave_read _ _ _ _ Hr) as (k0 & Hk0 & -> & Hp2); [lia|by rewrite Hp1|]. cbn. rewrite Hp1 in *.
  set (k := Nat.min k0 (length (pending w))).
  assert (take k0 (pending w) = take k (pending w) ∧ drop k0 (pending w) = drop k (pending w)) as [Ht Hd].
  { unfold k. destruct (decide (k0 ≤ length (pending w))%nat); [by rewrite Nat.min_l|].
    rewrite Nat.min_r, !take_ge, !drop_ge by lia. done. }
  assert (1 ≤ k)%nat as Hk by (unfold k; destruct (pending w); [done|cbn [length]; lia]).
  assert (length (take k (pending w)) = k) as Hlen by (rewrite length_take; lia).
  rewrite Ht. rewrite Hd in Hp2.
  destruct (IH (within_message_timeout self) (got ++ take k (pending w)) w2) as (w' & -> & Hp');
    rewrite ?length_app, ?Hlen; [lia|lia|].
  exists w'. rewrite Hp', Hp2, length_app, Hlen, <- app_assoc, take_take_drop, drop_drop.
  by replace (k + (n - (length got + k)))%nat with (n - length got)%nat by lia.
Qed.

Lemma read_reply_takes n fuel w :
  fd self ≠ -1 → (n < fuel)%nat →
  ∃ w', read_reply port self fuel n w = Some (take n (pending w), w') ∧ pending w' = drop n (pending w).
Proof.
  intros Hfd Hn. unfold read_reply. rewrite (proj2 (Z.eqb_neq _ _) Hfd).
  destruct (read_loop_takes n fuel (initial_timeout self) [] w) as (w' & -> & Hp'); [cbn; lia|cbn; lia|].
  cbn [length] in *. rewrite Nat.sub_0_r in *. eauto.
Qed.

(** Writing puts the whole request on the line. *)
Lemma write_loop_sends req fuel written w :
  (written ≤ length req)%nat → (length req - written ≤ fuel)%nat → sent w = take written req →
  ∃ w', write_loop port fuel req written w = Some (Ret tt, w') ∧ sent w' = req ∧ pending w' = pending w.
Proof.
  revert written w. induction fuel as [|fuel IH]; intros written w Hle Hf Hs; cbn.
  { rewrite decide_True by lia. exists w. by rewrite Hs, take_ge by lia. }
  case_decide; [exists w; by rewrite Hs, take_ge by lia|].
  destruct (op_write port (drop written req) w) as [c w1] eqn:Hw.
  destruct (slave_write _ _ _ _ Hw) as (Hc & Hs1 & Hp1).
  { intros Hnil. apply (f_equal length) in Hnil. rewrite length_drop in Hnil. cbn in Hnil. lia. }
  rewrite length_drop in Hc. rewrite (proj2 (Z.eqb_neq c (-1))) by lia.
  destruct (IH (written + Z.to_nat c)%nat w1) as (w' & -> & Hs' & Hp'); [lia|lia| |].
  - by rewrite Hs1, Hs, take_take_drop.
  - exists w'. split_and!; [done|done|congruence].
Qed.

(** One transfer returns the registers it asks for. *)
Lemma txrx_impl_reads fuel first quantity w :
  fd self ≠ -1 → is_u8 addr → is_u8 function → is_register_read_function function = true →
  (∀ a, is_u16 (bank a)) → is_u16 first → 0 ≤ quantity ≤ 127 → (MODBUS_MAX_REPLY_SIZE < fuel)%nat →
  ∃ w', txrx_impl port self fuel addr function first quantity true [] w =
        Some (Ret (bank <$> seqZ first quantity), w').
Proof.
  intros Hfd Ha Hf Hread Hbank Hfirst Hq Hfuel. unfold txrx_impl. rewrite (proj2 (Z.eqb_neq _ _) Hfd).
  assert (txrx_request addr function first quantity [] =
          Ret (with_crc (request_header addr function first quantity))) as ->.
  { unfold txrx_request.
    assert (function = READ_MULTIPLE_HOLDING_REGISTERS ∨ function = READ_INPUT_REGISTERS) as Hfn.
    { unfold is_register_read_function in Hread. apply orb_true_iff in Hread as [?%Z.eqb_eq|?%Z.eqb_eq]; auto. }
    destruct Hfn as [->| ->]; cbn [orb]; rewrite read_request_wire; try done; unfold is_u16; lia. }
  set (req := with_crc _). assert (length req = 8%nat) as Hreq by done. cbv zeta.
  destruct (slave_flush w) as [Hpf Hsf]. destruct (slave_gpio false (op_flush port w)) as [Hpg Hsg].
  destruct (write_loop_sends req fuel 0 (op_gpio_set port false (op_flush port w))) as (w1 & -> & Hs1 & Hp1);
    [lia|unfold MODBUS_MAX_REPLY_SIZE in *; lia|by rewrite Hsg, Hsf|]. cbn [mbind option_bind].
  set (answer := data_reply addr function (be_bytes (bank <$> seqZ first quantity))).
  assert (pending w1 = []) as Hp1' by (by rewrite Hp1, Hpg).
  set (w2 := op_gpio_set port true (if op_gpio_ready port w1 then op_fast_drain port w1 else op_drain port w1)).
  assert (pending w2 = (if ignore_echo self then req else []) ++ answer) as Hp2.
  { unfold w2. rewrite (proj1 (slave_gpio true _)).
    destruct (slave_drain w1 first quantity Hfirst Hq Hs1 Hp1') as [H1 H2]. rewrite Hs1 in H1, H2.
    by destruct (op_gpio_ready port w1). }
  assert (length (bank <$> seqZ first quantity) = Z.to_nat quantity) as Hlr by (by rewrite length_fmap, length_seqZ).
  assert (length answer = (2 * Z.to_nat quantity + 5)%nat) as Hla.
  { unfold answer, data_reply. rewrite length_with_crc, length_app, length_be_bytes, Hlr. cbn. lia. }
  assert (∃ w3, (if ignore_echo self then read_reply port self fuel (length req) w2 else Some ([], w2)) =
                Some ((if ignore_echo self then req else []), w3) ∧ pending w3 = answer) as (w3 & -> & Hp3).
  { destruct (ignore_echo self); [|by exists w2].
    destruct (read_reply_takes (length req) fuel w2) as (w3 & -> & Hp3);
      [done|rewrite Hreq; unfold MODBUS_MAX_REPLY_SIZE in *; lia|].
    exists w3. by rewrite Hp3, Hp2, take_app_length, drop_app_length. }
  cbn [mbind option_bind].
  destruct (read_reply_takes MODBUS_MAX_REPLY_SIZE fuel w3) as (w4 & -> & _); [done|done|].
  cbn [mbind option_bind]. exists w4. rewrite Hp3, take_ge, Hla by (unfold MODBUS_MAX_REPLY_SIZE; lia).
  do 2 f_equal. rewrite <- Hlr. apply decode_register_reply; try done.
  - apply Forall_fmap, Forall_true. intros a. apply Hbank.
  - rewrite Hlr. lia.
Qed.
End transfer.

(** ** Property *)

(** C39: a chunked read of registers is complete and in order. On a line with a slave
    that answers read requests, [txrx] ends and returns exactly the registers [first,
    first + quantity) of the device, for every packet size limit from 7 to 259 bytes (so
    that a reply has at most 127 registers), however the port splits the bytes it writes
    and reads, and with or without echo. *)
Theorem txrx_reads_all_registers {W} (port : port_ops W) (self : TinyModbusRTU) (addr function : Z)
    (bank : Z → Z) (pending sent : W → list Z) (fuel : nat) (first quantity max_packet_size : Z) (w : W) :
  ModbusSlave port self addr function bank pending sent →
  fd self ≠ -1 → is_u8 addr → is_u8 function → is_register_read_function function = true →
  (∀ a, is_u16 (bank a)) → 7 ≤ max_packet_size ≤ 259 →
  0 ≤ first → 0 ≤ quantity → first + quantity ≤ 2 ^ 16 → (MODBUS_MAX_REPLY_SIZE < fuel)%nat →
  ∃ w', txrx port self fuel addr function first quantity max_packet_size true [] w =
        Some (Ret (bank <$> seqZ first quantity), w').
Proof.
  intros Hslave Hfd Ha Hf Hread Hbank Hmax Hfirst Hq Hsum Hfuel. unfold txrx.
  apply txrx_chunks_read; [lia|done|done|done|]. intros a q w1 Ha1 Hb1 Hq1.
  eapply txrx_impl_reads; try done; [unfold is_u16; lia|]. pose proof (Z.div_le_upper_bound (max_packet_size - 5) 2 127). lia.
Qed.

(** A line that transfers one byte at a time and echoes. *)
Record demo_line := { line_pending : list Z; line_sent : list Z }.

Definition demo_bank (a : Z) : Z := u16 (3 * a).

(** The device reads the request's register and quantity fields. *)
Definition demo_answer (sent : list Z) : list Z :=
  match sent with
  | [a; f; h1; l1; h2; l2; _; _] =>
      sent ++ data_reply a f (be_bytes (demo_bank <$> seqZ (256 * h1 + l1) (256 * h2 + l2)))
  | _ => []
  end.

Definition demo_device : port_ops demo_line := {|
  op_write := λ bs w, (1, {| line_pending := line_pending w; line_sent := line_sent w ++ take 1 bs |});
  op_select := λ _ w, (if bool_decide (line_pending w = []) then 0 else 1, w);
  op_read := λ _ w, (Some (take 1 (line_pending w)),
                     {| line_pending := drop 1 (line_pending w); line_sent := line_sent w |});
  op_flush := λ _, {| line_pending := []; line_sent := [] |};
  op_gpio_set := λ _ w, w; op_gpio_ready := λ _, false;
  op_fast_drain := λ w, {| line_pending := demo_answer (line_sent w); line_sent := line_sent w |};
  op_drain := λ w, {| line_pending := demo_answer (line_sent w); line_sent := line_sent w |} |}.

Definition demo_master : TinyModbusRTU := {|
  fd := 3; ignore_echo := true; initial_timeout := 500; within_message_timeout := 100 |}.

Lemma demo_slave :
  ModbusSlave demo_device demo_master 17 READ_INPUT_REGISTERS demo_bank line_pending line_sent.
Proof.
  split.
  - done.
  - done.
  - intros bs w c w' [= <- <-] Hbs. destruct bs; [done|]. cbn [length]. split_and!; [lia|lia|done|done].
  - intros w first quantity Hf Hq Hs _. cbn. rewrite Hs. unfold with_crc, request_header. cbn.
    assert (∀ v, 256 * hi8 v + lo8 v = v) as Hv.
    { intros v. rewrite hi8_div, lo8_mod. change (2 ^ 8) with 256. pose proof (Z.div_mod v 256 ltac:(lia)). lia. }
    by rewrite !Hv.
  - intros t w rv w' [= <- <-]. done.
  - intros k w bytes w' [= <- <-] Hk Hne. exists 1%nat. split_and!; [lia|lia|done|done].
Qed.

Lemma txrx_reads_all_registers_witness :
  ∃ w', txrx demo_device demo_master 262 17 READ_INPUT_REGISTERS 10 5 9 true []
          {| line_pending := []; line_sent := [] |} = Some (Ret [30; 33; 36; 39; 42], w').
Proof.
  apply (txrx_reads_all_registers demo_device demo_master 17 READ_INPUT_REGISTERS demo_bank
           line_pending line_sent 262 10 5 9 _ demo_slave);
    [discriminate | unfold is_u8; lia | unfold is_u8, READ_INPUT_REGISTERS; lia | reflexivity
    | intros a; apply is_u16_u16 | lia | lia | lia | lia | unfold MODBUS_MAX_REPLY_SIZE; lia].
Defined.
