(* ===== verification/Msm.v ===== *)
(** * Table-driven state machines on boost::msm

    The data link modules write their machines as boost::msm transition tables.
    boost::msm is not part of the repository: what the tables rely on is the
    class [MsmBackend], whose laws are the documented behaviour of the library,
    and the machines are proved correct for every backend that has them.

    - [fire]: a row with a target leaves the source state, runs its action and
      enters the target state, in this order.
    - [choose]: among the rows whose guard holds, one is taken; which one is left
      open (the library does not resolve such conflicts in declaration order). *)

From S2P Require Import Prelude.

Class MsmBackend : Type := {
  fire : ∀ {D : Type}, (D → D) → (D → D) → (D → D) → D → D;
  choose : ∀ {A : Type}, list A → option A;
  fire_order : ∀ D (on_exit action on_entry : D → D) d,
    fire on_exit action on_entry d = on_entry (action (on_exit d));
  choose_elem : ∀ A (l : list A) a, choose l = Some a → a ∈ l;
  choose_nonempty : ∀ A (l : list A), l ≠ [] → is_Some (choose l);
}.

(** A backend that takes the first row: the interface is inhabited and executable. *)
Definition first_row_backend : MsmBackend.
Proof.
  refine {|
    fire := λ D on_exit action on_entry d, on_entry (action (on_exit d));
    choose := λ A l, head l |}.
  - done.
  - intros A l a H. destruct l as [|x l]; [done|]. injection H as ->. constructor.
  - intros A [|x l] H; [done|]. eauto.
Defined.

(** [Row < Source, Event, Target, Action, Guard >]; [None] as target is an internal
    transition ([none] in the table). *)
Record row (St Ev D : Type) : Type := Row {
  row_source : St;
  row_event : Ev → bool;
  row_target : option St;
  row_action : Ev → D → D;
  row_guard : Ev → D → bool;
}.
Arguments Row {St Ev D}. Arguments row_source {St Ev D}. Arguments row_event {St Ev D}.
Arguments row_target {St Ev D}. Arguments row_action {St Ev D}. Arguments row_guard {St Ev D}.

Definition no_action {Ev D : Type} (_ : Ev) (d : D) : D := d.
Definition no_guard {Ev D : Type} (_ : Ev) (_ : D) : bool := true.

Section machine.
Context {St Ev D : Type} `{EqDecision St} `{!MsmBackend}.
Context (on_entry on_exit : St → D → D).

(** The rows that share a source state and an event. *)
Definition candidate_rows (table : list (row St Ev D)) (s : St) (e : Ev) : list (row St Ev D) :=
  List.filter (λ r, bool_decide (row_source r = s) && row_event r e) table.

(** Those of them whose guard holds. *)
Definition enabled_rows (table : list (row St Ev D)) (s : St) (e : Ev) (d : D) : list (row St Ev D) :=
  List.filter (λ r, row_guard r e d) (candidate_rows table s e).

Definition take_row (s : St) (e : Ev) (d : D) (r : row St Ev D) : St * D :=
  match row_target r with
  | None => (s, row_action r e d)
  | Some t => (t, fire (on_exit s) (row_action r e) (on_entry t) d)
  end.

(** One event offered to a table; [None] when no row is enabled. *)
Definition table_step (table : list (row St Ev D)) (s : St) (e : Ev) (d : D) : option (St * D) :=
  match choose (enabled_rows table s e d) with
  | None => None
  | Some r => Some (take_row s e d r)
  end.

(** No two rows compete for an event. *)
Definition exclusive (table : list (row St Ev D)) : Prop :=
  ∀ s e d, (length (enabled_rows table s e d) ≤ 1)%nat.

Lemma choose_singleton {A} (l : list A) : (length l ≤ 1)%nat → choose l = head l.
Proof.
  intros Hl. destruct l as [|a [|b l]]; simpl in *; [| |lia].
  - destruct (choose []) eqn:Hc; [|done]. apply choose_elem in Hc. set_solver.
  - destruct (choose_nonempty _ [a]) as [x Hx]; [done|].
    rewrite Hx. apply choose_elem in Hx. set_solver.
Qed.

(** On an exclusive table the backend's choice is forced and its order known. *)
Lemma table_step_exclusive table s e d :
  exclusive table →
  table_step table s e d =
  match head (enabled_rows table s e d) with
  | None => None
  | Some r =>
      Some (match row_target r with
            | None => (s, row_action r e d)
            | Some t => (t, on_entry t (row_action r e (on_exit s d)))
            end)
  end.
Proof.
  intros Hex. unfold table_step. rewrite choose_singleton by apply Hex.
  destruct (head _) as [r|]; [|done]. unfold take_row.
  destruct (row_target r); [|done]. by rewrite fire_order.
Qed.
End machine.
