(* ===== verification/LinkStateMachine.v ===== *)
(** * The EVSE data link state machine of the McsDataLink module

    Models [src/modules/EVSE/McsDataLink/main/link_state_machine.cpp] and its
    header: the machine data with its effect emitters, the entry and exit actions,
    guards, actions and rows of the inner (link lifecycle) and the outer (session)
    machine, and the event methods.  The machine does no I/O: it appends effects
    that the owner executes in order after taking them. *)

From S2P Require Import Prelude Msm.

Module EvseLink.

(** ** Data, link_state_machine.hpp *)
Inductive link_state := ls_unmatched | ls_matching | ls_matched.

Inductive internal_state := unmatched | matching | matched | paused | retry_wait.

Inductive timer_id := t_link_detect | t_retry_wait | t_sync_repetition.

#[global] Instance link_state_eq_dec : EqDecision link_state.
Proof. solve_decision. Defined.
#[global] Instance internal_state_eq_dec : EqDecision internal_state.
Proof. solve_decision. Defined.
#[global] Instance timer_id_eq_dec : EqDecision timer_id.
Proof. solve_decision. Defined.

(** [struct effect]: each kind with the fields it uses. *)
Inductive effect :=
| publish_state (state : link_state)
| publish_dlink_ready (ready : bool)
| publish_request_error_routine
| publish_ev_mac_effect (mac : string)
| start_timer_effect (timer : timer_id) (timeout_ms : Z)
| stop_timer_effect (timer : timer_id).

#[global] Instance effect_eq_dec : EqDecision effect.
Proof. solve_decision. Defined.

Record link_config := {
  conn_retry_max : Z;
  link_detect_timeout_ms : Z;
  sync_repetition_ms : Z;
  retry_wait_ms : Z;
  publish_ev_mac : bool;
}.

(** The events, one constructor per event struct. *)
Inductive event :=
| reset (enable : bool)
| enter_bcd (carrier_up : bool)
| leave_bcd
| carrier_up
| carrier_down
| link_lost
| link_detect_timeout (may_repeat : bool)
| retry_wait_elapsed (carrier_up : bool)
| dlink_error
| dlink_terminate
| dlink_pause
| neighbor_reachable (mac : string).

Record machine_data := {
  cfg : link_config;
  effects : list effect;
  current : internal_state;
  last_state : option link_state;
  ready : bool;
  retries : Z;
  ignored : Z;
  published_mac : string;
  routine_reset_pending : bool;
  sync_window_armed : bool;
}.

(** Member updates. *)
Definition set_effects (v : list effect) (d : machine_data) : machine_data :=
  {| cfg := cfg d; effects := v; current := current d; last_state := last_state d; ready := ready d;
     retries := retries d; ignored := ignored d; published_mac := published_mac d;
     routine_reset_pending := routine_reset_pending d; sync_window_armed := sync_window_armed d |}.
Definition set_current (v : internal_state) (d : machine_data) : machine_data :=
  {| cfg := cfg d; effects := effects d; current := v; last_state := last_state d; ready := ready d;
     retries := retries d; ignored := ignored d; published_mac := published_mac d;
     routine_reset_pending := routine_reset_pending d; sync_window_armed := sync_window_armed d |}.
Definition set_last_state (v : option link_state) (d : machine_data) : machine_data :=
  {| cfg := cfg d; effects := effects d; current := current d; last_state := v; ready := ready d;
     retries := retries d; ignored := ignored d; published_mac := published_mac d;
     routine_reset_pending := routine_reset_pending d; sync_window_armed := sync_window_armed d |}.
Definition set_ready (v : bool) (d : machine_data) : machine_data :=
  {| cfg := cfg d; effects := effects d; current := current d; last_state := last_state d; ready := v;
     retries := retries d; ignored := ignored d; published_mac := published_mac d;
     routine_reset_pending := routine_reset_pending d; sync_window_armed := sync_window_armed d |}.
Definition set_retries (v : Z) (d : machine_data) : machine_data :=
  {| cfg := cfg d; effects := effects d; current := current d; last_state := last_state d; ready := ready d;
     retries := v; ignored := ignored d; published_mac := published_mac d;
     routine_reset_pending := routine_reset_pending d; sync_window_armed := sync_window_armed d |}.
Definition set_ignored (v : Z) (d : machine_data) : machine_data :=
  {| cfg := cfg d; effects := effects d; current := current d; last_state := last_state d; ready := ready d;
     retries := retries d; ignored := v; published_mac := published_mac d;
     routine_reset_pending := routine_reset_pending d; sync_window_armed := sync_window_armed d |}.
Definition set_published_mac (v : string) (d : machine_data) : machine_data :=
  {| cfg := cfg d; effects := effects d; current := current d; last_state := last_state d; ready := ready d;
     retries := retries d; ignored := ignored d; published_mac := v;
     routine_reset_pending := routine_reset_pending d; sync_window_armed := sync_window_armed d |}.
Definition set_routine_reset_pending (v : bool) (d : machine_data) : machine_data :=
  {| cfg := cfg d; effects := effects d; current := current d; last_state := last_state d; ready := ready d;
     retries := retries d; ignored := ignored d; published_mac := published_mac d;
     routine_reset_pending := v; sync_window_armed := sync_window_armed d |}.
Definition set_sync_window_armed (v : bool) (d : machine_data) : machine_data :=
  {| cfg := cfg d; effects := effects d; current := current d; last_state := last_state d; ready := ready d;
     retries := retries d; ignored := ignored d; published_mac := published_mac d;
     routine_reset_pending := routine_reset_pending d; sync_window_armed := v |}.

(** ** Effect emitters and retry budget, lines 69-174 *)
Definition push (item : effect) (d : machine_data) : machine_data := set_effects (effects d ++ [item]) d.

Definition emit_state (value : link_state) (d : machine_data) : machine_data :=
  if decide (last_state d = Some value) then d
  else push (publish_state value) (set_last_state (Some value) d).

Definition emit_dlink_ready (d : machine_data) : machine_data :=
  push (publish_dlink_ready true) (set_ready true d).

Definition withdraw_dlink_ready (d : machine_data) : machine_data :=
  if negb (ready d) then d else push (publish_dlink_ready false) (set_ready false d).

Definition emit_error_routine (d : machine_data) : machine_data := push publish_request_error_routine d.

Definition emit_ev_mac (mac : string) (d : machine_data) : machine_data :=
  if negb (publish_ev_mac (cfg d)) || String.eqb mac "" || String.eqb mac (published_mac d) then d
  else push (publish_ev_mac_effect mac) (set_published_mac mac d).

Definition forget_ev_mac (d : machine_data) : machine_data := set_published_mac "" d.

Definition start_timer (timer : timer_id) (timeout_ms : Z) (d : machine_data) : machine_data :=
  push (start_timer_effect timer timeout_ms) d.

Definition stop_timer (timer : timer_id) (d : machine_data) : machine_data :=
  push (stop_timer_effect timer) d.

Definition open_sync_window (d : machine_data) : machine_data :=
  if sync_repetition_ms (cfg d) <=? 0 then d
  else start_timer t_sync_repetition (sync_repetition_ms (cfg d)) (set_sync_window_armed true d).

Definition close_sync_window (d : machine_data) : machine_data :=
  if negb (sync_window_armed d) then d
  else stop_timer t_sync_repetition (set_sync_window_armed false d).

Definition retries_left (d : machine_data) : bool := retries d <? conn_retry_max (cfg d).
Definition take_retry (d : machine_data) : machine_data := set_retries (retries d + 1) d.
Definition refill_retries (d : machine_data) : machine_data := set_retries 0 d.

(** ** Inner machine, lines 184-410 *)
Definition on_entry (s : internal_state) (d : machine_data) : machine_data :=
  match s with
  | unmatched => emit_state ls_unmatched (forget_ev_mac (set_current unmatched d))
  | matching =>
      let d := emit_state ls_matching (forget_ev_mac (set_current matching d)) in
      start_timer t_link_detect (link_detect_timeout_ms (cfg d)) d
  | matched => emit_dlink_ready (emit_state ls_matched (set_current matched d))
  | paused => set_current paused d
  | retry_wait =>
      let d := emit_state ls_unmatched (forget_ev_mac (set_current retry_wait d)) in
      start_timer t_retry_wait (retry_wait_ms (cfg d)) d
  end.

Definition on_exit (s : internal_state) (d : machine_data) : machine_data :=
  match s with
  | matching => stop_timer t_link_detect d
  | retry_wait => stop_timer t_retry_wait d
  | unmatched | matched | paused => d
  end.

(** The event types of the rows. *)
Definition is_reset (e : event) : bool := match e with reset _ => true | _ => false end.
Definition is_enter_bcd (e : event) : bool := match e with enter_bcd _ => true | _ => false end.
Definition is_leave_bcd (e : event) : bool := match e with leave_bcd => true | _ => false end.
Definition is_carrier_up (e : event) : bool := match e with carrier_up => true | _ => false end.
Definition is_carrier_down (e : event) : bool := match e with carrier_down => true | _ => false end.
Definition is_link_lost (e : event) : bool := match e with link_lost => true | _ => false end.
Definition is_link_detect_timeout (e : event) : bool := match e with link_detect_timeout _ => true | _ => false end.
Definition is_retry_wait_elapsed (e : event) : bool := match e with retry_wait_elapsed _ => true | _ => false end.
Definition is_dlink_error (e : event) : bool := match e with dlink_error => true | _ => false end.
Definition is_dlink_terminate (e : event) : bool := match e with dlink_terminate => true | _ => false end.
Definition is_dlink_pause (e : event) : bool := match e with dlink_pause => true | _ => false end.
Definition is_neighbor_reachable (e : event) : bool := match e with neighbor_reachable _ => true | _ => false end.

(** Event payloads: [evt.carrier_up], [evt.may_repeat], [evt.mac]. *)
Definition evt_carrier_up (e : event) : bool :=
  match e with enter_bcd c | retry_wait_elapsed c => c | _ => false end.
Definition evt_may_repeat (e : event) : bool := match e with link_detect_timeout r => r | _ => false end.
Definition evt_mac (e : event) : string := match e with neighbor_reachable m => m | _ => "" end.

(** Guards, lines 247-290. *)
Definition carrier (e : event) (d : machine_data) : bool := evt_carrier_up e.
Definition no_carrier (e : event) (d : machine_data) : bool := negb (evt_carrier_up e).
Definition g_retries_left (e : event) (d : machine_data) : bool := retries_left d.
Definition no_retries (e : event) (d : machine_data) : bool := negb (retries_left d).
Definition may_repeat (e : event) (d : machine_data) : bool := evt_may_repeat e && retries_left d.
Definition restart_after_failure (e : event) (d : machine_data) : bool :=
  negb (evt_may_repeat e) && retries_left d.

(** Actions, lines 295-371. *)
Definition spend_init_retry (e : event) (d : machine_data) : machine_data := take_retry d.
Definition new_connection (e : event) (d : machine_data) : machine_data := refill_retries d.
Definition begin_comm_init (e : event) (d : machine_data) : machine_data := open_sync_window d.
Definition begin_new_connection (e : event) (d : machine_data) : machine_data :=
  begin_comm_init e (new_connection e d).
Definition repeat_comm_init (e : event) (d : machine_data) : machine_data := take_retry d.
Definition restart_matching (e : event) (d : machine_data) : machine_data :=
  take_retry (emit_state ls_unmatched (withdraw_dlink_ready d)).
Definition inner_give_up (e : event) (d : machine_data) : machine_data := withdraw_dlink_ready d.
Definition request_error_routine (e : event) (d : machine_data) : machine_data :=
  emit_error_routine (set_routine_reset_pending true d).
Definition publish_ev_mac_action (e : event) (d : machine_data) : machine_data := emit_ev_mac (evt_mac e) d.

Definition inner_table : list (row internal_state event machine_data) := [
  Row unmatched  is_enter_bcd           (Some matched)    new_connection        carrier;
  Row unmatched  is_enter_bcd           (Some matching)   begin_new_connection  no_carrier;
  Row matching   is_carrier_up          (Some matched)    no_action             no_guard;
  Row matching   is_link_detect_timeout (Some matching)   repeat_comm_init      may_repeat;
  Row matching   is_link_detect_timeout (Some retry_wait) spend_init_retry      restart_after_failure;
  Row matching   is_link_detect_timeout (Some unmatched)  no_action             no_retries;
  Row matched    is_carrier_down        (Some matching)   restart_matching      g_retries_left;
  Row matched    is_carrier_down        (Some unmatched)  inner_give_up         no_retries;
  Row matched    is_link_lost           (Some matching)   restart_matching      g_retries_left;
  Row matched    is_link_lost           (Some unmatched)  inner_give_up         no_retries;
  Row matched    is_dlink_pause         (Some paused)     no_action             no_guard;
  Row matched    is_neighbor_reachable  None              publish_ev_mac_action no_guard;
  Row paused     is_carrier_up          (Some matched)    no_action             no_guard;
  Row paused     is_neighbor_reachable  (Some matched)    publish_ev_mac_action no_guard;
  Row retry_wait is_retry_wait_elapsed  (Some matched)    request_error_routine carrier;
  Row retry_wait is_retry_wait_elapsed  (Some matching)   request_error_routine no_carrier;
  Row retry_wait is_enter_bcd           (Some matched)    no_action             carrier;
  Row retry_wait is_enter_bcd           (Some matching)   begin_comm_init       no_carrier;
  Row retry_wait is_dlink_error         None              no_action             no_guard ].

(** ** Outer machine, lines 420-525

    Its only state is the composite [Session]; a row may re-enter it (at its
    initial substate) or enter its substate [RestartWait] directly. *)
Inductive outer_state := Session | RestartWait.

#[global] Instance outer_state_eq_dec : EqDecision outer_state.
Proof. solve_decision. Defined.

(** The substate in which an entry of the composite ends. *)
Definition entered_substate (t : outer_state) : internal_state :=
  match t with Session => unmatched | RestartWait => retry_wait end.

Definition g_routine_reset_pending (e : event) (d : machine_data) : bool := routine_reset_pending d.
Definition no_routine_reset_pending (e : event) (d : machine_data) : bool := negb (routine_reset_pending d).

Definition end_connection (e : event) (d : machine_data) : machine_data :=
  refill_retries (withdraw_dlink_ready (close_sync_window (set_routine_reset_pending false d))).
Definition absorb_routine_reset (e : event) (d : machine_data) : machine_data :=
  set_routine_reset_pending false d.
Definition spend_retry (e : event) (d : machine_data) : machine_data :=
  take_retry (withdraw_dlink_ready (close_sync_window d)).
Definition outer_give_up (e : event) (d : machine_data) : machine_data :=
  withdraw_dlink_ready (close_sync_window d).

Definition outer_table : list (row outer_state event machine_data) := [
  Row Session is_reset           None               absorb_routine_reset g_routine_reset_pending;
  Row Session is_reset           (Some Session)     end_connection       no_routine_reset_pending;
  Row Session is_leave_bcd       (Some Session)     end_connection       no_guard;
  Row Session is_dlink_terminate (Some Session)     end_connection       no_guard;
  Row Session is_dlink_error     (Some RestartWait) spend_retry          g_retries_left;
  Row Session is_dlink_error     (Some Session)     outer_give_up              no_retries ].

(** ** The machine and its methods, lines 531-633 *)

(** [active]: the active substate of the composite; the outer state is always [Session]. *)
Record link_state_machine := { active : internal_state; data : machine_data }.

Definition init (config : link_config) : link_state_machine :=
  {| active := unmatched;
     data := {| cfg := config; effects := []; current := unmatched; last_state := None; ready := false;
                retries := 0; ignored := 0; published_mac := ""; routine_reset_pending := false;
                sync_window_armed := false |} |}.

(** [start]: enter the initial state. *)
Definition start (m : link_state_machine) : link_state_machine :=
  {| active := unmatched; data := on_entry unmatched (data m) |}.

Definition no_transition (d : machine_data) : machine_data := set_ignored (ignored d + 1) d.

(** [process_event]: the submachine sees the event first; an event it has no row for
    is offered to the outer table, and counted when that has none either. *)
Definition process_event `{!MsmBackend} (m : link_state_machine) (e : event) : link_state_machine :=
  match table_step on_entry on_exit inner_table (active m) e (data m) with
  | Some (s, d) => {| active := s; data := d |}
  | None =>
      match choose (enabled_rows outer_table Session e (data m)) with
      | None => {| active := active m; data := no_transition (data m) |}
      | Some r =>
          match row_target r with
          | None => {| active := active m; data := row_action r e (data m) |}
          | Some t =>
              {| active := entered_substate t;
                 data := fire (on_exit (active m)) (row_action r e) (on_entry (entered_substate t)) (data m) |}
          end
      end
  end.

Definition take_effects (m : link_state_machine) : list effect * link_state_machine :=
  (effects (data m), {| active := active m; data := set_effects [] (data m) |}).

Definition state (m : link_state_machine) : internal_state := current (data m).

Definition published_of (s : internal_state) : link_state :=
  match s with
  | matching => ls_matching
  | matched | paused => ls_matched
  | unmatched | retry_wait => ls_unmatched
  end.

Definition published_state (m : link_state_machine) : link_state := published_of (current (data m)).
Definition retry_count (m : link_state_machine) : Z := retries (data m).
Definition dlink_ready (m : link_state_machine) : bool := ready (data m).
Definition ignored_events (m : link_state_machine) : Z := ignored (data m).

Definition link_state_to_string (value : link_state) : string :=
  match value with
  | ls_unmatched => "UNMATCHED"
  | ls_matching => "MATCHING"
  | ls_matched => "MATCHED"
  end.

End EvseLink.
