(* ===== verification/LinkFacts.v ===== *)
(** * Properties of the EVSE data link state machine

    The rows of both tables are mutually exclusive, so the machine is determined
    for every backend.  Replaying the effects gives the owner's view of the link;
    in every reachable state it agrees with the machine (published state,
    D-LINK_READY, running timers).  The retry budget bounds the restarts. *)

From S2P Require Import Prelude Msm LinkStateMachine.
Import EvseLink.

(** Evaluate the static part (source state and event type) of a table lookup. *)
Ltac compute_rows :=
  cbv [enabled_rows candidate_rows inner_table outer_table List.filter row_source row_event row_guard
       is_reset is_enter_bcd is_leave_bcd is_carrier_up is_carrier_down is_link_lost
       is_link_detect_timeout is_retry_wait_elapsed is_dlink_error is_dlink_terminate is_dlink_pause
       is_neighbor_reachable bool_decide decide decide_rel internal_state_eq_dec internal_state_rec
       internal_state_rect outer_state_eq_dec outer_state_rec outer_state_rect andb
       carrier no_carrier g_retries_left no_retries may_repeat restart_after_failure no_guard
       g_routine_reset_pending no_routine_reset_pending evt_carrier_up evt_may_repeat negb].

Ltac destruct_bools := repeat match goal with b : bool |- _ => destruct b end.

(** Case analysis on the conditions the guards test. *)
Ltac split_guards :=
  repeat match goal with
  | b : bool |- _ => destruct b
  | |- context [retries_left ?d] => destruct (retries_left d) eqn:?
  | |- context [routine_reset_pending ?d] => destruct (routine_reset_pending d) eqn:?
  end.

(** ** The tables are deterministic *)
Section determinism.

Lemma inner_table_exclusive : exclusive inner_table.
Proof. intros s e d. destruct s, e; compute_rows; split_guards; simpl; lia. Qed.

Lemma outer_table_exclusive : exclusive outer_table.
Proof. intros s e d. destruct s, e; compute_rows; split_guards; simpl; lia. Qed.
End determinism.

(** ** What the two tables say, as one function

    [transit s act m]: leave the active substate, run [act], enter [s]. *)
Definition transit (s : internal_state) (act : machine_data → machine_data) (m : link_state_machine) :
    link_state_machine :=
  {| active := s; data := on_entry s (act (on_exit (active m) (data m))) |}.

Definition internal (act : machine_data → machine_data) (m : link_state_machine) : link_state_machine :=
  {| active := active m; data := act (data m) |}.

Definition link_step (m : link_state_machine) (e : event) : link_state_machine :=
  let d := data m in
  match active m, e with
  | unmatched, enter_bcd true => transit matched refill_retries m
  | unmatched, enter_bcd false => transit matching (λ d, open_sync_window (refill_retries d)) m
  | matching, carrier_up => transit matched id m
  | matching, link_detect_timeout r =>
      if retries_left d then transit (if r : bool then matching else retry_wait) take_retry m
      else transit unmatched id m
  | matched, (carrier_down | link_lost) =>
      if retries_left d
      then transit matching (λ d, take_retry (emit_state ls_unmatched (withdraw_dlink_ready d))) m
      else transit unmatched withdraw_dlink_ready m
  | matched, dlink_pause => transit paused id m
  | matched, neighbor_reachable mac => internal (emit_ev_mac mac) m
  | paused, carrier_up => transit matched id m
  | paused, neighbor_reachable mac => transit matched (emit_ev_mac mac) m
  | retry_wait, retry_wait_elapsed c =>
      transit (if c : bool then matched else matching)
        (λ d, emit_error_routine (set_routine_reset_pending true d)) m
  | retry_wait, enter_bcd true => transit matched id m
  | retry_wait, enter_bcd false => transit matching open_sync_window m
  | retry_wait, dlink_error => m
  | _, reset _ =>
      if routine_reset_pending d then internal (set_routine_reset_pending false) m
      else transit unmatched (end_connection e) m
  | _, (leave_bcd | dlink_terminate) => transit unmatched (end_connection e) m
  | _, dlink_error =>
      if retries_left d then transit retry_wait (spend_retry e) m else transit unmatched (outer_give_up e) m
  | _, _ => internal no_transition m
  end.

Lemma process_event_link_step `{!MsmBackend} m e : process_event m e = link_step m e.
Proof.
  unfold process_event. rewrite (table_step_exclusive _ _ _ _ _ _ inner_table_exclusive).
  rewrite (choose_singleton (enabled_rows outer_table _ _ _)) by apply outer_table_exclusive.
  destruct m as [s d]. destruct s, e; unfold link_step; cbn [active data];
    compute_rows; split_guards; cbn [head row_target row_action];
    rewrite ?fire_order; reflexivity.
Qed.

(** ** The owner's view

    What the owner of the machine has done after executing a list of effects in
    order: the last published state, the last D-LINK_READY, the timers it runs
    (expiry apart) and how often it asked for the error routine. *)
Record owner := {
  o_state : option link_state;
  o_ready : bool;
  o_link_detect : bool;
  o_retry_wait : bool;
  o_sync : bool;
}.

Definition owner0 : owner :=
  {| o_state := None; o_ready := false; o_link_detect := false; o_retry_wait := false; o_sync := false |}.

Definition set_timer (t : timer_id) (v : bool) (o : owner) : owner :=
  {| o_state := o_state o; o_ready := o_ready o;
     o_link_detect := if decide (t = t_link_detect) then v else o_link_detect o;
     o_retry_wait := if decide (t = t_retry_wait) then v else o_retry_wait o;
     o_sync := if decide (t = t_sync_repetition) then v else o_sync o |}.

Definition execute (o : owner) (x : effect) : owner :=
  match x with
  | publish_state s =>
      {| o_state := Some s; o_ready := o_ready o; o_link_detect := o_link_detect o;
         o_retry_wait := o_retry_wait o; o_sync := o_sync o |}
  | publish_dlink_ready r =>
      {| o_state := o_state o; o_ready := r; o_link_detect := o_link_detect o;
         o_retry_wait := o_retry_wait o; o_sync := o_sync o |}
  | publish_request_error_routine | publish_ev_mac_effect _ => o
  | start_timer_effect t _ => set_timer t true o
  | stop_timer_effect t => set_timer t false o
  end.

(** The machine's methods as a step relation; [h] collects the effects the owner has
    taken so far. *)
Inductive reachable `{!MsmBackend} (config : link_config) : link_state_machine → list effect → Prop :=
| reach_start : reachable config (start (init config)) []
| reach_event m h e : reachable config m h → reachable config (process_event m e) h
| reach_take m h : reachable config m h →
    reachable config (take_effects m).2 (h ++ (take_effects m).1).

(** Whether the link is up in a state. *)
Definition link_up (s : internal_state) : bool :=
  match s with matched | paused => true | _ => false end.

(** The view that belongs to a machine state. *)
Definition expected_view (m : link_state_machine) : owner :=
  {| o_state := Some (published_state m); o_ready := link_up (state m);
     o_link_detect := bool_decide (state m = matching);
     o_retry_wait := bool_decide (state m = retry_wait);
     o_sync := sync_window_armed (data m) |}.

Section invariant.

Definition view (h : list effect) (d : machine_data) : owner := foldl execute owner0 (h ++ effects d).

Lemma view_push h x d : view h (push x d) = execute (view h d) x.
Proof. unfold view, push. simpl. by rewrite app_assoc, foldl_app. Qed.

(** The invariant of the reachable states. *)
Definition link_inv (h : list effect) (m : link_state_machine) : Prop :=
  active m = current (data m) ∧
  last_state (data m) = Some (published_of (current (data m))) ∧
  ready (data m) = link_up (current (data m)) ∧
  0 ≤ retries (data m) ≤ Z.max 0 (conn_retry_max (cfg (data m))) ∧
  view h (data m) = expected_view m.

Lemma link_inv_start config : link_inv [] (start (init config)).
Proof. repeat split; simpl; lia. Qed.

Lemma link_inv_take h m : link_inv h m → link_inv (h ++ (take_effects m).1) (take_effects m).2.
Proof.
  intros (Ha & Hl & Hr & Hb & Hv). repeat split; try done; try apply Hb.
  unfold view in *. simpl. by rewrite app_nil_r.
Qed.

Lemma link_inv_step h m e : link_inv h m → link_inv h (link_step m e).
Proof.
  destruct m as [s d]. intros (Ha & Hl & Hr & Hb & Hv).
  destruct d as [c fx cur ls rdy rt ig mac rrp sync]. cbn in Ha, Hl, Hr, Hb, Hv. subst s ls rdy.
  unfold view, expected_view, state, published_state in Hv. cbn in Hv.
  destruct cur, e; unfold link_step, retries_left; cbn [active data retries cfg routine_reset_pending];
    destruct_bools; try (destruct (rt <? conn_retry_max c) eqn:Hrl);
    unfold link_inv, view, expected_view, state, published_state, transit, internal, end_connection, outer_give_up,
      spend_retry, open_sync_window, close_sync_window, emit_ev_mac, on_entry, emit_state,
      withdraw_dlink_ready; cbn;
    repeat match goal with |- context [if ?b then _ else _] => destruct b eqn:? end; cbn;
    (repeat split; try done; try lia; rewrite ?app_assoc, ?foldl_snoc, Hv; reflexivity).
Qed.
End invariant.

Lemma reachable_inv `{!MsmBackend} config m h : reachable config m h → link_inv h m.
Proof.
  induction 1; [apply link_inv_start| |by apply link_inv_take].
  rewrite process_event_link_step. by apply link_inv_step.
Qed.

Lemma reachable_cfg `{!MsmBackend} config m h : reachable config m h → cfg (data m) = config.
Proof.
  assert (∀ m e, cfg (data (link_step m e)) = cfg (data m)) as Hstep.
  { intros [s d] e. destruct d as [c fx cur ls rdy rt ig mac rrp sync].
    destruct s, e; unfold link_step; cbn; destruct_bools;
    unfold transit, internal, end_connection, outer_give_up, spend_retry, open_sync_window, close_sync_window,
      emit_ev_mac, on_entry, emit_state, withdraw_dlink_ready; cbn;
    repeat match goal with |- context [if ?b then _ else _] => destruct b end; reflexivity. }
  induction 1; [done| |done]. by rewrite process_event_link_step, Hstep.
Qed.

(** ** Restarts are paid for *)
Section budget.

(** Events that do not start or end a connection: they never refill the budget. *)
Definition within_connection (e : event) : bool :=
  match e with
  | reset _ | enter_bcd _ | leave_bcd | dlink_terminate => false
  | _ => true
  end.

Definition is_detect_start (x : effect) : bool :=
  match x with start_timer_effect t_link_detect _ => true | _ => false end.
Definition is_error_routine (x : effect) : bool :=
  match x with publish_request_error_routine => true | _ => false end.

Definition occurrences (p : effect → bool) (l : list effect) : Z := Z.of_nat (length (List.filter p l)).

Lemma occurrences_snoc p l x : occurrences p (l ++ [x]) = occurrences p l + (if p x then 1 else 0).
Proof. unfold occurrences. rewrite List.filter_app, length_app. simpl. destruct (p x); simpl; lia. Qed.

(** Attempts still available: the unspent budget, and the one already paid for while
    waiting for the restart. *)
Definition attempts_left (m : link_state_machine) : Z :=
  Z.max 0 (conn_retry_max (cfg (data m)) - retries (data m)) +
  match active m with retry_wait => 1 | _ => 0 end.

Lemma attempts_step p m e :
  p = is_detect_start ∨ p = is_error_routine →
  within_connection e = true →
  occurrences p (effects (data (link_step m e))) + attempts_left (link_step m e) ≤
  occurrences p (effects (data m)) + attempts_left m.
Proof.
  intros Hp He. destruct m as [s d]. destruct d as [c fx cur ls rdy rt ig mac rrp sync].
  destruct s, e; try discriminate He; unfold link_step, retries_left; cbn [active data retries cfg routine_reset_pending];
    destruct_bools; try (destruct (rt <? conn_retry_max c) eqn:Hrl);
    unfold attempts_left, transit, internal, outer_give_up, spend_retry, close_sync_window, emit_ev_mac, on_entry,
      emit_state, withdraw_dlink_ready; cbn;
    repeat match goal with |- context [if ?b then _ else _] =>
             lazymatch b with p _ => fail | _ => destruct b eqn:? end end; cbn;
    rewrite ?occurrences_snoc; destruct Hp as [-> | ->]; cbn; lia.
Qed.
End budget.

(** A configuration for the witnesses, and a short session: plug-in without carrier, link
    up, D-LINK_ERROR, restart. *)
Definition demo_config : link_config :=
  {| conn_retry_max := 3; link_detect_timeout_ms := 4000; sync_repetition_ms := 4000;
     retry_wait_ms := 3000; publish_ev_mac := true |}.

Definition demo_events : list event :=
  [enter_bcd false; carrier_up; dlink_error; retry_wait_elapsed false].

Definition demo_machine : link_state_machine :=
  foldl (@process_event first_row_backend) (start (init demo_config)) demo_events.

Lemma demo_reachable : @reachable first_row_backend demo_config demo_machine [].
Proof. unfold demo_machine, demo_events. simpl. repeat apply reach_event. apply reach_start. Defined.

(** The rows of the transition tables never compete: whichever enabled row a
    backend prefers, the machine does the same thing on every event. *)
Lemma process_event_deterministic (B1 B2 : MsmBackend) (m : link_state_machine) (e : event) :
  @process_event B1 m e = @process_event B2 m e.
Proof. by rewrite !process_event_link_step. Qed.

(** C12: Refinement: in every reachable state, executing the effects in order leaves the
    owner with exactly the view that belongs to the machine state: the published state
    is the machine's, D-LINK_READY(true) is outstanding if and only if the link is up
    (matched or paused), TT_EV_link_detect runs if and only if the machine is matching,
    the restart timer if and only if it waits to restart, and the repetition window
    timer if and only if the machine has it armed. *)
Theorem owner_view_refines `{!MsmBackend} (config : link_config) (m : link_state_machine) (h : list effect) :
  reachable config m h →
  foldl execute owner0 (h ++ effects (data m)) = expected_view m ∧
  dlink_ready m = link_up (state m) ∧ active m = state m.
Proof. intros (Ha & _ & Hr & _ & Hv)%reachable_inv. done. Qed.

Lemma owner_view_refines_witness :
  foldl execute owner0 ([] ++ effects (data demo_machine)) =
  {| o_state := Some ls_matching; o_ready := false; o_link_detect := true; o_retry_wait := false; o_sync := false |}.
Proof.
  etransitivity; [|vm_compute; reflexivity].
  exact (proj1 (@owner_view_refines first_row_backend demo_config demo_machine [] demo_reachable)).
Defined.

(** The attempt counter stays within the configured budget in every reachable state. *)
Lemma retry_count_bounded `{!MsmBackend} (config : link_config) (m : link_state_machine) (h : list effect) :
  reachable config m h → 0 ≤ retry_count m ≤ Z.max 0 (conn_retry_max config).
Proof.
  intros Hm. pose proof (reachable_cfg _ _ _ Hm) as Hc. apply reachable_inv in Hm as (_ & _ & _ & Hb & _).
  by rewrite Hc in Hb.
Qed.

(** A flapping link cannot restart forever: from any state, over any sequence of
    events that neither starts nor ends a connection, the number of times the machine
    starts waiting for the link, and the number of error routines it requests, are
    each bounded by the attempts left at the beginning. *)
Lemma restarts_bounded `{!MsmBackend} (m : link_state_machine) (es : list event) :
  Forall (λ e, within_connection e = true) es →
  let m' := foldl process_event m es in
  0 ≤ attempts_left m' ∧
  occurrences is_detect_start (effects (data m')) + attempts_left m' ≤
    occurrences is_detect_start (effects (data m)) + attempts_left m ∧
  occurrences is_error_routine (effects (data m')) + attempts_left m' ≤
    occurrences is_error_routine (effects (data m)) + attempts_left m.
Proof.
  intros Hes. simpl. split.
  { unfold attempts_left. destruct (active _); lia. }
  revert m. induction Hes as [|e es He _ IH]; intros m; simpl; [lia|].
  specialize (IH (process_event m e)). rewrite process_event_link_step in *.
  pose proof (attempts_step is_detect_start m e ltac:(auto) He).
  pose proof (attempts_step is_error_routine m e ltac:(auto) He). lia.
Qed.

Definition demo_flapping : list event :=
  [dlink_error; retry_wait_elapsed true; carrier_down; link_detect_timeout true].

Lemma demo_flapping_within : Forall (λ e, within_connection e = true) demo_flapping.
Proof. unfold demo_flapping. repeat apply Forall_cons_2; try reflexivity. apply Forall_nil_2. Defined.

(** The reset that EvseManager's error sequence sends after an error routine request
    is absorbed: it changes neither the state, nor the budget, nor the owner's view;
    the next reset (or any reset without a pending request) ends the connection:
    unmatched, budget refilled, D-LINK_READY withdrawn, all timers stopped. *)
Lemma routine_reset_absorbed `{!MsmBackend} (config : link_config) (m : link_state_machine)
    (h : list effect) (enable : bool) :
  reachable config m h →
  let m1 := process_event m (reset enable) in
  routine_reset_pending (data m1) = false ∧
  (routine_reset_pending (data m) = true →
     state m1 = state m ∧ retry_count m1 = retry_count m ∧ dlink_ready m1 = dlink_ready m ∧
     effects (data m1) = effects (data m)) ∧
  (routine_reset_pending (data m) = false →
     foldl execute owner0 (h ++ effects (data m1)) =
       {| o_state := Some ls_unmatched; o_ready := false; o_link_detect := false;
          o_retry_wait := false; o_sync := false |} ∧ retry_count m1 = 0).
Proof.
  intros Hm. pose proof (reach_event _ _ _ (reset enable) Hm) as Hm1.
  apply reachable_inv in Hm as (Ha & _). apply reachable_inv in Hm1 as (_ & _ & _ & _ & Hv).
  unfold view in Hv. simpl. revert Hv. rewrite process_event_link_step.
  assert (link_step m (reset enable) =
    if routine_reset_pending (data m) then internal (set_routine_reset_pending false) m
    else transit unmatched (end_connection (reset enable)) m) as ->.
  { unfold link_step. destruct (active m); done. }
  destruct (routine_reset_pending (data m)) eqn:Hp; intros Hv.
  - repeat split; done.
  - assert (sync_window_armed (data (transit unmatched (end_connection (reset enable)) m)) = false ∧
      routine_reset_pending (data (transit unmatched (end_connection (reset enable)) m)) = false ∧
      retries (data (transit unmatched (end_connection (reset enable)) m)) = 0 ∧
      current (data (transit unmatched (end_connection (reset enable)) m)) = unmatched) as (Hs & Hr & Ht & Hc).
    { unfold transit, end_connection, close_sync_window, withdraw_dlink_ready, on_entry, emit_state. cbn.
      repeat match goal with |- context [if ?b then _ else _] => destruct b eqn:? end; cbn;
        repeat split; try done;
        match goal with H : negb (sync_window_armed _) = true |- _ => apply negb_true_iff in H; exact H end. }
    split; [done|]. split; [done|]. intros _. split; [|done].
    rewrite Hv. unfold expected_view, published_state, state. rewrite Hs, Hc. done.
Qed.

