(* ===== verification/EvLinkStateMachine.v ===== *)
(** * The EV data link state machine of the McsEvDataLink module

    Models [src/modules/EV/McsEvDataLink/main/link_state_machine.cpp]: the vehicle
    side of the data link, a flat boost::msm table without a retry budget, and
    proves that the owner's view follows the machine. *)

From S2P Require Import Prelude Msm.

Module EvLink.

Inductive link_state := unmatched | matching | matched.

#[global] Instance link_state_eq_dec : EqDecision link_state.
Proof. solve_decision. Defined.

Inductive effect :=
| publish_state (state : link_state)
| publish_dlink_ready (ready : bool)
| publish_connector_mac_effect (mac : string)
| start_timer_effect (timeout_ms : Z)
| stop_timer_effect.

Record link_config := { link_detect_timeout_ms : Z; publish_connector_mac : bool }.

Inductive event :=
| reset
| trigger_matching (carrier_up : bool)
| carrier_up
| carrier_down
| link_lost
| link_detect_timeout
| neighbor_reachable (mac : string).

(** The members of [link_def]. *)
Record link_def := {
  cfg : link_config;
  effects : list effect;
  current : link_state;
  last_state : option link_state;
  ready : bool;
  ignored : Z;
  published_mac : string;
}.

Definition push (item : effect) (d : link_def) : link_def :=
  {| cfg := cfg d; effects := effects d ++ [item]; current := current d; last_state := last_state d;
     ready := ready d; ignored := ignored d; published_mac := published_mac d |}.
Definition set_current (v : link_state) (d : link_def) : link_def :=
  {| cfg := cfg d; effects := effects d; current := v; last_state := last_state d;
     ready := ready d; ignored := ignored d; published_mac := published_mac d |}.
Definition set_last_state (v : option link_state) (d : link_def) : link_def :=
  {| cfg := cfg d; effects := effects d; current := current d; last_state := v;
     ready := ready d; ignored := ignored d; published_mac := published_mac d |}.
Definition set_ready (v : bool) (d : link_def) : link_def :=
  {| cfg := cfg d; effects := effects d; current := current d; last_state := last_state d;
     ready := v; ignored := ignored d; published_mac := published_mac d |}.
Definition set_published_mac (v : string) (d : link_def) : link_def :=
  {| cfg := cfg d; effects := effects d; current := current d; last_state := last_state d;
     ready := ready d; ignored := ignored d; published_mac := v |}.
Definition no_transition (d : link_def) : link_def :=
  {| cfg := cfg d; effects := effects d; current := current d; last_state := last_state d;
     ready := ready d; ignored := ignored d + 1; published_mac := published_mac d |}.

(** Emitters, lines 54-113. *)
Definition emit_state (value : link_state) (d : link_def) : link_def :=
  let d := set_current value d in
  if decide (last_state d = Some value) then d
  else push (publish_state value) (set_last_state (Some value) d).

Definition emit_dlink_ready (d : link_def) : link_def :=
  push (publish_dlink_ready true) (set_ready true d).

Definition withdraw_dlink_ready (d : link_def) : link_def :=
  if negb (ready d) then d else push (publish_dlink_ready false) (set_ready false d).

Definition emit_connector_mac (mac : string) (d : link_def) : link_def :=
  if negb (publish_connector_mac (cfg d)) || String.eqb mac "" || String.eqb mac (published_mac d) then d
  else push (publish_connector_mac_effect mac) (set_published_mac mac d).

Definition forget_connector_mac (d : link_def) : link_def := set_published_mac "" d.
Definition start_timer (timeout_ms : Z) (d : link_def) : link_def := push (start_timer_effect timeout_ms) d.
Definition stop_timer (d : link_def) : link_def := push stop_timer_effect d.

(** States, lines 119-144. *)
Definition on_entry (s : link_state) (d : link_def) : link_def :=
  match s with
  | unmatched => emit_state unmatched (forget_connector_mac d)
  | matching =>
      let d := emit_state matching (forget_connector_mac d) in
      start_timer (link_detect_timeout_ms (cfg d)) d
  | matched => emit_dlink_ready (emit_state matched d)
  end.

Definition on_exit (s : link_state) (d : link_def) : link_def :=
  match s with matching => stop_timer d | unmatched | matched => d end.

(** Events, guards, actions and rows, lines 150-202. *)
Definition is_reset (e : event) : bool := match e with reset => true | _ => false end.
Definition is_trigger_matching (e : event) : bool := match e with trigger_matching _ => true | _ => false end.
Definition is_carrier_up (e : event) : bool := match e with carrier_up => true | _ => false end.
Definition is_carrier_down (e : event) : bool := match e with carrier_down => true | _ => false end.
Definition is_link_lost (e : event) : bool := match e with link_lost => true | _ => false end.
Definition is_link_detect_timeout (e : event) : bool := match e with link_detect_timeout => true | _ => false end.
Definition is_neighbor_reachable (e : event) : bool := match e with neighbor_reachable _ => true | _ => false end.

Definition evt_carrier_up (e : event) : bool := match e with trigger_matching c => c | _ => false end.
Definition evt_mac (e : event) : string := match e with neighbor_reachable m => m | _ => "" end.

Definition carrier (e : event) (d : link_def) : bool := evt_carrier_up e.
Definition no_carrier (e : event) (d : link_def) : bool := negb (evt_carrier_up e).

Definition link_down (e : event) (d : link_def) : link_def := withdraw_dlink_ready d.
Definition publish_connector_mac_action (e : event) (d : link_def) : link_def := emit_connector_mac (evt_mac e) d.

Definition transition_table : list (row link_state event link_def) := [
  Row unmatched is_trigger_matching    (Some matched)   no_action                    carrier;
  Row unmatched is_trigger_matching    (Some matching)  no_action                    no_carrier;
  Row unmatched is_reset               (Some unmatched) link_down                    no_guard;
  Row matching  is_carrier_up          (Some matched)   no_action                    no_guard;
  Row matching  is_link_detect_timeout (Some unmatched) link_down                    no_guard;
  Row matching  is_reset               (Some unmatched) link_down                    no_guard;
  Row matched   is_carrier_down        (Some unmatched) link_down                    no_guard;
  Row matched   is_link_lost           (Some unmatched) link_down                    no_guard;
  Row matched   is_reset               (Some unmatched) link_down                    no_guard;
  Row matched   is_neighbor_reachable  None             publish_connector_mac_action no_guard ].

(** The machine and its methods, lines 215-276. *)
Record link_state_machine := { active : link_state; machine : link_def }.

Definition init (config : link_config) : link_state_machine :=
  {| active := unmatched;
     machine := {| cfg := config; effects := []; current := unmatched; last_state := None; ready := false;
                   ignored := 0; published_mac := "" |} |}.

Definition start (m : link_state_machine) : link_state_machine :=
  {| active := unmatched; machine := on_entry unmatched (machine m) |}.

Definition process_event `{!MsmBackend} (m : link_state_machine) (e : event) : link_state_machine :=
  match table_step on_entry on_exit transition_table (active m) e (machine m) with
  | Some (s, d) => {| active := s; machine := d |}
  | None => {| active := active m; machine := no_transition (machine m) |}
  end.

Definition take_effects (m : link_state_machine) : list effect * link_state_machine :=
  (effects (machine m),
   {| active := active m;
      machine := {| cfg := cfg (machine m); effects := []; current := current (machine m);
                    last_state := last_state (machine m); ready := ready (machine m);
                    ignored := ignored (machine m); published_mac := published_mac (machine m) |} |}).

Definition state (m : link_state_machine) : link_state := current (machine m).
Definition dlink_ready (m : link_state_machine) : bool := ready (machine m).

(** ** The owner's view and its invariant *)

Ltac compute_rows :=
  cbv [enabled_rows candidate_rows transition_table List.filter row_source row_event row_guard
       is_reset is_trigger_matching is_carrier_up is_carrier_down is_link_lost is_link_detect_timeout
       is_neighbor_reachable bool_decide decide decide_rel link_state_eq_dec link_state_rec
       link_state_rect andb carrier no_carrier no_guard evt_carrier_up negb].

Lemma transition_table_exclusive : exclusive transition_table.
Proof.
  intros s e d. destruct s, e; compute_rows;
    repeat match goal with b : bool |- _ => destruct b end; simpl; lia.
Qed.

Record owner := { o_state : option link_state; o_ready : bool; o_timer : bool }.

Definition owner0 : owner := {| o_state := None; o_ready := false; o_timer := false |}.

Definition execute (o : owner) (x : effect) : owner :=
  match x with
  | publish_state s => {| o_state := Some s; o_ready := o_ready o; o_timer := o_timer o |}
  | publish_dlink_ready r => {| o_state := o_state o; o_ready := r; o_timer := o_timer o |}
  | publish_connector_mac_effect _ => o
  | start_timer_effect _ => {| o_state := o_state o; o_ready := o_ready o; o_timer := true |}
  | stop_timer_effect => {| o_state := o_state o; o_ready := o_ready o; o_timer := false |}
  end.

Definition expected_view (s : link_state) : owner :=
  match s with
  | unmatched => {| o_state := Some unmatched; o_ready := false; o_timer := false |}
  | matching => {| o_state := Some matching; o_ready := false; o_timer := true |}
  | matched => {| o_state := Some matched; o_ready := true; o_timer := false |}
  end.

Inductive reachable `{!MsmBackend} (config : link_config) : link_state_machine → list effect → Prop :=
| reach_start : reachable config (start (init config)) []
| reach_event m h e : reachable config m h → reachable config (process_event m e) h
| reach_take m h : reachable config m h →
    reachable config (take_effects m).2 (h ++ (take_effects m).1).

Definition link_inv (h : list effect) (m : link_state_machine) : Prop :=
  active m = current (machine m) ∧
  last_state (machine m) = Some (current (machine m)) ∧
  ready (machine m) = o_ready (expected_view (current (machine m))) ∧
  foldl execute owner0 (h ++ effects (machine m)) = expected_view (current (machine m)).

Lemma ev_link_inv_step `{!MsmBackend} h m e : link_inv h m → link_inv h (process_event m e).
Proof.
  intros (Ha & Hl & Hr & Hv). unfold process_event.
  rewrite (table_step_exclusive _ _ _ _ _ _ transition_table_exclusive).
  destruct m as [s d]. destruct d as [c fx cur ls rdy ig mac]. cbn in Ha, Hl, Hr, Hv. subst s ls rdy.
  destruct cur, e; cbn [active machine]; compute_rows;
    repeat match goal with b : bool |- _ => destruct b end;
    cbn [head row_target row_action]; unfold link_inv, link_down, publish_connector_mac_action,
      emit_connector_mac, withdraw_dlink_ready, on_entry, emit_state, no_action; cbn;
    repeat match goal with |- context [if ?b then _ else _] => destruct b eqn:? end; cbn;
    (repeat split; try done; rewrite ?app_assoc, ?foldl_snoc, Hv; reflexivity).
Qed.

Lemma ev_reachable_inv `{!MsmBackend} config m h : reachable config m h → link_inv h m.
Proof.
  induction 1 as [|m h e _ IH|m h _ (Ha & Hl & Hr & Hv)]; [done|by apply ev_link_inv_step|].
  repeat split; try done. simpl. by rewrite app_nil_r.
Qed.

(** On the vehicle side too, executing the effects leaves the owner with the state
    the machine is in: published state, D-LINK_READY exactly while matched, and the
    communication setup deadline running exactly while matching. *)
Lemma ev_owner_view_refines `{!MsmBackend} (config : link_config) (m : link_state_machine) (h : list effect) :
  reachable config m h →
  foldl execute owner0 (h ++ effects (machine m)) = expected_view (state m) ∧
  dlink_ready m = bool_decide (state m = matched).
Proof.
  intros (_ & _ & Hr & Hv)%ev_reachable_inv. split; [done|].
  unfold dlink_ready, state. rewrite Hr. by destruct (current (machine m)).
Qed.

Definition demo_config : link_config := {| link_detect_timeout_ms := 4000; publish_connector_mac := true |}.

Definition demo_machine : link_state_machine :=
  foldl (@process_event first_row_backend) (start (init demo_config)) [trigger_matching false; carrier_up].

End EvLink.
