(* ===== verification/IecStateMachine.v ===== *)
(** * The IEC 61851 control pilot state machine of EvseManager

    Models [src/modules/EVSE/EvseManager/IECStateMachine.cpp] (with its header)
    and the [AsyncTimeout] of [Timeout.hpp]: the translation of control pilot
    measurements into events for the charger, the forwarding of power-on
    permission to the board support driver, and the connector lock.  The calls
    to the driver and the sigslot signals are the outputs of the operations.
    Each operation runs at one instant [now] of the steady clock, in
    milliseconds.  Doubles are the standard library's binary64 [spec_float]. *)

From S2P Require Import Prelude.
From Stdlib Require Import Floats.SpecFloat.

Module Iec.

(** ** Doubles *)
Definition double := spec_float.
Definition double_mul (x y : double) : double := SFmul 53 1024 x y.
Definition double_lt (x y : double) : bool := SFltb x y.
Definition double_le (x y : double) : bool := SFleb x y.
Definition double_eq (x y : double) : bool := SFeqb x y.
Definition dbl_0 : double := S754_zero false.
Definition dbl_1 : double := S754_finite false 4503599627370496 (-52).
Definition dbl_minus_1 : double := S754_finite true 4503599627370496 (-52).
Definition dbl_100 : double := S754_finite false 7036874417766400 (-46).

(** [static constexpr float ev_simplified_mode_evse_limit_pwm{10 / 0.6 / 100.}],
    rounded to binary32 and read back as a double. *)
Definition ev_simplified_mode_evse_limit_pwm : double := S754_finite false 6004799682117632 (-55).

(** ** Enumerations *)
Inductive CPEvent :=
| CarPluggedIn | CarRequestedPower | PowerOn | PowerOff | CarRequestedStopPower
| CarUnplugged | EFtoBCD | BCDtoEF | BCDtoE.

Inductive RawCPState := Disabled | A | B | C | D | E | F.

#[global] Instance RawCPState_eq_dec : EqDecision RawCPState.
Proof. solve_decision. Defined.

Definition cp_is (x y : RawCPState) : bool := bool_decide (x = y).

Inductive AcPhases := SinglePhase | TwoPhases | ThreePhases.
Inductive TimerControl := tc_do_nothing | tc_start | tc_stop.

(** [types::evse_board_support::Reason], [types::board_support_common::Ampacity]
    and [types::board_support_common::Event]. *)
Inductive Reason := DCCableCheck | DCPreCharge | FullPowerCharging | ReasonPowerOff.
Inductive Ampacity := Amp_None | A_13 | A_20 | A_32 | A_63_3ph_70_1ph.
Inductive BspEvent :=
| Bsp_A | Bsp_B | Bsp_C | Bsp_D | Bsp_E | Bsp_F
| Bsp_PowerOn | Bsp_PowerOff | Bsp_Disconnected.

Definition from_bsp_event (e : BspEvent) : RawCPState + CPEvent :=
  match e with
  | Bsp_A => inl A
  | Bsp_B => inl B
  | Bsp_C => inl C
  | Bsp_D => inl D
  | Bsp_E => inl E
  | Bsp_F => inl F
  | Bsp_PowerOn => inr PowerOn
  | Bsp_PowerOff => inr PowerOff
  | Bsp_Disconnected => inl Disabled
  end.

Definition cpevent_to_string (e : CPEvent) : string :=
  match e with
  | CarPluggedIn => "CarPluggedIn"
  | CarRequestedPower => "CarRequestedPower"
  | PowerOn => "PowerOn"
  | PowerOff => "PowerOff"
  | CarRequestedStopPower => "CarRequestedStopPower"
  | CarUnplugged => "CarUnplugged"
  | EFtoBCD => "EFtoBCD"
  | BCDtoEF => "BCDtoEF"
  | BCDtoE => "BCDtoE"
  end.

(** ** [AsyncTimeout]

    [waiting]: the wait thread has not yet signalled and not been stopped. *)
Record AsyncTimeout := {
  running : bool;
  start_time : Z;
  duration : Z;
  waiting : bool;
}.

Definition timeout_new : AsyncTimeout :=
  {| running := false; start_time := 0; duration := 0; waiting := false |}.
Definition timeout_start (now d : Z) (t : AsyncTimeout) : AsyncTimeout :=
  {| running := true; start_time := now; duration := d; waiting := true |}.
Definition timeout_stop (t : AsyncTimeout) : AsyncTimeout :=
  if running t
  then {| running := false; start_time := start_time t; duration := duration t; waiting := false |}
  else t.
Definition timeout_reached (now : Z) (t : AsyncTimeout) : bool :=
  running t && (duration t <? now - start_time t).
Definition timeout_signalled (t : AsyncTimeout) : AsyncTimeout :=
  {| running := running t; start_time := start_time t; duration := duration t; waiting := false |}.

Definition power_off_under_load_in_c1_timeout : Z := 6000.
Definition unlock_in_state_f_timeout : Z := 5000.

(** ** The state machine's members *)
Record iec := {
  lock_connector_in_state_b : bool;
  pwm_running : bool;
  last_pwm_running : bool;
  ev_simplified_mode_evse_limit : bool;
  ev_simplified_mode : bool;
  has_ventilation : bool;
  power_on_allowed : bool;
  last_power_on_allowed : bool;
  last_power_on_forwarded : bool;
  pp_ampacity : Z;
  last_amps : double;
  max_phases : AcPhases;
  car_plugged_in : bool;
  last_cp_state : RawCPState;
  cp_state_f_requested : bool;
  signalled_raw_cp_state : RawCPState;
  timeout_state_c1 : AsyncTimeout;
  timeout_unlock_state_F : AsyncTimeout;
  timeout_captive_lock : AsyncTimeout;
  power_on_reason : Reason;
  use_authorized : bool;
  authorized : bool;
  keep_cable_locked : bool;
  captive_unlock_window : bool;
  keep_cable_locked_lock_delay_ms : Z;
  captive_lock_delay_elapsed : bool;
  captive_latched : bool;
  is_locked : bool;
  should_be_locked : bool;
  force_unlocked : bool;
  enabled : bool;
  relais_on : bool;
  state_e_triggered_through_handle : bool;
}.

Definition eta_iec (s : iec) : iec :=
  {| lock_connector_in_state_b := lock_connector_in_state_b s;
     pwm_running := pwm_running s;
     last_pwm_running := last_pwm_running s;
     ev_simplified_mode_evse_limit := ev_simplified_mode_evse_limit s;
     ev_simplified_mode := ev_simplified_mode s;
     has_ventilation := has_ventilation s;
     power_on_allowed := power_on_allowed s;
     last_power_on_allowed := last_power_on_allowed s;
     last_power_on_forwarded := last_power_on_forwarded s;
     pp_ampacity := pp_ampacity s;
     last_amps := last_amps s;
     max_phases := max_phases s;
     car_plugged_in := car_plugged_in s;
     last_cp_state := last_cp_state s;
     cp_state_f_requested := cp_state_f_requested s;
     signalled_raw_cp_state := signalled_raw_cp_state s;
     timeout_state_c1 := timeout_state_c1 s;
     timeout_unlock_state_F := timeout_unlock_state_F s;
     timeout_captive_lock := timeout_captive_lock s;
     power_on_reason := power_on_reason s;
     use_authorized := use_authorized s;
     authorized := authorized s;
     keep_cable_locked := keep_cable_locked s;
     captive_unlock_window := captive_unlock_window s;
     keep_cable_locked_lock_delay_ms := keep_cable_locked_lock_delay_ms s;
     captive_lock_delay_elapsed := captive_lock_delay_elapsed s;
     captive_latched := captive_latched s;
     is_locked := is_locked s;
     should_be_locked := should_be_locked s;
     force_unlocked := force_unlocked s;
     enabled := enabled s;
     relais_on := relais_on s;
     state_e_triggered_through_handle := state_e_triggered_through_handle s |}.

Definition set_pwm_running (v : bool) (s : iec) : iec := ltac:(set_field eta_iec pwm_running v s).
Definition set_last_pwm_running (v : bool) (s : iec) : iec := ltac:(set_field eta_iec last_pwm_running v s).
Definition set_ev_simplified_mode_evse_limit (v : bool) (s : iec) : iec := ltac:(set_field eta_iec ev_simplified_mode_evse_limit v s).
Definition set_ev_simplified_mode (v : bool) (s : iec) : iec := ltac:(set_field eta_iec ev_simplified_mode v s).
Definition set_has_ventilation (v : bool) (s : iec) : iec := ltac:(set_field eta_iec has_ventilation v s).
Definition set_power_on_allowed (v : bool) (s : iec) : iec := ltac:(set_field eta_iec power_on_allowed v s).
Definition set_last_power_on_allowed (v : bool) (s : iec) : iec := ltac:(set_field eta_iec last_power_on_allowed v s).
Definition set_last_power_on_forwarded (v : bool) (s : iec) : iec := ltac:(set_field eta_iec last_power_on_forwarded v s).
Definition set_pp_ampacity (v : Z) (s : iec) : iec := ltac:(set_field eta_iec pp_ampacity v s).
Definition set_last_amps (v : double) (s : iec) : iec := ltac:(set_field eta_iec last_amps v s).
Definition set_max_phases (v : AcPhases) (s : iec) : iec := ltac:(set_field eta_iec max_phases v s).
Definition set_car_plugged_in (v : bool) (s : iec) : iec := ltac:(set_field eta_iec car_plugged_in v s).
Definition set_last_cp_state (v : RawCPState) (s : iec) : iec := ltac:(set_field eta_iec last_cp_state v s).
Definition set_cp_state_f_requested (v : bool) (s : iec) : iec := ltac:(set_field eta_iec cp_state_f_requested v s).
Definition set_signalled_raw_cp_state (v : RawCPState) (s : iec) : iec := ltac:(set_field eta_iec signalled_raw_cp_state v s).
Definition set_timeout_state_c1 (v : AsyncTimeout) (s : iec) : iec := ltac:(set_field eta_iec timeout_state_c1 v s).
Definition set_timeout_unlock_state_F (v : AsyncTimeout) (s : iec) : iec := ltac:(set_field eta_iec timeout_unlock_state_F v s).
Definition set_timeout_captive_lock (v : AsyncTimeout) (s : iec) : iec := ltac:(set_field eta_iec timeout_captive_lock v s).
Definition set_power_on_reason (v : Reason) (s : iec) : iec := ltac:(set_field eta_iec power_on_reason v s).
Definition set_authorized (v : bool) (s : iec) : iec := ltac:(set_field eta_iec authorized v s).
Definition set_keep_cable_locked (v : bool) (s : iec) : iec := ltac:(set_field eta_iec keep_cable_locked v s).
Definition set_captive_unlock_window (v : bool) (s : iec) : iec := ltac:(set_field eta_iec captive_unlock_window v s).
Definition set_captive_lock_delay_elapsed (v : bool) (s : iec) : iec := ltac:(set_field eta_iec captive_lock_delay_elapsed v s).
Definition set_captive_latched (v : bool) (s : iec) : iec := ltac:(set_field eta_iec captive_latched v s).
Definition set_is_locked (v : bool) (s : iec) : iec := ltac:(set_field eta_iec is_locked v s).
Definition set_should_be_locked (v : bool) (s : iec) : iec := ltac:(set_field eta_iec should_be_locked v s).
Definition set_force_unlocked (v : bool) (s : iec) : iec := ltac:(set_field eta_iec force_unlocked v s).
Definition set_enabled (v : bool) (s : iec) : iec := ltac:(set_field eta_iec enabled v s).
Definition set_relais_on (v : bool) (s : iec) : iec := ltac:(set_field eta_iec relais_on v s).
Definition set_state_e_triggered_through_handle (v : bool) (s : iec) : iec := ltac:(set_field eta_iec state_e_triggered_through_handle v s).

(** Calls to the board support driver and emissions of the machine's signals. *)
Inductive output :=
| bsp_cp_state_X1
| bsp_cp_state_E
| bsp_cp_state_F
| bsp_pwm_on (value : double)
| bsp_allow_power_on (value : bool) (reason : Reason)
| bsp_enable (value : bool)
| bsp_ac_switch_three_phases_while_charging (value : bool)
| bsp_ac_set_overcurrent_limit_A (amps : double)
| signal_event (e : CPEvent)
| signal_lock
| signal_unlock
| signal_raw_cp_state_changed (state : RawCPState)
| signal_pwm_duty_cycle (value : double).

Definition op (R : Type) : Type := cmd iec output Empty_set R.
Notation assign := cmodify (only parsing).
Notation call := cemit (only parsing).

(** ** Construction *)
Definition IECStateMachine_new
    (lock_connector_in_state_b_ use_authorized_ keep_cable_locked_ : bool)
    (keep_cable_locked_lock_delay_ms_ : Z) : iec :=
  {| lock_connector_in_state_b := lock_connector_in_state_b_;
     pwm_running := false; last_pwm_running := false;
     ev_simplified_mode_evse_limit := false; ev_simplified_mode := false;
     has_ventilation := false;
     power_on_allowed := false; last_power_on_allowed := false; last_power_on_forwarded := false;
     pp_ampacity := 0; last_amps := dbl_minus_1; max_phases := ThreePhases;
     car_plugged_in := false; last_cp_state := Disabled; cp_state_f_requested := false;
     signalled_raw_cp_state := Disabled;
     timeout_state_c1 := timeout_new; timeout_unlock_state_F := timeout_new;
     timeout_captive_lock := timeout_new;
     power_on_reason := ReasonPowerOff;
     use_authorized := use_authorized_; authorized := negb use_authorized_;
     keep_cable_locked := keep_cable_locked_; captive_unlock_window := false;
     keep_cable_locked_lock_delay_ms := keep_cable_locked_lock_delay_ms_;
     captive_lock_delay_elapsed := false; captive_latched := false;
     is_locked := false; should_be_locked := false; force_unlocked := false;
     enabled := false; relais_on := false; state_e_triggered_through_handle := false |}.

(** ** The connector lock *)
Definition connector_lock : op () := assign (set_should_be_locked true).

Definition connector_unlock : op () :=
  assign (set_should_be_locked false) ;;
  assign (set_force_unlocked false).

Definition check_connector_lock : op () :=
  s ← cget;
  let by_rules :=
    relais_on s || (should_be_locked s && negb (force_unlocked s) && authorized s) in
  should ←
    (if keep_cable_locked s then
       cwhen ((0 <? pp_ampacity s) && captive_lock_delay_elapsed s
              && negb (captive_unlock_window s))
         (assign (set_captive_latched true)) ;;
       s1 ← cget; mret (by_rules || captive_latched s1)
     else mret by_rules);
  s2 ← cget;
  if negb (is_locked s2) && should then
    call signal_lock ;; assign (set_is_locked true)
  else if is_locked s2 && negb should then
    call signal_unlock ;; assign (set_is_locked false)
  else mret tt.

(** ** Power-on permission *)
Definition call_allow_power_on_bsp (value : bool) : op () :=
  cwhen (negb value)
    (assign (set_power_on_allowed false) ;; assign (set_power_on_reason ReasonPowerOff)) ;;
  s ← cget;
  cwhen (negb (eqb value (last_power_on_forwarded s)))
    (assign (set_last_power_on_forwarded value)) ;;
  call (bsp_allow_power_on value (power_on_reason s)).

(** ** The main state machine

    One definition per [case] of the switch; each returns the events pushed and
    the two timer controls. *)
Definition decision : Type := list CPEvent * TimerControl * TimerControl.

Definition reset_to_X1 : op () :=
  s ← cget;
  cwhen (negb (cp_state_f_requested s))
    (call bsp_cp_state_X1 ;; call (signal_pwm_duty_cycle dbl_100)).

Definition case_Disabled : op (list CPEvent * TimerControl) :=
  s ← cget;
  if negb (cp_is (last_cp_state s) Disabled) then
    assign (set_pwm_running false) ;;
    reset_to_X1 ;;
    assign (set_ev_simplified_mode false) ;;
    call_allow_power_on_bsp false ;;
    connector_unlock ;;
    mret ([], tc_stop)
  else mret ([], tc_do_nothing).

Definition case_A : op (list CPEvent * TimerControl) :=
  s ← cget;
  let last := last_cp_state s in
  timer ←
    (if negb (cp_is last A) then
       assign (set_pwm_running false) ;;
       reset_to_X1 ;;
       assign (set_ev_simplified_mode false) ;;
       assign (set_car_plugged_in false) ;;
       call_allow_power_on_bsp false ;;
       connector_unlock ;;
       mret tc_stop
     else mret tc_do_nothing);
  mret (if negb (cp_is last A) && negb (cp_is last Disabled) then [CarUnplugged] else [], timer).

Definition case_B : op (list CPEvent * TimerControl) :=
  s ← cget;
  let last := last_cp_state s in
  (if lock_connector_in_state_b s then connector_lock else connector_unlock) ;;
  '(ev1, timer) ←
    (if cp_is last C || cp_is last D then
       call_allow_power_on_bsp false ;; mret ([CarRequestedStopPower], tc_stop)
     else mret ([], tc_do_nothing));
  ev2 ←
    (if cp_is last A || cp_is last Disabled
        || (negb (car_plugged_in s) && (cp_is last F || cp_is last E)) then
       assign (set_car_plugged_in true) ;;
       assign (set_ev_simplified_mode false) ;;
       mret [CarPluggedIn]
     else mret []);
  mret (ev1 ++ ev2 ++ (if cp_is last E || cp_is last F then [EFtoBCD] else []), timer).

Section at_time.
Context (now : Z).

(** Table A.6 sequence 1.2, and the power request of a car coming from B. *)
Definition case_C_plug : op (list CPEvent) :=
  s ← cget;
  let last := last_cp_state s in
  if cp_is last A || cp_is last Disabled || (negb (car_plugged_in s) && cp_is last F) then
    assign (set_car_plugged_in true) ;;
    assign (set_ev_simplified_mode true) ;;
    mret [CarPluggedIn]
  else mret (if cp_is last B then [CarRequestedPower] else []).

(** The edges of [pwm_running] while in state C, and the C1 timeout. *)
Definition case_C_pwm_edges : op TimerControl :=
  s ← cget;
  let pwm_off_edge := negb (pwm_running s) && last_pwm_running s in
  let pwm_on_edge := pwm_running s && negb (last_pwm_running s) in
  cwhen (pwm_on_edge && power_on_allowed s) (call_allow_power_on_bsp true) ;;
  cwhen (timeout_reached now (timeout_state_c1 s)) (call_allow_power_on_bsp false) ;;
  mret (if pwm_on_edge then tc_stop else if pwm_off_edge then tc_start else tc_do_nothing).

(** State C2. *)
Definition case_C_powered : op (list CPEvent) :=
  s ← cget;
  if pwm_running s then
    cwhen (power_on_allowed s && (negb (last_power_on_allowed s) || cp_is (last_cp_state s) B))
      (call_allow_power_on_bsp true) ;;
    mret (if negb (last_pwm_running s) && ev_simplified_mode s then [CarRequestedPower] else [])
  else mret [].

Definition case_C : op (list CPEvent * TimerControl) :=
  connector_lock ;;
  ev1 ← case_C_plug;
  timer ← case_C_pwm_edges;
  ev2 ← case_C_powered;
  mret (ev1 ++ ev2, timer).

Definition case_D : op (list CPEvent * TimerControl) :=
  connector_lock ;;
  s ← cget;
  if negb (has_ventilation s) then
    call_allow_power_on_bsp false ;; mret ([], tc_stop)
  else case_C.

Definition case_E : op (list CPEvent * TimerControl) :=
  s ← cget;
  let last := last_cp_state s in
  let state_e_triggered_by_evse := state_e_triggered_through_handle s in
  assign (set_state_e_triggered_through_handle false) ;;
  cwhen (negb state_e_triggered_by_evse) connector_unlock ;;
  if negb (cp_is last E) then
    call_allow_power_on_bsp false ;;
    assign (set_pwm_running false) ;;
    cwhen (negb state_e_triggered_by_evse) reset_to_X1 ;;
    mret (if cp_is last B || cp_is last C || cp_is last D
          then BCDtoEF :: (if negb state_e_triggered_by_evse then [BCDtoE] else [])
          else [], tc_stop)
  else mret ([], tc_do_nothing).

(** Returns its own control of the state F timer as well. *)
Definition case_F : op decision :=
  call_allow_power_on_bsp false ;;
  s ← cget;
  let last := last_cp_state s in
  timer_unlock ←
    (if negb (cp_is last F) then assign (set_pwm_running false) ;; mret tc_start
     else mret tc_do_nothing);
  cwhen (timeout_reached now (timeout_unlock_state_F s)) connector_unlock ;;
  mret (if cp_is last B || cp_is last C || cp_is last D then [BCDtoEF] else [], tc_stop,
        timer_unlock).

Definition with_timer_F (timer_F : TimerControl) (m : op (list CPEvent * TimerControl)) :
    op decision :=
  '(ev, timer) ← m; mret (ev, timer, timer_F).

Definition switch_cp_state (cp_state : RawCPState) (timer_F : TimerControl) : op decision :=
  match cp_state with
  | Disabled => with_timer_F timer_F case_Disabled
  | A => with_timer_F timer_F case_A
  | B => with_timer_F timer_F case_B
  | C => with_timer_F timer_F case_C
  | D => with_timer_F timer_F case_D
  | E => with_timer_F timer_F case_E
  | F => case_F
  end.

(** The section of [state_machine] protected by [state_machine_mutex]. *)
Definition state_machine_locked (cp_state_opt : option RawCPState) : op decision :=
  s ← cget;
  let cp_state := default (last_cp_state s) cp_state_opt in
  let timer_F :=
    if negb (cp_is cp_state F) && cp_is (last_cp_state s) F then tc_stop else tc_do_nothing in
  d ← switch_cp_state cp_state timer_F;
  check_connector_lock ;;
  s1 ← cget;
  assign (set_last_cp_state cp_state) ;;
  assign (set_last_pwm_running (pwm_running s1)) ;;
  assign (set_last_power_on_allowed (power_on_allowed s1)) ;;
  mret d.

Definition control_timer (tc : TimerControl) (d : Z) (t : AsyncTimeout) : AsyncTimeout :=
  match tc with
  | tc_start => timeout_start now d t
  | tc_stop => timeout_stop t
  | tc_do_nothing => t
  end.

Definition state_machine (cp_state_opt : option RawCPState) : op (list CPEvent) :=
  '(events, timer_state_C1, timer_unlock_state_F) ← state_machine_locked cp_state_opt;
  s ← cget;
  assign (set_timeout_state_c1
            (control_timer timer_state_C1 power_off_under_load_in_c1_timeout
               (timeout_state_c1 s))) ;;
  assign (set_timeout_unlock_state_F
            (control_timer timer_unlock_state_F unlock_in_state_f_timeout
               (timeout_unlock_state_F s))) ;;
  mret events.

Definition feed_state_machine (cp_state_opt : option RawCPState) : op () :=
  events ← state_machine cp_state_opt;
  s ← cget;
  match cp_state_opt with
  | Some cp =>
      cwhen (negb (cp_is cp (signalled_raw_cp_state s)))
        (assign (set_signalled_raw_cp_state cp) ;; call (signal_raw_cp_state_changed cp))
  | None => mret tt
  end ;;
  cfor events (λ e, call (signal_event e)).

(** ** Operations called from the driver and from the charger *)
Definition process_bsp_event (bsp_event : BspEvent) : op () :=
  match from_bsp_event bsp_event with
  | inl raw_state => feed_state_machine (Some raw_state)
  | inr event =>
      match event with
      | PowerOn => assign (set_relais_on true)
      | PowerOff => assign (set_relais_on false)
      | _ => mret tt
      end ;;
      check_connector_lock ;;
      call (signal_event event)
  end.

(** The subscription to the driver's events made by the constructor. *)
Definition on_bsp_event (event : BspEvent) : op () :=
  s ← cget; cwhen (enabled s) (process_bsp_event event).

Definition set_cp_state_X1 : op () :=
  assign (set_pwm_running false) ;;
  assign (set_cp_state_f_requested false) ;;
  call bsp_cp_state_X1 ;;
  call (signal_pwm_duty_cycle dbl_100) ;;
  feed_state_machine None.

Definition set_cp_state_F : op () :=
  assign (set_pwm_running false) ;;
  assign (set_cp_state_f_requested true) ;;
  call bsp_cp_state_F ;;
  call (signal_pwm_duty_cycle dbl_100) ;;
  feed_state_machine None.

Definition set_cp_state_E : op () :=
  assign (set_pwm_running false) ;;
  assign (set_state_e_triggered_through_handle true) ;;
  call bsp_cp_state_E ;;
  call (signal_pwm_duty_cycle dbl_100) ;;
  feed_state_machine None.

(** The mutex protected section of [set_pwm], after which the state machine is
    fed in a second one. *)
Definition set_pwm_locked : op () :=
  assign (set_pwm_running true) ;;
  assign (set_cp_state_f_requested false).

Definition set_pwm (value : double) : op () :=
  if double_le dbl_1 value then set_cp_state_X1
  else if double_le value dbl_0 then set_cp_state_F
  else
    set_pwm_locked ;;
    s ← cget;
    let value :=
      if ev_simplified_mode_evse_limit s && ev_simplified_mode s
         && double_lt ev_simplified_mode_evse_limit_pwm value
      then ev_simplified_mode_evse_limit_pwm else value in
    call (bsp_pwm_on (double_mul value dbl_100)) ;;
    call (signal_pwm_duty_cycle (double_mul value dbl_100)) ;;
    feed_state_machine None.

Definition allow_power_on (value : bool) (reason : Reason) : op () :=
  assign (set_power_on_allowed value) ;;
  assign (set_power_on_reason reason) ;;
  cwhen (negb value) (call_allow_power_on_bsp false) ;;
  feed_state_machine None.

Definition ampacity_value (phases : AcPhases) (a : Ampacity) : Z :=
  match a with
  | A_13 => 13
  | A_20 => 20
  | A_32 => 32
  | A_63_3ph_70_1ph => match phases with SinglePhase => 70 | _ => 63 end
  | Amp_None => 0
  end.

(** The protected section of [set_pp_ampacity]; returns whether to start and
    whether to stop the captive lock debounce. *)
Definition set_pp_ampacity_locked (a : Ampacity) : op (bool * bool) :=
  s0 ← cget;
  let plug_was_present := 0 <? pp_ampacity s0 in
  assign (set_pp_ampacity (ampacity_value (max_phases s0) a)) ;;
  s ← cget;
  if keep_cable_locked s then
    flags ←
      (if pp_ampacity s =? 0 then
         assign (set_captive_unlock_window false) ;;
         assign (set_captive_lock_delay_elapsed false) ;;
         mret (false, true)
       else if negb plug_was_present && negb (captive_lock_delay_elapsed s) then
         if 0 <? keep_cable_locked_lock_delay_ms s then mret (true, false)
         else assign (set_captive_lock_delay_elapsed true) ;; mret (false, false)
       else mret (false, false));
    check_connector_lock ;;
    mret flags
  else mret (false, false).

Definition update_pp_ampacity (a : Ampacity) : op () :=
  '(start_debounce, stop_debounce) ← set_pp_ampacity_locked a;
  s ← cget;
  cwhen (keep_cable_locked s)
    (cwhen stop_debounce
       (assign (set_timeout_captive_lock (timeout_stop (timeout_captive_lock s)))) ;;
     s1 ← cget;
     cwhen start_debounce
       (assign (set_timeout_captive_lock
                  (timeout_start now (keep_cable_locked_lock_delay_ms s1)
                     (timeout_captive_lock s1))))).

Definition read_pp_ampacity (s : iec) : option Z :=
  if pp_ampacity s =? 0 then None else Some (pp_ampacity s).

Definition switch_three_phases_while_charging (n : bool) : op () :=
  call (bsp_ac_switch_three_phases_while_charging n).

Definition setup (has_ventilation : bool) : op () :=
  assign (set_has_ventilation has_ventilation).

Definition enable (en : bool) : op () :=
  assign (set_enabled en) ;; call (bsp_enable en).

Definition set_overcurrent_limit (amps : double) : op () :=
  s ← cget;
  cwhen (negb (double_eq amps (last_amps s)))
    (call (bsp_ac_set_overcurrent_limit_A amps) ;; assign (set_last_amps amps)).

Definition connector_force_unlock : op () :=
  s ← cget;
  let cp := last_cp_state s in
  cwhen (keep_cable_locked s)
    (cwhen (0 <? pp_ampacity s) (assign (set_captive_unlock_window true)) ;;
     assign (set_captive_latched false)) ;;
  cwhen (negb (relais_on s))
    (call signal_unlock ;; assign (set_is_locked false)) ;;
  cwhen (cp_is cp B || cp_is cp C)
    (assign (set_force_unlocked true) ;; check_connector_lock).

Definition authorize (a : bool) : op () :=
  s ← cget;
  if negb (use_authorized s) then mret tt
  else assign (set_authorized a) ;; feed_state_machine None.

Definition change_keep_cable_locked (en : bool) : op () :=
  s ← cget;
  if eqb (keep_cable_locked s) en then mret tt
  else
    assign (set_keep_cable_locked en) ;;
    assign (set_captive_unlock_window false) ;;
    assign (set_captive_latched false) ;;
    assign (set_captive_lock_delay_elapsed (0 <? pp_ampacity s)) ;;
    check_connector_lock ;;
    s1 ← cget;
    assign (set_timeout_captive_lock (timeout_stop (timeout_captive_lock s1))).

(** ** The wait threads' expiry callbacks installed by the constructor

    A wait thread signals once, when it finds its timer reached. *)
Definition expire (timer : iec → AsyncTimeout) (set_timer : AsyncTimeout → iec → iec)
    (callback : op ()) : op () :=
  s ← cget;
  cwhen (waiting (timer s) && timeout_reached now (timer s))
    (callback ;;
     s1 ← cget;
     assign (set_timer (timeout_signalled (timer s1)))).

Definition on_timeout_state_c1 : op () :=
  expire timeout_state_c1 set_timeout_state_c1 (feed_state_machine None).
Definition on_timeout_unlock_state_F : op () :=
  expire timeout_unlock_state_F set_timeout_unlock_state_F (feed_state_machine None).
Definition captive_lock_callback : op () :=
  s ← cget;
  cwhen (0 <? pp_ampacity s) (assign (set_captive_lock_delay_elapsed true)) ;;
  check_connector_lock.
Definition on_timeout_captive_lock : op () :=
  expire timeout_captive_lock set_timeout_captive_lock captive_lock_callback.

(** ** The operations as one event alphabet *)
Inductive request :=
| req_bsp_event (e : BspEvent)
| req_allow_power_on (value : bool) (reason : Reason)
| req_set_pwm (value : double)
| req_set_cp_state_X1
| req_set_cp_state_E
| req_set_cp_state_F
| req_set_pp_ampacity (a : Ampacity)
| req_set_max_phases (p : AcPhases)
| req_switch_three_phases (n : bool)
| req_setup (ventilation : bool)
| req_enable (en : bool)
| req_set_overcurrent_limit (amps : double)
| req_connector_force_unlock
| req_set_authorized (a : bool)
| req_set_keep_cable_locked (en : bool)
| req_set_ev_simplified_mode_evse_limit (l : bool)
| req_timeout_state_c1
| req_timeout_unlock_state_F
| req_timeout_captive_lock.

Definition handle (r : request) : op () :=
  match r with
  | req_bsp_event e => on_bsp_event e
  | req_allow_power_on v reason => allow_power_on v reason
  | req_set_pwm v => set_pwm v
  | req_set_cp_state_X1 => set_cp_state_X1
  | req_set_cp_state_E => set_cp_state_E
  | req_set_cp_state_F => set_cp_state_F
  | req_set_pp_ampacity a => update_pp_ampacity a
  | req_set_max_phases p => assign (set_max_phases p)
  | req_switch_three_phases n => switch_three_phases_while_charging n
  | req_setup v => setup v
  | req_enable en => enable en
  | req_set_overcurrent_limit amps => set_overcurrent_limit amps
  | req_connector_force_unlock => connector_force_unlock
  | req_set_authorized a => authorize a
  | req_set_keep_cable_locked en => change_keep_cable_locked en
  | req_set_ev_simplified_mode_evse_limit l => assign (set_ev_simplified_mode_evse_limit l)
  | req_timeout_state_c1 => on_timeout_state_c1
  | req_timeout_unlock_state_F => on_timeout_unlock_state_F
  | req_timeout_captive_lock => on_timeout_captive_lock
  end.
End at_time.

End Iec.
