(* ===== verification/IecFacts.v ===== *)
(** * Properties of the IEC 61851 state machine *)

From S2P Require Import Prelude IecStateMachine.
From Stdlib Require Import Floats.SpecFloat.

Import Iec.

(** An update or a call that the tracked property does not read. *)
Ltac keep_leaf := let H := fresh in intros ? ? H; exact H.

(** ** The lock *)

(** When the connector has to be locked. *)
Definition lock_rules (s : iec) : bool :=
  relais_on s || (should_be_locked s && negb (force_unlocked s) && authorized s)
  || (keep_cable_locked s && captive_latched s).

(** A seated plug latches the captive lock. *)
Definition latch (s : iec) : iec :=
  if keep_cable_locked s && ((0 <? pp_ampacity s) && captive_lock_delay_elapsed s
                             && negb (captive_unlock_window s))
  then set_captive_latched true s else s.

Definition lock_moves (was should : bool) : list output :=
  if should then (if was then [] else [signal_lock]) else (if was then [signal_unlock] else []).

Lemma check_connector_lock_eq s :
  check_connector_lock s =
    (Ret tt, set_is_locked (lock_rules (latch s)) (latch s),
     lock_moves (is_locked s) (lock_rules (latch s))).
Proof.
  destruct s as [? ? ? ? ? ? ? ? ? pp ? ? ? ? ? ? ? ? ? ? ? auth keep window ? delay latched lk
    should force ? relais ?].
  unfold check_connector_lock, latch, lock_rules. crun. destruct keep; cbn.
  - destruct ((0 <? pp) && delay && negb window); cbn;
      destruct (relais || (should && negb force && auth)); cbn;
      destruct latched, lk; done.
  - destruct (relais || (should && negb force && auth)); cbn; by destruct lk.
Qed.

(** What the lock motor has been told last. *)
Definition lock_view (b : bool) (o : output) : bool :=
  match o with signal_lock => true | signal_unlock => false | _ => b end.

Record lock_inv (s : iec) (b : bool) : Prop := {
  li_view : b = is_locked s;
  li_relais : relais_on s = true → is_locked s = true;
  li_latched : captive_latched s = true → keep_cable_locked s = true ∧ is_locked s = true;
}.

Ltac lock_leaf :=
  let H1 := fresh in let H2 := fresh in let H3 := fresh in
  intros ? ? [H1 H2 H3]; constructor; [exact H1 | exact H2 | exact H3].

Lemma lock_moves_view was should : foldl lock_view was (lock_moves was should) = should.
Proof. by destruct was, should. Qed.

Lemma latch_spec s :
  keep_cable_locked (latch s) = keep_cable_locked s ∧ relais_on (latch s) = relais_on s ∧
  (captive_latched (latch s) = true → keep_cable_locked s = true ∨ captive_latched s = true).
Proof.
  unfold latch. destruct (keep_cable_locked s) eqn:Hk; cbn [andb]; [|by auto].
  destruct (_ && _ && _); cbn; auto.
Qed.

(** Re-evaluating the lock establishes the invariant, from any state in which
    the view is right and a latch belongs to the captive mode. *)
Definition lock_pre (s : iec) (b : bool) : Prop :=
  b = is_locked s ∧ (captive_latched s = true → keep_cable_locked s = true).

Lemma lock_inv_pre s b : lock_inv s b → lock_pre s b.
Proof. intros [H1 H2 H3]. split; [exact H1|]. intros H. by destruct (H3 H). Qed.

Lemma check_connector_lock_establishes :
  leads lock_view lock_pre check_connector_lock (λ _, lock_inv).
Proof.
  intros s b [-> Hlatch]. rewrite check_connector_lock_eq. do 3 eexists. split; [done|].
  destruct (latch_spec s) as (Hk & Hr & Hl).
  constructor; cbn [is_locked relais_on captive_latched keep_cable_locked set_is_locked].
  - apply lock_moves_view.
  - intros H. unfold lock_rules. by rewrite H.
  - intros H. assert (keep_cable_locked s = true) as Hks by (destruct (Hl H); auto).
    split; [by rewrite Hk|]. unfold lock_rules. rewrite H, Hk, Hks. apply orb_true_r.
Qed.

#[local] Instance check_connector_lock_inv : Tracks lock_view lock_inv check_connector_lock.
Proof. eapply leads_conseq; [exact check_connector_lock_establishes|apply lock_inv_pre|done]. Qed.

#[local] Instance feed_lock_inv now cp : Tracks lock_view lock_inv (feed_state_machine now cp).
Proof. track lock_leaf. Qed.

(** An update after which the lock is re-evaluated. *)
Lemma tracks_recheck {R} (g : iec → iec) (k : () → op R) :
  (∀ s b, lock_pre s b → lock_pre (g s) b) →
  (∀ a, Tracks lock_view lock_inv (k a)) →
  Tracks lock_view lock_inv (cmodify g ;; check_connector_lock ≫= k).
Proof.
  intros Hg Hk. eapply leads_bind; [|intros ?; eapply leads_bind].
  - apply leads_modify with (Q := λ _, lock_pre). intros s b H. apply Hg, lock_inv_pre, H.
  - exact check_connector_lock_establishes.
  - exact Hk.
Qed.

#[local] Instance process_bsp_event_lock_inv now e :
  Tracks lock_view lock_inv (process_bsp_event now e).
Proof.
  unfold process_bsp_event. destruct e; cbn [from_bsp_event]; try apply _;
    (apply tracks_recheck; [by intros s b [-> ?] | intros []; track lock_leaf]).
Qed.

#[local] Instance force_unlock_lock_inv : Tracks lock_view lock_inv connector_force_unlock.
Proof.
  apply leads_get. intros s0.
  eapply leads_bind with (Q := λ _ s v, lock_inv s v ∧ relais_on s = relais_on s0 ∧
                                        captive_latched s = false).
  { intros s v [-> [H1 H2 H3]]. destruct (keep_cable_locked s0) eqn:Hk; cbn.
    - destruct (0 <? pp_ampacity s0); do 3 eexists; (split; [reflexivity|]); cbn; split_and!;
        try done; constructor; cbn; done || exact H2.
    - do 3 eexists; split; [reflexivity|]. split_and!; [|done|].
      { constructor; [done|done|]. by rewrite Hk. }
      destruct (captive_latched s0); [|done]. destruct (H3 eq_refl). congruence. }
  intros []. eapply leads_bind with (Q := λ _, lock_inv).
  { intros s v ([H1 H2 H3] & Hr & Hl). destruct (relais_on s0); cbn;
      do 3 eexists; (split; [reflexivity|]); cbn; constructor; cbn;
      done || (intros; exfalso; congruence) || assumption. }
  intros []. destruct (_ || _); [|apply tracks_ret].
  eapply tracks_bind; [track lock_leaf|]. intros ?. apply _.
Qed.

#[local] Instance change_keep_lock_inv en :
  Tracks lock_view lock_inv (change_keep_cable_locked en).
Proof.
  apply leads_get. intros s0. destruct (eqb _ en); [by apply leads_ret; intros ? ? [-> ?]|].
  eapply leads_conseq with (Q' := λ _, lock_inv) (P' := λ s v, v = is_locked s);
    [|by intros ? ? [-> []]|done].
  do 2 (eapply leads_bind; [by apply leads_modify with (Q := λ _ s v, v = is_locked s)|intros []]).
  do 2 (eapply leads_bind;
    [by apply leads_modify with (Q := λ _ s v, v = is_locked s ∧ captive_latched s = false);
        (intros ? ? [-> ?] || intros ? ? ->) |intros []]).
  eapply leads_bind with (Q := λ _, lock_inv); [|intros []; track lock_leaf].
  eapply leads_conseq; [exact check_connector_lock_establishes| |done].
  intros s v [-> Hl]. split; [done|]. congruence.
Qed.

#[export] Instance handle_lock_inv now r : Tracks lock_view lock_inv (handle now r).
Proof. destruct r; cbn [handle]; track lock_leaf. Qed.

(** ** The power-on permission *)

(** What the driver has been told last: whether the contactors may close. *)
Definition power_view (b : bool) (o : output) : bool :=
  match o with bsp_allow_power_on v _ => v | _ => b end.

Definition in_CD (cp : RawCPState) : bool := cp_is cp C || cp_is cp D.

Definition power_pre (s : iec) (b : bool) : Prop := b = last_power_on_forwarded s.
Record power_inv (s : iec) (b : bool) : Prop := {
  pi_view : b = last_power_on_forwarded s;
  pi_allowed : b = true → power_on_allowed s = true;
}.
Record cp_inv (s : iec) (b : bool) : Prop := {
  ci_power : power_inv s b;
  ci_state : b = true → in_CD (last_cp_state s) = true;
}.

Ltac power_leaf := let H1 := fresh in let H2 := fresh in
  intros ? ? [H1 H2]; constructor; [exact H1 | exact H2].
Ltac cp_leaf := let H1 := fresh in let H2 := fresh in let H3 := fresh in
  intros ? ? [[H1 H2] H3]; constructor; [constructor; [exact H1 | exact H2] | exact H3].

(** Withdrawing the permission needs no invariant; granting it, the permission. *)
Lemma withdraw_power :
  leads power_view power_pre (call_allow_power_on_bsp false)
    (λ _ s b, power_inv s b ∧ b = false).
Proof.
  intros s b ->. unfold call_allow_power_on_bsp. crun.
  destruct (last_power_on_forwarded s) eqn:Hf; do 3 eexists; (split; [reflexivity|]);
    (split; [constructor; cbn; congruence|done]).
Qed.

Lemma grant_power (c : bool) s0 :
  (c = true → power_on_allowed s0 = true) →
  leads power_view (λ s b, s = s0 ∧ power_inv s b) (cwhen c (call_allow_power_on_bsp true))
    (λ _, power_inv).
Proof.
  intros Ha s b [-> [-> Hp]]. destruct c; [|by do 3 eexists].
  unfold call_allow_power_on_bsp. crun.
  destruct (last_power_on_forwarded s0) eqn:Hf; do 3 eexists; (split; [reflexivity|]);
    constructor; cbn; auto.
Qed.

#[local] Instance withdraw_power_inv : Tracks power_view power_inv (call_allow_power_on_bsp false).
Proof. eapply leads_conseq; [apply withdraw_power|by intros ? ? []|by intros ? ? ? []]. Qed.

#[local] Instance case_C_powered_power : Tracks power_view power_inv case_C_powered.
Proof.
  apply leads_get. intros s0. destruct (pwm_running s0); [|by apply leads_ret; intros ? ? [-> ?]].
  eapply leads_bind; [apply grant_power | intros []; apply tracks_ret].
  by intros [Ha _]%andb_true_iff.
Qed.

#[local] Instance case_C_pwm_edges_power now : Tracks power_view power_inv (case_C_pwm_edges now).
Proof.
  apply leads_get. intros s0. eapply leads_bind; [apply grant_power | intros []; track power_leaf].
  by intros [_ Ha]%andb_true_iff.
Qed.

#[local] Instance switch_power now cp tF : Tracks power_view power_inv (switch_cp_state now cp tF).
Proof. track power_leaf. Qed.

(** The switch leaves [last_cp_state] alone. *)
#[local] Instance switch_cp_unchanged now cp tF cp0 :
  Tracks power_view (λ s b, power_inv s b ∧ last_cp_state s = cp0) (switch_cp_state now cp tF).
Proof.
  intros s b [Hp Hcp].
  assert (Tracks power_view (λ s (_ : bool), last_cp_state s = cp0) (switch_cp_state now cp tF)) as Ht
    by track ltac:(keep_leaf).
  destruct (switch_power now cp tF s b Hp) as (a & s' & t & E & Hp').
  destruct (Ht s b Hcp) as (a' & s'' & t' & E' & Hcp'). 
  rewrite E in E'. injection E' as <- <- <-. eauto 8.
Qed.

Lemma case_F_powers_off now : leads power_view power_inv (case_F now) (λ _ _ b, b = false).
Proof.
  eapply leads_bind with (Q := λ _ _ b, b = false).
  - eapply leads_conseq; [apply withdraw_power|by intros ? ? []|by intros ? ? ? []].
  - intros []. track ltac:(keep_leaf).
Qed.

(** Coming from C or D, every other state withdraws the permission. *)
Lemma switch_leaving_CD now cp tF s b :
  power_inv s b → in_CD cp = false → in_CD (last_cp_state s) = true →
  foldl power_view b (out_of (switch_cp_state now cp tF s)) = false.
Proof.
  intros Hp Hcp Hlast. destruct (decide (cp = F)) as [->|HF].
  { destruct (case_F_powers_off now s b Hp) as (a & s' & t & E & Hb).
    cbn [switch_cp_state]. by rewrite E. }
  clear Hp.
  destruct s as [lockb ? ? ? ? ? ? ? fw ? ? ? car last freq ? ? ? ? ? ? ? ? ? ? ? ? ? ? ? ? ? trig].
  cbn in Hlast. destruct cp; try done; destruct last; try done; crun;
    destruct freq, fw, trig, lockb, car; reflexivity.
Qed.

Lemma switch_never_grants now cp tF :
  in_CD cp = false → Tracks power_view (λ (_ : iec) b, b = false) (switch_cp_state now cp tF).
Proof. intros Hcp. destruct cp; try done; track ltac:(idtac; intros ? ? H; first [exact H | done]). Qed.

Lemma switch_powers_off now cp tF s b :
  cp_inv s b → in_CD cp = false →
  foldl power_view b (out_of (switch_cp_state now cp tF s)) = false.
Proof.
  intros [Hp Hs] Hcp. destruct (in_CD (last_cp_state s)) eqn:Hl; [by apply switch_leaving_CD|].
  destruct b; [by discriminate (Hs eq_refl)|].
  exact (tracks_st power_view _ _ s false (switch_never_grants now cp tF Hcp) eq_refl).
Qed.

(** The switch establishes the invariant for the state it is entered with. *)
Lemma switch_cp_inv now cp tF :
  leads power_view cp_inv (switch_cp_state now cp tF)
    (λ _ s b, power_inv s b ∧ (b = true → in_CD cp = true)).
Proof.
  intros s b Hs. destruct (switch_power now cp tF s b (ci_power _ _ Hs)) as (a & s' & t & E & Hp').
  exists a, s', t. split_and!; [done|done|]. intros Hb.
  destruct (in_CD cp) eqn:Hcp; [done|].
  pose proof (switch_powers_off now cp tF s b Hs Hcp) as H. rewrite E in H. cbn in H. congruence.
Qed.

#[local] Instance feed_cp_inv now cp_opt : Tracks power_view cp_inv (feed_state_machine now cp_opt).
Proof.
  eapply leads_bind with (Q := λ _, cp_inv); [|intros ?; track cp_leaf].
  eapply leads_bind with (Q := λ _, cp_inv); [|intros [[] ]; track cp_leaf].
  apply leads_get. intros s0.
  eapply leads_bind; [eapply leads_conseq; [apply switch_cp_inv|by intros ? ? []|exact (λ _ _ _ H, H)]|].
  intros d. cbn beta.
  eapply leads_bind with (Q := λ _ s b, power_inv s b ∧
      (b = true → in_CD (default (last_cp_state s0) cp_opt) = true)).
  { track ltac:(idtac; intros ? ? [[? ?] ?]; split; [constructor; assumption|assumption]). }
  intros []. apply leads_get. intros s1.
  eapply leads_bind with (Q := λ _, cp_inv).
  { apply leads_modify. intros s b (-> & Hp & Hc). destruct Hp.
    constructor; [by constructor|exact Hc]. }
  intros []. track cp_leaf.
Qed.

(** [allow_power_on]: the flag is set first, and a refusal forwarded at once. *)
#[local] Instance allow_power_on_cp_inv now value reason :
  Tracks power_view cp_inv (allow_power_on now value reason).
Proof.
  destruct value; unfold allow_power_on; cbn [negb cwhen].
  - eapply leads_bind with (Q := λ _, cp_inv); [|intros []; track cp_leaf].
    apply leads_modify. by intros ? ? [[] ?].
  - do 2 (eapply leads_bind with (Q := λ _ s b, power_pre s b ∧
        (b = true → in_CD (last_cp_state s) = true));
      [apply leads_modify; intros s b H; (destruct H as [[H1 H2] H3] || destruct H as [H1 H3]);
       by split|intros []]).
    eapply leads_bind with (Q := λ _, cp_inv); [|intros []; apply feed_cp_inv].
    eapply leads_conseq; [apply withdraw_power|by intros ? ? []|].
    intros _ s b [Hp ->]. by constructor.
Qed.

#[export] Instance handle_cp_inv now r : Tracks power_view cp_inv (handle now r).
Proof. destruct r; cbn [handle]; track cp_leaf. Qed.

(** ** Runs of the machine

    [run now s tr]: requests at non-decreasing instants up to [now], from a newly
    constructed machine, have led to [s] and to the outputs [tr]. *)
Inductive run : Z → iec → list output → Prop :=
| run_new now lock_in_b use_auth keep delay :
    run now (IECStateMachine_new lock_in_b use_auth keep delay) []
| run_request now now' s tr r :
    run now s tr → now ≤ now' →
    run now' (st_of (handle now' r s)) (tr ++ out_of (handle now' r s)).

Lemma run_tracks {V} (f : V → output → V) (I : iec → V → Prop) v0 now s tr :
  (∀ b1 b2 b3 d, I (IECStateMachine_new b1 b2 b3 d) v0) →
  (∀ now r, Tracks f I (handle now r)) →
  run now s tr → I s (foldl f v0 tr).
Proof.
  intros H0 Hh. induction 1 as [|now now' s tr r _ IH _]; [apply H0|].
  rewrite foldl_app. by apply tracks_st.
Qed.

(** ** Sequences of requests *)
Fixpoint handle_all (rs : list (Z * request)) (s : iec) : iec * list output :=
  match rs with
  | [] => (s, [])
  | (now, r) :: rs' =>
      let res := handle_all rs' (st_of (handle now r s)) in
      (res.1, out_of (handle now r s) ++ res.2)
  end.

Lemma handle_all_tracks {V} (f : V → output → V) (I : iec → V → Prop) rs s v :
  (∀ now r, Tracks f I (handle now r)) → I s v →
  I (handle_all rs s).1 (foldl f v (handle_all rs s).2).
Proof.
  intros Hh. revert s v. induction rs as [|[now r] rs IH]; intros s v Hs; [done|].
  cbn. rewrite foldl_app. by apply IH, tracks_st.
Qed.

Lemma handle_all_app rs1 rs2 s :
  handle_all (rs1 ++ rs2) s =
    ((handle_all rs2 (handle_all rs1 s).1).1,
     (handle_all rs1 s).2 ++ (handle_all rs2 (handle_all rs1 s).1).2).
Proof.
  revert s. induction rs1 as [|[now r] rs1 IH]; intros s; cbn; [by destruct (handle_all rs2 s)|].
  rewrite IH. cbn. by rewrite app_assoc.
Qed.

(** A sequence at non-decreasing instants extends a run. *)
Fixpoint in_order (t : Z) (rs : list (Z * request)) : bool :=
  match rs with
  | [] => true
  | (t', _) :: rs' => (t <=? t') && in_order t' rs'
  end.

Definition end_time (t : Z) (rs : list (Z * request)) : Z := foldl (λ _ p, p.1) t rs.

Lemma run_all t s tr rs :
  run t s tr → in_order t rs = true →
  run (end_time t rs) (handle_all rs s).1 (tr ++ (handle_all rs s).2).
Proof.
  revert t s tr. induction rs as [|[t' r] rs IH]; intros t s tr Hrun; cbn.
  - intros _. by rewrite app_nil_r.
  - intros [Ht Hord]%andb_true_iff. rewrite app_assoc. apply IH; [|done].
    apply run_request with t; [done|lia].
Qed.

(** A car is plugged in, authorized and charging. *)
Definition demo_requests : list (Z * request) :=
  [(0, req_enable true); (10, req_bsp_event Bsp_A); (100, req_bsp_event Bsp_B);
   (200, req_set_pwm (S754_finite false 4503599627370496 (-53)));
   (300, req_allow_power_on true FullPowerCharging); (400, req_bsp_event Bsp_C);
   (500, req_bsp_event Bsp_PowerOn)].
Definition demo_new : iec := IECStateMachine_new true false false 500.
Definition demo_state : iec := (handle_all demo_requests demo_new).1.
Definition demo_trace : list output := (handle_all demo_requests demo_new).2.

Lemma run_new_all rs b1 b2 b3 d :
  in_order 0 rs = true →
  run (end_time 0 rs) (handle_all rs (IECStateMachine_new b1 b2 b3 d)).1
    (handle_all rs (IECStateMachine_new b1 b2 b3 d)).2.
Proof. intros H. exact (run_all 0 _ [] rs (run_new 0 b1 b2 b3 d) H). Qed.

Lemma demo_run : run (end_time 0 demo_requests) demo_state demo_trace.
Proof. unfold demo_state, demo_trace, demo_new. apply run_new_all. reflexivity. Qed.

(** ** When the permission is granted *)

(** The reasons of the grants forwarded to the driver. *)
Definition grants (v : list Reason) (o : output) : list Reason :=
  match o with bsp_allow_power_on true r => v ++ [r] | _ => v end.

Definition charging_state (s : iec) (cp : RawCPState) : Prop :=
  cp = C ∨ (cp = D ∧ has_ventilation s = true).

(** During the handling of one measurement that began with permission [a0] for
    reason [r0]. *)
Record grant_inv (a0 : bool) (r0 : Reason) (s : iec) (v : list Reason) : Prop := {
  gi_allowed : power_on_allowed s = true → a0 = true ∧ power_on_reason s = r0;
  gi_granted : v ≠ [] → a0 = true ∧ pwm_running s = true;
  gi_reasons : Forall (eq r0) v;
}.

Ltac grant_leaf := let H1 := fresh in let H2 := fresh in let H3 := fresh in
  intros ? ? [H1 H2 H3]; constructor; [first [exact H1 | done] | exact H2 | exact H3].

Lemma grant_once a0 r0 (c : bool) s0 :
  (c = true → power_on_allowed s0 = true ∧ pwm_running s0 = true) →
  leads grants (λ s v, s = s0 ∧ grant_inv a0 r0 s v) (cwhen c (call_allow_power_on_bsp true))
    (λ _, grant_inv a0 r0).
Proof.
  intros Hc s v [-> [H1 H2 H3]]. destruct c; [|by do 3 eexists].
  destruct (Hc eq_refl) as [Ha Hp]. destruct (H1 Ha) as [-> <-].
  unfold call_allow_power_on_bsp. crun.
  destruct (last_power_on_forwarded s0) eqn:Hf; do 3 eexists; (split; [reflexivity|]);
    (constructor; cbn; [auto|auto|apply Forall_app_2; [exact H3|by repeat constructor]]).
Qed.

#[local] Instance withdraw_grants a0 r0 :
  Tracks grants (grant_inv a0 r0) (call_allow_power_on_bsp false).
Proof.
  intros s v [H1 H2 H3]. unfold call_allow_power_on_bsp. crun.
  destruct (last_power_on_forwarded s); do 3 eexists; (split; [reflexivity|]);
    (constructor; cbn; [done|exact H2|exact H3]).
Qed.

#[local] Instance case_C_grants now a0 r0 : Tracks grants (grant_inv a0 r0) (case_C now).
Proof.
  unfold case_C. eapply tracks_bind; [track grant_leaf|intros []].
  eapply tracks_bind; [track grant_leaf|intros ev1].
  eapply tracks_bind; [|intros timer; eapply tracks_bind; [|intros ev2; apply tracks_ret]].
  - apply leads_get. intros s0. eapply leads_bind; [apply grant_once|intros []; track grant_leaf].
    intros [[? _]%andb_true_iff ?]%andb_true_iff. auto.
  - apply leads_get. intros s0. destruct (pwm_running s0) eqn:Hp; [|by apply leads_ret; intros ? ? [-> ?]].
    eapply leads_bind; [apply grant_once|intros []; apply tracks_ret].
    intros [? _]%andb_true_iff. auto.
Qed.

Lemma no_grant_outside_CD now cp tF :
  in_CD cp = false → Tracks grants (λ (_ : iec) v, v = []) (switch_cp_state now cp tF).
Proof. intros Hcp. destruct cp; try done; track ltac:(keep_leaf). Qed.

Lemma no_grant_D_unventilated now tF :
  leads grants (λ s v, has_ventilation s = false ∧ v = []) (switch_cp_state now D tF)
    (λ _ _ v, v = []).
Proof.
  cbn [switch_cp_state]. unfold with_timer_F.
  eapply leads_bind with (Q := λ _ _ v, v = []); [|intros [? ?]; apply tracks_ret].
  eapply leads_bind with (Q := λ _ s v, has_ventilation s = false ∧ v = []).
  { track ltac:(keep_leaf). }
  intros []. apply leads_get. intros s0. cbn beta.
  destruct (has_ventilation s0) eqn:Hv; cbn [negb].
  { intros s v (-> & Hf & _). congruence. }
  eapply leads_conseq with (P' := λ _ v, v = []) (Q' := λ _ _ v, v = []);
    [track ltac:(keep_leaf)|by intros ? ? (_ & _ & ?)|done].
Qed.

(** The handling of one measurement: [cp] is the state it is handled in. *)
Definition grants_ok (a0 : bool) (r0 : Reason) (cp : RawCPState) (s : iec) (v : list Reason) : Prop :=
  (v ≠ [] → a0 = true ∧ pwm_running s = true ∧ charging_state s cp) ∧ Forall (eq r0) v.

Lemma switch_grants now cp tF a0 r0 :
  leads grants (λ s v, v = [] ∧ power_on_allowed s = a0 ∧ power_on_reason s = r0)
    (switch_cp_state now cp tF) (λ _, grants_ok a0 r0 cp).
Proof.
  intros s v (-> & <- & <-).
  assert (grant_inv (power_on_allowed s) (power_on_reason s) s []) as Hg by by constructor.
  assert (Tracks grants (λ s' (_ : list Reason), has_ventilation s' = has_ventilation s)
            (switch_cp_state now cp tF)) as Hvent
    by track ltac:(keep_leaf).
  destruct (Hvent s [] eq_refl) as (a & s' & t & E & Hv).
  exists a, s', t. split; [done|].
  destruct (in_CD cp) eqn:Hcp.
  - assert (leads grants (grant_inv (power_on_allowed s) (power_on_reason s))
      (switch_cp_state now cp tF) (λ _, grant_inv (power_on_allowed s) (power_on_reason s))) as Ht
      by (destruct cp; try done; track grant_leaf).
    destruct (Ht s [] Hg) as (? & ? & ? & E' & [_ H2 H3]). rewrite E in E'. injection E' as <- <- <-.
    split; [|done]. intros Hne. destruct (H2 Hne). split_and!; [done|done|].
    destruct cp; try done; [by left|right]. split; [done|]. rewrite Hv.
    destruct (has_ventilation s) eqn:Hvs; [done|]. destruct Hne.
    destruct (no_grant_D_unventilated now tF s [] (conj Hvs eq_refl)) as (? & ? & ? & E' & Hnil).
    rewrite E in E'. by injection E' as <- <- <-.
  - destruct (no_grant_outside_CD now cp tF Hcp s [] eq_refl) as (? & ? & ? & E' & H).
    rewrite E in E'. injection E' as <- <- <-. by rewrite H.
Qed.

(** What a request leaves: grants only for [a0], [r0], in the state left. *)
Definition granted_ok (a0 : bool) (r0 : Reason) (s : iec) (v : list Reason) : Prop :=
  grants_ok a0 r0 (last_cp_state s) s v.

Lemma feed_grants now cp_opt a0 r0 :
  leads grants (λ s v, v = [] ∧ power_on_allowed s = a0 ∧ power_on_reason s = r0)
    (feed_state_machine now cp_opt) (λ _, granted_ok a0 r0).
Proof.
  eapply leads_bind with (Q := λ _, granted_ok a0 r0);
    [|intros ?; track ltac:(keep_leaf)].
  eapply leads_bind with (Q := λ _, granted_ok a0 r0);
    [|intros [[] ]; track ltac:(keep_leaf)].
  apply leads_get. intros s0.
  eapply leads_bind;
    [eapply leads_conseq; [apply (switch_grants _ _ _ a0 r0)|by intros ? ? []|exact (λ _ _ _ H, H)]|].
  intros d. cbn beta.
  eapply leads_bind with (Q := λ _, grants_ok a0 r0 (default (last_cp_state s0) cp_opt)).
  { track ltac:(keep_leaf). }
  intros []. apply leads_get. intros s1.
  eapply leads_bind with (Q := λ _, granted_ok a0 r0).
  { apply leads_modify. intros s b (-> & H). exact H. }
  intros []. track ltac:(keep_leaf).
Qed.

(** The permission and reason a request can be granted for. *)
Definition permission (r : request) (s : iec) : bool * Reason :=
  match r with
  | req_allow_power_on value reason => (value, reason)
  | _ => (power_on_allowed s, power_on_reason s)
  end.

Definition ungranted (a0 : bool) (r0 : Reason) (s : iec) (v : list Reason) : Prop :=
  v = [] ∧ power_on_allowed s = a0 ∧ power_on_reason s = r0.

Lemma granted_ok_nil a0 r0 s : granted_ok a0 r0 s [].
Proof. split; [done|constructor]. Qed.

(** A request that ends by feeding the machine, or does not feed it. *)
Lemma then_feed_grants {R} now cp a0 r0 (m : op R) :
  Tracks grants (ungranted a0 r0) m →
  leads grants (ungranted a0 r0) (m ;; feed_state_machine now cp) (λ _, granted_ok a0 r0).
Proof. intros Hm. eapply leads_bind; [exact Hm|]. intros ?. apply feed_grants. Qed.

Lemma no_feed_grants {R} a0 r0 (m : op R) :
  Tracks grants (ungranted a0 r0) m →
  leads grants (ungranted a0 r0) m (λ _, granted_ok a0 r0).
Proof.
  intros Hm. eapply leads_conseq; [exact Hm|done|]. intros _ s v (-> & _). apply granted_ok_nil.
Qed.

Lemma expire_feed_grants now timer set_timer a0 r0 :
  (∀ t s v, granted_ok a0 r0 s v → granted_ok a0 r0 (set_timer t s) v) →
  leads grants (ungranted a0 r0) (expire now timer set_timer (feed_state_machine now None))
    (λ _, granted_ok a0 r0).
Proof.
  intros Hset. apply leads_get. intros s0.
  eapply leads_conseq with (P' := ungranted a0 r0) (Q' := λ _, granted_ok a0 r0);
    [|by intros ? ? []|done].
  destruct (_ && _); [|by apply no_feed_grants, tracks_ret].
  eapply leads_bind; [apply feed_grants|]. intros []. track ltac:(intros ? ?; apply Hset).
Qed.

Lemma allow_power_on_grants now value reason a0 r0 :
  leads grants (ungranted a0 r0) (allow_power_on now value reason)
    (λ _, granted_ok value reason).
Proof.
  unfold allow_power_on. destruct value; cbn [negb cwhen].
  - eapply leads_bind with (Q := λ _, ungranted true r0).
    { apply leads_modify. by intros s v (-> & _ & <-). }
    intros []. eapply leads_bind with (Q := λ _, ungranted true reason).
    { apply leads_modify. by intros s v (-> & <- & _). }
    intros []. apply then_feed_grants, tracks_ret.
  - do 2 (eapply leads_bind with (Q := λ _ _ v, v = []);
      [apply leads_modify; intros s v Hs; first [exact Hs | exact (proj1 Hs)]|intros []]).
    eapply leads_conseq with (Q' := λ _, granted_ok false ReasonPowerOff);
      [|exact (λ _ _ H, H)|].
    2: { intros _ s v [H _]. destruct v; [apply granted_ok_nil|].
         by destruct H as [? _]. }
    eapply leads_bind with (Q := λ _, ungranted false ReasonPowerOff); [|intros []; apply feed_grants].
    intros s v ->. unfold call_allow_power_on_bsp. crun.
    destruct (last_power_on_forwarded s); by do 3 eexists.
Qed.

(** Follow a request up to where it feeds the machine. *)
Ltac to_feed a0 r0 :=
  cbv beta zeta;
  lazymatch goal with
  | |- leads _ _ (feed_state_machine _ _) _ => apply feed_grants
  | |- leads _ _ (expire _ _ _ (feed_state_machine _ _)) _ =>
      apply expire_feed_grants; intros ? ? ? H; exact H
  | |- leads _ _ (match ?x with _ => _ end) _ => destruct x; to_feed a0 r0
  | |- leads _ _ (cwhen ?b _) _ => destruct b; cbn [cwhen]; to_feed a0 r0
  | |- leads _ _ (_ ≫= _) _ =>
      first [ apply no_feed_grants; solve [track ltac:(keep_leaf)]
            | eapply leads_bind with (Q := λ _, ungranted a0 r0);
              [solve [track ltac:(keep_leaf)] | intros ?; to_feed a0 r0] ]
  | |- leads _ _ ?m _ =>
      first [ apply no_feed_grants; solve [track ltac:(keep_leaf)]
            | let h := head_of m in unfold h; to_feed a0 r0 ]
  end.

Lemma handle_grants now r s :
  granted_ok (permission r s).1 (permission r s).2 (st_of (handle now r s))
    (foldl grants [] (out_of (handle now r s))).
Proof.
  assert (leads grants (ungranted (power_on_allowed s) (power_on_reason s)) (handle now r)
    (λ _, granted_ok (permission r s).1 (permission r s).2)) as H.
  { destruct r; cbn [handle permission fst snd]; try apply allow_power_on_grants;
      to_feed (power_on_allowed s) (power_on_reason s). }
  by destruct (H s []) as (a & s' & t & -> & Hg).
Qed.

Lemma grants_in reason v tr :
  bsp_allow_power_on true reason ∈ tr → reason ∈ foldl grants v tr.
Proof.
  assert (∀ tr v r, r ∈ v → r ∈ foldl grants v tr) as Hmono.
  { clear. induction tr as [|o tr IH]; intros v r Hr; [done|]. apply IH.
    destruct o as [| | | |[]| | | | | | | |]; cbn; try done. set_solver. }
  revert v. induction tr as [|o tr IH]; intros v; [set_solver|].
  intros [<-|H]%elem_of_cons; [|by apply IH].
  apply (Hmono tr (v ++ [reason])). set_solver.
Qed.

(** ** Unlocking *)

(** Whether the lock was told to open. *)
Definition unlocks (v : bool) (o : output) : bool :=
  match o with signal_unlock => true | _ => v end.

Definition open_inv (s : iec) (v : bool) : Prop := v = true → relais_on s = false.
Definition held_inv (s : iec) (v : bool) : Prop :=
  v = false ∧ captive_latched s = true ∧ keep_cable_locked s = true.

Lemma lock_moves_unlocks v was should :
  foldl unlocks v (lock_moves was should) = true → v = true ∨ should = false.
Proof. destruct was, should; cbn; auto. Qed.

#[local] Instance check_open_inv : Tracks unlocks open_inv check_connector_lock.
Proof.
  intros s v Hs. rewrite check_connector_lock_eq. do 3 eexists. split; [done|].
  intros [H|H]%lock_moves_unlocks; cbn; destruct (latch_spec s) as (_ & -> & _); [by apply Hs|].
  unfold lock_rules in H. destruct (latch_spec s) as (_ & Hr & _). rewrite Hr in H.
  by destruct (relais_on s).
Qed.

#[local] Instance check_held_inv : Tracks unlocks held_inv check_connector_lock.
Proof.
  intros s v (-> & Hl & Hk). rewrite check_connector_lock_eq. do 3 eexists. split; [done|].
  assert (captive_latched (latch s) = true ∧ keep_cable_locked (latch s) = true) as [Hl' Hk'].
  { unfold latch. by destruct (_ && _). }
  assert (lock_rules (latch s) = true) as Hr.
  { unfold lock_rules. rewrite Hl', Hk'. apply orb_true_r. }
  rewrite Hr. split_and!; [by destruct (is_locked s)|exact Hl'|exact Hk'].
Qed.

Lemma unlocks_in v tr : signal_unlock ∈ tr → foldl unlocks v tr = true.
Proof.
  assert (∀ tr, foldl unlocks true tr = true) as Htrue.
  { clear. induction tr as [|[] tr IH]; cbn; done || exact IH. }
  revert v. induction tr as [|o tr IH]; intros v; [set_solver|].
  intros [<-|H]%elem_of_cons; [apply Htrue|by apply IH].
Qed.

(** From a state in which nothing was unlocked yet. *)
Lemma from_start {R} (m : op R) :
  Tracks unlocks open_inv m → leads unlocks (λ _ v, v = false) m (λ _, open_inv).
Proof. intros Hm. eapply leads_conseq; [exact Hm|by intros ? ? -> [=]|done]. Qed.

(** A board event starts with the relay state it reports. *)
Lemma bsp_event_open now e :
  leads unlocks (λ _ v, v = false) (process_bsp_event now e) (λ _, open_inv).
Proof.
  unfold process_bsp_event. destruct e; cbn [from_bsp_event];
    try (apply from_start; track ltac:(keep_leaf)).
  all: eapply leads_bind; [by apply leads_modify with (Q := λ _ _ v, v = false)|intros []].
  all: apply from_start; track ltac:(keep_leaf).
Qed.

Lemma force_unlock_open :
  leads unlocks (λ _ v, v = false) connector_force_unlock (λ _, open_inv).
Proof.
  apply leads_get. intros s0. eapply leads_bind with
    (Q := λ _ s v, v = false ∧ relais_on s = relais_on s0).
  { eapply leads_conseq with (P' := λ s v, v = false ∧ relais_on s = relais_on s0)
      (Q' := λ _ s v, v = false ∧ relais_on s = relais_on s0);
      [track ltac:(keep_leaf)|by intros ? ? [-> ->]|done]. }
  intros []. eapply leads_bind with (Q := λ _, open_inv); [|intros []; track ltac:(keep_leaf)].
  destruct (relais_on s0) eqn:Hr; cbn [negb cwhen].
  - apply leads_ret. by intros s v [-> _] [=].
  - intros s v [-> Hs]. do 3 eexists. split; [reflexivity|]. by intros _.
Qed.

Lemma handle_open now r : leads unlocks (λ _ v, v = false) (handle now r) (λ _, open_inv).
Proof.
  destruct r; cbn [handle];
    first [ apply force_unlock_open
          | unfold on_bsp_event; eapply leads_bind with (Q := λ _ _ v, v = false);
            [apply tracks_get|intros s0; destruct (enabled s0); [apply bsp_event_open|]];
            by apply leads_ret; intros ? ? -> [=]
          | apply from_start; track ltac:(keep_leaf) ].
Qed.

Lemma handle_held now r :
  r ≠ req_connector_force_unlock → (∀ en, r ≠ req_set_keep_cable_locked en) →
  Tracks unlocks held_inv (handle now r).
Proof. intros H1 H2. destruct r; try done; [..|by destruct (H2 en)|idtac|idtac|idtac|idtac]; 
  cbn [handle]; track ltac:(keep_leaf). Qed.

(** ** Theorems *)

(** C1: whatever the board reports and the charger requests, the contactors are
    only ever permitted to close in CP state C, or in state D when ventilation is
    available, with the PWM running, under a permission that was given before the
    request (or with it) and for the reason that was given with it. *)
Theorem grant_only_when_charging now r s reason :
  bsp_allow_power_on true reason ∈ out_of (handle now r s) →
  charging_state (st_of (handle now r s)) (last_cp_state (st_of (handle now r s))) ∧
  pwm_running (st_of (handle now r s)) = true ∧
  permission r s = (true, reason).
Proof.
  intros Hin%(grants_in reason []). destruct (handle_grants now r s) as [Hg Hr].
  destruct Hg as (Ha & Hp & Hcp). { intros Hnil. rewrite Hnil in Hin. set_solver. }
  split_and!; [done|done|]. rewrite Forall_forall in Hr.
  rewrite (surjective_pairing (permission r s)), Ha. by rewrite <- (Hr _ Hin).
Qed.

(** C2: in every run, the permission the driver was told last is the one the
    machine remembers, it stands only while the charger's permission stands, and
    only in CP states C and D: leaving them has withdrawn it. *)
Theorem contactors_only_in_charging_states now s tr :
  run now s tr →
  foldl power_view false tr = last_power_on_forwarded s ∧
  (foldl power_view false tr = true →
     power_on_allowed s = true ∧ (last_cp_state s = C ∨ last_cp_state s = D)).
Proof.
  intros H. destruct (run_tracks power_view cp_inv false _ _ _ ltac:(done) _ H) as [[Hv Ha] Hc].
  split; [done|]. intros Ht. split; [auto|]. specialize (Hc Ht).
  destruct (last_cp_state s); auto; discriminate.
Qed.

(** C10: in every run, the lock has been moved to where the machine believes it
    is; it is locked whenever the driver has confirmed the contactors closed, and
    a captive cable that was latched stays locked. *)
Theorem lock_protects_closed_contactors now s tr :
  run now s tr →
  foldl lock_view false tr = is_locked s ∧
  (relais_on s = true → is_locked s = true) ∧
  (captive_latched s = true → keep_cable_locked s = true ∧ is_locked s = true).
Proof.
  intros H. by destruct (run_tracks lock_view lock_inv false _ _ _ ltac:(done) _ H) as [Hv Hr Hl].
Qed.

(** The lock is only told to open while the contactors are open, and a
    latched captive cable is only released by a force unlock or by leaving the
    captive mode. *)
Lemma unlock_only_when_safe now now' s tr r :
  run now s tr →
  signal_unlock ∈ out_of (handle now' r s) →
  relais_on (st_of (handle now' r s)) = false ∧
  (captive_latched s = true →
     r = req_connector_force_unlock ∨ ∃ en, r = req_set_keep_cable_locked en).
Proof.
  intros Hrun Hin. pose proof (unlocks_in false _ Hin) as Hu.
  destruct (handle_open now' r s false eq_refl) as (a & s' & t & E & Ho).
  rewrite E in *. split; [exact (Ho Hu)|]. intros Hl.
  destruct (run_tracks lock_view lock_inv false _ _ _ ltac:(done) _ Hrun) as [_ _ Hlk].
  destruct (Hlk Hl) as [Hk _].
  assert (r = req_connector_force_unlock ∨ (∃ en, r = req_set_keep_cable_locked en) ∨
    (r ≠ req_connector_force_unlock ∧ ∀ en, r ≠ req_set_keep_cable_locked en)) as Hr
    by (destruct r; naive_solver).
  destruct Hr as [->|[[en ->]|[Hr1 Hr2]]]; [by left|by right; exists en|exfalso].
  destruct (handle_held now' r Hr1 Hr2 s false) as (? & ? & ? & E' & Hv & _); [done|].
  rewrite E in E'. injection E' as <- <- <-. cbn in Hu. congruence.
Qed.

(** ** The theorems at concrete inputs *)
Definition demo_before_C : iec := (handle_all (take 5 demo_requests) demo_new).1.

Lemma grant_only_when_charging_witness :
  charging_state (st_of (handle 400 (req_bsp_event Bsp_C) demo_before_C)) C ∧
  pwm_running (st_of (handle 400 (req_bsp_event Bsp_C) demo_before_C)) = true ∧
  permission (req_bsp_event Bsp_C) demo_before_C = (true, FullPowerCharging).
Proof.
  apply (grant_only_when_charging 400 (req_bsp_event Bsp_C) demo_before_C FullPowerCharging).
  vm_compute. apply list_elem_of_In. simpl. tauto.
Defined.

Lemma contactors_only_in_charging_states_witness :
  foldl power_view false demo_trace = true ∧
  power_on_allowed demo_state = true ∧ (last_cp_state demo_state = C ∨ last_cp_state demo_state = D).
Proof.
  assert (foldl power_view false demo_trace = true) as H by (vm_compute; reflexivity).
  split; [exact H|]. exact (proj2 (contactors_only_in_charging_states _ _ _ demo_run) H).
Defined.

Lemma lock_protects_closed_contactors_witness :
  relais_on demo_state = true ∧ foldl lock_view false demo_trace = is_locked demo_state ∧
  is_locked demo_state = true.
Proof.
  assert (relais_on demo_state = true) as H by (vm_compute; reflexivity).
  destruct (lock_protects_closed_contactors _ _ _ demo_run) as (Hv & Hr & _). auto.
Defined.

(** The car stops, the contactors open, and the car is unplugged. *)
Definition demo_stop : list (Z * request) :=
  [(600, req_bsp_event Bsp_B); (700, req_bsp_event Bsp_PowerOff)].

