(* ===== verification/IecTimers.v ===== *)
(** * The IEC state machine: the C1 timeout, the published states, state F

    Continues [IecFacts] with the properties that involve the timers, the order of
    the published signals and the request for CP state F. *)

From S2P Require Import Prelude IecStateMachine IecFacts.
From Stdlib Require Import Floats.SpecFloat.

Import Iec.

(** ** The C1 timeout

    The PWM is off and the car has stayed in state C, with the C1 timer [tm];
    when [off] holds, the power has been withdrawn. *)
Record c1_phase (tm : AsyncTimeout) (off : bool) (s : iec) (v : ()) : Prop := {
  c1_state : last_cp_state s = C;
  c1_pwm : pwm_running s = false;
  c1_last_pwm : last_pwm_running s = false;
  c1_timer : timeout_state_c1 s = tm;
  c1_off : off = true → last_power_on_forwarded s = false;
}.

(** The outputs do not matter here. *)
Definition blind (v : ()) (_ : output) : () := v.

Ltac c1_leaf := let H1 := fresh in let H2 := fresh in let H3 := fresh in let H4 := fresh in
  let H5 := fresh in intros ? ? [H1 H2 H3 H4 H5]; constructor;
  [exact H1 | first [exact H2 | reflexivity] | exact H3 | exact H4 | exact H5].

Lemma c1_weaken tm off s v : c1_phase tm true s v → c1_phase tm off s v.
Proof. intros [H1 H2 H3 H4 H5]. constructor; auto. Qed.

Lemma withdraw_c1 tm off :
  leads blind (c1_phase tm off) (call_allow_power_on_bsp false) (λ _, c1_phase tm true).
Proof.
  intros s v [H1 H2 H3 H4 H5]. unfold call_allow_power_on_bsp. crun.
  destruct (last_power_on_forwarded s) eqn:Hf; do 3 eexists; (split; [reflexivity|]);
    (constructor; cbn; auto).
Qed.

#[local] Instance withdraw_c1_phase tm off :
  Tracks blind (c1_phase tm off) (call_allow_power_on_bsp false).
Proof. eapply leads_conseq; [apply withdraw_c1|done|]. intros ?. apply c1_weaken. Qed.

#[local] Instance check_c1 tm off : Tracks blind (c1_phase tm off) check_connector_lock.
Proof. track c1_leaf. Qed.

(** In state C1 the switch grants no power and leaves the timer alone; a reached
    timer withdraws the power. *)
Lemma case_C_in_c1 now tm off :
  leads blind (c1_phase tm off) (case_C now)
    (λ d s v, c1_phase tm (off || timeout_reached now tm) s v ∧ d.2 = tc_do_nothing).
Proof.
  unfold case_C.
  do 2 (eapply leads_bind with (Q := λ _, c1_phase tm off); [track c1_leaf|intros ?]).
  eapply leads_bind with
    (Q := λ tc s v, c1_phase tm (off || timeout_reached now tm) s v ∧ tc = tc_do_nothing).
  - apply leads_get. intros s0.
    apply (leads_assume _ (pwm_running s0 = false ∧ last_pwm_running s0 = false ∧
                           timeout_state_c1 s0 = tm)).
    { by intros s v [-> []]. }
    intros (-> & -> & ->). cbn [negb andb cwhen]. apply leads_forget.
    eapply leads_bind with (Q := λ _, c1_phase tm off); [apply tracks_ret|intros ?].
    eapply leads_bind with (Q := λ _, c1_phase tm (off || timeout_reached now tm)).
    { destruct (timeout_reached now tm); [rewrite orb_true_r; apply withdraw_c1|].
      rewrite orb_false_r. apply tracks_ret. }
    intros ?. by apply leads_ret.
  - intros tc s v [Hs ->]. unfold case_C_powered. crun. rewrite (c1_pwm _ _ _ _ Hs). cbn.
    do 3 eexists. split; [reflexivity|done].
Qed.

Lemma feed_in_c1 now tm off cp_opt :
  default C cp_opt = C →
  leads blind (c1_phase tm off) (feed_state_machine now cp_opt)
    (λ _, c1_phase tm (off || timeout_reached now tm)).
Proof.
  intros Hcp. set (off' := off || timeout_reached now tm).
  eapply leads_bind with (Q := λ _, c1_phase tm off'); [|intros ?; track c1_leaf].
  eapply leads_bind with (Q := λ d s v, c1_phase tm off' s v ∧ d.1.2 = tc_do_nothing).
  2: { intros [[ev tc] tF]. cbn [fst snd].
       intros s v [[H1 H2 H3 H4 H5] ->]. do 3 eexists. split; [reflexivity|]. by constructor. }
  apply leads_get. intros s0. apply (leads_assume _ (default (last_cp_state s0) cp_opt = C)).
  { intros s v [-> [H1 _ _ _ _]]. rewrite H1. exact Hcp. }
  intros ->. apply leads_forget. cbn [switch_cp_state].
  eapply leads_bind with (Q := λ d s v, c1_phase tm off' s v ∧ d.1.2 = tc_do_nothing).
  { eapply leads_bind; [apply case_C_in_c1|]. intros [ev tc]. by apply leads_ret. }
  intros d. eapply leads_bind with (Q := λ _ s v, c1_phase tm off' s v ∧ d.1.2 = tc_do_nothing).
  { intros s v [Hs Hd]. destruct (check_c1 tm off' s v Hs) as (a & s' & t & E & H). eauto 8. }
  intros ?. intros s v [[H1 H2 H3 H4 H5] Hd]. do 3 eexists. split; [reflexivity|].
  split; [by constructor|done].
Qed.

Lemma feed_tracks_c1 now tm off cp_opt :
  default C cp_opt = C → Tracks blind (c1_phase tm off) (feed_state_machine now cp_opt).
Proof.
  intros Hcp. eapply leads_conseq; [by apply feed_in_c1|done|].
  intros _ s v [H1 H2 H3 H4 H5]. constructor; auto. intros ->. auto.
Qed.
#[local] Instance feed_None_c1 now tm off :
  Tracks blind (c1_phase tm off) (feed_state_machine now None).
Proof. by apply feed_tracks_c1. Qed.

(** Requests that leave the car in C and the PWM off. *)
Definition stays_in_c1 (r : request) : bool :=
  match r with
  | req_bsp_event e =>
      match e with Bsp_C | Bsp_PowerOn | Bsp_PowerOff => true | _ => false end
  | req_set_pwm v => double_le dbl_1 v || double_le v dbl_0
  | _ => true
  end.

Lemma handle_in_c1 now tm off r :
  stays_in_c1 r = true → r ≠ req_timeout_state_c1 →
  Tracks blind (c1_phase tm off) (handle now r).
Proof.
  intros Hr Hne. destruct r; try done; cbn [handle stays_in_c1] in *; try (track c1_leaf).
  - pose proof (feed_tracks_c1 now tm off (Some C) eq_refl).
    destruct e; try done; unfold on_bsp_event, process_bsp_event; cbn [from_bsp_event]; 
      track c1_leaf.
  - unfold set_pwm. destruct (double_le dbl_1 value); [track c1_leaf|].
    destruct (double_le value dbl_0); [track c1_leaf|done].
Qed.

(** The timer as it is started at [t0], and after its thread has signalled. *)
Definition c1_started (t0 : Z) : AsyncTimeout :=
  timeout_start t0 power_off_under_load_in_c1_timeout timeout_new.

Inductive c1_pending (t0 : Z) (s : iec) : Prop :=
| c1_waiting : c1_phase (c1_started t0) false s tt → c1_pending t0 s
| c1_signalled : c1_phase (timeout_signalled (c1_started t0)) true s tt → c1_pending t0 s.

(** The wait thread signals once, if it finds the timer reached. *)
Lemma timeout_in_c1 now tm off :
  leads blind (c1_phase tm off) (on_timeout_state_c1 now)
    (λ _, if waiting tm && timeout_reached now tm then c1_phase (timeout_signalled tm) true
          else c1_phase tm off).
Proof.
  apply leads_get. intros s0. apply (leads_assume _ (timeout_state_c1 s0 = tm)).
  { by intros s v [-> []]. }
  intros ->. apply leads_forget.
  destruct (waiting tm && timeout_reached now tm) eqn:Hw; [|apply tracks_ret].
  apply andb_true_iff in Hw as [_ Hr].
  eapply leads_bind; [apply feed_in_c1; done|]. intros []. rewrite Hr, orb_true_r.
  intros s v [H1 H2 H3 H4 H5]. do 3 eexists. split; [reflexivity|].
  constructor; cbn; auto. by rewrite H4.
Qed.

Lemma pending_step now t0 r s :
  c1_pending t0 s → stays_in_c1 r = true → c1_pending t0 (st_of (handle now r s)).
Proof.
  intros Hp Hr. assert (r = req_timeout_state_c1 ∨ r ≠ req_timeout_state_c1) as [->|Hne]
    by (destruct r; auto).
  - destruct Hp as [H|H];
      destruct (timeout_in_c1 now _ _ s tt H) as ([] & s' & t & E & H'); cbn [handle]; rewrite E.
    + cbn [st_of fst snd]. destruct (_ && _); [by right; destruct (foldl _ _ _)|left].
      by destruct (foldl _ _ _).
    + right. by destruct (foldl _ _ _).
  - destruct Hp as [H|H];
      destruct (handle_in_c1 now _ _ r Hr Hne s tt H) as ([] & s' & t & -> & H'); [left|right];
      by destruct (foldl _ _ _).
Qed.

(** After the deadline the wait thread has withdrawn the power. *)
Lemma pending_expires now t0 s :
  c1_pending t0 s → t0 + power_off_under_load_in_c1_timeout < now →
  last_power_on_forwarded (st_of (handle now req_timeout_state_c1 s)) = false.
Proof.
  intros Hp Hnow. assert (timeout_reached now (c1_started t0) = true) as Hr.
  { unfold timeout_reached. cbn. lia. }
  destruct Hp as [H|H];
    destruct (timeout_in_c1 now _ _ s tt H) as ([] & s' & t & E & H'); cbn [handle]; rewrite E.
  - rewrite Hr in H'. by apply (c1_off _ _ _ _ H').
  - by apply (c1_off _ _ _ _ H').
Qed.

(** Switching the PWM off in state C starts the timer. *)
Definition c1_edge (s : iec) (_ : ()) : Prop :=
  last_cp_state s = C ∧ pwm_running s = false ∧ last_pwm_running s = true.

Lemma case_C_edge now :
  leads blind c1_edge (case_C now) (λ d s v, c1_edge s v ∧ d.2 = tc_start).
Proof.
  unfold case_C.
  do 2 (eapply leads_bind with (Q := λ _, c1_edge); [track ltac:(keep_leaf)|intros ?]).
  eapply leads_bind with (Q := λ tc s v, c1_edge s v ∧ tc = tc_start).
  - apply leads_get. intros s0.
    apply (leads_assume _ (pwm_running s0 = false ∧ last_pwm_running s0 = true)).
    { by intros s v [-> (? & ? & ?)]. }
    intros [-> ->]. cbn [negb andb cwhen]. apply leads_forget.
    do 2 (eapply leads_bind with (Q := λ _, c1_edge); [track ltac:(keep_leaf)|intros ?]).
    by apply leads_ret.
  - intros tc. eapply leads_bind with (Q := λ _ s v, c1_edge s v ∧ tc = tc_start);
      [track ltac:(keep_leaf)|]. intros ev. by apply leads_ret; intros s v [? ->].
Qed.

Lemma feed_edge t0 :
  leads blind c1_edge (feed_state_machine t0 None) (λ _, c1_phase (c1_started t0) false).
Proof.
  eapply leads_bind with (Q := λ _, c1_phase (c1_started t0) false); [|intros ?; track c1_leaf].
  eapply leads_bind with (Q := λ d s _, last_cp_state s = C ∧ pwm_running s = false ∧
    last_pwm_running s = false ∧ d.1.2 = tc_start).
  2: { intros [[ev tc] tF]. cbn [fst snd]. intros s v (H1 & H2 & H3 & ->). do 3 eexists.
       split; [reflexivity|]. by constructor. }
  apply leads_get. intros s0. apply (leads_assume _ (last_cp_state s0 = C)).
  { by intros s v [-> (? & ? & ?)]. }
  intros Hcp. cbn [default]. rewrite Hcp. apply leads_forget. cbn [switch_cp_state].
  eapply leads_bind with (Q := λ d s v, c1_edge s v ∧ d.1.2 = tc_start).
  { eapply leads_bind; [apply case_C_edge|]. intros [ev tc]. by apply leads_ret. }
  intros d. eapply leads_bind with (Q := λ _ s v, c1_edge s v ∧ d.1.2 = tc_start);
    [track ltac:(keep_leaf)|].
  intros ? s v [(H1 & H2 & H3) Hd]. by do 3 eexists.
Qed.

Lemma X1_starts_timer t0 s :
  last_cp_state s = C → last_pwm_running s = true →
  c1_pending t0 (st_of (set_cp_state_X1 t0 s)).
Proof.
  intros Hcp Hpwm.
  assert (leads blind (λ s _, last_cp_state s = C ∧ last_pwm_running s = true) (set_cp_state_X1 t0)
    (λ _, c1_phase (c1_started t0) false)) as H.
  { eapply leads_bind with (Q := λ _, c1_edge).
    { apply leads_modify. by intros ? ? [? ?]. }
    intros ?. do 3 (eapply leads_bind with (Q := λ _, c1_edge); [track ltac:(keep_leaf)|intros ?]).
    apply feed_edge. }
  destruct (H s tt (conj Hcp Hpwm)) as (a & s' & t & -> & H'). left. cbn.
  by destruct (foldl _ _ _).
Qed.

Lemma pending_all t0 rs s :
  c1_pending t0 s → Forall (λ p, stays_in_c1 p.2 = true) rs → c1_pending t0 (handle_all rs s).1.
Proof.
  intros Hs Hrs. revert s Hs. induction Hrs as [|[now r] rs Hr _ IH]; intros s Hs; [done|].
  cbn. by apply IH, pending_step.
Qed.

(** C11: when the PWM is switched off while the car stays in state C, the power is
    withdrawn within the 6 s timeout, whatever else is requested meanwhile (short
    of the car leaving state C or the PWM being switched on again): after the
    timer's thread has run past the deadline, the last thing the driver was told
    is that the contactors may not close. *)
Theorem c1_timeout_powers_off now0 s tr t0 rs now :
  run now0 s tr →
  last_cp_state s = C → last_pwm_running s = true →
  Forall (λ p, stays_in_c1 p.2 = true) rs →
  t0 + power_off_under_load_in_c1_timeout < now →
  foldl power_view false
    (tr ++ (handle_all ((t0, req_set_cp_state_X1) :: rs ++ [(now, req_timeout_state_c1)]) s).2)
  = false.
Proof.
  intros Hrun Hcp Hpwm Hrs Hnow. set (rs' := _ :: _).
  pose proof (run_tracks power_view cp_inv false _ _ _ ltac:(done) _ Hrun) as Hs.
  pose proof (handle_all_tracks power_view cp_inv rs' s _ _ Hs) as [[Hv _] _].
  rewrite foldl_app, Hv. subst rs'. cbn [handle_all fst]. rewrite handle_all_app. cbn [fst handle_all].
  apply pending_expires with t0; [|done]. apply pending_all; [|done].
  by apply X1_starts_timer.
Qed.

(** ** Published CP states *)
Definition raw_states (v : list RawCPState) (o : output) : list RawCPState :=
  match o with signal_raw_cp_state_changed cp => v ++ [cp] | _ => v end.

(** The published states, oldest first, and the machine's record of the last. *)
Definition raw_inv (s : iec) (v : list RawCPState) : Prop :=
  last v = Some (signalled_raw_cp_state s) ∧
  ∀ i x y, v !! i = Some x → v !! S i = Some y → x ≠ y.

Lemma raw_inv_snoc s v cp :
  raw_inv s v → cp_is cp (signalled_raw_cp_state s) = false →
  raw_inv (set_signalled_raw_cp_state cp s) (v ++ [cp]).
Proof.
  intros [Hl Hv] Hne. split; [by rewrite last_snoc|]. intros i x y Hx Hy.
  apply bool_decide_eq_false in Hne.
  apply lookup_app_Some in Hy as [Hy|[Hlen Hy]].
  - rewrite lookup_app_l in Hx by (apply lookup_lt_Some in Hy; lia). eauto.
  - apply list_lookup_singleton_Some in Hy as [Hi <-].
    rewrite lookup_app_l in Hx by lia. rewrite last_lookup in Hl.
    replace (pred (length v)) with i in Hl by lia. congruence.
Qed.

#[local] Instance feed_raw now cp_opt : Tracks raw_states raw_inv (feed_state_machine now cp_opt).
Proof.
  unfold feed_state_machine. eapply tracks_bind; [track ltac:(keep_leaf)|intros events].
  eapply leads_get. intros s0.
  eapply leads_bind with (Q := λ _, raw_inv); [|intros ?; track ltac:(keep_leaf)].
  destruct cp_opt as [cp|]; [|by apply leads_forget, tracks_ret].
  intros s v [-> Hs]. destruct (cp_is cp (signalled_raw_cp_state s0)) eqn:Hcp.
  - by do 3 eexists.
  - do 3 eexists. split; [reflexivity|]. by apply raw_inv_snoc.
Qed.

#[local] Instance handle_raw now r : Tracks raw_states raw_inv (handle now r).
Proof. destruct r; cbn [handle]; track ltac:(keep_leaf). Qed.

(** Signals other than the published state and the derived events. *)
Definition internal (o : output) : bool :=
  match o with signal_event _ | signal_raw_cp_state_changed _ => false | _ => true end.

Definition all_internal (v : bool) (o : output) : bool := internal o && v.

Lemma all_internal_forall tr : foldl all_internal true tr = true → Forall (λ o, internal o = true) tr.
Proof.
  assert (∀ tr, foldl all_internal false tr = true → False) as Hf.
  { clear. induction tr as [|o tr IH]; [done|]. cbn. unfold all_internal. by rewrite andb_false_r. }
  induction tr as [|o tr IH]; [done|]. intros H.
  change (foldl all_internal (internal o && true) tr = true) in H.
  destruct (internal o) eqn:Ho; [|by destruct (Hf _ H)]. constructor; auto.
Qed.

(** What handling one measurement sends out, in order. *)
Lemma feed_outputs now cp s :
  ∃ pre events,
    out_of (feed_state_machine now (Some cp) s) =
      pre ++ (if cp_is cp (signalled_raw_cp_state s) then [] else [signal_raw_cp_state_changed cp])
          ++ map signal_event events ∧
    Forall (λ o, internal o = true) pre.
Proof.
  assert (Tracks all_internal (λ s' b, b = true ∧
    signalled_raw_cp_state s' = signalled_raw_cp_state s) (state_machine now (Some cp))) as Ht
    by track ltac:(keep_leaf).
  destruct (Ht s true) as (events & s1 & pre & E & Hpre & Hraw); [done|].
  exists pre, events. split; [|by apply all_internal_forall].
  assert (∀ (l : list CPEvent) s', cfor l (λ e, cemit (signal_event e)) s' =
            (Ret tt, s', map signal_event l) :> outcome Empty_set () * iec * list output) as Hfor.
  { clear. induction l as [|e l IH]; intros s'; [done|]. cbn. unfold mbind, cmd_mbind, cmd_bind.
    cbn. by rewrite IH. }
  unfold feed_state_machine, mbind, cmd_mbind, cmd_bind. rewrite E. cbn [cget]. rewrite Hraw.
  destruct (cp_is cp _); cbn; rewrite Hfor; cbn; by rewrite ?app_nil_r.
Qed.

(** A measured CP state is published once, before the events derived from
    it and after the driver calls it causes; in every run no two published states
    in a row are equal, and a measurement equal to the last published state
    publishes none. *)
Lemma raw_state_published_first now s tr :
  run now s tr →
  (∀ i x y, foldl raw_states [Disabled] tr !! i = Some x →
            foldl raw_states [Disabled] tr !! S i = Some y → x ≠ y) ∧
  ∀ now' cp, ∃ pre events,
    out_of (feed_state_machine now' (Some cp) s) =
      pre ++ (if bool_decide (last (foldl raw_states [Disabled] tr) = Some cp) then []
              else [signal_raw_cp_state_changed cp])
          ++ map signal_event events ∧
    Forall (λ o, internal o = true) pre.
Proof.
  intros H.
  assert (raw_inv s (foldl raw_states [Disabled] tr)) as [Hl Hv].
  { eapply (run_tracks raw_states raw_inv); [|apply _|exact H].
    intros ????. split; [done|]. by intros [|i] x y. }
  split; [exact Hv|]. intros now' cp. rewrite Hl.
  destruct (feed_outputs now' cp s) as (pre & events & E & Hpre).
  exists pre, events. split; [|done]. rewrite E. unfold cp_is.
  do 2 case_bool_decide; congruence.
Qed.

(** ** The request for CP state F *)
Definition drives_cp (v : bool) (o : output) : bool :=
  match o with bsp_cp_state_X1 | bsp_pwm_on _ => true | _ => v end.

Definition f_inv (s : iec) (v : bool) : Prop := cp_state_f_requested s = true ∧ v = false.

#[local] Instance reset_to_X1_f : Tracks drives_cp f_inv reset_to_X1.
Proof. intros s v [Hf ->]. unfold reset_to_X1. crun. rewrite Hf. by do 3 eexists. Qed.

Lemma handle_f now r :
  r ≠ req_set_cp_state_X1 → (∀ v, r ≠ req_set_pwm v) → Tracks drives_cp f_inv (handle now r).
Proof.
  intros H1 H2.
  destruct r as [| |v| | | | | | | | | | | | | | | |]; try done; [..|by destruct (H2 v)| | | | | | | | | | | | | | |];
    cbn [handle]; track ltac:(let Ha := fresh in let Hb := fresh in
      intros ? ? [Ha Hb]; split; [first [exact Ha | reflexivity]|exact Hb]).
Qed.

Lemma drives_cp_in v tr :
  foldl drives_cp v tr = false → v = false ∧ ∀ o, o ∈ tr → drives_cp false o = false.
Proof.
  revert v. induction tr as [|o tr IH]; intros v; cbn; [intros ->; split; [done|set_solver]|].
  intros [Ho Hin]%IH. destruct o; cbn in *; try done; (split; [done|]);
    intros o [->|H]%elem_of_cons; auto.
Qed.

(** While the charger wants CP state F, no request other than [set_pwm] and
    [set_cp_state_X1] makes the driver leave it (no X1 and no PWM is commanded, in
    particular not by the reset that a reported state A, E or Disabled causes),
    and the wish stands. *)
Lemma requested_state_F_stands now r s :
  cp_state_f_requested s = true →
  r ≠ req_set_cp_state_X1 → (∀ v, r ≠ req_set_pwm v) →
  cp_state_f_requested (st_of (handle now r s)) = true ∧
  bsp_cp_state_X1 ∉ out_of (handle now r s) ∧
  ∀ v, bsp_pwm_on v ∉ out_of (handle now r s).
Proof.
  intros Hf H1 H2.
  destruct (handle_f now r H1 H2 s false (conj Hf eq_refl)) as (a & s' & t & E & Hf' & Hv).
  rewrite E. cbn. apply drives_cp_in in Hv as [_ Hv]. split_and!; [done|..].
  - intros H. by discriminate (Hv _ H).
  - intros v H. by discriminate (Hv _ H).
Qed.

(** ** The expired C1 timer

    [AsyncTimeout] stays [running], and so [reached], after its thread has
    signalled, until it is stopped. *)
Ltac off_leaf := let H := fresh in intros ? ? H; first [exact H | reflexivity].

Lemma expired_withdraws now tm :
  timeout_reached now tm = true →
  leads blind (c1_phase tm false) (feed_state_machine now None) (λ _ s _, power_on_allowed s = false).
Proof.
  intros Hr.
  eapply leads_bind with (Q := λ _ s _, power_on_allowed s = false);
    [|intros ?; track ltac:(off_leaf)].
  eapply leads_bind with (Q := λ _ s _, power_on_allowed s = false);
    [|intros ?; track ltac:(off_leaf)].
  apply leads_get. intros s0. apply (leads_assume _ (last_cp_state s0 = C)).
  { by intros s v [-> []]. }
  intros Hcp. cbn [default]. rewrite Hcp. apply leads_forget. cbn [switch_cp_state].
  eapply leads_bind with (Q := λ _ s _, power_on_allowed s = false);
    [|intros ?; track ltac:(off_leaf)].
  eapply leads_bind with (Q := λ _ s _, power_on_allowed s = false);
    [|intros ?; track ltac:(off_leaf)].
  unfold case_C.
  do 2 (eapply leads_bind with (Q := λ _, c1_phase tm false); [track c1_leaf|intros ?]).
  eapply leads_bind with (Q := λ _ s _, power_on_allowed s = false);
    [|intros ?; track ltac:(off_leaf)].
  clear s0 Hcp. apply leads_get. intros s0.
  apply (leads_assume _ (pwm_running s0 = false ∧ timeout_state_c1 s0 = tm)).
  { by intros s v [-> []]. }
  intros [-> ->]. cbn [negb andb cwhen]. apply leads_forget. rewrite Hr. cbn [cwhen].
  eapply leads_bind with (Q := λ _, c1_phase tm false); [apply tracks_ret|intros ?].
  eapply leads_bind with (Q := λ _ s _, power_on_allowed s = false);
    [|intros ?; track ltac:(off_leaf)].
  intros s v _. unfold call_allow_power_on_bsp. crun.
  destruct (last_power_on_forwarded s); by do 3 eexists.
Qed.

(** Once the C1 timer has expired in state C with the PWM off, it counts as
    reached until the car leaves state C or the PWM is switched on, although its
    thread has ended: the charger's permission is withdrawn again within the very
    request that gives it. *)
Lemma expired_c1_timer_swallows_permission now reason s :
  last_cp_state s = C → pwm_running s = false → last_pwm_running s = false →
  waiting (timeout_state_c1 s) = false → timeout_reached now (timeout_state_c1 s) = true →
  power_on_allowed (st_of (handle now (req_allow_power_on true reason) s)) = false.
Proof.
  intros H1 H2 H3 _ Hr.
  assert (c1_phase (timeout_state_c1 s) false
            (set_power_on_reason reason (set_power_on_allowed true s)) tt) as Hc by by constructor.
  destruct (expired_withdraws now _ Hr _ _ Hc) as (a & s' & t & E & Hp).
  cbn [handle]. unfold allow_power_on, mbind, cmd_mbind, cmd_bind. cbn [cmodify negb cwhen].
  cbn. rewrite E. exact Hp.
Qed.

Definition on_edge (s : iec) (_ : ()) : Prop := pwm_running s = true ∧ last_pwm_running s = false.

Lemma on_edge_stops_timer now :
  leads blind (λ s v, last_cp_state s = C ∧ on_edge s v) (state_machine_locked now None)
    (λ d _ _, d.1.2 = tc_stop).
Proof.
  apply leads_get. intros s0. apply (leads_assume _ (last_cp_state s0 = C)).
  { by intros ? ? (-> & ? & ?). }
  intros Hs0. cbn [default]. rewrite Hs0. apply leads_forget. cbn [switch_cp_state].
  eapply leads_bind with (Q := λ d _ _, d.1.2 = tc_stop).
  2: { intros d. do 5 (eapply leads_bind with (Q := λ _ _ _, d.1.2 = tc_stop);
         [track ltac:(keep_leaf)|intros ?]). by apply leads_ret. }
  eapply leads_bind with (Q := λ d _ _, d.2 = tc_stop); [|intros [ev tc]; by apply leads_ret].
  unfold case_C.
  eapply leads_conseq with (P' := on_edge) (Q' := λ d _ _, d.2 = tc_stop);
    [|by intros ? ? (_ & ?)|done].
  do 2 (eapply leads_bind with (Q := λ _, on_edge); [track ltac:(keep_leaf)|intros ?]).
  eapply leads_bind with (Q := λ tc _ _, tc = tc_stop).
  - clear s0 Hs0. apply leads_get. intros s0.
    apply (leads_assume _ (pwm_running s0 = true ∧ last_pwm_running s0 = false)).
    { by intros ? ? [-> ?]. }
    intros [-> ->]. cbn [negb andb].
    eapply leads_conseq with (P' := λ _ _, True) (Q' := λ tc _ _, tc = tc_stop); [|done|done].
    do 2 (eapply leads_bind with (Q := λ _ _ _, True); [track ltac:(keep_leaf)|intros ?]).
    by apply leads_ret.
  - intros tc. eapply leads_bind with (Q := λ _ _ _, tc = tc_stop); [track ltac:(keep_leaf)|].
    intros ev. by apply leads_ret.
Qed.

(** The callback of the C1 timer can stop its own timer.  When the timer
    expires in state C between the two critical sections of [set_pwm] (the PWM is
    marked as running, the machine not yet fed), the state machine run by the
    timer's wait thread decides to stop the timer, and stopping joins the wait
    thread from within itself. *)
Lemma c1_callback_stops_own_timer now s :
  last_cp_state s = C → last_pwm_running s = false →
  timeout_reached now (timeout_state_c1 s) = true →
  ∃ events timer_F s' t,
    state_machine_locked now None (st_of (set_pwm_locked s)) =
      (Ret (events, tc_stop, timer_F), s', t) ∧
    running (timeout_state_c1 s') = true.
Proof.
  intros Hcp Hpwm Hr.
  assert (running (timeout_state_c1 s) = true) as Hrun by by apply andb_true_iff in Hr as [? _].
  assert (Tracks blind (λ s _, running (timeout_state_c1 s) = true)
    (state_machine_locked now None)) as Ht by track ltac:(keep_leaf).
  destruct (Ht (st_of (set_pwm_locked s)) tt Hrun) as (? & ? & ? & E' & Hrun').
  destruct (on_edge_stops_timer now (st_of (set_pwm_locked s)) tt)
    as ([[ev tc] tF] & s' & t & E & Htc); [done|].
  rewrite E in E'. injection E' as <- <- <-. cbn in Htc. subst tc. eauto 8.
Qed.

(** ** The theorems at concrete inputs *)

Lemma c1_timeout_powers_off_witness :
  foldl power_view false demo_trace = true ∧
  foldl power_view false
    (demo_trace ++ (handle_all ((1000, req_set_cp_state_X1) ::
                                [(2000, req_allow_power_on true DCPreCharge)] ++
                                [(7001, req_timeout_state_c1)]) demo_state).2) = false.
Proof.
  split; [vm_compute; reflexivity|].
  apply (c1_timeout_powers_off _ _ _ 1000 [(2000, req_allow_power_on true DCPreCharge)] 7001 demo_run);
    [vm_compute; reflexivity | vm_compute; reflexivity | by repeat constructor | done].
Defined.

Definition demo_F : iec := st_of (handle 600 req_set_cp_state_F demo_state).

