(* ===== verification/CiString.v ===== *)
(** * The bounded strings of the OCPP library

    Models [String<L>] and [CiString<L>] of
    [src/lib/everest/ocpp/include/ocpp/common/string.hpp] and [cistring.hpp]: the
    length-limited strings all OCPP messages carry. *)

From S2P Require Import Prelude.
From Stdlib Require Import Strings.Ascii Strings.String.

Module CiString.

Inductive StringTooLarge := TooLargeThrow | TooLargeTruncate.

Inductive error :=
| StringConversionException
| NotPrintable.

(** [String<L>::is_valid]; [set] is a member of [String<L>] and the function is
    not virtual, so this is the one [set] calls for every derived class. *)
Definition String_is_valid (view : string) : bool := true.

Definition String_set (L : nat) (data : string) (to_large : StringTooLarge) : outcome error string :=
  if Nat.ltb L (String.length data) then
    match to_large with
    | TooLargeThrow => Throw StringConversionException
    | TooLargeTruncate =>
        let view := String.substring 0 L data in
        if String_is_valid view then Ret view else Throw StringConversionException
    end
  else if String_is_valid data then Ret data else Throw StringConversionException.

(** [CiString<L>::is_valid]: printable ASCII and the line feed. *)
Definition printable (c : ascii) : bool :=
  let n := Z.of_nat (nat_of_ascii c) in
  let signed := if 127 <? n then n - 256 else n in
  negb (((signed <? 32) || (126 <? signed)) && negb (signed =? 10)).

Fixpoint CiString_is_valid (data : string) : outcome error bool :=
  match data with
  | EmptyString => Ret true
  | String c rest => if printable c then CiString_is_valid rest else Throw NotPrintable
  end.

(** The constructors and [get]. *)
Definition CiString_new (L : nat) (data : string) (to_large : StringTooLarge) : outcome error string :=
  String_set L data to_large.

(** [boost::algorithm::iequals] in the classic locale. *)
Definition to_upper (c : ascii) : ascii :=
  let n := nat_of_ascii c in
  if Nat.leb 97 n && Nat.leb n 122 then ascii_of_nat (n - 32) else c.

Fixpoint iequals (lhs rhs : string) : bool :=
  match lhs, rhs with
  | EmptyString, EmptyString => true
  | String a l, String b r => Ascii.eqb (to_upper a) (to_upper b) && iequals l r
  | _, _ => false
  end.

Definition ci_eq (lhs rhs : string) : bool := iequals lhs rhs.
Definition ci_ne (lhs rhs : string) : bool := negb (String.eqb lhs rhs).
Definition ci_lt (lhs rhs : string) : bool := String.ltb lhs rhs.

(** [std::optional<CiString>::operator==]. *)
Definition opt_ci_eq (lhs rhs : option string) : bool :=
  match lhs, rhs with
  | None, None => true
  | Some l, Some r => ci_eq l r
  | _, _ => false
  end.

(** ** Properties *)
Lemma iequals_refl s : iequals s s = true.
Proof. induction s as [|c s IH]; [done|]. cbn. by rewrite Ascii.eqb_refl. Qed.

Lemma iequals_spec s t : iequals s t = true ↔
  map to_upper (list_ascii_of_string s) = map to_upper (list_ascii_of_string t).
Proof.
  revert t. induction s as [|c s IH]; intros [|d t]; cbn; try done.
  rewrite andb_true_iff, IH, Ascii.eqb_eq. split; [by intros [-> ->]|by intros [= -> ->]].
Qed.

Lemma opt_ci_eq_refl o : opt_ci_eq o o = true.
Proof. destruct o; [apply iequals_refl|done]. Qed.

(** Equality up to case is an equivalence. *)
#[export] Instance ci_eq_equivalence : Equivalence (λ s t, ci_eq s t = true).
Proof.
  split.
  - exact iequals_refl.
  - intros s t. unfold ci_eq. by rewrite !iequals_spec.
  - intros s t u. unfold ci_eq. rewrite !iequals_spec. congruence.
Qed.

Lemma substring_length n s : (n ≤ String.length s)%nat → String.length (String.substring 0 n s) = n.
Proof.
  revert s. induction n as [|n IH]; intros [|c s]; cbn; try done; try lia.
  intros H. rewrite IH; lia.
Qed.

(** A stored string never exceeds its bound, and a string that fits is stored
    unchanged. *)
Lemma String_set_bounded L data tl s : String_set L data tl = Ret s → (String.length s ≤ L)%nat.
Proof.
  unfold String_set. destruct (Nat.ltb_spec L (String.length data)) as [H|H]; [destruct tl|];
    cbn; intros [= <-]; [rewrite substring_length|]; lia.
Qed.

Lemma String_set_fits L data tl : (String.length data ≤ L)%nat → String_set L data tl = Ret data.
Proof. intros H. unfold String_set. by rewrite (proj2 (Nat.ltb_ge _ _) H). Qed.

Lemma String_set_truncates L data :
  String_set L data TooLargeTruncate = Ret (String.substring 0 L data).
Proof.
  unfold String_set. destruct (Nat.ltb_spec L (String.length data)) as [H|H]; cbn; [done|].
  f_equal. revert L H. induction data as [|c data IH]; intros [|L] H; cbn in *; try done; try lia.
  f_equal. apply IH. lia.
Qed.

(** The two comparison operators of [CiString] disagree and the printable
    check is never made: some strings are both equal and unequal (equality ignores
    case, inequality does not), and every string that fits is accepted by the
    constructor although the check of [CiString] rejects it. *)
Lemma cistring_checks_diverge :
  (∃ s t, ci_eq s t = true ∧ ci_ne s t = true) ∧
  (∀ L data tl, (String.length data ≤ L)%nat → CiString_new L data tl = Ret data) ∧
  (∃ data, CiString_is_valid data = Throw NotPrintable ∧
           CiString_new 50 data TooLargeThrow = Ret data).
Proof.
  split_and!.
  - exists "a"%string, "A"%string. done.
  - intros L data tl. apply String_set_fits.
  - exists (String (ascii_of_nat 7) EmptyString). done.
Qed.

End CiString.
