(* ===== verification/MessageTypes.v ===== *)
(** * The message types of OCPP 1.6 and 2.x

    [MessageType] with its conversions to and from the action names on the wire, from
    [src/lib/everest/ocpp/lib/ocpp/v16/types.cpp] and [lib/ocpp/v2/types.cpp].  The
    message queue relies on them three times: for the action of a call, for the type
    column of a persisted message, and to find the type of the response to a call. *)

From S2P Require Import Prelude.
From Stdlib Require Import Strings.Ascii Strings.String.
#[local] Open Scope string_scope.

Module V16.

Inductive MessageType :=
  | Authorize | AuthorizeResponse | BootNotification | BootNotificationResponse
  | CancelReservation | CancelReservationResponse | CertificateSigned
  | CertificateSignedResponse | ChangeAvailability | ChangeAvailabilityResponse
  | ChangeConfiguration | ChangeConfigurationResponse | ClearCache | ClearCacheResponse
  | ClearChargingProfile | ClearChargingProfileResponse | DataTransfer | DataTransferResponse
  | DeleteCertificate | DeleteCertificateResponse | DiagnosticsStatusNotification
  | DiagnosticsStatusNotificationResponse | ExtendedTriggerMessage
  | ExtendedTriggerMessageResponse | FirmwareStatusNotification
  | FirmwareStatusNotificationResponse | GetCompositeSchedule | GetCompositeScheduleResponse
  | GetConfiguration | GetConfigurationResponse | GetDiagnostics | GetDiagnosticsResponse
  | GetInstalledCertificateIds | GetInstalledCertificateIdsResponse | GetLocalListVersion
  | GetLocalListVersionResponse | GetLog | GetLogResponse | Heartbeat | HeartbeatResponse
  | InstallCertificate | InstallCertificateResponse | LogStatusNotification
  | LogStatusNotificationResponse | MeterValues | MeterValuesResponse | RemoteStartTransaction
  | RemoteStartTransactionResponse | RemoteStopTransaction | RemoteStopTransactionResponse
  | ReserveNow | ReserveNowResponse | Reset | ResetResponse | SecurityEventNotification
  | SecurityEventNotificationResponse | SendLocalList | SendLocalListResponse
  | SetChargingProfile | SetChargingProfileResponse | SignCertificate | SignCertificateResponse
  | SignedFirmwareStatusNotification | SignedFirmwareStatusNotificationResponse
  | SignedUpdateFirmware | SignedUpdateFirmwareResponse | StartTransaction
  | StartTransactionResponse | StatusNotification | StatusNotificationResponse
  | StopTransaction | StopTransactionResponse | TriggerMessage | TriggerMessageResponse
  | UnlockConnector | UnlockConnectorResponse | UpdateFirmware | UpdateFirmwareResponse
  | InternalError.

Definition messagetype_to_string (m : MessageType) : string :=
  match m with
  | Authorize => "Authorize"
  | AuthorizeResponse => "AuthorizeResponse"
  | BootNotification => "BootNotification"
  | BootNotificationResponse => "BootNotificationResponse"
  | CancelReservation => "CancelReservation"
  | CancelReservationResponse => "CancelReservationResponse"
  | CertificateSigned => "CertificateSigned"
  | CertificateSignedResponse => "CertificateSignedResponse"
  | ChangeAvailability => "ChangeAvailability"
  | ChangeAvailabilityResponse => "ChangeAvailabilityResponse"
  | ChangeConfiguration => "ChangeConfiguration"
  | ChangeConfigurationResponse => "ChangeConfigurationResponse"
  | ClearCache => "ClearCache"
  | ClearCacheResponse => "ClearCacheResponse"
  | ClearChargingProfile => "ClearChargingProfile"
  | ClearChargingProfileResponse => "ClearChargingProfileResponse"
  | DataTransfer => "DataTransfer"
  | DataTransferResponse => "DataTransferResponse"
  | DeleteCertificate => "DeleteCertificate"
  | DeleteCertificateResponse => "DeleteCertificateResponse"
  | DiagnosticsStatusNotification => "DiagnosticsStatusNotification"
  | DiagnosticsStatusNotificationResponse => "DiagnosticsStatusNotificationResponse"
  | ExtendedTriggerMessage => "ExtendedTriggerMessage"
  | ExtendedTriggerMessageResponse => "ExtendedTriggerMessageResponse"
  | FirmwareStatusNotification => "FirmwareStatusNotification"
  | FirmwareStatusNotificationResponse => "FirmwareStatusNotificationResponse"
  | GetCompositeSchedule => "GetCompositeSchedule"
  | GetCompositeScheduleResponse => "GetCompositeScheduleResponse"
  | GetConfiguration => "GetConfiguration"
  | GetConfigurationResponse => "GetConfigurationResponse"
  | GetDiagnostics => "GetDiagnostics"
  | GetDiagnosticsResponse => "GetDiagnosticsResponse"
  | GetInstalledCertificateIds => "GetInstalledCertificateIds"
  | GetInstalledCertificateIdsResponse => "GetInstalledCertificateIdsResponse"
  | GetLocalListVersion => "GetLocalListVersion"
  | GetLocalListVersionResponse => "GetLocalListVersionResponse"
  | GetLog => "GetLog"
  | GetLogResponse => "GetLogResponse"
  | Heartbeat => "Heartbeat"
  | HeartbeatResponse => "HeartbeatResponse"
  | InstallCertificate => "InstallCertificate"
  | InstallCertificateResponse => "InstallCertificateResponse"
  | LogStatusNotification => "LogStatusNotification"
  | LogStatusNotificationResponse => "LogStatusNotificationResponse"
  | MeterValues => "MeterValues"
  | MeterValuesResponse => "MeterValuesResponse"
  | RemoteStartTransaction => "RemoteStartTransaction"
  | RemoteStartTransactionResponse => "RemoteStartTransactionResponse"
  | RemoteStopTransaction => "RemoteStopTransaction"
  | RemoteStopTransactionResponse => "RemoteStopTransactionResponse"
  | ReserveNow => "ReserveNow"
  | ReserveNowResponse => "ReserveNowResponse"
  | Reset => "Reset"
  | ResetResponse => "ResetResponse"
  | SecurityEventNotification => "SecurityEventNotification"
  | SecurityEventNotificationResponse => "SecurityEventNotificationResponse"
  | SendLocalList => "SendLocalList"
  | SendLocalListResponse => "SendLocalListResponse"
  | SetChargingProfile => "SetChargingProfile"
  | SetChargingProfileResponse => "SetChargingProfileResponse"
  | SignCertificate => "SignCertificate"
  | SignCertificateResponse => "SignCertificateResponse"
  | SignedFirmwareStatusNotification => "SignedFirmwareStatusNotification"
  | SignedFirmwareStatusNotificationResponse => "SignedFirmwareStatusNotificationResponse"
  | SignedUpdateFirmware => "SignedUpdateFirmware"
  | SignedUpdateFirmwareResponse => "SignedUpdateFirmwareResponse"
  | StartTransaction => "StartTransaction"
  | StartTransactionResponse => "StartTransactionResponse"
  | StatusNotification => "StatusNotification"
  | StatusNotificationResponse => "StatusNotificationResponse"
  | StopTransaction => "StopTransaction"
  | StopTransactionResponse => "StopTransactionResponse"
  | TriggerMessage => "TriggerMessage"
  | TriggerMessageResponse => "TriggerMessageResponse"
  | UnlockConnector => "UnlockConnector"
  | UnlockConnectorResponse => "UnlockConnectorResponse"
  | UpdateFirmware => "UpdateFirmware"
  | UpdateFirmwareResponse => "UpdateFirmwareResponse"
  | InternalError => "InternalError"
  end.

Definition string_to_messagetype (s : string) : option MessageType :=
  if String.eqb s "Authorize" then Some Authorize else
  if String.eqb s "AuthorizeResponse" then Some AuthorizeResponse else
  if String.eqb s "BootNotification" then Some BootNotification else
  if String.eqb s "BootNotificationResponse" then Some BootNotificationResponse else
  if String.eqb s "CancelReservation" then Some CancelReservation else
  if String.eqb s "CancelReservationResponse" then Some CancelReservationResponse else
  if String.eqb s "CertificateSigned" then Some CertificateSigned else
  if String.eqb s "CertificateSignedResponse" then Some CertificateSignedResponse else
  if String.eqb s "ChangeAvailability" then Some ChangeAvailability else
  if String.eqb s "ChangeAvailabilityResponse" then Some ChangeAvailabilityResponse else
  if String.eqb s "ChangeConfiguration" then Some ChangeConfiguration else
  if String.eqb s "ChangeConfigurationResponse" then Some ChangeConfigurationResponse else
  if String.eqb s "ClearCache" then Some ClearCache else
  if String.eqb s "ClearCacheResponse" then Some ClearCacheResponse else
  if String.eqb s "ClearChargingProfile" then Some ClearChargingProfile else
  if String.eqb s "ClearChargingProfileResponse" then Some ClearChargingProfileResponse else
  if String.eqb s "DataTransfer" then Some DataTransfer else
  if String.eqb s "DataTransferResponse" then Some DataTransferResponse else
  if String.eqb s "DeleteCertificate" then Some DeleteCertificate else
  if String.eqb s "DeleteCertificateResponse" then Some DeleteCertificateResponse else
  if String.eqb s "DiagnosticsStatusNotification" then Some DiagnosticsStatusNotification else
  if String.eqb s "DiagnosticsStatusNotificationResponse" then Some DiagnosticsStatusNotificationResponse else
  if String.eqb s "ExtendedTriggerMessage" then Some ExtendedTriggerMessage else
  if String.eqb s "ExtendedTriggerMessageResponse" then Some ExtendedTriggerMessageResponse else
  if String.eqb s "FirmwareStatusNotification" then Some FirmwareStatusNotification else
  if String.eqb s "FirmwareStatusNotificationResponse" then Some FirmwareStatusNotificationResponse else
  if String.eqb s "GetCompositeSchedule" then Some GetCompositeSchedule else
  if String.eqb s "GetCompositeScheduleResponse" then Some GetCompositeScheduleResponse else
  if String.eqb s "GetConfiguration" then Some GetConfiguration else
  if String.eqb s "GetConfigurationResponse" then Some GetConfigurationResponse else
  if String.eqb s "GetDiagnostics" then Some GetDiagnostics else
  if String.eqb s "GetDiagnosticsResponse" then Some GetDiagnosticsResponse else
  if String.eqb s "GetInstalledCertificateIds" then Some GetInstalledCertificateIds else
  if String.eqb s "GetInstalledCertificateIdsResponse" then Some GetInstalledCertificateIdsResponse else
  if String.eqb s "GetLocalListVersion" then Some GetLocalListVersion else
  if String.eqb s "GetLocalListVersionResponse" then Some GetLocalListVersionResponse else
  if String.eqb s "GetLog" then Some GetLog else
  if String.eqb s "GetLogResponse" then Some GetLogResponse else
  if String.eqb s "Heartbeat" then Some Heartbeat else
  if String.eqb s "HeartbeatResponse" then Some HeartbeatResponse else
  if String.eqb s "InstallCertificate" then Some InstallCertificate else
  if String.eqb s "InstallCertificateResponse" then Some InstallCertificateResponse else
  if String.eqb s "LogStatusNotification" then Some LogStatusNotification else
  if String.eqb s "LogStatusNotificationResponse" then Some LogStatusNotificationResponse else
  if String.eqb s "MeterValues" then Some MeterValues else
  if String.eqb s "MeterValuesResponse" then Some MeterValuesResponse else
  if String.eqb s "RemoteStartTransaction" then Some RemoteStartTransaction else
  if String.eqb s "RemoteStartTransactionResponse" then Some RemoteStartTransactionResponse else
  if String.eqb s "RemoteStopTransaction" then Some RemoteStopTransaction else
  if String.eqb s "RemoteStopTransactionResponse" then Some RemoteStopTransactionResponse else
  if String.eqb s "ReserveNow" then Some ReserveNow else
  if String.eqb s "ReserveNowResponse" then Some ReserveNowResponse else
  if String.eqb s "Reset" then Some Reset else
  if String.eqb s "ResetResponse" then Some ResetResponse else
  if String.eqb s "SecurityEventNotification" then Some SecurityEventNotification else
  if String.eqb s "SecurityEventNotificationResponse" then Some SecurityEventNotificationResponse else
  if String.eqb s "SendLocalList" then Some SendLocalList else
  if String.eqb s "SendLocalListResponse" then Some SendLocalListResponse else
  if String.eqb s "SetChargingProfile" then Some SetChargingProfile else
  if String.eqb s "SetChargingProfileResponse" then Some SetChargingProfileResponse else
  if String.eqb s "SignCertificate" then Some SignCertificate else
  if String.eqb s "SignCertificateResponse" then Some SignCertificateResponse else
  if String.eqb s "SignedFirmwareStatusNotification" then Some SignedFirmwareStatusNotification else
  if String.eqb s "SignedFirmwareStatusNotificationResponse" then Some SignedFirmwareStatusNotificationResponse else
  if String.eqb s "SignedUpdateFirmware" then Some SignedUpdateFirmware else
  if String.eqb s "SignedUpdateFirmwareResponse" then Some SignedUpdateFirmwareResponse else
  if String.eqb s "StartTransaction" then Some StartTransaction else
  if String.eqb s "StartTransactionResponse" then Some StartTransactionResponse else
  if String.eqb s "StatusNotification" then Some StatusNotification else
  if String.eqb s "StatusNotificationResponse" then Some StatusNotificationResponse else
  if String.eqb s "StopTransaction" then Some StopTransaction else
  if String.eqb s "StopTransactionResponse" then Some StopTransactionResponse else
  if String.eqb s "TriggerMessage" then Some TriggerMessage else
  if String.eqb s "TriggerMessageResponse" then Some TriggerMessageResponse else
  if String.eqb s "UnlockConnector" then Some UnlockConnector else
  if String.eqb s "UnlockConnectorResponse" then Some UnlockConnectorResponse else
  if String.eqb s "UpdateFirmware" then Some UpdateFirmware else
  if String.eqb s "UpdateFirmwareResponse" then Some UpdateFirmwareResponse else
  None.

(** A type is recognised by its name; [InternalError] is the one that only exists
    inside the library. *)
Lemma messagetype_roundtrip_v16 m :
  string_to_messagetype (messagetype_to_string m) =
  if String.eqb (messagetype_to_string m) "InternalError" then None else Some m.
Proof. destruct m; vm_compute; reflexivity. Qed.

#[export] Instance messagetype_to_string_inj_v16 : Inj (=) (=) messagetype_to_string.
Proof.
  intros m n E. pose proof (messagetype_roundtrip_v16 m) as Hm.
  pose proof (messagetype_roundtrip_v16 n) as Hn. rewrite E in Hm. rewrite Hm in Hn.
  destruct (String.eqb_spec (messagetype_to_string n) "InternalError") as [En|_]; [|congruence].
  assert (∀ p, messagetype_to_string p = "InternalError" → p = InternalError) as Hi
    by (intros []; vm_compute; congruence).
  by rewrite (Hi m), (Hi n) by congruence.
Qed.

#[global] Instance MessageType_eq_dec : EqDecision MessageType.
Proof.
  refine (λ m n, cast_if (String.string_dec (messagetype_to_string m) (messagetype_to_string n)));
    abstract (naive_solver eauto using messagetype_to_string_inj_v16).
Defined.

End V16.

Module V2.

Inductive MessageType :=
  | Authorize | AuthorizeResponse | BootNotification | BootNotificationResponse
  | CancelReservation | CancelReservationResponse | CertificateSigned
  | CertificateSignedResponse | ChangeAvailability | ChangeAvailabilityResponse | ClearCache
  | ClearCacheResponse | ClearChargingProfile | ClearChargingProfileResponse
  | ClearDisplayMessage | ClearDisplayMessageResponse | ClearedChargingLimit
  | ClearedChargingLimitResponse | ClearVariableMonitoring | ClearVariableMonitoringResponse
  | CostUpdated | CostUpdatedResponse | CustomerInformation | CustomerInformationResponse
  | DataTransfer | DataTransferResponse | DeleteCertificate | DeleteCertificateResponse
  | FirmwareStatusNotification | FirmwareStatusNotificationResponse | Get15118EVCertificate
  | Get15118EVCertificateResponse | GetBaseReport | GetBaseReportResponse
  | GetCertificateStatus | GetCertificateStatusResponse | GetChargingProfiles
  | GetChargingProfilesResponse | GetCompositeSchedule | GetCompositeScheduleResponse
  | GetDisplayMessages | GetDisplayMessagesResponse | GetInstalledCertificateIds
  | GetInstalledCertificateIdsResponse | GetLocalListVersion | GetLocalListVersionResponse
  | GetLog | GetLogResponse | GetMonitoringReport | GetMonitoringReportResponse | GetReport
  | GetReportResponse | GetTransactionStatus | GetTransactionStatusResponse | GetVariables
  | GetVariablesResponse | Heartbeat | HeartbeatResponse | InstallCertificate
  | InstallCertificateResponse | LogStatusNotification | LogStatusNotificationResponse
  | MeterValues | MeterValuesResponse | NotifyChargingLimit | NotifyChargingLimitResponse
  | NotifyCustomerInformation | NotifyCustomerInformationResponse | NotifyDisplayMessages
  | NotifyDisplayMessagesResponse | NotifyEVChargingNeeds | NotifyEVChargingNeedsResponse
  | NotifyEVChargingSchedule | NotifyEVChargingScheduleResponse | NotifyEvent
  | NotifyEventResponse | NotifyMonitoringReport | NotifyMonitoringReportResponse
  | NotifyReport | NotifyReportResponse | PublishFirmware | PublishFirmwareResponse
  | PublishFirmwareStatusNotification | PublishFirmwareStatusNotificationResponse
  | ReportChargingProfiles | ReportChargingProfilesResponse | RequestStartTransaction
  | RequestStartTransactionResponse | RequestStopTransaction | RequestStopTransactionResponse
  | ReservationStatusUpdate | ReservationStatusUpdateResponse | ReserveNow | ReserveNowResponse
  | Reset | ResetResponse | SecurityEventNotification | SecurityEventNotificationResponse
  | SendLocalList | SendLocalListResponse | SetChargingProfile | SetChargingProfileResponse
  | SetDisplayMessage | SetDisplayMessageResponse | SetMonitoringBase
  | SetMonitoringBaseResponse | SetMonitoringLevel | SetMonitoringLevelResponse
  | SetNetworkProfile | SetNetworkProfileResponse | SetVariableMonitoring
  | SetVariableMonitoringResponse | SetVariables | SetVariablesResponse | SignCertificate
  | SignCertificateResponse | StatusNotification | StatusNotificationResponse
  | TransactionEvent | TransactionEventResponse | TriggerMessage | TriggerMessageResponse
  | UnlockConnector | UnlockConnectorResponse | UnpublishFirmware | UnpublishFirmwareResponse
  | UpdateFirmware | UpdateFirmwareResponse | AdjustPeriodicEventStream
  | AdjustPeriodicEventStreamResponse | AFRRSignal | AFRRSignalResponse | BatterySwap
  | BatterySwapResponse | ChangeTransactionTariff | ChangeTransactionTariffResponse
  | ClearDERControl | ClearDERControlResponse | ClearTariffs | ClearTariffsResponse
  | ClosePeriodicEventStream | ClosePeriodicEventStreamResponse | GetCRL | GetCRLResponse
  | GetDERControl | GetDERControlResponse | GetPeriodicEventStream
  | GetPeriodicEventStreamResponse | GetTariffs | GetTariffsResponse
  | NotifyAllowedEnergyTransfer | NotifyAllowedEnergyTransferResponse | NotifyDERAlarm
  | NotifyDERAlarmResponse | NotifyDERStartStop | NotifyDERStartStopResponse
  | NotifyPeriodicEventStream | NotifyPeriodicEventStreamResponse | NotifyPriorityCharging
  | NotifyPriorityChargingResponse | NotifySettlement | NotifySettlementResponse
  | OpenPeriodicEventStream | OpenPeriodicEventStreamResponse | PullDynamicScheduleUpdate
  | PullDynamicScheduleUpdateResponse | ReportDERControl | ReportDERControlResponse
  | RequestBatterySwap | RequestBatterySwapResponse | SetDefaultTariff
  | SetDefaultTariffResponse | SetDERControl | SetDERControlResponse | UpdateDynamicSchedule
  | UpdateDynamicScheduleResponse | UsePriorityCharging | UsePriorityChargingResponse
  | VatNumberValidation | VatNumberValidationResponse | InternalError.

Definition messagetype_to_string (m : MessageType) : string :=
  match m with
  | Authorize => "Authorize"
  | AuthorizeResponse => "AuthorizeResponse"
  | BootNotification => "BootNotification"
  | BootNotificationResponse => "BootNotificationResponse"
  | CancelReservation => "CancelReservation"
  | CancelReservationResponse => "CancelReservationResponse"
  | CertificateSigned => "CertificateSigned"
  | CertificateSignedResponse => "CertificateSignedResponse"
  | ChangeAvailability => "ChangeAvailability"
  | ChangeAvailabilityResponse => "ChangeAvailabilityResponse"
  | ClearCache => "ClearCache"
  | ClearCacheResponse => "ClearCacheResponse"
  | ClearChargingProfile => "ClearChargingProfile"
  | ClearChargingProfileResponse => "ClearChargingProfileResponse"
  | ClearDisplayMessage => "ClearDisplayMessage"
  | ClearDisplayMessageResponse => "ClearDisplayMessageResponse"
  | ClearedChargingLimit => "ClearedChargingLimit"
  | ClearedChargingLimitResponse => "ClearedChargingLimitResponse"
  | ClearVariableMonitoring => "ClearVariableMonitoring"
  | ClearVariableMonitoringResponse => "ClearVariableMonitoringResponse"
  | CostUpdated => "CostUpdated"
  | CostUpdatedResponse => "CostUpdatedResponse"
  | CustomerInformation => "CustomerInformation"
  | CustomerInformationResponse => "CustomerInformationResponse"
  | DataTransfer => "DataTransfer"
  | DataTransferResponse => "DataTransferResponse"
  | DeleteCertificate => "DeleteCertificate"
  | DeleteCertificateResponse => "DeleteCertificateResponse"
  | FirmwareStatusNotification => "FirmwareStatusNotification"
  | FirmwareStatusNotificationResponse => "FirmwareStatusNotificationResponse"
  | Get15118EVCertificate => "Get15118EVCertificate"
  | Get15118EVCertificateResponse => "Get15118EVCertificateResponse"
  | GetBaseReport => "GetBaseReport"
  | GetBaseReportResponse => "GetBaseReportResponse"
  | GetCertificateStatus => "GetCertificateStatus"
  | GetCertificateStatusResponse => "GetCertificateStatusResponse"
  | GetChargingProfiles => "GetChargingProfiles"
  | GetChargingProfilesResponse => "GetChargingProfilesResponse"
  | GetCompositeSchedule => "GetCompositeSchedule"
  | GetCompositeScheduleResponse => "GetCompositeScheduleResponse"
  | GetDisplayMessages => "GetDisplayMessages"
  | GetDisplayMessagesResponse => "GetDisplayMessagesResponse"
  | GetInstalledCertificateIds => "GetInstalledCertificateIds"
  | GetInstalledCertificateIdsResponse => "GetInstalledCertificateIdsResponse"
  | GetLocalListVersion => "GetLocalListVersion"
  | GetLocalListVersionResponse => "GetLocalListVersionResponse"
  | GetLog => "GetLog"
  | GetLogResponse => "GetLogResponse"
  | GetMonitoringReport => "GetMonitoringReport"
  | GetMonitoringReportResponse => "GetMonitoringReportResponse"
  | GetReport => "GetReport"
  | GetReportResponse => "GetReportResponse"
  | GetTransactionStatus => "GetTransactionStatus"
  | GetTransactionStatusResponse => "GetTransactionStatusResponse"
  | GetVariables => "GetVariables"
  | GetVariablesResponse => "GetVariablesResponse"
  | Heartbeat => "Heartbeat"
  | HeartbeatResponse => "HeartbeatResponse"
  | InstallCertificate => "InstallCertificate"
  | InstallCertificateResponse => "InstallCertificateResponse"
  | LogStatusNotification => "LogStatusNotification"
  | LogStatusNotificationResponse => "LogStatusNotificationResponse"
  | MeterValues => "MeterValues"
  | MeterValuesResponse => "MeterValuesResponse"
  | NotifyChargingLimit => "NotifyChargingLimit"
  | NotifyChargingLimitResponse => "NotifyChargingLimitResponse"
  | NotifyCustomerInformation => "NotifyCustomerInformation"
  | NotifyCustomerInformationResponse => "NotifyCustomerInformationResponse"
  | NotifyDisplayMessages => "NotifyDisplayMessages"
  | NotifyDisplayMessagesResponse => "NotifyDisplayMessagesResponse"
  | NotifyEVChargingNeeds => "NotifyEVChargingNeeds"
  | NotifyEVChargingNeedsResponse => "NotifyEVChargingNeedsResponse"
  | NotifyEVChargingSchedule => "NotifyEVChargingSchedule"
  | NotifyEVChargingScheduleResponse => "NotifyEVChargingScheduleResponse"
  | NotifyEvent => "NotifyEvent"
  | NotifyEventResponse => "NotifyEventResponse"
  | NotifyMonitoringReport => "NotifyMonitoringReport"
  | NotifyMonitoringReportResponse => "NotifyMonitoringReportResponse"
  | NotifyReport => "NotifyReport"
  | NotifyReportResponse => "NotifyReportResponse"
  | PublishFirmware => "PublishFirmware"
  | PublishFirmwareResponse => "PublishFirmwareResponse"
  | PublishFirmwareStatusNotification => "PublishFirmwareStatusNotification"
  | PublishFirmwareStatusNotificationResponse => "PublishFirmwareStatusNotificationResponse"
  | ReportChargingProfiles => "ReportChargingProfiles"
  | ReportChargingProfilesResponse => "ReportChargingProfilesResponse"
  | RequestStartTransaction => "RequestStartTransaction"
  | RequestStartTransactionResponse => "RequestStartTransactionResponse"
  | RequestStopTransaction => "RequestStopTransaction"
  | RequestStopTransactionResponse => "RequestStopTransactionResponse"
  | ReservationStatusUpdate => "ReservationStatusUpdate"
  | ReservationStatusUpdateResponse => "ReservationStatusUpdateResponse"
  | ReserveNow => "ReserveNow"
  | ReserveNowResponse => "ReserveNowResponse"
  | Reset => "Reset"
  | ResetResponse => "ResetResponse"
  | SecurityEventNotification => "SecurityEventNotification"
  | SecurityEventNotificationResponse => "SecurityEventNotificationResponse"
  | SendLocalList => "SendLocalList"
  | SendLocalListResponse => "SendLocalListResponse"
  | SetChargingProfile => "SetChargingProfile"
  | SetChargingProfileResponse => "SetChargingProfileResponse"
  | SetDisplayMessage => "SetDisplayMessage"
  | SetDisplayMessageResponse => "SetDisplayMessageResponse"
  | SetMonitoringBase => "SetMonitoringBase"
  | SetMonitoringBaseResponse => "SetMonitoringBaseResponse"
  | SetMonitoringLevel => "SetMonitoringLevel"
  | SetMonitoringLevelResponse => "SetMonitoringLevelResponse"
  | SetNetworkProfile => "SetNetworkProfile"
  | SetNetworkProfileResponse => "SetNetworkProfileResponse"
  | SetVariableMonitoring => "SetVariableMonitoring"
  | SetVariableMonitoringResponse => "SetVariableMonitoringResponse"
  | SetVariables => "SetVariables"
  | SetVariablesResponse => "SetVariablesResponse"
  | SignCertificate => "SignCertificate"
  | SignCertificateResponse => "SignCertificateResponse"
  | StatusNotification => "StatusNotification"
  | StatusNotificationResponse => "StatusNotificationResponse"
  | TransactionEvent => "TransactionEvent"
  | TransactionEventResponse => "TransactionEventResponse"
  | TriggerMessage => "TriggerMessage"
  | TriggerMessageResponse => "TriggerMessageResponse"
  | UnlockConnector => "UnlockConnector"
  | UnlockConnectorResponse => "UnlockConnectorResponse"
  | UnpublishFirmware => "UnpublishFirmware"
  | UnpublishFirmwareResponse => "UnpublishFirmwareResponse"
  | UpdateFirmware => "UpdateFirmware"
  | UpdateFirmwareResponse => "UpdateFirmwareResponse"
  | AdjustPeriodicEventStream => "AdjustPeriodicEventStream"
  | AdjustPeriodicEventStreamResponse => "AdjustPeriodicEventStreamResponse"
  | AFRRSignal => "AFRRSignal"
  | AFRRSignalResponse => "AFRRSignalResponse"
  | BatterySwap => "BatterySwap"
  | BatterySwapResponse => "BatterySwapResponse"
  | ChangeTransactionTariff => "ChangeTransactionTariff"
  | ChangeTransactionTariffResponse => "ChangeTransactionTariffResponse"
  | ClearDERControl => "ClearDERControl"
  | ClearDERControlResponse => "ClearDERControlResponse"
  | ClearTariffs => "ClearTariffs"
  | ClearTariffsResponse => "ClearTariffsResponse"
  | ClosePeriodicEventStream => "ClosePeriodicEventStream"
  | ClosePeriodicEventStreamResponse => "ClosePeriodicEventStreamResponse"
  | GetCRL => "GetCRL"
  | GetCRLResponse => "GetCRLResponse"
  | GetDERControl => "GetDERControl"
  | GetDERControlResponse => "GetDERControlResponse"
  | GetPeriodicEventStream => "GetPeriodicEventStream"
  | GetPeriodicEventStreamResponse => "GetPeriodicEventStreamResponse"
  | GetTariffs => "GetTariffs"
  | GetTariffsResponse => "GetTariffsResponse"
  | NotifyAllowedEnergyTransfer => "NotifyAllowedEnergyTransfer"
  | NotifyAllowedEnergyTransferResponse => "NotifyAllowedEnergyTransferResponse"
  | NotifyDERAlarm => "NotifyDERAlarm"
  | NotifyDERAlarmResponse => "NotifyDERAlarmResponse"
  | NotifyDERStartStop => "NotifyDERStartStop"
  | NotifyDERStartStopResponse => "NotifyDERStartStopResponse"
  | NotifyPeriodicEventStream => "NotifyPeriodicEventStream"
  | NotifyPeriodicEventStreamResponse => "NotifyPeriodicEventStreamResponse"
  | NotifyPriorityCharging => "NotifyPriorityCharging"
  | NotifyPriorityChargingResponse => "NotifyPriorityChargingResponse"
  | NotifySettlement => "NotifySettlement"
  | NotifySettlementResponse => "NotifySettlementResponse"
  | OpenPeriodicEventStream => "OpenPeriodicEventStream"
  | OpenPeriodicEventStreamResponse => "OpenPeriodicEventStreamResponse"
  | PullDynamicScheduleUpdate => "PullDynamicScheduleUpdate"
  | PullDynamicScheduleUpdateResponse => "PullDynamicScheduleUpdateResponse"
  | ReportDERControl => "ReportDERControl"
  | ReportDERControlResponse => "ReportDERControlResponse"
  | RequestBatterySwap => "RequestBatterySwap"
  | RequestBatterySwapResponse => "RequestBatterySwapResponse"
  | SetDefaultTariff => "SetDefaultTariff"
  | SetDefaultTariffResponse => "SetDefaultTariffResponse"
  | SetDERControl => "SetDERControl"
  | SetDERControlResponse => "SetDERControlResponse"
  | UpdateDynamicSchedule => "UpdateDynamicSchedule"
  | UpdateDynamicScheduleResponse => "UpdateDynamicScheduleResponse"
  | UsePriorityCharging => "UsePriorityCharging"
  | UsePriorityChargingResponse => "UsePriorityChargingResponse"
  | VatNumberValidation => "VatNumberValidation"
  | VatNumberValidationResponse => "VatNumberValidationResponse"
  | InternalError => "InternalError"
  end.

Definition string_to_messagetype (s : string) : option MessageType :=
  if String.eqb s "Authorize" then Some Authorize else
  if String.eqb s "AuthorizeResponse" then Some AuthorizeResponse else
  if String.eqb s "BootNotification" then Some BootNotification else
  if String.eqb s "BootNotificationResponse" then Some BootNotificationResponse else
  if String.eqb s "CancelReservation" then Some CancelReservation else
  if String.eqb s "CancelReservationResponse" then Some CancelReservationResponse else
  if String.eqb s "CertificateSigned" then Some CertificateSigned else
  if String.eqb s "CertificateSignedResponse" then Some CertificateSignedResponse else
  if String.eqb s "ChangeAvailability" then Some ChangeAvailability else
  if String.eqb s "ChangeAvailabilityResponse" then Some ChangeAvailabilityResponse else
  if String.eqb s "ClearCache" then Some ClearCache else
  if String.eqb s "ClearCacheResponse" then Some ClearCacheResponse else
  if String.eqb s "ClearChargingProfile" then Some ClearChargingProfile else
  if String.eqb s "ClearChargingProfileResponse" then Some ClearChargingProfileResponse else
  if String.eqb s "ClearDisplayMessage" then Some ClearDisplayMessage else
  if String.eqb s "ClearDisplayMessageResponse" then Some ClearDisplayMessageResponse else
  if String.eqb s "ClearedChargingLimit" then Some ClearedChargingLimit else
  if String.eqb s "ClearedChargingLimitResponse" then Some ClearedChargingLimitResponse else
  if String.eqb s "ClearVariableMonitoring" then Some ClearVariableMonitoring else
  if String.eqb s "ClearVariableMonitoringResponse" then Some ClearVariableMonitoringResponse else
  if String.eqb s "CostUpdated" then Some CostUpdated else
  if String.eqb s "CostUpdatedResponse" then Some CostUpdatedResponse else
  if String.eqb s "CustomerInformation" then Some CustomerInformation else
  if String.eqb s "CustomerInformationResponse" then Some CustomerInformationResponse else
  if String.eqb s "DataTransfer" then Some DataTransfer else
  if String.eqb s "DataTransferResponse" then Some DataTransferResponse else
  if String.eqb s "DeleteCertificate" then Some DeleteCertificate else
  if String.eqb s "DeleteCertificateResponse" then Some DeleteCertificateResponse else
  if String.eqb s "FirmwareStatusNotification" then Some FirmwareStatusNotification else
  if String.eqb s "FirmwareStatusNotificationResponse" then Some FirmwareStatusNotificationResponse else
  if String.eqb s "Get15118EVCertificate" then Some Get15118EVCertificate else
  if String.eqb s "Get15118EVCertificateResponse" then Some Get15118EVCertificateResponse else
  if String.eqb s "GetBaseReport" then Some GetBaseReport else
  if String.eqb s "GetBaseReportResponse" then Some GetBaseReportResponse else
  if String.eqb s "GetCertificateStatus" then Some GetCertificateStatus else
  if String.eqb s "GetCertificateStatusResponse" then Some GetCertificateStatusResponse else
  if String.eqb s "GetChargingProfiles" then Some GetChargingProfiles else
  if String.eqb s "GetChargingProfilesResponse" then Some GetChargingProfilesResponse else
  if String.eqb s "GetCompositeSchedule" then Some GetCompositeSchedule else
  if String.eqb s "GetCompositeScheduleResponse" then Some GetCompositeScheduleResponse else
  if String.eqb s "GetDisplayMessages" then Some GetDisplayMessages else
  if String.eqb s "GetDisplayMessagesResponse" then Some GetDisplayMessagesResponse else
  if String.eqb s "GetInstalledCertificateIds" then Some GetInstalledCertificateIds else
  if String.eqb s "GetInstalledCertificateIdsResponse" then Some GetInstalledCertificateIdsResponse else
  if String.eqb s "GetLocalListVersion" then Some GetLocalListVersion else
  if String.eqb s "GetLocalListVersionResponse" then Some GetLocalListVersionResponse else
  if String.eqb s "GetLog" then Some GetLog else
  if String.eqb s "GetLogResponse" then Some GetLogResponse else
  if String.eqb s "GetMonitoringReport" then Some GetMonitoringReport else
  if String.eqb s "GetMonitoringReportResponse" then Some GetMonitoringReportResponse else
  if String.eqb s "GetReport" then Some GetReport else
  if String.eqb s "GetReportResponse" then Some GetReportResponse else
  if String.eqb s "GetTransactionStatus" then Some GetTransactionStatus else
  if String.eqb s "GetTransactionStatusResponse" then Some GetTransactionStatusResponse else
  if String.eqb s "GetVariables" then Some GetVariables else
  if String.eqb s "GetVariablesResponse" then Some GetVariablesResponse else
  if String.eqb s "Heartbeat" then Some Heartbeat else
  if String.eqb s "HeartbeatResponse" then Some HeartbeatResponse else
  if String.eqb s "InstallCertificate" then Some InstallCertificate else
  if String.eqb s "InstallCertificateResponse" then Some InstallCertificateResponse else
  if String.eqb s "LogStatusNotification" then Some LogStatusNotification else
  if String.eqb s "LogStatusNotificationResponse" then Some LogStatusNotificationResponse else
  if String.eqb s "MeterValues" then Some MeterValues else
  if String.eqb s "MeterValuesResponse" then Some MeterValuesResponse else
  if String.eqb s "NotifyChargingLimit" then Some NotifyChargingLimit else
  if String.eqb s "NotifyChargingLimitResponse" then Some NotifyChargingLimitResponse else
  if String.eqb s "NotifyCustomerInformation" then Some NotifyCustomerInformation else
  if String.eqb s "NotifyCustomerInformationResponse" then Some NotifyCustomerInformationResponse else
  if String.eqb s "NotifyDisplayMessages" then Some NotifyDisplayMessages else
  if String.eqb s "NotifyDisplayMessagesResponse" then Some NotifyDisplayMessagesResponse else
  if String.eqb s "NotifyEVChargingNeeds" then Some NotifyEVChargingNeeds else
  if String.eqb s "NotifyEVChargingNeedsResponse" then Some NotifyEVChargingNeedsResponse else
  if String.eqb s "NotifyEVChargingSchedule" then Some NotifyEVChargingSchedule else
  if String.eqb s "NotifyEVChargingScheduleResponse" then Some NotifyEVChargingScheduleResponse else
  if String.eqb s "NotifyEvent" then Some NotifyEvent else
  if String.eqb s "NotifyEventResponse" then Some NotifyEventResponse else
  if String.eqb s "NotifyMonitoringReport" then Some NotifyMonitoringReport else
  if String.eqb s "NotifyMonitoringReportResponse" then Some NotifyMonitoringReportResponse else
  if String.eqb s "NotifyReport" then Some NotifyReport else
  if String.eqb s "NotifyReportResponse" then Some NotifyReportResponse else
  if String.eqb s "PublishFirmware" then Some PublishFirmware else
  if String.eqb s "PublishFirmwareResponse" then Some PublishFirmwareResponse else
  if String.eqb s "PublishFirmwareStatusNotification" then Some PublishFirmwareStatusNotification else
  if String.eqb s "PublishFirmwareStatusNotificationResponse" then Some PublishFirmwareStatusNotificationResponse else
  if String.eqb s "ReportChargingProfiles" then Some ReportChargingProfiles else
  if String.eqb s "ReportChargingProfilesResponse" then Some ReportChargingProfilesResponse else
  if String.eqb s "RequestStartTransaction" then Some RequestStartTransaction else
  if String.eqb s "RequestStartTransactionResponse" then Some RequestStartTransactionResponse else
  if String.eqb s "RequestStopTransaction" then Some RequestStopTransaction else
  if String.eqb s "RequestStopTransactionResponse" then Some RequestStopTransactionResponse else
  if String.eqb s "ReservationStatusUpdate" then Some ReservationStatusUpdate else
  if String.eqb s "ReservationStatusUpdateResponse" then Some ReservationStatusUpdateResponse else
  if String.eqb s "ReserveNow" then Some ReserveNow else
  if String.eqb s "ReserveNowResponse" then Some ReserveNowResponse else
  if String.eqb s "Reset" then Some Reset else
  if String.eqb s "ResetResponse" then Some ResetResponse else
  if String.eqb s "SecurityEventNotification" then Some SecurityEventNotification else
  if String.eqb s "SecurityEventNotificationResponse" then Some SecurityEventNotificationResponse else
  if String.eqb s "SendLocalList" then Some SendLocalList else
  if String.eqb s "SendLocalListResponse" then Some SendLocalListResponse else
  if String.eqb s "SetChargingProfile" then Some SetChargingProfile else
  if String.eqb s "SetChargingProfileResponse" then Some SetChargingProfileResponse else
  if String.eqb s "SetDisplayMessage" then Some SetDisplayMessage else
  if String.eqb s "SetDisplayMessageResponse" then Some SetDisplayMessageResponse else
  if String.eqb s "SetMonitoringBase" then Some SetMonitoringBase else
  if String.eqb s "SetMonitoringBaseResponse" then Some SetMonitoringBaseResponse else
  if String.eqb s "SetMonitoringLevel" then Some SetMonitoringLevel else
  if String.eqb s "SetMonitoringLevelResponse" then Some SetMonitoringLevelResponse else
  if String.eqb s "SetNetworkProfile" then Some SetNetworkProfile else
  if String.eqb s "SetNetworkProfileResponse" then Some SetNetworkProfileResponse else
  if String.eqb s "SetVariableMonitoring" then Some SetVariableMonitoring else
  if String.eqb s "SetVariableMonitoringResponse" then Some SetVariableMonitoringResponse else
  if String.eqb s "SetVariables" then Some SetVariables else
  if String.eqb s "SetVariablesResponse" then Some SetVariablesResponse else
  if String.eqb s "SignCertificate" then Some SignCertificate else
  if String.eqb s "SignCertificateResponse" then Some SignCertificateResponse else
  if String.eqb s "StatusNotification" then Some StatusNotification else
  if String.eqb s "StatusNotificationResponse" then Some StatusNotificationResponse else
  if String.eqb s "TransactionEvent" then Some TransactionEvent else
  if String.eqb s "TransactionEventResponse" then Some TransactionEventResponse else
  if String.eqb s "TriggerMessage" then Some TriggerMessage else
  if String.eqb s "TriggerMessageResponse" then Some TriggerMessageResponse else
  if String.eqb s "UnlockConnector" then Some UnlockConnector else
  if String.eqb s "UnlockConnectorResponse" then Some UnlockConnectorResponse else
  if String.eqb s "UnpublishFirmware" then Some UnpublishFirmware else
  if String.eqb s "UnpublishFirmwareResponse" then Some UnpublishFirmwareResponse else
  if String.eqb s "UpdateFirmware" then Some UpdateFirmware else
  if String.eqb s "UpdateFirmwareResponse" then Some UpdateFirmwareResponse else
  if String.eqb s "InternalError" then Some InternalError else
  if String.eqb s "AdjustPeriodicEventStream" then Some AdjustPeriodicEventStream else
  if String.eqb s "AdjustPeriodicEventStreamResponse" then Some AdjustPeriodicEventStreamResponse else
  if String.eqb s "AFRRSignal" then Some AFRRSignal else
  if String.eqb s "AFRRSignalResponse" then Some AFRRSignalResponse else
  if String.eqb s "BatterySwap" then Some BatterySwap else
  if String.eqb s "BatterySwapResponse" then Some BatterySwapResponse else
  if String.eqb s "ChangeTransactionTariff" then Some ChangeTransactionTariff else
  if String.eqb s "ChangeTransactionTariffResponse" then Some ChangeTransactionTariffResponse else
  if String.eqb s "ClearDERControl" then Some ClearDERControl else
  if String.eqb s "ClearDERControlResponse" then Some ClearDERControlResponse else
  if String.eqb s "ClearTariffs" then Some ClearTariffs else
  if String.eqb s "ClearTariffsResponse" then Some ClearTariffsResponse else
  if String.eqb s "ClosePeriodicEventStream" then Some ClosePeriodicEventStream else
  if String.eqb s "ClosePeriodicEventStreamResponse" then Some ClosePeriodicEventStreamResponse else
  if String.eqb s "GetCRL" then Some GetCRL else
  if String.eqb s "GetCRLResponse" then Some GetCRLResponse else
  if String.eqb s "GetDERControl" then Some GetDERControl else
  if String.eqb s "GetDERControlResponse" then Some GetDERControlResponse else
  if String.eqb s "GetPeriodicEventStream" then Some GetPeriodicEventStream else
  if String.eqb s "GetPeriodicEventStreamResponse" then Some GetPeriodicEventStreamResponse else
  if String.eqb s "GetTariffs" then Some GetTariffs else
  if String.eqb s "GetTariffsResponse" then Some GetTariffsResponse else
  if String.eqb s "NotifyAllowedEnergyTransfer" then Some NotifyAllowedEnergyTransfer else
  if String.eqb s "NotifyAllowedEnergyTransferResponse" then Some NotifyAllowedEnergyTransferResponse else
  if String.eqb s "NotifyDERAlarm" then Some NotifyDERAlarm else
  if String.eqb s "NotifyDERAlarmResponse" then Some NotifyDERAlarmResponse else
  if String.eqb s "NotifyDERStartStop" then Some NotifyDERStartStop else
  if String.eqb s "NotifyDERStartStopResponse" then Some NotifyDERStartStopResponse else
  if String.eqb s "NotifyPeriodicEventStream" then Some NotifyPeriodicEventStream else
  if String.eqb s "NotifyPeriodicEventStreamResponse" then Some NotifyPeriodicEventStreamResponse else
  if String.eqb s "NotifyPriorityCharging" then Some NotifyPriorityCharging else
  if String.eqb s "NotifyPriorityChargingResponse" then Some NotifyPriorityChargingResponse else
  if String.eqb s "NotifySettlement" then Some NotifySettlement else
  if String.eqb s "NotifySettlementResponse" then Some NotifySettlementResponse else
  if String.eqb s "OpenPeriodicEventStream" then Some OpenPeriodicEventStream else
  if String.eqb s "OpenPeriodicEventStreamResponse" then Some OpenPeriodicEventStreamResponse else
  if String.eqb s "PullDynamicScheduleUpdate" then Some PullDynamicScheduleUpdate else
  if String.eqb s "PullDynamicScheduleUpdateResponse" then Some PullDynamicScheduleUpdateResponse else
  if String.eqb s "ReportDERControl" then Some ReportDERControl else
  if String.eqb s "ReportDERControlResponse" then Some ReportDERControlResponse else
  if String.eqb s "RequestBatterySwap" then Some RequestBatterySwap else
  if String.eqb s "RequestBatterySwapResponse" then Some RequestBatterySwapResponse else
  if String.eqb s "SetDefaultTariff" then Some SetDefaultTariff else
  if String.eqb s "SetDefaultTariffResponse" then Some SetDefaultTariffResponse else
  if String.eqb s "SetDERControl" then Some SetDERControl else
  if String.eqb s "SetDERControlResponse" then Some SetDERControlResponse else
  if String.eqb s "UpdateDynamicSchedule" then Some UpdateDynamicSchedule else
  if String.eqb s "UpdateDynamicScheduleResponse" then Some UpdateDynamicScheduleResponse else
  if String.eqb s "UsePriorityCharging" then Some UsePriorityCharging else
  if String.eqb s "UsePriorityChargingResponse" then Some UsePriorityChargingResponse else
  if String.eqb s "VatNumberValidation" then Some VatNumberValidation else
  if String.eqb s "VatNumberValidationResponse" then Some VatNumberValidationResponse else
  None.

(** Here every type is recognised by its name. *)
Lemma messagetype_roundtrip_v2 m : string_to_messagetype (messagetype_to_string m) = Some m.
Proof. destruct m; vm_compute; reflexivity. Qed.

#[export] Instance messagetype_to_string_inj_v2 : Inj (=) (=) messagetype_to_string.
Proof. intros m n E. apply (f_equal string_to_messagetype) in E. rewrite !messagetype_roundtrip_v2 in E. congruence. Qed.

#[global] Instance MessageType_eq_dec : EqDecision MessageType.
Proof.
  refine (λ m n, cast_if (String.string_dec (messagetype_to_string m) (messagetype_to_string n)));
    abstract (naive_solver eauto using messagetype_to_string_inj_v2).
Defined.

End V2.
