(* ===== verification/Json.v ===== *)
(** * JSON values and the nesting check

    The values the message queue handles ([nlohmann::json], used through the member
    functions below) and [exceeds_json_nesting_depth] of
    [src/lib/everest/util/include/everest/util/json/nesting_depth.hpp], which every
    received text passes before it is parsed.  Parsing itself is the library's; the
    grammar of RFC 8259 below only says what it accepts. *)

From S2P Require Import Prelude.
From Stdlib Require Import Strings.Ascii Strings.String QArith.
#[local] Open Scope string_scope.
#[local] Open Scope list_scope.
#[local] Open Scope Z_scope.

Module Json.

(** A number is its value: [json] compares integers and floats by value. *)
Inductive json :=
| JNull
| JBool (b : bool)
| JNumber (q : Q)
| JString (s : string)
| JArray (l : list json)
| JObject (members : list (string * json)).

(** [is_object], [get<std::string>], [get<json::array_t>], [at(index)] (which throws
    out of range), and [j == number]. *)
Definition is_object (j : json) : bool := match j with JObject _ => true | _ => false end.
Definition get_string (j : json) : option string := match j with JString s => Some s | _ => None end.
Definition get_array (j : json) : option (list json) := match j with JArray l => Some l | _ => None end.
Definition at_index (j : json) (i : nat) : option json := get_array j ≫= λ l, l !! i.
Definition equals_int (j : json) (z : Z) : bool :=
  match j with JNumber q => Qeq_bool q (inject_Z z) | _ => false end.

(** [j[key] = v] on an object, whose members [std::map] keeps in key order, or on
    null, which becomes an object; other values throw. *)
Fixpoint members_set (key : string) (v : json) (ms : list (string * json)) : list (string * json) :=
  match ms with
  | [] => [(key, v)]
  | (k, w) :: ms' =>
      if String.eqb k key then (key, v) :: ms'
      else if String.ltb key k then (key, v) :: ms
      else (k, w) :: members_set key v ms'
  end.

Definition set_member (j : json) (key : string) (v : json) : option json :=
  match j with
  | JObject ms => Some (JObject (members_set key v ms))
  | JNull => Some (JObject [(key, v)])
  | _ => None
  end.

Fixpoint members_get (key : string) (ms : list (string * json)) : option json :=
  match ms with
  | [] => None
  | (k, w) :: ms' => if String.eqb k key then Some w else members_get key ms'
  end.

Definition get_member (j : json) (key : string) : option json :=
  match j with JObject ms => members_get key ms | _ => None end.

Lemma get_set_member j key v j' : set_member j key v = Some j' → get_member j' key = Some v.
Proof.
  destruct j as [| | | | |ms]; cbn; try done; intros [= <-]; cbn; [by rewrite String.eqb_refl|].
  induction ms as [|[k w] ms IH]; cbn; [by rewrite String.eqb_refl|].
  destruct (String.eqb k key) eqn:E; cbn; [by rewrite String.eqb_refl|].
  destruct (String.ltb key k); cbn; [by rewrite String.eqb_refl|]. by rewrite E.
Qed.

(** ** The nesting check *)
Definition quote : ascii := "034"%char.
Definition backslash : ascii := "\"%char.
Definition opens (c : ascii) : bool := Ascii.eqb c "[" || Ascii.eqb c "{".
Definition closes (c : ascii) : bool := Ascii.eqb c "]" || Ascii.eqb c "}".

(** The loop over the characters with its three local variables. *)
Fixpoint scan (payload : list ascii) (max_depth depth : nat) (in_string escaped : bool) : bool :=
  match payload with
  | [] => false
  | c :: rest =>
      if in_string then
        if escaped then scan rest max_depth depth true false
        else if Ascii.eqb c backslash then scan rest max_depth depth true true
        else if Ascii.eqb c quote then scan rest max_depth depth false escaped
        else scan rest max_depth depth true escaped
      else if Ascii.eqb c quote then scan rest max_depth depth true escaped
      else if opens c then
        if (max_depth <? S depth)%nat then true
        else scan rest max_depth (S depth) false escaped
      else if closes c then
        scan rest max_depth (if (0 <? depth)%nat then depth - 1 else depth)%nat false escaped
      else scan rest max_depth depth false escaped
  end.

Definition exceeds_json_nesting_depth (payload : list ascii) (max_depth : nat) : bool :=
  scan payload max_depth 0 false false.

(** ** The grammar of JSON texts

    [value d t]: [t] is a JSON text whose arrays and objects nest [d] deep.  Numbers
    are any run of the characters a number may have. *)
Definition is_ws (c : ascii) : Prop := c ∈ [" "%char; "009"%char; "010"%char; "013"%char].
Definition number_char (c : ascii) : Prop := c ∈ list_ascii_of_string "0123456789+-.eE".

Inductive string_body : list ascii → Prop :=
| sb_nil : string_body []
| sb_char c t : c ≠ quote → c ≠ backslash → string_body t → string_body (c :: t)
| sb_escape c t : string_body t → string_body (backslash :: c :: t).

Inductive value : nat → list ascii → Prop :=
| v_literal t : t ∈ list_ascii_of_string <$> ["null"; "true"; "false"] → value 0 t
| v_number t : Forall number_char t → value 0 t
| v_string b : string_body b → value 0 (quote :: b ++ [quote])
| v_empty_array w : Forall is_ws w → value 1 ("["%char :: w ++ ["]"%char])
| v_array d t : elements d t → value (S d) ("["%char :: t ++ ["]"%char])
| v_empty_object w : Forall is_ws w → value 1 ("{"%char :: w ++ ["}"%char])
| v_object d t : object_members d t → value (S d) ("{"%char :: t ++ ["}"%char])
with elements : nat → list ascii → Prop :=
| e_one d w1 v w2 : Forall is_ws w1 → value d v → Forall is_ws w2 → elements d (w1 ++ v ++ w2)
| e_more d d' w1 v w2 t : Forall is_ws w1 → value d v → Forall is_ws w2 → elements d' t →
    elements (d `max` d') (w1 ++ v ++ w2 ++ ","%char :: t)
with object_members : nat → list ascii → Prop :=
| m_one d w1 k w2 w3 v w4 : Forall is_ws w1 → string_body k → Forall is_ws w2 → Forall is_ws w3 →
    value d v → Forall is_ws w4 →
    object_members d (w1 ++ (quote :: k ++ [quote]) ++ w2 ++ ":"%char :: w3 ++ v ++ w4)
| m_more d d' w1 k w2 w3 v w4 t : Forall is_ws w1 → string_body k → Forall is_ws w2 →
    Forall is_ws w3 → value d v → Forall is_ws w4 → object_members d' t →
    object_members (d `max` d') (w1 ++ (quote :: k ++ [quote]) ++ w2 ++ ":"%char :: w3 ++ v ++ w4 ++ ","%char :: t).

Scheme value_mind := Induction for value Sort Prop
  with elements_mind := Induction for elements Sort Prop
  with members_mind := Induction for object_members Sort Prop.
Combined Scheme json_text_ind from value_mind, elements_mind, members_mind.

(** [passes m d t]: from any depth that leaves room for [d] levels the scan runs over
    [t] without a trace, and otherwise it stops there. *)
Definition passes (m d : nat) (t : list ascii) : Prop :=
  ∀ k rest, (k ≤ m)%nat →
    scan (t ++ rest) m k false false =
    if (k + d <=? m)%nat then scan rest m k false false else true.

Lemma passes_nil m : passes m 0 [].
Proof. intros k rest Hk. cbn. by rewrite (proj2 (Nat.leb_le _ _)) by lia. Qed.

Lemma passes_app m d1 d2 t1 t2 : passes m d1 t1 → passes m d2 t2 → passes m (d1 `max` d2) (t1 ++ t2).
Proof.
  intros H1 H2 k rest Hk. rewrite <- app_assoc, H1 by done.
  destruct (Nat.leb_spec (k + d1) m), (Nat.leb_spec (k + d1 `max` d2) m); try done; try lia;
    rewrite H2 by done; destruct (Nat.leb_spec (k + d2) m); done || lia.
Qed.

Definition plain (c : ascii) : bool := negb (Ascii.eqb c quote || opens c || closes c).

Lemma passes_plain m t : Forall (λ c, plain c = true) t → passes m 0 t.
Proof.
  induction 1 as [|c t Hc _ IH]; [apply passes_nil|]. intros k rest Hk. cbn [app scan].
  unfold plain in Hc. apply negb_true_iff, orb_false_elim in Hc as [[-> ->]%orb_false_elim ->].
  by apply IH.
Qed.

Lemma passes_string m b : string_body b → passes m 0 (quote :: b ++ [quote]).
Proof.
  intros Hb k rest Hk. rewrite Nat.add_0_r, (proj2 (Nat.leb_le _ _) Hk).
  change (scan ((b ++ [quote]) ++ rest) m k true false = scan rest m k false false).
  induction Hb as [|c t Hq Hs _ IH|c t _ IH]; cbn [app scan]; [done| |].
  - apply Ascii.eqb_neq in Hq, Hs. by rewrite Hs, Hq.
  - by rewrite Ascii.eqb_refl.
Qed.

Lemma passes_bracket m d t o c :
  opens o = true → Ascii.eqb o quote = false → closes c = true → opens c = false →
  Ascii.eqb c quote = false → passes m d t → passes m (S d) (o :: t ++ [c]).
Proof.
  intros Ho Hoq Hc Hco Hcq Ht k rest Hk. cbn [app scan]. rewrite Hoq, Ho.
  destruct (Nat.ltb_spec m (S k)) as [Hm|Hm].
  - by destruct (Nat.leb_spec (k + S d) m); [lia|].
  - rewrite <- app_assoc, Ht by lia. rewrite (Nat.add_succ_r k d). cbn [Nat.add app scan].
    destruct (S (k + d) <=? m)%nat; [|done]. rewrite Hcq, Hco, Hc. do 2 f_equal. cbn. lia.
Qed.

Lemma ws_plain w : Forall is_ws w → Forall (λ c, plain c = true) w.
Proof.
  intros H. apply (Forall_impl _ _ _ H). intros c. unfold is_ws. rewrite !elem_of_cons, elem_of_nil. naive_solver.
Qed.

Lemma number_plain w : Forall number_char w → Forall (λ c, plain c = true) w.
Proof.
  intros H. apply (Forall_impl _ _ _ H). intros c. unfold number_char. cbn. rewrite !elem_of_cons, elem_of_nil.
  naive_solver.
Qed.

(** Sequences of parts, with the zero depth of the separators absorbed. *)
Lemma passes_ws m d w t : Forall is_ws w → passes m d t → passes m d (w ++ t).
Proof. intros Hw Ht. by apply (passes_app m 0 d); [apply passes_plain, ws_plain|]. Qed.
Lemma passes_ws_r m d w t : passes m d t → Forall is_ws w → passes m d (t ++ w).
Proof. intros Ht Hw. rewrite <- (Nat.max_0_r d). by apply passes_app; [|apply passes_plain, ws_plain]. Qed.
Lemma passes_sep m d c t : plain c = true → passes m d t → passes m d (c :: t).
Proof. intros Hc Ht. apply (passes_app m 0 d [c]); [apply passes_plain; by constructor|done]. Qed.
Lemma passes_key m d k t : string_body k → passes m d t → passes m d ((quote :: k ++ [quote]) ++ t).
Proof. intros Hk Ht. by apply (passes_app m 0 d); [apply passes_string|]. Qed.

Lemma texts_pass m :
  (∀ d t, value d t → passes m d t) ∧ (∀ d t, elements d t → passes m d t) ∧
  (∀ d t, object_members d t → passes m d t).
Proof.
  apply json_text_ind; intros.
  - apply passes_plain. cbn in e.
    repeat (apply elem_of_cons in e as [->|e]; [by repeat constructor|]). by apply elem_of_nil in e.
  - by apply passes_plain, number_plain.
  - by apply passes_string.
  - apply passes_bracket; try done. by apply passes_plain, ws_plain.
  - by apply passes_bracket.
  - apply passes_bracket; try done. by apply passes_plain, ws_plain.
  - by apply passes_bracket.
  - by apply passes_ws, passes_ws_r.
  - rewrite (app_assoc v w2), (app_assoc w1).
    apply passes_app; [by apply passes_ws, passes_ws_r|by apply passes_sep].
  - apply passes_ws, passes_key, passes_ws, passes_sep, passes_ws, passes_ws_r; done.
  - replace (w1 ++ _) with
      ((w1 ++ (quote :: k ++ [quote]) ++ w2 ++ ":"%char :: w3 ++ v ++ w4) ++ ","%char :: t)
      by (repeat progress (rewrite <- ?app_assoc; cbn); done).
    apply passes_app; [|by apply passes_sep].
    apply passes_ws, passes_key, passes_ws, passes_sep, passes_ws, passes_ws_r; done.
Qed.

(** C31: the nesting check of received texts is exact on every JSON text: it rejects
    the text exactly when its arrays and objects nest deeper than allowed, whatever
    brackets, quotes and escapes the strings contain. *)
Theorem nesting_check_exact d t w1 w2 max_depth :
  Forall is_ws w1 → value d t → Forall is_ws w2 →
  exceeds_json_nesting_depth (w1 ++ t ++ w2) max_depth = true ↔ (max_depth < d)%nat.
Proof.
  intros H1 Ht H2. unfold exceeds_json_nesting_depth.
  assert (passes max_depth d (w1 ++ t ++ w2)) as Hp
    by (apply passes_ws; [done|]; apply passes_ws_r; [exact (proj1 (texts_pass _) _ _ Ht)|done]).
  specialize (Hp 0%nat []). rewrite app_nil_r in Hp. rewrite Hp by lia. cbn.
  destruct (Nat.leb_spec d max_depth); split; intros; try done; lia.
Qed.

(** An array that holds an object with a bracket and an escaped quote in a key. *)
Definition nested_text : list ascii := list_ascii_of_string "[{"
  ++ (quote :: (backslash :: quote :: list_ascii_of_string "]]") ++ [quote])
  ++ list_ascii_of_string ":1}]".

Lemma nested_text_value : value 2 nested_text.
Proof.
  pose (key := backslash :: quote :: list_ascii_of_string "]]").
  assert (object_members 0 ([] ++ (quote :: key ++ [quote]) ++ [] ++ ":"%char :: [] ++ ["1"%char] ++ [])) as Ho
    by (apply m_one; repeat constructor; try done; apply v_number; repeat constructor; set_solver).
  pose proof (e_one _ [] _ [] (List.Forall_nil _) (v_object _ _ Ho) (List.Forall_nil _)) as He.
  exact (v_array _ _ He).
Qed.

Lemma nesting_check_exact_witness :
  exceeds_json_nesting_depth ([" "%char] ++ nested_text ++ []) 1 = true ↔ (1 < 2)%nat.
Proof.
  apply (nesting_check_exact 2 nested_text [" "%char] [] 1).
  - repeat constructor.
  - exact nested_text_value.
  - constructor.
Defined.

End Json.
