(* ===== verification/MessageQueue.v ===== *)
(** * The OCPP message queue

    Models [MessageQueue<M>] of
    [src/lib/everest/ocpp/include/ocpp/common/message_queue.hpp] with its
    specialisations ([lib/ocpp/v16/message_queue.cpp], [lib/ocpp/v2/message_queue.cpp])
    and the message tables of [lib/ocpp/common/database/database_handler_common.cpp].

    A [ControlMessage] is shared between a queue and [in_flight]; its identity is the
    field [ref], given out in the order in which messages enter the queue.  The state
    of its [std::promise] is the field [promise].  What the code asks its surroundings
    (the clock, the SQLite statements and the order of their rows, the socket, the
    generator of message ids, the JSON parser) is the class [Environment]: the [k]-th question is answered by the
    functions of the class at [k].  A critical section of [message_mutex] is one
    operation; [stop] and an idle action have two. *)

From S2P Require Import Prelude CiString Json MessageTypes.
From Stdlib Require Import Strings.Ascii Strings.String.
#[local] Open Scope string_scope.
#[local] Open Scope list_scope.
#[local] Open Scope Z_scope.

#[local] Notation length := Datatypes.length.

Module MessageQueue.
Import Json CiString.

(** ** Exceptions *)
Inductive exn :=
| MalformedRpcMessage
| JsonException
| StringToEnumException
| MessageIdTooLong
| FutureError
| QueryExecutionException.

(** ** Messages

    The positions in the message array. *)
Definition MESSAGE_TYPE_ID : nat := 0.
Definition MESSAGE_ID : nat := 1.
Definition CALL_ACTION : nat := 2.
Definition CALL_PAYLOAD : nat := 3.
Definition CALLRESULT_PAYLOAD : nat := 2.

Inductive MessageTypeId := CALL | CALLRESULT | CALLERROR | UNKNOWN.

Definition MessageTypeId_value (t : MessageTypeId) : Z :=
  match t with CALL => 2 | CALLRESULT => 3 | CALLERROR => 4 | UNKNOWN => 5 end.

(** [Call::to_json]: the message array of a call. *)
Definition Call_to_json (uniqueId action : string) (payload : json) : json :=
  JArray [JNumber (QArith_base.inject_Z (MessageTypeId_value CALL)); JString uniqueId; JString action; payload].

(** [MessageId] is [CiString<36>]; its constructor and [from_json]. *)
Definition MessageId_of_string (s : string) : outcome exn string :=
  match CiString_new 36 s TooLargeThrow with
  | Ret t => Ret t
  | _ => Throw MessageIdTooLong
  end.

Definition string_of_json (j : json) : outcome exn string :=
  match get_string j with Some s => Ret s | None => Throw JsonException end.

Definition MessageId_of_json (j : json) : outcome exn string :=
  s ← string_of_json j; MessageId_of_string s.

(** [at(i)] of an array. *)
Definition array_at (l : list json) (i : nat) : outcome exn json :=
  match l !! i with Some j => Ret j | None => Throw JsonException end.

(** What the queue asks about the message type [M] (the free functions and template
    specialisations for [v16::MessageType] and [v2::MessageType]). *)
Class MessageKind (M : Type) := {
  M_eq_dec :: EqDecision M;
  BootNotification : M;
  InternalError : M;
  string_to_messagetype : string → option M;
  messagetype_to_string : M → string;
  is_transaction_message : M → bool;
  is_start_transaction_message : M → bool;
  is_boot_notification_message : M → bool;
  is_transaction_update : M → list json → outcome exn bool;
}.

(** The name of a type is not the name of another one, and a type that was recognised
    is recognised by its name. *)
Class MessageKindLaws (M : Type) `{MessageKind M} : Prop := {
  messagetype_of_name (t t' : M) : string_to_messagetype (messagetype_to_string t) = Some t' → t' = t;
  messagetype_recognised a (t : M) :
    string_to_messagetype a = Some t → string_to_messagetype (messagetype_to_string t) = Some t;
}.

Inductive QueueType := Normal | Transaction.

(** A row of the tables of queued messages. *)
Record DBTransactionMessage := {
  db_json_message : json;
  db_message_type : string;
  db_message_attempts : Z;
  db_timestamp : Z;
  db_unique_id : string;
}.

(** The surroundings of the queue.  The query for the rows of a table has no ORDER BY:
    they come in some order. *)
Class Environment := {
  env_now : nat → Z;
  env_db_ok : nat → bool;
  env_order : nat → list DBTransactionMessage → list DBTransactionMessage;
  env_order_perm k l : env_order k l ≡ₚ l;
  env_send_ok : nat → bool;
  env_message_id : nat → string;
  env_parse : string → option json;
}.

Section queue.
Context {M : Type} `{MK : MessageKind M} `{ENV : Environment}.

Record MessageQueueConfig := {
  transaction_message_attempts : Z;
  transaction_message_retry_interval : Z;
  queues_total_size_threshold : Z;
  queue_all_messages : bool;
  message_types_discard_for_queueing : list M;
  message_timeout_seconds : Z;
  boot_notification_retry_interval_seconds : Z;
}.

Definition check_queue (config : MessageQueueConfig) (message_type : M) : bool :=
  queue_all_messages config && negb (bool_decide (message_type ∈ message_types_discard_for_queueing config)).

Record EnhancedMessage := {
  em_message : json;
  em_message_size : nat;
  em_uniqueId : string;
  em_messageType : M;
  em_messageTypeId : MessageTypeId;
  em_call_message : json;
  em_offline : bool;
}.

(** [EnhancedMessage<M>()] and the one that reports a lost connection. *)
Definition EnhancedMessage_default : EnhancedMessage :=
  {| em_message := JNull; em_message_size := 0; em_uniqueId := EmptyString; em_messageType := InternalError;
     em_messageTypeId := UNKNOWN; em_call_message := JNull; em_offline := false |}.
Definition EnhancedMessage_offline : EnhancedMessage :=
  {| em_message := JNull; em_message_size := 0; em_uniqueId := EmptyString; em_messageType := InternalError;
     em_messageTypeId := UNKNOWN; em_call_message := JNull; em_offline := true |}.

Record ControlMessage := {
  ref : nat;
  message : list json;
  messageType : M;
  message_attempts : Z;
  promise : option EnhancedMessage;
  timestamp : Z;
  initial_unique_id : string;
  stall_until_accepted : bool;
}.

(** The constructor, at time [now]. *)
Definition ControlMessage_new (r : nat) (now : Z) (j : json) (stall : bool) : outcome exn ControlMessage :=
  match get_array j with
  | None => Throw JsonException
  | Some a =>
      action ← (jaction ← array_at a CALL_ACTION; string_of_json jaction);
      match string_to_messagetype action with
      | None => Throw StringToEnumException
      | Some t =>
          match a !! MESSAGE_ID with
          | None => Undef
          | Some jid =>
              mid ← MessageId_of_json jid;
              Ret {| ref := r; message := a; messageType := t; message_attempts := 0;
                     promise := None; timestamp := now; initial_unique_id := mid;
                     stall_until_accepted := stall |}
          end
      end
  end.

Definition uniqueId (m : ControlMessage) : outcome exn string :=
  match message m !! MESSAGE_ID with
  | None => Undef
  | Some j => MessageId_of_json j
  end.

Definition is_transaction_update_message (m : ControlMessage) : outcome exn bool :=
  is_transaction_update (messageType m) (message m).

(** Assignments to members of a message. *)
Definition with_message (m : ControlMessage) (a : list json) : ControlMessage :=
  {| ref := ref m; message := a; messageType := messageType m; message_attempts := message_attempts m;
     promise := promise m; timestamp := timestamp m; initial_unique_id := initial_unique_id m;
     stall_until_accepted := stall_until_accepted m |}.
Definition with_timestamp (m : ControlMessage) (t : Z) : ControlMessage :=
  {| ref := ref m; message := message m; messageType := messageType m; message_attempts := message_attempts m;
     promise := promise m; timestamp := t; initial_unique_id := initial_unique_id m;
     stall_until_accepted := stall_until_accepted m |}.
Definition with_attempts (m : ControlMessage) (n : Z) : ControlMessage :=
  {| ref := ref m; message := message m; messageType := messageType m; message_attempts := n;
     promise := promise m; timestamp := timestamp m; initial_unique_id := initial_unique_id m;
     stall_until_accepted := stall_until_accepted m |}.
Definition with_promise (m : ControlMessage) (p : EnhancedMessage) : ControlMessage :=
  {| ref := ref m; message := message m; messageType := messageType m; message_attempts := message_attempts m;
     promise := Some p; timestamp := timestamp m; initial_unique_id := initial_unique_id m;
     stall_until_accepted := stall_until_accepted m |}.
Definition with_persisted (m : ControlMessage) (t : M) (time attempts : Z) : ControlMessage :=
  {| ref := ref m; message := message m; messageType := t; message_attempts := attempts;
     promise := promise m; timestamp := time; initial_unique_id := initial_unique_id m;
     stall_until_accepted := stall_until_accepted m |}.

Inductive MessageTransmissionPriority :=
| SendImmediately | SendAfterRegistrationStatusAccepted | Discard.

Definition get_message_transmission_priority
    (is_boot triggered registration_already_accepted is_transaction_related queue_all_message
     queue_until_accepted : bool) : MessageTransmissionPriority :=
  if registration_already_accepted || is_boot || triggered then SendImmediately
  else if is_transaction_related || queue_all_message || queue_until_accepted
  then SendAfterRegistrationStatusAccepted
  else Discard.

Definition allowed_to_send_message (m : ControlMessage) (time : Z) (accepted : bool) : bool :=
  if stall_until_accepted m && negb accepted then false
  else if (timestamp m >? time)%Z then false
  else true.

(** ** The object *)
(** Where the worker thread is: at the wait, inside an idle action (with the local
    variables it continues with), or past the loop. *)
Inductive worker_pos :=
| Waiting
| InAction (paused_for_action : bool) (pause_resume_ctr_before : Z)
| Finished.

Record Queue := {
  config : MessageQueueConfig;
  transaction_rows : list DBTransactionMessage;
  normal_rows : list DBTransactionMessage;
  transaction_message_queue : list ControlMessage;
  normal_message_queue : list ControlMessage;
  in_flight : option ControlMessage;
  external_notify : list M;
  paused : bool;
  resuming : bool;
  idle_actions : list nat;
  running : bool;
  new_message : bool;
  is_registration_status_accepted : bool;
  next_message_to_send : option string;
  in_flight_timeout_timer : option (nat * string);
  notify_queue_timer : option Z;
  resume_timer : option Z;
  pause_resume_ctr : Z;
  message_id_transaction_id_map : gmap string Z;
  start_transaction_mid_meter_values_mid_map : gmap string (list string);
  worker : worker_pos;
  next_ref : nat;
  asked : nat;
}.

Definition eta (q : Queue) : Queue :=
  {| config := config q; transaction_rows := transaction_rows q; normal_rows := normal_rows q;
     transaction_message_queue := transaction_message_queue q;
     normal_message_queue := normal_message_queue q; in_flight := in_flight q;
     external_notify := external_notify q; paused := paused q; resuming := resuming q;
     idle_actions := idle_actions q; running := running q; new_message := new_message q;
     is_registration_status_accepted := is_registration_status_accepted q;
     next_message_to_send := next_message_to_send q;
     in_flight_timeout_timer := in_flight_timeout_timer q;
     notify_queue_timer := notify_queue_timer q; resume_timer := resume_timer q;
     pause_resume_ctr := pause_resume_ctr q;
     message_id_transaction_id_map := message_id_transaction_id_map q;
     start_transaction_mid_meter_values_mid_map := start_transaction_mid_meter_values_mid_map q;
     worker := worker q; next_ref := next_ref q; asked := asked q |}.

Definition set_config v q : Queue := ltac:(set_field eta config v q).
Definition set_transaction_rows v q : Queue := ltac:(set_field eta transaction_rows v q).
Definition set_normal_rows v q : Queue := ltac:(set_field eta normal_rows v q).
Definition set_transaction_message_queue v q : Queue := ltac:(set_field eta transaction_message_queue v q).
Definition set_normal_message_queue v q : Queue := ltac:(set_field eta normal_message_queue v q).
Definition set_in_flight v q : Queue := ltac:(set_field eta in_flight v q).
Definition set_paused v q : Queue := ltac:(set_field eta paused v q).
Definition set_resuming v q : Queue := ltac:(set_field eta resuming v q).
Definition set_idle_actions v q : Queue := ltac:(set_field eta idle_actions v q).
Definition set_running v q : Queue := ltac:(set_field eta running v q).
Definition set_new_message v q : Queue := ltac:(set_field eta new_message v q).
Definition set_accepted v q : Queue := ltac:(set_field eta is_registration_status_accepted v q).
Definition set_next_message_to_send v q : Queue := ltac:(set_field eta next_message_to_send v q).
Definition set_in_flight_timer v q : Queue := ltac:(set_field eta in_flight_timeout_timer v q).
Definition set_notify_timer v q : Queue := ltac:(set_field eta notify_queue_timer v q).
Definition set_resume_timer v q : Queue := ltac:(set_field eta resume_timer v q).
Definition set_ctr v q : Queue := ltac:(set_field eta pause_resume_ctr v q).
Definition set_transaction_ids v q : Queue := ltac:(set_field eta message_id_transaction_id_map v q).
Definition set_meter_value_ids v q : Queue :=
  ltac:(set_field eta start_transaction_mid_meter_values_mid_map v q).
Definition set_worker v q : Queue := ltac:(set_field eta worker v q).
Definition set_next_ref v q : Queue := ltac:(set_field eta next_ref v q).
Definition set_asked v q : Queue := ltac:(set_field eta asked v q).

(** Calls to the outside: a message handed to the socket (a call of the queue with
    whether the socket took it, or an answer), a promise fulfilled, the retry
    callback, a wake-up of the worker, an idle action started. *)
Inductive output :=
| SendCall (m : ControlMessage) (sent : bool)
| SendAnswer (j : json)
| PromiseSet (m : ControlMessage) (e : EnhancedMessage)
| RetryCallback (new_message_id old_message_id : string)
| NotifyWorker
| RunAction (action : nat).

Notation op := (cmd Queue output exn).

(** Questions to the environment. *)
Definition ask {A} (f : nat → A) : op A :=
  q ← cget;
  cmodify (set_asked (S (asked q)));;
  mret (f (asked q)).

Definition DateTime_now : op Z := ask env_now.
Definition create_message_id : op string := ask env_message_id.

Definition new_ref : op nat :=
  q ← cget;
  cmodify (set_next_ref (S (next_ref q)));;
  mret (next_ref q).

(** ** The message tables *)
Definition rows (t : QueueType) (q : Queue) : list DBTransactionMessage :=
  match t with Normal => normal_rows q | Transaction => transaction_rows q end.
Definition set_rows (t : QueueType) (l : list DBTransactionMessage) (q : Queue) : Queue :=
  match t with Normal => set_normal_rows l q | Transaction => set_transaction_rows l q end.

(** [to_rfc3339] writes milliseconds; a read gives the time back cut to them. *)
Definition to_millis (t : Z) : Z := Z.quot t 1000000 * 1000000.

(** The primary key refuses a second row with the same id. *)
Definition insert_message_queue_message (m : DBTransactionMessage) (t : QueueType) : op () :=
  ok ← ask env_db_ok;
  q ← cget;
  if negb ok || bool_decide (db_unique_id m ∈ db_unique_id <$> rows t q)
  then cthrow QueryExecutionException
  else cmodify (set_rows t (rows t q ++
    [{| db_json_message := db_json_message m; db_message_type := db_message_type m;
        db_message_attempts := db_message_attempts m; db_timestamp := to_millis (db_timestamp m);
        db_unique_id := db_unique_id m |}])).

Definition remove_message_queue_message (unique_id : string) (t : QueueType) : op () :=
  ok ← ask env_db_ok;
  q ← cget;
  if ok : bool then cmodify (set_rows t (list_filter (λ r, db_unique_id r ≠ unique_id) _ (rows t q)))
  else cthrow QueryExecutionException.

Definition get_message_queue_messages (t : QueueType) : op (list DBTransactionMessage) :=
  ok ← ask env_db_ok;
  q ← cget;
  if ok : bool then mret (env_order (asked q) (rows t q)) else cthrow QueryExecutionException.

Definition clear_message_queue (t : QueueType) : op () :=
  ok ← ask env_db_ok;
  if ok : bool then cmodify (set_rows t []) else cthrow QueryExecutionException.

(** [catch (const QueryExecutionException&)] that logs. *)
Definition try_db (m : op ()) : op () :=
  ccatch m (λ x, match x with QueryExecutionException => Some (mret tt) | _ => None end).

Definition db_message_of (m : ControlMessage) : outcome exn DBTransactionMessage :=
  mid ← uniqueId m;
  Ret {| db_json_message := JArray (message m); db_message_type := messagetype_to_string (messageType m);
         db_message_attempts := message_attempts m; db_timestamp := timestamp m; db_unique_id := mid |}.

(** ** Reading a message *)
Definition getMessageId (a : list json) : outcome exn string :=
  if (length a <? 2)%nat then Throw MalformedRpcMessage
  else (j ← array_at a MESSAGE_ID; s ← string_of_json j; MessageId_of_string s).

Definition getMessageTypeId (a : list json) : MessageTypeId :=
  match a with
  | [] => UNKNOWN
  | messageTypeId :: _ =>
      if equals_int messageTypeId (MessageTypeId_value CALL) then CALL
      else if equals_int messageTypeId (MessageTypeId_value CALLRESULT) then CALLRESULT
      else if equals_int messageTypeId (MessageTypeId_value CALLERROR) then CALLERROR
      else UNKNOWN
  end.

Definition isValidMessageType (a : list json) : bool :=
  match getMessageTypeId a with UNKNOWN => false | _ => true end.

(** ** Dropping messages when the queues are too long *)
Definition total_size (q : Queue) : Z :=
  Z.of_nat (length (transaction_message_queue q)) + Z.of_nat (length (normal_message_queue q)).

(** [size_t] is compared with the [int] threshold, which is converted to [size_t]. *)
Definition threshold (q : Queue) : Z := queues_total_size_threshold (config q) mod 2 ^ 64.

(** The loop of [drop_messages_from_normal_message_queue]: [kept] are the messages
    before the iterator, the list those from it on. *)
Fixpoint drop_normal (n : nat) (kept l : list ControlMessage) : op () :=
  match n, l with
  | O, _ | _, [] => mret tt
  | S n', m :: l' =>
      if is_boot_notification_message (messageType m) then drop_normal n (kept ++ [m]) l'
      else
        (q ← cget;
         cwhen (queue_all_messages (config q))
           (try_db (remove_message_queue_message (initial_unique_id m) Normal)));;
        cmodify (set_normal_message_queue (kept ++ l'));;
        drop_normal n' kept l'
  end.

Definition drop_messages_from_normal_message_queue : op () :=
  q ← cget;
  let n := Z.min (Z.of_nat (length (normal_message_queue q)))
                 (Z.max (Z.quot (queues_total_size_threshold (config q)) 10) 1) in
  drop_normal (Z.to_nat n) [] (normal_message_queue q).

(** The loop of [drop_update_messages_from_transactional_message_queue], which empties
    the queue; returns the swap queue and the number of dropped messages. *)
Fixpoint drop_updates (l : list ControlMessage) (remove_next_update_message : bool)
    : op (list ControlMessage * nat) :=
  match l with
  | [] => mret ([], O)
  | element :: l' =>
      cmodify (set_transaction_message_queue l');;
      update ← (if remove_next_update_message : bool
                then clift (is_transaction_update_message element) else mret false);
      if update && (1 <? length l')%nat then
        try_db (remove_message_queue_message (initial_unique_id element) Transaction);;
        '(swap, n) ← drop_updates l' false;
        mret (swap, S n)
      else
        '(swap, n) ← drop_updates l' true;
        mret (element :: swap, n)
  end.

Definition drop_update_messages_from_transactional_message_queue : op bool :=
  q ← cget;
  '(swap, drop_count) ← drop_updates (transaction_message_queue q) true;
  cmodify (set_transaction_message_queue swap);;
  mret (0 <? drop_count)%nat.

(** The two loops of [check_queue_sizes], with fuel; [Undef] when it is used up. *)
Fixpoint drop_normal_loop (fuel : nat) : op () :=
  match fuel with
  | O => clift Undef
  | S fuel' =>
      q ← cget;
      if (total_size q >? threshold q) && negb (bool_decide (normal_message_queue q = [])) then
        drop_messages_from_normal_message_queue;;
        q' ← cget;
        if (length (normal_message_queue q') =? length (normal_message_queue q))%nat then mret tt
        else drop_normal_loop fuel'
      else mret tt
  end.

Fixpoint drop_updates_loop (fuel : nat) : op () :=
  match fuel with
  | O => clift Undef
  | S fuel' =>
      q ← cget;
      if total_size q >? threshold q then
        dropped ← drop_update_messages_from_transactional_message_queue;
        if dropped : bool then drop_updates_loop fuel' else mret tt
      else mret tt
  end.

Definition check_queue_sizes : op () :=
  q ← cget;
  if total_size q <=? threshold q then mret tt
  else
    drop_normal_loop (S (length (normal_message_queue q)));;
    drop_updates_loop (S (length (transaction_message_queue q))).

(** ** Adding messages *)
Definition add_to_normal_message_queue (m : ControlMessage) : op () :=
  (if decide (messageType m = BootNotification)
   then q ← cget; cmodify (set_normal_message_queue (m :: normal_message_queue q))
   else q ← cget; cmodify (set_normal_message_queue (normal_message_queue q ++ [m])));;
  q ← cget;
  cwhen (check_queue (config q) (messageType m))
    (db_message ← clift (db_message_of m);
     try_db (insert_message_queue_message db_message Normal));;
  cmodify (set_new_message true);;
  check_queue_sizes;;
  cemit NotifyWorker.

Definition add_to_transaction_message_queue (m : ControlMessage) : op () :=
  q ← cget;
  cmodify (set_transaction_message_queue (transaction_message_queue q ++ [m]));;
  db_message ← clift (db_message_of m);
  try_db (insert_message_queue_message db_message Transaction);;
  cmodify (set_new_message true);;
  check_queue_sizes;;
  cemit NotifyWorker.

(** ** Promises *)
(** [promise.set_value] of a message; a second value is an error. *)
Definition promise_set_value (m : ControlMessage) (e : EnhancedMessage) : op ControlMessage :=
  match promise m with
  | Some _ => cthrow FutureError
  | None => cemit (PromiseSet m e);; mret (with_promise m e)
  end.

Definition settle_in_flight (e : EnhancedMessage) : op () :=
  q ← cget;
  match in_flight q with
  | None => clift Undef
  | Some m => m' ← promise_set_value m e; cmodify (set_in_flight (Some m'))
  end.

(** ** Timeouts and errors *)
Definition reset_in_flight : op () :=
  cmodify (set_in_flight None);;
  cmodify (set_in_flight_timer None).

(** [in_flight->message[MESSAGE_ID] = create_message_id()]. *)
Definition renew_message_id (m : ControlMessage) : op ControlMessage :=
  new_id ← create_message_id;
  mret (with_message m (<[MESSAGE_ID := JString new_id]> (message m))).

Definition push_front (t : QueueType) (m : ControlMessage) : op () :=
  q ← cget;
  match t with
  | Transaction => cmodify (set_transaction_message_queue (m :: transaction_message_queue q))
  | Normal => cmodify (set_normal_message_queue (m :: normal_message_queue q))
  end.

Definition queue_type_of (m : ControlMessage) : QueueType :=
  if is_transaction_message (messageType m) then Transaction else Normal.

Definition seconds (n : Z) : Z := n * 1000000000.

(** The branch that schedules another attempt. *)
Definition schedule_retry (m : ControlMessage) : op () :=
  q ← cget;
  old_message_id ← clift (j ← array_at (message m) MESSAGE_ID; string_of_json j);
  m1 ← renew_message_id m;
  m2 ← (if transaction_message_retry_interval (config q) >? 0 then
          mret (with_timestamp m1 (timestamp m1 +
            seconds (transaction_message_retry_interval (config q)) * message_attempts m1))
        else now ← DateTime_now; mret (with_timestamp m1 now));
  cmodify (set_in_flight (Some m2));;
  push_front (queue_type_of m2) m2;;
  cwhen (is_start_transaction_message (messageType m2))
    (new_id ← clift (j ← array_at (message m2) MESSAGE_ID; string_of_json j);
     cemit (RetryCallback new_id old_message_id));;
  cmodify (set_notify_timer (Some (timestamp m2))).

(** The branch that gives the message up. *)
Definition drop_undelivered (m : ControlMessage) (enhanced_message_opt : option EnhancedMessage) : op () :=
  settle_in_flight (default EnhancedMessage_offline enhanced_message_opt);;
  try_db (remove_message_queue_message (initial_unique_id m) (queue_type_of m)).

(** The branch for a BootNotification that is not persisted. *)
Definition retry_boot_notification (m : ControlMessage) : op () :=
  q ← cget;
  m1 ← renew_message_id m;
  let m2 := with_timestamp m1 (timestamp m1 +
              seconds (boot_notification_retry_interval_seconds (config q))) in
  cmodify (set_in_flight (Some m2));;
  push_front Normal m2;;
  cmodify (set_notify_timer (Some (timestamp m2))).

Definition handle_timeout_or_callerror (enhanced_message_opt : option EnhancedMessage) : op () :=
  q ← cget;
  match in_flight q with
  | None => mret tt
  | Some m =>
      (if is_transaction_message (messageType m) || check_queue (config q) (messageType m) then
         if message_attempts m <? transaction_message_attempts (config q)
         then schedule_retry m
         else drop_undelivered m enhanced_message_opt
       else if is_boot_notification_message (messageType m) then retry_boot_notification m
       else settle_in_flight (default EnhancedMessage_offline enhanced_message_opt));;
      reset_in_flight;;
      cemit NotifyWorker
  end.

(** [interval * attempt + timeout] in [unsigned int]. *)
Definition current_message_timeout (config : MessageQueueConfig) (attempt : Z) : Z :=
  (message_timeout_seconds config + transaction_message_retry_interval config * attempt) mod 2 ^ 32.

(** ** Pausing and resuming *)
Definition u64 (z : Z) : Z := z mod 2 ^ 64.

Definition resume_now (expected_pause_resume_ctr : Z) : op () :=
  q ← cget;
  if pause_resume_ctr q =? expected_pause_resume_ctr then
    cmodify (set_paused false);;
    cmodify (set_resuming false);;
    cemit NotifyWorker
  else mret tt.

Definition pause : op () :=
  q ← cget;
  cmodify (set_ctr (u64 (pause_resume_ctr q + 1)));;
  cmodify (set_resume_timer None);;
  cmodify (set_paused true);;
  cmodify (set_resuming false);;
  q' ← cget;
  (match in_flight q' with
   | Some _ => handle_timeout_or_callerror None
   | None => mret tt
   end);;
  cemit NotifyWorker.

Definition resume (delay_on_reconnect : Z) : op () :=
  q ← cget;
  if negb (paused q) then mret tt
  else
    let ctr := u64 (pause_resume_ctr q + 1) in
    cmodify (set_ctr ctr);;
    if (ctr >? 1) && (delay_on_reconnect >? 0) then
      cmodify (set_resuming true);;
      cmodify (set_resume_timer (Some ctr))
    else resume_now ctr.

(** ** The worker thread *)
Definition wait_over (q : Queue) : bool :=
  negb (running q)
  || (negb (bool_decide (idle_actions q = [])) && bool_decide (in_flight q = None))
  || (negb (paused q) && new_message q && bool_decide (in_flight q = None)).

(** The next message: the first normal one that may be sent, unless the transaction
    message at the head may be sent and is not younger. *)
Definition select_message (q : Queue) (now : Z) : option (QueueType * nat * ControlMessage) :=
  let normal := list_find (λ m, Is_true (allowed_to_send_message m now (is_registration_status_accepted q)))
                  (normal_message_queue q) in
  let available (msg : ControlMessage) : bool :=
    if negb (allowed_to_send_message msg now (is_registration_status_accepted q)) then false
    else match normal with
         | None => true
         | Some (_, m) =>
             if decide (messageType m = BootNotification) then false
             else (timestamp msg <=? timestamp m)
         end in
  match transaction_message_queue q with
  | msg :: _ => if available msg then Some (Transaction, O, msg)
                else (λ '(i, m), (Normal, i, m)) <$> normal
  | [] => (λ '(i, m), (Normal, i, m)) <$> normal
  end.

(** [message.at(3)["transactionId"] = transaction_id]. *)
Definition set_transaction_id (a : list json) (transaction_id : Z) : outcome exn (list json) :=
  p ← array_at a CALL_PAYLOAD;
  match set_member p "transactionId" (JNumber (QArith_base.inject_Z transaction_id)) with
  | Some p' => Ret (<[CALL_PAYLOAD := p']> a)
  | None => Throw JsonException
  end.

Definition replace_transaction_id (m : ControlMessage) : op ControlMessage :=
  q ← cget;
  mid ← clift (j ← array_at (message m) MESSAGE_ID; string_of_json j);
  match message_id_transaction_id_map q !! mid with
  | Some transaction_id =>
      a ← clift (set_transaction_id (message m) transaction_id);
      cmodify (set_transaction_ids (delete mid (message_id_transaction_id_map q)));;
      mret (with_message m a)
  | None => mret m
  end.

Definition erase (t : QueueType) (i : nat) : op () :=
  q ← cget;
  match t with
  | Normal => cmodify (set_normal_message_queue (delete i (normal_message_queue q)))
  | Transaction => cmodify (set_transaction_message_queue (delete i (transaction_message_queue q)))
  end.

(** Sending the selected message. *)
Definition send_message (t : QueueType) (i : nat) (m : ControlMessage) : op () :=
  let m1 := with_attempts m (message_attempts m + 1) in
  m2 ← replace_transaction_id m1;
  cmodify (set_in_flight (Some m2));;
  erase t i;;
  sent ← ask env_send_ok;
  cemit (SendCall m2 sent);;
  (if sent : bool then
     message_id ← clift (uniqueId m2);
     cmodify (set_in_flight_timer (Some (ref m2, message_id)))
   else handle_timeout_or_callerror None);;
  q ← cget;
  cwhen (bool_decide (transaction_message_queue q = []) && bool_decide (normal_message_queue q = []))
    (cmodify (set_new_message false));;
  cemit NotifyWorker.

(** Back to the [while (this->running)] of the loop. *)
Definition next_turn : op () :=
  q ← cget;
  cmodify (set_worker (if running q then Waiting else Finished)).

Definition begin_idle_action (action : nat) (rest : list nat) : op () :=
  cmodify (set_idle_actions rest);;
  q ← cget;
  cwhen (negb (paused q)) pause;;
  q' ← cget;
  cmodify (set_worker (InAction (negb (paused q)) (pause_resume_ctr q')));;
  cemit (RunAction action).

Definition end_idle_action (still_connected : bool) : op () :=
  q ← cget;
  match worker q with
  | InAction paused_for_action pause_resume_ctr_before =>
      cwhen (paused_for_action && still_connected && (pause_resume_ctr_before =? pause_resume_ctr q))
        (resume 0);;
      next_turn
  | _ => mret tt
  end.

(** The turn that looks for a message. *)
Definition try_send : op () :=
  q ← cget;
  if paused q then mret tt
  else match in_flight q with
  | Some _ => mret tt
  | None =>
      now ← DateTime_now;
      match select_message q now with
      | None => cmodify (set_new_message false)
      | Some (t, i, m) =>
          mid ← clift (uniqueId m);
          match next_message_to_send q with
          | Some next_id => if ci_ne next_id mid then mret tt else send_message t i m
          | None => send_message t i m
          end
      end
  end.

Definition worker_turn : op () :=
  q ← cget;
  match worker q with
  | Waiting =>
      if negb (wait_over q) then mret tt
      else match idle_actions q with
      | action :: rest =>
          if running q && bool_decide (in_flight q = None) then begin_idle_action action rest
          else try_send;; next_turn
      | [] => try_send;; next_turn
      end
  | _ => mret tt
  end.

(** The callback of [in_flight_timeout_timer], armed for a message and its id. *)
Definition in_flight_timeout (r : nat) (message_id : string) : op () :=
  q ← cget;
  match in_flight q with
  | Some m =>
      if negb (ref m =? r)%nat then mret tt
      else mid ← clift (uniqueId m);
           if ci_ne mid message_id then mret tt
           else handle_timeout_or_callerror None
  | None => mret tt
  end.

(** The callback of [notify_queue_timer]. *)
Definition notify_queue_timeout : op () :=
  cmodify (set_new_message true);;
  cemit NotifyWorker.

(** ** The public operations *)
Definition reset_next_message_to_send : op () := cmodify (set_next_message_to_send None).

Definition restore_message (t : QueueType) (r : DBTransactionMessage) : op () :=
  now ← DateTime_now;
  n ← new_ref;
  m ← clift (ControlMessage_new n now (db_json_message r) true);
  match string_to_messagetype (db_message_type r) with
  | None => cthrow StringToEnumException
  | Some ty =>
      let m' := with_persisted m ty (db_timestamp r) (db_message_attempts r) in
      q ← cget;
      match t with
      | Normal => cmodify (set_normal_message_queue (normal_message_queue q ++ [m']))
      | Transaction => cmodify (set_transaction_message_queue (transaction_message_queue q ++ [m']))
      end
  end.

Definition restore_queue (ignore_security_event_notifications : bool) (t : QueueType) : op () :=
  try_db
    (persisted_messages ← get_message_queue_messages t;
     cwhen (negb (bool_decide (persisted_messages = [])))
       (cfor persisted_messages (λ r,
          if ignore_security_event_notifications && String.eqb (db_message_type r) "SecurityEventNotification"
          then try_db (remove_message_queue_message (db_unique_id r) t)
          else restore_message t r);;
        cmodify (set_new_message true))).

Definition get_persisted_messages_from_db (ignore_security_event_notifications : bool) : op () :=
  restore_queue ignore_security_event_notifications Normal;;
  restore_queue ignore_security_event_notifications Transaction;;
  q ← cget;
  cwhen (negb (queue_all_messages (config q))) (try_db (clear_message_queue Normal)).

(** A message object created at the current time. *)
Definition make_message (j : json) (stall : bool) : op ControlMessage :=
  now ← DateTime_now;
  r ← new_ref;
  clift (ControlMessage_new r now j stall).

Definition push_call (j : json) (stall : bool) : op () :=
  q ← cget;
  if negb (running q) then mret tt
  else
    m ← make_message j stall;
    (if is_transaction_message (messageType m) then add_to_transaction_message_queue m
     else
       q ← cget;
       cwhen (negb (paused q) || resuming q || stall_until_accepted m
              || check_queue (config q) (messageType m)
              || bool_decide (messageType m = BootNotification))
         (add_to_normal_message_queue m));;
    cemit NotifyWorker.

Definition push_call_async (j : json) : op () :=
  m ← make_message j false;
  q ← cget;
  if negb (running q) then promise_set_value m EnhancedMessage_offline;; mret tt
  else if is_transaction_message (messageType m) then add_to_transaction_message_queue m
  else if paused q && negb (check_queue (config q) (messageType m)) && negb (resuming q)
          && negb (bool_decide (messageType m = BootNotification))
  then promise_set_value m EnhancedMessage_offline;; mret tt
  else add_to_normal_message_queue m.

(** Answers to calls of the other side: [push_call_result] reads the id from the
    message, [push_call_error] has it. *)
Definition answered (mid : string) : op () :=
  q ← cget;
  match next_message_to_send q with
  | Some next_id => cwhen (ci_eq next_id mid) (cmodify (set_next_message_to_send None))
  | None => mret tt
  end.

Definition push_call_result (call_result : json) : op () :=
  q ← cget;
  if negb (running q) then mret tt
  else
    cemit (SendAnswer call_result);;
    (match next_message_to_send q with
     | Some _ =>
         mid ← clift (match at_index call_result MESSAGE_ID with
                      | Some j => MessageId_of_json j
                      | None => Throw JsonException
                      end);
         answered mid
     | None => mret tt
     end);;
    cemit NotifyWorker.

Definition push_call_error (mid : string) (call_error : json) : op () :=
  q ← cget;
  if negb (running q) then mret tt
  else
    cemit (SendAnswer call_error);;
    answered mid;;
    cemit NotifyWorker.

Definition handle_call_result (e : EnhancedMessage) : op EnhancedMessage :=
  q ← cget;
  match in_flight q with
  | None => mret e
  | Some m =>
      mid ← clift (uniqueId m);
      if negb (ci_eq mid (em_uniqueId e)) then mret e
      else
        action ← clift (j ← array_at (message m) CALL_ACTION; string_of_json j);
        match string_to_messagetype (action ++ "Response")%string with
        | None => cthrow StringToEnumException
        | Some t =>
            let e' := {| em_message := em_message e; em_message_size := em_message_size e;
                         em_uniqueId := em_uniqueId e; em_messageType := t;
                         em_messageTypeId := em_messageTypeId e; em_call_message := JArray (message m);
                         em_offline := em_offline e |} in
            settle_in_flight e';;
            cwhen (is_transaction_message (messageType m) || check_queue (config q) (messageType m))
              (try_db (remove_message_queue_message (initial_unique_id m) (queue_type_of m)));;
            reset_in_flight;;
            cwhen (negb (bool_decide (t ∈ external_notify q))) (cemit NotifyWorker);;
            mret e'
        end
  end.

(** [receive] after the nesting check and the parser: [size] is the length of the
    text and [j] the value parsed from it. *)
Definition receive_json (size : nat) (j : json) : op EnhancedMessage :=
  a ← clift (match get_array j with Some a => Ret a | None => Throw JsonException end);
  uid ← clift (getMessageId a);
  let type_id := getMessageTypeId a in
  let em mt ti call := {| em_message := j; em_message_size := size; em_uniqueId := uid; em_messageType := mt;
                          em_messageTypeId := ti; em_call_message := call; em_offline := false |} in
  match type_id with
  | CALL =>
      action ← clift (ja ← array_at a CALL_ACTION; string_of_json ja);
      match string_to_messagetype action with
      | None => cthrow StringToEnumException
      | Some t =>
          cmodify (set_next_message_to_send (Some uid));;
          mret (em t CALL j)
      end
  | CALLRESULT | CALLERROR =>
      cmodify (set_next_message_to_send None);;
      let type_id' :=
        match type_id, a !! CALLRESULT_PAYLOAD with
        | CALLRESULT, Some p => if is_object p then CALLRESULT else CALLERROR
        | _, _ => CALLERROR
        end in
      q ← cget;
      match in_flight q with
      | None => mret (em InternalError type_id' JNull)
      | Some m =>
          mid ← clift (uniqueId m);
          if ci_ne mid uid then mret (em InternalError type_id' JNull)
          else match type_id' with
          | CALLERROR =>
              let e := em InternalError CALLERROR (JArray (message m)) in
              handle_timeout_or_callerror (Some e);; mret e
          | _ => handle_call_result (em InternalError type_id' JNull)
          end
      end
  | UNKNOWN => mret (em InternalError UNKNOWN JNull)
  end.

Definition MAX_JSON_NESTING_DEPTH : nat := 64.

Definition receive (text : string) : op EnhancedMessage :=
  if exceeds_json_nesting_depth (list_ascii_of_string text) MAX_JSON_NESTING_DEPTH
  then cthrow MalformedRpcMessage
  else match env_parse text with
       | None => cthrow JsonException
       | Some j => receive_json (String.length text) j
       end.

(** [stop]: the request, and what follows once the worker thread has ended. *)
Definition stop : op () :=
  cmodify (set_running false);;
  cmodify (set_idle_actions []);;
  cemit NotifyWorker.

Definition stop_joined : op () :=
  q ← cget;
  match worker q with
  | Finished =>
      cmodify (set_in_flight_timer None);;
      cmodify (set_notify_timer None);;
      cmodify (set_resume_timer None)
  | _ => mret tt
  end.

Definition run_when_idle (action : nat) : op () :=
  q ← cget;
  cmodify (set_idle_actions (idle_actions q ++ [action]));;
  cemit NotifyWorker.

Definition set_registration_status_accepted : op () :=
  cmodify (set_accepted true);;
  cmodify (set_new_message true);;
  cemit NotifyWorker.

Definition is_transaction_message_queue_empty (q : Queue) : bool :=
  bool_decide (transaction_message_queue q = []).

Definition update_config (f : MessageQueueConfig → MessageQueueConfig) : op () :=
  q ← cget; cmodify (set_config (f (config q))).

Definition update_transaction_message_attempts (n : Z) : op () :=
  update_config (λ c, {| transaction_message_attempts := n;
    transaction_message_retry_interval := transaction_message_retry_interval c;
    queues_total_size_threshold := queues_total_size_threshold c;
    queue_all_messages := queue_all_messages c;
    message_types_discard_for_queueing := message_types_discard_for_queueing c;
    message_timeout_seconds := message_timeout_seconds c;
    boot_notification_retry_interval_seconds := boot_notification_retry_interval_seconds c |}).

Definition update_transaction_message_retry_interval (n : Z) : op () :=
  update_config (λ c, {| transaction_message_attempts := transaction_message_attempts c;
    transaction_message_retry_interval := n;
    queues_total_size_threshold := queues_total_size_threshold c;
    queue_all_messages := queue_all_messages c;
    message_types_discard_for_queueing := message_types_discard_for_queueing c;
    message_timeout_seconds := message_timeout_seconds c;
    boot_notification_retry_interval_seconds := boot_notification_retry_interval_seconds c |}).

Definition update_message_timeout (n : Z) : op () :=
  update_config (λ c, {| transaction_message_attempts := transaction_message_attempts c;
    transaction_message_retry_interval := transaction_message_retry_interval c;
    queues_total_size_threshold := queues_total_size_threshold c;
    queue_all_messages := queue_all_messages c;
    message_types_discard_for_queueing := message_types_discard_for_queueing c;
    message_timeout_seconds := n;
    boot_notification_retry_interval_seconds := boot_notification_retry_interval_seconds c |}).

Definition add_stopped_transaction_id (stop_transaction_message_id : string) (transaction_id : Z) : op () :=
  q ← cget;
  cmodify (set_transaction_ids
    (<[stop_transaction_message_id := transaction_id]> (message_id_transaction_id_map q))).

Definition add_meter_value_message_id (start_transaction_message_id meter_value_message_id : string) : op () :=
  q ← cget;
  let map := start_transaction_mid_meter_values_mid_map q in
  cmodify (set_meter_value_ids
    (match map !! start_transaction_message_id with
     | Some ids => <[start_transaction_message_id := ids ++ [meter_value_message_id]]> map
     | None => <[start_transaction_message_id := [meter_value_message_id]]> map
     end)).

(** The inner loop over the ids, and the loop over the queue. *)
Fixpoint replace_for_ids (ids : list string) (transaction_id : Z) (a : list json) : outcome exn (list json) :=
  match ids with
  | [] => Ret a
  | mid :: ids' =>
      id ← (j ← array_at a MESSAGE_ID; string_of_json j);
      a' ← (if String.eqb mid id then set_transaction_id a transaction_id else Ret a);
      replace_for_ids ids' transaction_id a'
  end.

Fixpoint replace_in_queue (kept l : list ControlMessage) (ids : list string) (transaction_id : Z) : op () :=
  match l with
  | [] => mret tt
  | m :: l' =>
      a ← clift (replace_for_ids ids transaction_id (message m));
      cmodify (set_transaction_message_queue (kept ++ with_message m a :: l'));;
      replace_in_queue (kept ++ [with_message m a]) l' ids transaction_id
  end.

Definition notify_start_transaction_handled (start_transaction_message_id : string) (transaction_id : Z)
    : op () :=
  cemit NotifyWorker;;
  q ← cget;
  (match start_transaction_mid_meter_values_mid_map q !! start_transaction_message_id with
   | Some ids => replace_in_queue [] (transaction_message_queue q) ids transaction_id
   | None => mret tt
   end);;
  q' ← cget;
  cmodify (set_meter_value_ids (delete start_transaction_message_id
    (start_transaction_mid_meter_values_mid_map q'))).

(** The constructor. *)
Definition MessageQueue_new (c : MessageQueueConfig) (notify : list M)
    (trows nrows : list DBTransactionMessage) : Queue :=
  {| config := c; transaction_rows := trows; normal_rows := nrows; transaction_message_queue := [];
     normal_message_queue := []; in_flight := None; external_notify := notify; paused := true;
     resuming := false; idle_actions := []; running := true; new_message := false;
     is_registration_status_accepted := false; next_message_to_send := None;
     in_flight_timeout_timer := None; notify_queue_timer := None; resume_timer := None;
     pause_resume_ctr := 0; message_id_transaction_id_map := ∅;
     start_transaction_mid_meter_values_mid_map := ∅; worker := Waiting; next_ref := 0; asked := 0 |}.

(** ** Requests

    Everything that can happen to the queue: calls of its owner, texts received,
    turns of the worker, the end of an idle action, and timer callbacks, which may
    come late, for a message or a count of long ago. *)
Inductive request :=
| RRestore (ignore_security_event_notifications : bool)
| RPushCall (j : json) (stall : bool)
| RPushCallAsync (j : json)
| RPushCallResult (j : json)
| RPushCallError (mid : string) (j : json)
| RReceive (text : string)
| RWorker
| REndIdleAction (still_connected : bool)
| RInFlightTimeout (r : nat) (mid : string)
| RNotifyTimeout
| RResumeTimeout (ctr : Z)
| RPause
| RResume (delay : Z)
| RRunWhenIdle (action : nat)
| RAccepted
| RStop
| RStopJoined
| RResetNext
| RUpdateAttempts (n : Z)
| RUpdateInterval (n : Z)
| RUpdateTimeout (n : Z)
| RAddStopped (mid : string) (transaction_id : Z)
| RAddMeterValue (start_mid meter_mid : string)
| RStartHandled (start_mid : string) (transaction_id : Z).

Definition handle (r : request) : op () :=
  match r with
  | RRestore b => get_persisted_messages_from_db b
  | RPushCall j stall => push_call j stall
  | RPushCallAsync j => push_call_async j
  | RPushCallResult j => push_call_result j
  | RPushCallError mid j => push_call_error mid j
  | RReceive text => receive text;; mret tt
  | RWorker => worker_turn
  | REndIdleAction b => end_idle_action b
  | RInFlightTimeout r mid => in_flight_timeout r mid
  | RNotifyTimeout => notify_queue_timeout
  | RResumeTimeout ctr => resume_now ctr
  | RPause => pause
  | RResume d => resume d
  | RRunWhenIdle a => run_when_idle a
  | RAccepted => set_registration_status_accepted
  | RStop => stop
  | RStopJoined => stop_joined
  | RResetNext => reset_next_message_to_send
  | RUpdateAttempts n => update_transaction_message_attempts n
  | RUpdateInterval n => update_transaction_message_retry_interval n
  | RUpdateTimeout n => update_message_timeout n
  | RAddStopped mid n => add_stopped_transaction_id mid n
  | RAddMeterValue s m => add_meter_value_message_id s m
  | RStartHandled s n => notify_start_transaction_handled s n
  end.

(** A run: the requests one after the other.  A request that throws has thrown to its
    caller; the queue goes on from the state it left. *)
Fixpoint run (rs : list request) (q : Queue) : Queue * list output :=
  match rs with
  | [] => (q, [])
  | r :: rs' =>
      let res := handle r q in
      let '(q', t) := run rs' (st_of res) in
      (q', out_of res ++ t)
  end.

End queue.

Arguments Queue M : clear implicits.
Arguments ControlMessage M : clear implicits.
Arguments EnhancedMessage M : clear implicits.
Arguments MessageQueueConfig M : clear implicits.
Arguments output M : clear implicits.

(** ** The two versions of OCPP *)
#[global] Instance MessageKind_v16 : MessageKind V16.MessageType := {|
  BootNotification := V16.BootNotification;
  InternalError := V16.InternalError;
  string_to_messagetype := V16.string_to_messagetype;
  messagetype_to_string := V16.messagetype_to_string;
  is_transaction_message t :=
    bool_decide (t = V16.StartTransaction) || bool_decide (t = V16.StopTransaction)
    || bool_decide (t = V16.MeterValues) || bool_decide (t = V16.SecurityEventNotification);
  is_start_transaction_message t := bool_decide (t = V16.StartTransaction);
  is_boot_notification_message t := bool_decide (t = V16.BootNotification);
  is_transaction_update t _ := Ret (bool_decide (t = V16.MeterValues));
|}.

#[global] Instance MessageKindLaws_v16 : MessageKindLaws V16.MessageType.
Proof.
  split.
  - intros t t'. cbn. rewrite V16.messagetype_roundtrip_v16. case_match; congruence.
  - intros a t Ha. cbn in *. rewrite V16.messagetype_roundtrip_v16.
    destruct (String.eqb_spec (V16.messagetype_to_string t) "InternalError") as [E|]; [|done].
    apply (V16.messagetype_to_string_inj_v16 t V16.InternalError) in E as ->.
    unfold V16.string_to_messagetype in Ha. by repeat case_match; congruence.
Qed.

(** The generated parser of TransactionEventRequest, of which the queue uses the event
    type and the transaction id. *)
Inductive TransactionEventEnum := Ended | Started | Updated.
#[global] Instance TransactionEventEnum_eq_dec : EqDecision TransactionEventEnum.
Proof. solve_decision. Defined.

Class TransactionEventParser :=
  parse_transaction_event : json → option (TransactionEventEnum * string).

#[global] Instance MessageKind_v2 `{TransactionEventParser} : MessageKind V2.MessageType := {|
  BootNotification := V2.BootNotification;
  InternalError := V2.InternalError;
  string_to_messagetype := V2.string_to_messagetype;
  messagetype_to_string := V2.messagetype_to_string;
  is_transaction_message t :=
    bool_decide (t = V2.TransactionEvent) || bool_decide (t = V2.SecurityEventNotification);
  is_start_transaction_message _ := false;
  is_boot_notification_message t := bool_decide (t = V2.BootNotification);
  is_transaction_update t a :=
    if decide (t = V2.TransactionEvent) then
      p ← array_at a CALL_PAYLOAD;
      match parse_transaction_event p with
      | Some (e, _) => Ret (bool_decide (e = Updated))
      | None => Throw JsonException
      end
    else Ret false;
|}.

#[global] Instance MessageKindLaws_v2 `{TransactionEventParser} : MessageKindLaws V2.MessageType.
Proof.
  split; [intros t t'|intros a t _]; cbn; rewrite V2.messagetype_roundtrip_v2; congruence.
Qed.

(** The queries for one version only; the first message whose payload does not parse
    ends them with an exception. *)
Fixpoint contains_transaction_messages `{TransactionEventParser} (transaction_id : string)
    (l : list (ControlMessage V2.MessageType)) : outcome exn bool :=
  match l with
  | [] => Ret false
  | m :: l' =>
      if decide (messageType m = V2.TransactionEvent) then
        p ← array_at (message m) CALL_PAYLOAD;
        match parse_transaction_event p with
        | Some (_, t) => if ci_eq t transaction_id then Ret true
                         else contains_transaction_messages transaction_id l'
        | None => Throw JsonException
        end
      else contains_transaction_messages transaction_id l'
  end.

(** The generated parser of StopTransactionRequest, of which the transaction id is used. *)
Class StopTransactionParser := parse_stop_transaction : json → option Z.

Fixpoint contains_stop_transaction_message `{StopTransactionParser} (transaction_id : Z)
    (l : list (ControlMessage V16.MessageType)) : outcome exn bool :=
  match l with
  | [] => Ret false
  | m :: l' =>
      if decide (messageType m = V16.StopTransaction) then
        p ← array_at (message m) CALL_PAYLOAD;
        match parse_stop_transaction p with
        | Some t => if t =? transaction_id then Ret true
                    else contains_stop_transaction_message transaction_id l'
        | None => Throw JsonException
        end
      else contains_stop_transaction_message transaction_id l'
  end.

End MessageQueue.
