(* ===== verification/MessageProtocol.v ===== *)
(** * The transmission protocol of the message queue

    An abstract machine for [MessageQueue]: two queues, one message in flight, and the
    steps by which messages move between them.  It says nothing of timers, clocks,
    databases or wake-ups.  [MessageQueueRefines] shows that the code takes only these
    steps; here is what follows from them: transaction messages are sent in the order
    in which they were queued, and no message is sent more often than allowed. *)

From S2P Require Import Prelude CiString Json MessageTypes MessageQueue.
From Stdlib Require Import Strings.String.
#[local] Notation length := Datatypes.length.

Module MessageProtocol.
Import Json MessageQueue.

Section protocol.
Context {M : Type} `{MK : MessageKind M}.
Notation ControlMessage := (ControlMessage M).

Definition transactional (m : ControlMessage) : Prop := is_transaction_message (messageType m) = true.

(** What a message keeps when it is sent or scheduled again: its identity, its type
    and the id it was stored under. *)
Definition same_message (m m' : ControlMessage) : Prop :=
  ref m' = ref m ∧ messageType m' = messageType m ∧ promise m' = promise m ∧
  initial_unique_id m' = initial_unique_id m ∧ stall_until_accepted m' = stall_until_accepted m.

Record state := {
  waiting_t : list ControlMessage;   (* transaction messages *)
  waiting_n : list ControlMessage;   (* other messages *)
  flying : option ControlMessage;
  next : nat;
}.

(** [limit] bounds the attempts for messages that are persisted. *)
Section steps.
Context (limit : Z).

(** One step with the messages it hands to the socket. *)
Inductive step (a : state) : list ControlMessage → state → Prop :=
| step_skip :
    step a [] {| waiting_t := waiting_t a; waiting_n := waiting_n a; flying := flying a; next := S (next a) |}
| step_enqueue_t m : transactional m → ref m = next a → promise m = None → 0 ≤ message_attempts m →
    step a [] {| waiting_t := waiting_t a ++ [m]; waiting_n := waiting_n a; flying := flying a; next := S (next a) |}
| step_enqueue_n m l : ¬ transactional m → ref m = next a → promise m = None → 0 ≤ message_attempts m →
    l ≡ₚ m :: waiting_n a →
    step a [] {| waiting_t := waiting_t a; waiting_n := l; flying := flying a; next := S (next a) |}
| step_drop lt ln : lt `sublist_of` waiting_t a → ln `sublist_of` waiting_n a →
    step a [] {| waiting_t := lt; waiting_n := ln; flying := flying a; next := next a |}
| step_rewrite lt : Forall2 (λ m m', same_message m m' ∧ message_attempts m' = message_attempts m) (waiting_t a) lt →
    step a [] {| waiting_t := lt; waiting_n := waiting_n a; flying := flying a; next := next a |}
| step_send_t m m' lt : flying a = None → waiting_t a = m :: lt → same_message m m' →
    message_attempts m' = message_attempts m + 1 →
    step a [m'] {| waiting_t := lt; waiting_n := waiting_n a; flying := Some m'; next := next a |}
| step_send_n i m m' : flying a = None → waiting_n a !! i = Some m → same_message m m' →
    message_attempts m' = message_attempts m + 1 →
    step a [m'] {| waiting_t := waiting_t a; waiting_n := delete i (waiting_n a); flying := Some m'; next := next a |}
| step_retry_t m m' : flying a = Some m → transactional m → same_message m m' →
    message_attempts m' = message_attempts m → message_attempts m < limit →
    step a [] {| waiting_t := m' :: waiting_t a; waiting_n := waiting_n a; flying := None; next := next a |}
| step_retry_n m m' : flying a = Some m → ¬ transactional m → same_message m m' →
    message_attempts m' = message_attempts m →
    step a [] {| waiting_t := waiting_t a; waiting_n := m' :: waiting_n a; flying := None; next := next a |}
| step_settle m : flying a = Some m →
    step a [] {| waiting_t := waiting_t a; waiting_n := waiting_n a; flying := None; next := next a |}.

(** Runs from [a0], with everything handed to the socket, in order. *)
Inductive steps (a0 : state) : list ControlMessage → state → Prop :=
| steps_refl : steps a0 [] a0
| steps_step v a w a' : steps a0 v a → step a w a' → steps a0 (v ++ w) a'.

Lemma steps_silent a0 v a a' : steps a0 v a → step a [] a' → steps a0 v a'.
Proof. intros Hv Hs. rewrite <- (app_nil_r v). by eapply steps_step. Qed.

(** ** Order *)
#[global] Instance transactional_dec m : Decision (transactional m).
Proof. unfold transactional. apply _. Defined.

Definition transaction_refs (l : list ControlMessage) : list nat := ref <$> filter transactional l.

(** Transaction messages that are not settled, oldest first. *)
Definition pending (a : state) : list nat :=
  transaction_refs (option_list (flying a)) ++ (ref <$> waiting_t a).

Record ordered (v : list ControlMessage) (a : state) : Prop := {
  ord_types_t : Forall transactional (waiting_t a);
  ord_types_n : Forall (λ m, ¬ transactional m) (waiting_n a);
  ord_pending : StronglySorted lt (pending a);
  ord_sent : StronglySorted le (transaction_refs v ++ pending a);
  ord_bound : Forall (λ r, r < next a)%nat (transaction_refs v ++ pending a);
}.

Lemma transaction_refs_one m : transactional m → transaction_refs [m] = [ref m].
Proof. intros H. unfold transaction_refs. by rewrite filter_cons_True. Qed.
Lemma transaction_refs_none m : ¬ transactional m → transaction_refs [m] = [].
Proof. intros H. unfold transaction_refs. by rewrite filter_cons_False. Qed.
Lemma transaction_refs_app l k : transaction_refs (l ++ k) = transaction_refs l ++ transaction_refs k.
Proof. unfold transaction_refs. by rewrite filter_app, fmap_app. Qed.

Lemma same_transactional m m' : same_message m m' → transactional m' ↔ transactional m.
Proof. unfold transactional. by intros (_ & -> & _). Qed.

(** Losing messages. *)
Lemma ordered_lose v a a' :
  ordered v a → Forall transactional (waiting_t a') → Forall (λ m, ¬ transactional m) (waiting_n a') →
  pending a' `sublist_of` pending a → (next a ≤ next a')%nat → ordered v a'.
Proof.
  intros [] Ht Hn Hp Hr. split; [done|done| | |].
  - eauto using StronglySorted_sublist.
  - eauto using StronglySorted_sublist, sublist_app.
  - eapply Forall_impl; [eapply Forall_sublist; [done|by apply sublist_app]|]. cbn. lia.
Qed.

Lemma ordered_enqueue v a m :
  ordered v a → transactional m → ref m = next a →
  ordered v {| waiting_t := waiting_t a ++ [m]; waiting_n := waiting_n a; flying := flying a; next := S (next a) |}.
Proof.
  intros [] Hm Hr. pose proof ord_bound0 as Hb. apply Forall_app in Hb as [Hbv Hbp].
  set (a' := {| waiting_t := _ |}).
  assert (pending a' = pending a ++ [ref m]) as Ep by (unfold pending; cbn; by rewrite fmap_app, app_assoc).
  assert (∀ R : relation nat, (∀ x, (x < ref m)%nat → R x (ref m)) → ∀ l, StronglySorted R l →
            Forall (λ r, r < next a)%nat l → StronglySorted R (l ++ [ref m])) as Hsnoc.
  { intros R HR l Hl Hf. apply StronglySorted_app_2; [|done|repeat constructor].
    intros x y Hx Hy%list_elem_of_singleton. subst y. apply HR. rewrite Hr.
    by rewrite Forall_forall in Hf; apply Hf. }
  split; rewrite ?Ep, ?app_assoc.
  - apply Forall_app. split; [done|by constructor].
  - done.
  - apply Hsnoc; [lia|done|done].
  - apply Hsnoc; [lia|done|done].
  - apply Forall_app. split; [|constructor; [cbn; lia|done]].
    eapply Forall_impl; [done|]. cbn. lia.
Qed.

(** Sending the head: it stays the oldest message that is not settled. *)
Lemma ordered_send_t v a m m' lt :
  ordered v a → flying a = None → waiting_t a = m :: lt → same_message m m' →
  ordered (v ++ [m']) {| waiting_t := lt; waiting_n := waiting_n a; flying := Some m'; next := next a |}.
Proof.
  intros [] Hf Ht Hs. rewrite Ht in *. apply Forall_cons in ord_types_t0 as [Hm Hlt].
  assert (transactional m') as Hm' by (by rewrite same_transactional).
  set (a' := {| waiting_t := lt |}).
  assert (pending a' = pending a) as Ep.
  { unfold pending, a'; cbn [flying waiting_t]. change (option_list (Some m')) with [m']. rewrite transaction_refs_one by done.
    rewrite Hf, Ht. cbn. by rewrite (proj1 Hs). }
  assert (∃ l, pending a = ref m' :: l) as [l El].
  { unfold pending. rewrite Hf, Ht. cbn. rewrite (proj1 Hs). eauto. }
  split; rewrite ?Ep, ?transaction_refs_app, ?transaction_refs_one, <- ?app_assoc by done;
    [done|done|done| |]; cbn.
  - rewrite El in *. apply StronglySorted_app in ord_sent0 as (H1 & H2 & H3).
    apply StronglySorted_app_2; [|done|].
    + intros x y Hx [->|Hy]%elem_of_cons; [apply H1; [done|left]|by apply H1].
    + constructor; [done|]. constructor; [done|]. apply StronglySorted_cons in H3. tauto.
  - rewrite El in *. apply Forall_app in ord_bound0 as [Hv Hp]. apply Forall_app. split; [done|].
    constructor; [|done]. by apply Forall_cons in Hp as [? _].
Qed.

(** The invariant holds in every run. *)
Lemma step_ordered v a w a' : ordered v a → step a w a' → ordered (v ++ w) a'.
Proof.
  intros Ho Hs. pose proof Ho as [Ht Hn _ _ _]. destruct Hs as
    [|m Hm Hr _ _|m l Hm Hr _ _ Hl|lt ln Hlt Hln|lt Hlt|m m' lt Hf Hw Hs _|i m m' Hf Hi Hs _
     |m m' Hf Hm Hs _ _|m m' Hf Hm Hs _|m Hf]; rewrite ?app_nil_r.
  - by eapply ordered_lose; [done| | | |cbn; lia].
  - by apply ordered_enqueue.
  - eapply ordered_lose; [done|done| |done|cbn; lia]. cbn. rewrite Hl. by constructor.
  - eapply ordered_lose; [done| | | |done]; cbn; eauto using Forall_sublist.
    unfold pending. cbn. by apply sublist_app, sublist_map.
  - assert (ref <$> lt = ref <$> waiting_t a) as Er.
    { clear -Hlt. induction Hlt as [|m m' ? ? [[? _] _]]; cbn; by f_equal. }
    eapply ordered_lose; [done| |done| |done]; cbn.
    + clear -Hlt Ht. induction Hlt as [|m m' ? ? [Hs _]]; [done|]. apply Forall_cons in Ht as [? ?].
      constructor; [by rewrite same_transactional|auto].
    + unfold pending. cbn. by rewrite Er.
  - by eapply ordered_send_t.
  - assert (¬ transactional m') as Hm'.
    { rewrite same_transactional by done. by apply (Forall_lookup_1 _ _ _ _ Hn Hi). }
    assert (transaction_refs (v ++ [m']) = transaction_refs v) as Ev
      by (by rewrite transaction_refs_app, (transaction_refs_none m'), app_nil_r).
    set (a' := {| waiting_t := _ |}).
    assert (pending a' = pending a) as Ep.
    { unfold pending, a'; cbn [flying waiting_t]. rewrite Hf.
      change (option_list (Some m')) with [m']. by rewrite (transaction_refs_none m'). }
    destruct Ho. split; rewrite ?Ev, ?Ep; try done. cbn. eauto using Forall_sublist, sublist_delete.
  - assert (transactional m') by (by rewrite same_transactional).
    eapply ordered_lose; [done| |done| |done]; cbn; [by constructor|].
    unfold pending. cbn [flying waiting_t]. rewrite Hf. change (option_list (Some m)) with [m].
    rewrite transaction_refs_one by done. cbn. by rewrite (proj1 Hs).
  - assert (¬ transactional m') by (by rewrite same_transactional).
    eapply ordered_lose; [done|done| | |done]; cbn; [by constructor|].
    unfold pending. cbn. by apply sublist_inserts_l.
  - eapply ordered_lose; [done|done|done| |done]. unfold pending. cbn. by apply sublist_inserts_l.
Qed.

Lemma steps_ordered a0 v a : ordered [] a0 → steps a0 v a → ordered v a.
Proof. intros H0. induction 1; [done|]. by eapply step_ordered. Qed.

(** ** Attempts

    How often the transaction message [r] was handed to the socket. *)
Definition times (r : nat) (v : list ControlMessage) : nat := length (filter (λ x, x = r) (transaction_refs v)).

Record limited (v : list ControlMessage) (a : state) : Prop := {
  lim_waiting : Forall (λ m, Z.of_nat (times (ref m) v) ≤ message_attempts m ∧
    (times (ref m) v = 0%nat ∨ message_attempts m < limit)) (waiting_t a);
  lim_flying m : flying a = Some m → transactional m → Z.of_nat (times (ref m) v) ≤ message_attempts m;
  lim_sent r : Z.of_nat (times r v) ≤ Z.max 1 limit;
}.

Lemma times_app r v w : times r (v ++ w) = (times r v + times r w)%nat.
Proof. unfold times. by rewrite transaction_refs_app, filter_app, length_app. Qed.
Lemma times_nil r : times r [] = 0%nat.
Proof. done. Qed.
Lemma times_one r m : transactional m → times r [m] = if decide (ref m = r) then 1%nat else 0%nat.
Proof.
  intros Hm. unfold times. rewrite transaction_refs_one by done. rewrite filter_cons. by case_decide.
Qed.
Lemma times_other r m : ¬ transactional m → times r [m] = 0%nat.
Proof. intros Hm. unfold times. by rewrite transaction_refs_none. Qed.
Lemma times_fresh r v : Forall (λ x, x < r)%nat (transaction_refs v) → times r v = 0%nat.
Proof.
  unfold times. induction 1 as [|x l Hx _ IH]; [done|]. by rewrite filter_cons_False by lia.
Qed.

Lemma limited_sub v a a' :
  limited v a → (∀ m', m' ∈ waiting_t a' → ∃ m, m ∈ waiting_t a ∧ ref m' = ref m ∧ message_attempts m' = message_attempts m) →
  (flying a' = flying a ∨ flying a' = None) → limited v a'.
Proof.
  intros [Hw Hf Hs] Ht Hfl. split; [|destruct Hfl as [->| ->]; [done|done]|done].
  apply Forall_forall. intros m' Hm'. destruct (Ht m' Hm') as (m & Hm & -> & ->).
  by apply (proj1 (Forall_forall _ _) Hw).
Qed.

Lemma limited_send_t v a m m' lt :
  ordered v a → limited v a → flying a = None → waiting_t a = m :: lt → same_message m m' →
  message_attempts m' = message_attempts m + 1 →
  limited (v ++ [m']) {| waiting_t := lt; waiting_n := waiting_n a; flying := Some m'; next := next a |}.
Proof.
  intros Ho [Hw _ Hs] Hf Ht Hsm Ha. destruct Ho as [Htt _ Hp _ _]. rewrite Ht in *.
  apply Forall_cons in Htt as [Hm _], Hw as [[Hc Hl] Hw].
  assert (transactional m') as Hm' by (by rewrite same_transactional). destruct Hsm as (Hr & _).
  unfold pending in Hp. rewrite Hf, Ht in Hp. cbn in Hp. apply StronglySorted_cons in Hp as [Hp _].
  split; cbn [waiting_t flying].
  - apply Forall_forall. intros x Hx. rewrite times_app, times_one by done.
    rewrite decide_False; [rewrite Nat.add_0_r; by apply (proj1 (Forall_forall _ _) Hw)|].
    rewrite Forall_forall in Hp. specialize (Hp (ref x)).
    rewrite Hr. intros E. rewrite E in Hp. enough (ref x < ref x)%nat by lia. apply Hp. by apply list_elem_of_fmap_2.
  - intros ? [= <-] _. rewrite times_app, times_one, decide_True, Hr by done. lia.
  - intros r. rewrite times_app, times_one by done. case_decide as E; [|specialize (Hs r); lia].
    rewrite <- E, Hr. lia.
Qed.

Lemma step_limited v a w a' : ordered v a → limited v a → step a w a' → limited (v ++ w) a'.
Proof.
  intros Ho Hl Hs. pose proof Ho as [Ht Hn _ _ Hb]. destruct Hs as
    [|m Hm Hr _ Hz|m l Hm Hr _ _ _|lt ln Hlt Hln|lt Hlt|m m' lt Hf Hw Hs Ha|i m m' Hf Hi Hs _
     |m m' Hf Hm Hs Ha Hlim|m m' Hf Hm Hs _|m Hf]; rewrite ?app_nil_r.
  - eapply limited_sub; eauto.
  - destruct Hl as [H1 H2 H3]. split; cbn; [|done|done]. apply Forall_app. split; [done|].
    constructor; [|done]. rewrite Hr, times_fresh; [split; [lia|by left]|].
    by apply Forall_app in Hb as [? _].
  - eapply limited_sub; eauto.
  - eapply limited_sub; [done| |by left]. cbn. intros x Hx. exists x. split; [by eapply sublist_subseteq|done].
  - eapply limited_sub; [done| |by left]. cbn. intros x Hx. apply list_elem_of_lookup in Hx as [i Hi].
    destruct (Forall2_lookup_r _ _ _ _ _ Hlt Hi) as (y & Hy & (Hr & _) & Ha). eauto using list_elem_of_lookup_2.
  - by eapply limited_send_t.
  - assert (¬ transactional m') as Hm'.
    { rewrite same_transactional by done. by apply (Forall_lookup_1 _ _ _ _ Hn Hi). }
    assert (∀ r, times r (v ++ [m']) = times r v) as Ev by (intros r; rewrite times_app, times_other by done; lia).
    destruct Hl as [H1 H2 H3]. split; cbn; [|by intros ? [= <-] ?|intros r; by rewrite Ev].
    eapply Forall_impl; [exact H1|]. cbv beta. intros x. by rewrite Ev.
  - destruct Hl as [H1 H2 H3]. split; cbn; [|done|done]. constructor; [|done].
    rewrite (proj1 Hs), Ha. split; [by apply H2|right; lia].
  - eapply limited_sub; [done| |by right]. eauto.
  - eapply limited_sub; [done| |by right]. eauto.
Qed.

Lemma steps_limited a0 v a : ordered [] a0 → limited [] a0 → steps a0 v a → limited v a.
Proof.
  intros Ho Hl. induction 1 as [|v a w a' Hs IH Hst]; [done|].
  apply (step_limited v a w a'); [by eapply steps_ordered|done|done].
Qed.

(** An empty machine satisfies both. *)
Definition initial (n : nat) : state := {| waiting_t := []; waiting_n := []; flying := None; next := n |}.

Lemma initial_ordered n : ordered [] (initial n).
Proof. by split; try constructor. Qed.
Lemma initial_limited n : limited [] (initial n).
Proof. split; [constructor|done|]. intros r. rewrite times_nil. lia. Qed.

End steps.
End protocol.
End MessageProtocol.
