(* ===== verification/MessageQueueRefines.v ===== *)
(** * The message queue refines the transmission protocol

    Every request to [MessageQueue], whatever the clock, the database, the socket and
    the parser answer, and also when it throws, is a sequence of steps of
    [MessageProtocol]. *)

From S2P Require Import Prelude CiString Json MessageTypes MessageQueue MessageProtocol.
From Stdlib Require Import Strings.String.
#[local] Notation length := Datatypes.length.

Module MessageQueueRefines.
Import Json MessageQueue MessageProtocol.

Section refines.
Context {M : Type} `{MK : MessageKind M} `{!MessageKindLaws M} `{ENV : Environment}.
Context (limit : Z) (a0 : MessageProtocol.state (M:=M)).
Notation Queue := (Queue M).
Notation ControlMessage := (ControlMessage M).
Notation output := (output M).
Notation op := (cmd Queue output exn).
Implicit Types (q s : Queue) (m : ControlMessage) (v : list ControlMessage).

(** The calls handed to the socket. *)
Definition sends (v : list ControlMessage) (o : output) : list ControlMessage :=
  match o with SendCall m _ => v ++ [m] | _ => v end.

(** The machine the queue represents, with [fl] as its message in flight. *)
Definition abs (fl : option ControlMessage) (q : Queue) : MessageProtocol.state :=
  {| waiting_t := transaction_message_queue q; waiting_n := normal_message_queue q;
     flying := fl; next := next_ref q |}.

(** A stored message is one that belongs in the table. *)
Definition row_ok (t : QueueType) (r : DBTransactionMessage) : Prop :=
  0 ≤ db_message_attempts r ∧
  ∀ ty : M, string_to_messagetype (db_message_type r) = Some ty →
    is_transaction_message ty = match t with Transaction => true | Normal => false end.

Definition settings_ok (q : Queue) : Prop :=
  transaction_message_attempts (config q) ≤ limit ∧
  Forall (row_ok Transaction) (transaction_rows q) ∧ Forall (row_ok Normal) (normal_rows q).

Definition reached (fl : option ControlMessage) (q : Queue) (v : list ControlMessage) : Prop :=
  steps limit a0 v (abs fl q) ∧ settings_ok q.

(** Between two statements the member [in_flight] may differ from the message in
    flight of the machine: [g] tells the latter from the former.  [φ] is what else is
    known of the members the machine has. *)
Definition during (g : option ControlMessage → option ControlMessage)
    (φ : option ControlMessage → list ControlMessage → list ControlMessage → Prop)
    (q : Queue) (v : list ControlMessage) : Prop :=
  reached (g (in_flight q)) q v ∧
  φ (in_flight q) (transaction_message_queue q) (normal_message_queue q).

Definition refined (q : Queue) (v : list ControlMessage) : Prop := reached (in_flight q) q v.

#[local] Ltac leaf := intros ? ? ?; cbn [sends]; done.

(** Operations on the other members. *)
Section framed.
Context (g : option ControlMessage → option ControlMessage).
Context (φ : option ControlMessage → list ControlMessage → list ControlMessage → Prop).
Notation J := (during g φ).

#[global] Instance keeps_ask {A} (h : nat → A) : Keeps sends J (ask h).
Proof. keep leaf. Qed.

Lemma rows_filter t uid s v :
  J s v → J (set_rows t (list_filter (λ r, db_unique_id r ≠ uid) _ (rows t s)) s) v.
Proof.
  intros [[Hs (Ha & Ht & Hn)] Hf].
  destruct t; (split; [split; [exact Hs|split_and!; try done]|exact Hf]);
    (eapply Forall_sublist; [|apply sublist_filter]; done).
Qed.

#[global] Instance keeps_remove uid t : Keeps sends J (remove_message_queue_message uid t).
Proof.
  unfold remove_message_queue_message. apply keeps_bind; [apply _|]. intros ok. apply keeps_get_with.
  intros s0. destruct ok.
  - apply hoare_modify. intros s v [-> H]. by apply rows_filter.
  - apply hoare_throw. by intros s v [_ H].
Qed.

#[global] Instance keeps_try_db (c : op ()) : Keeps sends J c → Keeps sends J (try_db c).
Proof. intros Hc. apply keeps_catch; [done|]. intros [] k; try done. intros [= <-]. apply _. Qed.

Lemma keeps_insert r t : row_ok t r → Keeps sends J (insert_message_queue_message r t).
Proof.
  intros Hr. unfold insert_message_queue_message. apply keeps_bind; [apply _|]. intros ok. apply keeps_get_with.
  intros s0. case_match; [apply hoare_throw; by intros s v [_ ?]|].
  apply hoare_modify. intros s v [-> [[Hs (Ha & Ht & Hn)] Hf]].
  destruct t; (split; [split; [exact Hs|split_and!; try done]|exact Hf]);
    (apply Forall_app; split; [done|by constructor]).
Qed.
End framed.

(** Losing messages; [ψ] does not look at the queues. *)
Section dropping.
Context (g : option ControlMessage → option ControlMessage) (ψ : option ControlMessage → Prop).
Notation J := (during g (λ fl _ _, ψ fl)).

Lemma during_drop s v lt ln q' :
  J s v → lt `sublist_of` transaction_message_queue s → ln `sublist_of` normal_message_queue s →
  transaction_message_queue q' = lt → normal_message_queue q' = ln → in_flight q' = in_flight s →
  next_ref q' = next_ref s → config q' = config s → transaction_rows q' = transaction_rows s →
  normal_rows q' = normal_rows s → J q' v.
Proof.
  intros [[Hs Hok] Hf] Hlt Hln Et En Ef Er Ec E1 E2. split; [split|].
  - eapply steps_silent; [exact Hs|]. rewrite Ef. unfold abs. rewrite Et, En, Er. by apply (step_drop _ (abs _ s)).
  - unfold settings_ok. by rewrite Ec, E1, E2.
  - by rewrite Ef.
Qed.

Lemma keeps_drop_normal n kept l :
  hoare sends (during g (λ fl _ n, ψ fl ∧ n = kept ++ l)) (drop_normal n kept l) (λ _, J) (λ _, J).
Proof.
  assert (∀ k s v, during g (λ fl _ n, ψ fl ∧ n = k) s v → J s v) as Hweak by (intros k s v (? & ? & ?); done).
  revert n kept. induction l as [|m l IH]; intros n kept; (destruct n as [|n]; cbn [drop_normal];
    [apply hoare_ret, Hweak|]); [apply hoare_ret, Hweak|].
  destruct (is_boot_notification_message (messageType m)).
  - eapply hoare_conseq; [apply (IH (S n) (kept ++ [m]))| |done|done]. intros s v.
    by rewrite <- app_assoc.
  - eapply hoare_bind; [|intros ?; eapply hoare_bind; [|intros ?; apply (IH n kept)]].
    + apply hoare_keeps; [|intros ?; apply (Hweak (kept ++ m :: l))].
      apply keeps_bind; [apply _|]. intros q. apply keeps_when, _.
    + apply hoare_modify. intros s v (Hr & Hf & Hn).
      destruct (during_drop s v (transaction_message_queue s) (kept ++ l) (set_normal_message_queue (kept ++ l) s))
        as [Hr' _]; try done.
      rewrite Hn. apply sublist_app; [done|]. by constructor.
Qed.

(** The transaction queue while its elements are moved: the machine still has [T]. *)
Definition held (T : list ControlMessage) (q : Queue) (v : list ControlMessage) : Prop :=
  steps limit a0 v {| waiting_t := T; waiting_n := normal_message_queue q;
                      flying := g (in_flight q); next := next_ref q |} ∧ settings_ok q ∧ ψ (in_flight q).

Lemma held_drop T s v : held T s v → transaction_message_queue s `sublist_of` T → J s v.
Proof.
  intros (Hs & Hok & Hf) Hsub. split; [split; [|done]|done]. eapply steps_silent; [exact Hs|].
  by apply (step_drop _ {| waiting_t := T |}).
Qed.

Lemma held_try_remove T uid :
  Keeps sends (λ s v, held T s v ∧ transaction_message_queue s `sublist_of` T)
    (try_db (remove_message_queue_message uid Transaction)).
Proof.
  apply keeps_catch; [|intros [] k; try done; intros [= <-]; apply _].
  apply keeps_bind; [keep leaf|]. intros ok. apply keeps_get_with. intros q.
  destruct ok; [apply hoare_modify|apply hoare_throw]; [|by intros s v [_ ?]].
  intros s v (-> & (Hs & (Ha & Ht & Hn) & Hf) & Hsub). split; [|exact Hsub].
  split; [exact Hs|]. split; [|exact Hf]. split_and!; [done| |done].
  eapply Forall_sublist; [|apply sublist_filter]; done.
Qed.

Lemma keeps_drop_updates T l b : l `sublist_of` T →
  hoare sends (held T) (drop_updates l b) (λ r s v, held T s v ∧ r.1 `sublist_of` l) (λ _, J).
Proof.
  intros Hl. revert b. induction l as [|m l IH]; intros b; cbn [drop_updates]; [by apply hoare_ret|].
  assert (l `sublist_of` T) as Hl' by (etrans; [|exact Hl]; by constructor).
  set (P s v := held T s v ∧ transaction_message_queue s `sublist_of` T).
  assert (∀ s v, P s v → J s v) as HP by (intros s v [? ?]; by eapply held_drop).
  eapply (hoare_bind _ _ _ _ (λ _, P)); [by apply hoare_modify|]. intros ?.
  eapply (hoare_bind _ _ _ _ (λ _, P)).
  { destruct b; [apply hoare_lift|by apply hoare_ret]. intros s v Hs. case_match; auto. }
  intros update. destruct (update && _).
  - eapply (hoare_bind _ _ _ _ (λ _, P)); [apply hoare_keeps; [apply held_try_remove|auto]|]. intros ?.
    eapply hoare_bind.
    { eapply hoare_pre; [by apply IH|by intros s v [? _]]. }
    intros [swap n]. apply hoare_ret. intros s v [? ?]. split; [done|by constructor].
  - eapply hoare_bind.
    { eapply hoare_pre; [by apply IH|by intros s v [? _]]. }
    intros [swap n]. apply hoare_ret. intros s v [? ?]. split; [done|by constructor].
Qed.

Lemma keeps_drop_messages : Keeps sends J drop_messages_from_normal_message_queue.
Proof.
  apply keeps_get_with. intros s0. cbv zeta. eapply hoare_conseq; [apply keeps_drop_normal| |done|done].
  intros s v (-> & Hr & Hf). done.
Qed.

Lemma keeps_drop_update_messages : Keeps sends J drop_update_messages_from_transactional_message_queue.
Proof.
  apply keeps_get_with. intros s0. set (T := transaction_message_queue s0).
  eapply (hoare_bind _ _ _ _ (λ r s v, held T s v ∧ r.1 `sublist_of` T)).
  - eapply hoare_conseq; [by apply keeps_drop_updates| |done|done]. by intros s v (-> & [? ?] & ?).
  - intros [swap n]. eapply (hoare_bind _ _ _ _ (λ _, J)).
    + apply hoare_modify. intros s v [Hs Hsub]. by apply (held_drop T).
    + intros ?. by apply hoare_ret.
Qed.

Lemma keeps_check_queue_sizes : Keeps sends J check_queue_sizes.
Proof.
  assert (∀ n, Keeps sends J (drop_normal_loop n)) as Hn.
  { induction n as [|n IH]; cbn [drop_normal_loop]; [apply _|].
    apply keeps_bind; [apply _|]. intros q. case_match; [|apply _].
    apply keeps_bind; [apply keeps_drop_messages|]. intros _.
    apply keeps_bind; [apply _|]. intros q'. case_match; [apply _|exact IH]. }
  assert (∀ n, Keeps sends J (drop_updates_loop n)) as Hu.
  { induction n as [|n IH]; cbn [drop_updates_loop]; [apply _|].
    apply keeps_bind; [apply _|]. intros q. case_match; [|apply _].
    apply keeps_bind; [apply keeps_drop_update_messages|]. intros []; [exact IH|apply _]. }
  apply keeps_bind; [apply _|]. intros q. case_match; [apply _|]. apply keeps_bind; auto.
Qed.
End dropping.

(** ** Adding messages *)

(** A message object that is not yet in a queue: the machine has not counted it. *)
Definition created (m : ControlMessage) (q : Queue) (v : list ControlMessage) : Prop :=
  steps limit a0 v {| waiting_t := transaction_message_queue q; waiting_n := normal_message_queue q;
                      flying := in_flight q; next := ref m |} ∧
  next_ref q = S (ref m) ∧ promise m = None ∧ 0 ≤ message_attempts m ∧ settings_ok q.

Lemma created_refined m q v : created m q v → refined q v.
Proof.
  intros (Hs & Hn & _ & _ & Hok). split; [|done]. eapply steps_silent; [exact Hs|].
  unfold abs. rewrite Hn. apply (step_skip _ {| waiting_t := _ |}).
Qed.

Lemma refined_id q v : refined q v ↔ during id (λ _ _ _, True) q v.
Proof. unfold refined, during. tauto. Qed.

Lemma Keeps_refined {A} (c : op A) : Keeps sends (during id (λ _ _ _, True)) c → Keeps sends refined c.
Proof.
  intros H. eapply hoare_conseq; [exact H|..]; intros; by apply refined_id.
Qed.

#[global] Instance refined_ask {A} (h : nat → A) : Keeps sends refined (ask h).
Proof. apply Keeps_refined. apply _. Qed.
#[global] Instance refined_try_remove uid t : Keeps sends refined (try_db (remove_message_queue_message uid t)).
Proof. apply Keeps_refined. apply _. Qed.
#[global] Instance refined_check_queue_sizes : Keeps sends refined check_queue_sizes.
Proof. apply Keeps_refined. apply (keeps_check_queue_sizes id (λ _, True)). Qed.
Lemma refined_try_insert r t : row_ok t r → Keeps sends refined (try_db (insert_message_queue_message r t)).
Proof. intros Hr. apply Keeps_refined, keeps_try_db. by apply keeps_insert. Qed.

(** Storing the message. *)
Lemma refined_persist {A} m t (k : DBTransactionMessage → op A) :
  0 ≤ message_attempts m → queue_type_of m = t →
  (∀ r, row_ok t r → Keeps sends refined (k r)) →
  Keeps sends refined (db_message ← clift (db_message_of m); k db_message).
Proof.
  intros Hm Ht Hk. eapply (hoare_bind _ _ _ _ (λ r s v, refined s v ∧ row_ok t r)).
  - apply hoare_lift. intros s v Hs. unfold db_message_of. destruct (uniqueId m); try done.
    split; [done|]. split; [done|]. cbn. intros ty ->%messagetype_of_name. rewrite <- Ht.
    unfold queue_type_of. by destruct (is_transaction_message (messageType m)).
  - intros r s v [Hs Hr]. by apply (Hk r).
Qed.

Lemma queue_type_transaction m : transactional m → queue_type_of m = Transaction.
Proof. unfold transactional, queue_type_of. by intros ->. Qed.
Lemma queue_type_normal m : ¬ transactional m → queue_type_of m = Normal.
Proof. unfold transactional, queue_type_of. by intros ->%not_true_is_false. Qed.

Lemma refined_add_normal m :
  ¬ transactional m → hoare sends (created m) (add_to_normal_message_queue m) (λ _, refined) (λ _, refined).
Proof.
  intros Hm. eapply hoare_assume; [by intros s v (_ & _ & _ & H & _); exact H|]. intros Ha.
  assert (∀ l q v, created m q v → l ≡ₚ m :: normal_message_queue q →
            refined (set_normal_message_queue l q) v) as Hadd.
  { intros l q v (Hs & Hn & Hp & _ & Hok) Hl. split; [|done]. eapply steps_silent; [exact Hs|].
    unfold abs. cbn. rewrite Hn. by apply (step_enqueue_n _ {| waiting_t := _ |} m l). }
  eapply (hoare_bind _ _ _ _ (λ _, refined)).
  - destruct (decide _); apply hoare_get; intros q; apply hoare_modify; intros s v [-> Hs];
      (apply Hadd; [done|]); [done|]. by rewrite Permutation_app_comm.
  - intros _. apply keeps_bind; [apply _|]. intros q.
    apply keeps_bind; [|intros _; keep leaf]. apply keeps_when.
    apply (refined_persist m Normal); [done|by apply queue_type_normal|]. intros r. apply refined_try_insert.
Qed.

Lemma refined_add_transaction m :
  transactional m → hoare sends (created m) (add_to_transaction_message_queue m) (λ _, refined) (λ _, refined).
Proof.
  intros Hm. eapply hoare_assume; [by intros s v (_ & _ & _ & H & _); exact H|]. intros Ha.
  apply hoare_get. intros q. eapply (hoare_bind _ _ _ _ (λ _, refined)).
  - apply hoare_modify. intros s v (-> & Hs & Hn & Hp & _ & Hok). split; [|done].
    eapply steps_silent; [exact Hs|]. unfold abs. cbn. rewrite Hn.
    by apply (step_enqueue_t _ {| waiting_t := _ |} m).
  - intros _. apply (refined_persist m Transaction); [done|by apply queue_type_transaction|]. intros r Hr.
    apply keeps_bind; [by apply refined_try_insert|]. intros _. keep leaf.
Qed.

(** The constructor of a message. *)
Lemma ControlMessage_new_ret r now j stall m : ControlMessage_new r now j stall = Ret m →
  ref m = r ∧ promise m = None ∧ message_attempts m = 0 ∧ timestamp m = now ∧ stall_until_accepted m = stall.
Proof.
  unfold ControlMessage_new. destruct (get_array j) as [a|]; [|done].
  destruct (jaction ← array_at a CALL_ACTION; string_of_json jaction) as [action| |]; cbn; try done.
  destruct (string_to_messagetype action); [|done]. destruct (a !! MESSAGE_ID) as [jid|]; [|done].
  destruct (MessageId_of_json jid); cbn; try done. by intros [= <-].
Qed.

Lemma refined_new_ref :
  hoare sends refined new_ref
    (λ r q v, steps limit a0 v {| waiting_t := transaction_message_queue q; waiting_n := normal_message_queue q;
                                  flying := in_flight q; next := r |} ∧ next_ref q = S r ∧ settings_ok q)
    (λ _, refined).
Proof. by intros q v [Hs Hok]. Qed.

Lemma refined_skip r q v :
  steps limit a0 v {| waiting_t := transaction_message_queue q; waiting_n := normal_message_queue q;
                      flying := in_flight q; next := r |} → next_ref q = S r → settings_ok q → refined q v.
Proof.
  intros Hs Hn Hok. split; [|done]. eapply steps_silent; [exact Hs|].
  unfold abs. rewrite Hn. apply (step_skip _ {| waiting_t := _ |}).
Qed.

Lemma refined_make_message j stall : hoare sends refined (make_message j stall) (λ m, created m) (λ _, refined).
Proof.
  eapply (hoare_bind _ _ _ _ (λ _, refined)); [apply refined_ask|]. intros now.
  eapply hoare_bind; [apply refined_new_ref|]. intros r. apply hoare_lift. intros s v (Hs & Hn & Hok).
  destruct (ControlMessage_new r now j stall) as [m| |] eqn:Em; [|by apply (refined_skip r)..].
  apply ControlMessage_new_ret in Em as (<- & Hp & Ha & _). by split_and!; [..|lia|].
Qed.

#[global] Instance refined_push_call j stall : Keeps sends refined (push_call j stall).
Proof.
  apply keeps_bind; [apply _|]. intros q. case_match; [apply _|].
  eapply hoare_bind; [apply refined_make_message|]. intros m.
  eapply (hoare_bind _ _ _ _ (λ _, refined)); [|intros _; by apply hoare_emit].
  destruct (is_transaction_message (messageType m)) eqn:Et; [by apply refined_add_transaction|].
  apply hoare_get. intros q'. apply hoare_when.
  - intros _. apply hoare_forget, refined_add_normal. unfold transactional. by rewrite Et.
  - intros _ s v [_ Hs]. by eapply created_refined.
Qed.

#[global] Instance refined_push_call_async j : Keeps sends refined (push_call_async j).
Proof.
  eapply hoare_bind; [apply refined_make_message|]. intros m. apply hoare_get. intros q. apply hoare_forget.
  assert (∀ e, hoare sends (created m) (promise_set_value m e;; mret tt) (λ _, refined) (λ _, refined)) as Hp.
  { intros e s v Hs%created_refined. unfold promise_set_value. by destruct (promise m). }
  case_match; [apply Hp|]. destruct (is_transaction_message (messageType m)) eqn:Et; [by apply refined_add_transaction|].
  case_match; [apply Hp|]. apply refined_add_normal. unfold transactional. by rewrite Et.
Qed.

Lemma refined_restore_message t r : row_ok t r → Keeps sends refined (restore_message t r).
Proof.
  intros [Ha Ht]. eapply (hoare_bind _ _ _ _ (λ _, refined)); [apply refined_ask|]. intros now.
  eapply hoare_bind; [apply refined_new_ref|]. intros n.
  eapply (hoare_bind _ _ _ _ (λ m s v, created m s v ∧ message_attempts m = 0)).
  { apply hoare_lift. intros s v (Hs & Hn & Hok).
    destruct (ControlMessage_new n now _ true) as [m| |] eqn:Em; [|by apply (refined_skip n)..].
    apply ControlMessage_new_ret in Em as (<- & Hp & Ham & _). split; [|done]. by split_and!; [..|lia|]. }
  intros m. destruct (string_to_messagetype (db_message_type r)) as [ty|] eqn:Ety.
  2: { apply hoare_throw. intros s v [Hs _]. by eapply created_refined. }
  specialize (Ht ty eq_refl). apply hoare_get. intros q.
  destruct t; apply hoare_modify; intros s v (-> & (Hs & Hn & Hp & _ & Hok) & _); (split; [|done]);
    (eapply steps_silent; [exact Hs|]); unfold abs; cbn; rewrite Hn.
  - apply (step_enqueue_n _ {| waiting_t := _ |} (with_persisted m ty (db_timestamp r) (db_message_attempts r)));
      [unfold transactional; cbn; by rewrite Ht|done..|by rewrite Permutation_app_comm].
  - by apply (step_enqueue_t _ {| waiting_t := _ |} (with_persisted m ty (db_timestamp r) (db_message_attempts r))).
Qed.

Lemma refined_restore_queue b t : Keeps sends refined (restore_queue b t).
Proof.
  unfold restore_queue. apply keeps_catch; [|intros [] k; try done; intros [= <-]; apply _].
  eapply (hoare_bind _ _ _ _ (λ l s v, refined s v ∧ Forall (row_ok t) l)).
  - eapply (hoare_bind _ _ _ _ (λ _, refined)); [apply refined_ask|]. intros ok. apply hoare_get. intros q.
    destruct ok; [apply hoare_ret|apply hoare_throw]; intros s v [-> Hs]; [|done].
    split; [done|]. destruct Hs as [_ (_ & Ht & Hn)]. rewrite env_order_perm. by destruct t.
  - intros l. eapply hoare_assume; [by intros s v [_ H]; exact H|]. intros Hl.
    apply (hoare_conseq _ _ refined _ _ (λ _, refined) _ (λ _, refined)); [|by intros s v [? _]|done|done].
    apply keeps_when, keeps_bind; [|intros _; keep leaf].
    clear -Hl MessageKindLaws0. induction Hl as [|r l Hr _ IH]; [apply _|]. cbn [cfor].
    apply keeps_bind; [|intros _; exact IH]. case_match; [apply _|by apply refined_restore_message].
Qed.

#[global] Instance refined_restore b : Keeps sends refined (get_persisted_messages_from_db b).
Proof.
  apply keeps_bind; [apply refined_restore_queue|]. intros _.
  apply keeps_bind; [apply refined_restore_queue|]. intros _.
  apply keeps_bind; [apply _|]. intros q. apply keeps_when.
  apply keeps_catch; [|intros [] k; try done; intros [= <-]; apply _].
  apply keeps_bind; [apply _|]. intros ok. destruct ok; [|apply _]. apply keeps_modify.
  intros s v [Hs (Ha & Ht & _)]. by split.
Qed.

(** ** Timeouts and errors

    [flight m]: the message in flight is [m]; [landed]: the machine has no message in
    flight any more, though the member still holds one. *)
Definition flight m : Queue → list ControlMessage → Prop := during (λ _, Some m) (λ fl _ _, fl = Some m).
Definition landed : Queue → list ControlMessage → Prop := during (λ _, None) (λ _ _ _, True).

Definition flying_as m : Queue → list ControlMessage → Prop := during (λ _, Some m) (λ _ _ _, True).

Lemma flight_refined m s v : flight m s v → refined s v.
Proof. intros [H Hf]. unfold refined. by rewrite Hf. Qed.

Lemma flight_settle (g : option ControlMessage → option ControlMessage) φ m s v :
  g (in_flight s) = Some m → during g φ s v → landed s v.
Proof.
  intros Hg [[Hs Hok] _]. split; [split; [|done]|done]. eapply steps_silent; [exact Hs|]. rewrite Hg.
  by apply (step_settle _ (abs (Some m) s) m).
Qed.

Lemma landed_reset : hoare sends landed reset_in_flight (λ _, refined) (λ _, refined).
Proof. intros s v [H _]. exact H. Qed.

Lemma landed_settle m e : hoare sends (flight m) (settle_in_flight e) (λ _, landed) (λ _, refined).
Proof.
  intros s v Hs. pose proof Hs as [_ Hf]. unfold settle_in_flight. rewrite bind_get, Hf.
  unfold promise_set_value. destruct (promise m); [by apply flight_refined in Hs|]. cbn.
  destruct (flight_settle _ _ m s v eq_refl Hs) as [H _]. by split.
Qed.

(** The database statements never throw past their handler. *)
Lemma landed_try_remove uid t E :
  hoare sends landed (try_db (remove_message_queue_message uid t)) (λ _, landed) E.
Proof.
  apply (hoare_catch _ _ _ _ _ _ (λ x s v, x = Some QueryExecutionException ∧ landed s v)).
  - eapply (hoare_bind _ _ _ _ (λ _, landed)); [by intros s v Hs|]. intros ok. apply hoare_get. intros q.
    destruct ok; [apply hoare_modify; intros s v [-> Hs]; by apply rows_filter|].
    apply hoare_throw. by intros s v [_ Hs].
  - intros []; try (by intros s v [? _]). apply hoare_ret. by intros s v [_ ?].
  - by intros s v [? _].
Qed.

(** The retried message: the same one under a new id. *)
Lemma flight_renew m :
  hoare sends (flight m) (renew_message_id m)
    (λ m' s v, flight m s v ∧ same_message m m' ∧ message_attempts m' = message_attempts m ∧
       timestamp m' = timestamp m ∧ ∃ i, message m' = <[MESSAGE_ID := JString i]> (message m)) (λ _, flight m).
Proof.
  eapply (hoare_bind _ _ _ _ (λ _, flight m)); [apply keeps_ask|]. intros i. apply hoare_ret.
  intros s v Hs. split; [done|]. split_and!; try done. by exists i.
Qed.

Lemma same_message_timestamp m m' t : same_message m m' → same_message m (with_timestamp m' t).
Proof. done. Qed.

Lemma flight_push_front m m' :
  same_message m m' → message_attempts m' = message_attempts m →
  (transactional m → message_attempts m < limit) →
  hoare sends (flying_as m) (push_front (queue_type_of m') m') (λ _, landed) (λ _, refined).
Proof.
  intros Hm Ha Hl s v [[Hs Hok] _]. unfold push_front, queue_type_of.
  destruct (is_transaction_message (messageType m')) eqn:Et; (split; [split; [|exact Hok]|done]);
    (eapply steps_silent; [exact Hs|]); unfold abs; cbn.
  - assert (transactional m) as Htm by (by apply (same_transactional m m')).
    apply (step_retry_t _ (abs (Some m) s) m m'); auto.
  - assert (¬ transactional m) as Htm by (rewrite <- (same_transactional m m') by done; unfold transactional; by rewrite Et).
    by apply (step_retry_n _ (abs (Some m) s) m m').
Qed.

Lemma landed_schedule_retry m : message_attempts m < limit →
  hoare sends (flight m) (schedule_retry m) (λ _, landed) (λ _, refined).
Proof.
  intros Hl. apply hoare_get. intros q. apply hoare_forget.
  eapply (hoare_bind _ _ _ _ (λ _ s v, flight m s v ∧ is_Some (message m !! MESSAGE_ID))).
  { apply hoare_lift. intros s v Hs. unfold array_at. destruct (message m !! MESSAGE_ID) as [j|] eqn:Ej; cbn.
    - destruct (string_of_json j); eauto using flight_refined.
    - by apply flight_refined in Hs. }
  intros old_id. eapply hoare_assume; [by intros s v [_ H]; exact H|]. intros [j Hj].
  eapply hoare_bind; [eapply hoare_conseq; [apply flight_renew|by intros s v [? _]| |intros ?; apply flight_refined];
    intros ? ? ? H; exact H|].
  intros m1. eapply (hoare_bind _ _ _ _ (λ m2 s v, flight m s v ∧ same_message m m2 ∧
    message_attempts m2 = message_attempts m ∧ ∃ i, message m2 !! MESSAGE_ID = Some (JString i))).
  { assert (∀ t s v, flight m s v ∧ same_message m m1 ∧ message_attempts m1 = message_attempts m ∧
      timestamp m1 = timestamp m ∧ (∃ i, message m1 = <[MESSAGE_ID := JString i]> (message m)) →
      flight m s v ∧ same_message m (with_timestamp m1 t) ∧ message_attempts (with_timestamp m1 t) = message_attempts m ∧
      ∃ i, message (with_timestamp m1 t) !! MESSAGE_ID = Some (JString i)) as Hts.
    { intros t s v (Hs & Hm & Ha & _ & i & Ei). split_and!; [done..|]. exists i. cbn. rewrite Ei.
      apply list_lookup_insert_eq. by eapply lookup_lt_Some. }
    case_match; [by apply hoare_ret, Hts|].
    eapply (hoare_bind _ _ _ _ (λ _ s v, flight m s v ∧ same_message m m1 ∧ message_attempts m1 = message_attempts m ∧
      timestamp m1 = timestamp m ∧ (∃ i, message m1 = <[MESSAGE_ID := JString i]> (message m)))).
    - intros s v Hs. exact Hs.
    - intros now. by apply hoare_ret, Hts. }
  intros m2. eapply hoare_assume; [by intros s v [_ H]; exact H|]. intros (Hm & Ha & i & Hi).
  eapply (hoare_bind _ _ _ _ (λ _, flying_as m)); [apply hoare_modify; by intros s v [[H _] _]|]. intros ?.
  eapply hoare_bind; [by apply flight_push_front|]. intros ?.
  eapply (hoare_bind _ _ _ _ (λ _, landed)); [|intros _; by apply hoare_modify].
  apply hoare_when; [|done]. intros _. unfold array_at. rewrite Hi.
  eapply (hoare_bind _ _ _ _ (λ _, landed)); [by apply hoare_lift|]. intros new_id. by apply hoare_emit.
Qed.

Lemma landed_retry_boot m : ¬ transactional m →
  hoare sends (flight m) (retry_boot_notification m) (λ _, landed) (λ _, refined).
Proof.
  intros Hm. apply hoare_get. intros q. apply hoare_forget.
  eapply hoare_bind; [eapply hoare_conseq; [apply flight_renew|done| |intros ?; apply flight_refined];
    intros ? ? ? H; exact H|].
  intros m1. cbv zeta. set (m2 := with_timestamp m1 _).
  eapply hoare_assume; [by intros s v [_ H]; exact H|]. intros (Hs & Ha & _).
  eapply (hoare_bind _ _ _ _ (λ _, flying_as m)); [apply hoare_modify; by intros s v [[H _] _]|]. intros _.
  eapply (hoare_bind _ _ _ _ (λ _, landed)); [|intros _; by apply hoare_modify].
  replace Normal with (queue_type_of m2); [by apply flight_push_front|].
  apply queue_type_normal. by rewrite (same_transactional m m2).
Qed.

#[global] Instance refined_handle_timeout e : Keeps sends refined (handle_timeout_or_callerror e).
Proof.
  apply keeps_get_with. intros q. destruct (in_flight q) as [m|] eqn:Ef; [|apply hoare_ret; by intros s v [_ ?]].
  apply (hoare_conseq _ _ (λ s v, flight m s v ∧ settings_ok q) _ _ (λ _, refined) _ (λ _, refined)); [|..|done|done].
  2: { intros s v [-> Hs]. destruct (Hs) as [_ Hok]. split; [|done]. split; [|done]. unfold refined in Hs. by rewrite Ef in Hs. }
  eapply hoare_assume; [by intros s v [_ H]; exact H|]. intros (Hlim & _ & _).
  eapply (hoare_bind _ _ _ _ (λ _, landed)).
  - apply (hoare_conseq _ _ (flight m) _ _ (λ _, landed) _ (λ _, refined)); [|by intros s v [? _]|done|done].
    destruct (is_transaction_message (messageType m) || _) eqn:Et; [|apply orb_false_elim in Et as [Et _]; case_match].
    + destruct (Z.ltb_spec (message_attempts m) (transaction_message_attempts (config q))).
      * apply landed_schedule_retry. lia.
      * eapply hoare_bind; [apply landed_settle|]. intros ?. apply landed_try_remove.
    + apply landed_retry_boot. unfold transactional. by rewrite Et.
    + apply landed_settle.
  - intros ?. eapply hoare_bind; [apply landed_reset|]. intros ?. by apply hoare_emit.
Qed.

(** ** The worker *)
Lemma select_message_in q now t i m : select_message q now = Some (t, i, m) →
  match t with
  | Transaction => i = 0%nat ∧ ∃ l, transaction_message_queue q = m :: l
  | Normal => normal_message_queue q !! i = Some m
  end.
Proof.
  unfold select_message. set (normal := list_find _ _).
  assert ((λ '(i, m), (Normal, i, m)) <$> normal = Some (t, i, m) →
          t = Normal ∧ normal_message_queue q !! i = Some m) as Hn.
  { destruct normal as [[i' m']|] eqn:En; [|done]. intros [= <- <- <-].
    by apply list_find_Some in En as (? & _). }
  destruct (transaction_message_queue q) as [|msg l] eqn:Et.
  - intros [-> ?]%Hn. done.
  - case_match; [intros [= <- <- <-]; eauto|]. intros [-> ?]%Hn. done.
Qed.

(** The message selected, on its way into [in_flight]. *)
Definition selected (q : Queue) : Queue → list ControlMessage → Prop :=
  during (λ _, None) (λ fl t n, fl = None ∧ t = transaction_message_queue q ∧ n = normal_message_queue q).

Lemma selected_refined q s v : selected q s v → refined s v.
Proof. intros [H (Hf & _)]. unfold refined. by rewrite Hf. Qed.

Lemma selected_replace q m :
  hoare sends (selected q) (replace_transaction_id (with_attempts m (message_attempts m + 1)))
    (λ m' s v, selected q s v ∧ same_message m m' ∧ message_attempts m' = message_attempts m + 1) (λ _, refined).
Proof.
  apply hoare_get. intros q'. apply hoare_forget. eapply (hoare_bind _ _ _ _ (λ _, selected q)).
  { apply hoare_lift. intros s v Hs. case_match; eauto using selected_refined. }
  intros mid. destruct (_ !! mid) as [tid|]; [|by apply hoare_ret].
  eapply (hoare_bind _ _ _ _ (λ _, selected q)).
  { apply hoare_lift. intros s v Hs. case_match; eauto using selected_refined. }
  intros a. eapply (hoare_bind _ _ _ _ (λ _, selected q)); [by apply hoare_modify|].
  intros ?. by apply hoare_ret.
Qed.

Lemma refined_send q t i m now : select_message q now = Some (t, i, m) →
  hoare sends (selected q) (send_message t i m) (λ _, refined) (λ _, refined).
Proof.
  intros Hsel%select_message_in. unfold send_message. eapply hoare_bind; [apply selected_replace|]. intros m'.
  eapply hoare_assume; [by intros s v [_ H]; exact H|]. intros [Hm Ha].
  eapply (hoare_bind _ _ _ _ (λ _, during (λ _, None) (λ fl t n, fl = Some m' ∧
    t = transaction_message_queue q ∧ n = normal_message_queue q))).
  { apply hoare_modify. by intros s v [[H (_ & ? & ?)] _]. }
  intros ?. eapply (hoare_bind _ _ _ _ (λ _ s v, refined s (v ++ [m']))).
  { apply hoare_get. intros q'. destruct t; apply hoare_modify; intros s v (-> & [Hs Hok] & Hf & Ht & Hn);
      (split; [|exact Hok]); (eapply steps_step; [exact Hs|]); unfold abs; cbn; rewrite Hf.
    - apply (step_send_n _ (abs None q') i m m'); cbn; by rewrite ?Hn.
    - destruct Hsel as (-> & l & Hl). rewrite Ht, Hl.
      by apply (step_send_t _ {| waiting_t := m :: l; flying := None |} m m' l). }
  intros ?. eapply (hoare_bind _ _ _ _ (λ _ s v, refined s (v ++ [m']))); [by intros s v Hs|]. intros sent.
  eapply (hoare_bind _ _ _ _ (λ _, refined)); [by apply hoare_emit|]. intros ?.
  apply keeps_bind; [|intros ?; keep leaf]. destruct sent; [keep leaf|apply refined_handle_timeout].
Qed.

#[global] Instance refined_try_send : Keeps sends refined try_send.
Proof.
  apply keeps_get_with. intros q. destruct (paused q); [apply hoare_ret; by intros s v [_ ?]|].
  destruct (in_flight q) as [m|] eqn:Ef; [apply hoare_ret; by intros s v [_ ?]|].
  eapply (hoare_bind _ _ _ _ (λ _, selected q)).
  { intros s v [-> [Hs Hok]]. rewrite Ef in Hs. done. }
  intros now. destruct (select_message q now) as [[[t i] m]|] eqn:Es.
  2: { apply hoare_modify. intros s v Hs%selected_refined. exact Hs. }
  eapply (hoare_bind _ _ _ _ (λ _, selected q)).
  { apply hoare_lift. intros s v Hs. case_match; eauto using selected_refined. }
  intros mid. pose proof (refined_send q t i m now Es) as Hsend.
  destruct (next_message_to_send q); [|done]. case_match; [|done].
  apply hoare_ret. apply selected_refined.
Qed.

#[global] Instance refined_resume d : Keeps sends refined (resume d).
Proof. keep leaf. Qed.

#[global] Instance refined_pause : Keeps sends refined pause.
Proof. keep leaf. Qed.

(** ** Answers *)
#[global] Instance refined_handle_call_result e : Keeps sends refined (handle_call_result e).
Proof.
  apply keeps_get_with. intros q. destruct (in_flight q) as [m|] eqn:Ef; [|apply hoare_ret; by intros s v [_ ?]].
  apply (hoare_conseq _ _ (flight m) _ _ (λ _, refined) _ (λ _, refined)); [|..|done|done].
  2: { intros s v [-> Hs]. unfold refined in Hs. by rewrite Ef in Hs. }
  assert (∀ {A} (r : outcome exn A), hoare sends (flight m) (clift r) (λ _, flight m) (λ _, refined)) as Hlift.
  { intros A r. apply hoare_lift. intros s v Hs. destruct r; eauto using flight_refined. }
  eapply hoare_bind; [apply Hlift|]. intros mid. case_match; [apply hoare_ret; apply flight_refined|].
  eapply hoare_bind; [apply Hlift|]. intros action.
  destruct (string_to_messagetype _); [|apply hoare_throw; apply flight_refined]. cbv zeta.
  eapply hoare_bind; [apply landed_settle|]. intros ?.
  eapply (hoare_bind _ _ _ _ (λ _, landed)); [apply hoare_when; [intros _; apply landed_try_remove|done]|]. intros ?.
  eapply hoare_bind; [apply landed_reset|]. intros ?.
  eapply (hoare_bind _ _ _ _ (λ _, refined)); [apply hoare_when; [intros _; by apply hoare_emit|done]|].
  intros ?. by apply hoare_ret.
Qed.

#[global] Instance refined_receive_json n j : Keeps sends refined (receive_json n j).
Proof. keep leaf. Qed.

Lemma refined_replace_in_queue kept l ids tid :
  hoare sends (during id (λ _ t _, t = kept ++ l)) (replace_in_queue kept l ids tid) (λ _, refined) (λ _, refined).
Proof.
  assert (∀ k s v, during id (λ _ t _, t = k) s v → refined s v) as Hweak by (by intros k s v [? _]).
  revert kept. induction l as [|m l IH]; intros kept; cbn [replace_in_queue]; [apply hoare_ret, Hweak|].
  eapply (hoare_bind _ _ _ _ (λ _, during id (λ _ t _, t = kept ++ m :: l))).
  { apply hoare_lift. intros s v Hs. case_match; eauto. }
  intros a. eapply hoare_bind; [|intros ?; apply IH]. apply hoare_modify. intros s v [[Hs Hok] Et].
  split; [split; [|exact Hok]|by rewrite <- app_assoc]. eapply steps_silent; [exact Hs|]. unfold abs. cbn.
  apply (step_rewrite _ (abs (in_flight s) s)). cbn. rewrite Et. apply Forall2_app; [|constructor; [done|]];
    by apply Forall_Forall2_diag, Forall_true.
Qed.

#[global] Instance refined_start_handled sid tid : Keeps sends refined (notify_start_transaction_handled sid tid).
Proof.
  apply keeps_bind; [keep leaf|]. intros _. apply keeps_get_with. intros q.
  eapply (hoare_bind _ _ _ _ (λ _, refined)); [|intros ?; keep leaf].
  destruct (_ !! sid); [|apply hoare_ret; by intros s v [_ ?]].
  eapply hoare_conseq; [apply refined_replace_in_queue| |done|done]. by intros s v [-> Hs].
Qed.

(** ** Every request *)
Definition within (r : request) : Prop :=
  match r with RUpdateAttempts n => n ≤ limit | _ => True end.

Lemma refined_handle r : within r → Keeps sends refined (handle r).
Proof.
  intros Hr. destruct r; cbn [handle]; try apply _; try (by keep leaf).
  all: apply keeps_get_with; intros q; apply hoare_modify; intros s v [-> [Hs (Ha & Ht & Hn)]];
    (split; [exact Hs|by split_and!]).
Qed.

Lemma refined_run rs q v : Forall within rs → refined q v →
  refined (run rs q).1 (foldl sends v (run rs q).2).
Proof.
  intros Hrs. revert q v. induction Hrs as [|r rs Hr _ IH]; intros q v Hq; [done|]. cbn.
  pose proof (keeps_st _ _ _ _ _ (refined_handle r Hr) Hq) as H1. specialize (IH _ _ H1).
  destruct (run rs (st_of (handle r q))) as [q' t]. cbn [fst snd]. by rewrite foldl_app.
Qed.

End refines.
End MessageQueueRefines.
