(* ===== verification/MessageQueueFacts.v ===== *)
(** * What the message queue guarantees

    Order and number of transmissions in every run (through the protocol), the clean-up
    of queues that are too long, what the worker sends, and timers that come late. *)

From S2P Require Import Prelude CiString Json MessageTypes MessageQueue MessageProtocol MessageQueueRefines.
From Stdlib Require Import Strings.String.
#[local] Notation length := Datatypes.length.

Module MessageQueueFacts.
Import Json CiString MessageQueue MessageProtocol MessageQueueRefines.

Section facts.
Context {M : Type} `{MK : MessageKind M} `{!MessageKindLaws M} `{ENV : Environment}.
Notation Queue := (Queue M).
Notation ControlMessage := (ControlMessage M).
Notation output := (output M).
Notation op := (cmd Queue output exn).
Implicit Types (q s : Queue) (m : ControlMessage).

(** The messages of the calls in a trace. *)
Definition sent_calls (t : list output) : list ControlMessage := foldl sends [] t.

(** Tables whose rows were written by the queue. *)
Definition tables_ok (trows nrows : list DBTransactionMessage) : Prop :=
  Forall (row_ok (M:=M) Transaction) trows ∧ Forall (row_ok (M:=M) Normal) nrows.

(** The largest number of attempts configured during a run. *)
Definition attempts_limit (c : MessageQueueConfig M) (rs : list request) : Z :=
  foldr (λ r n, match r with RUpdateAttempts k => Z.max k n | _ => n end) (transaction_message_attempts c) rs.

Lemma attempts_limit_ok c rs :
  transaction_message_attempts c ≤ attempts_limit c rs ∧ Forall (within (attempts_limit c rs)) rs.
Proof.
  induction rs as [|r rs [IH1 IH2]]; [done|]. cbn [attempts_limit foldr].
  fold (attempts_limit c rs).
  assert (∀ n, attempts_limit c rs ≤ n → Forall (within n) rs) as Hmono.
  { intros n Hn. eapply Forall_impl; [exact IH2|]. intros []; cbn; auto. lia. }
  destruct r; cbn; (split; [try lia; done|]); (constructor; [cbn; try done; lia|]); apply Hmono; lia.
Qed.

Lemma new_refined c notify trows nrows limit :
  transaction_message_attempts c ≤ limit → tables_ok trows nrows →
  refined limit (abs None (MessageQueue_new c notify trows nrows)) (MessageQueue_new c notify trows nrows) [].
Proof. intros Hc [Ht Hn]. split; [constructor|]. by split_and!. Qed.

(** C17: every run of the message queue, whatever the clock, the database, the socket,
    the parser and the timers do and whichever requests throw, is a run of the
    transmission protocol: the same messages are handed to the socket in the same
    order, and at the end both have the same queues and the same message in flight. *)
Theorem message_queue_refines_protocol c notify trows nrows rs :
  tables_ok trows nrows →
  let q0 := MessageQueue_new c notify trows nrows in
  let '(q, t) := run rs q0 in
  steps (attempts_limit c rs) (abs (in_flight q0) q0) (sent_calls t) (abs (in_flight q) q).
Proof.
  intros Hr. cbv zeta. destruct (attempts_limit_ok c rs) as [Hc Hrs].
  destruct (refined_run (attempts_limit c rs) _ rs _ [] Hrs (new_refined c notify trows nrows _ Hc Hr)) as [H _].
  by destruct (run rs _) as [q t].
Qed.

(** C18: the transaction messages a run hands to the socket are in the order in which
    they entered the queue: no message is sent, for the first time or again, once a
    younger one has been. *)
Theorem transaction_messages_in_order c notify trows nrows rs :
  tables_ok trows nrows →
  StronglySorted le (transaction_refs (sent_calls (run rs (MessageQueue_new c notify trows nrows)).2)).
Proof.
  intros Hr. destruct (attempts_limit_ok c rs) as [Hc Hrs].
  destruct (refined_run (attempts_limit c rs) _ rs _ [] Hrs (new_refined c notify trows nrows _ Hc Hr)) as [H _].
  apply (steps_ordered _ _ _ _ (initial_ordered 0)) in H as [_ _ _ H _].
  by apply StronglySorted_app_1_l in H.
Qed.

(** A transaction message is handed to the socket at most as often as configured
    (the largest number of attempts configured during the run; a limit below one
    still allows the first attempt). *)
Lemma transaction_attempts_bounded c notify trows nrows rs r :
  tables_ok trows nrows →
  Z.of_nat (times r (sent_calls (run rs (MessageQueue_new c notify trows nrows)).2)) ≤
  Z.max 1 (attempts_limit c rs).
Proof.
  intros Hr. destruct (attempts_limit_ok c rs) as [Hc Hrs].
  destruct (refined_run (attempts_limit c rs) _ rs _ [] Hrs (new_refined c notify trows nrows _ Hc Hr)) as [H _].
  by apply (steps_limited _ _ _ _ (initial_ordered 0) (initial_limited _ 0)) in H as [_ _ ?].
Qed.

(** ** Queues that are too long

    The effect of the two dropping loops on the queues alone. *)
Definition is_boot m : Prop := is_boot_notification_message (messageType m) = true.
#[global] Instance is_boot_dec m : Decision (is_boot m).
Proof. unfold is_boot. apply _. Defined.

Definition is_update m : Prop := is_transaction_update_message m = Ret true.

(** Asking the message whether it is an update does not throw. *)
Definition tells_update m : Prop := ∃ u, is_transaction_update_message m = Ret u.
#[global] Instance is_update_dec m : Decision (is_update m).
Proof.
  unfold is_update. destruct (is_transaction_update_message m) as [[]| |]; [left|right..]; congruence.
Defined.

Fixpoint drop_first_normal (n : nat) (l : list ControlMessage) : list ControlMessage :=
  match n, l with
  | O, _ | _, [] => l
  | S n', m :: l' => if decide (is_boot m) then m :: drop_first_normal n l' else drop_first_normal n' l'
  end.

Fixpoint drop_every_second (l : list ControlMessage) (b : bool) : list ControlMessage * nat :=
  match l with
  | [] => ([], O)
  | m :: l' =>
      if b && bool_decide (is_update m) && (1 <? length l')%nat
      then let r := drop_every_second l' false in (r.1, S r.2)
      else let r := drop_every_second l' true in (m :: r.1, r.2)
  end.

(** An update message that may be dropped: two more messages are behind it. *)
Definition droppable (l : list ControlMessage) : Prop :=
  ∃ i m, l !! i = Some m ∧ is_update m ∧ (i + 2 < length l)%nat.

Lemma drop_first_normal_sublist n l : drop_first_normal n l `sublist_of` l.
Proof.
  revert n. induction l as [|m l IH]; intros [|n]; cbn; try done. case_decide; by constructor.
Qed.

Lemma drop_first_normal_boots n l : filter is_boot (drop_first_normal n l) = filter is_boot l.
Proof.
  revert n. induction l as [|m l IH]; intros [|n]; cbn [drop_first_normal]; try done.
  case_decide; [by rewrite !filter_cons_True, IH|by rewrite filter_cons_False, IH].
Qed.

Lemma drop_first_normal_stuck n l :
  (0 < n)%nat → length (drop_first_normal n l) = length l → Forall is_boot l.
Proof.
  intros Hn. revert Hn. destruct n as [|n]; [lia|intros _]. induction l as [|m l IH]; cbn; [constructor|].
  case_decide; cbn; [constructor; [done|]; apply IH; lia|].
  pose proof (sublist_length _ _ (drop_first_normal_sublist n l)). lia.
Qed.

Lemma drop_every_second_sublist l b : (drop_every_second l b).1 `sublist_of` l.
Proof. revert b. induction l as [|m l IH]; intros b; cbn; [done|]. case_match; cbn; by constructor. Qed.

Lemma drop_every_second_length l b :
  (length (drop_every_second l b).1 + (drop_every_second l b).2 = length l)%nat.
Proof.
  revert b. induction l as [|m l IH]; intros b; cbn; [done|].
  case_match; cbn; [specialize (IH false)|specialize (IH true)]; lia.
Qed.

Lemma drop_every_second_last l b : last (drop_every_second l b).1 = last l.
Proof.
  revert b. induction l as [|m l IH]; intros b; cbn [drop_every_second]; [done|]. case_match eqn:E; cbn [fst].
  - apply andb_prop in E as [_ Hl%Nat.ltb_lt]. rewrite IH. by destruct l; [cbn in Hl; lia|].
  - rewrite !last_cons, IH. done.
Qed.

Lemma drop_every_second_keeps l b :
  filter (λ m, ¬ is_update m) (drop_every_second l b).1 = filter (λ m, ¬ is_update m) l.
Proof.
  revert b. induction l as [|m l IH]; intros b; cbn [drop_every_second]; [done|]. case_match eqn:E; cbn [fst].
  - apply andb_prop in E as [[_ Hu%bool_decide_eq_true]%andb_prop _]. by rewrite filter_cons_False, IH by tauto.
  - by rewrite !filter_cons, IH.
Qed.

Lemma drop_every_second_stuck l : (drop_every_second l true).2 = 0%nat → ¬ droppable l.
Proof.
  induction l as [|m l IH]; cbn [drop_every_second]; [by intros _ (i & m & H & _)|].
  case_match eqn:E; cbn [snd]; [done|]. intros H0 (i & m' & Hi & Hu & Hl). cbn in Hl. destruct i as [|i].
  - injection Hi as ->. rewrite bool_decide_eq_true_2 in E by done. destruct (Nat.ltb_spec 1 (length l)); [done|lia].
  - apply IH; [done|]. exists i, m'. split_and!; [done|done|lia].
Qed.

(** The loops do this, and always end.  [shape T N C]: the members they read. *)
Definition shape (T N : list ControlMessage) (C : MessageQueueConfig M) (q : Queue) (_ : ()) : Prop :=
  transaction_message_queue q = T ∧ normal_message_queue q = N ∧ config q = C.
Definition ignore (_ : ()) (_ : output) : () := tt.
Definition never (_ : option exn) (_ : Queue) (_ : ()) : Prop := False.

Lemma shape_try_remove T N C uid t :
  hoare ignore (shape T N C) (try_db (remove_message_queue_message uid t)) (λ _, shape T N C) never.
Proof.
  apply (hoare_catch _ _ _ _ _ _ (λ x s v, x = Some QueryExecutionException ∧ shape T N C s v)).
  - eapply (hoare_bind _ _ _ _ (λ _, shape T N C)); [by intros s v Hs|]. intros ok. apply hoare_get. intros q.
    destruct ok; [apply hoare_modify; intros s v [-> Hs]; by destruct t|].
    apply hoare_throw. by intros s v [_ Hs].
  - intros []; try (by intros s v [? _]). apply hoare_ret. by intros s v [_ ?].
  - by intros s v [? _].
Qed.

Lemma drop_normal_shape T C n kept l :
  hoare ignore (shape T (kept ++ l) C) (drop_normal n kept l) (λ _, shape T (kept ++ drop_first_normal n l) C) never.
Proof.
  revert n kept. induction l as [|m l IH]; intros [|n] kept; cbn [drop_normal drop_first_normal];
    try (by apply hoare_ret).
  case_decide as Hb; [rewrite Hb|rewrite (not_true_is_false _ Hb)].
  - specialize (IH (S n) (kept ++ [m])). rewrite <- !app_assoc in IH. exact IH.
  - eapply hoare_bind.
    { apply hoare_get. intros q. apply hoare_forget.
      apply (hoare_when _ _ _ _ (λ _, shape T (kept ++ m :: l) C)); [intros _; apply shape_try_remove|done]. }
    intros ?. eapply hoare_bind; [|intros ?; apply IH]. apply hoare_modify. by intros s v (? & ? & ?).
Qed.

Lemma drop_updates_shape N C l b :
  Forall tells_update l →
  hoare ignore (λ s v, ∃ T, shape T N C s v) (drop_updates l b)
    (λ r s v, r = drop_every_second l b ∧ ∃ T, shape T N C s v) never.
Proof.
  intros Hl. revert b. induction Hl as [|m l [u Hu] _ IH]; intros b; cbn [drop_updates drop_every_second];
    [by apply hoare_ret|].
  eapply (hoare_bind _ _ _ _ (λ _, shape l N C)); [apply hoare_modify; by intros s v (T & _ & ? & ?)|]. intros ?.
  eapply (hoare_bind _ _ _ _ (λ u s v, u = b && bool_decide (is_update m) ∧ shape l N C s v)).
  - destruct b; [apply hoare_lift; rewrite Hu|by apply hoare_ret]. intros s v Hs. split; [|done].
    cbn. symmetry. destruct u; [by apply bool_decide_eq_true|].
    apply bool_decide_eq_false. unfold is_update. congruence.
  - intros update. eapply hoare_assume; [by intros s v [H _]; exact H|]. intros ->.
    eapply (hoare_conseq _ _ (shape l N C)); [|by intros s v [_ H]|intros ? ? ? H; exact H|intros ? ? ? H; exact H].
    case_match.
    + eapply hoare_bind; [apply shape_try_remove|]. intros ?.
      eapply hoare_bind; [eapply hoare_pre; [apply IH|intros; by eexists]|].
      intros [swap k]. apply hoare_ret. by intros s v [<- ?].
    + eapply hoare_bind; [eapply hoare_pre; [apply IH|intros; by eexists]|].
      intros [swap k]. apply hoare_ret. by intros s v [<- ?].
Qed.

Definition too_long (T N : list ControlMessage) (C : MessageQueueConfig M) : Prop :=
  Z.of_nat (length T) + Z.of_nat (length N) > queues_total_size_threshold C mod 2 ^ 64.

Lemma shape_too_long T N C q : shape T N C q tt → (total_size q >? threshold q) = true ↔ too_long T N C.
Proof.
  intros (Ht & Hn & Hc). unfold total_size, threshold, too_long. rewrite Ht, Hn, Hc. rewrite Z.gtb_lt. lia.
Qed.

(** Read a member: the rest runs with what is known of it. *)
Lemma shape_get {A} T N C (k : Queue → op A) Q :
  (∀ q, shape T N C q tt → hoare ignore (shape T N C) (k q) Q never) →
  hoare ignore (shape T N C) (cget ≫= k) Q never.
Proof. intros Hk. apply hoare_get. intros q s [] [-> Hs]. by apply (Hk q). Qed.

Lemma drop_normal_loop_shape fuel T N C :
  (length N < fuel)%nat →
  hoare ignore (shape T N C) (drop_normal_loop fuel)
    (λ _ s v, ∃ N', shape T N' C s v ∧ N' `sublist_of` N ∧ filter is_boot N' = filter is_boot N ∧
       (¬ too_long T N' C ∨ Forall is_boot N')) never.
Proof.
  revert N. induction fuel as [|fuel IH]; intros N Hf; [lia|]. cbn [drop_normal_loop].
  apply shape_get. intros q Hq. destruct (total_size q >? threshold q) eqn:Et; cbn [andb].
  2: { apply hoare_ret. intros s [] Hs. exists N. split_and!; try done. left.
       rewrite <- (shape_too_long T N C q) by done. congruence. }
  pose proof Hq as (_ & HN & HC). rewrite HN. case_bool_decide as He; cbn [negb].
  { apply hoare_ret. intros s [] Hs. exists N. split_and!; try done. right. rewrite He. constructor. }
  set (n := Z.to_nat (Z.min (Z.of_nat (length N)) (Z.max (Z.quot (queues_total_size_threshold C) 10) 1))).
  assert (0 < n)%nat as Hn by (destruct N; [done|]; cbn [length] in *; lia).
  eapply (hoare_bind _ _ _ _ (λ _, shape T (drop_first_normal n N) C)).
  { apply shape_get. intros q' (_ & HN' & HC'). rewrite HN', HC'. apply (drop_normal_shape T C n []). }
  intros _. apply shape_get. intros q' (_ & HN' & _). rewrite HN'.
  pose proof (drop_first_normal_sublist n N) as Hsub. pose proof (sublist_length _ _ Hsub) as Hlen.
  destruct (Nat.eqb_spec (length (drop_first_normal n N)) (length N)) as [E|E].
  - apply hoare_ret. intros s [] Hs. exists (drop_first_normal n N).
    split_and!; [done|done|apply drop_first_normal_boots|right].
    eapply Forall_sublist; [by eapply drop_first_normal_stuck|done].
  - eapply hoare_conseq; [apply (IH (drop_first_normal n N)); lia|done| |done].
    intros _ s v (N' & Hs & Hs' & Hb & Hl). exists N'.
    split_and!; [done|by etrans|by rewrite Hb, drop_first_normal_boots|done].
Qed.

Lemma drop_updates_loop_shape fuel T N C :
  (length T < fuel)%nat → Forall tells_update T →
  hoare ignore (shape T N C) (drop_updates_loop fuel)
    (λ _ s v, ∃ T', shape T' N C s v ∧ T' `sublist_of` T ∧
       filter (λ m, ¬ is_update m) T' = filter (λ m, ¬ is_update m) T ∧ last T' = last T ∧
       (¬ too_long T' N C ∨ ¬ droppable T')) never.
Proof.
  revert T. induction fuel as [|fuel IH]; intros T Hf Hu; [lia|]. cbn [drop_updates_loop].
  apply shape_get. intros q Hq. destruct (total_size q >? threshold q) eqn:Et.
  2: { apply hoare_ret. intros s [] Hs. exists T. split_and!; try done. left.
       rewrite <- (shape_too_long T N C q) by done. congruence. }
  pose proof (drop_every_second_sublist T true) as Hsub. pose proof (drop_every_second_length T true) as Hlen.
  pose proof (drop_every_second_last T true) as Hlast. pose proof (drop_every_second_keeps T true) as Hkeep. pose proof (drop_every_second_stuck T) as Hstuck.
  eapply (hoare_bind _ _ _ _ (λ b s v, b = (0 <? (drop_every_second T true).2)%nat ∧
                                       shape (drop_every_second T true).1 N C s v)).
  { apply shape_get. intros q' (HT & _). rewrite HT.
    eapply hoare_bind; [eapply hoare_pre; [by apply (drop_updates_shape N C)|intros; by eexists]|].
    intros [swap k]. eapply (hoare_bind _ _ _ _ (λ _ s v, (swap, k) = drop_every_second T true ∧ shape swap N C s v)).
    - apply hoare_modify. by intros s v [? (? & ? & ? & ?)].
    - intros _. apply hoare_ret. by intros s v [<- ?]. }
  intros b. eapply hoare_assume; [by intros s v [H _]; exact H|]. intros ->.
  apply (hoare_conseq _ _ (shape (drop_every_second T true).1 N C) _ _
    (λ _ s v, ∃ T', shape T' N C s v ∧ T' `sublist_of` T ∧
       filter (λ m, ¬ is_update m) T' = filter (λ m, ¬ is_update m) T ∧ last T' = last T ∧
       (¬ too_long T' N C ∨ ¬ droppable T')) _ never); [|by intros s v [_ ?]|done|done].
  destruct (Nat.ltb_spec 0 (drop_every_second T true).2) as [Hd|Hd].
  - eapply hoare_conseq; [apply (IH (drop_every_second T true).1); [lia|by eapply Forall_sublist]|done| |done].
    intros _ s v (T' & Hs & Hs' & Hb & Hla & Hl). exists T'. split_and!; [done|by etrans|congruence..|done].
  - apply hoare_ret. intros s [] Hs. exists (drop_every_second T true).1. split_and!; [done..|right].
    replace (drop_every_second T true).1 with T; [apply Hstuck; lia|].
    symmetry. apply sublist_same_length; [done|lia].
Qed.

(** What a check leaves of the queues [T] and [N]. *)
Definition cleaned (T N : list ControlMessage) q : Prop :=
  normal_message_queue q `sublist_of` N ∧ transaction_message_queue q `sublist_of` T ∧
  filter is_boot (normal_message_queue q) = filter is_boot N ∧
  filter (λ m, ¬ is_update m) (transaction_message_queue q) = filter (λ m, ¬ is_update m) T ∧
  last (transaction_message_queue q) = last T ∧
  (total_size q ≤ threshold q ∨
   Forall is_boot (normal_message_queue q) ∧ ¬ droppable (transaction_message_queue q)).

Lemma check_queue_sizes_cleans T N C :
  Forall tells_update T →
  hoare ignore (shape T N C) check_queue_sizes (λ _ s _, cleaned T N s) never.
Proof.
  intros Hu. apply shape_get. intros q1 Hq1. pose proof Hq1 as (Ht1 & Hn1 & Hc1). rewrite Ht1, Hn1.
  assert (∀ T' N' s v, shape T' N' C s v → ¬ too_long T' N' C ↔ total_size s ≤ threshold s) as Hlong.
  { intros T' N' s [] Hs. rewrite <- (shape_too_long T' N' _ s Hs), Z.gtb_lt. lia. }
  destruct (Z.leb_spec (total_size q1) (threshold q1)) as [Hle|Hle].
  { apply hoare_ret. intros s [] Hs. pose proof Hs as (Ht & Hn & _). unfold cleaned. rewrite Ht, Hn.
    split_and!; try done. left. by rewrite <- (Hlong T N s tt Hs), (Hlong T N q1 tt Hq1). }
  eapply hoare_bind; [apply (drop_normal_loop_shape _ T N); lia|]. intros ? s [] (N' & Hs & Hsub & Hb & Hl).
  pose proof (drop_updates_loop_shape (S (length T)) T N' C ltac:(lia) Hu s tt Hs) as Hd.
  destruct (drop_updates_loop _ s) as [[[[]| |] s'] t]; try done. destruct Hd as (T' & Hs' & Hsub' & Hf & Hla & Hl').
  pose proof Hs' as (Ht & Hn & _). unfold cleaned. rewrite Ht, Hn. split_and!; try done.
  rewrite <- (Hlong T' N' s' _ Hs').
  destruct Hl' as [|Hd]; [by left|]. destruct Hl as [Hl|]; [|by right]. left. unfold too_long in *.
  pose proof (sublist_length _ _ Hsub'). lia.
Qed.

(** Whenever the queues are checked, the two clean-up loops end.  They drop nothing
    that must be kept: every BootNotification, every transaction message that is not an
    update, and the newest transaction message stay, and what stays keeps its order.
    Afterwards the queues are short enough, or nothing is left that may be dropped. *)
Lemma queue_cleanup q :
  Forall tells_update (transaction_message_queue q) →
  ∃ q' t, check_queue_sizes q = (Ret tt, q', t) ∧
    normal_message_queue q' `sublist_of` normal_message_queue q ∧
    transaction_message_queue q' `sublist_of` transaction_message_queue q ∧
    filter is_boot (normal_message_queue q') = filter is_boot (normal_message_queue q) ∧
    filter (λ m, ¬ is_update m) (transaction_message_queue q') =
      filter (λ m, ¬ is_update m) (transaction_message_queue q) ∧
    last (transaction_message_queue q') = last (transaction_message_queue q) ∧
    (total_size q' ≤ threshold q' ∨
     Forall is_boot (normal_message_queue q') ∧ ¬ droppable (transaction_message_queue q')).
Proof.
  intros Hu. pose proof (check_queue_sizes_cleans _ (normal_message_queue q) (config q) Hu q tt ltac:(done)) as H.
  destruct (check_queue_sizes q) as [[[[]| |] q'] t]; try done. by exists q', t.
Qed.

End facts.

(** ** Telling updates from other messages

    The answer depends on the payload only, and a transaction id put into it changes
    nothing. *)
Class UpdateLaws (M : Type) `{MessageKind M} : Prop := {
  update_of_payload (t : M) a a' :
    a !! CALL_PAYLOAD = a' !! CALL_PAYLOAD → is_transaction_update t a = is_transaction_update t a';
  update_ignores_transaction_id (t : M) a n a' :
    set_transaction_id a n = Ret a' → is_transaction_update t a' = is_transaction_update t a;
}.

#[global] Instance UpdateLaws_v16 : UpdateLaws V16.MessageType.
Proof. done. Qed.

(** The parser of TransactionEventRequest reads the members of the request, and there
    is none named transactionId among them (it is a member of transactionInfo). *)
Class TransactionEventParserLaws `{TransactionEventParser} : Prop :=
  parse_ignores_transaction_id p v p' :
    set_member p "transactionId" v = Some p' → parse_transaction_event p' = parse_transaction_event p.

#[global] Instance UpdateLaws_v2 `{TransactionEventParserLaws} : UpdateLaws V2.MessageType.
Proof.
  split; cbn; unfold array_at.
  - intros t a a' E. by rewrite E.
  - intros t a n a'. unfold set_transaction_id, array_at. destruct (a !! CALL_PAYLOAD) as [p|] eqn:Ep; [|done]. cbn.
    destruct (set_member _ _ _) as [p'|] eqn:E; [|done]. intros [= <-].
    rewrite list_lookup_insert_eq by (by eapply lookup_lt_Some). cbn. by rewrite (parse_ignores_transaction_id _ _ _ E).
Qed.

Section tells.
Context {M : Type} `{UpdateLaws M}.
Implicit Types m : ControlMessage M.

Lemma tells_renewed m i : tells_update m → tells_update (with_message m (<[MESSAGE_ID := JString i]> (message m))).
Proof.
  intros [u Hu]. exists u. rewrite <- Hu. apply update_of_payload. cbn. by rewrite list_lookup_insert_ne.
Qed.

Lemma tells_numbered m n a : set_transaction_id (message m) n = Ret a → tells_update m → tells_update (with_message m a).
Proof. intros Ha [u Hu]. exists u. rewrite <- Hu. by eapply update_ignores_transaction_id. Qed.

Lemma tells_replaced m ids n a :
  replace_for_ids ids n (message m) = Ret a → tells_update m → tells_update (with_message m a).
Proof.
  revert m. induction ids as [|mid ids IH]; intros m; cbn [replace_for_ids]; [intros [= <-]; by destruct m|].
  destruct (j ← array_at (message m) MESSAGE_ID; string_of_json j) as [i| |]; try done. cbn [mbind outcome_mbind outcome_bind].
  case_match; cbn [mbind outcome_mbind outcome_bind]; [|by apply IH].
  destruct (set_transaction_id (message m) n) as [a1| |] eqn:E; try done. cbn [mbind outcome_mbind outcome_bind].
  intros Ha Hm. eapply tells_numbered in Hm; [|exact E]. by apply (IH (with_message m a1)).
Qed.

End tells.
End MessageQueueFacts.
