(* ===== verification/MessageQueueStore.v ===== *)
(** * Stored messages and restarts

    The table of transaction messages holds exactly the messages that are not settled,
    in their order, so that a restart finds all of them.  The database is assumed to
    execute its statements, and message ids to be given out once.  Runs are sequences of
    sessions: a start that reads the tables, and the requests until the next stop. *)

From S2P Require Import Prelude CiString Json MessageTypes MessageQueue MessageProtocol MessageQueueRefines MessageQueueFacts.
From Stdlib Require Import Strings.String.
#[local] Notation length := Datatypes.length.

Module MessageQueueStore.
Import Json CiString MessageQueue MessageProtocol MessageQueueRefines MessageQueueFacts.

Section store.
Context {M : Type} `{MK : MessageKind M} `{!MessageKindLaws M} `{!UpdateLaws M} `{ENV : Environment}.
Notation Queue := (Queue M).
Notation ControlMessage := (ControlMessage M).
Notation output := (output M).
Notation op := (cmd Queue output exn).
Implicit Types (q s : Queue) (m : ControlMessage) (U : list string).

(** The database executes every statement. *)
Context (Hdb : ∀ k, env_db_ok k = true).

(** A value that is computed, or the exception of the computation. *)
Lemma hoare_computed {A B} P (r : outcome exn A) (k : A → op B) (Q : B → Queue → () → Prop) E :
  (∀ a, r = Ret a → hoare ignore P (k a) Q E) → (∀ x s v, P s v → E x s v) → hoare ignore P (a ← clift r; k a) Q E.
Proof.
  intros Hk HE. destruct r as [a| |]; [|by intros s v Hs; apply HE..]. intros s v Hs.
  rewrite (bind_pure _ _ s a) by done. by apply Hk.
Qed.

(** A row from which the message can be restored. *)
Definition row_matches (r : DBTransactionMessage) m : Prop :=
  db_unique_id r = initial_unique_id m ∧
  string_to_messagetype (db_message_type r) = Some (messageType m) ∧
  ∀ n now, ∃ m0, ControlMessage_new n now (db_json_message r) true = Ret m0 ∧
    initial_unique_id m0 = initial_unique_id m ∧ ∃ u, is_transaction_update (messageType m) (message m0) = Ret u.

(** The table holds the messages [L], whose ids are among those used so far; messages can
    be restored from the rows of the other table, too. *)
Definition restorable (r : DBTransactionMessage) : Prop := ∃ m, row_matches r m.

Definition rows_of U (L : list ControlMessage) q : Prop :=
  Forall2 row_matches (transaction_rows q) L ∧
  NoDup (initial_unique_id <$> L) ∧ Forall (λ i, i ∈ U) (initial_unique_id <$> L) ∧ Forall tells_update L ∧
  Forall restorable (normal_rows q).

Lemma row_matches_keys R L : Forall2 row_matches R L → db_unique_id <$> R = initial_unique_id <$> L.
Proof. induction 1 as [|r m R L [Hr _] _ IH]; cbn; by f_equal. Qed.

Definition in_flight_t (fl : option ControlMessage) : list ControlMessage := filter transactional (option_list fl).

Definition unsettled q : list ControlMessage := in_flight_t (in_flight q) ++ transaction_message_queue q.

Definition stored U q (_ : ()) : Prop := rows_of U (unsettled q) q.

(** The same with a known list, queue and message in flight. *)
Definition holds U (L : list ControlMessage) (fl : option ControlMessage) (T : list ControlMessage)
    q (_ : ()) : Prop :=
  rows_of U L q ∧ in_flight q = fl ∧ transaction_message_queue q = T.

Lemma stored_holds U q v : stored U q v → holds U (unsettled q) (in_flight q) (transaction_message_queue q) q v.
Proof. by intros H. Qed.

Lemma holds_stored U fl T q v : holds U (in_flight_t fl ++ T) fl T q v → stored U q v.
Proof. intros (H & Hf & Ht). unfold stored, unsettled. by rewrite Hf, Ht. Qed.

#[local] Ltac leaf := intros ? [] ?; done.

Lemma rows_of_remove U L1 m L2 q :
  rows_of U (L1 ++ m :: L2) q →
  rows_of U (L1 ++ L2) (set_transaction_rows
    (list_filter (λ r, db_unique_id r ≠ initial_unique_id m) _ (transaction_rows q)) q).
Proof.
  intros (Hr & Hn & Hu & Htl & Hnr). unfold rows_of. rewrite !fmap_app in *. cbn in *.
  apply NoDup_app in Hn as (H1 & Hd & [Hm H2]%NoDup_cons).
  assert (∀ R L, Forall2 row_matches R L → initial_unique_id m ∉ initial_unique_id <$> L →
            filter (λ r, db_unique_id r ≠ initial_unique_id m) R = R) as Hkeep.
  { intros R L HR%row_matches_keys HL. apply list_filter_all. intros r Hrr E. apply HL.
    rewrite <- HR, <- E. by apply list_elem_of_fmap_2. }
  split_and!.
  - apply Forall2_app_inv_r in Hr as (R1 & R' & HR1 & HR' & HR). inversion HR' as [|r ? R2 ? [Hid _] HR2]; subst.
    rewrite HR. change (Forall2 row_matches (filter (λ r, db_unique_id r ≠ initial_unique_id m) (R1 ++ r :: R2)) (L1 ++ L2)).
    rewrite filter_app, filter_cons_False by tauto.
    rewrite (Hkeep R1 L1), (Hkeep R2 L2) by (try done; intros Hi; apply (Hd _ Hi); left). by apply Forall2_app.
  - apply NoDup_app. split_and!; [done| |done]. intros i Hi Hi'. apply (Hd i Hi). by right.
  - apply Forall_app in Hu as [? [_ ?]%Forall_cons]. by apply Forall_app.
  - apply Forall_app in Htl as [? [_ ?]%Forall_cons]. by apply Forall_app.
  - done.
Qed.

Lemma holds_remove U L1 m L2 fl T E :
  hoare ignore (holds U (L1 ++ m :: L2) fl T) (try_db (remove_message_queue_message (initial_unique_id m) Transaction))
    (λ _, holds U (L1 ++ L2) fl T) E.
Proof.
  intros s [] (Hr & Hf & Ht). cbv [try_db ccatch remove_message_queue_message ask]. crun. rewrite Hdb.
  split_and!; [|done|done]. exact (rows_of_remove U L1 m L2 (set_asked (S (asked s)) s) Hr).
Qed.

(** Statements on the other table, and what does not touch the members at all. *)
Lemma holds_remove_normal U L fl T uid :
  Keeps ignore (holds U L fl T) (try_db (remove_message_queue_message uid Normal)).
Proof.
  intros s [] ((H1 & H2 & H3 & H4 & H5) & Hf & Ht). cbv [try_db ccatch remove_message_queue_message ask]. crun. rewrite Hdb.
  split_and!; [|done|done]. split_and!; try done. eapply Forall_sublist; [exact H5|apply sublist_filter].
Qed.

(** The row as it is read back: times have milliseconds. *)
Definition stamped (t : Z) (r : DBTransactionMessage) : DBTransactionMessage :=
  {| db_json_message := db_json_message r; db_message_type := db_message_type r;
     db_message_attempts := db_message_attempts r; db_timestamp := t; db_unique_id := db_unique_id r |}.

Lemma holds_insert_normal U L fl T r : (∀ t, restorable (stamped t r)) →
  Keeps ignore (holds U L fl T) (try_db (insert_message_queue_message r Normal)).
Proof.
  intros Hr s [] Hs. cbv [try_db ccatch insert_message_queue_message ask]. crun. rewrite Hdb. cbn.
  destruct (bool_decide _); [exact Hs|]. destruct Hs as ((H1 & H2 & H3 & H4 & H5) & Hf & Ht).
  split_and!; [|done|done]. split_and!; try done. apply Forall_app. split; [done|]. constructor; [apply Hr|done].
Qed.

Lemma holds_insert U L m fl T r :
  (∀ t, row_matches (stamped t r) m) →
  initial_unique_id m ∉ U → tells_update m →
  hoare ignore (holds U L fl T) (try_db (insert_message_queue_message r Transaction))
    (λ _, holds (initial_unique_id m :: U) (L ++ [m]) fl T) (λ _ _ _, False).
Proof.
  intros Hrow Hm Hmt s [] ((Hr & Hn & Hu & Htl & Hnr) & Hf & Ht). destruct (Hrow 0) as (Hid & _). cbn in Hid.
  cbv [try_db ccatch insert_message_queue_message ask]. crun. rewrite Hdb. cbn.
  assert (initial_unique_id m ∉ initial_unique_id <$> L) as Hfresh by (rewrite Forall_forall in Hu; auto).
  rewrite bool_decide_eq_false_2 by (by rewrite Hid, (row_matches_keys _ L)).
  split_and!; [|done|done]. split_and!; cbn.
  - apply Forall2_app; [done|]. constructor; [apply Hrow|constructor].
  - rewrite fmap_app. apply NoDup_app. split_and!; [done| |apply NoDup_singleton].
    intros i Hi ->%list_elem_of_singleton. done.
  - rewrite fmap_app. apply Forall_app. split; [|constructor; [left|done]].
    eapply Forall_impl; [exact Hu|]. intros i Hi. by right.
  - apply Forall_app. auto.
  - done.
Qed.

(** What keeps every list, keeps the table in step. *)
Lemma stored_keeps {A} U (c : op A) : (∀ L fl T, Keeps ignore (holds U L fl T) c) → Keeps ignore (stored U) c.
Proof.
  intros Hc s v Hs%stored_holds. specialize (Hc _ _ _ s v Hs).
  destruct (c s) as [[[a|x|] s'] t]; by eapply holds_stored.
Qed.

(** ** The clean-up *)
Lemma holds_drop_normal U L fl T n kept l : Keeps ignore (holds U L fl T) (drop_normal n kept l).
Proof.
  revert n kept. induction l as [|m l IH]; intros [|n] kept; cbn [drop_normal]; try apply _.
  case_match; [apply IH|]. apply keeps_bind; [|intros _; apply keeps_bind; [keep leaf|intros _; apply IH]].
  apply keeps_bind; [apply _|]. intros q. apply keeps_when, holds_remove_normal.
Qed.

Lemma holds_drop_normal_loop U L fl T fuel : Keeps ignore (holds U L fl T) (drop_normal_loop fuel).
Proof.
  induction fuel as [|fuel IH]; cbn [drop_normal_loop]; [apply _|].
  apply keeps_bind; [apply _|]. intros q. case_match; [|apply _].
  apply keeps_bind; [apply keeps_bind; [apply _|]; intros q'; apply holds_drop_normal|]. intros _.
  apply keeps_bind; [apply _|]. intros q'. case_match; [apply _|exact IH].
Qed.

(** Messages dropped from the queue leave the table; [P] are those already kept. *)
Lemma holds_drop_updates U P l b fl E :
  hoare ignore (λ s v, ∃ T, holds U (P ++ l) fl T s v) (drop_updates l b)
    (λ r s v, ∃ T, holds U (P ++ r.1) fl T s v) E.
Proof.
  revert P b. induction l as [|m l IH]; intros P b; cbn [drop_updates]; [by apply hoare_ret|].
  eapply (hoare_bind _ _ _ _ (λ _, holds U (P ++ m :: l) fl l)).
  { apply hoare_modify. by intros s v (T & Hr & Hf & Ht). }
  intros ?. eapply hoare_assume; [intros s v ((_ & _ & _ & H & _) & _); exact H|].
  intros [_ [[u Hu] _]%Forall_cons]%Forall_app. eapply (hoare_bind _ _ _ _ (λ _, holds U (P ++ m :: l) fl l)).
  { destruct b; [|by apply hoare_ret]. rewrite Hu. by apply hoare_lift. }
  intros update. case_match.
  - eapply hoare_bind; [apply holds_remove|]. intros ?.
    eapply hoare_bind; [eapply hoare_pre; [apply IH|intros; by eexists]|]. intros [swap n]. by apply hoare_ret.
  - eapply hoare_bind.
    { eapply hoare_pre; [apply (IH (P ++ [m]))|]. intros s v Hs. exists l. by rewrite <- app_assoc. }
    intros [swap n]. apply hoare_ret. intros s v [T Hs]. exists T. by rewrite <- app_assoc in Hs.
Qed.

Lemma stored_drop_updates U E :
  hoare ignore (stored U) drop_update_messages_from_transactional_message_queue (λ _, stored U) E.
Proof.
  apply hoare_get. intros q.
  eapply (hoare_bind _ _ _ _ (λ r s v, ∃ T, holds U (in_flight_t (in_flight q) ++ r.1) (in_flight q) T s v)).
  - eapply hoare_pre; [apply holds_drop_updates|]. intros s v [-> Hs]. eexists. by apply stored_holds.
  - intros [swap n]. eapply (hoare_bind _ _ _ _ (λ _, stored U)); [|intros ?; by apply hoare_ret].
    apply hoare_modify. intros s v (T & Hr & Hf & _). by apply (holds_stored U (in_flight q) swap).
Qed.

Lemma stored_check_queue_sizes U : Keeps ignore (stored U) check_queue_sizes.
Proof.
  apply keeps_bind; [apply _|]. intros q. case_match; [apply _|]. apply keeps_bind.
  - apply stored_keeps. intros. apply holds_drop_normal_loop.
  - intros _. generalize (S (length (transaction_message_queue q))) as fuel. intros fuel.
    induction fuel as [|fuel IH]; cbn [drop_updates_loop]; [apply _|].
    apply keeps_bind; [apply _|]. intros q'. case_match; [|apply _].
    apply keeps_bind; [apply stored_drop_updates|]. intros []; [exact IH|apply _].
Qed.

(** ** New messages *)
Definition message_id_of (j : json) : string :=
  match at_index j MESSAGE_ID with Some (JString i) => i | _ => EmptyString end.

Lemma new_message_id r now j stall m : ControlMessage_new r now j stall = Ret m →
  initial_unique_id m = message_id_of j ∧ uniqueId m = Ret (initial_unique_id m).
Proof.
  unfold ControlMessage_new, message_id_of, at_index, uniqueId. destruct (get_array j) as [a|]; [|done]. cbn [mbind option_bind].
  destruct (jaction ← array_at a CALL_ACTION; string_of_json jaction) as [action| |]; cbn; try done.
  destruct (string_to_messagetype action); [|done]. destruct (a !! MESSAGE_ID) as [jid|] eqn:Ei; [|done].
  destruct (MessageId_of_json jid) as [mid| |] eqn:Em; cbn; try done. intros [= <-]. cbn. rewrite Ei.
  split; [|done]. unfold MessageId_of_json, MessageId_of_string in Em. destruct jid; try done. cbn in Em.
  unfold CiString_new, String_set in Em. destruct (_ <? _)%nat; cbn in Em; congruence.
Qed.

Lemma rows_of_more U i L q : rows_of U L q → rows_of (i :: U) L q.
Proof.
  intros (? & ? & Hu & ? & ?). split_and!; [done|done| |done|done]. eapply Forall_impl; [exact Hu|]. intros j Hj. by right.
Qed.

(** A call of which it can be told whether it is an update. *)
Definition readable (j : json) : Prop :=
  ∀ n now stall m, ControlMessage_new n now j stall = Ret m → tells_update m.

(** A new message can be restored from its own array. *)
Lemma new_message_restorable r now j stall m : ControlMessage_new r now j stall = Ret m →
  string_to_messagetype (messagetype_to_string (messageType m)) = Some (messageType m) ∧
  ∀ n now', ∃ m0, ControlMessage_new n now' (JArray (message m)) true = Ret m0 ∧
    initial_unique_id m0 = initial_unique_id m ∧ message m0 = message m.
Proof.
  unfold ControlMessage_new. destruct (get_array j) as [a|]; [|done].
  destruct (jaction ← array_at a CALL_ACTION; string_of_json jaction) as [action| |] eqn:Ea; cbn; try done.
  destruct (string_to_messagetype action) as [t|] eqn:Et; [|done]. destruct (a !! MESSAGE_ID) as [jid|] eqn:Ei; [|done].
  destruct (MessageId_of_json jid) as [mid| |] eqn:Em; cbn; try done. intros [= <-]. cbn. cbn in Ea. rewrite Ea. cbn.
  rewrite Et, Ei, Em. cbn. split; [by eapply messagetype_recognised|]. intros n now'. by eexists.
Qed.

(** A message object whose id has not been used. *)
Definition fresh (i : string) (m : ControlMessage) : Prop :=
  tells_update m ∧ initial_unique_id m = i ∧ uniqueId m = Ret i ∧
  string_to_messagetype (messagetype_to_string (messageType m)) = Some (messageType m) ∧
  ∀ n now', ∃ m0, ControlMessage_new n now' (JArray (message m)) true = Ret m0 ∧
    initial_unique_id m0 = initial_unique_id m ∧ message m0 = message m.

Definition minted U (i : string) (m : ControlMessage) q (v : ()) : Prop := stored U q v ∧ fresh i m.

Lemma fresh_row i m : fresh i m → ∃ r, db_message_of m = Ret r ∧ ∀ t, row_matches (stamped t r) m.
Proof.
  intros (Htl & Hid & Huid & Hty & Hre). unfold db_message_of. rewrite Huid. eexists. split; [done|].
  intros t. split_and!; [done|done|]. intros n now. destruct (Hre n now) as (m0 & ? & ? & Em). exists m0. by rewrite Em.
Qed.

Lemma stored_make_message U j stall : readable j →
  hoare ignore (stored U) (make_message j stall) (minted U (message_id_of j)) (λ _, stored U).
Proof.
  intros Hj. eapply (hoare_bind _ _ _ _ (λ _, stored U)); [by intros s v Hs|]. intros now.
  eapply (hoare_bind _ _ _ _ (λ _, stored U)); [by intros s v Hs|]. intros r.
  apply hoare_lift. intros s v Hs. destruct (ControlMessage_new r now j stall) as [m| |] eqn:Em; try done.
  pose proof (new_message_restorable _ _ _ _ _ Em) as [Ht Hm]. pose proof (Hj _ _ _ _ Em) as Htl.
  apply new_message_id in Em as [Hi Hu]. split; [done|]. split_and!; [done|done| |done|done]. by rewrite Hu, Hi.
Qed.

Lemma stored_add_transaction U i m : transactional m → i ∉ U →
  hoare ignore (minted U i m) (add_to_transaction_message_queue m) (λ _, stored (i :: U)) (λ _, stored (i :: U)).
Proof.
  intros Hm Hi. apply hoare_get. intros q.
  eapply hoare_assume; [by intros s v (-> & _ & H); exact H|]. intros Hf.
  destruct (fresh_row i m Hf) as (r & -> & Hr). destruct Hf as (Htl & Hid & _).
  eapply (hoare_bind _ _ _ _ (λ _, holds U (unsettled q) (in_flight q) (transaction_message_queue q ++ [m]))).
  { apply hoare_modify. intros s v (-> & Hs & _). done. }
  intros ?. eapply (hoare_bind _ _ _ _ (λ r' s v, r' = r ∧ holds U (unsettled q) (in_flight q) (transaction_message_queue q ++ [m]) s v)).
  { by apply hoare_lift. }
  intros r'. eapply hoare_assume; [by intros s v [H _]; exact H|]. intros ->.
  eapply (hoare_bind _ _ _ _ (λ _, stored (i :: U))).
  { rewrite <- Hid in Hi.
    pose proof (holds_insert U (unsettled q) m (in_flight q) (transaction_message_queue q ++ [m]) r Hr Hi Htl) as H.
    eapply hoare_conseq; [exact H|by intros s v [_ ?]| |done]. intros ? s v Hs. rewrite <- Hid.
    unfold unsettled in Hs. rewrite <- app_assoc in Hs. by eapply holds_stored. }
  intros _.
  apply keeps_bind; [keep leaf|]. intros _. apply keeps_bind; [apply stored_check_queue_sizes|]. intros _. keep leaf.
Qed.

Lemma stored_add_normal U i m : fresh i m → Keeps ignore (stored U) (add_to_normal_message_queue m).
Proof.
  intros Hm. apply keeps_bind; [keep leaf|]. intros _. apply keeps_bind; [apply _|]. intros q.
  apply keeps_bind; [|intros _; apply keeps_bind; [keep leaf|intros _; apply keeps_bind;
    [apply stored_check_queue_sizes|intros _; keep leaf]]].
  destruct (fresh_row i m Hm) as (r & -> & Hr). apply keeps_when, hoare_computed; [|done]. intros ? [= <-].
  apply stored_keeps. intros. apply holds_insert_normal. intros t. by exists m.
Qed.

Lemma minted_stored U i m s v : minted U i m s v → stored (i :: U) s v.
Proof. intros [H _]. by apply rows_of_more. Qed.

Lemma stored_push_call U j stall : readable j → message_id_of j ∉ U →
  hoare ignore (stored U) (push_call j stall) (λ _, stored (message_id_of j :: U)) (λ _, stored (message_id_of j :: U)).
Proof.
  intros Hj Hi. set (i := message_id_of j) in *. apply hoare_get. intros q. apply hoare_forget.
  case_match; [apply hoare_ret; intros; by apply rows_of_more|].
  eapply hoare_bind; [eapply hoare_conseq; [by apply stored_make_message|done|intros ? ? ? Hm; exact Hm|intros; by apply rows_of_more]|].
  intros m. eapply (hoare_bind _ _ _ _ (λ _, stored (i :: U))); [|intros _; by apply hoare_emit].
  destruct (is_transaction_message (messageType m)) eqn:Et; [by apply stored_add_transaction|].
  apply hoare_get. intros q'. apply hoare_forget. apply hoare_when; [|intros _; apply minted_stored].
  intros _. eapply hoare_assume; [by intros s v [_ H']; exact H'|]. intros Hm.
  eapply hoare_pre; [by apply (stored_add_normal (i :: U) i)|apply minted_stored].
Qed.

Lemma stored_push_call_async U j : readable j → message_id_of j ∉ U →
  hoare ignore (stored U) (push_call_async j) (λ _, stored (message_id_of j :: U)) (λ _, stored (message_id_of j :: U)).
Proof.
  intros Hj Hi. set (i := message_id_of j) in *.
  eapply hoare_bind; [eapply hoare_conseq; [by apply stored_make_message|done|intros ? ? ? Hm; exact Hm|intros; by apply rows_of_more]|].
  intros m. apply hoare_get. intros q. apply hoare_forget.
  assert (∀ e, hoare ignore (minted U i m) (promise_set_value m e;; mret tt) (λ _, stored (i :: U)) (λ _, stored (i :: U))) as Hp.
  { intros e s v Hs%minted_stored. unfold promise_set_value. by destruct (promise m). }
  case_match; [apply Hp|]. destruct (is_transaction_message (messageType m)) eqn:Et; [by apply stored_add_transaction|].
  case_match; [apply Hp|]. eapply hoare_assume; [by intros s v [_ H']; exact H'|]. intros Hm.
  eapply hoare_pre; [by apply (stored_add_normal (i :: U) i)|apply minted_stored].
Qed.

(** ** Timeouts, errors and answers *)
Section used.
Context (U : list string).

(** The message in flight is [m]; the table still holds [m] though the member may have
    changed; the table holds the queue only. *)
Definition aloft m q (v : ()) : Prop := stored U q v ∧ in_flight q = Some m.
Definition held_for m q (_ : ()) : Prop := rows_of U (in_flight_t (Some m) ++ transaction_message_queue q) q.
Definition grounded q (_ : ()) : Prop := rows_of U (transaction_message_queue q) q.

Lemma aloft_held m s v : aloft m s v → held_for m s v.
Proof. intros [H Hf]. unfold stored, unsettled in H. by rewrite Hf in H. Qed.

Lemma in_flight_t_yes m : transactional m → in_flight_t (Some m) = [m].
Proof. intros H. unfold in_flight_t. cbn. by rewrite decide_True. Qed.
Lemma in_flight_t_no m : ¬ transactional m → in_flight_t (Some m) = [].
Proof. intros H. unfold in_flight_t. cbn. by rewrite decide_False. Qed.

Lemma held_normal m s v : ¬ transactional m → held_for m s v → grounded s v.
Proof. intros Hm. unfold held_for. by rewrite in_flight_t_no. Qed.

Lemma grounded_reset E : hoare ignore grounded reset_in_flight (λ _, stored U) E.
Proof. intros s v Hs. exact Hs. Qed.

Lemma aloft_settle m e : hoare ignore (aloft m) (settle_in_flight e) (λ _, held_for m) (λ _, stored U).
Proof.
  intros s v Hs. pose proof Hs as [Hst Hf]. unfold settle_in_flight. rewrite bind_get, Hf.
  unfold promise_set_value. destruct (promise m); [exact Hst|]. cbn. exact (aloft_held m s tt Hs).
Qed.

(** The row of a message leaves the table its type belongs to. *)
Lemma held_remove m E :
  hoare ignore (held_for m) (try_db (remove_message_queue_message (initial_unique_id m) (queue_type_of m)))
    (λ _, grounded) E.
Proof.
  intros s v Hs. destruct (decide (transactional m)) as [Hm|Hm].
  - rewrite queue_type_transaction by done.
    pose proof (holds_remove U [] m (transaction_message_queue s) (in_flight s) (transaction_message_queue s) E s v) as H.
    unfold held_for in Hs. rewrite in_flight_t_yes in Hs by done. specialize (H (conj Hs (conj eq_refl eq_refl))).
    destruct (try_db _ s) as [[[a|x|] s'] t]; [|done|done]. destruct H as (H & _ & Ht). unfold grounded. by rewrite Ht.
  - rewrite queue_type_normal by done. apply held_normal in Hs; [|done].
    cbv [try_db ccatch remove_message_queue_message ask]. crun. rewrite Hdb. destruct Hs as (H1 & H2 & H3 & H4 & H5).
    split_and!; try done. eapply Forall_sublist; [exact H5|apply sublist_filter].
Qed.

(** Changes that keep id and type. *)
Definition kin m m' : Prop := initial_unique_id m' = initial_unique_id m ∧ messageType m' = messageType m ∧
  (tells_update m → tells_update m').

Lemma rows_of_same L L' q : Forall2 kin L L' → rows_of U L q → rows_of U L' q.
Proof.
  intros Hk (Hr & Hn & Hu & Htl & Hnr). unfold rows_of.
  assert (initial_unique_id <$> L' = initial_unique_id <$> L) as Ei
    by (clear -Hk; induction Hk as [|m m' L L' [? _] _ IH]; cbn; by f_equal).
  rewrite Ei. split_and!; [|done|done| |done].
  2: { clear -Hk Htl. induction Hk as [|m m' L L' (_ & _ & Hm) _ IH]; [done|]. apply Forall_cons in Htl as [? ?].
       constructor; auto. }
  clear -Hk Hr. revert Hr. generalize (transaction_rows q) as R.
  induction Hk as [|m m' L L' (Hi & Ht & _) _ IH]; intros R HR; inversion HR as [|r ? R' ? (H1 & H2 & H3) H4]; subst; constructor; auto.
  split_and!; [by rewrite Hi|by rewrite Ht|]. by rewrite Hi, Ht.
Qed.

Lemma kin_refl L : Forall2 kin L L.
Proof. by apply Forall_Forall2_diag, Forall_true. Qed.
#[local] Hint Resolve kin_refl : core.

Lemma held_push_front m m' : same_message m m' → (tells_update m → tells_update m') →
  hoare ignore (held_for m) (push_front (queue_type_of m') m') (λ _, grounded) (λ _ _ _, False).
Proof.
  intros Hm Htl s v Hs. pose proof (same_transactional m m' Hm) as Ht. destruct Hm as (_ & Hty & _ & Hid & _).
  destruct (decide (transactional m')) as [Hm'|Hm'].
  - rewrite queue_type_transaction by done. unfold held_for in Hs. rewrite in_flight_t_yes in Hs by tauto.
    apply (rows_of_same ([m] ++ transaction_message_queue s)); [by constructor|exact Hs].
  - rewrite queue_type_normal by done. apply held_normal in Hs; [exact Hs|tauto].
Qed.

Lemma aloft_schedule_retry m : hoare ignore (aloft m) (schedule_retry m) (λ _, grounded) (λ _, stored U).
Proof.
  apply hoare_get. intros q. apply hoare_forget.
  eapply (hoare_bind _ _ _ _ (λ _ s v, aloft m s v ∧ is_Some (message m !! MESSAGE_ID))).
  { apply hoare_lift. intros s v Hs. unfold array_at. destruct (message m !! MESSAGE_ID) as [j|]; cbn; [|by destruct Hs].
    destruct (string_of_json j); [by split|by destruct Hs..]. }
  intros old_id. eapply hoare_assume; [by intros s v [_ H]; exact H|]. intros [j Hj].
  eapply (hoare_bind _ _ _ _ (λ m' s v, aloft m s v ∧ same_message m m' ∧ ∃ i, message m' = <[MESSAGE_ID := JString i]> (message m))).
  { intros s v [Hs _]. split; [exact Hs|]. split; [done|]. by eexists. }
  intros m1. eapply hoare_assume; [by intros s v [_ H]; exact H|]. intros [Hm [i Hi]].
  eapply (hoare_bind _ _ _ _ (λ m2 s v, aloft m s v ∧ same_message m m2 ∧ message m2 = message m1)).
  { case_match; [by apply hoare_ret; intros s v [Hs _]|]. intros s v [Hs _]. by split. }
  intros m2. eapply hoare_assume; [by intros s v [_ H]; exact H|]. intros [Hm2 Hmsg].
  eapply (hoare_bind _ _ _ _ (λ _, held_for m)); [apply hoare_modify; intros s v [Hs _]; by apply aloft_held in Hs|].
  intros ?. eapply (hoare_bind _ _ _ _ (λ _, grounded)).
  { eapply hoare_conseq; [apply (held_push_front m m2 Hm2)|done|done|done]. intros Htl.
    apply (tells_renewed m i) in Htl as [u Hu]. exists u. rewrite <- Hu. unfold is_transaction_update_message. cbn.
    rewrite Hmsg, Hi. f_equal. apply Hm2. }
  intros _. eapply (hoare_bind _ _ _ _ (λ _, grounded)); [|intros _; by apply hoare_modify].
  apply hoare_when; [|done]. intros _. unfold array_at. rewrite Hmsg, Hi, list_lookup_insert_eq by (by eapply lookup_lt_Some).
  eapply (hoare_bind _ _ _ _ (λ _, grounded)); [by apply hoare_lift|]. intros new_id. by apply hoare_emit.
Qed.

Lemma aloft_retry_boot m : ¬ transactional m →
  hoare ignore (aloft m) (retry_boot_notification m) (λ _, grounded) (λ _, stored U).
Proof.
  intros Hm. eapply hoare_pre; [|intros s v Hs; by apply aloft_held, held_normal in Hs].
  intros s v Hs. cbv [retry_boot_notification renew_message_id create_message_id ask push_front]. crun. exact Hs.
Qed.

Lemma stored_handle_timeout e : Keeps ignore (stored U) (handle_timeout_or_callerror e).
Proof.
  apply keeps_get_with. intros q. destruct (in_flight q) as [m|] eqn:Ef; [|apply hoare_ret; by intros s v [_ ?]].
  eapply (hoare_bind _ _ _ _ (λ _, grounded)).
  - apply (hoare_pre _ _ (aloft m)); [|by intros s v [-> ?]].
    destruct (is_transaction_message (messageType m) || _) eqn:Et; [|apply orb_false_elim in Et as [Et _]].
    + case_match; [apply aloft_schedule_retry|]. eapply hoare_bind; [apply aloft_settle|]. intros ?. apply held_remove.
    + assert (¬ transactional m) as Hm by (unfold transactional; by rewrite Et).
      case_match; [by apply aloft_retry_boot|].
      eapply hoare_conseq; [apply aloft_settle|done| |done]. intros ? s v. by apply held_normal.
  - intros ?. eapply hoare_bind; [apply grounded_reset|]. intros ?. by apply hoare_emit.
Qed.

Lemma stored_handle_call_result e : Keeps ignore (stored U) (handle_call_result e).
Proof.
  apply keeps_get_with. intros q. destruct (in_flight q) as [m|] eqn:Ef; [|apply hoare_ret; by intros s v [_ ?]].
  apply (hoare_pre _ _ (aloft m)); [|by intros s v [-> ?]].
  assert (∀ {A} (r : outcome exn A), hoare ignore (aloft m) (clift r : op A) (λ _, aloft m) (λ _, stored U)) as Hlift.
  { intros A r. apply hoare_lift. intros s v Hs. destruct r; [done|by destruct Hs..]. }
  eapply hoare_bind; [apply Hlift|]. intros mid. case_match; [apply hoare_ret; by intros s v [? _]|].
  eapply hoare_bind; [apply Hlift|]. intros action.
  destruct (string_to_messagetype _); [|apply hoare_throw; by intros s v [? _]]. cbv zeta.
  eapply hoare_bind; [apply aloft_settle|]. intros ?.
  eapply (hoare_bind _ _ _ _ (λ _, grounded)).
  { apply hoare_when; [intros _; apply held_remove|]. intros [Et _]%orb_false_elim s v. apply held_normal.
    unfold transactional. by rewrite Et. }
  intros ?. eapply hoare_bind; [apply grounded_reset|]. intros ?.
  eapply (hoare_bind _ _ _ _ (λ _, stored U)); [apply hoare_when; [intros _; by apply hoare_emit|done]|].
  intros ?. by apply hoare_ret.
Qed.

(** ** The worker *)
Lemma stored_send q t i m now :
  select_message q now = Some (t, i, m) → in_flight q = None →
  Forall transactional (transaction_message_queue q) → Forall (λ m, ¬ transactional m) (normal_message_queue q) →
  hoare ignore (λ s v, stored U s v ∧ in_flight s = None ∧
    transaction_message_queue s = transaction_message_queue q ∧ normal_message_queue s = normal_message_queue q)
    (send_message t i m) (λ _, stored U) (λ _, stored U).
Proof.
  intros Hsel%select_message_in Hf Ht Hn. unfold send_message.
  eapply (hoare_bind _ _ _ _ (λ m' s v, (stored U s v ∧ in_flight s = None ∧
    transaction_message_queue s = transaction_message_queue q) ∧ same_message m m' ∧ (tells_update m → tells_update m'))).
  { set (P s v := stored U s v ∧ in_flight s = None ∧ transaction_message_queue s = transaction_message_queue q).
    apply (hoare_pre _ _ P); [|by intros s v (? & ? & ? & _)].
    assert (∀ {A} (r : outcome exn A), hoare ignore P (clift r : op A) (λ _, P) (λ _, stored U)) as Hlift.
    { intros A r. apply hoare_lift. intros s v Hs. destruct r; [done|by destruct Hs..]. }
    apply hoare_get. intros q'. apply hoare_forget. eapply hoare_bind; [apply Hlift|]. intros mid.
    destruct (_ !! mid) as [n|]; [|by apply hoare_ret]. apply hoare_computed; [|by intros x s v [? _]]. intros a Ea.
    eapply (hoare_bind _ _ _ _ (λ _, P)); [by apply hoare_modify|]. intros ?. apply hoare_ret.
    intros s v Hs. split_and!; try apply Hs; try done. intros Htl.
    by apply (tells_numbered (with_attempts m (message_attempts m + 1)) n a Ea). }
  intros m'. eapply hoare_assume; [by intros s v [_ H]; exact H|]. intros [Hm Htl].
  pose proof (same_transactional m m' Hm) as Htm. destruct Hm as (_ & Hty & _ & Hid & _).
  eapply (hoare_bind _ _ _ _ (λ _ s v, rows_of U (transaction_message_queue q) s ∧ in_flight s = Some m' ∧
    transaction_message_queue s = transaction_message_queue q)).
  { apply hoare_modify. intros s v [(Hs & Hfs & Hts) _]. split_and!; try done. unfold stored, unsettled in Hs.
    by rewrite Hfs, Hts in Hs. }
  intros ?. eapply (hoare_bind _ _ _ _ (λ _, stored U)).
  { apply hoare_get. intros q'. destruct t; apply hoare_modify; intros s v (-> & Hr & Hfs & Hts);
      unfold stored, unsettled; cbn; rewrite Hfs.
    - assert (¬ transactional m') as Hm' by (rewrite Htm; by apply (Forall_lookup_1 _ _ _ _ Hn Hsel)).
      rewrite in_flight_t_no, Hts by done. exact Hr.
    - destruct Hsel as (-> & l & Hl). rewrite Hts, Hl in *. apply Forall_cons in Ht as [Ht _].
      rewrite in_flight_t_yes by tauto. cbn. apply (rows_of_same (m :: l)); [by constructor|exact Hr]. }
  intros ?. eapply (hoare_bind _ _ _ _ (λ _, stored U)); [by intros s v Hs|]. intros sent.
  apply keeps_bind; [keep leaf|]. intros _. apply keeps_bind; [|intros ?; keep leaf].
  destruct sent; [keep leaf|apply stored_handle_timeout].
Qed.

(** The kinds of messages in the queues, from the refinement. *)
Definition sorted_out q : Prop :=
  Forall transactional (transaction_message_queue q) ∧ Forall (λ m, ¬ transactional m) (normal_message_queue q).

Lemma stored_try_send : hoare ignore (λ s v, stored U s v ∧ sorted_out s) try_send (λ _, stored U) (λ _, stored U).
Proof.
  apply hoare_get. intros q. destruct (paused q); [apply hoare_ret; by intros s v (_ & ? & _)|].
  destruct (in_flight q) as [m|] eqn:Ef; [apply hoare_ret; by intros s v (_ & ? & _)|].
  eapply hoare_assume; [by intros s v (-> & _ & H); exact H|]. intros [Ht Hn].
  set (P s v := stored U s v ∧ in_flight s = None ∧
    transaction_message_queue s = transaction_message_queue q ∧ normal_message_queue s = normal_message_queue q).
  eapply (hoare_bind _ _ _ _ (λ _, P)).
  { intros s v (-> & Hs & _). split_and!; [exact Hs|exact Ef|done|done]. }
  intros now. destruct (select_message q now) as [[[t i] m]|] eqn:Es; [|apply hoare_modify; by intros s v (Hs & _)].
  eapply (hoare_bind _ _ _ _ (λ _, P)).
  { apply hoare_lift. intros s v Hs. destruct (uniqueId m); [done|by destruct Hs..]. }
  intros mid. pose proof (stored_send q t i m now Es Ef Ht Hn) as Hsend.
  destruct (next_message_to_send q); [|done]. case_match; [|done]. apply hoare_ret. by intros ? ? [? _].
Qed.

Lemma stored_replace_in_queue kept l ids tid fl :
  hoare ignore (λ s v, stored U s v ∧ transaction_message_queue s = kept ++ l ∧ in_flight s = fl)
    (replace_in_queue kept l ids tid) (λ _, stored U) (λ _, stored U).
Proof.
  revert kept. induction l as [|m l IH]; intros kept; cbn [replace_in_queue]; [apply hoare_ret; by intros s v [? _]|].
  apply hoare_computed; [|by intros x s v [? _]]. intros a Ea.
  eapply hoare_bind; [|intros ?; apply IH]. apply hoare_modify. intros s v (Hs & Ht & Hf).
  split_and!; [|by rewrite <- app_assoc|done]. unfold stored, unsettled in *. cbn.
  eapply rows_of_same; [|exact Hs]. rewrite Ht. apply Forall2_app; [auto|]. apply Forall2_app; [auto|]. constructor; [|done].
  split_and!; [done|done|by eapply tells_replaced].
Qed.

End used.

(** ** Every request *)
Definition new_ids (r : request) : list string :=
  match r with RPushCall j _ | RPushCallAsync j => [message_id_of j] | _ => [] end.

(** After the start: the rows are not read again, and the pushed calls can be told from
    updates. *)
Definition ordinary (r : request) : Prop :=
  match r with RRestore _ => False | RPushCall j _ | RPushCallAsync j => readable j | _ => True end.

Lemma stored_handle U r : ordinary r → Forall (λ i, i ∉ U) (new_ids r) →
  hoare ignore (λ s v, stored U s v ∧ sorted_out s) (handle r) (λ _, stored (new_ids r ++ U)) (λ _, stored (new_ids r ++ U)).
Proof.
  intros Hnr Hr.
  assert (∀ c : op (), Keeps ignore (stored U) c →
            hoare ignore (λ s v, stored U s v ∧ sorted_out s) c (λ _, stored U) (λ _, stored U)) as Hkeep.
  { intros c Hc. eapply hoare_pre; [exact Hc|]. by intros s v [? _]. }
  pose proof (λ e, stored_handle_timeout U e : Keeps ignore (stored U) _) as Hto.
  destruct r; cbn [handle new_ids app] in *; try done; try (apply Hkeep; by keep leaf).
  - apply Forall_cons in Hr as [Hr _]. eapply hoare_pre; [by apply stored_push_call|]. by intros s v [? _].
  - apply Forall_cons in Hr as [Hr _]. eapply hoare_pre; [by apply stored_push_call_async|]. by intros s v [? _].
  - apply Hkeep. pose proof (λ e, stored_handle_call_result U e : Keeps ignore (stored U) _) as Hcr. keep leaf.
  - apply hoare_get. intros q. destruct (worker q); [|apply hoare_ret; by intros s v (_ & ? & _)..].
    case_match; [apply hoare_ret; by intros s v (_ & ? & _)|].
    assert (hoare ignore (λ s v, s = q ∧ stored U s v ∧ sorted_out s) (try_send;; next_turn) (λ _, stored U) (λ _, stored U)) as Hs.
    { apply hoare_forget. eapply hoare_bind; [apply stored_try_send|]. intros ?. keep leaf. }
    destruct (idle_actions q) as [|action rest]; [done|]. case_match; [|done].
    eapply hoare_pre; [|by intros s v (_ & H1 & _); exact H1]. keep leaf.
  - apply hoare_forget || apply Hkeep. apply keeps_bind; [keep leaf|]. intros _. apply keeps_get_with. intros q.
    eapply (hoare_bind _ _ _ _ (λ _, stored U)); [|intros ?; keep leaf].
    destruct (_ !! start_mid); [|apply hoare_ret; by intros s v [_ ?]].
    eapply hoare_pre; [apply (stored_replace_in_queue U [] _ _ _ (in_flight q))|]. by intros s v [-> Hs].
Qed.

(** ** Runs *)
Lemma stored_run limit a0 rs U q v :
  ordered [] a0 → Forall (within limit) rs → Forall ordinary rs →
  NoDup (U ++ (rs ≫= new_ids)) → refined limit a0 q v → stored U q tt →
  ∃ U', U' ≡ₚ U ++ (rs ≫= new_ids) ∧ stored U' (run rs q).1 tt.
Proof.
  intros Ho Hw Hnr. revert U q v.
  induction rs as [|r rs IH]; intros U q v Hn Hq Hs; [exists U; by rewrite app_nil_r|].
  apply Forall_cons in Hw as [Hwr Hw], Hnr as [Hr Hnr]. cbn [mbind list_bind] in Hn.
  assert (sorted_out q) as Hso.
  { destruct Hq as [Hst _]. by apply (steps_ordered _ _ _ _ Ho) in Hst as [? ? _ _ _]. }
  assert (Forall (λ i, i ∉ U) (new_ids r)) as Hnew.
  { apply Forall_forall. intros i Hi HU. apply NoDup_app in Hn as (_ & Hd & _). apply (Hd i HU).
    apply elem_of_app. by left. }
  pose proof (keeps_st _ _ _ _ _ (refined_handle limit a0 r Hwr) Hq) as Hq'.
  pose proof (stored_handle U r Hr Hnew q tt (conj Hs Hso)) as Hs'.
  assert (stored (new_ids r ++ U) (st_of (handle r q)) tt) as Hst
    by (unfold st_of; destruct (handle r q) as [[[a|x|] q'] t]; exact Hs').
  assert (NoDup ((new_ids r ++ U) ++ (rs ≫= new_ids))) as Hn'.
  { rewrite (Permutation_app_comm (new_ids r) U), <- app_assoc. exact Hn. }
  destruct (IH Hw Hnr _ _ _ Hn' Hq' Hst) as (U' & HU & HS). exists U'. cbn [run].
  destruct (run rs (st_of (handle r q))) as [q' t]. split; [|exact HS].
  rewrite HU. cbn [mbind list_bind]. by rewrite (Permutation_app_comm (new_ids r) U), <- app_assoc.
Qed.

(** ** Reading the tables *)

(** A message as it comes back from the table. *)
Definition revived m m' : Prop :=
  initial_unique_id m' = initial_unique_id m ∧ messageType m' = messageType m ∧ stall_until_accepted m' = true ∧
  tells_update m'.

Lemma revived_row r m m' : row_matches r m → revived m m' → row_matches r m'.
Proof. intros (H1 & H2 & H3) (E1 & E2 & _). split_and!; [by rewrite E1|by rewrite E2|]. by rewrite E1, E2. Qed.

Lemma revived_ids L Q : Forall2 revived L Q → initial_unique_id <$> Q = initial_unique_id <$> L.
Proof. induction 1 as [|m m' L Q [E _] _ IH]; cbn; by f_equal. Qed.

Definition queue_of (t : QueueType) q : list ControlMessage :=
  match t with Normal => normal_message_queue q | Transaction => transaction_message_queue q end.

Definition other_of (t : QueueType) q : list ControlMessage :=
  match t with Normal => transaction_message_queue q | Transaction => normal_message_queue q end.

(** The queues, and the tables that are not touched while rows are restored. *)
Definition restoring (t : QueueType) (Q O : list ControlMessage) (TR NR : list DBTransactionMessage) q (_ : ()) : Prop :=
  queue_of t q = Q ∧ other_of t q = O ∧ transaction_rows q = TR ∧ normal_rows q = NR ∧ in_flight q = None.

Lemma restoring_message t r m Q O TR NR : row_matches r m →
  hoare ignore (restoring t Q O TR NR) (restore_message t r)
    (λ _ s v, ∃ m', revived m m' ∧ restoring t (Q ++ [m']) O TR NR s v) never.
Proof.
  intros (_ & Ht & Hm). eapply (hoare_bind _ _ _ _ (λ _, restoring t Q O TR NR)); [by intros s v Hs; destruct t|].
  intros now. eapply (hoare_bind _ _ _ _ (λ _, restoring t Q O TR NR)); [by intros s v Hs; destruct t|].
  intros n. destruct (Hm n now) as (m0 & E & Hid & Htl).
  pose proof (ControlMessage_new_ret _ _ _ _ _ E) as (_ & _ & _ & _ & Hst). rewrite E.
  eapply (hoare_bind _ _ _ _ (λ m1 s v, m1 = m0 ∧ restoring t Q O TR NR s v)); [by apply hoare_lift|].
  intros m1. eapply hoare_assume; [by intros s v [H _]; exact H|]. intros ->. rewrite Ht. cbv zeta.
  apply hoare_get. intros q.
  destruct t; apply hoare_modify; intros s v (-> & _ & Hq & Ho & H1 & H2 & H3);
    exists (with_persisted m0 (messageType m) (db_timestamp r) (db_message_attempts r));
    (split; [done|split_and!; [cbn in *; by rewrite Hq|done..]]).
Qed.

Lemma restoring_queue t Rs Ls L Q O TR NR :
  Forall2 row_matches Rs Ls → Forall2 revived L Q →
  hoare ignore (restoring t Q O TR NR) (cfor Rs (restore_message t))
    (λ _ s v, ∃ Q', Forall2 revived (L ++ Ls) Q' ∧ restoring t Q' O TR NR s v) never.
Proof.
  intros Hm. revert L Q. induction Hm as [|r m Rs Ls Hr _ IH]; intros L Q HQ; cbn [cfor].
  { apply hoare_ret. intros s v Hs. exists Q. by rewrite app_nil_r. }
  eapply hoare_bind; [by apply restoring_message|]. intros _ s v (m' & Hm' & Hs).
  specialize (IH (L ++ [m]) (Q ++ [m']) ltac:(apply Forall2_app; [done|by constructor]) s v Hs).
  rewrite <- app_assoc in IH. exact IH.
Qed.

(** The rows come in the order in which the database gives them. *)
Lemma restoring_table t Ls TR NR q0 :
  Forall2 row_matches (env_order (S (asked q0)) (rows t q0)) Ls → queue_of t q0 = [] → transaction_rows q0 = TR → normal_rows q0 = NR →
  in_flight q0 = None →
  ∃ Q' q1 tr, restore_queue false t q0 = (Ret tt, q1, tr) ∧
    Forall2 revived Ls Q' ∧ restoring t Q' (other_of t q0) TR NR q1 tt.
Proof.
  intros HR Hq Ht Hn Hf. set (R := env_order (S (asked q0)) (rows t q0)) in *.
  assert (hoare ignore (λ s v, s = q0) (restore_queue false t)
            (λ _ s v, ∃ Q', Forall2 revived Ls Q' ∧ restoring t Q' (other_of t q0) TR NR s v) never) as H.
  { apply (hoare_catch _ _ _ _ _ _ never); [|by intros []; intros s v []|done].
    eapply (hoare_bind _ _ _ _ (λ l s v, l = R ∧ restoring t [] (other_of t q0) TR NR s v)).
    { intros s v ->. cbv [get_message_queue_messages ask]. crun. rewrite Hdb. cbn.
      split; [by destruct t|]. split_and!; [by destruct t|by destruct t|done|done|done]. }
    intros l. eapply hoare_assume; [by intros s v [E _]; exact E|]. intros ->.
    apply (hoare_pre _ _ (restoring t [] (other_of t q0) TR NR)); [|by intros s v [_ ?]]. apply hoare_when.
    - intros _. eapply hoare_bind; [apply (restoring_queue t _ Ls [] []); [done|constructor]|].
      intros ?. apply hoare_modify. intros s v (Q' & HQ & Hs). exists Q'. split; [done|]. by destruct t.
    - intros E s v Hs. apply negb_false_iff, bool_decide_eq_true in E. rewrite E in HR.
      apply Forall2_nil_inv_l in HR as ->. exists []. split; [constructor|done]. }
  specialize (H q0 tt eq_refl). destruct (restore_queue false t q0) as [[[[]| |] q1] tr]; try done.
  destruct H as (Q' & HQ & Hs). by exists Q', q1, tr.
Qed.

(** Starting with the tables brings the messages of the transaction table back, in the
    order [R] of the rows as they are read. *)
Lemma start_restores U L c notify trows nrows :
  rows_of U L (MessageQueue_new c notify trows nrows) →
  let q1 := st_of (get_persisted_messages_from_db false (MessageQueue_new c notify trows nrows)) in
  transaction_rows q1 = trows ∧ in_flight q1 = None ∧ Forall restorable (normal_rows q1) ∧
  ∃ R, R ≡ₚ trows ∧ ((∀ k l, env_order k l = l) → R = trows) ∧
    ∀ L', Forall2 row_matches R L' → Forall2 revived L' (transaction_message_queue q1).
Proof.
  set (q0 := MessageQueue_new c notify trows nrows). intros (Hm & _ & _ & _ & Hr). cbv zeta.
  assert (Forall restorable (env_order (S (asked q0)) nrows)) as [Ln Hnr]%Forall_exists_Forall2_l by by rewrite env_order_perm.
  destruct (restoring_table Normal Ln trows nrows q0 Hnr eq_refl eq_refl eq_refl eq_refl)
    as (Q1 & q1 & t1 & E1 & _ & _ & HO & HT1 & HN1 & HF1).
  set (R := env_order (S (asked q1)) trows). assert (R ≡ₚ trows) as HP by apply env_order_perm.
  assert (∀ L', Forall2 row_matches R L' → ∃ Q2 q2 t2, restore_queue false Transaction q1 = (Ret tt, q2, t2) ∧
    Forall2 revived L' Q2 ∧ restoring Transaction Q2 (normal_message_queue q1) trows nrows q2 tt) as Hres.
  { intros L' HL. apply restoring_table; try done. change (rows Transaction q1) with (transaction_rows q1). by rewrite HT1. }
  destruct (Permutation_Forall2 (symmetry HP) Hm) as (L2 & _ & HL2).
  destruct (Hres L2 HL2) as (Q2 & q2 & t2 & E2 & _ & HQ & _ & HT2 & HN2 & HF2).
  assert (∀ L', Forall2 row_matches R L' → Forall2 revived L' (transaction_message_queue q2)) as Hall.
  { intros L' (Q3 & q3 & t3 & E3 & HQ3 & H3 & _)%Hres. rewrite E2 in E3. injection E3 as <- _. cbn in H3. by rewrite H3. }
  unfold get_persisted_messages_from_db, mbind, cmd_mbind, cmd_bind, st_of. rewrite E1, E2.
  destruct (queue_all_messages (config q2)) eqn:Ea; cbv [cget cwhen try_db ccatch clear_message_queue ask]; rewrite Ea;
    crun; rewrite ?Hdb; cbn in *; (split_and!; [done|done|by rewrite ?HN2|exists R; split_and!; [done| |done]]);
    intros HE; apply HE.
Qed.

End store.

(** ** Starts and stops

    The charging station starts, reads the tables, and serves requests until it stops,
    which it may do after any of them; then it starts again with what is in the
    tables. *)
Section sessions.
Context {M : Type} `{MK : MessageKind M} `{!MessageKindLaws M} `{!UpdateLaws M}.

Record session := {
  s_env : Environment;
  s_config : MessageQueueConfig M;
  s_notify : list M;
  s_requests : list request;
}.

Definition serve (s : session) (tables : list DBTransactionMessage * list DBTransactionMessage) : Queue M :=
  (run (ENV:=s_env s) (RRestore false :: s_requests s) (MessageQueue_new (s_config s) (s_notify s) tables.1 tables.2)).1.

(** The tables after some sessions, beginning with empty ones. *)
Definition tables_after (ss : list session) : list DBTransactionMessage * list DBTransactionMessage :=
  foldl (λ tables s, let q := serve s tables in (transaction_rows q, normal_rows q)) ([], []) ss.

(** The database executes every statement, and gives the rows in the order in which they
    were inserted (there is no ORDER BY in the query; it is what a scan of an SQLite table
    with row ids does).  The rows are read at the start only. *)
Record working (s : session) : Prop := {
  working_db k : env_db_ok (Environment:=s_env s) k = true;
  working_order k l : env_order (Environment:=s_env s) k l = l;
  working_requests : Forall (ordinary (M:=M)) (s_requests s);
}.

Definition session_ids (s : session) : list string := s_requests s ≫= new_ids.

(** Tables that hold the messages [L], none of whose ids are used otherwise. *)
Definition tables_hold (U : list string) (L : list (ControlMessage M)) tables : Prop :=
  (∀ c notify, rows_of U L (MessageQueue_new c notify tables.1 tables.2)) ∧ tables_ok (M:=M) tables.1 tables.2.

Lemma serve_stored U L s tables :
  working s → NoDup (U ++ session_ids s) → tables_hold U L tables →
  let q := serve s tables in
  ∃ U', U' ≡ₚ U ++ session_ids s ∧ stored U' q tt ∧ tables_hold U' (unsettled q) (transaction_rows q, normal_rows q).
Proof.
  intros [Hdb Hord Hrs] Hn [HL Hok]. destruct s as [env c notify rs]. unfold serve, session_ids in *.
  cbn [s_env s_config s_notify s_requests] in *.
  set (q0 := MessageQueue_new c notify tables.1 tables.2).
  destruct (attempts_limit_ok c (RRestore false :: rs)) as [Hc Hw]. set (limit := attempts_limit c _) in *.
  pose proof (new_refined c notify _ _ limit Hc Hok) as Hq0. fold q0 in Hq0.
  apply Forall_cons in Hw as [Hw0 Hw]. set (q1 := st_of (handle (RRestore false) q0)).
  assert (refined limit (abs None q0) q1 (foldl sends [] (out_of (handle (RRestore false) q0)))) as Hq1
    by exact (keeps_st _ _ _ _ _ (refined_handle limit (abs None q0) _ Hw0) Hq0).
  assert (stored U q1 tt) as Hs1.
  { destruct (HL c notify) as (H1 & H2 & H3 & H4 & H5).
    destruct (start_restores Hdb U L c notify _ _ (HL c notify)) as (HT & HF & HN & R & _ & HE & HQ).
    rewrite (HE Hord) in HQ. specialize (HQ L H1).
    change (st_of _) with q1 in HT, HF, HN, HQ.
    unfold stored, unsettled, rows_of. rewrite HF, HT. change (in_flight_t (M:=M) None) with (@nil (ControlMessage M)).
    rewrite app_nil_l.
    rewrite (revived_ids _ _ HQ). split_and!; [|done|done| |done].
    - cbn in H1. clear -H1 HQ. revert H1. generalize tables.1. induction HQ as [|m m' L Q Hm _ IH]; intros R HR;
        inversion HR; subst; constructor; [by eapply revived_row|auto].
    - clear -HQ. induction HQ as [|m m' L Q (_ & _ & _ & ?) _ IH]; by constructor. }
  destruct (stored_run Hdb limit (abs None q0) rs U q1 _ (initial_ordered 0) Hw Hrs Hn Hq1 Hs1) as (U' & HU & HS).
  pose proof (refined_run limit (abs None q0) rs q1 _ Hw Hq1) as Hq.
  assert ((run (RRestore false :: rs) q0).1 = (run rs q1).1) as -> by (unfold q1; cbn [run]; by destruct (run rs _)).
  exists U'. split_and!; [done|exact HS|]. split; [intros ? ?; exact HS|]. apply Hq.
Qed.

Lemma sessions_stored ss :
  Forall working ss → NoDup (ss ≫= session_ids) →
  ∃ U L, U ≡ₚ ss ≫= session_ids ∧ tables_hold U L (tables_after ss).
Proof.
  induction ss as [|s ss IH] using rev_ind.
  { intros _ _. exists [], []. split; [done|]. split; [|by split]. intros ? ?. split_and!; constructor. }
  rewrite bind_app. cbn [mbind list_bind]. rewrite app_nil_r. intros [Hss [Hs _]%Forall_cons]%Forall_app Hn.
  destruct (IH Hss) as (U & L & HU & HL); [by apply NoDup_app in Hn as (? & _)|].
  unfold tables_after. rewrite foldl_app. cbn [foldl]. fold (tables_after ss).
  destruct (serve_stored U L s (tables_after ss) Hs) as (U' & HU' & _ & HL'); [by rewrite HU|done|].
  exists U', (unsettled (serve s (tables_after ss))). split; [by rewrite HU', HU|exact HL'].
Qed.

(** C19: the table of transaction messages mirrors the queue across restarts. After any
    number of starts and stops (each between two requests, beginning with empty tables)
    of a station with a working database ([working]), whose message ids are not used
    twice, and at every moment of the run that follows, the table holds exactly the
    messages that have not been settled: the one in flight and the queued ones, in the
    order in which they will be sent. *)
Theorem unsettled_messages_are_stored ss s :
  Forall working (ss ++ [s]) → NoDup ((ss ++ [s]) ≫= session_ids) →
  let q := serve s (tables_after ss) in
  Forall2 row_matches (transaction_rows q) (unsettled q).
Proof.
  rewrite bind_app. cbn [mbind list_bind]. rewrite app_nil_r. intros [Hss [Hs _]%Forall_cons]%Forall_app Hn.
  destruct (sessions_stored ss Hss) as (U & L & HU & HL); [by apply NoDup_app in Hn as (? & _)|].
  destruct (serve_stored U L s (tables_after ss) Hs) as (U' & _ & [H _] & _); [by rewrite HU|done|exact H].
Qed.


End sessions.
End MessageQueueStore.
