(* ===== verification/MessageQueueTypes.v ===== *)
(** * Well-formed messages and exceptions

    Messages in the queue have the shape of an OCPP call, and their promises are not
    fulfilled.  While that is so, no operation throws or runs into undefined
    behaviour, except for texts from outside that are not OCPP messages. *)

From S2P Require Import Prelude CiString Json MessageTypes MessageQueue MessageQueueRefines MessageQueueFacts.
From Stdlib Require Import Strings.String.
#[local] Notation length := Datatypes.length.

Module MessageQueueTypes.
Import Json CiString MessageQueue MessageQueueRefines MessageQueueFacts.

Section types.
Context {M : Type} `{MK : MessageKind M} `{!MessageKindLaws M} `{!UpdateLaws M} `{ENV : Environment}.
Notation Queue := (Queue M).
Notation ControlMessage := (ControlMessage M).
Notation output := (output M).
Notation op := (cmd Queue output exn).
Implicit Types (q s : Queue) (m : ControlMessage).

(** Generated ids fit into a [MessageId]. *)
Context (Hids : ∀ k, (String.length (env_message_id k) ≤ 36)%nat).

(** The array of a call: an id, an action with a response, and an object. *)
Definition wf_array (a : list json) : Prop :=
  ∃ hd mid act ms tl, a = hd :: JString mid :: JString act :: JObject ms :: tl ∧
    (String.length mid ≤ 36)%nat ∧ is_Some (string_to_messagetype (M:=M) act) ∧
    is_Some (string_to_messagetype (M:=M) (act ++ "Response")%string).

(** A call of type [t]: it can be told whether it is an update of a transaction.  In
    OCPP 1.6 it always can; in OCPP 2.x the payload of a TransactionEvent must be a
    TransactionEventRequest. *)
Definition wf_call (t : M) (a : list json) : Prop := wf_array a ∧ ∃ u, is_transaction_update t a = Ret u.

(** The same as JSON, with the type of its action. *)
Definition wf_json (j : json) : Prop :=
  ∃ a act t, j = JArray a ∧ a !! CALL_ACTION = Some (JString act) ∧ string_to_messagetype act = Some t ∧ wf_call t a.

Definition wf_message m : Prop := promise m = None ∧ wf_call (messageType m) (message m) ∧
  string_to_messagetype (messagetype_to_string (messageType m)) = Some (messageType m).

Definition wf_row (r : DBTransactionMessage) : Prop :=
  ∃ a t, db_json_message r = JArray a ∧ string_to_messagetype (db_message_type r) = Some t ∧ wf_call t a.

Record wf q (v : ()) : Prop := {
  wf_t : Forall wf_message (transaction_message_queue q);
  wf_n : Forall wf_message (normal_message_queue q);
  wf_flying m : in_flight q = Some m → wf_message m;
  wf_trows : Forall wf_row (transaction_rows q);
  wf_nrows : Forall wf_row (normal_rows q);
}.

#[local] Notation keeps_wf := (Tracks ignore wf).
#[local] Ltac leaf := intros ? ? []; split; done.

(** Reading the id and the action of the array, and renewing the id. *)
Lemma array_uniqueId m : wf_array (message m) → ∃ mid, uniqueId m = Ret mid.
Proof.
  intros (hd & mid & act & ms & tl & Ea & Hl & _). unfold uniqueId. rewrite Ea. exists mid. cbn.
  unfold MessageId_of_string, CiString_new. by rewrite String_set_fits.
Qed.

Lemma array_read m : wf_array (message m) → ∃ mid act, (j ← array_at (message m) MESSAGE_ID; string_of_json j) = Ret mid ∧
  (j ← array_at (message m) CALL_ACTION; string_of_json j) = Ret act ∧
  is_Some (string_to_messagetype (M:=M) (act ++ "Response")%string).
Proof. intros (hd & mid & act & ms & tl & Ea & _ & _ & H). exists mid, act. by rewrite Ea. Qed.

Lemma array_renew a i : wf_array a → (String.length i ≤ 36)%nat → wf_array (<[MESSAGE_ID := JString i]> a).
Proof. intros (hd & mid & act & ms & tl & -> & _ & H) Hi. by exists hd, i, act, ms, tl. Qed.

Lemma wf_message_array m : wf_message m → wf_array (message m).
Proof. intros (_ & [? _] & _). done. Qed.

Lemma wf_uniqueId m : wf_message m → ∃ mid, uniqueId m = Ret mid.
Proof. intros Hm. by apply array_uniqueId, wf_message_array. Qed.

Lemma wf_read m : wf_message m → ∃ mid act, (j ← array_at (message m) MESSAGE_ID; string_of_json j) = Ret mid ∧
  (j ← array_at (message m) CALL_ACTION; string_of_json j) = Ret act ∧
  is_Some (string_to_messagetype (M:=M) (act ++ "Response")%string).
Proof. intros Hm. by apply array_read, wf_message_array. Qed.

Lemma wf_tells m : wf_message m → tells_update m.
Proof. intros (_ & [_ ?] & _). done. Qed.

Lemma wf_renew m i : wf_message m → (String.length i ≤ 36)%nat →
  wf_message (with_message m (<[MESSAGE_ID := JString i]> (message m))).
Proof.
  intros Hm Hi. pose proof (tells_renewed m i (wf_tells m Hm)) as Hu.
  destruct Hm as (Hp & [Ha _] & Ht). split_and!; [done|split; [by apply array_renew|done]|done].
Qed.

Lemma wf_set_transaction_id a n : wf_array a → ∃ a', set_transaction_id a n = Ret a' ∧ wf_array a'.
Proof.
  intros (hd & mid & act & ms & tl & -> & H). eexists. split; [done|]. cbn. unfold wf_array. eauto 10.
Qed.

Lemma wf_number m n : wf_message m → ∃ a, set_transaction_id (message m) n = Ret a ∧ wf_message (with_message m a).
Proof.
  intros Hm. destruct (wf_set_transaction_id (message m) n) as (a & Ea & Ha); [apply Hm|]. exists a. split; [done|].
  pose proof (tells_numbered m n a Ea (wf_tells m Hm)). by split_and!; [apply Hm|split|apply Hm].
Qed.

(** A message object is created from every array of a call. *)
Lemma new_message_of_array r now a stall : wf_array a → ∃ m, ControlMessage_new r now (JArray a) stall = Ret m ∧
  promise m = None ∧ message m = a ∧ ∀ act, a !! CALL_ACTION = Some (JString act) →
    string_to_messagetype act = Some (messageType m).
Proof.
  intros (hd & mid & act & ms & tl & -> & Hl & [t Ht] & _).
  unfold ControlMessage_new. cbn. rewrite Ht. cbn. unfold MessageId_of_string, CiString_new.
  rewrite String_set_fits by done. cbn. eexists. split_and!; try done. by intros ? [= <-].
Qed.

Lemma wf_new_message r now j stall : wf_json j → ∃ m, ControlMessage_new r now j stall = Ret m ∧ wf_message m.
Proof.
  intros (a & act & t & -> & Hact & Ht & Ha & Hu).
  destruct (new_message_of_array r now a stall Ha) as (m & Em & Hp & Hm & Hty). exists m. split; [done|].
  specialize (Hty act Hact). rewrite Ht in Hty. injection Hty as ->. rewrite <- Hm in Ha, Hu.
  split_and!; [done|by split|by eapply messagetype_recognised].
Qed.

Lemma wf_db_message m : wf_message m → ∃ r, db_message_of m = Ret r ∧ wf_row r.
Proof.
  intros Hm. destruct (wf_uniqueId m Hm) as [mid Hu]. unfold db_message_of. rewrite Hu. eexists. split; [done|].
  destruct Hm as (_ & Ha & Ht). by exists (message m), (messageType m).
Qed.

(** ** The tables *)
#[export] Instance tracks_ask {A} (h : nat → A) : keeps_wf (ask h).
Proof. track leaf. Qed.

Lemma wf_remove t uid s v : wf s v →
  wf (set_rows t (list_filter (λ r, db_unique_id r ≠ uid) _ (rows t s)) s) v.
Proof.
  intros [Ht Hn Hf Htr Hnr]. destruct t; split; try done; (eapply Forall_sublist; [|apply sublist_filter]; done).
Qed.

#[export] Instance tracks_try_remove uid t : keeps_wf (try_db (remove_message_queue_message uid t)).
Proof.
  intros s [] Hs. cbv [try_db ccatch remove_message_queue_message ask]. crun.
  destruct (env_db_ok (asked s)); crun; eexists _, _, _; (split; [done|]); [|by destruct Hs].
  apply (wf_remove t uid (set_asked (S (asked s)) s)). by destruct Hs.
Qed.

Lemma tracks_try_insert r t : wf_row r → keeps_wf (try_db (insert_message_queue_message r t)).
Proof.
  intros Hr s [] Hs. cbv [try_db ccatch insert_message_queue_message ask]. crun.
  destruct (negb _ || _); crun; eexists _, _, _; (split; [done|]); [by destruct Hs|].
  destruct Hs, t; split; try done; (apply Forall_app; split; [done|by constructor]).
Qed.

(** ** The clean-up *)
Lemma wf_queues lt ln s v :
  wf s v → Forall wf_message lt → Forall wf_message ln →
  wf (set_transaction_message_queue lt (set_normal_message_queue ln s)) v.
Proof. intros [] ? ?. by split. Qed.

Lemma tracks_drop_normal n kept l :
  Forall wf_message kept → Forall wf_message l → keeps_wf (drop_normal n kept l).
Proof.
  intros Hk Hl. revert n kept Hk. induction Hl as [|m l Hm Hl IH]; intros [|n] kept Hk; cbn [drop_normal]; try apply _.
  case_match; [apply IH, Forall_app; auto|].
  apply tracks_bind; [track leaf|]. intros _. apply tracks_bind; [|intros _; by apply IH].
  apply tracks_modify. intros s v []. split; try done. by apply Forall_app.
Qed.

Lemma leads_drop_updates l b : Forall wf_message l →
  leads (X:=exn) ignore wf (drop_updates l b) (λ r s v, wf s v ∧ r.1 `sublist_of` l ∧ (length r.1 + r.2 = length l)%nat).
Proof.
  intros Hl. revert b. induction Hl as [|m l Hm Hl IH]; intros b; cbn [drop_updates]; [by apply leads_ret|].
  eapply (leads_bind _ _ _ _ (λ _, wf)); [apply leads_modify; intros s v []; by split|]. intros _.
  eapply (leads_bind _ _ _ _ (λ _, wf)).
  { destruct b; [|by apply leads_ret]. unfold is_transaction_update_message.
    destruct (wf_tells m Hm) as [u Hu]. unfold is_transaction_update_message in Hu. rewrite Hu. by apply leads_ret. }
  intros update. case_match.
  - eapply (leads_bind _ _ _ _ (λ _, wf)); [apply tracks_try_remove|]. intros _.
    eapply leads_bind; [apply IH|]. intros [swap n]. apply leads_ret. cbn. intros s v (? & ? & ?).
    split_and!; [done|by constructor|lia].
  - eapply leads_bind; [apply IH|]. intros [swap n]. apply leads_ret. cbn. intros s v (? & ? & ?).
    split_and!; [done|by constructor|lia].
Qed.

Lemma tracks_keeps {A} (c : op A) : keeps_wf c → Keeps ignore wf c.
Proof. apply leads_hoare. Qed.

(** The loops end, and what they leave is well formed. *)
#[export] Instance tracks_check_queue_sizes : keeps_wf check_queue_sizes.
Proof.
  assert (∀ fuel, Keeps ignore wf (drop_normal_loop fuel)) as Hn.
  { induction fuel as [|fuel IH]; cbn [drop_normal_loop]; [apply _|].
    apply keeps_bind; [apply _|]. intros q. case_match; [|apply _]. apply keeps_bind.
    - apply keeps_get_with. intros s0. eapply hoare_assume; [by intros s [] [-> H']; exact H'|]. intros [].
      apply hoare_forget, tracks_keeps. by apply tracks_drop_normal.
    - intros _. apply keeps_bind; [apply _|]. intros q'. case_match; [apply _|exact IH]. }
  assert (∀ fuel, Keeps ignore wf (drop_updates_loop fuel)) as Hu.
  { induction fuel as [|fuel IH]; cbn [drop_updates_loop]; [apply _|].
    apply keeps_bind; [apply _|]. intros q. case_match; [|apply _]. apply keeps_bind; [|intros []; [exact IH|apply _]].
    apply keeps_get_with. intros s0. eapply hoare_assume; [by intros s [] [-> H']; exact H'|]. intros Hs0.
    apply hoare_forget. eapply (hoare_bind _ _ _ _ (λ r s v, wf s v ∧ Forall wf_message r.1)).
    - intros s v Hs. destruct (leads_drop_updates (transaction_message_queue s0) true) with s v
        as (r & s' & t & -> & H1 & H2 & _); [apply Hs0|done|]. split; [done|].
      eapply Forall_sublist; [apply Hs0|done].
    - intros [swap n]. eapply (hoare_bind _ _ _ _ (λ _, wf)); [|intros ?; by apply hoare_ret].
      apply hoare_modify. intros s v [[] ?]. by split. }
  intros s v Hs.
  assert (Keeps ignore wf check_queue_sizes) as Hk.
  { apply keeps_bind; [apply _|]. intros q. case_match; [apply _|]. apply keeps_bind; auto. }
  specialize (Hk s v Hs).
  pose proof (check_queue_sizes_cleans (transaction_message_queue s) (normal_message_queue s) (config s)
    ltac:(eapply Forall_impl; [apply Hs|apply wf_tells]) s tt ltac:(done)) as Hc. destruct (check_queue_sizes s) as [[[a| |] s'] t]; try done. eauto.
Qed.

(** ** Adding messages *)
Lemma tracks_add_normal m : wf_message m → keeps_wf (add_to_normal_message_queue m).
Proof.
  intros Hm. apply tracks_bind.
  { case_match; (eapply leads_get; intros q; eapply leads_modify; intros s v [-> []]; split; try done);
      [by constructor|apply Forall_app; auto]. }
  intros _. apply tracks_bind; [apply _|]. intros q. apply tracks_bind; [|intros _; track leaf]. apply tracks_when.
  destruct (wf_db_message m Hm) as (r & -> & Hr). apply (leads_bind _ _ _ _ (λ r' s v, r' = r ∧ wf s v)).
  { by apply leads_lift. }
  intros r' s v [-> Hs]. by apply (tracks_try_insert r Normal Hr).
Qed.

Lemma tracks_add_transaction m : wf_message m → keeps_wf (add_to_transaction_message_queue m).
Proof.
  intros Hm. eapply leads_get. intros q. eapply (leads_bind _ _ _ _ (λ _, wf)).
  { apply leads_modify. intros s v [-> []]. split; try done. apply Forall_app. auto. }
  intros _. destruct (wf_db_message m Hm) as (r & -> & Hr). apply (leads_bind _ _ _ _ (λ r' s v, r' = r ∧ wf s v)).
  { by apply leads_lift. }
  intros r'. eapply leads_assume; [by intros s v [H _]; exact H|]. intros ->.
  apply (leads_conseq _ _ wf _ _ (λ _, wf)); [|by intros s v [_ ?]|done].
  apply tracks_bind; [by apply tracks_try_insert|]. intros _. track leaf.
Qed.

Lemma leads_make_message j stall : wf_json j →
  leads (X:=exn) ignore wf (make_message j stall) (λ m s v, wf s v ∧ wf_message m).
Proof.
  intros Hj. eapply (leads_bind _ _ _ _ (λ _, wf)); [apply tracks_ask|]. intros now.
  eapply (leads_bind _ _ _ _ (λ _, wf)); [track leaf|]. intros r.
  destruct (wf_new_message r now j stall Hj) as (m & -> & Hm). by apply leads_lift.
Qed.

Lemma tracks_push_call j stall : wf_json j → keeps_wf (push_call j stall).
Proof.
  intros Hj. apply tracks_bind; [apply _|]. intros q. case_match; [apply _|].
  eapply leads_bind; [by apply leads_make_message|]. intros m. eapply leads_assume; [by intros s v [_ H']; exact H'|].
  intros Hm. apply (leads_conseq _ _ wf _ _ (λ _, wf)); [|by intros s v [? _]|done].
  apply tracks_bind; [|intros _; track leaf]. case_match; [by apply tracks_add_transaction|].
  apply tracks_bind; [apply _|]. intros q'. by apply tracks_when, tracks_add_normal.
Qed.

Lemma tracks_push_call_async j : wf_json j → keeps_wf (push_call_async j).
Proof.
  intros Hj. eapply leads_bind; [by apply leads_make_message|]. intros m.
  eapply leads_assume; [by intros s v [_ H']; exact H'|]. intros Hm.
  apply (leads_conseq _ _ wf _ _ (λ _, wf)); [|by intros s v [? _]|done].
  assert (∀ e, keeps_wf (promise_set_value m e;; mret tt)) as Hp.
  { intros e s [] Hs. unfold promise_set_value. rewrite (proj1 Hm). crun. by eexists _, _, _. }
  apply tracks_bind; [apply _|]. intros q. case_match; [apply Hp|].
  case_match; [by apply tracks_add_transaction|]. case_match; [apply Hp|by apply tracks_add_normal].
Qed.

Lemma tracks_restore_message t r : wf_row r → keeps_wf (restore_message t r).
Proof.
  intros (a & ty & Hj & Hty & Ha & Hu). eapply (leads_bind _ _ _ _ (λ _, wf)); [apply tracks_ask|]. intros now.
  eapply (leads_bind _ _ _ _ (λ _, wf)); [track leaf|]. intros n.
  rewrite Hj. destruct (new_message_of_array n now a true Ha) as (m & -> & Hp & Hm & _).
  eapply (leads_bind _ _ _ _ (λ m' s v, m' = m ∧ wf s v)); [by apply leads_lift|].
  intros m'. eapply leads_assume; [by intros s v [H' _]; exact H'|]. intros ->. rewrite Hty. cbv zeta.
  assert (wf_message (with_persisted m ty (db_timestamp r) (db_message_attempts r))) as Hm'.
  { split_and!; [done|split; cbn; by rewrite Hm|]. cbn. by eapply messagetype_recognised. }
  eapply leads_get. intros q. destruct t; eapply leads_modify; intros s v (-> & _ & []); split; try done;
    (apply Forall_app; auto).
Qed.

Lemma tracks_restore_queue b t : keeps_wf (restore_queue b t).
Proof.
  apply hoare_leads. apply (hoare_catch _ _ _ _ _ _ (λ x s v, x = Some QueryExecutionException ∧ wf s v)).
  - eapply (hoare_bind _ _ _ _ (λ l s v, wf s v ∧ Forall wf_row l)).
    + eapply (hoare_bind _ _ _ _ (λ _, wf)); [apply leads_hoare, tracks_ask|]. intros ok. apply hoare_get. intros q.
      destruct ok; [apply hoare_ret|apply hoare_throw]; intros s v [-> Hs]; [|done]. split; [done|].
      rewrite env_order_perm. by destruct Hs, t.
    + intros l. eapply hoare_assume; [by intros s v [_ H']; exact H'|]. intros Hl.
      apply leads_hoare. apply (leads_conseq _ _ wf _ _ (λ _, wf)); [|by intros s v [? _]|done].
      apply tracks_when, tracks_bind; [|intros _; track leaf]. clear -Hl MessageKindLaws0.
      induction Hl as [|r R Hr _ IH]; [apply _|]. cbn [cfor]. apply tracks_bind; [|by intros _].
      case_match; [apply _|by apply tracks_restore_message].
  - intros []; try (by intros s v [? _]). apply hoare_ret. by intros s v [_ ?].
  - by intros s v [? _].
Qed.

Lemma tracks_restore b : keeps_wf (get_persisted_messages_from_db b).
Proof.
  apply tracks_bind; [apply tracks_restore_queue|]. intros _. apply tracks_bind; [apply tracks_restore_queue|]. intros _.
  apply tracks_bind; [apply _|]. intros q. apply tracks_when. intros s [] Hs.
  cbv [try_db ccatch clear_message_queue ask]. crun.
  destruct (env_db_ok (asked s)); crun; eexists _, _, _; (split; [done|]); destruct Hs; by split.
Qed.

(** ** Timeouts, errors and answers

    [wf_rest]: all but the member [in_flight], which may hold a settled message. *)
Definition wf_rest q v : Prop := wf (set_in_flight None q) v.
Definition aloft m q v : Prop := wf q v ∧ in_flight q = Some m.

Lemma wf_wf_rest s v : wf s v → wf_rest s v.
Proof. intros []. by split. Qed.

Lemma leads_reset : leads (X:=exn) ignore wf_rest reset_in_flight (λ _, wf).
Proof. intros s [] []. eexists _, _, _. split; [done|by split]. Qed.

Lemma leads_settle m e : leads (X:=exn) ignore (aloft m) (settle_in_flight e) (λ _, wf_rest).
Proof.
  intros s [] [Hs Hf]. unfold settle_in_flight. rewrite bind_get, Hf. unfold promise_set_value.
  rewrite (proj1 (wf_flying _ _ Hs m Hf)). cbn. eexists _, _, _. split; [done|]. by apply wf_wf_rest in Hs.
Qed.

#[export] Instance rest_try_remove uid t : Tracks ignore wf_rest (try_db (remove_message_queue_message uid t)).
Proof.
  intros s [] Hs. cbv [try_db ccatch remove_message_queue_message ask]. crun.
  destruct (env_db_ok (asked s)); crun; eexists _, _, _; (split; [done|]); [|by destruct Hs].
  pose proof (wf_remove t uid _ tt Hs) as H. destruct t; destruct H; by split.
Qed.

Lemma leads_renew m : wf_message m → leads (X:=exn) ignore wf (renew_message_id m) (λ m' s v, wf s v ∧ wf_message m').
Proof.
  intros Hm s [] Hs. cbv [renew_message_id create_message_id ask]. crun. eexists _, _, _. split; [done|].
  split; [by destruct Hs|]. by apply wf_renew.
Qed.

Lemma tracks_push_front t m : wf_message m → keeps_wf (push_front t m).
Proof.
  intros Hm s [] []. unfold push_front. destruct t; crun; eexists _, _, _; (split; [done|]); split; cbn; try done;
    by constructor.
Qed.

Lemma tracks_set_in_flight m : wf_message m → keeps_wf (cmodify (set_in_flight (Some m)) : op ()).
Proof. intros Hm. apply tracks_modify. intros s v []. split; try done. by intros ? [= <-]. Qed.

Lemma leads_schedule_retry m : wf_message m → leads (X:=exn) ignore wf (schedule_retry m) (λ _, wf).
Proof.
  intros Hm. apply tracks_bind; [apply _|]. intros q. destruct (wf_read m Hm) as (mid & _ & -> & _).
  eapply (leads_bind _ _ _ _ (λ _, wf)); [by apply leads_lift|]. intros old_id.
  eapply leads_bind; [by apply leads_renew|]. intros m1. eapply leads_assume; [by intros s v [_ H']; exact H'|]. intros Hm1.
  apply (leads_conseq _ _ wf _ _ (λ _, wf)); [|by intros s v [? _]|done].
  eapply (leads_bind _ _ _ _ (λ m2 s v, wf s v ∧ wf_message m2)).
  { case_match; [by apply leads_ret|]. eapply (leads_bind _ _ _ _ (λ _, wf)); [apply tracks_ask|].
    intros now. by apply leads_ret. }
  intros m2. eapply leads_assume; [by intros s v [_ H']; exact H'|]. intros Hm2.
  apply (leads_conseq _ _ wf _ _ (λ _, wf)); [|by intros s v [? _]|done].
  apply tracks_bind; [by apply tracks_set_in_flight|]. intros _. apply tracks_bind; [by apply tracks_push_front|]. intros _.
  apply tracks_bind; [|intros _; track leaf]. apply tracks_when.
  destruct (wf_read m2 Hm2) as (mid2 & _ & -> & _). eapply (leads_bind _ _ _ _ (λ _, wf)); [by apply leads_lift|].
  intros new_id. track leaf.
Qed.

Lemma leads_retry_boot m : wf_message m → leads (X:=exn) ignore wf (retry_boot_notification m) (λ _, wf).
Proof.
  intros Hm. apply tracks_bind; [apply _|]. intros q.
  eapply leads_bind; [by apply leads_renew|]. intros m1. eapply leads_assume; [by intros s v [_ H']; exact H'|]. intros Hm1.
  apply (leads_conseq _ _ wf _ _ (λ _, wf)); [|by intros s v [? _]|done]. cbv zeta.
  apply tracks_bind; [by apply tracks_set_in_flight|]. intros _. apply tracks_bind; [by apply tracks_push_front|].
  intros _. track leaf.
Qed.

#[export] Instance tracks_handle_timeout e : keeps_wf (handle_timeout_or_callerror e).
Proof.
  eapply leads_get. intros q. destruct (in_flight q) as [m|] eqn:Ef; [|apply leads_ret; by intros s v [_ ?]].
  apply (leads_conseq _ _ (λ s v, aloft m s v ∧ wf_message m) _ _ (λ _, wf)); [|..|done].
  2: { intros s v [-> Hs]. split; [by split|]. by apply (wf_flying _ _ Hs). }
  eapply leads_assume; [by intros s v [_ H']; exact H'|]. intros Hm.
  apply (leads_conseq _ _ (aloft m) _ _ (λ _, wf)); [|by intros s v [? _]|done].
  eapply (leads_bind _ _ _ _ (λ _, wf_rest)); [|intros ?; eapply leads_bind; [apply leads_reset|intros ?; track leaf]].
  assert (∀ c : op (), leads ignore wf c (λ _, wf) → leads ignore (aloft m) c (λ _, wf_rest)) as Hwf.
  { intros c Hc. eapply leads_conseq; [exact Hc|by intros s v [? _]|intros ? s v; apply wf_wf_rest]. }
  repeat case_match.
  - by apply Hwf, leads_schedule_retry.
  - eapply leads_bind; [apply leads_settle|]. intros ?. apply rest_try_remove.
  - by apply Hwf, leads_retry_boot.
  - apply leads_settle.
Qed.

#[export] Instance tracks_handle_call_result e : keeps_wf (handle_call_result e).
Proof.
  eapply leads_get. intros q. destruct (in_flight q) as [m|] eqn:Ef; [|apply leads_ret; by intros s v [_ ?]].
  apply (leads_conseq _ _ (λ s v, aloft m s v ∧ wf_message m) _ _ (λ _, wf)); [|..|done].
  2: { intros s v [-> Hs]. split; [by split|]. by apply (wf_flying _ _ Hs). }
  eapply leads_assume; [by intros s v [_ H']; exact H'|]. intros Hm.
  apply (leads_conseq _ _ (aloft m) _ _ (λ _, wf)); [|by intros s v [? _]|done].
  destruct (wf_uniqueId m Hm) as [mid ->]. destruct (wf_read m Hm) as (_ & act & _ & -> & [t Ht]).
  eapply (leads_bind _ _ _ _ (λ _, aloft m)); [by apply leads_lift|]. intros mid'.
  case_match; [apply leads_ret; by intros s v [? _]|].
  eapply (leads_bind _ _ _ _ (λ a s v, aloft m s v ∧ a = act)); [by apply leads_lift|]. intros a.
  eapply leads_assume; [by intros s v [_ H']; exact H'|]. intros ->. rewrite Ht. cbv zeta.
  eapply leads_bind; [eapply leads_conseq; [apply leads_settle|by intros s v [? _]|intros ? ? ? H'; exact H']|]. intros ?.
  eapply (leads_bind _ _ _ _ (λ _, wf_rest)); [apply tracks_when, rest_try_remove|]. intros ?.
  eapply leads_bind; [apply leads_reset|]. intros ?. track leaf.
Qed.

(** ** The worker *)
Lemma leads_replace m : wf_message m →
  leads (X:=exn) ignore wf (replace_transaction_id m) (λ m' s v, wf s v ∧ wf_message m').
Proof.
  intros Hm. eapply leads_get. intros q. apply leads_forget. destruct (wf_read m Hm) as (mid & _ & -> & _).
  eapply (leads_bind _ _ _ _ (λ _, wf)); [by apply leads_lift|]. intros mid'.
  destruct (_ !! mid') as [n|]; [|by apply leads_ret].
  destruct (wf_number m n Hm) as (a & -> & Ha).
  eapply (leads_bind _ _ _ _ (λ a' s v, a' = a ∧ wf s v)); [by apply leads_lift|]. intros a'.
  eapply (leads_bind _ _ _ _ (λ _ s v, a' = a ∧ wf s v)); [apply leads_modify; intros s v [? []]; by split; [|split]|].
  intros ?. apply leads_ret. by intros s v [-> Hs].
Qed.

Lemma leads_send t i m : wf_message m → leads (X:=exn) ignore wf (send_message t i m) (λ _, wf).
Proof.
  intros Hm. unfold send_message. cbv zeta. eapply leads_bind; [by apply leads_replace|]. intros m2.
  eapply leads_assume; [by intros s v [_ H']; exact H'|]. intros Hm2.
  apply (leads_conseq _ _ wf _ _ (λ _, wf)); [|by intros s v [? _]|done].
  apply tracks_bind; [by apply tracks_set_in_flight|]. intros _. apply tracks_bind.
  { eapply leads_get. intros q. destruct t; apply leads_modify; intros s v [-> []]; split; try done;
      (eapply Forall_sublist; [|apply sublist_delete]; done). }
  intros _. apply tracks_bind; [apply _|]. intros sent. apply tracks_bind; [track leaf|]. intros _.
  apply tracks_bind; [|intros _; track leaf]. destruct sent; [|apply _].
  destruct (wf_uniqueId m2 Hm2) as [mid ->]. eapply (leads_bind _ _ _ _ (λ _, wf)); [by apply leads_lift|]. intros ?. track leaf.
Qed.

#[export] Instance tracks_try_send : keeps_wf try_send.
Proof.
  eapply leads_get. intros q. destruct (paused q); [apply leads_ret; by intros s v [_ ?]|].
  destruct (in_flight q); [apply leads_ret; by intros s v [_ ?]|].
  eapply leads_assume; [by intros s [] [-> H']; exact H'|]. intros Hq. apply leads_forget.
  eapply (leads_bind _ _ _ _ (λ _, wf)); [apply tracks_ask|]. intros now.
  destruct (select_message q now) as [[[t i] m]|] eqn:Es; [|track leaf].
  assert (wf_message m) as Hm.
  { apply select_message_in in Es. destruct Hq as [Ht Hn _ _ _], t; [by apply (Forall_lookup_1 _ _ _ _ Hn Es)|].
    destruct Es as (_ & l & El). rewrite El in Ht. by apply Forall_cons in Ht as [? _]. }
  destruct (wf_uniqueId m Hm) as [mid ->]. eapply (leads_bind _ _ _ _ (λ _, wf)); [by apply leads_lift|]. intros mid'.
  destruct (next_message_to_send q); [case_match; [by apply leads_ret|]|]; by apply leads_send.
Qed.

Lemma wf_replace m ids n : wf_message m → ∃ a, replace_for_ids ids n (message m) = Ret a ∧ wf_message (with_message m a).
Proof.
  intros Hm.
  assert (∃ a, replace_for_ids ids n (message m) = Ret a ∧ wf_array a) as (a & E & Ha).
  { assert (wf_array (message m)) as Ha by apply Hm. revert Ha. generalize (message m) as a. clear -ids.
    induction ids as [|mid ids IH]; intros a Ha; cbn [replace_for_ids]; [by exists a|].
    destruct (wf_set_transaction_id a n Ha) as (a' & Ea & Ha').
    assert (∃ i, (j ← array_at a MESSAGE_ID; string_of_json j) = Ret i) as [i ->]
      by (destruct Ha as (hd & i & act & ms & tl & -> & _); by exists i).
    cbn [mbind outcome_mbind outcome_bind]. case_match; [rewrite Ea|]; by apply IH. }
  exists a. split; [done|]. pose proof (tells_replaced m ids n a E (wf_tells m Hm)).
  by split_and!; [apply Hm|split|apply Hm].
Qed.

Lemma tracks_replace_in_queue kept l ids n :
  Forall wf_message kept → Forall wf_message l → keeps_wf (replace_in_queue kept l ids n).
Proof.
  intros Hk Hl. revert kept Hk. induction Hl as [|m l Hm Hl IH]; intros kept Hk; cbn [replace_in_queue]; [apply _|].
  destruct (wf_replace m ids n Hm) as (a & -> & Hm').
  eapply (leads_bind _ _ _ _ (λ a' s v, a' = a ∧ wf s v)); [by apply leads_lift|]. intros a'.
  eapply leads_assume; [by intros s v [H' _]; exact H'|]. intros ->.
  apply (leads_conseq _ _ wf _ _ (λ _, wf)); [|by intros s v [_ ?]|done].
  apply tracks_bind; [|intros _; apply IH, Forall_app; auto].
  apply tracks_modify. intros s v []. split; try done. apply Forall_app. split; [done|by constructor].
Qed.

(** ** Every request *)
Definition valid (r : request) : Prop :=
  match r with
  | RPushCall j _ | RPushCallAsync j => wf_json j
  | RPushCallResult j => ∃ i, at_index j MESSAGE_ID = Some (JString i) ∧ (String.length i ≤ 36)%nat
  | _ => True
  end.

Lemma read_string_defined a i : (j ← array_at a i; string_of_json j) ≠ Undef.
Proof. unfold array_at. destruct (a !! i) as [[]|]; done. Qed.

Lemma getMessageId_defined a : getMessageId a ≠ Undef.
Proof.
  unfold getMessageId. case_match; [done|]. unfold array_at. destruct (a !! MESSAGE_ID) as [j|]; [|done]. cbn.
  destruct j; try done. cbn. unfold MessageId_of_string. by case_match.
Qed.

(** An answer to the message in flight. *)
Lemma tracks_answer (a : list json) (size : nat) (uid : string) (j : json) (ti : MessageTypeId) :
  let em mt ti call := {| em_message := j; em_message_size := size; em_uniqueId := uid; em_messageType := mt;
                          em_messageTypeId := ti; em_call_message := call; em_offline := false |} in
  keeps_wf
    (cmodify (set_next_message_to_send None);;
     let type_id' :=
       match ti, a !! CALLRESULT_PAYLOAD with
       | CALLRESULT, Some p => if is_object p then CALLRESULT else CALLERROR
       | _, _ => CALLERROR
       end in
     q ← cget;
     match in_flight q with
     | None => mret (em InternalError type_id' JNull)
     | Some m =>
         mid ← clift (uniqueId m);
         if ci_ne mid uid then mret (em InternalError type_id' JNull)
         else match type_id' with
         | CALLERROR =>
             let e := em InternalError CALLERROR (JArray (message m)) in
             handle_timeout_or_callerror (Some e);; mret e
         | _ => handle_call_result (em InternalError type_id' JNull)
         end
     end).
Proof.
  intros em. apply tracks_bind; [track leaf|]. intros _. cbv zeta. eapply leads_get. intros q.
  destruct (in_flight q) as [m|] eqn:Ef; [|apply leads_ret; by intros s v [_ ?]].
  eapply leads_assume; [intros s v [-> Hs]; exact (wf_flying _ _ Hs m Ef)|]. intros Hm. apply leads_forget.
  destruct (wf_uniqueId m Hm) as [mid ->]. eapply (leads_bind _ _ _ _ (λ _, wf)); [by apply leads_lift|]. intros mid'.
  case_match; [by apply leads_ret|]. destruct (match ti with CALLRESULT => _ | _ => _ end); track leaf.
Qed.

(** A received text that is not an OCPP message changes nothing. *)
Lemma receive_total text q v : wf q v →
  (∃ e q' t, receive text q = (Ret e, q', t) ∧ wf q' tt) ∨ ∃ x, receive text q = (Throw x, q, []).
Proof.
  intros Hq. unfold receive. case_match; [right; by eexists|]. destruct (env_parse text) as [j|]; [|right; by eexists].
  unfold receive_json. destruct (get_array j) as [a|]; [|right; by eexists].
  rewrite (bind_pure _ _ q a) by done. cbv beta.
  pose proof (getMessageId_defined a) as Hd. destruct (getMessageId a) as [uid|x|]; [|right; by exists x|done].
  rewrite (bind_pure _ _ q uid) by done. cbv beta zeta.
  assert (∀ c : op (EnhancedMessage M), keeps_wf c → ∃ e q' t, c q = (Ret e, q', t) ∧ wf q' tt) as Hk.
  { intros c Hc. destruct v. destruct (Hc q tt Hq) as (e & q' & t & E & H'). exists e, q', t. split; [done|].
    by destruct (foldl ignore tt t). }
  destruct (getMessageTypeId a).
  - pose proof (read_string_defined a CALL_ACTION) as Ha.
    destruct (ja ← array_at a CALL_ACTION; string_of_json ja) as [action|x|]; [|right; by exists x|done].
    rewrite (bind_pure _ _ q action) by done. cbv beta.
    destruct (string_to_messagetype action); [left|right; by eexists]. apply Hk. track leaf.
  - left. apply Hk, (tracks_answer a (String.length text) uid j CALLRESULT).
  - left. apply Hk, (tracks_answer a (String.length text) uid j CALLERROR).
  - left. apply Hk. apply _.
Qed.

Lemma handle_total r q v : valid r → wf q v →
  (∃ q' t, handle r q = (Ret tt, q', t) ∧ wf q' tt) ∨
  (∃ text x, r = RReceive text ∧ handle r q = (Throw x, q, [])).
Proof.
  intros Hr Hq.
  assert (∀ c : op (), keeps_wf c → ∃ q' t, c q = (Ret tt, q', t) ∧ wf q' tt) as Hk.
  { intros c Hc. destruct v. destruct (Hc q tt Hq) as ([] & q' & t & E & H'). exists q', t. split; [done|].
    by destruct (foldl ignore tt t). }
  destruct r; cbn [handle valid] in *; try (left; apply Hk; by track leaf).
  - left. apply Hk, tracks_restore.
  - left. by apply Hk, tracks_push_call.
  - left. by apply Hk, tracks_push_call_async.
  - left. apply Hk. destruct Hr as (i & Hi & Hl). unfold push_call_result. rewrite Hi. cbn [MessageId_of_json string_of_json get_string mbind outcome_mbind outcome_bind].
    unfold MessageId_of_json, MessageId_of_string, CiString_new. cbn. rewrite String_set_fits by done. track leaf.
  - destruct (receive_total text q v Hq) as [(e & q' & t & E & H)|[x E]].
    + left. exists q', (t ++ []). split; [|done]. by apply (bind_eq _ _ _ _ _ _ _ _ _ E).
    + right. exists text, x. split; [done|]. by apply bind_throw.
  - left. apply Hk. eapply leads_get. intros s0. destruct (in_flight s0) as [m|] eqn:Ef; [|apply leads_ret; by intros s ? [_ ?]].
    eapply leads_assume; [intros s ? [-> Hs]; exact (wf_flying _ _ Hs m Ef)|]. intros Hm. apply leads_forget.
    case_match; [by apply leads_ret|]. destruct (wf_uniqueId m Hm) as [mid' ->].
    eapply (leads_bind _ _ _ _ (λ _, wf)); [by apply leads_lift|]. intros ?. track leaf.
  - left. apply Hk. eapply (leads_bind _ _ _ _ (λ _, wf)); [track leaf|]. intros ?. eapply leads_get. intros s0.
    eapply leads_assume; [by intros s [] [-> H']; exact H'|]. intros [Ht _ _ _ _]. apply leads_forget.
    eapply (leads_bind _ _ _ _ (λ _, wf)); [|intros ?; track leaf].
    destruct (_ !! start_mid); [by apply tracks_replace_in_queue|by apply leads_ret].
Qed.

Lemma run_wf rs q : Forall valid rs → wf q tt → wf (run rs q).1 tt.
Proof.
  intros Hv. revert q. induction Hv as [|r0 rs0 Hr0 _ IH]; intros q Hq; [done|]. cbn.
  assert (wf (st_of (handle r0 q)) tt) as Hq'
    by (destruct (handle_total r0 q tt Hr0 Hq) as [(q' & t & -> & ?)|(? & ? & _ & ->)]; done).
  specialize (IH _ Hq'). by destruct (run rs0 _) as [q' t].
Qed.

(** C21: in every run in which the owner pushes OCPP calls ([valid]; in OCPP 2.x the
    payload of a TransactionEvent is a TransactionEventRequest), from tables with such
    calls, every message in the queue is a well-formed call whose promise is still to be
    fulfilled, and no request throws or runs into undefined behaviour, whatever the
    database, the socket and the other side do: no promise is ever fulfilled twice, and
    no answer, timeout or retry fails. The exception is a received text that is not an
    OCPP message: it is reported to the caller, and the queue and the message in flight
    are untouched. *)
Theorem queue_stays_well_formed c notify trows nrows rs r rs' :
  Forall wf_row trows → Forall wf_row nrows → Forall valid (rs ++ r :: rs') →
  let q := (run rs (MessageQueue_new c notify trows nrows)).1 in
  wf q tt ∧
  ((∃ q' t, handle r q = (Ret tt, q', t)) ∨
   (∃ text x, r = RReceive text ∧ handle r q = (Throw x, q, []))).
Proof.
  intros Ht Hn Hv. cbv zeta. apply Forall_app in Hv as [Hv [Hr _]%Forall_cons].
  assert (wf (run rs (MessageQueue_new c notify trows nrows)).1 tt) as Hq by (apply run_wf; [done|by split]).
  split; [done|]. destruct (handle_total r _ tt Hr Hq) as [(q' & t & -> & ?)|(? & ? & -> & ->)]; eauto.
Qed.

End types.
End MessageQueueTypes.
