(* ===== verification/MessageQueueRuns.v ===== *)
(** * Progress, pauses and retries of the message queue

    What a turn of the worker does when it may send, that nothing is sent while the
    queue is paused, how a failed delivery is scheduled again. *)

From S2P Require Import Prelude CiString Json MessageTypes MessageQueue MessageProtocol MessageQueueRefines.
From S2P Require Import MessageQueueFacts MessageQueueStore MessageQueueTypes.
From Stdlib Require Import Strings.Ascii Strings.String.
#[local] Notation length := Datatypes.length.
#[local] Open Scope Z_scope.

Module MessageQueueRuns.
Import Json CiString MessageQueue MessageProtocol MessageQueueRefines MessageQueueFacts MessageQueueStore MessageQueueTypes.

Section runs.
Context {M : Type} `{MK : MessageKind M} `{!MessageKindLaws M} `{!UpdateLaws M} `{ENV : Environment}.
Notation Queue := (Queue M).
Notation ControlMessage := (ControlMessage M).
Notation output := (output M).
Notation op := (cmd Queue output exn).
Implicit Types (q s : Queue) (m : ControlMessage).

(** ** Progress *)

(** A message that may be sent now: one of the normal queue, or the first of the
    transaction queue. *)
Definition ready q (now : Z) m : Prop :=
  allowed_to_send_message m now (is_registration_status_accepted q) = true ∧
  (m ∈ normal_message_queue q ∨ ∃ l, transaction_message_queue q = m :: l).

Lemma select_ready q now m : ready q now m → is_Some (select_message q now).
Proof.
  intros [Ha Hm]. unfold select_message. set (normal := list_find _ _).
  assert (m ∈ normal_message_queue q → is_Some normal) as Hn.
  { intros Hin. apply list_find_elem_of with m; [done|]. by rewrite Ha. }
  destruct (transaction_message_queue q) as [|t l] eqn:Et.
  - destruct Hm as [Hm|[l Hl]]; [|done]. by destruct (Hn Hm) as [[i x] ->].
  - case_match eqn:Eav; [by eexists|]. destruct Hm as [Hm|[l' [= -> ->]]]; [by destruct (Hn Hm) as [[i x] ->]|].
    rewrite Ha in Eav. cbn in Eav. by destruct normal as [[i x]|].
Qed.

Lemma select_allowed q now t i m : select_message q now = Some (t, i, m) → ready q now m.
Proof.
  unfold select_message. set (normal := list_find _ _).
  assert ((λ '(i, m), (Normal, i, m)) <$> normal = Some (t, i, m) → ready q now m) as Hn.
  { destruct normal as [[i' m']|] eqn:En; [|done]. intros [= <- <- <-].
    apply list_find_Some in En as (Hi & Ha & _). split; [by destruct (allowed_to_send_message _ _ _)|].
    left. by eapply list_elem_of_lookup_2. }
  destruct (transaction_message_queue q) as [|x l] eqn:Et; [done|]. case_match eqn:Eav; [|done].
  intros [= <- <- <-]. split; [|eauto]. by destruct (allowed_to_send_message x _ _).
Qed.

(** The calls sent so far, whatever the state. *)
Definition sent_are (x : list ControlMessage) (_ : Queue) (v : list ControlMessage) : Prop := v = x.

#[export] Instance sent_try_db x (c : op ()) : Keeps sends (sent_are x) c → Keeps sends (sent_are x) (try_db c).
Proof. intros Hc. apply keeps_catch; [done|]. intros [] k; try done. intros [= <-]. apply _. Qed.

#[local] Ltac leaf := intros ? ? ?; unfold sent_are in *; cbn [sends]; done.

#[export] Instance sent_remove x uid t : Keeps sends (sent_are x) (remove_message_queue_message uid t).
Proof. keep leaf. Qed.

#[export] Instance sent_handle_timeout x e : Keeps sends (sent_are x) (handle_timeout_or_callerror e).
Proof. keep leaf. Qed.

(** A message handed to the socket once more. *)
Definition attempt_of m m' : Prop := same_message m m' ∧ message_attempts m' = message_attempts m + 1.

Lemma send_message_sends t i m : wf_message m →
  hoare sends (sent_are []) (send_message t i m)
    (λ _ _ v, ∃ m', v = [m'] ∧ attempt_of m m') (λ _ _ v, ∃ m', v = [m'] ∧ attempt_of m m').
Proof.
  intros Hm. unfold send_message. cbv zeta. set (m1 := with_attempts m _).
  assert (wf_message m1) as Hm1 by done.
  eapply (hoare_bind _ _ _ _ (λ m' s v, sent_are [] s v ∧ attempt_of m m')).
  { apply hoare_get. intros q. destruct (wf_read m1 Hm1) as (mid & _ & -> & _).
    eapply (hoare_bind _ _ _ _ (λ _, sent_are [])); [apply hoare_lift; by intros s v [_ ?]|]. intros mid'.
    destruct (_ !! mid') as [n|]; [|by apply hoare_ret].
    destruct (wf_set_transaction_id (message m1) n (wf_message_array m1 Hm1)) as (a & -> & _).
    eapply (hoare_bind _ _ _ _ (λ _, sent_are [])); [by apply hoare_lift|]. intros a'.
    eapply (hoare_bind _ _ _ _ (λ _, sent_are [])); [by apply hoare_modify|]. intros ?. by apply hoare_ret. }
  intros m'. eapply hoare_assume; [by intros s v [_ H]; exact H|]. intros Hm'.
  apply (hoare_conseq _ _ (sent_are []) _ _ (λ _, sent_are [m']) _ (λ _, sent_are [m']));
    [|by intros s v [? _]|intros ? s v ->; eauto..].
  eapply (hoare_bind _ _ _ _ (λ _, sent_are [])); [by apply hoare_modify|]. intros ?.
  eapply (hoare_bind _ _ _ _ (λ _, sent_are [])); [by intros s v Hs; destruct t|]. intros ?.
  eapply (hoare_bind _ _ _ _ (λ _, sent_are [])); [by intros s v Hs|]. intros sent.
  eapply (hoare_bind _ _ _ _ (λ _, sent_are [m'])); [apply hoare_emit; by intros s v ->|]. intros ?. keep leaf.
Qed.

(** C22: a turn of the worker makes progress: when the queue is well formed, running and
    not paused, there is no idle action, no call is in flight, no call of the other side
    has to be answered first and the worker has been told of new messages
    ([new_message]), it hands exactly one message to the socket if one may be sent at
    that time, and that message is one that may be sent. *)
Theorem worker_sends_when_ready q m :
  wf q tt → worker q = Waiting → running q = true → idle_actions q = [] → paused q = false →
  in_flight q = None → new_message q = true → next_message_to_send q = None →
  ready q (env_now (asked q)) m →
  ∃ m0 m', ready q (env_now (asked q)) m0 ∧ sent_calls (out_of (worker_turn q)) = [m'] ∧ attempt_of m0 m'.
Proof.
  intros Hwf Hw Hr Hi Hp Hf Hn Hnext Hm. unfold worker_turn. rewrite bind_get, Hw.
  assert (wait_over q = true) as -> by (unfold wait_over; by rewrite Hr, Hi, Hp, Hf, Hn). cbn [negb]. rewrite Hi.
  destruct (select_ready q _ m Hm) as [[[t i] m0] Es]. pose proof (select_allowed _ _ _ _ _ Es) as Hm0.
  assert (wf_message m0) as Hwm.
  { apply select_message_in in Es. destruct Hwf as [Ht Hnn _ _ _], t; [by apply (Forall_lookup_1 _ _ _ _ Hnn Es)|].
    destruct Es as (_ & l & El). rewrite El in Ht. by apply Forall_cons in Ht as [? _]. }
  exists m0. destruct (wf_uniqueId m0 Hwm) as [mid Hmid].
  assert (hoare sends (sent_are []) (send_message t i m0;; next_turn) (λ _ _ v, ∃ m', v = [m'] ∧ attempt_of m0 m')
            (λ _ _ v, ∃ m', v = [m'] ∧ attempt_of m0 m')) as H.
  { eapply hoare_bind; [by apply send_message_sends|]. intros _ s v Hs. exact Hs. }
  assert ((try_send;; next_turn) q = (send_message t i m0;; next_turn) (set_asked (S (asked q)) q)) as ->.
  { apply bind_run. unfold try_send. rewrite bind_get, Hp, Hf.
    rewrite (bind_silent _ _ _ (env_now (asked q)) (set_asked (S (asked q)) q)) by done. cbv beta.
    rewrite Es, Hmid, (bind_pure _ _ _ mid) by done. cbv beta. by rewrite Hnext. }
  specialize (H (set_asked (S (asked q)) q) [] eq_refl). unfold out_of, sent_calls.
  destruct ((send_message t i m0;; next_turn) _) as [[[a|x|] s'] tr]; destruct H as (m' & H1 & H2); eauto 6.
Qed.

(** ** Pauses *)
Section paused.
Context (c : Z).

(** Nothing sent since the queue was paused for the last time, at count [c]. *)
Definition silent q (v : list ControlMessage) : Prop := paused q = true ∧ pause_resume_ctr q = c ∧ v = [].

#[local] Ltac sleaf := intros ? ? (? & ? & ->); cbn [sends]; by split_and!.

#[local] Instance silent_try_db (k : op ()) : Keeps sends silent k → Keeps sends silent (try_db k).
Proof. intros Hk. apply keeps_catch; [done|]. intros [] k'; try done. intros [= <-]. apply _. Qed.

#[local] Instance silent_remove uid t : Keeps sends silent (remove_message_queue_message uid t).
Proof. unfold remove_message_queue_message. destruct t; keep sleaf. Qed.
#[local] Instance silent_insert r t : Keeps sends silent (insert_message_queue_message r t).
Proof. unfold insert_message_queue_message. destruct t; keep sleaf. Qed.
#[local] Instance silent_clear t : Keeps sends silent (clear_message_queue t).
Proof. unfold clear_message_queue. destruct t; keep sleaf. Qed.

#[local] Instance silent_drop_normal n kept l : Keeps sends silent (drop_normal n kept l).
Proof.
  revert n kept. induction l as [|m l IH]; intros [|n] kept; cbn [drop_normal]; try apply _.
  case_match; [apply IH|]. keep sleaf.
Qed.
#[local] Instance silent_drop_normal_loop n : Keeps sends silent (drop_normal_loop n).
Proof. induction n as [|n IH]; cbn [drop_normal_loop]; keep sleaf. Qed.
#[local] Instance silent_drop_updates l b : Keeps sends silent (drop_updates l b).
Proof. revert b. induction l as [|m l IH]; intros b; cbn [drop_updates]; keep sleaf. Qed.
#[local] Instance silent_drop_updates_loop n : Keeps sends silent (drop_updates_loop n).
Proof. induction n as [|n IH]; cbn [drop_updates_loop]; keep sleaf. Qed.
#[local] Instance silent_replace kept l ids n : Keeps sends silent (replace_in_queue kept l ids n).
Proof. revert kept. induction l as [|m l IH]; intros kept; cbn [replace_in_queue]; keep sleaf. Qed.
#[local] Instance silent_restore_queue b t : Keeps sends silent (restore_queue b t).
Proof. apply silent_try_db. keep sleaf. Qed.

#[local] Instance silent_try_send : Keeps sends silent try_send.
Proof.
  apply keeps_get_with. intros q. destruct (paused q) eqn:Ep; [apply hoare_ret; by intros s v [_ ?]|].
  intros s v [-> (Hp & _)]. congruence.
Qed.

#[local] Instance silent_begin a rest : Keeps sends silent (begin_idle_action a rest).
Proof.
  apply keeps_bind; [keep sleaf|]. intros _. apply keeps_get_with. intros q.
  destruct (paused q) eqn:Ep; [|intros s v [-> (Hp & _)]; congruence]. cbn [negb cwhen].
  apply hoare_forget. keep sleaf.
Qed.

(** Requests that do not resume the queue; a resume timer of before the pause may
    still fire. *)
Definition quiet (r : request) : Prop :=
  match r with
  | RPause | RResume _ | REndIdleAction _ => False
  | RResumeTimeout k => k ≠ c
  | _ => True
  end.

Lemma silent_handle r : quiet r → Keeps sends silent (handle r).
Proof.
  intros Hr. destruct r; cbn [handle quiet] in *; try done; try (by keep sleaf).
  apply keeps_get_with. intros q. destruct (Z.eqb_spec (pause_resume_ctr q) ctr) as [E|E].
  - intros s v [-> (_ & Hc & _)]. congruence.
  - apply hoare_ret. by intros s v [_ ?].
Qed.
End paused.

(** While the queue is paused no call is handed to the socket: after a pause, until
    the owner resumes the queue, no request makes it send a call or resume, not even a
    resume timer that was armed before the pause and fires late. *)
Lemma paused_sends_nothing q rs :
  paused q = true → Forall (quiet (pause_resume_ctr q)) rs →
  paused (run rs q).1 = true ∧ sent_calls (run rs q).2 = [].
Proof.
  intros Hp Hrs. set (c := pause_resume_ctr q) in *.
  assert (∀ q v, silent c q v → silent c (run rs q).1 (foldl sends v (run rs q).2)) as Hrun.
  { clear Hp. induction Hrs as [|r rs Hr _ IH]; intros q0 v Hq; [done|]. cbn.
    pose proof (keeps_st _ _ _ _ _ (silent_handle c r Hr) Hq) as H1. specialize (IH _ _ H1).
    destruct (run rs (st_of (handle r q0))) as [q' t]. cbn [fst snd]. by rewrite foldl_app. }
  destruct (Hrun q [] ltac:(by split_and!)) as (H1 & _ & H3). done.
Qed.

(** ** Failed deliveries *)

(** When a message that was not delivered is sent again, if at all: a persisted message
    (the interval times the number of attempts after its previous time, or at once), a
    BootNotification. *)
Definition retry_time q m : option Z :=
  if is_transaction_message (messageType m) || check_queue (config q) (messageType m) then
    if message_attempts m <? transaction_message_attempts (config q) then
      Some (if transaction_message_retry_interval (config q) >? 0
            then timestamp m + seconds (transaction_message_retry_interval (config q)) * message_attempts m
            else env_now (S (asked q)))
    else None
  else if is_boot_notification_message (messageType m)
  then Some (timestamp m + seconds (boot_notification_retry_interval_seconds (config q)))
  else None.

Definition is_promise_set (o : output) : bool := match o with PromiseSet _ _ => true | _ => false end.

Context (Hids : ∀ k, (String.length (env_message_id k) ≤ 36)%nat).

Lemma renewed_uniqueId m i t : wf_array (message m) → (String.length i ≤ 36)%nat →
  uniqueId (with_timestamp (with_message m (<[MESSAGE_ID := JString i]> (message m))) t) = Ret i.
Proof.
  intros (hd & mid & act & ms & tl & Ea & _) Hi. unfold uniqueId. cbn. rewrite Ea. cbn.
  unfold MessageId_of_string, CiString_new. by rewrite String_set_fits.
Qed.

(** The state after a message was put back at the head of its queue. *)
Definition requeued q m (time : Z) q' : Prop :=
  ∃ m', queue_of (queue_type_of m) q' = m' :: queue_of (queue_type_of m) q ∧
    other_of (queue_type_of m) q' = other_of (queue_type_of m) q ∧
    same_message m m' ∧ message_attempts m' = message_attempts m ∧ timestamp m' = time ∧
    uniqueId m' = Ret (env_message_id (asked q)) ∧ notify_queue_timer q' = Some time ∧
    transaction_rows q' = transaction_rows q ∧ normal_rows q' = normal_rows q.

Lemma schedule_retry_run q m : wf_array (message m) →
  ∃ q' t, schedule_retry m q = (Ret tt, q', t) ∧ filter is_promise_set t = [] ∧
    requeued q m (if transaction_message_retry_interval (config q) >? 0
      then timestamp m + seconds (transaction_message_retry_interval (config q)) * message_attempts m
      else env_now (S (asked q))) q'.
Proof.
  intros Hm. pose proof (Hids (asked q)) as Hid. unfold schedule_retry. rewrite bind_get.
  destruct (array_read m Hm) as (mid & _ & -> & _). rewrite (bind_pure _ _ _ mid) by done. cbv beta.
  set (m1 := with_message m (<[MESSAGE_ID := JString (env_message_id (asked q))]> (message m))).
  assert (wf_array (message m1)) as Hm1 by (by apply array_renew).
  rewrite (bind_silent _ _ _ m1 (set_asked (S (asked q)) q)) by done. cbv beta.
  set (time := if transaction_message_retry_interval (config q) >? 0 then timestamp m + _ else _).
  assert (∃ k, (if transaction_message_retry_interval (config q) >? 0 then
          mret (with_timestamp m1 (timestamp m1 +
            seconds (transaction_message_retry_interval (config q)) * message_attempts m1))
        else now ← DateTime_now; mret (with_timestamp m1 now)) (set_asked (S (asked q)) q) =
        (Ret (with_timestamp m1 time), set_asked k q, [] : list output)) as [k E].
  { unfold time. case_match; by eexists. }
  rewrite (bind_silent _ _ _ _ _ E). cbv beta. set (m2 := with_timestamp m1 time).
  assert (wf_array (message m2)) as Hm2 by done. rewrite bind_modify.
  set (q1 := set_in_flight (Some m2) (set_asked k q)).
  set (q2 := match queue_type_of m2 with
             | Transaction => set_transaction_message_queue (m2 :: transaction_message_queue q1) q1
             | Normal => set_normal_message_queue (m2 :: normal_message_queue q1) q1 end).
  rewrite (bind_silent _ _ _ tt q2) by (unfold push_front, q2; by destruct (queue_type_of m2)). cbv beta.
  assert (requeued q m time (set_notify_timer (Some time) q2)) as Hq.
  { exists m2. unfold q2, queue_type_of. cbn. destruct (is_transaction_message (messageType m)); split_and!; try done;
      by apply renewed_uniqueId. }
  destruct (array_read m2 Hm2) as (mid2 & _ & -> & _).
  destruct (is_start_transaction_message (messageType m2)); by eexists _, _.
Qed.

Lemma retry_boot_run q m : wf_array (message m) → queue_type_of m = Normal →
  ∃ q', retry_boot_notification m q = (Ret tt, q', []) ∧
    requeued q m (timestamp m + seconds (boot_notification_retry_interval_seconds (config q))) q'.
Proof.
  intros Hm Ht. pose proof (Hids (asked q)) as Hid. unfold retry_boot_notification. rewrite bind_get.
  set (m1 := with_message m (<[MESSAGE_ID := JString (env_message_id (asked q))]> (message m))).
  rewrite (bind_silent _ _ _ m1 (set_asked (S (asked q)) q)) by done. cbv beta zeta.
  eexists. split; [done|]. eexists. rewrite Ht. split_and!; try done. by apply renewed_uniqueId.
Qed.

Lemma settle_run q m e : promise m = None → in_flight q = Some m →
  settle_in_flight e q = (Ret tt, set_in_flight (Some (with_promise m e)) q, [PromiseSet m e]).
Proof. intros Hp Hf. unfold settle_in_flight. rewrite bind_get, Hf. unfold promise_set_value. by rewrite Hp. Qed.

Lemma try_remove_run q uid t : ∃ q', try_db (remove_message_queue_message uid t) q = (Ret tt, q', [] : list output) ∧
  transaction_message_queue q' = transaction_message_queue q ∧ normal_message_queue q' = normal_message_queue q.
Proof.
  cbv [try_db ccatch remove_message_queue_message ask]. crun.
  destruct (env_db_ok (asked q)); crun; eexists; (split; [done|]); by destruct t.
Qed.

(** C23: what becomes of a call in flight that timed out, got an error or could not be
    handed over (its promise is not fulfilled and its array is well formed). It is no
    longer in flight and its timeout is cancelled. If it is to be sent again, it is first
    in its queue, under a new id and with its old promise, the worker will be woken at
    its time, and the tables still have it. Otherwise the queues are unchanged and its
    promise is fulfilled with the error, or as offline. *)
Theorem failed_delivery_outcome q e m :
  in_flight q = Some m → promise m = None → wf_array (message m) →
  ∃ q' t, handle_timeout_or_callerror e q = (Ret tt, q', t) ∧
    in_flight q' = None ∧ in_flight_timeout_timer q' = None ∧
    match retry_time q m with
    | Some time => ∃ m', queue_of (queue_type_of m) q' = m' :: queue_of (queue_type_of m) q ∧
        other_of (queue_type_of m) q' = other_of (queue_type_of m) q ∧
        same_message m m' ∧ message_attempts m' = message_attempts m ∧ timestamp m' = time ∧
        uniqueId m' = Ret (env_message_id (asked q)) ∧ notify_queue_timer q' = Some time ∧
        transaction_rows q' = transaction_rows q ∧ normal_rows q' = normal_rows q ∧
        filter is_promise_set t = []
    | None => transaction_message_queue q' = transaction_message_queue q ∧
        normal_message_queue q' = normal_message_queue q ∧
        filter is_promise_set t = [PromiseSet m (default EnhancedMessage_offline e)]
    end.
Proof.
  intros Hf Hp Hm. unfold handle_timeout_or_callerror, retry_time. rewrite bind_get, Hf.
  (* each branch is followed by the reset of the member and a wake-up *)
  assert (∀ (c : op ()) q1 t1, c q = (Ret tt, q1, t1) →
    (c;; reset_in_flight;; cemit NotifyWorker) q =
      (Ret tt, set_in_flight_timer None (set_in_flight None q1), t1 ++ [NotifyWorker])) as Hend.
  { intros c q1 t1 E. by apply (bind_eq _ _ _ _ _ _ _ _ _ E). }
  assert (∀ t1 : list output, filter is_promise_set (t1 ++ [NotifyWorker]) = filter is_promise_set t1) as Hfil.
  { intros t1. rewrite filter_app, (filter_cons_False _ NotifyWorker) by (cbn; tauto). by rewrite app_nil_r. }
  assert (∀ q1 time, requeued q m time q1 → requeued q m time (set_in_flight_timer None (set_in_flight None q1))) as Hrq.
  { intros q1 time (m' & H). exists m'. by destruct (queue_type_of m). }
  destruct (is_transaction_message (messageType m) || check_queue (config q) (messageType m)) eqn:Ep;
    [destruct (message_attempts m <? _)|destruct (is_boot_notification_message (messageType m))].
  - destruct (schedule_retry_run q m Hm) as (q1 & t1 & E & Ht1 & Hq1). eexists _, _. split; [by apply Hend|].
    split_and!; [done|done|]. apply Hrq in Hq1 as (m' & H). exists m'. rewrite Hfil. naive_solver.
  - destruct (try_remove_run (set_in_flight (Some (with_promise m (default EnhancedMessage_offline e))) q)
      (initial_unique_id m) (queue_type_of m)) as (q1 & E1 & Ht & Hn).
    pose proof (settle_run q m (default EnhancedMessage_offline e) Hp Hf) as E.
    eexists _, _. split; [apply Hend, (bind_eq _ _ _ _ _ _ _ _ _ E E1)|]. split_and!; try done.
  - assert (queue_type_of m = Normal) as Hty by (unfold queue_type_of; by destruct (is_transaction_message (messageType m))).
    destruct (retry_boot_run q m Hm Hty) as (q1 & E & Hq1). eexists _, _. split; [by apply Hend|].
    split_and!; [done|done|]. apply Hrq in Hq1 as (m' & H). exists m'. rewrite Hfil. naive_solver.
  - pose proof (settle_run q m (default EnhancedMessage_offline e) Hp Hf) as E.
    eexists _, _. split; [by apply Hend|]. by split_and!.
Qed.

End runs.
End MessageQueueRuns.
