(* ===== verification/MessageQueueDemo.v ===== *)
(** * Runs of the message queue

    An OCPP 1.6 queue (and, for the tables and well-formed messages, an OCPP 2.x queue)
    on a line that takes every message and a database that works.
    The [k]-th question to the environment is asked [k] seconds after the start; the
    text [R] followed by an id is the (empty) result for that id.  The runs instantiate
    the theorems about the queue, and show what the ids of retried StartTransaction
    messages, late StartTransaction answers and the single wake-up timer do to the
    messages queued behind them. *)

From S2P Require Import Prelude CiString Json MessageTypes MessageQueue MessageProtocol MessageQueueRefines.
From S2P Require Import MessageQueueFacts MessageQueueStore MessageQueueTypes MessageQueueRuns.
From stdpp Require Import pretty.
From Stdlib Require Import Strings.Ascii Strings.String.
#[local] Notation length := Datatypes.length.

Module Demo.
Import Json CiString MessageQueue MessageProtocol MessageQueueRefines MessageQueueFacts MessageQueueStore
  MessageQueueTypes MessageQueueRuns.
#[local] Open Scope string_scope.
#[local] Open Scope list_scope.
#[local] Open Scope Z_scope.

Definition demo_parse (text : string) : option json :=
  match text with
  | String c i => if Ascii.eqb c "R"%char then Some (JArray [JNumber (QArith_base.inject_Z 3); JString i; JObject []]) else None
  | EmptyString => None
  end.

Definition short_id (k : nat) : string := String.substring 0 36 ("r" +:+ pretty (N.of_nat k)).

#[local] Instance demo : Environment := {|
  env_now k := seconds (Z.of_nat k);
  env_db_ok _ := true;
  env_order _ l := l;
  env_order_perm _ l := reflexivity l;
  env_send_ok _ := true;
  env_message_id := short_id;
  env_parse := demo_parse;
|}.

Definition demo_config (interval : Z) : MessageQueueConfig V16.MessageType := {|
  transaction_message_attempts := 3; transaction_message_retry_interval := interval;
  queues_total_size_threshold := 500; queue_all_messages := false;
  message_types_discard_for_queueing := []; message_timeout_seconds := 30;
  boot_notification_retry_interval_seconds := 60 |}.

Definition demo_queue (interval : Z) : Queue V16.MessageType :=
  MessageQueue_new (demo_config interval) [V16.StartTransactionResponse] [] [].

Definition start (i : string) : request := RPushCall (Call_to_json i "StartTransaction" (JObject [])) false.
Definition meter (i : string) : request := RPushCall (Call_to_json i "MeterValues" (JObject [])) false.
Definition heartbeat (i : string) : request := RPushCall (Call_to_json i "Heartbeat" (JObject [])) false.
Definition boot (i : string) : request := RPushCall (Call_to_json i "BootNotification" (JObject [])) false.

(** A transaction whose meter values are queued before its id is known. *)
Definition offline_transaction : list request := [RResume 0; start "s1"; RAddMeterValue "s1" "m1"; meter "m1"; RWorker].

(** The payloads waiting in the transaction queue. *)
Definition payloads (q : Queue V16.MessageType) : list (option json) :=
  (λ m, message m !! CALL_PAYLOAD) <$> transaction_message_queue q.

Definition answered_at_once : list request := offline_transaction ++ [RReceive "Rs1"; RStartHandled "s1" 42].

Definition answered_after_retry : list request :=
  offline_transaction ++ [RInFlightTimeout 0 "s1"; RWorker; RReceive "Rr6"; RStartHandled "r6" 42].

Definition overtaken : list request := offline_transaction ++ [RReceive "Rs1"; heartbeat "h1"; RWorker; RStartHandled "s1" 42].

Definition two_retries : list request :=
  [RResume 0; start "s1"; RWorker; RInFlightTimeout 0 "s1"; boot "b1"; RWorker; RInFlightTimeout 1 "b1"; RWorker].

(** ** What the runs show *)

(** Meter values queued before the answer to their StartTransaction get the
    transaction id once the answer is handled, but only if the StartTransaction was
    answered under its first id: a retry gives the call a new id while the meter
    values stay filed under the old one, and they keep a payload without an id. *)
Lemma retried_start_strands_meter_values :
  payloads (run answered_at_once (demo_queue 1)).1 =
    [Some (JObject [("transactionId", JNumber (QArith_base.inject_Z 42))])] ∧
  payloads (run answered_after_retry (demo_queue 1)).1 = [Some (JObject [])].
Proof. split; vm_compute; reflexivity. Qed.

(** The payloads of the calls handed to the socket, by type. *)
Definition sent_payloads (t : list (output V16.MessageType)) : list (V16.MessageType * option json) :=
  (λ m, (messageType m, message m !! CALL_PAYLOAD)) <$> sent_calls t.

(** The queue does not wait for a StartTransaction answer to be handled before it
    sends the next transaction message: when another call is queued between the
    receipt of the answer and [notify_start_transaction_handled], the worker sends
    the meter values without a transaction id. *)
Lemma meter_values_overtake_start_answer :
  sent_payloads (run overtaken (demo_queue 1)).2 =
    [(V16.StartTransaction, Some (JObject [])); (V16.MeterValues, Some (JObject []))].
Proof. vm_compute. reflexivity. Qed.

(** The single wake-up timer holds the time of the last retry only: a
    StartTransaction due 30 s after the start waits for a BootNotification that is
    due later, since nothing tells the worker of it. *)
Lemma second_retry_delays_first :
  let q := (run two_retries (demo_queue 30)).1 in
  timestamp <$> head (transaction_message_queue q) = Some (seconds 30) ∧ in_flight q = None ∧
  new_message q = false ∧ notify_queue_timer q = Some (seconds 65) ∧ wait_over q = false.
Proof. vm_compute. done. Qed.

(** ** The theorems at these runs *)

Lemma short_id_fits k : (String.length (short_id k) ≤ 36)%nat.
Proof.
  unfold short_id. generalize ("r" +:+ pretty (N.of_nat k)). intros s.
  assert (∀ n s, (String.length (String.substring 0 n s) ≤ n)%nat) as H; [|apply H].
  clear. induction n as [|n IH]; intros [|c s]; cbn; [lia..|]. specialize (IH s). lia.
Qed.

Lemma demo_tables : tables_ok (M:=V16.MessageType) [] [].
Proof. by split. Qed.

Lemma message_queue_refines_protocol_witness :
  let '(q, t) := run two_retries (demo_queue 30) in
  steps 3 (abs None (demo_queue 30)) (sent_calls t) (abs (in_flight q) q) ∧ length (sent_calls t) = 2%nat.
Proof.
  pose proof (message_queue_refines_protocol (demo_config 30) [V16.StartTransactionResponse] [] [] two_retries demo_tables) as H.
  split; [exact H|vm_compute; reflexivity].
Defined.

Lemma transaction_messages_in_order_witness :
  StronglySorted le (transaction_refs (sent_calls (run overtaken (demo_queue 1)).2)) ∧
  transaction_refs (sent_calls (run overtaken (demo_queue 1)).2) = [0; 1]%nat.
Proof.
  split; [|vm_compute; reflexivity].
  exact (transaction_messages_in_order (demo_config 1) [V16.StartTransactionResponse] [] [] overtaken demo_tables).
Defined.

(** Three meter values behind each other, and room for two messages. *)
Definition crowded : Queue V16.MessageType :=
  set_config {|
    transaction_message_attempts := 3; transaction_message_retry_interval := 1;
    queues_total_size_threshold := 2; queue_all_messages := false;
    message_types_discard_for_queueing := []; message_timeout_seconds := 30;
    boot_notification_retry_interval_seconds := 60 |}
    (run [RResume 0; meter "m1"; meter "m2"; meter "m3"; boot "b1"; heartbeat "h1"] (demo_queue 1)).1.

Lemma queue_cleanup_witness : total_size crowded = 5 ∧
  ∃ q' t, check_queue_sizes crowded = (Ret tt, q', t) ∧
    normal_message_queue q' `sublist_of` normal_message_queue crowded ∧
    last (transaction_message_queue q') = last (transaction_message_queue crowded).
Proof.
  split; [vm_compute; reflexivity|].
  destruct (queue_cleanup crowded) as (q' & t & E & H1 & _ & _ & _ & H5 & _);
    [|exact (ex_intro _ q' (ex_intro _ t (conj E (conj H1 H5))))].
  apply Forall_forall. intros m _. by eexists.
Defined.

(** ** OCPP 2.x

    A parser of TransactionEventRequest that reads the two members the queue uses. *)
Definition demo_event_type (t : string) : option TransactionEventEnum :=
  if String.eqb t "Started" then Some Started else if String.eqb t "Updated" then Some Updated
  else if String.eqb t "Ended" then Some Ended else None.

#[local] Instance demo_events : TransactionEventParser := λ p,
  match get_member p "eventType", get_member p "transactionInfo" with
  | Some (JString kind), Some info =>
      match demo_event_type kind, get_member info "transactionId" with
      | Some e, Some (JString t) => Some (e, t)
      | _, _ => None
      end
  | _, _ => None
  end.

Lemma get_set_other j key key' v j' : key ≠ key' → set_member j key v = Some j' → get_member j' key' = get_member j key'.
Proof.
  intros Hk%String.eqb_neq. destruct j as [| | | | |ms]; cbn; try done; intros [= <-]; cbn; [by rewrite Hk|].
  induction ms as [|[k w] ms IH]; cbn; [by rewrite Hk|].
  destruct (String.eqb_spec k key) as [->|]; cbn; [by rewrite Hk|]. destruct (String.ltb key k); cbn; [by rewrite Hk|].
  by destruct (String.eqb k key').
Qed.

#[local] Instance demo_events_laws : TransactionEventParserLaws.
Proof.
  intros p v p' E. unfold parse_transaction_event, demo_events.
  rewrite (get_set_other p "transactionId" "eventType" v p' ltac:(discriminate) E).
  by rewrite (get_set_other p "transactionId" "transactionInfo" v p' ltac:(discriminate) E).
Qed.

Definition event_payload (kind : string) : json :=
  JObject [("eventType", JString kind); ("transactionInfo", JObject [("transactionId", JString "t1")])].
Definition event (i kind : string) : request := RPushCall (Call_to_json i "TransactionEvent" (event_payload kind)) false.

(** The station stops after two events were queued, and sends the first one after the
    next start. *)
Definition demo_config2 : MessageQueueConfig V2.MessageType := {|
  transaction_message_attempts := 3; transaction_message_retry_interval := 1;
  queues_total_size_threshold := 500; queue_all_messages := false;
  message_types_discard_for_queueing := []; message_timeout_seconds := 30;
  boot_notification_retry_interval_seconds := 60 |}.

Definition stopped : session (M:=V2.MessageType) :=
  {| s_env := demo; s_config := demo_config2; s_notify := []; s_requests := [event "e1" "Started"; event "e2" "Updated"] |}.
Definition resumed : session (M:=V2.MessageType) :=
  {| s_env := demo; s_config := demo_config2; s_notify := []; s_requests := [RResume 0; RAccepted; RWorker] |}.

(** A message created from an event tells whether it is an update. *)
Lemma event_readable i kind : is_Some (demo_event_type kind) →
  readable (M:=V2.MessageType) (Call_to_json i "TransactionEvent" (event_payload kind)).
Proof.
  intros [e He] n now stall m Hm. unfold ControlMessage_new in Hm. cbn in Hm.
  destruct (MessageId_of_string i) as [mid| |]; try done. injection Hm as <-.
  unfold tells_update, is_transaction_update_message. cbn. rewrite He. by eexists.
Qed.

Lemma sessions_working : Forall working [stopped; resumed].
Proof.
  repeat constructor; (apply event_readable; by eexists).
Qed.

Lemma unsettled_messages_are_stored_witness :
  let q := serve resumed (tables_after [stopped]) in
  Forall2 row_matches (transaction_rows q) (unsettled q) ∧ initial_unique_id <$> unsettled q = ["e1"; "e2"] ∧
  initial_unique_id <$> in_flight q = Some "e1".
Proof.
  split; [|split; vm_compute; reflexivity].
  refine (unsettled_messages_are_stored [stopped] resumed sessions_working _).
  apply (bool_decide_unpack _). vm_compute. exact I.
Defined.



Lemma call_is_valid i act t : (String.length i ≤ 36)%nat →
  V16.string_to_messagetype act = Some t → is_Some (V16.string_to_messagetype (act +:+ "Response")) →
  wf_json (M:=V16.MessageType) (Call_to_json i act (JObject [])).
Proof.
  intros Hi Ht Hr. eexists _, act, t. split_and!; [done|done|done|]. split; [|by eexists].
  eexists _, i, act, [], []. split_and!; [done..|by eexists|done].
Qed.

Lemma offline_transaction_valid : Forall (valid (M:=V16.MessageType)) offline_transaction.
Proof. repeat constructor; by eapply call_is_valid; [cbn; lia|reflexivity|eexists; reflexivity]. Qed.

Lemma event_valid i kind : (String.length i ≤ 36)%nat → is_Some (demo_event_type kind) →
  valid (M:=V2.MessageType) (event i kind).
Proof.
  intros Hi [e He]. eexists _, "TransactionEvent", V2.TransactionEvent. split_and!; [done|done|done|]. split.
  - eexists _, i, "TransactionEvent", _, []. split_and!; [done..|by eexists|by eexists].
  - cbn. rewrite He. by eexists.
Qed.

(** The answer to the first event, which is in flight. *)
Lemma queue_stays_well_formed_witness :
  let q := (run [event "e1" "Started"; event "e2" "Updated"; RResume 0; RWorker]
    (MessageQueue_new demo_config2 [] [] [])).1 in
  initial_unique_id <$> in_flight q = Some "e1" ∧
  wf q tt ∧ ((∃ q' t, handle (RReceive "Re1") q = (Ret tt, q', t)) ∨
             (∃ text x, RReceive "Re1" = RReceive text ∧ handle (RReceive "Re1") q = (Throw x, q, []))).
Proof.
  split; [vm_compute; reflexivity|].
  refine (queue_stays_well_formed (M:=V2.MessageType) short_id_fits demo_config2 [] [] [] _ (RReceive "Re1") [] _ _ _); [constructor..|].
  repeat constructor; (apply event_valid; [cbn; lia|by eexists]).
Defined.

(** A queue whose worker has not looked at the first message yet. *)
Definition unsent : Queue V16.MessageType := (run [RResume 0; start "s1"] (demo_queue 1)).1.

Lemma unsent_wf : wf unsent tt.
Proof.
  apply (run_wf (ENV:=demo) short_id_fits); [|by split].
  repeat constructor. by eapply call_is_valid; [cbn; lia|reflexivity|eexists; reflexivity].
Qed.

Lemma worker_sends_when_ready_witness :
  ∃ m0 m', ready unsent (env_now (asked unsent)) m0 ∧ sent_calls (out_of (worker_turn unsent)) = [m'] ∧ attempt_of m0 m'.
Proof.
  destruct (transaction_message_queue unsent) as [|m l] eqn:E; [vm_compute in E; discriminate E|].
  refine (worker_sends_when_ready unsent m unsent_wf eq_refl eq_refl eq_refl eq_refl eq_refl eq_refl eq_refl _).
  split; [|right; exists l; exact E].
  assert ((λ m, allowed_to_send_message m (env_now (asked unsent)) (is_registration_status_accepted unsent))
    <$> head (transaction_message_queue unsent) = Some true) as H by (vm_compute; reflexivity).
  rewrite E in H. by injection H.
Defined.

(** The StartTransaction is in flight. *)
Definition waiting : Queue V16.MessageType := (run offline_transaction (demo_queue 1)).1.

Lemma waiting_wf : wf waiting tt.
Proof. apply (run_wf (ENV:=demo) short_id_fits); [exact offline_transaction_valid|by split]. Qed.

Lemma waiting_start : ∃ m, in_flight waiting = Some m ∧ initial_unique_id m = "s1" ∧
  retry_time waiting m = Some (seconds 1) ∧ queue_type_of m = Transaction.
Proof.
  assert ((λ m, (initial_unique_id m, retry_time waiting m, queue_type_of m)) <$> in_flight waiting =
    Some ("s1", Some (seconds 1), Transaction)) as H by (vm_compute; reflexivity).
  apply fmap_Some in H as (m & Ef & [= Hm Ht Hty]).
  exact (ex_intro _ m (conj Ef (conj (eq_sym Hm) (conj (eq_sym Ht) (eq_sym Hty))))).
Qed.

Lemma failed_delivery_outcome_witness :
  ∃ q' t, handle_timeout_or_callerror None waiting = (Ret tt, q', t) ∧ in_flight q' = None ∧
    ∃ m', head (transaction_message_queue q') = Some m' ∧ initial_unique_id m' = "s1".
Proof.
  generalize waiting_start, waiting_wf. generalize waiting. intros w (m & Ef & Hm & Ht & Hty) Hw.
  pose proof (wf_flying _ _ Hw m Ef) as (Hp & [Ha _] & _).
  destruct (failed_delivery_outcome (ENV:=demo) short_id_fits w None m Ef Hp Ha) as (q' & t & E & H1 & _ & H).
  rewrite Ht in H. destruct H as (m' & H2 & _ & H3 & _). rewrite Hty in H2. cbn [queue_of] in H2.
  exists q', t. split; [exact E|]. split; [exact H1|]. exists m'. rewrite H2. split; [reflexivity|].
  destruct H3 as (_ & _ & _ & H3 & _). by rewrite H3.
Defined.

End Demo.
