(* ===== verification/ChargePointFsm.v ===== *)
(** * The OCPP 1.6 connector status machine

    Models [src/lib/everest/ocpp/lib/ocpp/v16/charge_point_state_machine.cpp] and
    its header: [ChargePointFSM], the status of one connector with its active
    errors, and [ChargePointStates], the machines of the whole charge point.  The
    status notification callbacks are the outputs.  [active_errors] is an
    [std::unordered_map]; the order in which it is traversed is a parameter. *)

From S2P Require Import Prelude CiString.

Import CiString.

(** The traversal of an unordered map visits every entry once, in some order. *)
Class Traversal (A : Type) := {
  traverse : gmap string A → list (string * A);
  traverse_perm : ∀ m, traverse m ≡ₚ map_to_list m;
}.

Definition key_order {A} : Traversal A :=
  {| traverse := map_to_list; traverse_perm := λ m, Permutation_refl _ |}.

Module CpFsm.

Inductive ChargePointStatus :=
| Available | Preparing | Charging | SuspendedEVSE | SuspendedEV | Finishing | Reserved
| Unavailable | Faulted.

Inductive ChargePointErrorCode :=
| ConnectorLockFailure | EVCommunicationError | GroundFailure | HighTemperature | InternalError
| LocalListConflict | NoError | OtherError | OverCurrentFailure | PowerMeterFailure
| PowerSwitchFailure | ReaderFailure | ResetFailure | UnderVoltage | OverVoltage | WeakSignal.

Inductive FSMEvent :=
| BecomeAvailable | UsageInitiated | StartCharging | PauseChargingEV | PauseChargingEVSE
| ReserveConnector | TransactionStoppedAndUserActionRequired | ChangeAvailabilityToUnavailable
| ReservationEnd
| I1_ReturnToAvailable | I2_ReturnToPreparing | I3_ReturnToCharging | I4_ReturnToSuspendedEV
| I5_ReturnToSuspendedEVSE | I6_ReturnToFinishing | I7_ReturnToReserved | I8_ReturnToUnavailable.

#[global] Instance ChargePointStatus_eq_dec : EqDecision ChargePointStatus.
Proof. solve_decision. Defined.
#[global] Instance ChargePointErrorCode_eq_dec : EqDecision ChargePointErrorCode.
Proof. solve_decision. Defined.
#[global] Instance FSMEvent_eq_dec : EqDecision FSMEvent.
Proof. solve_decision. Defined.

(** [FSMStateTransitions] and [FSMDefinition]: maps written as association lists. *)
Definition FSMStateTransitions := list (FSMEvent * ChargePointStatus).
Definition FSMDefinition := list (ChargePointStatus * FSMStateTransitions).

Fixpoint find_key {K A} `{EqDecision K} (k : K) (l : list (K * A)) : option A :=
  match l with
  | [] => None
  | (k', a) :: l' => if bool_decide (k = k') then Some a else find_key k l'
  end.

Definition FSM_DEF : FSMDefinition :=
  [(Available,
     [(UsageInitiated, Preparing);
      (StartCharging, Charging);
      (PauseChargingEV, SuspendedEV);
      (PauseChargingEVSE, SuspendedEVSE);
      (ReserveConnector, Reserved);
      (ChangeAvailabilityToUnavailable, Unavailable)]);
   (Preparing,
     [(BecomeAvailable, Available);
      (StartCharging, Charging);
      (PauseChargingEV, SuspendedEV);
      (PauseChargingEVSE, SuspendedEVSE);
      (TransactionStoppedAndUserActionRequired, Finishing)]);
   (Charging,
     [(BecomeAvailable, Available);
      (PauseChargingEV, SuspendedEV);
      (PauseChargingEVSE, SuspendedEVSE);
      (TransactionStoppedAndUserActionRequired, Finishing);
      (ChangeAvailabilityToUnavailable, Unavailable)]);
   (SuspendedEV,
     [(BecomeAvailable, Available);
      (StartCharging, Charging);
      (PauseChargingEVSE, SuspendedEVSE);
      (TransactionStoppedAndUserActionRequired, Finishing);
      (ChangeAvailabilityToUnavailable, Unavailable)]);
   (SuspendedEVSE,
     [(BecomeAvailable, Available);
      (StartCharging, Charging);
      (PauseChargingEV, SuspendedEV);
      (PauseChargingEVSE, SuspendedEVSE);
      (TransactionStoppedAndUserActionRequired, Finishing);
      (ChangeAvailabilityToUnavailable, Unavailable)]);
   (Finishing,
     [(BecomeAvailable, Available);
      (UsageInitiated, Preparing);
      (ChangeAvailabilityToUnavailable, Unavailable)]);
   (Reserved,
     [(BecomeAvailable, Available);
      (UsageInitiated, Preparing);
      (ChangeAvailabilityToUnavailable, Unavailable);
      (ReservationEnd, Available)]);
   (Unavailable,
     [(BecomeAvailable, Available);
      (UsageInitiated, Preparing);
      (StartCharging, Charging);
      (PauseChargingEV, SuspendedEV);
      (PauseChargingEVSE, SuspendedEVSE)]);
   (Faulted,
     [(I1_ReturnToAvailable, Available);
      (I2_ReturnToPreparing, Preparing);
      (I3_ReturnToCharging, Charging);
      (I4_ReturnToSuspendedEV, SuspendedEV);
      (I5_ReturnToSuspendedEVSE, SuspendedEVSE);
      (I6_ReturnToFinishing, Finishing);
      (I7_ReturnToReserved, Reserved);
      (I8_ReturnToUnavailable, Unavailable)])].

(** "special fsm definition for connector 0 wih reduced states" *)
Definition FSM_DEF_CONNECTOR_ZERO : FSMDefinition :=
  [(Available, [(ChangeAvailabilityToUnavailable, Unavailable)]);
   (Unavailable, [(BecomeAvailable, Available)]);
   (Faulted, [(I1_ReturnToAvailable, Available); (I8_ReturnToUnavailable, Unavailable)])].

(** ** Errors *)
Record ErrorInfo := {
  uuid : string;
  error_code : ChargePointErrorCode;
  is_fault : bool;
  info : option string;
  vendor_id : option string;
  vendor_error_code : option string;
  timestamp : Z;
}.

(** A truncating [CiString] of at most [L] characters. *)
Definition truncated (L : nat) (s : string) : string := String.substring 0 L s.

(** The constructors; [now] is the value of a default constructed [DateTime]. *)
Definition ErrorInfo_new (now : Z) (uuid : string) (code : ChargePointErrorCode) (fault : bool)
    (info vendor_id vendor_error_code : option string) : ErrorInfo :=
  {| uuid := uuid; error_code := code; is_fault := fault;
     info := truncated 50 <$> info;
     vendor_id := truncated 255 <$> vendor_id;
     vendor_error_code := truncated 50 <$> vendor_error_code;
     timestamp := now |}.

Definition no_error (now : Z) : ErrorInfo := ErrorInfo_new now "" NoError false None None None.

(** ** One connector *)
Record ChargePointFSM := {
  state : ChargePointStatus;
  active_errors : gmap string ErrorInfo;
  report_cleared_errors : bool;
  last_emitted_info : option string;
  suspend_reason : option string;
}.

Definition ChargePointFSM_new (initial_state : ChargePointStatus) (report : bool) : ChargePointFSM :=
  {| state := initial_state; active_errors := ∅; report_cleared_errors := report;
     last_emitted_info := None; suspend_reason := None |}.

(** The arguments of [status_notification_callback]. *)
Record notification := {
  n_status : ChargePointStatus;
  n_error_code : ChargePointErrorCode;
  n_timestamp : Z;
  n_info : option string;
  n_vendor_id : option string;
  n_vendor_error_code : option string;
}.

Definition set_state (v : ChargePointStatus) (f : ChargePointFSM) : ChargePointFSM :=
  {| state := v; active_errors := active_errors f; report_cleared_errors := report_cleared_errors f;
     last_emitted_info := last_emitted_info f; suspend_reason := suspend_reason f |}.
Definition set_active_errors (v : gmap string ErrorInfo) (f : ChargePointFSM) : ChargePointFSM :=
  {| state := state f; active_errors := v; report_cleared_errors := report_cleared_errors f;
     last_emitted_info := last_emitted_info f; suspend_reason := suspend_reason f |}.
Definition set_last_emitted_info (v : option string) (f : ChargePointFSM) : ChargePointFSM :=
  {| state := state f; active_errors := active_errors f;
     report_cleared_errors := report_cleared_errors f;
     last_emitted_info := v; suspend_reason := suspend_reason f |}.
Definition set_suspend_reason (v : option string) (f : ChargePointFSM) : ChargePointFSM :=
  {| state := state f; active_errors := active_errors f;
     report_cleared_errors := report_cleared_errors f;
     last_emitted_info := last_emitted_info f; suspend_reason := v |}.

Inductive exn := out_of_range | runtime_error.
Definition fsm_op (A : Type) : Type := cmd ChargePointFSM notification exn A.

Section fsm.
Context `{Traversal ErrorInfo}.

(** [now]: the clock, read by [DateTime()]. *)
Context (now : Z).

Definition is_faulted (f : ChargePointFSM) : bool :=
  existsb (λ entry, is_fault entry.2) (traverse (active_errors f)).

Definition get_state (f : ChargePointFSM) : ChargePointStatus :=
  if is_faulted f then Faulted else state f.

Definition get_suspend_reason (f : ChargePointFSM) : option string := suspend_reason f.

Definition get_latest_error (f : ChargePointFSM) : option ErrorInfo :=
  match traverse (active_errors f) with
  | [] => None
  | (_, first) :: _ =>
      Some (foldl (λ latest entry,
                     if timestamp latest <? timestamp entry.2 then entry.2 else latest)
                  first (traverse (active_errors f)))
  end.

Definition emit_status_notification (reported_state : ChargePointStatus)
    (code : ChargePointErrorCode) (ts : Z) (inf vendor vendor_code : option string) : fsm_op () :=
  cmodify (set_last_emitted_info inf) ;;
  cemit {| n_status := reported_state; n_error_code := code; n_timestamp := ts; n_info := inf;
           n_vendor_id := vendor; n_vendor_error_code := vendor_code |}.

Definition handle_event (event : FSMEvent) (ts : Z) (inf : option string) : fsm_op bool :=
  f ← cget;
  transitions ← match find_key (state f) FSM_DEF with
                | Some t => mret t
                | None => cthrow out_of_range
                end;
  match find_key event transitions with
  | None => mret false
  | Some dest =>
      if bool_decide (dest = state f) && opt_ci_eq inf (last_emitted_info f) then mret false
      else
        cmodify (set_state dest) ;;
        let error := default (no_error now) (get_latest_error f) in
        cmodify (set_suspend_reason (if bool_decide (dest = SuspendedEVSE) then inf else None)) ;;
        cwhen (negb (is_faulted f))
          (emit_status_notification dest (error_code error) ts inf (vendor_id error)
             (vendor_error_code error)) ;;
        mret true
  end.

(** The notification of an error: with the connector's state, or [Faulted]. *)
Definition notify_error (e : ErrorInfo) : fsm_op () :=
  f ← cget;
  if negb (is_faulted f) then
    emit_status_notification (state f) (error_code e) (timestamp e) (info e) (vendor_id e)
      (vendor_error_code e)
  else
    emit_status_notification Faulted (error_code e) (timestamp e) (info e) (vendor_id e)
      (vendor_error_code e).

Definition handle_error (e : ErrorInfo) : fsm_op bool :=
  f ← cget;
  if bool_decide (is_Some (active_errors f !! uuid e)) then mret false
  else
    cmodify (set_active_errors (<[uuid e := e]> (active_errors f))) ;;
    notify_error e ;;
    mret true.

(** What is reported when [cleared] goes, with the remaining errors in [f]. *)
Definition cleared_report (f : ChargePointFSM) (cleared : ErrorInfo) :
    ChargePointErrorCode * option string * option string * option string :=
  let '(inf, vendor, vendor_code) :=
    if report_cleared_errors f then
      (match vendor_error_code cleared with
       | Some code => Some (truncated 50 (code +:+ " resolved"))
       | None => None
       end, vendor_id cleared, vendor_error_code cleared)
    else (None, None, None) in
  match get_latest_error f with
  | None => (NoError, inf, vendor, vendor_code)
  | Some latest =>
      if report_cleared_errors f then (error_code latest, inf, vendor, vendor_code)
      else (error_code latest, info latest, vendor_id latest, vendor_error_code latest)
  end.

Definition handle_error_cleared (id : string) : fsm_op bool :=
  f ← cget;
  match active_errors f !! id with
  | None => mret false
  | Some cleared =>
      cmodify (set_active_errors (delete id (active_errors f))) ;;
      f1 ← cget;
      if is_faulted f1 && negb (report_cleared_errors f1) then mret false
      else
        let st := if is_faulted f1 then Faulted else state f1 in
        let '(code, inf, vendor, vendor_code) := cleared_report f1 cleared in
        emit_status_notification st code now inf vendor vendor_code ;;
        mret true
  end.

Definition handle_all_errors_cleared : fsm_op bool :=
  cmodify (set_active_errors ∅) ;;
  f ← cget;
  emit_status_notification (state f) NoError now None None None ;;
  mret true.

Definition trigger_status_notification : fsm_op () :=
  f ← cget;
  notify_error (default (no_error now) (get_latest_error f)).
End fsm.

(** ** The charge point *)
Record ChargePointStates := {
  state_machine_connector_zero : option ChargePointFSM;
  state_machines : list ChargePointFSM;
  cps_report_cleared_errors : bool;
}.

Definition ChargePointStates_new (report : bool) : ChargePointStates :=
  {| state_machine_connector_zero := None; state_machines := []; cps_report_cleared_errors := report |}.

Definition set_connector_zero (v : option ChargePointFSM) (s : ChargePointStates) : ChargePointStates :=
  {| state_machine_connector_zero := v; state_machines := state_machines s;
     cps_report_cleared_errors := cps_report_cleared_errors s |}.
Definition set_state_machines (v : list ChargePointFSM) (s : ChargePointStates) : ChargePointStates :=
  {| state_machine_connector_zero := state_machine_connector_zero s; state_machines := v;
     cps_report_cleared_errors := cps_report_cleared_errors s |}.

(** A call of [connector_status_callback]: the connector and the notification. *)
Definition states_op (A : Type) : Type := cmd ChargePointStates (Z * notification) exn A.

Definition clamp_to_int (n : nat) : Z := Z.min (Z.of_nat n) (2 ^ 31 - 1).

(** A member call on connector 0, through a [unique_ptr] that is null before the
    first [reset], and on the machine at an index, with [vector::at].  A machine's
    callback carries the connector id it was created with. *)
Definition at_zero {A} (m : fsm_op A) : states_op A := λ s,
  match state_machine_connector_zero s with
  | None => (Undef, s, [])
  | Some f =>
      let '(r, f', t) := m f in
      (r, set_connector_zero (Some f') s, map (pair 0) t)
  end.

Definition at_machine {A} (i : nat) (m : fsm_op A) : states_op A := λ s,
  match state_machines s !! i with
  | None => (Throw out_of_range, s, [])
  | Some f =>
      let '(r, f', t) := m f in
      (r, set_state_machines (<[i := f']> (state_machines s)) s, map (pair (clamp_to_int (S i))) t)
  end.

Definition valid_for_connector_zero (st : ChargePointStatus) : bool :=
  match st with Available | Unavailable | Faulted => true | _ => false end.

Definition reset_connector (m : gmap Z ChargePointStatus) (connector_id : nat) : states_op () :=
  s ← cget;
  match m !! clamp_to_int connector_id with
  | None => cthrow out_of_range
  | Some initial_state =>
      let fsm := ChargePointFSM_new initial_state (cps_report_cleared_errors s) in
      match connector_id with
      | O =>
          if negb (valid_for_connector_zero initial_state) then cthrow runtime_error
          else cmodify (set_connector_zero (Some fsm))
      | S _ => cmodify (set_state_machines (state_machines s ++ [fsm]))
      end
  end.

Definition reset (connector_status_map : gmap Z ChargePointStatus) : states_op () :=
  cmodify (set_state_machines []) ;;
  cfor (seq 0 (size connector_status_map)) (reset_connector connector_status_map).

Definition has_connector (s : ChargePointStates) (connector_id : Z) : bool :=
  (0 <? connector_id) && (connector_id <=? Z.of_nat (length (state_machines s))).

(** The dispatch shared by the [submit_*] functions. *)
Definition submit {A} (connector_id : Z) (m : fsm_op A) : states_op () :=
  s ← cget;
  if connector_id =? 0 then at_zero m ;; mret tt
  else if has_connector s connector_id then at_machine (Z.to_nat (connector_id - 1)) m ;; mret tt
  else mret tt.

Section states.
Context `{Traversal ErrorInfo} (now : Z).

Definition submit_event (connector_id : Z) (event : FSMEvent) (ts : Z) (inf : option string) :
    states_op () := submit connector_id (handle_event now event ts inf).

Definition submit_error (connector_id : Z) (e : ErrorInfo) : states_op () :=
  submit connector_id (handle_error e).

Definition submit_error_cleared (connector_id : Z) (id : string) : states_op () :=
  submit connector_id (handle_error_cleared now id).

Definition submit_all_errors_cleared (connector_id : Z) : states_op () :=
  submit connector_id (handle_all_errors_cleared now).

Definition states_trigger_status_notification (connector_id : Z) : states_op () :=
  if connector_id =? 0 then at_zero (trigger_status_notification now)
  else if connector_id <? 0 then cthrow out_of_range
  else at_machine (Z.to_nat (connector_id - 1)) (trigger_status_notification now).

Definition trigger_status_notifications : states_op () :=
  at_zero (trigger_status_notification now) ;;
  s ← cget;
  cfor (seq 0 (length (state_machines s)))
    (λ i, at_machine i (trigger_status_notification now)).

(** The machine a getter reads: out of range ids fall back to connector 0. *)
Definition machine_of (s : ChargePointStates) (connector_id : Z) : option ChargePointFSM :=
  if has_connector s connector_id then state_machines s !! Z.to_nat (connector_id - 1)
  else state_machine_connector_zero s.

Definition states_get_state (connector_id : Z) (s : ChargePointStates) :
    outcome exn ChargePointStatus :=
  if has_connector s connector_id || (connector_id =? 0) then
    match machine_of s connector_id with Some f => Ret (get_state f) | None => Undef end
  else Ret Unavailable.

Definition states_get_latest_error (connector_id : Z) (s : ChargePointStates) :
    outcome exn (option ErrorInfo) :=
  match machine_of s connector_id with Some f => Ret (get_latest_error f) | None => Undef end.

Definition states_get_suspend_reason (connector_id : Z) (s : ChargePointStates) :
    outcome exn (option string) :=
  match machine_of s connector_id with Some f => Ret (get_suspend_reason f) | None => Undef end.
End states.

End CpFsm.
