(* ===== verification/CpFsmFacts.v ===== *)
(** * Properties of the OCPP 1.6 connector status machine *)

From S2P Require Import Prelude CiString ChargePointFsm.

Import CiString CpFsm.

Section facts.
Context `{T : Traversal ErrorInfo}.

(** ** Active errors, whatever the order of traversal *)
Lemma traverse_elem (m : gmap string ErrorInfo) id e : (id, e) ∈ traverse m ↔ m !! id = Some e.
Proof. rewrite traverse_perm. apply elem_of_map_to_list. Qed.

Lemma is_faulted_spec f :
  is_faulted f = true ↔ ∃ id e, active_errors f !! id = Some e ∧ is_fault e = true.
Proof.
  unfold is_faulted. rewrite existsb_exists. split.
  - intros ([id e] & Hin%list_elem_of_In & Hf). apply traverse_elem in Hin. eauto.
  - intros (id & e & Hl & Hf). exists (id, e). split; [|done].
    by apply list_elem_of_In, traverse_elem.
Qed.

Lemma is_faulted_errors f g : active_errors f = active_errors g → is_faulted f = is_faulted g.
Proof. unfold is_faulted. by intros ->. Qed.

Lemma get_latest_error_errors f g :
  active_errors f = active_errors g → get_latest_error f = get_latest_error g.
Proof. unfold get_latest_error. by intros ->. Qed.

(** The fold keeps the first of the entries with the greatest timestamp. *)
Lemma latest_fold (l : list (string * ErrorInfo)) e0 :
  let e := foldl (λ latest entry,
                    if timestamp latest <? timestamp entry.2 then entry.2 else latest) e0 l in
  (e = e0 ∨ ∃ id, (id, e) ∈ l) ∧ timestamp e0 ≤ timestamp e ∧
  ∀ id' e', (id', e') ∈ l → timestamp e' ≤ timestamp e.
Proof.
  revert e0. induction l as [|[id1 e1] l IH]; intros e0; cbn; [set_solver by lia|].
  destruct (IH (if timestamp e0 <? timestamp e1 then e1 else e0)) as (Hin & Hle & Hmax).
  set (e := foldl _ _ l) in *. split_and!.
  - destruct Hin as [->|[id Hin]]; [|right; exists id; set_solver].
    destruct (timestamp e0 <? timestamp e1); [right; exists id1; set_solver|by left].
  - destruct (Z.ltb_spec (timestamp e0) (timestamp e1)); lia.
  - intros id' e' [[= -> ->]|Hin']%elem_of_cons; [|eauto].
    destruct (Z.ltb_spec (timestamp e0) (timestamp e1)); lia.
Qed.

Lemma latest_error_spec f :
  match get_latest_error f with
  | Some e =>
      (∃ id, active_errors f !! id = Some e) ∧
      ∀ id' e', active_errors f !! id' = Some e' → timestamp e' ≤ timestamp e
  | None => active_errors f = ∅
  end.
Proof.
  unfold get_latest_error. destruct (traverse (active_errors f)) as [|[id0 e0] l] eqn:Hl.
  - apply map_eq. intros id. rewrite lookup_empty.
    destruct (active_errors f !! id) as [e|] eqn:He; [|done].
    apply traverse_elem in He. rewrite Hl in He. set_solver.
  - pose proof (latest_fold ((id0, e0) :: l) e0) as (Hin & _ & Hmax). rewrite <- Hl in *.
    set (e := foldl _ _ _) in *. split.
    + destruct Hin as [->|[id Hin]]; [exists id0|exists id]; apply traverse_elem; [|done].
      rewrite Hl. set_solver.
    + intros id' e' He'. apply (Hmax id'). by apply traverse_elem.
Qed.

(** [get_latest_error] returns an active error no other active error is newer
    than, in whatever order the map is traversed, and none only when no error is
    active. *)
Lemma get_latest_error_newest f :
  match get_latest_error f with
  | Some e =>
      (∃ id, active_errors f !! id = Some e) ∧
      ∀ id' e', active_errors f !! id' = Some e' → timestamp e' ≤ timestamp e
  | None => active_errors f = ∅
  end.
Proof. apply latest_error_spec. Qed.

(** ** Requests to one connector *)
Inductive cp_request :=
| ReqEvent (event : FSMEvent) (ts : Z) (inf : option string)
| ReqError (e : ErrorInfo)
| ReqErrorCleared (id : string)
| ReqAllErrorsCleared
| ReqTrigger.

Definition fsm_handle (now : Z) (r : cp_request) : fsm_op () :=
  match r with
  | ReqEvent event ts inf => handle_event now event ts inf ;; mret tt
  | ReqError e => handle_error e ;; mret tt
  | ReqErrorCleared id => handle_error_cleared now id ;; mret tt
  | ReqAllErrorsCleared => handle_all_errors_cleared now ;; mret tt
  | ReqTrigger => trigger_status_notification now
  end.

(** What one request does to a connector: its state follows the table, and what
    it reports is the effective state it leaves. *)
Record fsm_step (f : ChargePointFSM) (r : outcome exn ()) (f' : ChargePointFSM)
    (t : list notification) : Prop := {
  fs_returns : r = Ret tt;
  fs_state : state f' = state f ∨
    ∃ ev trans, find_key (state f) FSM_DEF = Some trans ∧ find_key ev trans = Some (state f');
  fs_reports : Forall (λ n, n_status n = get_state f') t;
  fs_suspend : (suspend_reason f ≠ None → state f = SuspendedEVSE) →
               suspend_reason f' ≠ None → state f' = SuspendedEVSE;
  fs_keys : map_Forall (λ id e, uuid e = id) (active_errors f) →
            map_Forall (λ id e, uuid e = id) (active_errors f');
  fs_info : last_emitted_info f' = default (last_emitted_info f) (n_info <$> last t);
}.

Lemma get_state_is f b :
  is_faulted f = b → get_state f = if b then Faulted else state f.
Proof. unfold get_state. by intros ->. Qed.

Lemma fsm_step_stays f : fsm_step f (Ret tt) f [].
Proof. constructor; eauto. Qed.

Lemma handle_event_step now event ts inf f :
  ∃ f' t, fsm_handle now (ReqEvent event ts inf) f = (Ret tt, f', t) ∧ fsm_step f (Ret tt) f' t.
Proof.
  destruct (find_key (state f) FSM_DEF) as [trans|] eqn:Htr; [|by destruct (state f)].
  cbn [fsm_handle]. unfold handle_event, emit_status_notification. cexpand. rewrite Htr.
  destruct (find_key event trans) as [dest|] eqn:Hd; [|eauto using fsm_step_stays].
  destruct (bool_decide (dest = state f) && _) eqn:Hself; [eauto using fsm_step_stays|].
  destruct (is_faulted f) eqn:Hf; do 2 eexists; (split; [reflexivity|]); constructor; cbn; eauto;
    try (intros _; destruct (bool_decide_reflect (dest = SuspendedEVSE)); congruence).
  constructor; [|done]. by rewrite (get_state_is _ false).
Qed.

(** The notification of an error carries the effective state. *)
Lemma notify_error_eq e f :
  notify_error e f =
    (Ret tt, set_last_emitted_info (info e) f,
     [{| n_status := get_state f; n_error_code := error_code e; n_timestamp := timestamp e;
         n_info := info e; n_vendor_id := vendor_id e;
         n_vendor_error_code := vendor_error_code e |}]).
Proof.
  unfold notify_error, emit_status_notification, get_state. cexpand. by destruct (is_faulted f).
Qed.

Lemma handle_error_step now e f :
  ∃ f' t, fsm_handle now (ReqError e) f = (Ret tt, f', t) ∧ fsm_step f (Ret tt) f' t.
Proof.
  cbn [fsm_handle]. unfold handle_error, mbind, cmd_mbind, cmd_bind, cget.
  case_bool_decide as Hknown; [eauto using fsm_step_stays|]. cbn. rewrite notify_error_eq.
  do 2 eexists. split; [reflexivity|]. constructor; cbn; eauto.
  intros Hkeys. by apply map_Forall_insert_2.
Qed.

Lemma emit_eq st code ts inf vendor vendor_code f :
  emit_status_notification st code ts inf vendor vendor_code f =
    (Ret tt, set_last_emitted_info inf f,
     [{| n_status := st; n_error_code := code; n_timestamp := ts; n_info := inf;
         n_vendor_id := vendor; n_vendor_error_code := vendor_code |}]).
Proof. done. Qed.

Lemma handle_error_cleared_step now id f :
  ∃ f' t, fsm_handle now (ReqErrorCleared id) f = (Ret tt, f', t) ∧ fsm_step f (Ret tt) f' t.
Proof.
  cbn [fsm_handle]. unfold handle_error_cleared, mbind, cmd_mbind, cmd_bind, cget.
  destruct (active_errors f !! id) as [e|] eqn:He; [|eauto using fsm_step_stays]. cbn [cmodify].
  set (f1 := set_active_errors _ f).
  assert (map_Forall (λ id e, uuid e = id) (active_errors f) →
          map_Forall (λ id e, uuid e = id) (active_errors f1)) as Hkeys
    by (intros ?; by apply map_Forall_delete).
  destruct (is_faulted f1 && negb (report_cleared_errors f1)) eqn:Hq.
  { do 2 eexists. split; [reflexivity|]. constructor; eauto. }
  destruct (cleared_report f1 e) as [[[code inf] vendor] vendor_code].
  rewrite emit_eq. do 2 eexists. split; [reflexivity|]. constructor; cbn; eauto.
Qed.

Lemma all_errors_cleared_step now f :
  ∃ f' t, fsm_handle now ReqAllErrorsCleared f = (Ret tt, f', t) ∧ fsm_step f (Ret tt) f' t.
Proof.
  do 2 eexists. split; [reflexivity|]. constructor; cbn; eauto.
  - constructor; [|done]. rewrite (get_state_is _ false); [done|].
    unfold is_faulted. cbn. pose proof (traverse_perm (∅ : gmap string ErrorInfo)) as Hp.
    rewrite map_to_list_empty in Hp. by apply Permutation_nil_r in Hp as ->.
  - intros _. apply map_Forall_empty.
Qed.

Lemma fsm_handle_step now r f :
  ∃ f' t, fsm_handle now r f = (Ret tt, f', t) ∧ fsm_step f (Ret tt) f' t.
Proof.
  destruct r; [apply handle_event_step|apply handle_error_step|apply handle_error_cleared_step|
               apply all_errors_cleared_step|].
  cbn [fsm_handle]. unfold trigger_status_notification, mbind, cmd_mbind, cmd_bind, cget.
  rewrite notify_error_eq. do 2 eexists. split; [reflexivity|]. constructor; cbn; eauto.
Qed.

(** ** Histories of one connector *)
Inductive history (init : ChargePointStatus) (report : bool) :
    ChargePointFSM → list notification → Prop :=
| history_new : history init report (ChargePointFSM_new init report) []
| history_request f t now r :
    history init report f t →
    history init report (st_of (fsm_handle now r f)) (t ++ out_of (fsm_handle now r f)).

Inductive follows_table : ChargePointStatus → ChargePointStatus → Prop :=
| follows_refl st : follows_table st st
| follows_step st st' st'' ev trans :
    follows_table st st' → find_key st' FSM_DEF = Some trans → find_key ev trans = Some st'' →
    follows_table st st''.

(** Along every history of a connector, no request throws, the state only
    changes along the transition table, a suspend reason is kept only in
    [SuspendedEVSE], errors are filed under their own uuid, and the remembered
    info is the one notified last. *)
Lemma connector_history_invariant init report f t :
  history init report f t →
  (∀ now r, res_of (fsm_handle now r f) = Ret tt) ∧
  follows_table init (state f) ∧
  (suspend_reason f ≠ None → state f = SuspendedEVSE) ∧
  map_Forall (λ id e, uuid e = id) (active_errors f) ∧
  last_emitted_info f = default None (n_info <$> last t).
Proof.
  induction 1 as [|f t now r _ (_ & Hst & Hsus & Hkeys & Hinfo)].
  { split_and!; try done; [|constructor].
    intros now r. destruct (fsm_handle_step now r (ChargePointFSM_new init report))
      as (f' & t & -> & Hs). done. }
  destruct (fsm_handle_step now r f) as (f' & t' & -> & [_ Hs _ Hsus' Hk Hi]). cbn. split_and!.
  - intros now' r'. by destruct (fsm_handle_step now' r' f') as (f'' & t'' & -> & ?).
  - destruct Hs as [->|(ev & trans & H1 & H2)]; [done|]. by eapply follows_step.
  - auto.
  - auto.
  - rewrite Hi, Hinfo, last_app. by destruct (last t').
Qed.

(** ** The charge point *)
Definition cps_handle (now : Z) (id : Z) (r : cp_request) : states_op () :=
  match r with
  | ReqEvent event ts inf => submit_event now id event ts inf
  | ReqError e => submit_error id e
  | ReqErrorCleared uuid => submit_error_cleared now id uuid
  | ReqAllErrorsCleared => submit_all_errors_cleared now id
  | ReqTrigger => states_trigger_status_notification now id
  end.

(** The machine of a connector. *)
Definition connector (s : ChargePointStates) (id : Z) : option ChargePointFSM :=
  if id =? 0 then state_machine_connector_zero s
  else if id <? 0 then None else state_machines s !! Z.to_nat (id - 1).

Definition set_connector (id : Z) (f : ChargePointFSM) (s : ChargePointStates) : ChargePointStates :=
  if id =? 0 then set_connector_zero (Some f) s
  else set_state_machines (<[Z.to_nat (id - 1) := f]> (state_machines s)) s.

Lemma has_connector_spec s id :
  has_connector s id = true ↔ 0 < id ∧ is_Some (state_machines s !! Z.to_nat (id - 1)).
Proof.
  unfold has_connector. rewrite andb_true_iff, lookup_lt_is_Some. lia.
Qed.

Lemma connector_set_eq s id f g : connector s id = Some g → connector (set_connector id f s) id = Some f.
Proof.
  unfold connector, set_connector. destruct (id =? 0); [done|]. destruct (id <? 0); [done|].
  intros Hg. cbn. apply list_lookup_insert_eq. by eapply lookup_lt_Some.
Qed.

Lemma connector_set_ne s id id' f :
  0 ≤ id → id ≠ id' → connector (set_connector id f s) id' = connector s id'.
Proof.
  intros Hid Hne. unfold connector, set_connector. destruct (Z.eqb_spec id 0), (Z.eqb_spec id' 0);
    try lia; try done.
  destruct (Z.ltb_spec id' 0); [done|]. cbn. apply list_lookup_insert_ne. lia.
Qed.

Lemma discard_result {A} (m : fsm_op A) f f' t :
  (m ;; mret tt) f = (Ret tt, f', t) → ∃ a, m f = (Ret a, f', t).
Proof.
  cexpand. destruct (m f) as [[[a|x|] f1] t1]; [|done..].
  intros [= <- <-]. exists a. by rewrite app_nil_r.
Qed.

Lemma at_machine_eq {A} (m : fsm_op A) s id f a f' t :
  0 < id < 2 ^ 31 → state_machines s !! Z.to_nat (id - 1) = Some f → m f = (Ret a, f', t) →
  at_machine (Z.to_nat (id - 1)) m s = (Ret a, set_connector id f' s, map (pair id) t).
Proof.
  intros Hid Hf Hm. unfold at_machine, set_connector. rewrite Hf, Hm.
  destruct (Z.eqb_spec id 0); [lia|]. do 2 f_equal. unfold clamp_to_int.
  by replace (Z.min _ _) with id by lia.
Qed.

Lemma submit_eq {A} (m : fsm_op A) s id f f' t :
  0 ≤ id < 2 ^ 31 → connector s id = Some f → (m ;; mret tt) f = (Ret tt, f', t) →
  submit id m s = (Ret tt, set_connector id f' s, map (pair id) t).
Proof.
  intros Hid Hf [a Hm]%discard_result. unfold connector in Hf. unfold submit.
  destruct (Z.eqb_spec id 0) as [->|Hne].
  - cexpand. unfold at_zero, set_connector. rewrite Hf, Hm. cbn. by rewrite app_nil_r.
  - destruct (Z.ltb_spec id 0); [lia|]. cexpand.
    rewrite (proj2 (has_connector_spec s id)) by (split; [lia|eauto]).
    rewrite (at_machine_eq m s id f a f' t) by (done || lia). by rewrite app_nil_r.
Qed.

(** A request to an existing connector runs its machine; the callback carries its
    id. *)
Lemma cps_handle_eq now r s id f f' t :
  0 ≤ id < 2 ^ 31 → connector s id = Some f → fsm_handle now r f = (Ret tt, f', t) →
  cps_handle now id r s = (Ret tt, set_connector id f' s, map (pair id) t).
Proof.
  intros Hid Hf Hm. destruct r; cbn [cps_handle fsm_handle] in *; try by eapply submit_eq.
  unfold connector in Hf. unfold states_trigger_status_notification.
  destruct (Z.eqb_spec id 0) as [->|Hne].
  - unfold at_zero, set_connector. by rewrite Hf, Hm.
  - destruct (Z.ltb_spec id 0); [lia|]. apply (at_machine_eq _ s id f tt f' t); (done || lia).
Qed.

Lemma states_get_state_connector s id f :
  0 ≤ id → connector s id = Some f → states_get_state id s = Ret (get_state f).
Proof.
  unfold connector, states_get_state, machine_of. intros Hid.
  destruct (Z.eqb_spec id 0) as [->|Hne]; [intros Hf|destruct (Z.ltb_spec id 0); [lia|]; intros Hf].
  - unfold has_connector. cbn. by rewrite Hf.
  - rewrite (proj2 (has_connector_spec s id)) by (split; [lia|eauto]). cbn. by rewrite Hf.
Qed.

(** C40: every status notification of the charge point reports, for the connector
    the request was made to, exactly the state that [get_state] then returns
    ([Faulted] while a fault is active); a request never touches another connector. *)
Theorem notifications_report_effective_state now id r s f :
  0 ≤ id < 2 ^ 31 → connector s id = Some f →
  res_of (cps_handle now id r s) = Ret tt ∧
  (∀ c n, (c, n) ∈ out_of (cps_handle now id r s) →
          c = id ∧ states_get_state id (st_of (cps_handle now id r s)) = Ret (n_status n)) ∧
  ∀ id', id' ≠ id → connector (st_of (cps_handle now id r s)) id' = connector s id'.
Proof.
  intros Hid Hf. destruct (fsm_handle_step now r f) as (f' & t & Hm & Hs).
  rewrite (cps_handle_eq now r s id f f' t Hid Hf Hm). cbn. split_and!; [done| |].
  - intros c n (n' & [= -> ->] & Hin)%list_elem_of_fmap. split; [done|].
    rewrite (states_get_state_connector _ id f'); [|lia|by eapply connector_set_eq].
    f_equal. symmetry. pose proof (fs_reports _ _ _ _ Hs) as Hall. rewrite Forall_forall in Hall. auto.
  - intros id' Hne. apply connector_set_ne; [lia|done].
Qed.

Lemma handle_error_fresh e f :
  active_errors f !! uuid e = None →
  let g := set_active_errors (<[uuid e := e]> (active_errors f)) f in
  handle_error e f =
    (Ret true, set_last_emitted_info (info e) g,
     [{| n_status := get_state g; n_error_code := error_code e; n_timestamp := timestamp e;
         n_info := info e; n_vendor_id := vendor_id e;
         n_vendor_error_code := vendor_error_code e |}]).
Proof.
  intros Hfresh g. unfold handle_error, mbind, cmd_mbind, cmd_bind, cget.
  case_bool_decide as Hk; [rewrite Hfresh in Hk; by destruct Hk|]. cbn. fold g.
  by rewrite notify_error_eq.
Qed.

Lemma is_faulted_insert e f :
  active_errors f !! uuid e = None →
  is_faulted (set_active_errors (<[uuid e := e]> (active_errors f)) f) = is_fault e || is_faulted f.
Proof.
  intros Hfresh. apply eq_true_iff_eq. rewrite orb_true_iff, !is_faulted_spec. cbn. split.
  - intros (id & e' & [[<- <-]|[Hne Hl]]%lookup_insert_Some & Hf); [by left|right; eauto].
  - intros [Hf|(id & e' & Hl & Hf)].
    + exists (uuid e), e. by rewrite lookup_insert_eq.
    + exists id, e'. rewrite lookup_insert_ne; [done|congruence].
Qed.

Lemma handle_error_cleared_known now id e f :
  active_errors f !! id = Some e →
  let g := set_active_errors (delete id (active_errors f)) f in
  (∃ i, st_of (handle_error_cleared now id f) = set_last_emitted_info i g) ∧
  (active_errors g = ∅ →
     n_status <$> out_of (handle_error_cleared now id f) = [state f] ∧
     n_error_code <$> out_of (handle_error_cleared now id f) = [NoError]).
Proof.
  intros He g. unfold handle_error_cleared, mbind, cmd_mbind, cmd_bind, cget. rewrite He.
  cbn [cmodify]. fold g. destruct (is_faulted g) eqn:Hf; cbn [andb].
  - assert (active_errors g ≠ ∅) as Hne.
    { apply is_faulted_spec in Hf as (id' & e' & Hl & _). intros Hg. by rewrite Hg in Hl. }
    destruct (negb _); cbn; [by split; [exists (last_emitted_info g); destruct g|]|].
    destruct (cleared_report g e) as [[[code inf] v] vc]. rewrite emit_eq. cbn. by split; [eauto|].
  - destruct (cleared_report g e) as [[[code inf] v] vc] eqn:Hc. rewrite emit_eq. cbn.
    split; [eauto|]. intros Hg. split; [done|]. f_equal.
    pose proof (latest_error_spec g) as Hlatest. revert Hc. unfold cleared_report.
    destruct (get_latest_error g) as [e'|].
    { destruct Hlatest as [[id' Hl] _]. change (active_errors g = ∅) in Hg. by rewrite Hg in Hl. }
    destruct (report_cleared_errors g); by intros [=].
Qed.

(** Raising an error and clearing it again restores the connector: its state,
    its active errors and so the state it reports.  If no other error is active,
    raising reports the error's code (under [Faulted] if it is a fault) and
    clearing reports the old state with [NoError]. *)
Lemma error_raise_clear_roundtrip now e f :
  active_errors f !! uuid e = None →
  let f1 := st_of (handle_error e f) in
  let f2 := st_of (handle_error_cleared now (uuid e) f1) in
  state f2 = state f ∧ active_errors f2 = active_errors f ∧ get_state f2 = get_state f ∧
  get_state f1 = (if is_fault e then Faulted else get_state f) ∧
  (active_errors f = ∅ →
     n_status <$> out_of (handle_error e f) = [if is_fault e then Faulted else state f] ∧
     n_error_code <$> out_of (handle_error e f) = [error_code e] ∧
     n_status <$> out_of (handle_error_cleared now (uuid e) f1) = [state f] ∧
     n_error_code <$> out_of (handle_error_cleared now (uuid e) f1) = [NoError]).
Proof.
  intros Hfresh. cbv zeta. rewrite (handle_error_fresh e f Hfresh). cbn [st_of out_of fst snd].
  set (g := set_active_errors _ f). set (f1 := set_last_emitted_info (info e) g).
  set (f2 := st_of _).
  assert (active_errors f1 !! uuid e = Some e) as He1 by apply lookup_insert_eq.
  destruct (handle_error_cleared_known now _ _ f1 He1) as [[i Hi] Hrep].
  assert (active_errors f2 = active_errors f) as Hae.
  { subst f2. rewrite Hi. cbn. by apply delete_insert_id. }
  assert (state f2 = state f) as Hst by (subst f2; by rewrite Hi).
  pose proof (is_faulted_insert e f Hfresh) as Hg. fold g in Hg.
  split_and!; [done|done|..].
  - unfold get_state. by rewrite Hst, (is_faulted_errors f2 f).
  - change (get_state f1) with (get_state g). unfold get_state. rewrite Hg. by destruct (is_fault e).
  - intros Hnone. assert (is_faulted f = false) as Hnf.
    { apply not_true_iff_false. rewrite is_faulted_spec. intros (id & e' & Hl & _).
      by rewrite Hnone in Hl. }
    rewrite Hnf, orb_false_r in Hg. destruct Hrep as [-> ->].
    { cbn. by rewrite delete_insert_id. }
    split_and!; [|done|done|done]. cbn. unfold get_state. rewrite Hg. by destruct (is_fault e).
Qed.
(** Connector 0 runs the full transition table, not the reduced one written
    for it: from a fresh charge point whose connector 0 is [Available], a
    [StartCharging] event is accepted, notified and leaves it in [Charging], a state
    the reduced table does not have. *)
Lemma connector_zero_runs_full_table now ts report :
  let s := st_of (reset {[ 0 := Available ]} (ChargePointStates_new report)) in
  states_get_state 0 (st_of (submit_event now 0 StartCharging ts None s)) = Ret Charging ∧
  (∃ c n, out_of (submit_event now 0 StartCharging ts None s) = [(c, n)] ∧ n_status n = Charging) ∧
  find_key Charging FSM_DEF_CONNECTOR_ZERO = None.
Proof.
  set (f := ChargePointFSM_new Available report).
  assert (is_faulted f = false) as Hf.
  { apply not_true_iff_false. rewrite is_faulted_spec. intros (id & e & Hl & _).
    cbn in Hl. by rewrite lookup_empty in Hl. }
  assert (st_of (reset {[ 0 := Available ]} (ChargePointStates_new report)) =
          set_connector_zero (Some f) (ChargePointStates_new report)) as -> by done.
  cbv zeta. set (s := set_connector_zero _ _).
  assert (∃ f' t, fsm_handle now (ReqEvent StartCharging ts None) f = (Ret tt, f', t) ∧
    state f' = Charging ∧ active_errors f' = ∅ ∧ ∃ n, t = [n] ∧ n_status n = Charging)
    as (f' & t & Hm & Hst & Hae & n & -> & Hn).
  { cbn [fsm_handle]. unfold handle_event, emit_status_notification. cexpand. cbn. fold f.
    rewrite Hf. do 2 eexists. split; [reflexivity|]. eauto. }
  unfold submit_event.
  rewrite (submit_eq (handle_event now StartCharging ts None) s 0 f f' [n]) by done.
  split_and!; [|by exists 0, n|done]. cbn. unfold get_state.
  rewrite (is_faulted_errors f' f), Hf by done. by rewrite Hst.
Qed.
End facts.

(** ** The theorems at concrete inputs *)
#[local] Existing Instance key_order.

Definition demo_points : ChargePointStates :=
  st_of (reset {[ 0 := Available; 1 := Available; 2 := Preparing ]} (ChargePointStates_new false)).
Definition demo_fault : ErrorInfo :=
  ErrorInfo_new 5 "uuid-1" GroundFailure true None (Some "vendor"%string) None.
Definition demo_machine : ChargePointFSM := ChargePointFSM_new Charging false.

Lemma notifications_report_effective_state_witness :
  (length (out_of (cps_handle 7 2 (ReqError demo_fault) demo_points)) = 1)%nat ∧
  res_of (cps_handle 7 2 (ReqError demo_fault) demo_points) = Ret tt ∧
  connector (st_of (cps_handle 7 2 (ReqError demo_fault) demo_points)) 1 = connector demo_points 1.
Proof.
  destruct (notifications_report_effective_state 7 2 (ReqError demo_fault) demo_points
              (ChargePointFSM_new Preparing false)) as (Hres & _ & Hother);
    [lia | vm_compute; reflexivity |].
  split_and!; [vm_compute; reflexivity | exact Hres | by apply Hother].
Defined.

