(* ===== verification/ComponentState.v ===== *)
(** * The OCPP 2.x component state manager

    Models [src/lib/everest/ocpp/lib/ocpp/v2/component_state_manager.cpp], its
    header, and the availability table of [database_handler.cpp]: the individual
    Operative/Inoperative statuses of the charging station, its EVSEs and their
    connectors, the effective statuses derived from them, and what was last
    reported.  Callbacks are outputs.  Whether an SQLite statement succeeds and
    whether a status notification could be sent is up to the environment: both
    are read from lists of outcomes in the state. *)

From S2P Require Import Prelude.

Module Csm.

Inductive OperationalStatusEnum := Inoperative | Operative.
Inductive ConnectorStatusEnum := Available | Occupied | Reserved | Unavailable | Faulted.

#[global] Instance OperationalStatusEnum_eq_dec : EqDecision OperationalStatusEnum.
Proof. solve_decision. Defined.
#[global] Instance ConnectorStatusEnum_eq_dec : EqDecision ConnectorStatusEnum.
Proof. solve_decision. Defined.

Record FullConnectorStatus := {
  individual_operational_status : OperationalStatusEnum;
  faulted : bool;
  reserved : bool;
  occupied : bool;
  unavailable : bool;
}.

Definition set_individual (v : OperationalStatusEnum) (c : FullConnectorStatus) : FullConnectorStatus :=
  {| individual_operational_status := v; faulted := faulted c; reserved := reserved c;
     occupied := occupied c; unavailable := unavailable c |}.
Definition set_faulted (v : bool) (c : FullConnectorStatus) : FullConnectorStatus :=
  {| individual_operational_status := individual_operational_status c; faulted := v;
     reserved := reserved c; occupied := occupied c; unavailable := unavailable c |}.
Definition set_reserved (v : bool) (c : FullConnectorStatus) : FullConnectorStatus :=
  {| individual_operational_status := individual_operational_status c; faulted := faulted c;
     reserved := v; occupied := occupied c; unavailable := unavailable c |}.
Definition set_occupied (v : bool) (c : FullConnectorStatus) : FullConnectorStatus :=
  {| individual_operational_status := individual_operational_status c; faulted := faulted c;
     reserved := reserved c; occupied := v; unavailable := unavailable c |}.
Definition set_unavailable (v : bool) (c : FullConnectorStatus) : FullConnectorStatus :=
  {| individual_operational_status := individual_operational_status c; faulted := faulted c;
     reserved := reserved c; occupied := occupied c; unavailable := v |}.

Inductive exn :=
| EvseOutOfRangeException (id : Z)
| ConnectorOutOfRangeException (connector_id evse_id : Z)
| QueryExecutionException
| RequiredEntryNotFoundException
| invalid_argument.

(** ** The members, and the environment's answers still to come *)
Record csm := {
  availability : gmap (Z * Z) OperationalStatusEnum;
  statement_ok : list bool;
  send_ok : list bool;
  cs_individual_status : OperationalStatusEnum;
  evses : list (OperationalStatusEnum * list FullConnectorStatus);
  last_cs : OperationalStatusEnum;
  last_effective : list (OperationalStatusEnum * list OperationalStatusEnum);
  last_reported : list (list ConnectorStatusEnum);
  cs_callback : bool;
  evse_callback : bool;
  connector_callback : bool;
}.

Definition eta_csm (s : csm) : csm :=
  {| availability := availability s; statement_ok := statement_ok s; send_ok := send_ok s;
     cs_individual_status := cs_individual_status s; evses := evses s; last_cs := last_cs s;
     last_effective := last_effective s; last_reported := last_reported s;
     cs_callback := cs_callback s; evse_callback := evse_callback s;
     connector_callback := connector_callback s |}.

Definition set_availability v (s : csm) : csm := ltac:(set_field eta_csm availability v s).
Definition set_statement_ok v (s : csm) : csm := ltac:(set_field eta_csm statement_ok v s).
Definition set_send_ok v (s : csm) : csm := ltac:(set_field eta_csm send_ok v s).
Definition set_cs_individual_status v (s : csm) : csm :=
  ltac:(set_field eta_csm cs_individual_status v s).
Definition set_evses v (s : csm) : csm := ltac:(set_field eta_csm evses v s).
Definition set_last_cs v (s : csm) : csm := ltac:(set_field eta_csm last_cs v s).
Definition set_last_effective v (s : csm) : csm := ltac:(set_field eta_csm last_effective v s).
Definition set_last_reported v (s : csm) : csm := ltac:(set_field eta_csm last_reported v s).
Definition set_cs_callback v (s : csm) : csm := ltac:(set_field eta_csm cs_callback v s).
Definition set_evse_callback v (s : csm) : csm := ltac:(set_field eta_csm evse_callback v s).
Definition set_connector_callback v (s : csm) : csm :=
  ltac:(set_field eta_csm connector_callback v s).

Inductive output :=
| cs_effective_availability_changed (new_status : OperationalStatusEnum)
| evse_effective_availability_changed (evse_id : Z) (new_status : OperationalStatusEnum)
| connector_effective_availability_changed (evse_id connector_id : Z)
    (new_status : OperationalStatusEnum)
| send_connector_status_notification (evse_id connector_id : Z) (new_status : ConnectorStatusEnum)
    (initiated_by_trigger_message : bool).

Notation op := (cmd csm output exn).

(** ** The availability table *)

(** The result of the next [step()] of a statement. *)
Definition step_statement : op bool :=
  s ← cget;
  match statement_ok s with
  | [] => mret true
  | ok :: rest => cmodify (set_statement_ok rest) ;; mret ok
  end.

Definition insert_availability (evse_id connector_id : Z) (status : OperationalStatusEnum)
    (replace : bool) : op () :=
  ok ← step_statement;
  if negb ok then cthrow QueryExecutionException
  else
    s ← cget;
    cwhen (replace || negb (bool_decide (is_Some (availability s !! (evse_id, connector_id)))))
      (cmodify (set_availability (<[(evse_id, connector_id) := status]> (availability s)))).

Definition get_availability (evse_id connector_id : Z) : op OperationalStatusEnum :=
  ok ← step_statement;
  if negb ok then cthrow QueryExecutionException
  else
    s ← cget;
    match availability s !! (evse_id, connector_id) with
    | Some status => mret status
    | None => cthrow RequiredEntryNotFoundException
    end.

Definition insert_cs_availability (status : OperationalStatusEnum) (replace : bool) : op () :=
  insert_availability 0 0 status replace.
Definition get_cs_availability : op OperationalStatusEnum := get_availability 0 0.
Definition db_assert (b : bool) : op () := clift (if b then Ret tt else Undef).
Definition insert_evse_availability (evse_id : Z) (status : OperationalStatusEnum) (replace : bool) :
    op () := db_assert (0 <? evse_id) ;; insert_availability evse_id 0 status replace.
Definition get_evse_availability (evse_id : Z) : op OperationalStatusEnum :=
  db_assert (0 <? evse_id) ;; get_availability evse_id 0.
Definition insert_connector_availability (evse_id connector_id : Z) (status : OperationalStatusEnum)
    (replace : bool) : op () :=
  db_assert (0 <? evse_id) ;; db_assert (0 <? connector_id) ;;
  insert_availability evse_id connector_id status replace.
Definition get_connector_availability (evse_id connector_id : Z) : op OperationalStatusEnum :=
  db_assert (0 <? evse_id) ;; db_assert (0 <? connector_id) ;;
  get_availability evse_id connector_id.

(** ** Access to the vectors *)
Definition clamp_to_int32 (n : nat) : Z := Z.min (Z.of_nat n) (2 ^ 31 - 1).
Definition index (id : Z) : nat := Z.to_nat (id - 1).
Definition at_index {A} (l : list A) (i : nat) : op A :=
  clift (match l !! i with Some a => Ret a | None => Undef end).

Definition num_evses : op Z := s ← cget; mret (clamp_to_int32 (length (evses s))).

Definition check_evse_id (evse_id : Z) : op () :=
  n ← num_evses;
  if (evse_id <=? 0) || (n <? evse_id) then cthrow (EvseOutOfRangeException evse_id) else mret tt.

Definition num_connectors (evse_id : Z) : op Z :=
  check_evse_id evse_id ;;
  s ← cget;
  e ← at_index (evses s) (index evse_id);
  mret (clamp_to_int32 (length e.2)).

Definition check_evse_and_connector_id (evse_id connector_id : Z) : op () :=
  check_evse_id evse_id ;;
  n ← num_connectors evse_id;
  if (connector_id <=? 0) || (n <? connector_id)
  then cthrow (ConnectorOutOfRangeException connector_id evse_id) else mret tt.

Definition individual_evse_status (evse_id : Z) : op OperationalStatusEnum :=
  check_evse_id evse_id ;;
  s ← cget;
  e ← at_index (evses s) (index evse_id);
  mret e.1.

Definition individual_connector_status (evse_id connector_id : Z) : op FullConnectorStatus :=
  check_evse_and_connector_id evse_id connector_id ;;
  s ← cget;
  e ← at_index (evses s) (index evse_id);
  at_index e.2 (index connector_id).

Definition last_evse_effective_status (evse_id : Z) : op OperationalStatusEnum :=
  check_evse_id evse_id ;;
  s ← cget;
  e ← at_index (last_effective s) (index evse_id);
  mret e.1.

Definition last_connector_effective_status (evse_id connector_id : Z) : op OperationalStatusEnum :=
  check_evse_and_connector_id evse_id connector_id ;;
  s ← cget;
  e ← at_index (last_effective s) (index evse_id);
  at_index e.2 (index connector_id).

Definition last_connector_reported_status (evse_id connector_id : Z) : op ConnectorStatusEnum :=
  check_evse_and_connector_id evse_id connector_id ;;
  s ← cget;
  e ← at_index (last_reported s) (index evse_id);
  at_index e (index connector_id).

(** Assignments through the references these functions return. *)
Definition assign_evse_status (evse_id : Z) (v : OperationalStatusEnum) (s : csm) : csm :=
  set_evses (alter (λ e, (v, e.2)) (index evse_id) (evses s)) s.
Definition update_connector (evse_id connector_id : Z) (f : FullConnectorStatus → FullConnectorStatus)
    (s : csm) : csm :=
  set_evses (alter (λ e, (e.1, alter f (index connector_id) e.2)) (index evse_id) (evses s)) s.
Definition assign_last_evse (evse_id : Z) (v : OperationalStatusEnum) (s : csm) : csm :=
  set_last_effective (alter (λ e, (v, e.2)) (index evse_id) (last_effective s)) s.
Definition assign_last_connector (evse_id connector_id : Z) (v : OperationalStatusEnum) (s : csm) : csm :=
  set_last_effective
    (alter (λ e, (e.1, <[index connector_id := v]> e.2)) (index evse_id) (last_effective s)) s.
Definition assign_last_reported (evse_id connector_id : Z) (v : ConnectorStatusEnum) (s : csm) : csm :=
  set_last_reported (alter (λ e, <[index connector_id := v]> e) (index evse_id) (last_reported s)) s.

(** ** Individual and effective statuses *)
Definition get_cs_individual_operational_status : op OperationalStatusEnum :=
  s ← cget; mret (cs_individual_status s).
Definition get_evse_individual_operational_status (evse_id : Z) : op OperationalStatusEnum :=
  individual_evse_status evse_id.
Definition get_connector_individual_operational_status (evse_id connector_id : Z) :
    op OperationalStatusEnum :=
  c ← individual_connector_status evse_id connector_id;
  mret (individual_operational_status c).

Definition is_inoperative (st : OperationalStatusEnum) : bool := bool_decide (st = Inoperative).

Definition get_evse_effective_operational_status (evse_id : Z) : op OperationalStatusEnum :=
  check_evse_id evse_id ;;
  s ← cget;
  if is_inoperative (cs_individual_status s) then mret Inoperative
  else individual_evse_status evse_id.

Definition get_connector_effective_operational_status (evse_id connector_id : Z) :
    op OperationalStatusEnum :=
  e ← get_evse_effective_operational_status evse_id;
  if is_inoperative e then mret Inoperative
  else
    c ← individual_connector_status evse_id connector_id;
    mret (individual_operational_status c).

Definition get_connector_effective_status (evse_id connector_id : Z) : op ConnectorStatusEnum :=
  check_evse_and_connector_id evse_id connector_id ;;
  connector ← individual_connector_status evse_id connector_id;
  if faulted connector then mret Faulted
  else
    st ← get_connector_effective_operational_status evse_id connector_id;
    if is_inoperative st then mret Unavailable
    else if unavailable connector then mret Unavailable
    else if occupied connector then mret Occupied
    else if reserved connector then mret Reserved
    else mret Available.

Definition get_cs_persisted_operational_status : op OperationalStatusEnum := get_cs_availability.
Definition get_evse_persisted_operational_status (evse_id : Z) : op OperationalStatusEnum :=
  check_evse_id evse_id ;; get_evse_availability evse_id.
Definition get_connector_persisted_operational_status (evse_id connector_id : Z) :
    op OperationalStatusEnum :=
  check_evse_and_connector_id evse_id connector_id ;;
  get_connector_availability evse_id connector_id.

(** ** Availability callbacks *)
Definition trigger_callbacks_connector (evse_id connector_id : Z) (only_if_state_changed : bool) :
    op () :=
  current ← get_connector_effective_operational_status evse_id connector_id;
  last ← last_connector_effective_status evse_id connector_id;
  cwhen (negb only_if_state_changed || negb (bool_decide (last = current)))
    (s ← cget;
     cwhen (connector_callback s)
       (cemit (connector_effective_availability_changed evse_id connector_id current)) ;;
     cmodify (assign_last_connector evse_id connector_id current)).

Definition trigger_callbacks_evse (evse_id : Z) (only_if_state_changed : bool) : op () :=
  current ← get_evse_effective_operational_status evse_id;
  go ← (if only_if_state_changed then
          last ← last_evse_effective_status evse_id; mret (negb (bool_decide (last = current)))
        else mret true);
  cwhen go
    (s ← cget;
     cwhen (evse_callback s) (cemit (evse_effective_availability_changed evse_id current)) ;;
     last_evse_effective_status evse_id ;;
     cmodify (assign_last_evse evse_id current) ;;
     n ← num_connectors evse_id;
     cfor (seqZ 1 n) (λ connector_id,
       trigger_callbacks_connector evse_id connector_id only_if_state_changed)).

Definition trigger_callbacks_cs (only_if_state_changed : bool) : op () :=
  current ← get_cs_individual_operational_status;
  s ← cget;
  cwhen (negb only_if_state_changed || negb (bool_decide (last_cs s = current)))
    (cwhen (cs_callback s) (cemit (cs_effective_availability_changed current)) ;;
     cmodify (set_last_cs current) ;;
     n ← num_evses;
     cfor (seqZ 1 n) (λ evse_id, trigger_callbacks_evse evse_id only_if_state_changed)).

Definition trigger_all_effective_availability_changed_callbacks : op () :=
  trigger_callbacks_cs false.

(** Registering a callback. *)
Definition set_cs_effective_availability_changed_callback : op () := cmodify (set_cs_callback true).
Definition set_evse_effective_availability_changed_callback : op () :=
  cmodify (set_evse_callback true).
Definition set_connector_effective_availability_changed_callback : op () :=
  cmodify (set_connector_callback true).

(** ** Setters *)

(** [try { ... } catch (const QueryExecutionException&) { log }] *)
Definition log_query_errors (m : op ()) : op () :=
  ccatch m (λ x, match x with QueryExecutionException => Some (mret tt) | _ => None end).

Definition set_cs_individual_operational_status (new_status : OperationalStatusEnum)
    (persist : bool) : op () :=
  cmodify (set_cs_individual_status new_status) ;;
  cwhen persist (log_query_errors (insert_cs_availability new_status true)) ;;
  trigger_callbacks_cs true.

Definition set_evse_individual_operational_status (evse_id : Z) (new_status : OperationalStatusEnum)
    (persist : bool) : op () :=
  individual_evse_status evse_id ;;
  cmodify (assign_evse_status evse_id new_status) ;;
  cwhen persist
    (log_query_errors (insert_evse_availability evse_id new_status true) ;;
     insert_evse_availability evse_id new_status true) ;;
  trigger_callbacks_evse evse_id true.

Definition set_connector_individual_operational_status (evse_id connector_id : Z)
    (new_status : OperationalStatusEnum) (persist : bool) : op () :=
  individual_connector_status evse_id connector_id ;;
  cmodify (update_connector evse_id connector_id (set_individual new_status)) ;;
  cwhen persist
    (log_query_errors (insert_connector_availability evse_id connector_id new_status true)) ;;
  trigger_callbacks_connector evse_id connector_id true.

(** ** Status notifications *)

(** The callback's answer: whether the notification could be sent. *)
Definition call_send_notification (evse_id connector_id : Z) (st : ConnectorStatusEnum)
    (by_trigger : bool) : op bool :=
  cemit (send_connector_status_notification evse_id connector_id st by_trigger) ;;
  s ← cget;
  match send_ok s with
  | [] => mret true
  | ok :: rest => cmodify (set_send_ok rest) ;; mret ok
  end.

Definition send_status_notification_single_connector_internal (evse_id connector_id : Z)
    (only_if_changed by_trigger : bool) : op () :=
  connector_status ← get_connector_effective_status evse_id connector_id;
  last_status ← last_connector_reported_status evse_id connector_id;
  cwhen (negb only_if_changed || negb (bool_decide (last_status = connector_status)))
    (ok ← call_send_notification evse_id connector_id connector_status by_trigger;
     cwhen ok (cmodify (assign_last_reported evse_id connector_id connector_status))).

Definition set_connector_occupied (evse_id connector_id : Z) (is_occupied : bool) : op () :=
  individual_connector_status evse_id connector_id ;;
  cmodify (update_connector evse_id connector_id (set_occupied is_occupied)) ;;
  c ← individual_connector_status evse_id connector_id;
  cwhen (negb (reserved c))
    (send_status_notification_single_connector_internal evse_id connector_id true false).

Definition set_connector_reserved (evse_id connector_id : Z) (is_reserved : bool) : op () :=
  individual_connector_status evse_id connector_id ;;
  cmodify (update_connector evse_id connector_id (set_reserved is_reserved)) ;;
  send_status_notification_single_connector_internal evse_id connector_id true false.

Definition set_connector_faulted (evse_id connector_id : Z) (is_faulted : bool) : op () :=
  individual_connector_status evse_id connector_id ;;
  cmodify (update_connector evse_id connector_id (set_faulted is_faulted)) ;;
  send_status_notification_single_connector_internal evse_id connector_id true false.

Definition set_connector_unavailable (evse_id connector_id : Z) (is_unavailable : bool) : op () :=
  individual_connector_status evse_id connector_id ;;
  cmodify (update_connector evse_id connector_id (set_unavailable is_unavailable)) ;;
  send_status_notification_single_connector_internal evse_id connector_id true false.

Definition for_all_connectors (body : Z → Z → op ()) : op () :=
  n ← num_evses;
  cfor (seqZ 1 n) (λ evse_id,
    m ← num_connectors evse_id; cfor (seqZ 1 m) (λ connector_id, body evse_id connector_id)).

Definition send_status_notification_all_connectors : op () :=
  for_all_connectors (λ evse_id connector_id,
    send_status_notification_single_connector_internal evse_id connector_id false false).

Definition send_status_notification_changed_connectors : op () :=
  for_all_connectors (λ evse_id connector_id,
    send_status_notification_single_connector_internal evse_id connector_id true false).

Definition send_status_notification_single_connector (evse_id connector_id : Z) : op () :=
  send_status_notification_single_connector_internal evse_id connector_id false true.

(** ** Construction *)
Definition read_connector (evse_id connector_id : Z) (acc : list FullConnectorStatus) :
    op (list FullConnectorStatus) :=
  insert_connector_availability evse_id connector_id Operative false ;;
  st ← get_connector_availability evse_id connector_id;
  mret (acc ++ [{| individual_operational_status := st; faulted := false; reserved := false;
                   occupied := false; unavailable := false |}]).

Fixpoint read_connectors (evse_id : Z) (ids : list Z) (acc : list FullConnectorStatus) :
    op (list FullConnectorStatus) :=
  match ids with
  | [] => mret acc
  | connector_id :: ids' =>
      acc' ← read_connector evse_id connector_id acc; read_connectors evse_id ids' acc'
  end.

Definition read_evse (structure : gmap Z Z) (evse_id : Z) : op () :=
  match structure !! evse_id with
  | None => cthrow invalid_argument
  | Some num_connectors =>
      insert_evse_availability evse_id Operative false ;;
      evse_operational ← get_evse_availability evse_id;
      connector_statuses ← read_connectors evse_id (seqZ 1 num_connectors) [];
      s ← cget;
      cmodify (set_evses (evses s ++ [(evse_operational, connector_statuses)]))
  end.

Definition read_all_states_from_database_or_set_defaults (structure : gmap Z Z) : op () :=
  insert_cs_availability Operative false ;;
  st ← get_cs_availability;
  cmodify (set_cs_individual_status st) ;;
  cfor (seqZ 1 (clamp_to_int32 (size structure))) (read_evse structure).

Fixpoint cached_connectors (evse_id : Z) (ids : list Z)
    (acc : list ConnectorStatusEnum * list OperationalStatusEnum) :
    op (list ConnectorStatusEnum * list OperationalStatusEnum) :=
  match ids with
  | [] => mret acc
  | connector_id :: ids' =>
      st ← get_connector_effective_status evse_id connector_id;
      op_st ← get_connector_effective_operational_status evse_id connector_id;
      cached_connectors evse_id ids' (acc.1 ++ [st], acc.2 ++ [op_st])
  end.

Definition initialize_evse_cache (evse_id : Z) : op () :=
  n ← num_connectors evse_id;
  evse_effective ← get_evse_effective_operational_status evse_id;
  '(statuses, op_statuses) ← cached_connectors evse_id (seqZ 1 n) ([], []);
  s ← cget;
  cmodify (set_last_effective (last_effective s ++ [(evse_effective, op_statuses)])) ;;
  cmodify (set_last_reported (last_reported s ++ [statuses])).

Definition initialize_reported_state_cache : op () :=
  st ← get_cs_individual_operational_status;
  cmodify (set_last_cs st) ;;
  n ← num_evses;
  cfor (seqZ 1 n) initialize_evse_cache.

(** The members before the constructor's body runs; the enumerations are not
    initialised in the source and are assigned before they are read. *)
Definition csm_raw (db : gmap (Z * Z) OperationalStatusEnum) (oks sends : list bool) : csm :=
  {| availability := db; statement_ok := oks; send_ok := sends;
     cs_individual_status := Operative; evses := []; last_cs := Operative; last_effective := [];
     last_reported := []; cs_callback := false; evse_callback := false;
     connector_callback := false |}.

Definition ComponentStateManager_new (structure : gmap Z Z) : op () :=
  read_all_states_from_database_or_set_defaults structure ;;
  initialize_reported_state_cache.

End Csm.
