(* ===== verification/CsmFacts.v ===== *)
(** * Properties of the OCPP 2.x component state manager *)

From S2P Require Import Prelude ComponentState.

Import Csm.

(** ** The abstract view: components by id, effective statuses as functions *)
Definition by_id {A} (l : list A) (id : Z) : option A :=
  if 0 <? id then l !! index id else None.

Definition evse_of (s : csm) (e : Z) := by_id (evses s) e.
Definition connector_of (s : csm) (e c : Z) : option FullConnectorStatus :=
  ev ← evse_of s e; by_id ev.2 c.

Definition evse_eff (cs : OperationalStatusEnum) (ev : OperationalStatusEnum * list FullConnectorStatus) :=
  if is_inoperative cs then Inoperative else ev.1.
Definition conn_eff cs (ev : OperationalStatusEnum * list FullConnectorStatus) (c : FullConnectorStatus) :=
  if is_inoperative (evse_eff cs ev) then Inoperative else individual_operational_status c.

(** A fault first, then Inoperative at any level, then the connector's own flags. *)
Definition conn_status cs ev (c : FullConnectorStatus) : ConnectorStatusEnum :=
  if faulted c then Faulted
  else if is_inoperative (conn_eff cs ev c) || unavailable c then Unavailable
  else if occupied c then Occupied
  else if reserved c then Reserved
  else Available.

(** The vectors have the same shape, of a size an id can address. *)
Record wf (s : csm) : Prop := {
  wf_evses : Z.of_nat (length (evses s)) < 2 ^ 31;
  wf_connectors : Forall (λ ev, Z.of_nat (length ev.2) < 2 ^ 31) (evses s);
  wf_effective : map (length ∘ snd) (last_effective s) = map (length ∘ snd) (evses s);
  wf_reported : map length (last_reported s) = map (length ∘ snd) (evses s);
}.

Record sized (s : csm) : Prop := {
  sz_evses : Z.of_nat (length (evses s)) < 2 ^ 31;
  sz_connectors : Forall (λ ev, Z.of_nat (length ev.2) < 2 ^ 31) (evses s);
}.

Lemma wf_sized s : wf s → sized s.
Proof. by intros [H1 H2 _ _]. Qed.
Coercion wf_sized : wf >-> sized.

Lemma by_id_Some {A} (l : list A) id a :
  by_id l id = Some a ↔ 0 < id ∧ l !! index id = Some a.
Proof. unfold by_id. destruct (Z.ltb_spec 0 id); naive_solver lia. Qed.

Lemma by_id_lt {A} (l : list A) id : is_Some (by_id l id) ↔ 0 < id ≤ Z.of_nat (length l).
Proof.
  unfold by_id, index. destruct (Z.ltb_spec 0 id).
  - rewrite lookup_lt_is_Some. lia.
  - split; [by intros []|lia].
Qed.

Lemma at_index_eq {A} (l : list A) i a (s : csm) : l !! i = Some a → at_index l i s = (Ret a, s, []).
Proof. unfold at_index. by intros ->. Qed.

(** ** The accessors on valid and on invalid ids *)
Section accessors.
Context (s : csm) (Hsz : sized s).

Lemma num_evses_eq : num_evses s = (Ret (Z.of_nat (length (evses s))), s, []).
Proof.
  destruct Hsz as [Hn _]. unfold num_evses. rewrite bind_get. unfold clamp_to_int32.
  by rewrite Z.min_l by lia.
Qed.

Lemma check_evse_id_eq e :
  check_evse_id e s =
    (match evse_of s e with Some _ => Ret tt | None => Throw (EvseOutOfRangeException e) end, s, []).
Proof.
  unfold check_evse_id. cstep num_evses_eq.
  pose proof (by_id_lt (evses s) e) as Hlt. unfold evse_of.
  destruct (Z.leb_spec e 0), (Z.ltb_spec (Z.of_nat (length (evses s))) e),
    (by_id (evses s) e) as [ev|]; try done; exfalso.
  all: first [ destruct (proj1 Hlt); [by eexists|lia] | destruct (proj2 Hlt) as [? [=]]; lia ].
Qed.

Section evse.
Context (e : Z) (ev : OperationalStatusEnum * list FullConnectorStatus).
Hypothesis Hev : evse_of s e = Some ev.

Lemma check_evse_ok : check_evse_id e s = (Ret tt, s, []).
Proof. rewrite check_evse_id_eq. by rewrite Hev. Qed.

Lemma evse_lookup : evses s !! index e = Some ev.
Proof. by apply by_id_Some in Hev as [_ ?]. Qed.

Lemma num_connectors_eq : num_connectors e s = (Ret (Z.of_nat (length ev.2)), s, []).
Proof.
  unfold num_connectors. cstep check_evse_ok. cprim.
  cstep (at_index_eq _ _ _ s evse_lookup).
  assert (Z.of_nat (length ev.2) < 2 ^ 31) as Hn.
  { destruct Hsz as [_ Hc]. rewrite Forall_forall in Hc. apply Hc.
    eapply list_elem_of_lookup_2, evse_lookup. }
  unfold clamp_to_int32. by rewrite Z.min_l by lia.
Qed.

Lemma check_both_eq c :
  check_evse_and_connector_id e c s =
    (match by_id ev.2 c with
     | Some _ => Ret tt | None => Throw (ConnectorOutOfRangeException c e) end, s, []).
Proof.
  unfold check_evse_and_connector_id.
  cstep check_evse_ok. cstep num_connectors_eq.
  pose proof (by_id_lt ev.2 c) as Hlt.
  destruct (Z.leb_spec c 0), (Z.ltb_spec (Z.of_nat (length ev.2)) c),
    (by_id ev.2 c) as [cn|]; try done; exfalso.
  all: first [ destruct (proj1 Hlt); [by eexists|lia] | destruct (proj2 Hlt) as [? [=]]; lia ].
Qed.

Lemma individual_evse_eq : individual_evse_status e s = (Ret ev.1, s, []).
Proof.
  unfold individual_evse_status. cstep check_evse_ok. cprim.
  by cstep (at_index_eq _ _ _ s evse_lookup).
Qed.

Lemma get_evse_effective_eq :
  get_evse_effective_operational_status e s = (Ret (evse_eff (cs_individual_status s) ev), s, []).
Proof.
  unfold get_evse_effective_operational_status.
  cstep check_evse_ok. cprim. unfold evse_eff.
  destruct (is_inoperative _); [done|]. apply individual_evse_eq.
Qed.

Section connector.
Context (c : Z) (cn : FullConnectorStatus).
Hypothesis Hcn : by_id ev.2 c = Some cn.

Lemma check_both_ok : check_evse_and_connector_id e c s = (Ret tt, s, []).
Proof. rewrite check_both_eq. by rewrite Hcn. Qed.

Lemma individual_connector_eq : individual_connector_status e c s = (Ret cn, s, []).
Proof.
  unfold individual_connector_status. cstep check_both_ok. cprim.
  cstep (at_index_eq _ _ _ s evse_lookup).
  apply by_id_Some in Hcn as [_ Hl]. by apply at_index_eq.
Qed.

Lemma get_connector_effective_op_eq :
  get_connector_effective_operational_status e c s =
    (Ret (conn_eff (cs_individual_status s) ev cn), s, []).
Proof.
  unfold get_connector_effective_operational_status.
  cstep get_evse_effective_eq. unfold conn_eff.
  destruct (is_inoperative _); [done|]. by cstep individual_connector_eq.
Qed.

Lemma get_connector_effective_eq :
  get_connector_effective_status e c s = (Ret (conn_status (cs_individual_status s) ev cn), s, []).
Proof.
  unfold get_connector_effective_status, conn_status.
  cstep check_both_ok. cstep individual_connector_eq.
  destruct (faulted cn); [done|]. cstep get_connector_effective_op_eq.
  destruct (is_inoperative _), (unavailable cn), (occupied cn), (reserved cn); done.
Qed.
End connector.
End evse.
End accessors.

(** ** The availability callbacks *)

(** The effective statuses of an EVSE and its connectors. *)
Definition eff_evse cs (ev : OperationalStatusEnum * list FullConnectorStatus) :
    OperationalStatusEnum * list OperationalStatusEnum :=
  (evse_eff cs ev, map (conn_eff cs ev) ev.2).

Definition differ {A} `{EqDecision A} (only : bool) (l a : A) : bool :=
  negb only || negb (bool_decide (l = a)).

(** The callbacks for the connectors from the [k]th on, given what was reported. *)
Fixpoint conn_outs (e : Z) (cb only : bool) (eff : FullConnectorStatus → OperationalStatusEnum)
    (k : Z) (cs : list FullConnectorStatus) (ls : list OperationalStatusEnum) : list output :=
  match cs, ls with
  | c :: cs', l :: ls' =>
      (if differ only l (eff c) && cb
       then [connector_effective_availability_changed e k (eff c)] else [])
      ++ conn_outs e cb only eff (k + 1) cs' ls'
  | _, _ => []
  end.

Lemma wf_set_last_effective s v :
  wf s → map (length ∘ snd) v = map (length ∘ snd) (evses s) → wf (set_last_effective v s).
Proof. intros [H1 H2 H3 H4] Hv. by constructor. Qed.

Lemma index_of_pos k : 0 ≤ k → index (k + 1) = Z.to_nat k.
Proof. unfold index. intros. f_equal. lia. Qed.

Lemma by_id_app_length {A} (l1 : list A) a l2 :
  by_id (l1 ++ a :: l2) (Z.of_nat (length l1) + 1) = Some a.
Proof.
  apply by_id_Some. split; [lia|]. rewrite index_of_pos by lia.
  by rewrite Nat2Z.id, list_lookup_middle.
Qed.

Lemma insert_middle {A} (l1 l2 : list A) a b : <[length l1 := b]> (l1 ++ a :: l2) = l1 ++ b :: l2.
Proof. induction l1 as [|x l1 IH]; [done|]. cbn. by f_equal. Qed.

Lemma alter_lookup {A} (f : A → A) i (l : list A) x :
  l !! i = Some x → alter f i l = <[i := f x]> l.
Proof.
  revert i. induction l as [|y l IH]; intros [|i]; cbn; try done; [by intros [= ->]|].
  intros H. f_equal. by apply IH.
Qed.

Lemma insert_app_length {A} (l1 : list A) a b l2 :
  <[index (Z.of_nat (length l1) + 1) := b]> (l1 ++ a :: l2) = l1 ++ b :: l2.
Proof. rewrite index_of_pos, Nat2Z.id by lia. apply insert_middle. Qed.

Lemma lookup_snd_length {A B C} (l : list (A * list B)) (m : list (A * list C)) i ev x :
  map (length ∘ snd) m = map (length ∘ snd) l → l !! i = Some ev → m !! i = Some x →
  length x.2 = length ev.2.
Proof.
  intros Hm Hl Hx. assert (map (length ∘ snd) m !! i = map (length ∘ snd) l !! i) as H by by rewrite Hm.
  rewrite !list_lookup_fmap, Hl, Hx in H. by injection H.
Qed.

Section callbacks.
Context (e : Z) (ev : OperationalStatusEnum * list FullConnectorStatus) (only : bool).

Lemma trigger_connector_eq s c cn lop ls l :
  wf s → evse_of s e = Some ev → by_id ev.2 c = Some cn →
  last_effective s !! index e = Some (lop, ls) → ls !! index c = Some l →
  let cur := conn_eff (cs_individual_status s) ev cn in
  trigger_callbacks_connector e c only s =
    (Ret tt, set_last_effective (<[index e := (lop, <[index c := cur]> ls)]> (last_effective s)) s,
     if differ only l cur && connector_callback s
     then [connector_effective_availability_changed e c cur] else []).
Proof.
  intros Hwf Hev Hcn Hls Hl cur. unfold trigger_callbacks_connector.
  cstep (get_connector_effective_op_eq s Hwf e ev Hev c cn Hcn). fold cur.
  assert (last_connector_effective_status e c s = (Ret l, s, [])) as Hlast.
  { unfold last_connector_effective_status. cstep (check_both_ok s Hwf e ev Hev c cn Hcn). cprim.
    cstep (at_index_eq _ _ _ s Hls). by apply at_index_eq. }
  cstep Hlast. unfold differ. destruct (negb only || negb (bool_decide (l = cur))) eqn:Hgo;
    cbn [cwhen andb].
  - cprim. assert (assign_last_connector e c cur s =
      set_last_effective (<[index e := (lop, <[index c := cur]> ls)]> (last_effective s)) s) as Hs.
    { unfold assign_last_connector. by rewrite (alter_lookup _ _ _ _ Hls). }
    destruct (connector_callback s); cbn [cwhen]; cexpand; by rewrite Hs.
  - apply orb_false_iff in Hgo as [_ Hgo]. apply negb_false_iff, bool_decide_eq_true in Hgo. subst l.
    rewrite (list_insert_id ls _ _ Hl), (list_insert_id _ _ _ Hls). by destruct s.
Qed.

(** The loop over the connectors: [c1] are done, [c2] remain. *)
Lemma connectors_loop c1 c2 l1 l2 lop s :
  wf s → evse_of s e = Some ev → ev.2 = c1 ++ c2 → length l1 = length c1 → length l2 = length c2 →
  last_effective s !! index e = Some (lop, l1 ++ l2) →
  let cs := cs_individual_status s in
  cfor (seqZ (Z.of_nat (length c1) + 1) (Z.of_nat (length c2)))
    (λ c, trigger_callbacks_connector e c only) s =
  (Ret tt,
   set_last_effective (<[index e := (lop, l1 ++ map (conn_eff cs ev) c2)]> (last_effective s)) s,
   conn_outs e (connector_callback s) only (conn_eff cs ev) (Z.of_nat (length c1) + 1) c2 l2).
Proof.
  revert c1 l1 l2 s. induction c2 as [|cn c2 IH]; intros c1 l1 l2 s Hwf Hev Hsplit Hl1 Hl2 Hlast cs.
  { destruct l2; [|done]. cbn. rewrite (list_insert_id _ _ _ Hlast). by destruct s. }
  destruct l2 as [|l l2]; [done|]. rewrite seqZ_cons by (cbn; lia). cbn [cfor].
  assert (by_id ev.2 (Z.of_nat (length c1) + 1) = Some cn) as Hcn by (rewrite Hsplit; apply by_id_app_length).
  assert ((l1 ++ l :: l2) !! index (Z.of_nat (length c1) + 1) = Some l) as Hl.
  { rewrite <- Hl1. by apply (proj1 (by_id_Some _ _ _) (by_id_app_length l1 l l2)). }
  pose proof (trigger_connector_eq s _ cn _ _ l Hwf Hev Hcn Hlast Hl) as Hstep. cbn zeta in Hstep.
  fold cs in Hstep. rewrite <- Hl1 in Hstep at 2. rewrite insert_app_length in Hstep.
  set (s' := set_last_effective _ s) in Hstep.
  assert (wf s') as Hwf'.
  { apply wf_set_last_effective; [done|]. rewrite <- (wf_effective s Hwf).
    rewrite list_fmap_insert. cbn. rewrite list_insert_id; [done|].
    rewrite list_lookup_fmap, Hlast. cbn. by rewrite !length_app. }
  pose proof (lookup_lt_Some _ _ _ Hlast) as Hlt.
  specialize (IH (c1 ++ [cn]) (l1 ++ [conn_eff cs ev cn]) l2 s' Hwf' Hev).
  rewrite <- !app_assoc, !length_app, Hl1 in IH. cbn [length app] in IH.
  specialize (IH Hsplit eq_refl ltac:(by injection Hl2) ltac:(by apply list_lookup_insert_eq)).
  assert (set_last_effective (<[index e := (lop, l1 ++ map (conn_eff cs ev) (cn :: c2))]>
            (last_effective s)) s =
          set_last_effective (<[index e := (lop, l1 ++ conn_eff cs ev cn :: map (conn_eff cs ev) c2)]>
            (last_effective s')) s') as ->.
  { cbn. by rewrite list_insert_insert_eq. }
  replace (Z.of_nat (length c1 + 1) + 1) with (Z.succ (Z.of_nat (length c1) + 1)) in IH by lia.
  replace (Z.of_nat (length c2)) with (Z.pred (Z.of_nat (length (cn :: c2)))) in IH by (cbn; lia).
  etransitivity; [eapply bind_eq; [exact Hstep|exact IH]|]. cbn [conn_outs].
  replace (Z.of_nat (length c1) + 1 + 1) with (Z.succ (Z.of_nat (length c1) + 1)) by lia.
  by rewrite <- app_assoc.
Qed.

Lemma trigger_evse_eq s lop ls :
  wf s → evse_of s e = Some ev → last_effective s !! index e = Some (lop, ls) →
  let cs := cs_individual_status s in
  trigger_callbacks_evse e only s =
    if differ only lop (evse_eff cs ev) then
      (Ret tt, set_last_effective (<[index e := eff_evse cs ev]> (last_effective s)) s,
       (if evse_callback s then [evse_effective_availability_changed e (evse_eff cs ev)] else [])
       ++ conn_outs e (connector_callback s) only (conn_eff cs ev) 1 ev.2 ls)
    else (Ret tt, s, []).
Proof.
  intros Hwf Hev Hlast cs. unfold trigger_callbacks_evse.
  cstep (get_evse_effective_eq s Hwf e ev Hev). fold cs.
  set (cur := evse_eff cs ev).
  assert (last_evse_effective_status e s = (Ret lop, s, [])) as Hle.
  { unfold last_evse_effective_status. cstep (check_evse_ok s Hwf e ev Hev). cprim.
    by cstep (at_index_eq _ _ _ s Hlast). }
  assert ((if only then last ← last_evse_effective_status e; mret (negb (bool_decide (last = cur)))
           else mret true) s = (Ret (differ only lop cur), s, [])) as Hgo.
  { unfold differ. destruct only; [|done]. by cstep Hle. }
  cstep Hgo. destruct (differ only lop cur); [|done]. cbn [cwhen]. cprim.
  set (s1 := set_last_effective (<[index e := (cur, ls)]> (last_effective s)) s).
  assert (assign_last_evse e cur s = s1) as Hs1.
  { unfold assign_last_evse. by rewrite (alter_lookup _ _ _ _ Hlast). }
  assert (wf s1) as Hwf1.
  { apply wf_set_last_effective; [done|]. rewrite <- (wf_effective s Hwf), list_fmap_insert.
    rewrite list_insert_id; [done|]. by rewrite list_lookup_fmap, Hlast. }
  pose proof (connectors_loop [] ev.2 [] ls cur s1 Hwf1 Hev eq_refl eq_refl) as Hloop.
  change (Z.of_nat (length []) + 1) with 1 in Hloop. cbn [app] in Hloop.
  specialize (Hloop (lookup_snd_length _ _ _ _ _ (wf_effective s Hwf) (evse_lookup s e ev Hev) Hlast)
    ltac:(apply list_lookup_insert_eq; by eapply lookup_lt_Some)).
  assert ((last_evse_effective_status e ;; cmodify (assign_last_evse e cur) ;;
           n ← num_connectors e; cfor (seqZ 1 n) (λ c, trigger_callbacks_connector e c only)) s =
    (Ret tt, set_last_effective (<[index e := eff_evse cs ev]> (last_effective s)) s,
     conn_outs e (connector_callback s) only (conn_eff cs ev) 1 ev.2 ls)) as Hrest.
  { cstep Hle. cprim. rewrite Hs1. cstep (num_connectors_eq s1 Hwf1 e ev Hev).
    rewrite Hloop. cbn. by rewrite list_insert_insert_eq. }
  destruct (evse_callback s); cbn [cwhen]; [|by cprim].
  by apply (bind_eq _ _ s tt s _ _ _ _ eq_refl).
Qed.
End callbacks.

(** The loop over the EVSEs. *)
Definition refresh (only : bool) cs (ev : OperationalStatusEnum * list FullConnectorStatus)
    (l : OperationalStatusEnum * list OperationalStatusEnum) :=
  if differ only l.1 (evse_eff cs ev) then eff_evse cs ev else l.

Definition evse_out (ecb ccb only : bool) cs (e : Z)
    (ev : OperationalStatusEnum * list FullConnectorStatus)
    (l : OperationalStatusEnum * list OperationalStatusEnum) : list output :=
  if differ only l.1 (evse_eff cs ev) then
    (if ecb then [evse_effective_availability_changed e (evse_eff cs ev)] else [])
    ++ conn_outs e ccb only (conn_eff cs ev) 1 ev.2 l.2
  else [].

Fixpoint evse_outs (ecb ccb only : bool) cs (k : Z)
    (E : list (OperationalStatusEnum * list FullConnectorStatus))
    (L : list (OperationalStatusEnum * list OperationalStatusEnum)) : list output :=
  match E, L with
  | ev :: E', l :: L' => evse_out ecb ccb only cs k ev l ++ evse_outs ecb ccb only cs (k + 1) E' L'
  | _, _ => []
  end.

Lemma refresh_length only cs ev l :
  length l.2 = length ev.2 → length (refresh only cs ev l).2 = length ev.2.
Proof. unfold refresh. destruct (differ _ _ _); [|done]. intros _. cbn. apply length_map. Qed.

(** One EVSE, whether or not its status changed. *)
Lemma trigger_evse_refresh s e ev l only :
  wf s → evse_of s e = Some ev → last_effective s !! index e = Some l →
  let cs := cs_individual_status s in
  trigger_callbacks_evse e only s =
    (Ret tt, set_last_effective (<[index e := refresh only cs ev l]> (last_effective s)) s,
     evse_out (evse_callback s) (connector_callback s) only cs e ev l).
Proof.
  intros Hwf Hev Hl cs. destruct l as [lop ls].
  rewrite (trigger_evse_eq e ev only s lop ls Hwf Hev Hl). unfold refresh, evse_out. cbn [fst snd].
  fold cs. destruct (differ only lop (evse_eff cs ev)); [done|].
  rewrite (list_insert_id _ _ _ Hl). by destruct s.
Qed.

Lemma evses_loop only E1 E2 L1 L2 s :
  wf s → evses s = E1 ++ E2 → length L1 = length E1 → length L2 = length E2 →
  last_effective s = L1 ++ L2 →
  let cs := cs_individual_status s in
  cfor (seqZ (Z.of_nat (length E1) + 1) (Z.of_nat (length E2)))
    (λ e, trigger_callbacks_evse e only) s =
  (Ret tt, set_last_effective (L1 ++ zip_with (refresh only cs) E2 L2) s,
   evse_outs (evse_callback s) (connector_callback s) only cs (Z.of_nat (length E1) + 1) E2 L2).
Proof.
  revert E1 L1 L2 s. induction E2 as [|ev E2 IH]; intros E1 L1 L2 s Hwf HE HL1 HL2 Hlast cs.
  { destruct L2; [|done]. cbn. rewrite <- Hlast. by destruct s. }
  destruct L2 as [|l L2]; [done|]. rewrite seqZ_cons by (cbn; lia). cbn [cfor].
  assert (evse_of s (Z.of_nat (length E1) + 1) = Some ev) as Hev.
  { unfold evse_of. rewrite HE. apply by_id_app_length. }
  assert (last_effective s !! index (Z.of_nat (length E1) + 1) = Some l) as Hl.
  { rewrite Hlast, <- HL1. by apply (proj1 (by_id_Some _ _ _) (by_id_app_length L1 l L2)). }
  pose proof (trigger_evse_refresh s _ ev l only Hwf Hev Hl) as Hstep. cbn zeta in Hstep.
  fold cs in Hstep. rewrite Hlast in Hstep. rewrite <- HL1 in Hstep at 2.
  rewrite insert_app_length in Hstep. set (s' := set_last_effective _ s) in Hstep.
  assert (length l.2 = length ev.2) as Hlen.
  { eapply lookup_snd_length; [exact (wf_effective s Hwf)|by eapply evse_lookup|exact Hl]. }
  assert (wf s') as Hwf'.
  { apply wf_set_last_effective; [done|]. rewrite <- (wf_effective s Hwf), Hlast, !map_app. cbn.
    by rewrite (refresh_length only cs ev l Hlen), Hlen. }
  specialize (IH (E1 ++ [ev]) (L1 ++ [refresh only cs ev l]) L2 s' Hwf').
  rewrite <- !app_assoc, !length_app, HL1 in IH. cbn [length app] in IH.
  specialize (IH HE eq_refl ltac:(by injection HL2) eq_refl).
  replace (Z.of_nat (length E1 + 1) + 1) with (Z.succ (Z.of_nat (length E1) + 1)) in IH by lia.
  replace (Z.of_nat (length E2)) with (Z.pred (Z.of_nat (length (ev :: E2)))) in IH by (cbn; lia).
  etransitivity; [eapply bind_eq; [exact Hstep|exact IH]|]. cbn [evse_outs zip_with].
  replace (Z.of_nat (length E1) + 1 + 1) with (Z.succ (Z.of_nat (length E1) + 1)) by lia.
  by rewrite <- app_assoc.
Qed.

Lemma trigger_cs_eq s only :
  wf s →
  let cs := cs_individual_status s in
  trigger_callbacks_cs only s =
    if differ only (last_cs s) cs then
      (Ret tt,
       set_last_effective (zip_with (refresh only cs) (evses s) (last_effective s)) (set_last_cs cs s),
       (if cs_callback s then [cs_effective_availability_changed cs] else [])
       ++ evse_outs (evse_callback s) (connector_callback s) only cs 1 (evses s) (last_effective s))
    else (Ret tt, s, []).
Proof.
  intros Hwf cs. unfold trigger_callbacks_cs, get_cs_individual_operational_status.
  rewrite (bind_pure _ _ s cs eq_refl). cbv beta. cprim. unfold differ.
  destruct (negb only || negb (bool_decide (last_cs s = cs))); [|done]. cbn [cwhen].
  set (s1 := set_last_cs cs s). assert (wf s1) as Hwf1 by by destruct Hwf; constructor.
  assert ((cmodify (set_last_cs cs) ;; n ← num_evses;
           cfor (seqZ 1 n) (λ e, trigger_callbacks_evse e only)) s =
    (Ret tt, set_last_effective (zip_with (refresh only cs) (evses s) (last_effective s)) s1,
     evse_outs (evse_callback s) (connector_callback s) only cs 1 (evses s) (last_effective s)))
    as Hrest.
  { cprim. fold s1. cstep (num_evses_eq s1 Hwf1).
    pose proof (f_equal length (wf_effective s Hwf)) as Hlen. rewrite !length_map in Hlen.
    exact (evses_loop only [] (evses s1) [] (last_effective s1) s1 Hwf1 eq_refl eq_refl Hlen eq_refl). }
  destruct (cs_callback s); cbn [cwhen]; [|by rewrite bind_ret].
  by apply (bind_eq _ _ s tt s _ _ _ _ eq_refl).
Qed.

(** ** Coherence of the reported statuses *)
Record coherent (s : csm) : Prop := {
  co_wf : wf s;
  co_cs : last_cs s = cs_individual_status s;
  co_effective : last_effective s = map (eff_evse (cs_individual_status s)) (evses s);
}.

(** Refreshing on change is enough: an EVSE whose effective status stays the same
    keeps the statuses of its connectors. *)
Lemma refresh_coherent only old new ev :
  old ≠ new → refresh only new ev (eff_evse old ev) = eff_evse new ev.
Proof.
  intros Hne. unfold refresh, differ. cbn [eff_evse fst].
  destruct (negb only || negb (bool_decide (evse_eff old ev = evse_eff new ev))) eqn:Hd; [done|].
  apply orb_false_iff in Hd as [_ Hd]. apply negb_false_iff, bool_decide_eq_true in Hd.
  unfold eff_evse. rewrite Hd. f_equal. apply map_ext. intros c. unfold conn_eff. by rewrite Hd.
Qed.

Lemma refresh_same only cs ev : refresh only cs ev (eff_evse cs ev) = eff_evse cs ev.
Proof. unfold refresh. by destruct (differ _ _ _). Qed.

(** An EVSE of which only the own status changed. *)
Lemma refresh_evse_status only cs st ev :
  refresh only cs (st, ev.2) (eff_evse cs ev) = eff_evse cs (st, ev.2).
Proof.
  unfold refresh, differ. cbn [eff_evse fst].
  destruct (negb only || _) eqn:Hd; [done|].
  apply orb_false_iff in Hd as [_ Hd]. apply negb_false_iff, bool_decide_eq_true in Hd.
  unfold eff_evse. rewrite Hd. f_equal. apply map_ext. intros c. unfold conn_eff. by rewrite Hd.
Qed.

Lemma zip_with_refresh only old new E :
  (old = new ∨ old ≠ new) →
  zip_with (refresh only new) E (map (eff_evse old) E) = map (eff_evse new) E.
Proof.
  intros Hd. induction E as [|ev E IH]; [done|]. cbn. rewrite IH. f_equal.
  destruct Hd as [->|Hne]; [apply refresh_same|by apply refresh_coherent].
Qed.

(** The database only changes its own fields. *)
Definition db_only (s s' : csm) : Prop :=
  ∃ av ok, s' = set_statement_ok ok (set_availability av s).

Lemma db_only_coherent s s' : db_only s s' → coherent s → coherent s'.
Proof. intros (av & ok & ->) [[H1 H2 H3 H4] H5 H6]. by repeat constructor. Qed.
Lemma db_only_wf s s' : db_only s s' → wf s → wf s'.
Proof. intros (av & ok & ->) [H1 H2 H3 H4]. by constructor. Qed.

Lemma step_statement_eq s :
  step_statement s =
    (Ret (default true (head (statement_ok s))), set_statement_ok (tail (statement_ok s)) s, []).
Proof.
  unfold step_statement. rewrite bind_get. destruct (statement_ok s) eqn:Hok; [|done].
  cbn. rewrite <- Hok. by destruct s.
Qed.

Lemma insert_availability_db e c st replace s :
  ∃ r s', insert_availability e c st replace s = (r, s', []) ∧ db_only s s' ∧
          (r = Ret tt ∨ r = Throw QueryExecutionException).
Proof.
  unfold insert_availability, mbind, cmd_mbind, cmd_bind. rewrite step_statement_eq.
  set (s1 := set_statement_ok _ s).
  assert (∀ av, db_only s (set_availability av s1)) as Hdb by (intros av; by eexists _, _).
  assert (db_only s s1) as Hdb1 by (exists (availability s), (tail (statement_ok s)); by destruct s).
  destruct (default true (head (statement_ok s))); cbn; [|by eauto 8].
  destruct (replace || _); cbn; eauto 8.
Qed.

Lemma log_insert_db (m : op ()) s :
  (∃ r s', m s = (r, s', []) ∧ db_only s s' ∧ (r = Ret tt ∨ r = Throw QueryExecutionException)) →
  ∃ s', log_query_errors m s = (Ret tt, s', []) ∧ db_only s s'.
Proof.
  intros (r & s' & E & Hdb & Hr). exists s'. split; [|done]. unfold log_query_errors, ccatch.
  rewrite E. by destruct Hr as [-> | ->].
Qed.

Lemma insert_evse_db e st replace s :
  0 < e →
  ∃ r s', insert_evse_availability e st replace s = (r, s', []) ∧ db_only s s' ∧
          (r = Ret tt ∨ r = Throw QueryExecutionException).
Proof.
  intros He. unfold insert_evse_availability, db_assert. rewrite (proj2 (Z.ltb_lt 0 e) He).
  rewrite (bind_pure _ _ s tt eq_refl). apply insert_availability_db.
Qed.

Lemma insert_connector_db e c st replace s :
  0 < e → 0 < c →
  ∃ r s', insert_connector_availability e c st replace s = (r, s', []) ∧ db_only s s' ∧
          (r = Ret tt ∨ r = Throw QueryExecutionException).
Proof.
  intros He Hc. unfold insert_connector_availability, db_assert.
  rewrite (proj2 (Z.ltb_lt 0 e) He), (proj2 (Z.ltb_lt 0 c) Hc).
  do 2 rewrite (bind_pure _ _ s tt eq_refl). apply insert_availability_db.
Qed.

(** A status is persisted, or the failure logged, before the callbacks. *)
Lemma cwhen_log_db (persist : bool) (m : op ()) s :
  (∃ r s', m s = (r, s', []) ∧ db_only s s' ∧ (r = Ret tt ∨ r = Throw QueryExecutionException)) →
  ∃ s', cwhen persist (log_query_errors m) s = (Ret tt, s', []) ∧ db_only s s'.
Proof.
  intros H. destruct persist; [by apply log_insert_db|]. exists s. split; [done|].
  exists (availability s), (statement_ok s). by destruct s.
Qed.

(** ** Which connectors' callbacks are called *)
Lemma conn_outs_elem e ccb eff k cs ls o :
  length ls = length cs →
  o ∈ conn_outs e ccb true eff k cs ls ↔
  ∃ j cn l, cs !! j = Some cn ∧ ls !! j = Some l ∧ ccb = true ∧ l ≠ eff cn ∧
            o = connector_effective_availability_changed e (k + Z.of_nat j) (eff cn).
Proof.
  revert k ls. induction cs as [|cn cs IH]; intros k [|l ls] Hlen; try done; cbn [conn_outs].
  { split; [set_solver|]. by intros (j & ? & ? & ? & _). }
  rewrite elem_of_app, (IH (k + 1) ls) by by injection Hlen. unfold differ. cbn [negb orb].
  split.
  - intros [H|(j & c & l' & H1 & H2 & H3 & H4 & ->)].
    + destruct (bool_decide_reflect (l = eff cn)) as [|Hne], ccb; cbn in H; try set_solver.
      apply list_elem_of_singleton in H as ->. exists 0%nat, cn, l. rewrite Z.add_0_r. done.
    + exists (S j), c, l'. split_and!; try done. f_equal. lia.
  - intros (j & c & l' & H1 & H2 & -> & H4 & ->). destruct j as [|j]; cbn in H1, H2.
    + injection H1 as ->. injection H2 as ->. left. rewrite bool_decide_false by done. cbn.
      rewrite Z.add_0_r. set_solver.
    + right. exists j, c, l'. split_and!; try done. f_equal. lia.
Qed.

(** What was reported for an EVSE is out of date only if its own status is. *)
Definition stale_ok cs ev (l : OperationalStatusEnum * list OperationalStatusEnum) : Prop :=
  length l.2 = length ev.2 ∧ (l.1 = evse_eff cs ev → l = eff_evse cs ev).

Lemma evse_out_connector ecb ccb cs e ev l e' c st :
  stale_ok cs ev l →
  connector_effective_availability_changed e' c st ∈ evse_out ecb ccb true cs e ev l ↔
  e' = e ∧ ccb = true ∧ ∃ cn lc, by_id ev.2 c = Some cn ∧ by_id l.2 c = Some lc ∧
                                 st = conn_eff cs ev cn ∧ lc ≠ st.
Proof.
  intros [Hlen Hst]. unfold evse_out, differ. cbn [negb orb].
  destruct (bool_decide_reflect (l.1 = evse_eff cs ev)) as [Heq|Hne]; cbn [negb].
  - split; [set_solver|]. intros (_ & _ & cn & lc & Hcn & Hlc & -> & Hd). destruct Hd.
    rewrite (Hst Heq) in Hlc. cbn in Hlc. apply by_id_Some in Hcn as [_ Hcn].
    apply by_id_Some in Hlc as [_ Hlc]. rewrite list_lookup_fmap, Hcn in Hlc. by injection Hlc.
  - rewrite elem_of_app, conn_outs_elem by done. split.
    + intros [H|(j & cn & lc & H1 & H2 & H3 & H4 & [= -> -> ->])]; [destruct ecb; set_solver|].
      split_and!; [done|done|]. exists cn, lc. rewrite !by_id_Some. unfold index.
      replace (Z.to_nat (1 + Z.of_nat j - 1)) with j by lia. split_and!; try done; lia.
    + intros (-> & -> & cn & lc & [Hc Hcn]%by_id_Some & [_ Hlc]%by_id_Some & -> & Hd). right.
      exists (index c), cn, lc. split_and!; try done. f_equal. unfold index. lia.
Qed.

Lemma evse_outs_elem ecb ccb only cs k E L o :
  o ∈ evse_outs ecb ccb only cs k E L ↔
  ∃ j ev l, E !! j = Some ev ∧ L !! j = Some l ∧
            o ∈ evse_out ecb ccb only cs (k + Z.of_nat j) ev l.
Proof.
  revert k L. induction E as [|ev E IH]; intros k [|l L]; cbn [evse_outs];
    try (split; [set_solver|]; intros (j & ? & ? & H1 & H2 & _); by destruct j).
  rewrite elem_of_app, IH. split.
  - intros [H|(j & ev' & l' & H1 & H2 & H)].
    + exists 0%nat, ev, l. by rewrite Z.add_0_r.
    + exists (S j), ev', l'. split_and!; [done|done|]. by replace (k + Z.of_nat (S j)) with (k + 1 + Z.of_nat j) by lia.
  - intros ([|j] & ev' & l' & H1 & H2 & H).
    + injection H1 as ->. injection H2 as ->. left. by rewrite Z.add_0_r in H.
    + right. exists j, ev', l'. split_and!; [done|done|].
      by replace (k + 1 + Z.of_nat j) with (k + Z.of_nat (S j)) by lia.
Qed.

(** The effective operational status of a connector. *)
Definition evse_eff_of cs (ev : OperationalStatusEnum * list FullConnectorStatus) (c : Z) :
    option OperationalStatusEnum := conn_eff cs ev <$> by_id ev.2 c.
Definition eff_of (s : csm) (e c : Z) : option OperationalStatusEnum :=
  ev ← evse_of s e; evse_eff_of (cs_individual_status s) ev c.

Lemma by_id_map {A B} (f : A → B) l id : by_id (map f l) id = f <$> by_id l id.
Proof. unfold by_id. destruct (0 <? id); [apply list_lookup_fmap|done]. Qed.

Lemma by_id_length {A B} (l : list A) (m : list B) id :
  length l = length m → is_Some (by_id l id) ↔ is_Some (by_id m id).
Proof. intros H. by rewrite !by_id_lt, H. Qed.

(** An EVSE reported as [eff_evse old ev0] that is now [ev] under [cs]. *)
Lemma evse_out_tells ecb ccb old cs e ev0 ev e' c st :
  stale_ok cs ev (eff_evse old ev0) →
  connector_effective_availability_changed e' c st ∈ evse_out ecb ccb true cs e ev (eff_evse old ev0) ↔
  e' = e ∧ ccb = true ∧ evse_eff_of cs ev c = Some st ∧ evse_eff_of old ev0 c ≠ Some st.
Proof.
  intros Hst. rewrite evse_out_connector by done. destruct Hst as [Hlen _]. cbn in Hlen.
  unfold evse_eff_of. cbn [eff_evse snd]. rewrite by_id_map. split.
  - intros (-> & -> & cn & lc & -> & -> & -> & Hd). cbn. split_and!; congruence.
  - intros (-> & -> & Hnow & Hd). split_and!; [done|done|].
    destruct (by_id ev.2 c) as [cn|] eqn:Hcn; [|done]. injection Hnow as <-.
    assert (is_Some (conn_eff old ev0 <$> by_id ev0.2 c)) as [lc Hlc].
    { rewrite <- by_id_map. apply (by_id_length _ ev.2); [done|by exists cn]. }
    exists cn, lc. split_and!; try done. congruence.
Qed.

(** What a change of individual statuses owes its user: a connector's callback is
    called iff its effective status changed. *)
Definition tells_changes (s s' : csm) (t : list output) : Prop :=
  ∀ e c st, connector_effective_availability_changed e c st ∈ t ↔
    connector_callback s = true ∧ eff_of s' e c = Some st ∧ eff_of s e c ≠ Some st.

Lemma tells_nothing s s' : (∀ e c, eff_of s' e c = eff_of s e c) → tells_changes s s' [].
Proof. intros H e c st. rewrite H. split; [set_solver|]. by intros (_ & ? & ?). Qed.

Lemma stale_new_cs old new ev : old ≠ new → stale_ok new ev (eff_evse old ev).
Proof.
  intros Hne. split; [apply length_map|]. intros H.
  pose proof (refresh_coherent true _ _ ev Hne) as Hr. unfold refresh, differ in Hr.
  cbn [negb orb] in Hr. by rewrite bool_decide_true in Hr by done.
Qed.

(** The callbacks of a change of the station's status. *)
Lemma evse_outs_tell ecb ccb old new E e c st :
  old ≠ new →
  connector_effective_availability_changed e c st ∈
    evse_outs ecb ccb true new 1 E (map (eff_evse old) E) ↔
  ccb = true ∧ (ev ← by_id E e; evse_eff_of new ev c) = Some st ∧
  (ev ← by_id E e; evse_eff_of old ev c) ≠ Some st.
Proof.
  intros Hne. rewrite evse_outs_elem. split.
  - intros (j & ev & l & HE & HL & H). rewrite list_lookup_fmap, HE in HL. injection HL as <-.
    apply evse_out_tells in H as (-> & Hcc & H1 & H2); [|by apply stale_new_cs].
    assert (by_id E (1 + Z.of_nat j) = Some ev) as ->; [|done].
    apply by_id_Some. unfold index. replace (Z.to_nat _) with j by lia. split; [lia|done].
  - intros (Hcc & H1 & H2). destruct (by_id E e) as [ev|] eqn:Hev; [|done].
    apply by_id_Some in Hev as [He Hev]. exists (index e), ev, (eff_evse old ev).
    split_and!; [done|by rewrite list_lookup_fmap, Hev|].
    apply evse_out_tells; [by apply stale_new_cs|]. split_and!; try done. unfold index. lia.
Qed.

Lemma set_cs_ok s new persist :
  coherent s →
  ∃ s' t, set_cs_individual_operational_status new persist s = (Ret tt, s', t) ∧
          coherent s' ∧ tells_changes s s' t.
Proof.
  intros [Hwf Hcs Heff]. unfold set_cs_individual_operational_status. cprim.
  set (s1 := set_cs_individual_status new s).
  assert (wf s1) as Hwf1 by by destruct Hwf; constructor.
  destruct (cwhen_log_db persist (insert_cs_availability new true) s1) as (s2 & E2 & Hdb).
  { apply insert_availability_db. }
  pose proof (db_only_wf _ _ Hdb Hwf1) as Hwf2. destruct Hdb as (av & ok & Hs2).
  assert (cs_individual_status s2 = new ∧ evses s2 = evses s ∧
          last_effective s2 = map (eff_evse (cs_individual_status s)) (evses s) ∧
          last_cs s2 = cs_individual_status s ∧ connector_callback s2 = connector_callback s)
    as (Hnew & Hev & Hle & Hlc & Hcb) by (subst s2; cbn; eauto).
  pose proof (trigger_cs_eq s2 true Hwf2) as E. cbn zeta in E. rewrite Hnew, Hev, Hle, Hlc in E.
  unfold differ in E. cbn [negb orb] in E.
  rewrite zip_with_refresh in E by (destruct (decide (cs_individual_status s = new)); auto).
  destruct (bool_decide_reflect (cs_individual_status s = new)) as [Hsame|Hne]; cbn [negb] in E;
    do 2 eexists; (split; [eapply bind_eq; [exact E2|exact E]|]); cbn [app].
  - split; [constructor; [done|congruence|by rewrite Hnew, Hev, Hle, Hsame]|].
    apply tells_nothing. intros e c. unfold eff_of, evse_of. by rewrite Hev, Hnew, Hsame.
  - split; [constructor; cbn|].
    + apply wf_set_last_effective; [by destruct Hwf2; constructor|]. cbn.
      rewrite Hev, map_map. apply map_ext. intros ev. cbn. apply length_map.
    + done.
    + by rewrite Hnew, Hev.
    + intros e c st. rewrite elem_of_app, Hcb, evse_outs_tell by done. unfold eff_of, evse_of. cbn.
      rewrite Hev, Hnew. split; [|by right]. intros [H|H]; [destruct (cs_callback s2); set_solver|done].
Qed.

(** A change within one EVSE. *)
Lemma by_id_insert {A} (l : list A) id a id' x :
  by_id l id = Some x → by_id (<[index id := a]> l) id' = if id' =? id then Some a else by_id l id'.
Proof.
  intros [Hpos Hl]%by_id_Some. unfold by_id. destruct (Z.eqb_spec id' id) as [->|Hne].
  - rewrite (proj2 (Z.ltb_lt 0 id) Hpos). apply list_lookup_insert_eq. by eapply lookup_lt_Some.
  - destruct (Z.ltb_spec 0 id'); [|done]. apply list_lookup_insert_ne. unfold index. lia.
Qed.

Lemma wf_set_evse s e ev ev' :
  wf s → evse_of s e = Some ev → length ev'.2 = length ev.2 →
  wf (set_evses (<[index e := ev']> (evses s)) s).
Proof.
  intros [H1 H2 H3 H4] [_ Hev]%by_id_Some Hlen.
  assert (map (length ∘ snd) (<[index e := ev']> (evses s)) = map (length ∘ snd) (evses s)) as Hmap.
  { rewrite list_fmap_insert. apply list_insert_id. rewrite list_lookup_fmap, Hev. cbn. by rewrite Hlen. }
  constructor; cbn; [by rewrite length_insert| |by rewrite Hmap|by rewrite Hmap].
  apply Forall_insert; [done|]. rewrite Hlen. eapply Forall_lookup in H2; eauto.
Qed.

Lemma eff_of_set_evse s s' e ev ev' e' c :
  evse_of s e = Some ev → evses s' = <[index e := ev']> (evses s) →
  cs_individual_status s' = cs_individual_status s →
  eff_of s' e' c = if e' =? e then evse_eff_of (cs_individual_status s) ev' c else eff_of s e' c.
Proof.
  intros Hev Hs' Hcs. unfold eff_of, evse_of. rewrite Hs', Hcs, (by_id_insert _ _ _ _ _ Hev).
  by destruct (e' =? e).
Qed.

Lemma one_evse_tells s s' e ev ev' ecb :
  let cs := cs_individual_status s in
  evse_of s e = Some ev → evses s' = <[index e := ev']> (evses s) → cs_individual_status s' = cs →
  stale_ok cs ev' (eff_evse cs ev) →
  tells_changes s s' (evse_out ecb (connector_callback s) true cs e ev' (eff_evse cs ev)).
Proof.
  intros cs Hev Hs' Hcs Hst e' c st. rewrite evse_out_tells by done.
  rewrite (eff_of_set_evse s s' e ev ev' e' c Hev Hs' Hcs). fold cs.
  destruct (Z.eqb_spec e' e) as [->|Hne].
  - unfold eff_of at 1. rewrite Hev. cbn. fold cs. naive_solver.
  - naive_solver.
Qed.

Lemma stale_evse_status cs st ev : stale_ok cs (st, ev.2) (eff_evse cs ev).
Proof.
  split; [apply length_map|]. intros H.
  pose proof (refresh_evse_status true cs st ev) as Hr. unfold refresh, differ in Hr.
  cbn [negb orb] in Hr. by rewrite bool_decide_true in Hr by done.
Qed.

Lemma trigger_one_evse s s1 e ev st :
  let cs := cs_individual_status s in
  coherent s → evse_of s e = Some ev →
  db_only (set_evses (<[index e := (st, ev.2)]> (evses s)) s) s1 →
  ∃ s' t, trigger_callbacks_evse e true s1 = (Ret tt, s', t) ∧ coherent s' ∧ tells_changes s s' t.
Proof.
  intros cs [Hwf Hcs Heff] Hev Hdb. fold cs in Heff.
  pose proof (wf_set_evse s e ev (st, ev.2) Hwf Hev eq_refl) as Hwf0.
  pose proof (db_only_wf _ _ Hdb Hwf0) as Hwf1. destruct Hdb as (av & ok & Hs1).
  assert (Hev1 : evse_of s1 e = Some (st, ev.2)).
  { subst s1. unfold evse_of. cbn. rewrite (by_id_insert _ _ _ _ _ Hev). by rewrite Z.eqb_refl. }
  pose proof (evse_lookup s e ev Hev) as Hlk.
  assert (last_effective s1 !! index e = Some (eff_evse cs ev)) as Hl.
  { subst s1. cbn. by rewrite Heff, list_lookup_fmap, Hlk. }
  pose proof (trigger_evse_refresh s1 e _ _ true Hwf1 Hev1 Hl) as E. cbn zeta in E.
  assert (cs_individual_status s1 = cs) as Hcs1 by by subst s1. rewrite Hcs1 in E.
  rewrite refresh_evse_status in E. do 2 eexists. split; [exact E|]. split.
  - constructor; cbn.
    + apply wf_set_last_effective; [done|]. rewrite list_fmap_insert. subst s1. cbn.
      rewrite Heff. rewrite list_fmap_insert, map_map. cbn. rewrite length_map.
      f_equal. apply map_ext. intros x. cbn. apply length_map.
    + by subst s1.
    + rewrite Hcs1. subst s1. cbn. by rewrite Heff, list_fmap_insert.
  - assert (connector_callback s1 = connector_callback s) as -> by by subst s1.
    apply (one_evse_tells s _ e ev (st, ev.2)); [done|by subst s1|done|apply stale_evse_status].
Qed.

(** The setter of an EVSE's status, with what the database did. *)
Lemma set_evse_ok s e ev st persist :
  coherent s → evse_of s e = Some ev →
  (∃ s' t, set_evse_individual_operational_status e st persist s = (Ret tt, s', t) ∧
           coherent s' ∧ tells_changes s s' t) ∨
  (persist = true ∧ ∃ s', db_only (assign_evse_status e st s) s' ∧
     set_evse_individual_operational_status e st persist s = (Throw QueryExecutionException, s', [])).
Proof.
  intros Hco Hev. unfold set_evse_individual_operational_status.
  cstep (individual_evse_eq s (co_wf s Hco) e ev Hev). cprim.
  pose proof (evse_lookup s e ev Hev) as Hlk.
  assert (assign_evse_status e st s = set_evses (<[index e := (st, ev.2)]> (evses s)) s) as Hs1.
  { unfold assign_evse_status. by rewrite (alter_lookup _ _ _ _ Hlk). }
  rewrite Hs1. set (s1 := set_evses _ s).
  assert (0 < e) as He by by apply by_id_Some in Hev as [? _].
  destruct persist; cbn [cwhen].
  - destruct (log_insert_db _ s1 (insert_evse_db e st true s1 He)) as (s2 & E2 & Hdb2).
    destruct (insert_evse_db e st true s2 He) as (r & s3 & E3 & Hdb3 & Hr).
    assert (db_only s1 s3) as Hdb.
    { destruct Hdb2 as (av & ok & ->), Hdb3 as (av' & ok' & ->). by exists av', ok'. }
    destruct Hr as [-> | ->].
    + left. destruct (trigger_one_evse s s3 e ev st Hco Hev Hdb) as (s' & t & E & H).
      exists s', t. split; [|exact H].
      rewrite (bind_eq _ _ s1 tt s3 [] (Ret tt) s' t); [done| |exact E].
      by rewrite (bind_eq _ _ s1 tt s2 [] (Ret tt) s3 []).
    + right. split; [done|]. exists s3. split; [done|].
      unfold mbind at 1, cmd_mbind, cmd_bind. by rewrite (bind_eq _ _ s1 tt s2 [] _ s3 [] E2 E3).
  - left. cprim. apply (trigger_one_evse s s1 e ev st Hco Hev).
    exists (availability s1), (statement_ok s1). by destruct s.
Qed.

(** A change of one connector leaves the EVSE's own status alone. *)
Lemma conn_eff_snd cs st l l' cn : conn_eff cs (st, l) cn = conn_eff cs (st, l') cn.
Proof. done. Qed.

Lemma update_connector_eq s e c ev cn f :
  evse_of s e = Some ev → by_id ev.2 c = Some cn →
  update_connector e c f s =
    set_evses (<[index e := (ev.1, <[index c := f cn]> ev.2)]> (evses s)) s.
Proof.
  intros Hev [_ Hcn]%by_id_Some. unfold update_connector.
  rewrite (alter_lookup _ _ _ _ (evse_lookup s e ev Hev)). by rewrite (alter_lookup _ _ _ _ Hcn).
Qed.

(** What a change of one connector is told as: its own callback, if its effective
    status changed. *)
Lemma one_connector_tells s s' e ev c cn cn' :
  let cs := cs_individual_status s in
  let ev' := (ev.1, <[index c := cn']> ev.2) in
  evse_of s e = Some ev → by_id ev.2 c = Some cn →
  evses s' = <[index e := ev']> (evses s) → cs_individual_status s' = cs →
  tells_changes s s'
    (if differ true (conn_eff cs ev cn) (conn_eff cs ev' cn') && connector_callback s
     then [connector_effective_availability_changed e c (conn_eff cs ev' cn')] else []).
Proof.
  intros cs ev' Hev Hcn Hs' Hcs e' c' st'. rewrite (eff_of_set_evse s _ e ev ev') by done. fold cs.
  assert (eff_of s e c = Some (conn_eff cs ev cn)) as Hbefore.
  { unfold eff_of, evse_eff_of. rewrite Hev. cbn. by rewrite Hcn. }
  assert (evse_eff_of cs ev' c' = if c' =? c then Some (conn_eff cs ev' cn')
                                  else evse_eff_of cs ev c') as Hnow.
  { unfold evse_eff_of. cbn. rewrite (by_id_insert _ _ _ _ _ Hcn).
    by destruct (c' =? c); [|destruct (by_id ev.2 c')]. }
  assert (eff_of s e c' = evse_eff_of cs ev c') as Hold by (unfold eff_of; by rewrite Hev).
  unfold differ. cbn [negb orb].
  destruct (bool_decide_reflect (conn_eff cs ev cn = conn_eff cs ev' cn')),
    (connector_callback s), (Z.eqb_spec e' e) as [->|], (Z.eqb_spec c' c) as [->|];
    cbn [negb andb]; set_solver by congruence.
Qed.

Lemma set_connector_ok s e ev c cn st persist :
  coherent s → evse_of s e = Some ev → by_id ev.2 c = Some cn →
  ∃ s' t, set_connector_individual_operational_status e c st persist s = (Ret tt, s', t) ∧
          coherent s' ∧ tells_changes s s' t.
Proof.
  intros [Hwf Hcs Heff] Hev Hcn. set (cs := cs_individual_status s) in *.
  unfold set_connector_individual_operational_status.
  cstep (individual_connector_eq s Hwf e ev Hev c cn Hcn). cprim.
  rewrite (update_connector_eq s e c ev cn _ Hev Hcn).
  set (cn' := set_individual st cn). set (ev' := (ev.1, <[index c := cn']> ev.2)).
  set (s1 := set_evses _ s).
  assert (length ev'.2 = length ev.2) as Hlen by apply length_insert.
  pose proof (wf_set_evse s e ev ev' Hwf Hev Hlen) as Hwf1.
  pose proof Hev as [He Hlk]%by_id_Some. pose proof Hcn as [Hc Hlc]%by_id_Some.
  destruct (cwhen_log_db persist (insert_connector_availability e c st true) s1) as (s2 & E2 & Hdb).
  { by apply insert_connector_db. }
  pose proof (db_only_wf _ _ Hdb Hwf1) as Hwf2. destruct Hdb as (av & ok & Hs2).
  assert (evse_of s2 e = Some ev') as Hev2.
  { subst s2. unfold evse_of. cbn. rewrite (by_id_insert _ _ _ _ _ Hev). by rewrite Z.eqb_refl. }
  assert (by_id ev'.2 c = Some cn') as Hcn2.
  { cbn. rewrite (by_id_insert _ _ _ _ _ Hcn). by rewrite Z.eqb_refl. }
  assert (last_effective s2 !! index e = Some (eff_evse cs ev)) as Hl.
  { subst s2. cbn. by rewrite Heff, list_lookup_fmap, Hlk. }
  assert ((eff_evse cs ev).2 !! index c = Some (conn_eff cs ev cn)) as Hlcn.
  { cbn. by rewrite list_lookup_fmap, Hlc. }
  pose proof (trigger_connector_eq e ev' true s2 c cn' _ _ _ Hwf2 Hev2 Hcn2 Hl Hlcn) as E.
  cbn zeta in E. assert (cs_individual_status s2 = cs) as Hcs2 by by subst s2. rewrite Hcs2 in E.
  assert ((evse_eff cs ev, <[index c := conn_eff cs ev' cn']> (eff_evse cs ev).2) = eff_evse cs ev')
    as Heff'.
  { unfold eff_evse. f_equal. cbn. rewrite list_fmap_insert. f_equal. }
  cbn [eff_evse snd] in E, Heff'. rewrite Heff' in E.
  do 2 eexists. split; [eapply bind_eq; [exact E2|exact E]|]. cbn [app]. split.
  - constructor; cbn.
    + apply wf_set_last_effective; [done|]. subst s2. cbn.
      rewrite Heff, !list_fmap_insert, map_map. cbn. rewrite length_map.
      f_equal. apply map_ext. intros x. cbn. apply length_map.
    + by subst s2.
    + rewrite Hcs2. subst s2. cbn. by rewrite Heff, list_fmap_insert.
  - assert (connector_callback s2 = connector_callback s) as -> by by subst s2.
    apply (one_connector_tells s _ e ev c cn cn'); try done. by subst s2.
Qed.

(** ** Status notifications *)
Definition status_of (s : csm) (e c : Z) : option ConnectorStatusEnum :=
  ev ← evse_of s e; conn_status (cs_individual_status s) ev <$> by_id ev.2 c.
Definition reported_of (s : csm) (e c : Z) : option ConnectorStatusEnum :=
  l ← by_id (last_reported s) e; by_id l c.

(** The environment's next answer, and the state after a notification. *)
Definition next_send (s : csm) : bool := default true (head (send_ok s)).
Definition after_send (s : csm) (e c : Z) (st : ConnectorStatusEnum) : csm :=
  let s1 := set_send_ok (tail (send_ok s)) s in
  if next_send s then assign_last_reported e c st s1 else s1.

Lemma reported_Some s e ev c cn :
  wf s → evse_of s e = Some ev → by_id ev.2 c = Some cn → is_Some (reported_of s e c).
Proof.
  intros Hwf Hev Hcn. pose proof (f_equal length (wf_reported s Hwf)) as Hlen.
  rewrite !length_map in Hlen. unfold reported_of.
  destruct (proj2 (by_id_length (last_reported s) (evses s) e Hlen)) as [l Hl]; [by exists ev|].
  rewrite Hl. cbn. apply (by_id_length l ev.2); [|by exists cn].
  pose proof Hl as [_ Hl']%by_id_Some. pose proof Hev as [_ Hev']%by_id_Some.
  pose proof (f_equal (λ x, x !! index e) (wf_reported s Hwf)) as H. cbn in H.
  rewrite !list_lookup_fmap, Hl', Hev' in H. by injection H.
Qed.

Lemma send_internal_eq s e ev c cn r only by_trigger :
  wf s → evse_of s e = Some ev → by_id ev.2 c = Some cn → reported_of s e c = Some r →
  let st := conn_status (cs_individual_status s) ev cn in
  send_status_notification_single_connector_internal e c only by_trigger s =
    if differ only r st then
      (Ret tt, after_send s e c st, [send_connector_status_notification e c st by_trigger])
    else (Ret tt, s, []).
Proof.
  intros Hwf Hev Hcn Hr st. unfold send_status_notification_single_connector_internal.
  cstep (get_connector_effective_eq s Hwf e ev Hev c cn Hcn). fold st.
  assert (last_connector_reported_status e c s = (Ret r, s, [])) as Hlast.
  { unfold last_connector_reported_status. cstep (check_both_ok s Hwf e ev Hev c cn Hcn). cprim.
    unfold reported_of in Hr. destruct (by_id (last_reported s) e) as [l|] eqn:Hl; [|done].
    apply by_id_Some in Hl as [_ Hl]. apply by_id_Some in Hr as [_ Hr].
    cstep (at_index_eq _ _ _ s Hl). by apply at_index_eq. }
  cstep Hlast. unfold differ. destruct (negb only || _); [|done]. cbn [cwhen].
  unfold call_send_notification, after_send, next_send. cexpand. cbn.
  destruct (send_ok s) as [|[] oks] eqn:Hok; cbn; [|done..].
  unfold assign_last_reported. cbn. rewrite <- Hok. by destruct s.
Qed.

(** Notifications only touch the reported statuses and the sending environment. *)
Record reports_only (s s' : csm) : Prop := {
  ro_rest : ∃ ok rep, s' = set_send_ok ok (set_last_reported rep s);
  ro_shape : map length (last_reported s') = map length (last_reported s);
}.

Lemma reports_only_refl s : reports_only s s.
Proof. split; [|done]. exists (send_ok s), (last_reported s). by destruct s. Qed.
Lemma reports_only_trans s1 s2 s3 : reports_only s1 s2 → reports_only s2 s3 → reports_only s1 s3.
Proof.
  intros [(ok & rep & ->) H1] [(ok' & rep' & ->) H2]. split; [by exists ok', rep'|].
  by rewrite H2.
Qed.
Lemma reports_only_wf s s' : reports_only s s' → wf s → wf s'.
Proof.
  intros [(ok & rep & ->) Hsh] [H1 H2 H3 H4]. constructor; try done. by rewrite Hsh.
Qed.
Lemma reports_only_coherent s s' : reports_only s s' → coherent s → coherent s'.
Proof.
  intros Hr [Hwf H1 H2]. pose proof (reports_only_wf s s' Hr Hwf). destruct Hr as [(ok & rep & ->) _].
  by constructor.
Qed.
Lemma reports_only_status s s' e c : reports_only s s' → status_of s' e c = status_of s e c.
Proof. by intros [(ok & rep & ->) _]. Qed.

Lemma after_send_reports_only s e c st : reports_only s (after_send s e c st).
Proof.
  unfold after_send. destruct (next_send s).
  - split; [by eexists _, _|]. cbn. generalize (index e). induction (last_reported s) as [|l L IH];
      intros [|i]; cbn; [done|done|by rewrite length_insert|]. f_equal. apply IH.
  - split; [|done]. exists (tail (send_ok s)), (last_reported s). by destruct s.
Qed.

(** Every notification sent carries the connector's effective status. *)
Definition reports_status (s : csm) (o : output) : Prop :=
  match o with
  | send_connector_status_notification e c st _ => status_of s e c = Some st
  | _ => False
  end.

Lemma send_internal_reports s e ev c cn only by_trigger :
  wf s → evse_of s e = Some ev → by_id ev.2 c = Some cn →
  ∃ s' t, send_status_notification_single_connector_internal e c only by_trigger s = (Ret tt, s', t) ∧
          reports_only s s' ∧ Forall (reports_status s) t.
Proof.
  intros Hwf Hev Hcn. destruct (reported_Some s e ev c cn Hwf Hev Hcn) as [r Hr].
  pose proof (send_internal_eq s e ev c cn r only by_trigger Hwf Hev Hcn Hr) as E. cbn zeta in E.
  destruct (differ only r _); do 2 eexists; (split; [exact E|]); split;
    auto using reports_only_refl, after_send_reports_only.
  constructor; [|done]. cbn. unfold status_of. rewrite Hev. cbn. by rewrite Hcn.
Qed.

Lemma cfor_reports {A} (l : list A) (body : A → op ()) s :
  (∀ a s1, a ∈ l → reports_only s s1 →
     ∃ s2 t, body a s1 = (Ret tt, s2, t) ∧ reports_only s1 s2 ∧ Forall (reports_status s1) t) →
  ∃ s2 t, cfor l body s = (Ret tt, s2, t) ∧ reports_only s s2 ∧ Forall (reports_status s) t.
Proof.
  revert s. induction l as [|a l IH]; intros s Hbody.
  { exists s, []. split_and!; [done|apply reports_only_refl|done]. }
  destruct (Hbody a s) as (s1 & t1 & E1 & Hr1 & Hf1); [set_solver|apply reports_only_refl|].
  destruct (IH s1) as (s2 & t2 & E2 & Hr2 & Hf2).
  { intros a' s1' Hin Hr. apply Hbody; [set_solver|]. by eapply reports_only_trans. }
  exists s2, (t1 ++ t2). split; [cbn; by eapply bind_eq|]. split; [by eapply reports_only_trans|].
  apply Forall_app_2; [done|]. eapply Forall_impl; [exact Hf2|]. intros [| | |e c st b]; try done.
  cbn. by rewrite (reports_only_status s s1).
Qed.

Lemma seqZ_by_id {A} (l : list A) id : id ∈ seqZ 1 (Z.of_nat (length l)) → is_Some (by_id l id).
Proof. rewrite elem_of_seqZ, by_id_lt. lia. Qed.

Lemma for_all_connectors_reports s (body : Z → Z → op ()) :
  wf s →
  (∀ e c ev cn s1, wf s1 → evse_of s1 e = Some ev → by_id ev.2 c = Some cn →
     ∃ s2 t, body e c s1 = (Ret tt, s2, t) ∧ reports_only s1 s2 ∧ Forall (reports_status s1) t) →
  ∃ s2 t, for_all_connectors body s = (Ret tt, s2, t) ∧ reports_only s s2 ∧
          Forall (reports_status s) t.
Proof.
  intros Hwf Hbody. unfold for_all_connectors. cstep (num_evses_eq s Hwf). apply cfor_reports.
  intros e s1 [ev Hev]%seqZ_by_id Hr1. pose proof (reports_only_wf _ _ Hr1 Hwf) as Hwf1.
  assert (evse_of s1 e = Some ev) as Hev1 by by destruct Hr1 as [(ok & rep & ->) _].
  cstep (num_connectors_eq s1 Hwf1 e ev Hev1). apply cfor_reports.
  intros c s2 [cn Hcn]%seqZ_by_id Hr2. pose proof (reports_only_wf _ _ Hr2 Hwf1) as Hwf2.
  eapply Hbody; [done| |exact Hcn]. by destruct Hr2 as [(ok & rep & ->) _].
Qed.

(** A flag of a connector does not enter the operational statuses. *)
Lemma update_flag_coherent s e ev c cn f :
  (∀ x, individual_operational_status (f x) = individual_operational_status x) →
  coherent s → evse_of s e = Some ev → by_id ev.2 c = Some cn →
  coherent (update_connector e c f s) ∧
  evse_of (update_connector e c f s) e = Some (ev.1, <[index c := f cn]> ev.2) ∧
  by_id (<[index c := f cn]> ev.2) c = Some (f cn).
Proof.
  intros Hf [Hwf H1 H2] Hev Hcn. rewrite (update_connector_eq s e c ev cn f Hev Hcn).
  pose proof Hcn as [_ Hlc]%by_id_Some. split_and!.
  - constructor; [|done|].
    + apply (wf_set_evse s e ev); [done|done|]. cbn. apply length_insert.
    + cbn. rewrite H2, list_fmap_insert. symmetry. apply list_insert_id.
      rewrite list_lookup_fmap, (evse_lookup s e ev Hev). cbn. unfold eff_evse. cbn. do 2 f_equal.
      rewrite list_fmap_insert. symmetry. apply list_insert_id. rewrite list_lookup_fmap, Hlc. cbn.
      unfold conn_eff. by rewrite Hf.
  - unfold evse_of. cbn. rewrite (by_id_insert _ _ _ _ _ Hev). by rewrite Z.eqb_refl.
  - rewrite (by_id_insert _ _ _ _ _ Hcn). by rewrite Z.eqb_refl.
Qed.

(** ** Requests *)
Inductive csm_request :=
| SetCs (st : OperationalStatusEnum) (persist : bool)
| SetEvse (e : Z) (st : OperationalStatusEnum) (persist : bool)
| SetConnector (e c : Z) (st : OperationalStatusEnum) (persist : bool)
| SetOccupied (e c : Z) (b : bool)
| SetReserved (e c : Z) (b : bool)
| SetFaulted (e c : Z) (b : bool)
| SetUnavailable (e c : Z) (b : bool)
| TriggerAll
| SendAll
| SendChanged
| SendSingle (e c : Z)
| OnCsChanged
| OnEvseChanged
| OnConnectorChanged.

Definition csm_handle (r : csm_request) : op () :=
  match r with
  | SetCs st p => set_cs_individual_operational_status st p
  | SetEvse e st p => set_evse_individual_operational_status e st p
  | SetConnector e c st p => set_connector_individual_operational_status e c st p
  | SetOccupied e c b => set_connector_occupied e c b
  | SetReserved e c b => set_connector_reserved e c b
  | SetFaulted e c b => set_connector_faulted e c b
  | SetUnavailable e c b => set_connector_unavailable e c b
  | TriggerAll => trigger_all_effective_availability_changed_callbacks
  | SendAll => send_status_notification_all_connectors
  | SendChanged => send_status_notification_changed_connectors
  | SendSingle e c => send_status_notification_single_connector e c
  | OnCsChanged => set_cs_effective_availability_changed_callback
  | OnEvseChanged => set_evse_effective_availability_changed_callback
  | OnConnectorChanged => set_connector_effective_availability_changed_callback
  end.

(** Requests that change an individual operational status. *)
Definition changes_operational (r : csm_request) : bool :=
  match r with SetCs _ _ | SetEvse _ _ _ | SetConnector _ _ _ _ => true | _ => false end.

(** Requests that report connector statuses. *)
Definition reports_connectors (r : csm_request) : bool :=
  match r with
  | SetOccupied _ _ _ | SetReserved _ _ _ | SetFaulted _ _ _ | SetUnavailable _ _ _
  | SendAll | SendChanged | SendSingle _ _ => true
  | _ => false
  end.

(** The exception for a component a request names that does not exist. *)
Definition names_evse (s : csm) (e : Z) : option exn :=
  match evse_of s e with Some _ => None | None => Some (EvseOutOfRangeException e) end.
Definition names_connector (s : csm) (e c : Z) : option exn :=
  match evse_of s e with
  | Some ev =>
      match by_id ev.2 c with Some _ => None | None => Some (ConnectorOutOfRangeException c e) end
  | None => Some (EvseOutOfRangeException e)
  end.
Definition names (s : csm) (r : csm_request) : option exn :=
  match r with
  | SetEvse e _ _ => names_evse s e
  | SetConnector e c _ _ | SetOccupied e c _ | SetReserved e c _ | SetFaulted e c _
  | SetUnavailable e c _ | SendSingle e c => names_connector s e c
  | _ => None
  end.

Inductive csm_outcome (s : csm) (r : csm_request) : outcome exn () * csm * list output → Prop :=
| csm_done s' t :
    names s r = None → coherent s' →
    (changes_operational r = true → tells_changes s s' t) →
    (reports_connectors r = true → Forall (reports_status s') t) →
    csm_outcome s r (Ret tt, s', t)
| csm_unknown x : names s r = Some x → csm_outcome s r (Throw x, s, [])
| csm_not_persisted e st s' :
    r = SetEvse e st true → names s r = None → db_only (assign_evse_status e st s) s' →
    csm_outcome s r (Throw QueryExecutionException, s', []).

Lemma reports_forward s s' t :
  reports_only s s' → Forall (reports_status s) t → Forall (reports_status s') t.
Proof.
  intros Hr Hf. eapply Forall_impl; [exact Hf|]. intros [| | |e c st b]; try done. cbn.
  by rewrite (reports_only_status s s').
Qed.

(** A request that sets a flag of a connector and may then report it. *)
Lemma flag_outcome s e ev c cn f (k : op ()) :
  (∀ x, individual_operational_status (f x) = individual_operational_status x) →
  coherent s → evse_of s e = Some ev → by_id ev.2 c = Some cn →
  (let s1 := update_connector e c f s in
   ∃ s' t, k s1 = (Ret tt, s', t) ∧ reports_only s1 s' ∧ Forall (reports_status s1) t) →
  ∃ s' t, (individual_connector_status e c ;; cmodify (update_connector e c f) ;; k) s =
            (Ret tt, s', t) ∧ coherent s' ∧ Forall (reports_status s') t.
Proof.
  intros Hf Hco Hev Hcn (s' & t & E & Hr & Ht).
  cstep (individual_connector_eq s (co_wf s Hco) e ev Hev c cn Hcn). cprim.
  exists s', t. split_and!; [done| |by eapply reports_forward].
  eapply reports_only_coherent; [exact Hr|]. by eapply update_flag_coherent.
Qed.

Lemma flag_send_outcome s e ev c cn f :
  (∀ x, individual_operational_status (f x) = individual_operational_status x) →
  coherent s → evse_of s e = Some ev → by_id ev.2 c = Some cn →
  ∃ s' t, (individual_connector_status e c ;; cmodify (update_connector e c f) ;;
           send_status_notification_single_connector_internal e c true false) s =
            (Ret tt, s', t) ∧ coherent s' ∧ Forall (reports_status s') t.
Proof.
  intros Hf Hco Hev Hcn. eapply flag_outcome; [done|done|done|done|]. cbn zeta.
  destruct (update_flag_coherent s e ev c cn f Hf Hco Hev Hcn) as ([Hwf1 _ _] & Hev1 & Hcn1).
  by eapply send_internal_reports.
Qed.

Lemma occupied_outcome s e ev c cn b :
  coherent s → evse_of s e = Some ev → by_id ev.2 c = Some cn →
  ∃ s' t, set_connector_occupied e c b s = (Ret tt, s', t) ∧ coherent s' ∧
          Forall (reports_status s') t.
Proof.
  intros Hco Hev Hcn. eapply flag_outcome; [done|done|done|done|]. cbn zeta.
  destruct (update_flag_coherent s e ev c cn (set_occupied b) ltac:(done) Hco Hev Hcn)
    as ([Hwf1 _ _] & Hev1 & Hcn1).
  cstep (individual_connector_eq _ Hwf1 e _ Hev1 c _ Hcn1).
  destruct (negb _); cbn [cwhen]; [by eapply send_internal_reports|].
  do 2 eexists. split_and!; [reflexivity|apply reports_only_refl|done].
Qed.

(** The ids are checked first. *)
Lemma check_both_names s e c x :
  wf s → names_connector s e c = Some x → check_evse_and_connector_id e c s = (Throw x, s, []).
Proof.
  intros Hwf Hx. unfold names_connector in Hx. destruct (evse_of s e) as [ev|] eqn:Hev.
  - rewrite (check_both_eq s Hwf e ev Hev). destruct (by_id ev.2 c); [done|]. by injection Hx as ->.
  - injection Hx as <-. unfold check_evse_and_connector_id. apply bind_throw.
    by rewrite (check_evse_id_eq s Hwf), Hev.
Qed.

Lemma unknown_connector {A} s e c x (k : FullConnectorStatus → op A) :
  wf s → names_connector s e c = Some x → (individual_connector_status e c ≫= k) s = (Throw x, s, []).
Proof. intros Hwf Hx. by do 2 apply bind_throw; apply check_both_names. Qed.

Lemma known_connector s e c :
  names_connector s e c = None → ∃ ev cn, evse_of s e = Some ev ∧ by_id ev.2 c = Some cn.
Proof.
  unfold names_connector. destruct (evse_of s e) as [ev|]; [|done].
  destruct (by_id ev.2 c) as [cn|] eqn:H; [|done]. by exists ev, cn.
Qed.

Lemma trigger_all_outcome s :
  coherent s → ∃ s' t, trigger_callbacks_cs false s = (Ret tt, s', t) ∧ coherent s'.
Proof.
  intros [Hwf H1 H2]. rewrite (trigger_cs_eq s false Hwf). cbn [differ negb orb].
  do 2 eexists. split; [reflexivity|]. constructor; cbn.
  - apply wf_set_last_effective; [by destruct Hwf; constructor|]. cbn.
    rewrite H2, zip_with_refresh, map_map by auto. apply map_ext. intros ev. cbn. apply length_map.
  - done.
  - by rewrite H2, zip_with_refresh by auto.
Qed.

Lemma connector_request_outcome s r e c (m : op ()) :
  coherent s → names s r = names_connector s e c → changes_operational r = false →
  (∀ x, names_connector s e c = Some x → m s = (Throw x, s, [])) →
  (∀ ev cn, evse_of s e = Some ev → by_id ev.2 c = Some cn →
     ∃ s' t, m s = (Ret tt, s', t) ∧ coherent s' ∧ Forall (reports_status s') t) →
  csm_outcome s r (m s).
Proof.
  intros Hco Hn Hch Hbad Hok. destruct (names_connector s e c) as [x|] eqn:Hx.
  - rewrite (Hbad x eq_refl). by constructor.
  - destruct (known_connector s e c Hx) as (ev & cn & Hev & Hcn).
    destruct (Hok ev cn Hev Hcn) as (s' & t & -> & Hco' & Hf). constructor; try done.
    by rewrite Hch.
Qed.

Lemma set_evse_outcome s e st p :
  coherent s → csm_outcome s (SetEvse e st p) (set_evse_individual_operational_status e st p s).
Proof.
  intros Hco. pose proof (co_wf s Hco) as Hwf. destruct (evse_of s e) as [ev|] eqn:Hev.
  - destruct (set_evse_ok s e ev st p Hco Hev) as [(s' & t & -> & Hco' & Ht)|(-> & s' & Hdb & ->)].
    + constructor; try done. cbn. unfold names_evse. by rewrite Hev.
    + econstructor; [done| |done]. cbn. unfold names_evse. by rewrite Hev.
  - unfold set_evse_individual_operational_status. rewrite (bind_throw _ _ s (EvseOutOfRangeException e)).
    + constructor. cbn. unfold names_evse. by rewrite Hev.
    + apply bind_throw. by rewrite (check_evse_id_eq s Hwf), Hev.
Qed.

Lemma set_connector_outcome s e c st p :
  coherent s → csm_outcome s (SetConnector e c st p) (set_connector_individual_operational_status e c st p s).
Proof.
  intros Hco. destruct (names_connector s e c) as [x|] eqn:Hx.
  - unfold set_connector_individual_operational_status. rewrite (unknown_connector s e c x) by (done || apply Hco).
    by constructor.
  - destruct (known_connector s e c Hx) as (ev & cn & Hev & Hcn).
    destruct (set_connector_ok s e ev c cn st p Hco Hev Hcn) as (s' & t & -> & Hco' & Ht).
    by constructor.
Qed.

Lemma send_many_outcome s r only_changed :
  coherent s → names s r = None → changes_operational r = false →
  csm_outcome s r (for_all_connectors (λ e c,
    send_status_notification_single_connector_internal e c only_changed false) s).
Proof.
  intros Hco Hn Hch. pose proof (co_wf s Hco) as Hwf.
  destruct (for_all_connectors_reports s (λ e c,
    send_status_notification_single_connector_internal e c only_changed false) Hwf) as (s' & t & -> & Hr & Hf).
  { intros. by eapply send_internal_reports. }
  constructor; [done|by eapply reports_only_coherent|by rewrite Hch|intros _; by eapply reports_forward].
Qed.

Lemma csm_handle_outcome s r : coherent s → csm_outcome s r (csm_handle r s).
Proof.
  intros Hco. pose proof (co_wf s Hco) as Hwf.
  destruct r as [st p|e st p|e c st p|e c b|e c b|e c b|e c b| | | |e c| | |]; cbn [csm_handle].
  4-7: (apply (connector_request_outcome s _ e c); try done; intros;
        [by apply unknown_connector | first [by eapply occupied_outcome | by eapply flag_send_outcome]]).
  - destruct (set_cs_ok s st p Hco) as (s' & t & -> & Hco' & Ht). by constructor.
  - by apply set_evse_outcome.
  - by apply set_connector_outcome.
  - destruct (trigger_all_outcome s Hco) as (s' & t & E & Hco').
    unfold trigger_all_effective_availability_changed_callbacks. rewrite E. by constructor.
  - by apply send_many_outcome.
  - by apply send_many_outcome.
  - apply (connector_request_outcome s _ e c); try done; intros.
    + do 2 apply bind_throw. by apply check_both_names.
    + destruct (send_internal_reports s e ev c cn false true Hwf) as (s' & t & E & Hr & Hf); [done|done|].
      exists s', t. split_and!; [done|by eapply reports_only_coherent|by eapply reports_forward].
  - constructor; try done. destruct Hco as [[] ? ?]. by repeat constructor.
  - constructor; try done. destruct Hco as [[] ? ?]. by repeat constructor.
  - constructor; try done. destruct Hco as [[] ? ?]. by repeat constructor.
Qed.
