(* ===== verification/CsmInit.v ===== *)
(** * Construction of the component state manager, and the theorems

    Continues [CsmFacts]: the constructor restores the persisted statuses and
    establishes the coherence that every request keeps; then the properties of the
    component, each stated over the source's operations. *)

From S2P Require Import Prelude ComponentState CsmFacts.

Import Csm.

(** ** The reported state cache *)
Lemma cached_connectors_eq s e ev c1 c2 acc :
  sized s → evse_of s e = Some ev → ev.2 = c1 ++ c2 →
  let cs := cs_individual_status s in
  cached_connectors e (seqZ (Z.of_nat (length c1) + 1) (Z.of_nat (length c2))) acc s =
    (Ret (acc.1 ++ map (conn_status cs ev) c2, acc.2 ++ map (conn_eff cs ev) c2), s, []).
Proof.
  intros Hsz Hev Hsplit cs. revert c1 acc Hsplit. induction c2 as [|cn c2 IH]; intros c1 acc Hsplit.
  { cbn. rewrite !app_nil_r. by destruct acc. }
  rewrite seqZ_cons by (cbn; lia). cbn [cached_connectors].
  assert (by_id ev.2 (Z.of_nat (length c1) + 1) = Some cn) as Hcn
    by (rewrite Hsplit; apply by_id_app_length).
  cstep (get_connector_effective_eq s Hsz e ev Hev _ cn Hcn).
  cstep (get_connector_effective_op_eq s Hsz e ev Hev _ cn Hcn). fold cs.
  specialize (IH (c1 ++ [cn]) (acc.1 ++ [conn_status cs ev cn], acc.2 ++ [conn_eff cs ev cn])).
  rewrite <- app_assoc, length_app in IH. cbn [length app fst snd] in IH. specialize (IH Hsplit).
  replace (Z.of_nat (length c1 + 1) + 1) with (Z.succ (Z.of_nat (length c1) + 1)) in IH by lia.
  replace (Z.of_nat (length c2)) with (Z.pred (Z.of_nat (length (cn :: c2)))) in IH by (cbn; lia).
  rewrite IH. cbn. by rewrite <- !app_assoc.
Qed.

Definition cache_evse cs (s : csm) (ev : OperationalStatusEnum * list FullConnectorStatus) : csm :=
  set_last_reported (last_reported s ++ [map (conn_status cs ev) ev.2])
    (set_last_effective (last_effective s ++ [eff_evse cs ev]) s).

Lemma initialize_evse_cache_eq s e ev :
  sized s → evse_of s e = Some ev →
  initialize_evse_cache e s = (Ret tt, cache_evse (cs_individual_status s) s ev, []).
Proof.
  intros Hsz Hev. unfold initialize_evse_cache.
  cstep (num_connectors_eq s Hsz e ev Hev). cstep (get_evse_effective_eq s Hsz e ev Hev).
  pose proof (cached_connectors_eq s e ev [] ev.2 ([], []) Hsz Hev eq_refl) as E. cbn zeta in E.
  change (Z.of_nat (length []) + 1) with 1 in E. cstep E. done.
Qed.

Lemma cache_loop E1 E2 s :
  sized s → evses s = E1 ++ E2 →
  let cs := cs_individual_status s in
  cfor (seqZ (Z.of_nat (length E1) + 1) (Z.of_nat (length E2))) initialize_evse_cache s =
    (Ret tt, foldl (cache_evse cs) s E2, []).
Proof.
  revert E1 s. induction E2 as [|ev E2 IH]; intros E1 s Hsz HE cs; [done|].
  rewrite seqZ_cons by (cbn; lia). cbn [cfor foldl].
  assert (evse_of s (Z.of_nat (length E1) + 1) = Some ev) as Hev.
  { unfold evse_of. rewrite HE. apply by_id_app_length. }
  pose proof (initialize_evse_cache_eq s _ ev Hsz Hev) as E. fold cs in E.
  specialize (IH (E1 ++ [ev]) (cache_evse cs s ev)).
  rewrite <- app_assoc, length_app in IH. cbn [length app] in IH.
  specialize (IH ltac:(by destruct Hsz; constructor) HE).
  replace (Z.of_nat (length E1 + 1) + 1) with (Z.succ (Z.of_nat (length E1) + 1)) in IH by lia.
  replace (Z.of_nat (length E2)) with (Z.pred (Z.of_nat (length (ev :: E2)))) in IH by (cbn; lia).
  exact (bind_eq _ _ _ _ _ _ _ _ _ E IH).
Qed.

Lemma foldl_cache cs E s :
  foldl (cache_evse cs) s E =
    set_last_reported (last_reported s ++ map (λ ev, map (conn_status cs ev) ev.2) E)
      (set_last_effective (last_effective s ++ map (eff_evse cs) E) s).
Proof.
  revert s. induction E as [|ev E IH]; intros s; cbn; [by rewrite !app_nil_r; destruct s|].
  rewrite IH. cbn. by rewrite <- !app_assoc.
Qed.

Lemma initialize_cache_coherent s :
  sized s → last_effective s = [] → last_reported s = [] →
  ∃ s', initialize_reported_state_cache s = (Ret tt, s', []) ∧ coherent s' ∧
        evses s' = evses s ∧ cs_individual_status s' = cs_individual_status s ∧
        ∀ e c, reported_of s' e c = status_of s' e c.
Proof.
  intros Hsz Hle Hlr. unfold initialize_reported_state_cache, get_cs_individual_operational_status.
  set (cs := cs_individual_status s). rewrite (bind_pure _ _ s cs eq_refl). cbv beta. cprim.
  set (s1 := set_last_cs cs s). assert (sized s1) as Hsz1 by by destruct Hsz; constructor.
  cstep (num_evses_eq s1 Hsz1).
  pose proof (cache_loop [] (evses s1) s1 Hsz1 eq_refl) as E. cbn zeta in E.
  change (Z.of_nat (length []) + 1) with 1 in E. rewrite E. rewrite foldl_cache.
  assert (last_effective s1 = [] ∧ last_reported s1 = []) as [-> ->] by done. cbn [app].
  eexists. split; [reflexivity|]. split_and!; [|done|done|].
  - destruct Hsz as [H1 H2]. constructor; [|done|done]. constructor; [done|done|..]; cbn; rewrite map_map;
      apply map_ext; intros ev; cbn; apply length_map.
  - intros e c. unfold reported_of, status_of. cbn. rewrite by_id_map. unfold evse_of. cbn.
    destruct (by_id (evses s) e) as [ev|]; [|done]. cbn. apply by_id_map.
Qed.

(** ** Reading the persisted statuses *)
Definition restored (db : gmap (Z * Z) OperationalStatusEnum) (e c : Z) : OperationalStatusEnum :=
  default Operative (db !! (e, c)).

(** The table holds what [db] held, with missing entries as Operative. *)
Definition agrees (db : gmap (Z * Z) OperationalStatusEnum) (s : csm) : Prop :=
  statement_ok s = [] ∧ ∀ e c, restored (availability s) e c = restored db e c.

Lemma step_statement_ok s : statement_ok s = [] → step_statement s = (Ret true, s, []).
Proof. intros H. unfold step_statement. by rewrite bind_get, H. Qed.

Lemma insert_default_eq db e c s :
  agrees db s →
  ∃ av, insert_availability e c Operative false s = (Ret tt, set_availability av s, []) ∧
        agrees db (set_availability av s) ∧ av !! (e, c) = Some (restored db e c).
Proof.
  intros [Hok Hag]. unfold insert_availability. cstep (step_statement_ok s Hok). cbn [negb orb]. cprim.
  case_bool_decide as Hin; cbn [negb cwhen].
  - exists (availability s). split_and!; [by destruct s|by split|].
    destruct Hin as [st Hst]. rewrite <- Hag. unfold restored. by rewrite Hst.
  - apply eq_None_not_Some in Hin. eexists. split_and!; [reflexivity| |].
    + split; [done|]. intros e' c'. rewrite <- Hag. unfold restored. cbn.
      destruct (decide ((e, c) = (e', c'))) as [[= <- <-]|Hne].
      * by rewrite lookup_insert_eq, Hin.
      * by rewrite lookup_insert_ne.
    + rewrite lookup_insert_eq, <- Hag. unfold restored. by rewrite Hin.
Qed.

Lemma get_availability_eq e c s st :
  statement_ok s = [] → availability s !! (e, c) = Some st →
  get_availability e c s = (Ret st, s, []).
Proof.
  intros Hok Hst. unfold get_availability. cstep (step_statement_ok s Hok). cbn [negb]. cprim.
  by rewrite Hst.
Qed.

Lemma db_assert_eq e (s : csm) : 0 < e → db_assert (0 <? e) s = (Ret tt, s, []).
Proof. intros He. unfold db_assert. by rewrite (proj2 (Z.ltb_lt 0 e) He). Qed.

Definition fresh_connector (st : OperationalStatusEnum) : FullConnectorStatus :=
  {| individual_operational_status := st; faulted := false; reserved := false; occupied := false;
     unavailable := false |}.

Lemma read_connectors_eq db e ids acc s :
  0 < e → Forall (λ c, 0 < c) ids → agrees db s →
  ∃ av, read_connectors e ids acc s =
          (Ret (acc ++ map (λ c, fresh_connector (restored db e c)) ids), set_availability av s, []) ∧
        agrees db (set_availability av s).
Proof.
  intros He Hids. revert acc s. induction Hids as [|c ids Hc _ IH]; intros acc s Hag.
  { exists (availability s). cbn. rewrite app_nil_r. split; [by destruct s|by destruct s]. }
  destruct (insert_default_eq db e c s Hag) as (av & E1 & Hag1 & Hlk).
  destruct (IH (acc ++ [fresh_connector (restored db e c)]) _ Hag1) as (av2 & E2 & Hag2).
  exists av2. split; [|exact Hag2]. rewrite <- app_assoc in E2.
  refine (bind_eq _ _ _ _ _ [] _ _ [] _ E2).
  unfold read_connector, insert_connector_availability, get_connector_availability.
  refine (bind_eq _ _ _ tt _ [] _ _ [] _ _).
  { cstep (db_assert_eq e s He). cstep (db_assert_eq c s Hc). exact E1. }
  cbv beta. destruct Hag1 as [Hok1 _].
  pose proof (get_availability_eq e c (set_availability av s) _ Hok1 Hlk) as Hget.
  assert ((db_assert (0 <? e) ;; db_assert (0 <? c) ;; get_availability e c) (set_availability av s) =
    (Ret (restored db e c), set_availability av s, [])) as Hget'.
  { cstep (db_assert_eq e (set_availability av s) He). by cstep (db_assert_eq c (set_availability av s) Hc). }
  by cstep Hget'.
Qed.

(** The statuses the constructor is to read. *)
Definition restored_evse db (structure : gmap Z Z) (e : Z) :
    OperationalStatusEnum * list FullConnectorStatus :=
  (restored db e 0,
   map (λ c, fresh_connector (restored db e c)) (seqZ 1 (default 0 (structure !! e)))).

Lemma seqZ_pos n m : 0 < n → Forall (λ c, 0 < c) (seqZ n m).
Proof. intros Hn. apply Forall_forall. intros c. rewrite elem_of_seqZ. lia. Qed.

Lemma read_evse_eq db structure e n s :
  0 < e → structure !! e = Some n → agrees db s →
  ∃ av, let s1 := set_availability av s in
        read_evse structure e s =
          (Ret tt, set_evses (evses s ++ [restored_evse db structure e]) s1, []) ∧ agrees db s1.
Proof.
  intros He Hn Hag. unfold read_evse. rewrite Hn.
  destruct (insert_default_eq db e 0 s Hag) as (av & E1 & Hag1 & Hlk).
  destruct (read_connectors_eq db e (seqZ 1 n) [] _ He (seqZ_pos 1 n ltac:(lia)) Hag1)
    as (av2 & E2 & Hag2).
  exists av2. cbn zeta. split; [|exact Hag2].
  unfold insert_evse_availability, get_evse_availability.
  refine (bind_eq _ _ _ tt _ [] _ _ [] _ _).
  { by cstep (db_assert_eq e s He). }
  cbv beta. destruct Hag1 as [Hok1 _].
  pose proof (get_availability_eq e 0 (set_availability av s) _ Hok1 Hlk) as Hget.
  assert ((db_assert (0 <? e) ;; get_availability e 0) (set_availability av s) =
    (Ret (restored db e 0), set_availability av s, [])) as Hget'.
  { by cstep (db_assert_eq e (set_availability av s) He). }
  cstep Hget'. refine (bind_eq _ _ _ _ _ [] _ _ [] E2 _). cprim. unfold restored_evse. rewrite Hn.
  done.
Qed.

Lemma read_evses_loop db structure ids s :
  Forall (λ e, 0 < e ∧ is_Some (structure !! e)) ids → agrees db s →
  ∃ av, cfor ids (read_evse structure) s =
          (Ret tt, set_evses (evses s ++ map (restored_evse db structure) ids) (set_availability av s), [])
        ∧ agrees db (set_availability av s).
Proof.
  intros Hids. revert s. induction Hids as [|e ids [He [n Hn]] _ IH]; intros s Hag.
  { exists (availability s). cbn. rewrite app_nil_r. split; by destruct s. }
  destruct (read_evse_eq db structure e n s He Hn Hag) as (av & E1 & Hag1). cbn zeta in E1.
  destruct (IH (set_evses (evses s ++ [restored_evse db structure e]) (set_availability av s)) Hag1)
    as (av2 & E2 & Hag2).
  exists av2. split; [|exact Hag2]. cbn [cfor].
  refine (bind_eq _ _ _ _ _ [] _ _ [] E1 _). rewrite E2. cbn. by rewrite <- app_assoc.
Qed.

Record good_structure (structure : gmap Z Z) : Prop := {
  gs_size : Z.of_nat (size structure) < 2 ^ 31;
  gs_ids : ∀ e, 0 < e ≤ Z.of_nat (size structure) → is_Some (structure !! e);
  gs_counts : map_Forall (λ _ n, n < 2 ^ 31) structure;
}.

Lemma construct_ok structure db sends :
  good_structure structure →
  ∃ s', ComponentStateManager_new structure (csm_raw db [] sends) = (Ret tt, s', []) ∧ coherent s' ∧
        cs_individual_status s' = restored db 0 0 ∧
        evses s' = map (restored_evse db structure) (seqZ 1 (Z.of_nat (size structure))) ∧
        ∀ e c, reported_of s' e c = status_of s' e c.
Proof.
  intros [Hsize Hids Hcounts]. set (s0 := csm_raw db [] sends).
  assert (agrees db s0) as Hag0 by by split.
  destruct (insert_default_eq db 0 0 s0 Hag0) as (av & E1 & Hag1 & Hlk).
  set (s1 := set_availability av s0) in *.
  pose proof (get_availability_eq 0 0 s1 _ (proj1 Hag1) Hlk) as E2.
  set (s2 := set_cs_individual_status (restored db 0 0) s1).
  assert (agrees db s2) as Hag2 by exact Hag1.
  destruct (read_evses_loop db structure (seqZ 1 (Z.of_nat (size structure))) s2) as (av3 & E3 & _); [|done|].
  { apply Forall_forall. intros e. rewrite elem_of_seqZ. intros He. split; [lia|]. apply Hids. lia. }
  set (s3 := set_evses _ _) in E3. cbn [evses] in s3.
  assert (read_all_states_from_database_or_set_defaults structure s0 = (Ret tt, s3, [])) as Hread.
  { unfold read_all_states_from_database_or_set_defaults.
    refine (bind_eq _ _ _ _ _ [] _ _ [] E1 _). cbv beta.
    assert (get_cs_availability s1 = (Ret (restored db 0 0), s1, [])) as E2' by exact E2.
    cstep E2'. cprim. fold s2. unfold clamp_to_int32. rewrite Z.min_l by lia. exact E3. }
  assert (evses s3 = map (restored_evse db structure) (seqZ 1 (Z.of_nat (size structure)))) as Hev by done.
  assert (sized s3) as Hsz.
  { constructor.
    - rewrite Hev, length_map, length_seqZ. lia.
    - rewrite Hev. apply Forall_map, Forall_forall. intros e He. cbn. rewrite length_map, length_seqZ.
      destruct (structure !! e) as [n|] eqn:Hn; cbn; [|done].
      pose proof (map_Forall_lookup_1 _ _ _ _ Hcounts Hn) as Hlt. cbn in Hlt. lia. }
  destruct (initialize_cache_coherent s3 Hsz eq_refl eq_refl) as (s' & E & Hco & He & Hc & Hrep).
  exists s'. split; [exact (bind_eq _ _ _ _ _ [] _ _ [] Hread E)|].
  split_and!; [done|by rewrite Hc|by rewrite He|done].
Qed.

(** ** Theorems *)

(** When nothing above it makes the connector Faulted or Unavailable. *)
Definition usable cs (ev : OperationalStatusEnum * list FullConnectorStatus)
    (cn : FullConnectorStatus) : Prop :=
  cs = Operative ∧ ev.1 = Operative ∧ individual_operational_status cn = Operative ∧
  unavailable cn = false ∧ faulted cn = false.

Lemma conn_status_spec cs ev cn :
  (conn_status cs ev cn = Faulted ↔ faulted cn = true) ∧
  (conn_status cs ev cn = Unavailable ↔ faulted cn = false ∧ ¬ usable cs ev cn) ∧
  (conn_status cs ev cn = Occupied ↔ usable cs ev cn ∧ occupied cn = true) ∧
  (conn_status cs ev cn = Reserved ↔ usable cs ev cn ∧ occupied cn = false ∧ reserved cn = true) ∧
  (conn_status cs ev cn = Available ↔ usable cs ev cn ∧ occupied cn = false ∧ reserved cn = false).
Proof.
  unfold conn_status, conn_eff, evse_eff, is_inoperative, usable.
  destruct cs, ev as [[] l], cn as [[] [] [] [] []]; cbn; naive_solver.
Qed.

(** The effective status of a connector follows the hierarchy: a fault wins;
    otherwise an Inoperative station, EVSE or connector, or the connector's own
    unavailable flag, makes it Unavailable; otherwise it is Occupied, Reserved or
    Available, in this order.  The state is only read, and an unknown EVSE or
    connector is answered with its own exception. *)
Lemma effective_status_hierarchy s e c :
  wf s →
  match names_connector s e c with
  | Some x => get_connector_effective_status e c s = (Throw x, s, [])
  | None =>
      ∃ ev cn st, evse_of s e = Some ev ∧ by_id ev.2 c = Some cn ∧
        get_connector_effective_status e c s = (Ret st, s, []) ∧
        (st = Faulted ↔ faulted cn = true) ∧
        (st = Unavailable ↔ faulted cn = false ∧ ¬ usable (cs_individual_status s) ev cn) ∧
        (st = Occupied ↔ usable (cs_individual_status s) ev cn ∧ occupied cn = true) ∧
        (st = Reserved ↔
           usable (cs_individual_status s) ev cn ∧ occupied cn = false ∧ reserved cn = true) ∧
        (st = Available ↔
           usable (cs_individual_status s) ev cn ∧ occupied cn = false ∧ reserved cn = false)
  end.
Proof.
  intros Hwf. destruct (names_connector s e c) as [x|] eqn:Hx.
  - apply bind_throw. by apply check_both_names.
  - destruct (known_connector s e c Hx) as (ev & cn & Hev & Hcn). exists ev, cn. eexists.
    split_and!; [done|done|exact (get_connector_effective_eq s Hwf e ev Hev c cn Hcn)|..]; apply conn_status_spec.
Qed.

(** C38: the statuses reported through the availability callbacks never drift from the
    effective ones. From a coherent state, every request that returns leaves a coherent
    state. A request that sets an operational status calls the callback of exactly the
    connectors whose effective status changed, with the new status
    ([changes_operational]); what a request that reports connector statuses sends out
    carries the effective status of the connector ([reports_connectors]). The request
    that triggers all callbacks, which calls those of unchanged connectors too, is
    covered by the first part only. *)
Theorem reported_statuses_stay_coherent s r :
  coherent s → res_of (csm_handle r s) = Ret tt →
  coherent (st_of (csm_handle r s)) ∧
  (changes_operational r = true → tells_changes s (st_of (csm_handle r s)) (out_of (csm_handle r s))) ∧
  (reports_connectors r = true →
     Forall (reports_status (st_of (csm_handle r s))) (out_of (csm_handle r s))).
Proof.
  intros Hco Hres. destruct (csm_handle_outcome s r Hco); cbn in *; done.
Qed.

(** A request that names an unknown EVSE or connector is refused with the
    exception for it, and changes and reports nothing; a request for known
    components throws only if persisting the status of an EVSE fails. *)
Lemma unknown_components_refused s r :
  coherent s →
  match names s r with
  | Some x => csm_handle r s = (Throw x, s, [])
  | None =>
      res_of (csm_handle r s) = Ret tt ∨
      (∃ e st, r = SetEvse e st true) ∧ res_of (csm_handle r s) = Throw QueryExecutionException
  end.
Proof.
  intros Hco. destruct (csm_handle_outcome s r Hco) as [s' t Hn|x Hn|e st s' -> Hn Hdb];
    rewrite Hn; cbn; eauto.
Qed.

(** The constructor restores the persisted statuses (Operative where none
    was stored), reports nothing, and establishes the coherence of the reported statuses. *)
Lemma constructor_restores_persisted structure db sends :
  good_structure structure →
  ∃ s, ComponentStateManager_new structure (csm_raw db [] sends) = (Ret tt, s, []) ∧ coherent s ∧
       cs_individual_status s = restored db 0 0 ∧
       evses s = map (restored_evse db structure) (seqZ 1 (Z.of_nat (size structure))) ∧
       ∀ e c, reported_of s e c = status_of s e c.
Proof. apply construct_ok. Qed.

(** Setting and persisting an EVSE's status writes it twice, the second time
    outside the [try] block.  If that write fails, the exception leaves the function
    with the individual status changed and no callback called: what was reported for
    the EVSE is out of date. *)
Lemma persist_failure_skips_callbacks s e ev st b oks :
  coherent s → evse_of s e = Some ev → statement_ok s = b :: false :: oks →
  evse_eff (cs_individual_status s) ev ≠ evse_eff (cs_individual_status s) (st, ev.2) →
  ∃ s', set_evse_individual_operational_status e st true s = (Throw QueryExecutionException, s', []) ∧
        evse_of s' e = Some (st, ev.2) ∧ ¬ coherent s'.
Proof.
  intros Hco Hev Hok Hne. destruct Hco as [Hwf Hcs Heff].
  unfold set_evse_individual_operational_status. cstep (individual_evse_eq s Hwf e ev Hev). cprim.
  pose proof (evse_lookup s e ev Hev) as Hlk. pose proof Hev as [He _]%by_id_Some.
  assert (assign_evse_status e st s = set_evses (<[index e := (st, ev.2)]> (evses s)) s) as ->.
  { unfold assign_evse_status. by rewrite (alter_lookup _ _ _ _ Hlk). }
  set (s1 := set_evses _ s). cbn [cwhen].
  assert (∃ av, log_query_errors (insert_evse_availability e st true) s1 =
            (Ret tt, set_statement_ok (false :: oks) (set_availability av s1), [])) as [av E1].
  { unfold log_query_errors, ccatch, insert_evse_availability. rewrite (bind_pure _ _ _ _ (db_assert_eq e s1 He)).
    unfold insert_availability. cexpand. rewrite step_statement_eq. cbn. rewrite Hok. cbn.
    destruct b; cbn; [by eexists|]. by exists (availability s1). }
  set (s2 := set_statement_ok _ _) in E1.
  assert (insert_evse_availability e st true s2 =
    (Throw QueryExecutionException, set_statement_ok oks s2, [])) as E2.
  { unfold insert_evse_availability. cstep (db_assert_eq e s2 He). unfold insert_availability.
    cexpand. rewrite step_statement_eq. done. }
  exists (set_statement_ok oks s2). split_and!.
  - unfold mbind at 1, cmd_mbind, cmd_bind. by rewrite (bind_eq _ _ s1 tt s2 [] _ _ [] E1 E2).
  - unfold evse_of. cbn. rewrite (by_id_insert _ _ _ _ _ Hev). by rewrite Z.eqb_refl.
  - intros [_ _ Hco]. cbn in Hco. rewrite Heff in Hco.
    pose proof (f_equal (λ l, l !! index e) Hco) as H. cbn in H.
    rewrite !list_lookup_fmap, list_lookup_insert_eq, Hlk in H by by eapply lookup_lt_Some.
    apply Hne. by injection H.
Qed.

(** A reserved connector that is plugged in is not reported as Occupied when
    it is plugged in, but its effective status is Occupied from then on: the next
    status report of any other cause (here a TriggerMessage) says Occupied although
    the connector is still reserved. *)
Lemma reserved_connector_reported_occupied s e ev c cn :
  coherent s → evse_of s e = Some ev → by_id ev.2 c = Some cn →
  usable (cs_individual_status s) ev cn → reserved cn = true →
  let s1 := st_of (csm_handle (SetOccupied e c true) s) in
  out_of (csm_handle (SetOccupied e c true) s) = [] ∧
  connector_of s1 e c = Some (set_occupied true cn) ∧
  out_of (csm_handle (SendSingle e c) s1) = [send_connector_status_notification e c Occupied true].
Proof.
  intros Hco Hev Hcn Hus Hres.
  destruct (update_flag_coherent s e ev c cn (set_occupied true) ltac:(done) Hco Hev Hcn)
    as ([Hwf1 _ _] & Hev1 & Hcn1).
  set (s1 := update_connector e c (set_occupied true) s) in *.
  assert (csm_handle (SetOccupied e c true) s = (Ret tt, s1, [])) as E.
  { cbn [csm_handle]. unfold set_connector_occupied.
    cstep (individual_connector_eq s (co_wf s Hco) e ev Hev c cn Hcn). cprim. fold s1.
    cstep (individual_connector_eq s1 Hwf1 e _ Hev1 c _ Hcn1). cbn. by rewrite Hres. }
  cbv zeta. rewrite E. cbn [st_of out_of fst snd]. split_and!; [done| |].
  - unfold connector_of. rewrite Hev1. exact Hcn1.
  - cbn [csm_handle]. unfold send_status_notification_single_connector.
    destruct (reported_Some s1 e _ c _ Hwf1 Hev1 Hcn1) as [r Hr].
    rewrite (send_internal_eq s1 e _ c _ r false true Hwf1 Hev1 Hcn1 Hr). cbn. f_equal. f_equal.
    apply conn_status_spec. by destruct Hus as (? & ? & ? & ? & ?).
Qed.

(** ** The theorems at concrete inputs *)
Definition demo_structure : gmap Z Z := {[ 1 := 2; 2 := 1 ]}.
Definition demo_db : gmap (Z * Z) OperationalStatusEnum := {[ (2, 0) := Inoperative ]}.

Lemma demo_structure_good : good_structure demo_structure.
Proof.
  split; [vm_compute; reflexivity| |].
  - intros e He. change (Z.of_nat (size demo_structure)) with 2 in He.
    assert (e = 1 ∨ e = 2) as [->| ->] by lia; by eexists.
  - apply map_Forall_insert_2; [lia|]. apply map_Forall_singleton. lia.
Qed.

Definition demo_csm : csm :=
  st_of (ComponentStateManager_new demo_structure (csm_raw demo_db [] [])).

Lemma demo_coherent : coherent demo_csm.
Proof.
  destruct (construct_ok demo_structure demo_db [] demo_structure_good) as (s & E & Hco & _).
  unfold demo_csm. by rewrite E.
Qed.

Lemma reported_statuses_stay_coherent_witness :
  coherent (st_of (csm_handle (SetCs Inoperative true) demo_csm)) ∧
  tells_changes demo_csm (st_of (csm_handle (SetCs Inoperative true) demo_csm))
    (out_of (csm_handle (SetCs Inoperative true) demo_csm)).
Proof.
  destruct (reported_statuses_stay_coherent demo_csm (SetCs Inoperative true) demo_coherent)
    as (H1 & H2 & _); [vm_compute; reflexivity|].
  split; [exact H1 | exact (H2 eq_refl)].
Defined.

