(* ===== verification/StdPermutation.v ===== *)
(** * [std::next_permutation] and [std::prev_permutation]

    The algorithms of the C++ standard library that the reservation handler
    enumerates arrival orders with, over elements compared by an injective rank.
    [next_permutation] gives the lexicographic successor among the permutations of
    its argument, so that running it to the end, and its mirror image too, visits
    every permutation. *)

From S2P Require Import Prelude.
From Stdlib Require Import Sorting.Sorted.

Section algorithm.
Context {A : Type} (rank : A → Z).

(** Exchange [x] with the rightmost element of [t] above it. *)
Fixpoint swap_rightmost (x : A) (t : list A) : option (A * list A) :=
  match t with
  | [] => None
  | y :: t' =>
      match swap_rightmost x t' with
      | Some (z, t'') => Some (z, y :: t'')
      | None => if rank x <? rank y then Some (y, x :: t') else None
      end
  end.

(** The pivot is the last element that is below its successor; [None] when there
    is none (the library then returns false). *)
Fixpoint next_permutation (l : list A) : option (list A) :=
  match l with
  | [] => None
  | x :: t =>
      match next_permutation t with
      | Some t' => Some (x :: t')
      | None =>
          match swap_rightmost x t with
          | Some (y, t') => Some (y :: reverse t')
          | None => None
          end
      end
  end.

(** [while (step(v)) output.push_back(v)]. *)
Fixpoint push_while (step : list A → option (list A)) (fuel : nat) (l : list A) : list (list A) :=
  match fuel with
  | O => []
  | S fuel' => match step l with Some m => m :: push_while step fuel' m | None => [] end
  end.

(** ** The lexicographic order *)
Fixpoint lex (l m : list A) : Prop :=
  match l, m with
  | x :: l', y :: m' => rank x < rank y ∨ x = y ∧ lex l' m'
  | _, _ => False
  end.

Definition descending : list A → Prop := StronglySorted (λ a b, rank b ≤ rank a).
Definition ascending : list A → Prop := StronglySorted (λ a b, rank a ≤ rank b).
End algorithm.

Section correct.
Context {A : Type} `{!EqDecision A} (rank : A → Z) `{!Inj (=) (=) rank}.
Implicit Types (x y : A) (l m t : list A).

#[local] Instance lex_dec l m : Decision (lex rank l m).
Proof. revert m. induction l as [|x l IH]; intros [|y m]; cbn; apply _. Defined.

Lemma lex_trans l m t : lex rank l m → lex rank m t → lex rank l t.
Proof.
  revert m t. induction l as [|x l IH]; intros [|y m] [|z t]; cbn; try done.
  intros [H1|[-> H1]] [H2|[-> H2]]; [left; lia|left; lia|left; lia|right; eauto].
Qed.

Lemma lex_irrefl l : ¬ lex rank l l.
Proof. induction l as [|x l IH]; cbn; [by intros []|]. intros [H|[_ H]]; [lia|done]. Qed.

Lemma lex_total l m : length l = length m → lex rank l m ∨ l = m ∨ lex rank m l.
Proof.
  revert m. induction l as [|x l IH]; intros [|y m]; cbn; try done; [by auto|].
  intros [= Hl]. destruct (Z.lt_trichotomy (rank x) (rank y)) as [?|[->%(inj rank)|?]]; [by auto| |by auto].
  destruct (IH m Hl) as [?|[->|?]]; auto 6.
Qed.

(** The descending permutation is the greatest, the ascending one the least. *)
Lemma descending_max l m : descending rank l → m ≡ₚ l → ¬ lex rank l m.
Proof.
  revert m. induction l as [|x l IH]; intros [|y m] Hs Hp Hlex; try done.
  apply StronglySorted_inv in Hs as [Hs Hx]. rewrite Forall_forall in Hx.
  destruct Hlex as [Hlt|[<- Hlex]].
  - assert (y ∈ x :: l) as [->|Hy]%elem_of_cons by (rewrite <- Hp; left); [lia|].
    specialize (Hx y Hy). lia.
  - eapply IH; [done| |done]. by eapply Permutation_cons_inv.
Qed.

Lemma ascending_min l m : ascending rank l → m ≡ₚ l → m = l ∨ lex rank l m.
Proof.
  revert m. induction l as [|x l IH]; intros m Hs Hp.
  { left. by apply Permutation_nil_r in Hp. }
  destruct m as [|y m]; [by apply Permutation_nil_cons in Hp|].
  apply StronglySorted_inv in Hs as [Hs Hx]. rewrite Forall_forall in Hx.
  assert (y ∈ x :: l) as [->|Hy]%elem_of_cons by (rewrite <- Hp; left).
  - apply Permutation_cons_inv in Hp. destruct (IH m Hs Hp) as [->|?]; [by left|right; cbn; auto].
  - specialize (Hx y Hy).
    destruct (decide (rank x = rank y)) as [E%(inj rank)|]; [|right; left; lia].
    subst y. apply Permutation_cons_inv in Hp. destruct (IH m Hs Hp) as [->|?]; [by left|right; cbn; auto].
Qed.

Lemma ascending_reverse l : descending rank l → ascending rank (reverse l).
Proof.
  induction l as [|x l IH]; intros Hs; [constructor|].
  apply StronglySorted_inv in Hs as [Hs Hx]. rewrite reverse_cons. specialize (IH Hs).
  assert (Forall (λ b, rank b ≤ rank x) (reverse l)) as Hx' by (by rewrite reverse_Permutation).
  clear -IH Hx'. induction (reverse l) as [|y t IHt]; cbn; [repeat constructor|].
  apply StronglySorted_inv in IH as [Ht Hy]. apply Forall_cons in Hx' as [Hyx Hx'].
  constructor; [by apply IHt|]. apply Forall_app. split; [done|]. by repeat constructor.
Qed.

(** ** [swap_rightmost] *)
Lemma swap_rightmost_None x t : swap_rightmost rank x t = None → Forall (λ y, rank y ≤ rank x) t.
Proof.
  induction t as [|y t IH]; cbn; [constructor|].
  destruct (swap_rightmost rank x t) as [[]|]; [done|].
  destruct (Z.ltb_spec (rank x) (rank y)); [done|]. intros _. constructor; [lia|auto].
Qed.

Lemma swap_rightmost_Some x t y t' :
  swap_rightmost rank x t = Some (y, t') → descending rank t →
  y :: t' ≡ₚ x :: t ∧ rank x < rank y ∧ descending rank t' ∧
  Forall (λ z, rank x < rank z → rank y ≤ rank z) t.
Proof.
  revert t'. induction t as [|w t IH]; intros t' Hsw Hs; [done|]. cbn in Hsw.
  apply StronglySorted_inv in Hs as [Hs Hw].
  destruct (swap_rightmost rank x t) as [[z t'']|] eqn:E.
  - injection Hsw as <- <-. destruct (IH _ eq_refl Hs) as (Hp & Hlt & Hd & Hmin).
    assert (z ∈ t) as Hz.
    { assert (z ∈ x :: t) as [->|]%elem_of_cons by (rewrite <- Hp; left); [lia|done]. }
    rewrite Forall_forall in Hw. pose proof (Hw z Hz) as Hzw.
    split_and!; [by rewrite (Permutation_swap w z), Hp; constructor|done| |by constructor].
    constructor; [done|]. apply Forall_forall. intros u Hu.
    assert (u ∈ x :: t) as [->|Hut]%elem_of_cons by (rewrite <- Hp; by right); [lia|].
    by apply Hw.
  - destruct (Z.ltb_spec (rank x) (rank w)); [|done]. injection Hsw as <- <-.
    pose proof (swap_rightmost_None _ _ E) as Hle.
    split_and!; [constructor|done|by constructor|]. constructor; [lia|].
    eapply Forall_impl; [exact Hle|]. cbn. lia.
Qed.

(** ** [next_permutation] *)
Lemma next_None_descending l : next_permutation rank l = None → descending rank l.
Proof.
  induction l as [|x t IH]; cbn; [constructor|].
  destruct (next_permutation rank t) eqn:E1; [done|].
  destruct (swap_rightmost rank x t) as [[]|] eqn:E2; [done|]. intros _.
  constructor; [by apply IH|]. by apply swap_rightmost_None.
Qed.

Lemma next_permutation_perm l m : next_permutation rank l = Some m → m ≡ₚ l.
Proof.
  revert m. induction l as [|x t IH]; intros m; cbn; [done|].
  destruct (next_permutation rank t) as [t'|] eqn:E1.
  { intros [= <-]. by rewrite (IH _ eq_refl). }
  destruct (swap_rightmost rank x t) as [[y t']|] eqn:E2; [|done]. intros [= <-].
  destruct (swap_rightmost_Some _ _ _ _ E2) as (Hp & _); [by apply next_None_descending|].
  by rewrite reverse_Permutation.
Qed.

Lemma next_permutation_lex l m : next_permutation rank l = Some m → lex rank l m.
Proof.
  revert m. induction l as [|x t IH]; intros m; cbn; [done|].
  destruct (next_permutation rank t) as [t'|] eqn:E1.
  { intros [= <-]. cbn. auto. }
  destruct (swap_rightmost rank x t) as [[y t']|] eqn:E2; [|done]. intros [= <-].
  destruct (swap_rightmost_Some _ _ _ _ E2) as (_ & ? & _); [by apply next_None_descending|].
  by left.
Qed.

(** Nothing lies between a permutation and its successor. *)
Lemma next_permutation_least l m m' :
  next_permutation rank l = Some m → m' ≡ₚ l → lex rank l m' → m' = m ∨ lex rank m m'.
Proof.
  revert m m'. induction l as [|x t IH]; intros m m'; cbn; [done|].
  destruct m' as [|z u]; [done|].
  destruct (next_permutation rank t) as [t'|] eqn:E1.
  { intros [= <-] Hp [Hlt|[-> Hlex]]; [right; by left|].
    apply Permutation_cons_inv in Hp. destruct (IH _ _ eq_refl Hp Hlex) as [->|]; cbn; auto. }
  apply next_None_descending in E1.
  destruct (swap_rightmost rank x t) as [[y t']|] eqn:E2; [|done]. intros [= <-] Hp Hlex.
  destruct (swap_rightmost_Some _ _ _ _ E2 E1) as (Hp' & Hxy & Hd & Hmin).
  destruct Hlex as [Hlt|[-> Hlex]]; [|exfalso; apply (descending_max t u E1); [by eapply Permutation_cons_inv|done]].
  assert (z ∈ x :: t) as [->|Hz]%elem_of_cons by (rewrite <- Hp; left); [lia|].
  rewrite Forall_forall in Hmin. specialize (Hmin z Hz Hlt).
  destruct (decide (rank y = rank z)) as [E%(inj rank)|]; [|right; left; lia]. subst z.
  assert (u ≡ₚ reverse t') as Hu.
  { rewrite reverse_Permutation. apply (Permutation_cons_inv (a:=y)). by rewrite Hp, Hp'. }
  destruct (ascending_min _ _ (ascending_reverse _ Hd) Hu) as [->|]; cbn; auto.
Qed.

(** ** Running to the end

    A run that starts at [l] visits the permutations above [l]; as many turns as
    there are permutations are enough. *)
Definition above (base l : list A) : nat := length (filter (lex rank l) (permutations base)).

Lemma above_next base l m :
  l ≡ₚ base → next_permutation rank l = Some m → (above base m < above base l)%nat.
Proof.
  intros Hl Hn. unfold above.
  assert (filter (lex rank m) (permutations base) =
          filter (lex rank m) (filter (lex rank l) (permutations base))) as ->.
  { induction (permutations base) as [|p ps IH]; [done|]. rewrite !filter_cons.
    pose proof (next_permutation_lex _ _ Hn) as Hlm.
    destruct (decide (lex rank l p)) as [H1|H1], (decide (lex rank m p)) as [H2|H2];
      rewrite ?filter_cons, ?IH; repeat case_decide; try done.
    exfalso. eauto using lex_trans. }
  apply (length_filter_lt _ _ m); [|apply lex_irrefl].
  apply list_elem_of_filter. split; [by apply next_permutation_lex|].
  apply permutations_Permutation. by rewrite (next_permutation_perm _ _ Hn).
Qed.

Lemma push_while_next base fuel l m :
  l ≡ₚ base → (above base l < fuel)%nat →
  m ∈ push_while (next_permutation rank) fuel l ↔ m ≡ₚ base ∧ lex rank l m.
Proof.
  revert l. induction fuel as [|fuel IH]; intros l Hl Hf; [lia|]. cbn.
  destruct (next_permutation rank l) as [l'|] eqn:E.
  - pose proof (next_permutation_perm _ _ E) as Hp. pose proof (above_next _ _ _ Hl E) as Hd.
    rewrite elem_of_cons, IH by (by rewrite ?Hp || lia). split.
    + intros [->|[Hm Hlex]]; (split; [by rewrite ?Hp|]); eauto using next_permutation_lex, lex_trans.
    + intros [Hm Hlex]. destruct (next_permutation_least _ _ m E); [by rewrite Hm, Hl|done|by left|by right].
  - split; [by intros ?%elem_of_nil|]. intros [Hm Hlex].
    edestruct (descending_max l m); [by apply next_None_descending|by rewrite Hm|done].
Qed.

Lemma length_interleave x l : length (interleave x l) = S (length l).
Proof. induction l as [|y l IH]; cbn; [done|]. by rewrite length_fmap, IH. Qed.

Lemma length_permutations l : length (permutations l) = fact (length l).
Proof.
  induction l as [|x l IH]; [done|]. cbn [permutations length fact].
  assert (∀ p, p ∈ permutations l → length p = length l) as Hlen.
  { intros p Hp%permutations_Permutation. by rewrite Hp. }
  rewrite <- IH. clear IH. revert Hlen. induction (permutations l) as [|p ps IH]; intros Hlen; [cbn; lia|].
  rewrite bind_cons, length_app, length_interleave, (Hlen p) by left.
  rewrite IH by (intros; apply Hlen; by right). cbn [length]. lia.
Qed.

Lemma above_fact base l : length base = length l → (above base l ≤ fact (length l))%nat.
Proof. intros <-. rewrite <- length_permutations. apply length_filter. Qed.
End correct.

(** Running up with a rank and down with its opposite visits every permutation. *)
Lemma all_permutations {A} `{!EqDecision A} (rank : A → Z) `{!Inj (=) (=) rank} (l m : list A) fuel :
  (fact (length l) < fuel)%nat →
  m ∈ l :: push_while (next_permutation rank) fuel l ++
      push_while (next_permutation (λ a, - rank a)) fuel l ↔ m ≡ₚ l.
Proof.
  intros Hf. assert (Inj (=) (=) (λ a, - rank a)) as Hinj.
  { intros a b H. apply (inj rank). lia. }
  rewrite elem_of_cons, elem_of_app, (push_while_next rank l), (push_while_next (λ a, - rank a) l);
    [|done|pose proof (above_fact (λ a, - rank a) l l eq_refl); lia
     |done|pose proof (above_fact rank l l eq_refl); lia].
  split; [by intros [->|[[]|[]]]|]. intros Hm.
  destruct (lex_total rank l m) as [?|[->|Hgt]]; [by rewrite Hm|by auto|by auto|].
  right. right. split; [done|]. clear -Hgt. revert l Hgt.
  induction m as [|y m IH]; intros [|x l]; cbn; try done. intros [?|[-> ?]]; [left; lia|auto].
Qed.
