(* ===== verification/EvseContext.v ===== *)
(** * Connectors and EVSEs as the Auth module keeps them

    Models [src/modules/EVSE/Auth/lib/ConnectorStateMachine.cpp],
    [src/modules/EVSE/Auth/lib/Connector.cpp] and their headers: the availability
    state machine of one connector, and the context of an EVSE with its
    connectors.  The timer of an EVSE context is part of the auth handler's model. *)

From S2P Require Import Prelude.

Module Evse.

(** ** Types, [src/types/authorization.yaml] and [src/types/evse_manager.yaml] *)
Inductive ConnectorTypeEnum :=
| cCCS1 | cCCS2 | cG105 | cMCS | cTesla | cType1 | cType2 | s309_1P_16A | s309_1P_32A | s309_3P_16A
| s309_3P_32A | sBS1361 | sCEE_7_7 | sType2 | sType3 | Other1PhMax16A | Other1PhOver16A | Other3Ph
| Pan | wInductive | wResonant | Undetermined | Unknown.

Inductive AuthorizationStatus :=
| auth_Accepted | auth_Blocked | auth_ConcurrentTx | auth_Expired | auth_Invalid | auth_NoCredit
| auth_NotAllowedTypeEVSE | auth_NotAtThisLocation | auth_NotAtThisTime | auth_Unknown
| auth_PinRequired | auth_Timeout.

Inductive AuthorizationType := OCPP | RFID | Autocharge | PlugAndCharge | BankCard.

Inductive IdTokenType :=
| Central | eMAID | MacAddress | ISO14443 | ISO15693 | KeyCode | Local_ | NoAuthorization.

#[global] Instance AuthorizationStatus_eq_dec : EqDecision AuthorizationStatus.
Proof. solve_decision. Defined.
#[global] Instance AuthorizationType_eq_dec : EqDecision AuthorizationType.
Proof. solve_decision. Defined.
#[global] Instance IdTokenType_eq_dec : EqDecision IdTokenType.
Proof. solve_decision. Defined.

Record IdToken := {
  value : string;
  token_type : IdTokenType;
  additional_info : list (string * string);
}.

#[global] Instance IdToken_eq_dec : EqDecision IdToken.
Proof. solve_decision. Defined.

(** [operator<] of the enumeration: its position in the list. *)
Definition connector_type_rank (t : ConnectorTypeEnum) : Z :=
  match t with
  | cCCS1 => 0 | cCCS2 => 1 | cG105 => 2 | cMCS => 3 | cTesla => 4 | cType1 => 5 | cType2 => 6
  | s309_1P_16A => 7 | s309_1P_32A => 8 | s309_3P_16A => 9 | s309_3P_32A => 10 | sBS1361 => 11
  | sCEE_7_7 => 12 | sType2 => 13 | sType3 => 14 | Other1PhMax16A => 15 | Other1PhOver16A => 16
  | Other3Ph => 17 | Pan => 18 | wInductive => 19 | wResonant => 20 | Undetermined => 21
  | Unknown => 22
  end.

#[global] Instance ConnectorTypeEnum_eq_dec : EqDecision ConnectorTypeEnum.
Proof. solve_decision. Defined.

#[global] Instance connector_type_rank_inj : Inj (=) (=) connector_type_rank.
Proof. intros [] []; cbn; congruence. Qed.

(** ** The state machine of a connector *)
Inductive ConnectorEvent := ENABLE | DISABLE | ERROR_CLEARED | FAULTED_event | TRANSACTION_STARTED | SESSION_FINISHED.

Inductive ConnectorState :=
| AVAILABLE | UNAVAILABLE | FAULTED | OCCUPIED | UNAVAILABLE_FAULTED | FAULTED_OCCUPIED.

#[global] Instance ConnectorState_eq_dec : EqDecision ConnectorState.
Proof. solve_decision. Defined.

(** [operator<] of the enumeration. *)
Definition connector_state_rank (s : ConnectorState) : Z :=
  match s with
  | AVAILABLE => 0 | UNAVAILABLE => 1 | FAULTED => 2 | OCCUPIED => 3
  | UNAVAILABLE_FAULTED => 4 | FAULTED_OCCUPIED => 5
  end.

(** The new state, and whether the event was accepted. *)
Definition handle_event (state : ConnectorState) (event : ConnectorEvent) : ConnectorState * bool :=
  match state with
  | AVAILABLE =>
      match event with
      | TRANSACTION_STARTED => (OCCUPIED, true)
      | DISABLE => (UNAVAILABLE, true)
      | FAULTED_event => (FAULTED, true)
      | _ => (state, false)
      end
  | UNAVAILABLE =>
      match event with
      | ENABLE => (AVAILABLE, true)
      | FAULTED_event => (UNAVAILABLE_FAULTED, true)
      | _ => (state, false)
      end
  | FAULTED =>
      match event with
      | ERROR_CLEARED => (AVAILABLE, true)
      | DISABLE => (UNAVAILABLE_FAULTED, true)
      | _ => (state, false)
      end
  | OCCUPIED =>
      match event with
      | SESSION_FINISHED => (AVAILABLE, true)
      | FAULTED_event => (FAULTED_OCCUPIED, true)
      | _ => (state, false)
      end
  | FAULTED_OCCUPIED =>
      match event with
      | ERROR_CLEARED => (OCCUPIED, true)
      | SESSION_FINISHED => (FAULTED, true)
      | _ => (state, false)
      end
  | UNAVAILABLE_FAULTED =>
      match event with
      | ENABLE => (FAULTED, true)
      | ERROR_CLEARED => (UNAVAILABLE, true)
      | _ => (state, false)
      end
  end.

(** ** Connectors *)
Record Connector := {
  connector_id : Z;
  connector_transaction_active : bool;
  state_machine : ConnectorState;
  type : ConnectorTypeEnum;
}.

Definition Connector_new (id : Z) (t : ConnectorTypeEnum) : Connector :=
  {| connector_id := id; connector_transaction_active := false; state_machine := AVAILABLE; type := t |}.

Definition submit_event (event : ConnectorEvent) (c : Connector) : Connector :=
  {| connector_id := connector_id c; connector_transaction_active := connector_transaction_active c;
     state_machine := (handle_event (state_machine c) event).1; type := type c |}.

Definition get_state (c : Connector) : ConnectorState := state_machine c.

Definition is_unavailable (c : Connector) : bool :=
  bool_decide (get_state c = UNAVAILABLE) || bool_decide (get_state c = UNAVAILABLE_FAULTED).

Definition connector_state_to_string (state : ConnectorState) : string :=
  match state with
  | AVAILABLE => "AVAILABLE"
  | OCCUPIED => "OCCUPIED"
  | UNAVAILABLE => "UNAVAILABLE"
  | FAULTED => "FAULTED"
  | FAULTED_OCCUPIED => "FAULTED_OCCUPIED"
  | UNAVAILABLE_FAULTED => "UNAVAILABLE_FAULTED"
  end.

(** ** EVSEs *)
Record Identifier := {
  id_token : IdToken;
  identifier_type : AuthorizationType;
  authorization_status : option AuthorizationStatus;
  expiry_time : option string;
  parent_id_token : option IdToken;
}.

Record EVSEContext := {
  evse_id : Z;
  evse_index : Z;
  transaction_active : bool;
  identifier : option Identifier;
  connectors : list Connector;
  timeout_in_progress : bool;
  plugged_in : bool;
  plug_in_timeout : bool;
  reported_enabled : bool;
}.

Definition EVSEContext_new (id index : Z) (cs : list Connector) : EVSEContext :=
  {| evse_id := id; evse_index := index; transaction_active := false; identifier := None;
     connectors := cs; timeout_in_progress := false; plugged_in := false; plug_in_timeout := false;
     reported_enabled := false |}.

Definition set_connectors (v : list Connector) (e : EVSEContext) : EVSEContext :=
  {| evse_id := evse_id e; evse_index := evse_index e; transaction_active := transaction_active e;
     identifier := identifier e; connectors := v; timeout_in_progress := timeout_in_progress e;
     plugged_in := plugged_in e; plug_in_timeout := plug_in_timeout e;
     reported_enabled := reported_enabled e |}.

Definition eta_evse (e : EVSEContext) : EVSEContext :=
  {| evse_id := evse_id e; evse_index := evse_index e; transaction_active := transaction_active e;
     identifier := identifier e; connectors := connectors e; timeout_in_progress := timeout_in_progress e;
     plugged_in := plugged_in e; plug_in_timeout := plug_in_timeout e;
     reported_enabled := reported_enabled e |}.

Definition set_transaction_active v e : EVSEContext := ltac:(set_field eta_evse transaction_active v e).
Definition set_identifier v e : EVSEContext := ltac:(set_field eta_evse identifier v e).
Definition set_timeout_in_progress v e : EVSEContext := ltac:(set_field eta_evse timeout_in_progress v e).
Definition set_plugged_in v e : EVSEContext := ltac:(set_field eta_evse plugged_in v e).
Definition set_plug_in_timeout v e : EVSEContext := ltac:(set_field eta_evse plug_in_timeout v e).
Definition set_reported_enabled v e : EVSEContext := ltac:(set_field eta_evse reported_enabled v e).

Definition is_occupied_state (s : ConnectorState) : bool :=
  bool_decide (s = OCCUPIED) || bool_decide (s = FAULTED_OCCUPIED).

Definition evse_is_available (e : EVSEContext) : bool :=
  if plug_in_timeout e then false
  else if bool_decide (is_Some (identifier e)) then false
  else
    let occupied := existsb (λ c, is_occupied_state (get_state c)) (connectors e) in
    let available := existsb (λ c, negb (bool_decide (get_state c = UNAVAILABLE))
                                   && negb (bool_decide (get_state c = FAULTED))) (connectors e) in
    if occupied then false else available.

Definition evse_is_unavailable (e : EVSEContext) : bool :=
  forallb is_unavailable (connectors e).

(** ** Availability

    A disabled and faulted connector counts as available: [is_available] only
    excludes the plain states [UNAVAILABLE] and [FAULTED]. *)
Lemma disabled_faulted_available e :
  plug_in_timeout e = false → identifier e = None → connectors e ≠ [] →
  Forall (λ c, get_state c = UNAVAILABLE_FAULTED) (connectors e) →
  evse_is_available e = true ∧ evse_is_unavailable e = true.
Proof.
  intros Ht Hi Hne Hall. unfold evse_is_available, evse_is_unavailable. rewrite Ht, Hi. cbn.
  assert (existsb (λ c, is_occupied_state (get_state c)) (connectors e) = false) as ->.
  { clear Hne. induction Hall as [|c cs Hc _ IH]; cbn; [done|]. by rewrite Hc. }
  assert (forallb is_unavailable (connectors e) = true) as ->.
  { clear Hne. induction Hall as [|c cs Hc _ IH]; cbn; [done|]. unfold is_unavailable at 1. by rewrite Hc. }
  split; [|done]. destruct Hall as [|c cs Hc _]; [done|]. cbn. by rewrite Hc.
Qed.

End Evse.
