(* ===== verification/Reservation.v ===== *)
(** * The reservation handler of the Auth module

    Models [src/modules/EVSE/Auth/lib/ReservationHandler.cpp] and its header, and
    the function of the auth handler that feeds it connector events
    ([AuthHandler::submit_event_for_connector]).  The calls to the reservation
    cancelled callback and to the key value store are the outputs.  Every operation
    runs under [event_mutex] and is one atomic step; the expiry of a reservation's
    timer is a request of its own.  Parsing an RFC 3339 time is a parameter. *)

From stdpp Require Import sorting.
From Stdlib Require Import Ascii String.
From S2P Require Import Prelude StdPermutation EvseContext.

Import Evse.

Module Rsv.

(** [Everest::Date::from_rfc3339], total: it never throws. *)
Class DateParser := from_rfc3339 : string → Z.

(** ** Data *)
Inductive ReservationResult := Accepted | Faulted | Occupied | Rejected | Unavailable.

Inductive ReservationEndReason := Expired | Cancelled | UsedToStartCharging | GlobalReservationRequirementDropped.

#[global] Instance ReservationResult_eq_dec : EqDecision ReservationResult.
Proof. solve_decision. Defined.

Record Reservation := {
  r_evse_id : option Z;
  reservation_id : Z;
  r_id_token : string;
  r_expiry_time : string;
  r_parent_id_token : option string;
  r_connector_type : option ConnectorTypeEnum;
}.

#[global] Instance Reservation_eq_dec : EqDecision Reservation.
Proof. solve_decision. Defined.

(** [types::reservation::Reservation r;] *)
Definition Reservation_default : Reservation :=
  {| r_evse_id := None; reservation_id := 0; r_id_token := ""; r_expiry_time := "";
     r_parent_id_token := None; r_connector_type := None |}.

(** [connector_type.value_or(Unknown)]. *)
Definition type_of (r : Reservation) : ConnectorTypeEnum := default Unknown (r_connector_type r).

Record ReservationEvseStatus := { status_reserved : gset Z; status_available : gset Z }.

Record ReservationHandler := {
  evses : gmap Z EVSEContext;
  store : bool;                              (* a key value store is configured *)
  evse_reservations : gmap Z Reservation;
  global_reservations : list Reservation;
  restored_reservations : gmap Z Z;
  timers : gmap Z Z;                         (* reservation id to expiry time *)
  reservation_cancelled_callback : bool;     (* a callback is registered *)
  last_reserved_status : gset Z;
}.

Definition ReservationHandler_new (es : gmap Z EVSEContext) (has_store : bool) : ReservationHandler :=
  {| evses := es; store := has_store; evse_reservations := ∅; global_reservations := [];
     restored_reservations := ∅; timers := ∅; reservation_cancelled_callback := false;
     last_reserved_status := ∅ |}.

Definition eta_handler (s : ReservationHandler) : ReservationHandler :=
  {| evses := evses s; store := store s; evse_reservations := evse_reservations s;
     global_reservations := global_reservations s; restored_reservations := restored_reservations s;
     timers := timers s; reservation_cancelled_callback := reservation_cancelled_callback s;
     last_reserved_status := last_reserved_status s |}.

Definition set_evses v s : ReservationHandler := ltac:(set_field eta_handler evses v s).
Definition set_evse_reservations v s : ReservationHandler := ltac:(set_field eta_handler evse_reservations v s).
Definition set_global_reservations v s : ReservationHandler := ltac:(set_field eta_handler global_reservations v s).
Definition set_restored_reservations v s : ReservationHandler :=
  ltac:(set_field eta_handler restored_reservations v s).
Definition set_timers v s : ReservationHandler := ltac:(set_field eta_handler timers v s).
Definition set_callback v s : ReservationHandler :=
  ltac:(set_field eta_handler reservation_cancelled_callback v s).
Definition set_last_reserved_status v s : ReservationHandler :=
  ltac:(set_field eta_handler last_reserved_status v s).

(** An element of the stored array: the optional evse id, and the reservation. *)
Definition stored_reservation : Type := option Z * Reservation.

Inductive output :=
| reservation_cancelled (evse_id : option Z) (id : Z) (reason : ReservationEndReason)
    (send_reservation_update : bool)
| call_store (reservations : list stored_reservation).

Inductive exn := out_of_range | bad_function_call | json_exception.

Notation op := (cmd ReservationHandler output exn).

(** ** Connector states *)
Definition connector_state_to_reservation_result (s : ConnectorState) : ReservationResult :=
  match s with
  | AVAILABLE => Accepted
  | UNAVAILABLE => Unavailable
  | FAULTED | UNAVAILABLE_FAULTED | FAULTED_OCCUPIED => Faulted
  | OCCUPIED => Occupied
  end.

Definition get_new_connector_state (current_state new_state : ConnectorState) : ConnectorState :=
  if bool_decide (new_state = OCCUPIED) then OCCUPIED
  else if connector_state_rank current_state <? connector_state_rank new_state then
    if connector_state_rank OCCUPIED <? connector_state_rank new_state then
      if bool_decide (new_state = FAULTED_OCCUPIED) then OCCUPIED
      else if bool_decide (new_state = UNAVAILABLE_FAULTED) then
        if negb (bool_decide (current_state = OCCUPIED)) then FAULTED else current_state
      else current_state
    else new_state
  else current_state.

(** A connector that fits a type; [Unknown] fits every type. *)
Definition fits (connector_type : ConnectorTypeEnum) (c : Connector) : bool :=
  bool_decide (type c = connector_type) || bool_decide (type c = Unknown)
  || bool_decide (connector_type = Unknown).

Definition has_evse_connector_type (evse_connectors : list Connector)
    (connector_type : ConnectorTypeEnum) : bool :=
  if bool_decide (connector_type = Unknown) then true
  else existsb (λ c, bool_decide (type c = Unknown) || bool_decide (type c = connector_type))
         evse_connectors.

(** The loop of [get_connector_availability_reservation_result]. *)
Fixpoint connector_availability (cs : list Connector) (connector_type : ConnectorTypeEnum)
    (connector_state : ConnectorState) : ReservationResult :=
  match cs with
  | [] => connector_state_to_reservation_result connector_state
  | c :: cs' =>
      if fits connector_type c then
        if bool_decide (get_state c = AVAILABLE) then Accepted
        else connector_availability cs' connector_type (get_new_connector_state connector_state (get_state c))
      else connector_availability cs' connector_type connector_state
  end.

Section queries.
Context (s : ReservationHandler).

Definition does_evse_connector_type_exist (connector_type : ConnectorTypeEnum) : bool :=
  existsb (λ p, has_evse_connector_type (connectors p.2) connector_type) (items (evses s)).

Definition get_evse_connector_state_reservation_result (evse_id : Z)
    (evse_specific_reservations : gmap Z Reservation) : ReservationResult :=
  match evses s !! evse_id with
  | None => Rejected
  | Some evse =>
      if plugged_in evse then connector_state_to_reservation_result OCCUPIED
      else
        match List.find (λ c, is_occupied_state (get_state c)) (connectors evse) with
        | Some c => connector_state_to_reservation_result (get_state c)
        | None =>
            if bool_decide (is_Some (evse_specific_reservations !! evse_id)) then Occupied else Accepted
        end
  end.

Definition get_connector_availability_reservation_result (evse_id : Z)
    (connector_type : ConnectorTypeEnum) : ReservationResult :=
  match evses s !! evse_id with
  | None => Rejected
  | Some evse => connector_availability (connectors evse) connector_type UNAVAILABLE
  end.

Definition get_all_evses_with_connector_type (connector_type : ConnectorTypeEnum) : list EVSEContext :=
  (items (evses s)).*2 ≫= λ evse,
    if has_evse_connector_type (connectors evse) connector_type then [evse] else [].

(** Both enumerations run until the library reports the last permutation; there
    are [n!] permutations, so [n! + 1] turns are enough. *)
Definition get_all_possible_orders (cs : list ConnectorTypeEnum) : list (list ConnectorTypeEnum) :=
  match cs with
  | [] => []
  | _ =>
      let fuel := S (fact (length cs)) in
      cs :: push_while (next_permutation connector_type_rank) fuel cs
         ++ push_while (next_permutation (λ t, - connector_type_rank t)) fuel cs
  end.

(** The condition under which a virtual car takes an EVSE. *)
Definition takes (evse_specific_reservations : gmap Z Reservation) (evse_id : Z) (evse : EVSEContext)
    (car : ConnectorTypeEnum) : bool :=
  bool_decide (get_evse_connector_state_reservation_result evse_id evse_specific_reservations = Accepted)
  && has_evse_connector_type (connectors evse) car
  && bool_decide (get_connector_availability_reservation_result evse_id car = Accepted).

(** The loop over the EVSEs of one virtual car; [continue] is the arrival of the
    remaining cars, if any, given the EVSE taken. *)
Fixpoint arrival_loop (evse_specific_reservations : gmap Z Reservation) (used_evse_ids : list Z)
    (car : ConnectorTypeEnum) (continue : option (Z → outcome exn bool))
    (es : list (Z * EVSEContext)) (is_possible : bool) : outcome exn bool :=
  match es with
  | [] => Ret is_possible
  | (evse_id, evse) :: es' =>
      if bool_decide (evse_id ∈ used_evse_ids) then
        arrival_loop evse_specific_reservations used_evse_ids car continue es' is_possible
      else if takes evse_specific_reservations evse_id evse car then
        match continue with
        | None => Ret true
        | Some k =>
            possible ← k evse_id;
            if (possible : bool) then
              arrival_loop evse_specific_reservations used_evse_ids car continue es' true
            else Ret false
        end
      else arrival_loop evse_specific_reservations used_evse_ids car continue es' is_possible
  end.

(** [next_car_arrival_order.at(0)] throws on an empty order, once an EVSE is free. *)
Fixpoint can_virtual_car_arrive (used_evse_ids : list Z) (next_car_arrival_order : list ConnectorTypeEnum)
    (evse_specific_reservations : gmap Z Reservation) : outcome exn bool :=
  match next_car_arrival_order with
  | [] =>
      if existsb (λ p, negb (bool_decide (p.1 ∈ used_evse_ids)) &&
           bool_decide (get_evse_connector_state_reservation_result p.1 evse_specific_reservations = Accepted))
           (items (evses s))
      then Throw out_of_range else Ret false
  | car :: next_arrival_order =>
      arrival_loop evse_specific_reservations used_evse_ids car
        (match next_arrival_order with
         | [] => None
         | _ => Some (λ evse_id, can_virtual_car_arrive (used_evse_ids ++ [evse_id]) next_arrival_order
                                   evse_specific_reservations)
         end)
        (items (evses s)) false
  end.

Fixpoint all_orders_possible (orders : list (list ConnectorTypeEnum))
    (evse_specific_reservations : gmap Z Reservation) : outcome exn bool :=
  match orders with
  | [] => Ret true
  | o :: orders' =>
      possible ← can_virtual_car_arrive [] o evse_specific_reservations;
      if (possible : bool) then all_orders_possible orders' evse_specific_reservations else Ret false
  end.

Definition is_reservation_possible (global_reservation_type : option ConnectorTypeEnum)
    (reservations_no_evse : list Reservation) (evse_specific_reservations : gmap Z Reservation) :
    outcome exn bool :=
  let types := (type_of <$> reservations_no_evse) ++ option_list global_reservation_type in
  if decide (size (evses s) < length types + size evse_specific_reservations)%nat then Ret false
  else all_orders_possible (get_all_possible_orders types) evse_specific_reservations.

(** The loop over the connectors of the EVSEs that offer the type. *)
Definition worst_connector_state (connector_type : ConnectorTypeEnum) (state : ConnectorState)
    (cs : list Connector) : ConnectorState :=
  foldl (λ state c,
    if negb (fits connector_type c) then state
    else if negb (bool_decide (get_state c = AVAILABLE)) then get_new_connector_state state (get_state c)
    else state) state cs.

Definition get_reservation_evse_connector_state (connector_type : ConnectorTypeEnum) : ReservationResult :=
  if negb (bool_decide (global_reservations s = [])) || negb (bool_decide (evse_reservations s = ∅))
  then Occupied
  else
    let found_state := existsb (λ p, plugged_in p.2) (items (evses s)) in
    let state := foldl (λ state p, if plugged_in p.2 then get_new_connector_state state OCCUPIED else state)
                   UNAVAILABLE (items (evses s)) in
    if negb found_state then
      match get_all_evses_with_connector_type connector_type with
      | [] => Rejected
      | es => connector_state_to_reservation_result
                (foldl (λ state e, worst_connector_state connector_type state (connectors e)) state es)
      end
    else connector_state_to_reservation_result state.

(** ** Questions of the auth handler *)
Definition is_charging_possible (evse_id : Z) : outcome exn bool :=
  if bool_decide (is_Some (evse_reservations s !! evse_id)) then Ret false
  else if negb (bool_decide (is_Some (evses s !! evse_id))) then Ret false
  else
    let reservations := <[evse_id := Reservation_default]> (evse_reservations s) in
    is_reservation_possible None (global_reservations s) reservations.

Definition is_evse_reserved (evse_id : Z) : bool :=
  bool_decide (is_Some (evse_reservations s !! evse_id)).

Definition is_evse_reserved_with (evse_id id : Z) : bool :=
  match evse_reservations s !! evse_id with
  | Some r => reservation_id r =? id
  | None => false
  end.

Definition get_evse_reservation (evse_id id : Z) : option Reservation :=
  match evse_reservations s !! evse_id with
  | Some r => if negb (reservation_id r =? id) then None else Some r
  | None => None
  end.

Definition get_evse_id_of_reservation (id : Z) : option Z :=
  fst <$> List.find (λ p, reservation_id p.2 =? id) (items (evse_reservations s)).

(** [is_equal_case_insensitive] of the helpers library, in the classic locale. *)
Definition tolower (c : ascii) : ascii :=
  let n := nat_of_ascii c in
  if Nat.leb 65 n && Nat.leb n 90 then ascii_of_nat (n + 32) else c.

Fixpoint equal_lower (str1 str2 : string) : bool :=
  match str1, str2 with
  | String a l, String b r => Ascii.eqb (tolower a) (tolower b) && equal_lower l r
  | _, _ => true
  end.

Definition is_equal_case_insensitive (str1 str2 : string) : bool :=
  if negb (String.length str1 =? String.length str2)%nat then false else equal_lower str1 str2.

Definition token_matches (r : Reservation) (id_token : string) (parent_id_token : option string) : bool :=
  is_equal_case_insensitive (r_id_token r) id_token ||
  match parent_id_token, r_parent_id_token r with
  | Some parent, Some reserved => is_equal_case_insensitive parent reserved
  | _, _ => false
  end.

Definition matches_reserved_identifier (id_token : string) (evse_id : option Z)
    (parent_id_token : option string) : option Z :=
  match evse_id ≫= λ e, evse_reservations s !! e with
  | Some r => if token_matches r id_token parent_id_token then Some (reservation_id r) else None
  | None =>
      reservation_id <$> List.find (λ r, token_matches r id_token parent_id_token) (global_reservations s)
  end.

Definition has_reservation_parent_id (evse_id : option Z) : bool :=
  let global := existsb (λ r, bool_decide (is_Some (r_parent_id_token r))) (global_reservations s) in
  match evse_id with
  | Some e =>
      if negb (bool_decide (is_Some (evses s !! e))) then false
      else match evse_reservations s !! e with
           | Some r => bool_decide (is_Some (r_parent_id_token r))
           | None => global
           end
  | None => global
  end.

End queries.

(** ** Making and cancelling reservations *)

(** The array written to the store. *)
Definition stored_array (s : ReservationHandler) : list stored_reservation :=
  ((λ p, (Some p.1, p.2)) <$> items (evse_reservations s)) ++ (pair None <$> global_reservations s).

Definition store_reservations : op () :=
  s ← cget;
  if negb (store s) then mret tt else cemit (call_store (stored_array s)).

(** Erase the first reservation with this id. *)
Fixpoint erase_reservation (id : Z) (l : list Reservation) : list Reservation :=
  match l with
  | [] => []
  | r :: l' => if reservation_id r =? id then l' else r :: erase_reservation id l'
  end.

(** The last EVSE, in key order, whose reservation has this id. *)
Definition reserved_evse (id : Z) (s : ReservationHandler) : option Z :=
  foldl (λ found p, if reservation_id p.2 =? id then Some p.1 else found) None
    (items (evse_reservations s)).

Definition cancel_reservation (id : Z) (execute_callback : bool) (reason : ReservationEndReason) :
    op (bool * option Z) :=
  s ← cget;
  if negb (bool_decide (is_Some (timers s !! id))) then mret (false, None)
  else
    cmodify (λ s, set_timers (delete id (timers s)) s) ;;
    let evse_id := reserved_evse id s in
    match evse_id with
    | Some e => cmodify (λ s, set_evse_reservations (delete e (evse_reservations s)) s)
    | None => cmodify (λ s, set_global_reservations (erase_reservation id (global_reservations s)) s)
    end ;;
    store_reservations ;;
    s2 ← cget;
    cwhen (execute_callback && reservation_cancelled_callback s2)
      (cemit (reservation_cancelled evse_id id reason execute_callback)) ;;
    mret (true, evse_id).

Definition cancel_reservation_of_evse (evse_id : Z) (execute_callback : bool) : op bool :=
  s ← cget;
  match evse_reservations s !! evse_id with
  | Some r =>
      result ← cancel_reservation (reservation_id r) execute_callback Cancelled;
      mret result.1
  | None => mret false
  end.

Definition register_reservation_cancelled_callback : op () := cmodify (set_callback true).

Definition on_reservation_used (id : Z) : op () :=
  cancel_reservation id false UsedToStartCharging ;; mret tt.

(** The lambda of [set_reservation_timer], run when the timer expires. *)
Definition on_reservation_expired (id : Z) : op () :=
  cancel_reservation id true Expired ;; mret tt.

Section dates.
Context `{!DateParser}.

Definition set_reservation_timer (r : Reservation) : op () :=
  cmodify (λ s, set_timers (<[reservation_id r := from_rfc3339 (r_expiry_time r)]> (timers s)) s).

(** The part of [make_reservation] for a reservation of one EVSE. *)
Definition make_evse_reservation (e : Z) (r : Reservation) : op ReservationResult :=
  s ← cget;
  if bool_decide (is_Some (evse_reservations s !! e)) then mret Occupied
  else
    match evses s !! e with
    | None => mret Rejected
    | Some evse =>
        let connector_type := type_of r in
        let evse_state := get_evse_connector_state_reservation_result s e (evse_reservations s) in
        let connector_state := get_connector_availability_reservation_result s e connector_type in
        if negb (has_evse_connector_type (connectors evse) connector_type) then mret Rejected
        else if negb (bool_decide (evse_state = Accepted)) then mret evse_state
        else if negb (bool_decide (connector_state = Accepted)) then mret connector_state
        else
          let evse_specific_reservations := <[e := r]> (evse_reservations s) in
          match global_reservations s with
          | [] =>
              set_reservation_timer r ;;
              cmodify (set_evse_reservations evse_specific_reservations) ;;
              store_reservations ;;
              mret Accepted
          | _ =>
              possible ← clift (is_reservation_possible s None (global_reservations s) evse_specific_reservations);
              if negb possible then mret (get_reservation_evse_connector_state s connector_type)
              else
                cmodify (set_evse_reservations evse_specific_reservations) ;;
                store_reservations ;;
                set_reservation_timer r ;;
                mret Accepted
          end
    end.

(** The part for a reservation not bound to an EVSE. *)
Definition make_global_reservation (r : Reservation) : op ReservationResult :=
  s ← cget;
  if match r_connector_type r with
     | Some t => negb (does_evse_connector_type_exist s t)
     | None => false
     end
  then mret Rejected
  else
    possible ← clift (is_reservation_possible s (Some (type_of r)) (global_reservations s) (evse_reservations s));
    if negb possible then mret (get_reservation_evse_connector_state s (type_of r))
    else
      cmodify (set_global_reservations (global_reservations s ++ [r])) ;;
      store_reservations ;;
      set_reservation_timer r ;;
      mret Accepted.

Definition make_reservation (now : Z) (evse_id : option Z) (r : Reservation) : op ReservationResult :=
  if from_rfc3339 (r_expiry_time r) <? now then mret Rejected
  else
    cancel_reservation (reservation_id r) false Cancelled ;;
    match evse_id with
    | Some e => make_evse_reservation e r
    | None => make_global_reservation r
    end.

(** ** Restoring the reservations from the store

    An element of the loaded array: unreadable as a reservation, with an unreadable
    evse id, or well formed. *)
Inductive loaded_entry :=
| unreadable_reservation
| unreadable_evse_id (r : Reservation)
| readable (e : stored_reservation).

Definition load_entry (now : Z) (entry : loaded_entry) : op () :=
  match entry with
  | unreadable_reservation => mret tt
  | unreadable_evse_id _ => cthrow json_exception
  | readable (evse_id, r) =>
      result ← make_reservation now evse_id r;
      match bool_decide (result = Accepted), evse_id with
      | true, Some e => cmodify (λ s, set_restored_reservations (<[e := reservation_id r]> (restored_reservations s)) s)
      | true, None => mret tt
      | false, _ =>
          s ← cget;
          if reservation_cancelled_callback s
          then cemit (reservation_cancelled evse_id (reservation_id r) Cancelled true)
          else cthrow bad_function_call
      end
  end.

(** [loaded] is the value read from the store, [None] if it is not an array. *)
Definition load_reservations (now : Z) (loaded : option (list loaded_entry)) : op () :=
  s ← cget;
  if negb (store s) then mret tt
  else match loaded with
       | None => mret tt
       | Some entries => cfor entries (load_entry now)
       end.

End dates.

Definition take_restored_reservation (evse_id : Z) : op (option Z) :=
  s ← cget;
  match restored_reservations s !! evse_id with
  | None => mret None
  | Some id =>
      cmodify (λ s, set_restored_reservations (delete evse_id (restored_reservations s)) s) ;;
      mret (if negb (is_evse_reserved_with s evse_id id) then None else Some id)
  end.

(** ** Connector state changes *)

(** The first loop: EVSE reservations that fit, and the ids to cancel. *)
Fixpoint check_evse_reservations (s : ReservationHandler) (l : list (Z * Reservation))
    (evse_specific_reservations : gmap Z Reservation) : outcome exn (list Z * gmap Z Reservation) :=
  match l with
  | [] => Ret ([], evse_specific_reservations)
  | (evse_id, r) :: l' =>
      let added := <[evse_id := r]> evse_specific_reservations in
      possible ← is_reservation_possible s None [] added;
      if (possible : bool) then check_evse_reservations s l' added
      else
        rest ← check_evse_reservations s l' (delete evse_id added);
        Ret (reservation_id r :: rest.1, rest.2)
  end.

(** The second loop, over the reservations without an EVSE. *)
Fixpoint check_global_reservations (s : ReservationHandler) (l : list Reservation)
    (evse_specific_reservations : gmap Z Reservation) (reservations_no_evse : list Reservation) :
    outcome exn (list Z) :=
  match l with
  | [] => Ret []
  | r :: l' =>
      possible ← is_reservation_possible s (r_connector_type r) reservations_no_evse evse_specific_reservations;
      if (possible : bool) then
        check_global_reservations s l' evse_specific_reservations (reservations_no_evse ++ [r])
      else
        rest ← check_global_reservations s l' evse_specific_reservations reservations_no_evse;
        Ret (reservation_id r :: rest)
  end.

Definition check_reservations_and_cancel_if_not_possible : op () :=
  s ← cget;
  first ← clift (check_evse_reservations s (items (evse_reservations s)) ∅);
  second ← clift (check_global_reservations s (global_reservations s) first.2 []);
  cfor (first.1 ++ second) (λ id, cancel_reservation id true Cancelled ;; mret tt).

(** [evses[evse_id]->connectors] and [find_if] by connector id. *)
Definition find_connector (evse : EVSEContext) (id : Z) : option Connector :=
  List.find (λ c, connector_id c =? id) (connectors evse).

(** Whether a reservation of the EVSE is bound to the changed connector. *)
Definition bound_to (r : Reservation) (c : Connector) : bool :=
  match r_connector_type r with
  | Some t => bool_decide (type c = t) || bool_decide (type c = Unknown) || bool_decide (t = Unknown)
  | None => false
  end.

Definition on_connector_state_changed (connector_state : ConnectorState) (evse_id conn_id : Z) : op () :=
  if bool_decide (connector_state = AVAILABLE) then mret tt
  else
    s ← cget;
    match evses s !! evse_id with
    | None => mret tt
    | Some evse =>
        match find_connector evse conn_id with
        | None => mret tt
        | Some c =>
            match evse_reservations s !! evse_id with
            | Some r =>
                if bound_to r c then cancel_reservation (reservation_id r) true Cancelled ;; mret tt
                else check_reservations_and_cancel_if_not_possible
            | None => check_reservations_and_cancel_if_not_possible
            end
        end
    end.

(** [AuthHandler::submit_event_for_connector]: the first connector with the id. *)
Fixpoint submit_to_connector (id : Z) (event : ConnectorEvent) (cs : list Connector) :
    list Connector * option ConnectorState :=
  match cs with
  | [] => ([], None)
  | c :: cs' =>
      if connector_id c =? id then (submit_event event c :: cs', Some (get_state (submit_event event c)))
      else let '(cs'', st) := submit_to_connector id event cs' in (c :: cs'', st)
  end.

Definition submit_event_for_connector (evse_id conn_id : Z) (event : ConnectorEvent) : op () :=
  s ← cget;
  match evses s !! evse_id with
  | None => cthrow out_of_range
  | Some evse =>
      let '(cs, state) := submit_to_connector conn_id event (connectors evse) in
      cmodify (set_evses (<[evse_id := set_connectors cs evse]> (evses s))) ;;
      match state with
      | Some st => on_connector_state_changed st evse_id conn_id
      | None => mret tt
      end
  end.

(** ** EVSEs reserved by reservations without an EVSE *)
Definition get_evse_global_reserved_status_and_set_new_status
    (currently_available_evses reserved_evses : gset Z) : op ReservationEvseStatus :=
  s ← cget;
  let last := last_reserved_status s in
  cmodify (set_last_reserved_status reserved_evses) ;;
  mret {| status_reserved := filter (λ e, e ∉ last) reserved_evses;
          status_available := filter (λ e, e ∉ reserved_evses ∧ e ∈ last) currently_available_evses |}.

Definition available_evses (s : ReservationHandler) : gset Z :=
  list_to_set ((items (evses s)).*1 ≫= λ e,
    if bool_decide (get_evse_connector_state_reservation_result s e (evse_reservations s) = Accepted)
       && bool_decide (get_connector_availability_reservation_result s e Unknown = Accepted)
    then [e] else []).

(** The available EVSEs that offer the type of a reservation that no further
    reservation of that type fits beside. *)
Fixpoint reserved_by_type (s : ReservationHandler) (available : gset Z) (l : list Reservation) :
    outcome exn (gset Z) :=
  match l with
  | [] => Ret ∅
  | r :: l' =>
      possible ← is_reservation_possible s (r_connector_type r) (global_reservations s) (evse_reservations s);
      rest ← reserved_by_type s available l';
      if (possible : bool) then Ret rest
      else Ret (list_to_set ((items (evses s)) ≫= λ p,
                  if bool_decide (p.1 ∈ available) && has_evse_connector_type (connectors p.2) (type_of r)
                  then [p.1] else []) ∪ rest)
  end.

Definition check_number_global_reservations_match_number_available_evses : op ReservationEvseStatus :=
  s ← cget;
  let available := available_evses s in
  if decide (size available = length (global_reservations s)) then
    get_evse_global_reserved_status_and_set_new_status available available
  else
    reserved ← clift (reserved_by_type s available (global_reservations s));
    get_evse_global_reserved_status_and_set_new_status available reserved.

End Rsv.
