(* ===== verification/ReservationFacts.v ===== *)
(** * When reservations can be honoured

    [is_reservation_possible] simulates arriving cars.  Its specification is a
    game: cars arrive in any order, each takes any free EVSE that fits, and a
    reservation is possible when no run of the game strands a car.  The file proves
    that the code decides this, and how the answer depends on the reservations. *)

From stdpp Require Import sorting.
From S2P Require Import Prelude StdPermutation EvseContext Reservation.

Import Evse Rsv.

(** ** The game of arriving cars

    [fits_at e car]: the car can take the EVSE while it is free. *)
Section game.
Context (fits_at : Z → ConnectorTypeEnum → Prop).

Inductive strands : list Z → list ConnectorTypeEnum → Prop :=
| strands_now taken car cars :
    (∀ e, fits_at e car → e ∈ taken) → strands taken (car :: cars)
| strands_later taken e car cars :
    fits_at e car → e ∉ taken → strands (taken ++ [e]) cars → strands taken (car :: cars).

Lemma strands_app taken cars more : strands taken cars → strands taken (cars ++ more).
Proof. induction 1; [by constructor|by econstructor]. Qed.

(** Fewer taken EVSEs never strand a car that was served. *)
Lemma strands_mono taken taken' cars :
  (∀ car (tk : list Z), (∃ e, fits_at e car ∧ e ∉ tk) ∨ ∀ e, fits_at e car → e ∈ tk) →
  strands taken' cars → taken' ⊆ taken → strands taken cars.
Proof.
  intros Hdec Hs. revert taken.
  induction Hs as [taken' car cars Hno|taken' e car cars Hfit Hfree _ IH]; intros taken Hsub.
  { apply strands_now. eauto. }
  destruct (decide (e ∈ taken)) as [Hin|Hnin].
  - destruct (Hdec car taken) as [(f & Hf & Hff)|Hno]; [|by apply strands_now].
    apply (strands_later _ f); [done|done|]. apply IH. set_solver.
  - apply (strands_later _ e); [done|done|]. apply IH. set_solver.
Qed.
End game.

(** Only the EVSEs that are free and fit matter. *)
Lemma strands_transfer fits_at fits_at' taken taken' cars :
  (∀ e car, fits_at' e car ∧ e ∉ taken' ↔ fits_at e car ∧ e ∉ taken) →
  strands fits_at taken cars → strands fits_at' taken' cars.
Proof.
  intros Hext Hs. revert taken' Hext.
  induction Hs as [taken car cars Hno|taken e car cars Hfit Hfree _ IH]; intros taken' Hext.
  - apply strands_now. intros e He. destruct (decide (e ∈ taken')) as [|Hn]; [done|].
    exfalso. destruct (proj1 (Hext e car) (conj He Hn)) as [H1 H2]. eauto.
  - destruct (proj2 (Hext e car) (conj Hfit Hfree)) as [H1 H2].
    apply (strands_later _ _ e); [done|done|]. apply IH. intros e' car'.
    rewrite !not_elem_of_app. specialize (Hext e' car'). tauto.
Qed.

(** ** The code plays the game *)
Definition eligible (s : ReservationHandler) (res : gmap Z Reservation) (e : Z)
    (car : ConnectorTypeEnum) : Prop :=
  ∃ evse, evses s !! e = Some evse ∧ takes s res e evse car = true.

Lemma eligible_free s res car (taken : list Z) :
  (∃ e, eligible s res e car ∧ e ∉ taken) ∨ ∀ e, eligible s res e car → e ∈ taken.
Proof.
  destruct (decide (Exists (λ p, takes s res p.1 p.2 car = true ∧ p.1 ∉ taken) (items (evses s)))) as [H|H].
  - left. apply Exists_exists in H as ([e evse] & Hin & Ht & Hn). apply elem_of_items in Hin.
    exists e. split; [by exists evse|done].
  - right. intros e (evse & Hev & Ht). destruct (decide (e ∈ taken)) as [|Hn]; [done|].
    destruct H. apply Exists_exists. exists (e, evse). by rewrite elem_of_items.
Qed.

Section loop.
Context (s : ReservationHandler) (res : gmap Z Reservation) (used : list Z) (car : ConnectorTypeEnum).

Definition takeable (p : Z * EVSEContext) : bool :=
  negb (bool_decide (p.1 ∈ used)) && takes s res p.1 p.2 car.

Lemma loop_last es b :
  arrival_loop s res used car None es b = Ret (b || existsb takeable es).
Proof.
  revert b. induction es as [|[e evse] es IH]; intros b; cbn; [by rewrite orb_false_r|].
  change (takeable (e, evse)) with (negb (bool_decide (e ∈ used)) && takes s res e evse car).
  destruct (bool_decide (e ∈ used)); cbn; [apply IH|].
  destruct (takes s res e evse car); cbn; [by rewrite orb_true_r|apply IH].
Qed.

Lemma loop_more (f : Z → bool) k es b :
  (∀ e, k e = Ret (f e)) →
  arrival_loop s res used car (Some k) es b =
  Ret (forallb (λ p, negb (takeable p) || f p.1) es && (b || existsb takeable es)).
Proof.
  intros Hk. revert b. induction es as [|[e evse] es IH]; intros b; cbn; [by rewrite orb_false_r|].
  change (takeable (e, evse)) with (negb (bool_decide (e ∈ used)) && takes s res e evse car).
  destruct (bool_decide (e ∈ used)); cbn; [apply IH|].
  destruct (takes s res e evse car); cbn; [|apply IH].
  rewrite Hk. cbn. destruct (f e); cbn; [|done]. by rewrite IH, orb_true_r.
Qed.

Lemma takeable_eligible :
  existsb takeable (items (evses s)) = true ↔ ∃ e, eligible s res e car ∧ e ∉ used.
Proof.
  rewrite existsb_exists. split.
  - intros ([e evse] & Hin%list_elem_of_In & Ht). apply elem_of_items in Hin.
    unfold takeable in Ht. apply andb_true_iff in Ht as [Hu%negb_true_iff%bool_decide_eq_false Ht].
    exists e. split; [by exists evse|done].
  - intros (e & (evse & Hev & Ht) & Hu). exists (e, evse).
    rewrite <- list_elem_of_In, elem_of_items. split; [done|]. unfold takeable; cbn.
    by rewrite Ht, bool_decide_eq_false_2.
Qed.
End loop.

Lemma can_arrive_spec s res order used :
  order ≠ [] →
  ∃ b, can_virtual_car_arrive s used order res = Ret b ∧
       (b = false ↔ strands (eligible s res) used order).
Proof.
  revert used. induction order as [|car order IH]; intros used; [done|]. intros _. cbn.
  destruct order as [|car2 order].
  - rewrite loop_last. eexists. split; [done|]. cbn. rewrite <- not_true_iff_false, takeable_eligible.
    split.
    + intros Hno. apply strands_now. intros e He. destruct (decide (e ∈ used)); naive_solver.
    + intros Hs (e & He & Hu). inversion Hs as [? ? ? Hno|? e' ? ? _ _ Hs']; subst; [eauto|inversion Hs'].
  - set (k := λ e, can_virtual_car_arrive s (used ++ [e]) (car2 :: order) res).
    set (f := λ e, match k e with Ret b => b | _ => false end).
    assert (∀ e, k e = Ret (f e) ∧ (f e = false ↔ strands (eligible s res) (used ++ [e]) (car2 :: order))) as Hk.
    { intros e. destruct (IH (used ++ [e])) as (b & Hb & Hspec); [done|]. unfold f. fold (k e) in Hb.
      rewrite Hb. done. }
    rewrite (loop_more s res used car f) by apply Hk. eexists. split; [done|]. cbn.
    rewrite andb_false_iff, <- !not_true_iff_false, takeable_eligible, forallb_forall. split.
    + intros [Hf|Hno].
      * destruct (eligible_free s res car used) as [Hex|]; [|by apply strands_now].
        assert (Exists (λ p, takeable s res used car p = true ∧ f p.1 = false) (items (evses s))) as HE.
        { apply dec_stable. intros Hn. apply Hf. intros p Hp%list_elem_of_In.
          rewrite <- Forall_Exists_neg, Forall_forall in Hn. specialize (Hn p Hp).
          destruct (takeable s res used car p), (f p.1); naive_solver. }
        apply Exists_exists in HE as ([e evse] & Hin & Ht & Hfe). apply elem_of_items in Hin.
        unfold takeable in Ht. apply andb_true_iff in Ht as [Hu%negb_true_iff%bool_decide_eq_false Ht].
        apply (strands_later _ _ e); [by exists evse|done|by apply Hk].
      * apply strands_now. intros e He. destruct (decide (e ∈ used)); naive_solver.
    + intros Hs. inversion Hs as [? ? ? Hno|? e ? ? He Hu Hs']; subst.
      * right. naive_solver.
      * left. intros Hall. destruct He as (evse & Hev & Ht).
        specialize (Hall (e, evse)). rewrite <- list_elem_of_In, elem_of_items in Hall. specialize (Hall Hev).
        unfold takeable in Hall; cbn in Hall. rewrite Ht, bool_decide_eq_false_2 in Hall by done.
        apply Hk in Hs'. by rewrite Hs' in Hall.
Qed.

(** ** What [is_reservation_possible] decides

    [servable s types res]: there are enough EVSEs, and in whatever order the cars
    arrive and whichever fitting EVSE each takes, no car is stranded. *)
Definition servable (s : ReservationHandler) (types : list ConnectorTypeEnum) (res : gmap Z Reservation) : Prop :=
  (length types + size res ≤ size (evses s))%nat ∧
  ∀ order, order ≡ₚ types → ¬ strands (eligible s res) [] order.

Lemma all_orders_spec s res orders :
  Forall (λ o, o ≠ []) orders →
  ∃ b, all_orders_possible s orders res = Ret b ∧
       (b = true ↔ Forall (λ o, ¬ strands (eligible s res) [] o) orders).
Proof.
  induction 1 as [|o orders Ho _ (b & IHb & IH)]; cbn; [exists true; by split|].
  destruct (can_arrive_spec s res o [] Ho) as ([] & -> & Hspec); cbn.
  - exists b. rewrite Forall_cons, IH. split; [done|]. naive_solver.
  - exists false. rewrite Forall_cons. naive_solver.
Qed.

Lemma elem_of_orders cs o : cs ≠ [] → o ∈ get_all_possible_orders cs ↔ o ≡ₚ cs.
Proof.
  intros Hcs. rewrite <- (all_permutations connector_type_rank cs o (S (fact (length cs)))) by lia.
  by destruct cs.
Qed.

Definition types_with (gs : list Reservation) (t : option ConnectorTypeEnum) : list ConnectorTypeEnum :=
  (type_of <$> gs) ++ option_list t.

Lemma is_possible_eq s t gs res :
  ∃ b, is_reservation_possible s t gs res = Ret b ∧ (b = true ↔ servable s (types_with gs t) res).
Proof.
  unfold is_reservation_possible, servable. fold (types_with gs t). cbv zeta. case_decide as Hc.
  { exists false. split; [done|]. split; [done|]. intros []; lia. }
  destruct (decide (types_with gs t = [])) as [E|Hne].
  - rewrite E in *. exists true. split; [done|]. split; [|done]. intros _. split; [lia|].
    intros o ->%Permutation_nil_r Hs. inversion Hs.
  - destruct (all_orders_spec s res (get_all_possible_orders (types_with gs t))) as (b & Hb & Hspec).
    { apply Forall_forall. intros o Ho%elem_of_orders; [|done]. intros ->.
      by apply Permutation_nil_l in Ho. }
    exists b. split; [done|]. rewrite Hspec, Forall_forall. split.
    + intros H. split; [lia|]. intros o Ho. apply H. by apply elem_of_orders.
    + intros [_ H] o Ho%elem_of_orders; [|done]. by apply H.
Qed.

Lemma possible_servable s t gs res :
  is_reservation_possible s t gs res = Ret true ↔ servable s (types_with gs t) res.
Proof. destruct (is_possible_eq s t gs res) as (b & -> & <-). by split; [intros [= ->]|intros ->]. Qed.

Lemma not_possible s t gs res :
  ¬ servable s (types_with gs t) res → is_reservation_possible s t gs res = Ret false.
Proof. destruct (is_possible_eq s t gs res) as ([] & -> & H); [naive_solver|done]. Qed.

Lemma types_with_None gs : types_with gs None = type_of <$> gs.
Proof. apply app_nil_r. Qed.

Lemma types_with_Some gs r : types_with gs (Some (type_of r)) = type_of <$> (gs ++ [r]).
Proof. by rewrite fmap_app. Qed.

(** ** How servability depends on the reservations *)

(** An EVSE is eligible if it would be without EVSE reservations, and has none. *)
Lemma occupied_not_accepted st :
  is_occupied_state st = true → connector_state_to_reservation_result st ≠ Accepted.
Proof. by destruct st. Qed.

Lemma evse_state_accepted s e res :
  get_evse_connector_state_reservation_result s e res = Accepted ↔
  get_evse_connector_state_reservation_result s e ∅ = Accepted ∧ res !! e = None.
Proof.
  unfold get_evse_connector_state_reservation_result. destruct (evses s !! e) as [evse|]; [|naive_solver].
  destruct (plugged_in evse); [naive_solver|].
  destruct (List.find _ _) as [c|] eqn:Hf.
  { apply List.find_some in Hf as [_ Hocc%occupied_not_accepted]. naive_solver. }
  rewrite lookup_empty. rewrite (bool_decide_eq_false_2 (is_Some None)) by (by intros []).
  destruct (res !! e); [rewrite bool_decide_eq_true_2 by eauto; naive_solver|].
  rewrite bool_decide_eq_false_2 by (by intros []). naive_solver.
Qed.

Lemma eligible_iff s res e car : eligible s res e car ↔ eligible s ∅ e car ∧ res !! e = None.
Proof.
  assert (∀ evse, takes s res e evse car = true ↔ takes s ∅ e evse car = true ∧ res !! e = None) as Ht.
  { intros evse. unfold takes. rewrite !andb_true_iff, !bool_decide_eq_true, (evse_state_accepted s e res).
    tauto. }
  unfold eligible. setoid_rewrite Ht. naive_solver.
Qed.

(** Giving up EVSE reservations keeps the others servable. *)
Lemma servable_release s types res res' :
  servable s types res → res' ⊆ res → servable s types res'.
Proof.
  intros [Hn Hs] Hsub. split.
  { pose proof (map_subseteq_size _ _ Hsub). lia. }
  intros order Ho Hst. apply (Hs order Ho).
  apply (strands_mono _ (elements (dom res))) in Hst; [|apply eligible_free|set_solver].
  revert Hst. apply strands_transfer. intros e car.
  rewrite (eligible_iff s res' e car), (eligible_iff s res e car), elem_of_elements, not_elem_of_dom. split.
  - intros [[H1 H2] _]. split_and!; [done|by eapply lookup_weaken_None|done].
  - intros [[H1 H2] H3]. split; [done|]. set_solver.
Qed.

(** Fewer cars are served too. *)
Lemma servable_fewer s types types' res :
  servable s types res → types' ⊆+ types → servable s types' res.
Proof.
  intros [Hn Hs] Hsub. destruct (submseteq_Permutation _ _ Hsub) as [k Hk].
  rewrite Hk, length_app in Hn. split; [lia|]. intros order Ho Hst.
  apply (Hs (order ++ k)); [by rewrite Ho|]. by apply strands_app.
Qed.

(** A served car finds an EVSE of its type. *)
Lemma servable_offers s types res car :
  servable s types res → car ∈ types → ∃ e, eligible s res e car.
Proof.
  intros [_ Hs] (k & Hk)%elem_of_Permutation.
  destruct (eligible_free s res car []) as [(e & He & _)|Hno]; [by exists e|].
  destruct (Hs (car :: k)); [done|]. by apply strands_now.
Qed.

(** ** Properties *)

(** C37: [is_reservation_possible] always answers, and it answers yes exactly if
    there are as many EVSEs as reservations and no game of arriving cars strands a
    car: for every order in which the cars of the reservations without an EVSE
    arrive and whichever free EVSE of a fitting type each of them takes, the next
    car still finds one. *)
Theorem reservation_possible_iff_all_served s t gs res :
  ∃ b, is_reservation_possible s t gs res = Ret b ∧
       (b = true ↔ (length (types_with gs t) + size res ≤ size (evses s))%nat ∧
                   ∀ order, order ≡ₚ types_with gs t → ¬ strands (eligible s res) [] order).
Proof. apply is_possible_eq. Qed.

(** A car without a reservation may charge at an EVSE exactly if the EVSE
    exists, is not reserved itself, and every reservation without an EVSE can still
    be honoured, in every order of arrival, once that EVSE is taken. *)
Lemma charging_leaves_reservations_served s e :
  ∃ b, is_charging_possible s e = Ret b ∧
       (b = true ↔
          is_Some (evses s !! e) ∧ evse_reservations s !! e = None ∧
          (length (global_reservations s) + size (evse_reservations s) < size (evses s))%nat ∧
          ∀ order, order ≡ₚ type_of <$> global_reservations s →
            ¬ strands (eligible s (evse_reservations s)) [e] order).
Proof.
  unfold is_charging_possible. case_bool_decide as Hr.
  { exists false. split; [done|]. split; [done|]. intros (_ & Hno & _). rewrite Hno in Hr. by destruct Hr. }
  case_bool_decide as He; cbn; [|exists false; naive_solver].
  rewrite <- eq_None_not_Some in Hr.
  destruct (is_possible_eq s None (global_reservations s) (<[e:=Reservation_default]> (evse_reservations s)))
    as (b & -> & Hb). exists b. split; [done|]. rewrite Hb. unfold servable.
  rewrite types_with_None, length_fmap, map_size_insert_None by done.
  assert (∀ order, strands (eligible s (<[e:=Reservation_default]> (evse_reservations s))) [] order ↔
                   strands (eligible s (evse_reservations s)) [e] order) as Hgame.
  { assert (∀ x car, eligible s (<[e:=Reservation_default]> (evse_reservations s)) x car ∧ x ∉ [] ↔
                     eligible s (evse_reservations s) x car ∧ x ∉ [e]) as Hx.
    { intros x car. rewrite eligible_iff, (eligible_iff s (evse_reservations s)), lookup_insert_None.
      set_solver. }
    intros order. split; apply strands_transfer; intros x car; by rewrite Hx. }
  setoid_rewrite Hgame. split; [intros [? ?]|intros (_ & _ & ? & ?)]; split_and!; try done; lia.
Qed.
