(* ===== verification/ReservationInv.v ===== *)
(** * The reservation handler keeps its promises

    The consistency of the handler's tables (unique ids, one timer per
    reservation, reserved EVSEs exist), the effect of cancelling and making
    reservations on them, and the theorems: the reservations made stay servable and
    mirrored in the store, and they survive a restart. *)

From stdpp Require Import sorting.
From S2P Require Import Prelude StdPermutation EvseContext Reservation ReservationFacts.

Import Evse Rsv.

(** ** Consistency *)
Definition holds (s : ReservationHandler) (id : Z) : Prop :=
  (∃ e r, evse_reservations s !! e = Some r ∧ reservation_id r = id) ∨
  id ∈ reservation_id <$> global_reservations s.

Record wf (s : ReservationHandler) : Prop := {
  wf_evse_ids e e' r r' :
    evse_reservations s !! e = Some r → evse_reservations s !! e' = Some r' →
    reservation_id r = reservation_id r' → e = e';
  wf_global_ids : NoDup (reservation_id <$> global_reservations s);
  wf_disjoint e r :
    evse_reservations s !! e = Some r → reservation_id r ∉ reservation_id <$> global_reservations s;
  wf_timers id : is_Some (timers s !! id) ↔ holds s id;
  wf_dom e : is_Some (evse_reservations s !! e) → is_Some (evses s !! e);
}.

(** The reservations made can all be honoured. *)
Definition served (s : ReservationHandler) : Prop :=
  servable s (type_of <$> global_reservations s) (evse_reservations s).

Lemma wf_size s : wf s → (size (evse_reservations s) ≤ size (evses s))%nat.
Proof.
  intros Hwf. rewrite <- !size_dom. apply subseteq_size. intros e He.
  apply elem_of_dom, (wf_dom s Hwf). by apply elem_of_dom.
Qed.

(** ** The handler without some reservations *)
Definition without (ids : list Z) (s : ReservationHandler) : ReservationHandler :=
  set_timers (filter (λ p : Z * Z, p.1 ∉ ids) (timers s))
    (set_global_reservations (filter (λ r, reservation_id r ∉ ids) (global_reservations s))
      (set_evse_reservations (filter (λ p : Z * Reservation, reservation_id p.2 ∉ ids) (evse_reservations s)) s)).

Lemma without_lookup ids s e r :
  evse_reservations (without ids s) !! e = Some r ↔
  evse_reservations s !! e = Some r ∧ reservation_id r ∉ ids.
Proof. apply map_lookup_filter_Some. Qed.

Lemma without_globals ids s id :
  id ∈ reservation_id <$> global_reservations (without ids s) ↔
  id ∈ reservation_id <$> global_reservations s ∧ id ∉ ids.
Proof.
  cbn. rewrite !list_elem_of_fmap. setoid_rewrite list_elem_of_filter. naive_solver.
Qed.

Lemma holds_without ids s id : holds (without ids s) id ↔ holds s id ∧ id ∉ ids.
Proof.
  unfold holds. rewrite without_globals. setoid_rewrite without_lookup. naive_solver.
Qed.

Lemma wf_without ids s : wf s → wf (without ids s).
Proof.
  intros Hwf. split.
  - intros e e' r r' [H1 _]%without_lookup [H2 _]%without_lookup. by apply (wf_evse_ids s Hwf).
  - eapply sublist_NoDup; [exact (wf_global_ids s Hwf)|]. cbn. apply fmap_sublist, sublist_filter.
  - intros e r [H1 _]%without_lookup. rewrite without_globals. intros [H2 _]. by apply (wf_disjoint s Hwf) in H1.
  - intros id. rewrite holds_without, <- (wf_timers s Hwf). cbn. unfold is_Some.
    setoid_rewrite map_lookup_filter_Some. naive_solver.
  - intros e [r [H _]%without_lookup]. apply (wf_dom s Hwf). eauto.
Qed.

Lemma served_without ids s : served s → served (without ids s).
Proof.
  intros Hs. unfold served. apply (servable_release (without ids s) _ (evse_reservations s)).
  - apply (servable_fewer s (type_of <$> global_reservations s)); [done|]. cbn.
    apply fmap_submseteq, sublist_submseteq, sublist_filter.
  - cbn. apply map_filter_subseteq.
Qed.

Lemma without_absent ids s : wf s → (∀ id, id ∈ ids → ¬ holds s id) → without ids s = s.
Proof.
  intros Hwf Hno. unfold without.
  rewrite (map_filter_id _ (timers s)), (list_filter_all _ (global_reservations s)),
    (map_filter_id _ (evse_reservations s)).
  - by destruct s.
  - intros e r Hr Hin. apply (Hno _ Hin). left. eauto.
  - intros r Hr Hin. apply (Hno _ Hin). right. by apply list_elem_of_fmap_2.
  - intros id t Ht Hin. apply (Hno _ Hin), (wf_timers s Hwf). eauto.
Qed.

Lemma without_without ids ids' s : without ids' (without ids s) = without (ids ++ ids') s.
Proof.
  unfold without; destruct s; cbn; unfold set_timers, set_global_reservations, set_evse_reservations; cbn. f_equal.
  - rewrite map_filter_filter. apply map_filter_ext. intros i r _. cbn. rewrite elem_of_app. tauto.
  - rewrite list_filter_filter. apply list_filter_iff. intros r. rewrite elem_of_app. tauto.
  - rewrite map_filter_filter. apply map_filter_ext. intros i r _. cbn. rewrite elem_of_app. tauto.
Qed.

(** ** Cancelling *)
Lemma reserved_evse_spec id s :
  match reserved_evse id s with
  | Some e => ∃ r, evse_reservations s !! e = Some r ∧ reservation_id r = id
  | None => ∀ e r, evse_reservations s !! e = Some r → reservation_id r ≠ id
  end.
Proof.
  unfold reserved_evse.
  assert (∀ l found, match foldl (λ found (p : Z * Reservation),
              if reservation_id p.2 =? id then Some p.1 else found) found l with
            | Some e => found = Some e ∨ ∃ r, (e, r) ∈ l ∧ reservation_id r = id
            | None => found = None ∧ ∀ e r, (e, r) ∈ l → reservation_id r ≠ id
            end) as Hfold.
  { induction l as [|[e r] l IH]; intros found; cbn.
    { destruct found; [by left|]. split; [done|]. intros ? ? ?%elem_of_nil. done. }
    specialize (IH (if reservation_id r =? id then Some e else found)).
    destruct (foldl _ _ l) as [e'|].
    - destruct IH as [Hf|(r' & Hin & Hr')]; [|right; exists r'; by rewrite elem_of_cons; auto].
      destruct (Z.eqb_spec (reservation_id r) id); [|by left]. simplify_eq. right. exists r.
      rewrite elem_of_cons. auto.
    - destruct IH as [Hf Hl]. destruct (Z.eqb_spec (reservation_id r) id); [done|]. split; [done|].
      intros e' r' [[= -> ->]|Hin]%elem_of_cons; [done|eauto]. }
  specialize (Hfold (items (evse_reservations s)) None). destruct (foldl _ _ _).
  - destruct Hfold as [?|(r & Hin & Hr)]; [done|]. exists r. by rewrite <- elem_of_items.
  - intros e r Hr. by apply (proj2 Hfold e), elem_of_items.
Qed.

Lemma erase_filter id l :
  NoDup (reservation_id <$> l) → erase_reservation id l = filter (λ r, reservation_id r ∉ [id]) l.
Proof.
  induction l as [|r l IH]; [done|]. cbn [fmap list_fmap]. intros [Hr Hl]%NoDup_cons. cbn [erase_reservation].
  destruct (Z.eqb_spec (reservation_id r) id) as [<-|Hne].
  - rewrite filter_cons_False by set_solver. symmetry. apply list_filter_all.
    intros r' Hr'. rewrite list_elem_of_singleton. intros E. apply Hr. rewrite <- E. by apply list_elem_of_fmap_2.
  - rewrite filter_cons_True by set_solver. by rewrite IH.
Qed.

(** What a cancellation writes and tells. *)
Definition store_out (s : ReservationHandler) : list output :=
  if store s then [call_store (stored_array s)] else [].

Lemma store_eq s : store_reservations s = (Ret tt, s, store_out s).
Proof. unfold store_reservations, store_out. crun. by destruct (store s). Qed.

Lemma cancelled_state id s :
  wf s → holds s id →
  without [id] s =
  match reserved_evse id s with
  | Some e => set_evse_reservations (delete e (evse_reservations s)) (set_timers (delete id (timers s)) s)
  | None =>
      set_global_reservations (erase_reservation id (global_reservations s))
        (set_timers (delete id (timers s)) s)
  end.
Proof.
  intros Hwf Hid. pose proof (reserved_evse_spec id s) as Hspec. unfold without.
  assert (filter (λ p : Z * Z, p.1 ∉ [id]) (timers s) = delete id (timers s)) as ->.
  { apply map_eq. intros i. apply option_eq. intros t.
    rewrite map_lookup_filter_Some, lookup_delete_Some. cbn. rewrite list_elem_of_singleton. naive_solver. }
  destruct (reserved_evse id s) as [e|].
  - destruct Hspec as (r & Hr & <-). rewrite (list_filter_all _ (global_reservations s)).
    2: { intros r' Hr'. rewrite list_elem_of_singleton. intros E. apply (wf_disjoint s Hwf e r Hr).
         rewrite <- E. by apply list_elem_of_fmap_2. }
    assert (filter (λ p : Z * Reservation, reservation_id p.2 ∉ [reservation_id r]) (evse_reservations s)
            = delete e (evse_reservations s)) as ->; [|by destruct s].
    apply map_eq. intros i. apply option_eq. intros x.
    rewrite map_lookup_filter_Some, lookup_delete_Some. cbn. rewrite list_elem_of_singleton. split.
    + intros [Hx Hne]. split; [|done]. intros <-. congruence.
    + intros [Hne Hx]. split; [done|]. intros E. apply Hne. by eapply (wf_evse_ids s Hwf).
  - rewrite <- erase_filter by apply (wf_global_ids s Hwf).
    rewrite (map_filter_id _ (evse_reservations s)); [by destruct s|].
    intros e r Hr. cbn. rewrite list_elem_of_singleton. eauto.
Qed.

Definition cancel_out (id : Z) (execute_callback : bool) (reason : ReservationEndReason)
    (s : ReservationHandler) : list output :=
  if bool_decide (is_Some (timers s !! id)) then
    store_out (without [id] s) ++
    (if execute_callback && reservation_cancelled_callback s
     then [reservation_cancelled (reserved_evse id s) id reason execute_callback] else [])
  else [].

Lemma cancel_eq id cb reason s :
  wf s →
  ∃ result, cancel_reservation id cb reason s = (Ret result, without [id] s, cancel_out id cb reason s) ∧
            (result.1 = true ↔ holds s id).
Proof.
  intros Hwf. unfold cancel_reservation, cancel_out. cprim. case_bool_decide as Ht; cbn [negb].
  - pose proof (proj1 (wf_timers s Hwf id) Ht) as Hid. pose proof (cancelled_state id s Hwf Hid) as Hst.
    exists (true, reserved_evse id s). split; [|by cbn].
    rewrite bind_modify. cbv zeta beta. rewrite Hst.
    destruct (reserved_evse id s) as [e|]; rewrite bind_modify; cbv beta;
      (eapply bind_eq; [apply store_eq|]); crun; by destruct cb, (reservation_cancelled_callback s).
  - exists (false, None). rewrite (without_absent [id] s Hwf); [split; [done|]|].
    + cbn. rewrite <- (wf_timers s Hwf). naive_solver.
    + intros id' ->%list_elem_of_singleton. by rewrite <- (wf_timers s Hwf).
Qed.

(** ** The array in the store *)
Definition last_stored (array : list stored_reservation) (t : list output) : list stored_reservation :=
  foldl (λ a o, match o with call_store a' => a' | _ => a end) array t.

Definition mirrored (s s' : ReservationHandler) (t : list output) : Prop :=
  store s' = store s ∧ (store s = true → last_stored (stored_array s) t = stored_array s').

Lemma mirrored_refl s : mirrored s s [].
Proof. by split. Qed.

Lemma mirrored_trans s1 s2 s3 t1 t2 : mirrored s1 s2 t1 → mirrored s2 s3 t2 → mirrored s1 s3 (t1 ++ t2).
Proof.
  intros [Hs1 H1] [Hs2 H2]. split; [congruence|]. intros Hst.
  unfold last_stored in *. rewrite foldl_app, H1 by done. apply H2. congruence.
Qed.

Lemma mirrored_store s s' : store s' = store s → mirrored s s' (store_out s').
Proof. intros Hst. split; [done|]. intros Ht. unfold store_out. by rewrite Hst, Ht. Qed.

Lemma mirrored_same s s' : store s' = store s → stored_array s' = stored_array s → mirrored s s' [].
Proof. intros H1 H2. split; [done|]. intros _. by cbn. Qed.

Lemma mirrored_cancel id cb reason s : wf s → mirrored s (without [id] s) (cancel_out id cb reason s).
Proof.
  intros Hwf. unfold cancel_out. case_bool_decide as Ht.
  - apply mirrored_trans with (without [id] s); [by apply mirrored_store|].
    destruct (cb && _); [|apply mirrored_refl]. by split.
  - rewrite without_absent; [apply mirrored_refl|done|].
    intros id' ->%list_elem_of_singleton. by rewrite <- (wf_timers s Hwf).
Qed.

Lemma cancel_loop ids s :
  wf s →
  ∃ t, cfor ids (λ id, cancel_reservation id true Cancelled ;; mret tt) s = (Ret tt, without ids s, t) ∧
       mirrored s (without ids s) t.
Proof.
  revert s. induction ids as [|id ids IH]; intros s Hwf; cbn [cfor].
  { exists []. rewrite without_absent; [|done|by intros id ?%elem_of_nil]. by split; [|apply mirrored_refl]. }
  destruct (cancel_eq id true Cancelled s Hwf) as (result & Hc & _).
  destruct (IH (without [id] s) (wf_without _ _ Hwf)) as (t & Ht & Hm).
  rewrite without_without in Ht, Hm. cbn [app] in Ht, Hm.
  eexists. split.
  - eapply bind_eq; [|exact Ht]. by eapply bind_eq; [exact Hc|].
  - rewrite app_nil_r. eapply mirrored_trans; [by apply mirrored_cancel|done].
Qed.

(** ** Adding a reservation *)
Definition with_evse (time : Z) (e : Z) (r : Reservation) (s : ReservationHandler) : ReservationHandler :=
  set_timers (<[reservation_id r := time]> (timers s))
    (set_evse_reservations (<[e := r]> (evse_reservations s)) s).

Definition with_global (time : Z) (r : Reservation) (s : ReservationHandler) : ReservationHandler :=
  set_timers (<[reservation_id r := time]> (timers s))
    (set_global_reservations (global_reservations s ++ [r]) s).

Lemma holds_with_evse time e r s id :
  evse_reservations s !! e = None →
  holds (with_evse time e r s) id ↔ id = reservation_id r ∨ holds s id.
Proof.
  intros He. unfold holds; cbn. setoid_rewrite lookup_insert_Some. split.
  - intros [(e' & r' & [[<- <-]|[Hne Hr]] & <-)|Hin]; eauto 6.
  - intros [->|[(e' & r' & Hr & <-)|Hin]]; [left; eauto 6| |by right].
    left. exists e', r'. split; [|done]. right. split; [congruence|done].
Qed.

Lemma wf_with_evse time e r s :
  wf s → ¬ holds s (reservation_id r) → evse_reservations s !! e = None → is_Some (evses s !! e) →
  wf (with_evse time e r s).
Proof.
  intros Hwf Hfresh He Hev. split.
  - intros e1 e2 r1 r2. cbn. rewrite !lookup_insert_Some.
    intros [[<- <-]|[Hn1 H1]] [[<- <-]|[Hn2 H2]] Heq; [done| | |by eapply (wf_evse_ids s Hwf)];
      exfalso; apply Hfresh; left; eauto.
  - exact (wf_global_ids s Hwf).
  - intros e1 r1. cbn. rewrite lookup_insert_Some. intros [[<- <-]|[_ H1]]; [|by eapply (wf_disjoint s Hwf)].
    intros Hin. apply Hfresh. by right.
  - intros id. rewrite holds_with_evse by done. cbn. unfold is_Some. setoid_rewrite lookup_insert_Some.
    rewrite <- (wf_timers s Hwf). unfold is_Some. split.
    + intros [t [[-> _]|[_ ?]]]; eauto.
    + intros [->|[t Ht]]; [eauto|]. destruct (decide (reservation_id r = id)); eauto.
  - intros e1. cbn. intros [r1 [[<- _]|[_ H1]]%lookup_insert_Some]; [done|]. apply (wf_dom s Hwf). eauto.
Qed.

Lemma wf_with_global time r s : wf s → ¬ holds s (reservation_id r) → wf (with_global time r s).
Proof.
  intros Hwf Hfresh. split.
  - exact (wf_evse_ids s Hwf).
  - cbn. rewrite fmap_app. apply NoDup_app. split_and!; [apply (wf_global_ids s Hwf)| |apply NoDup_singleton].
    intros id Hin ->%list_elem_of_singleton. apply Hfresh. by right.
  - intros e r' Hr'. cbn. rewrite fmap_app, elem_of_app, list_fmap_singleton, list_elem_of_singleton.
    intros [Hin|Heq]; [by apply (wf_disjoint s Hwf) in Hr'|].
    apply Hfresh. left. eauto.
  - intros id. unfold holds. cbn. rewrite fmap_app, elem_of_app, list_fmap_singleton, list_elem_of_singleton.
    unfold is_Some. setoid_rewrite lookup_insert_Some. pose proof (wf_timers s Hwf id) as Ht.
    unfold holds, is_Some in Ht. split.
    + intros [t [[-> _]|[_ ?]]]; [by auto|]. destruct (proj1 Ht); eauto.
    + intros H. destruct (decide (reservation_id r = id)) as [|Hne]; [eauto|].
      destruct (proj2 Ht) as [t Ht']; [naive_solver|eauto].
  - exact (wf_dom s Hwf).
Qed.

(** ** Making a reservation *)

(** A refusal is never reported as Accepted. *)
Lemma new_state_not_available cur new : cur ≠ AVAILABLE → get_new_connector_state cur new ≠ AVAILABLE.
Proof. by destruct cur, new. Qed.

Lemma worst_state_not_available t cs st : st ≠ AVAILABLE → worst_connector_state t st cs ≠ AVAILABLE.
Proof.
  revert st. induction cs as [|c cs IH]; intros st Hst; [done|]. cbn.
  destruct (negb (fits t c)); [by apply IH|]. destruct (negb _); [|by apply IH].
  by apply IH, new_state_not_available.
Qed.

Lemma result_not_accepted st : st ≠ AVAILABLE → connector_state_to_reservation_result st ≠ Accepted.
Proof. by destruct st. Qed.

Lemma foldl_not_available {A} (f : ConnectorState → A → ConnectorState) l st :
  (∀ st a, st ≠ AVAILABLE → f st a ≠ AVAILABLE) → st ≠ AVAILABLE → foldl f st l ≠ AVAILABLE.
Proof. intros Hf. revert st. induction l as [|a l IH]; cbn; auto. Qed.

Lemma refusal_not_accepted s t : get_reservation_evse_connector_state s t ≠ Accepted.
Proof.
  unfold get_reservation_evse_connector_state. destruct (_ || _); [done|]. cbv zeta.
  set (st := foldl _ UNAVAILABLE _).
  assert (st ≠ AVAILABLE) as Hst.
  { apply foldl_not_available; [|done]. intros st' [e evse] H. cbn.
    destruct (plugged_in evse); [by apply new_state_not_available|done]. }
  destruct (negb _); [|by apply result_not_accepted].
  destruct (get_all_evses_with_connector_type s t); [done|].
  apply result_not_accepted, foldl_not_available; [|done].
  intros. by apply worst_state_not_available.
Qed.

Section make.
Context `{!DateParser}.

Definition with_reservation (evse_id : option Z) (r : Reservation) : ReservationHandler → ReservationHandler :=
  match evse_id with
  | Some e => with_evse (from_rfc3339 (r_expiry_time r)) e r
  | None => with_global (from_rfc3339 (r_expiry_time r)) r
  end.

(** The outcomes of the two halves of [make_reservation], after the cancellation of
    a reservation with the same id. *)
Inductive made (evse_id : option Z) (r : Reservation) (s : ReservationHandler) :
    outcome exn ReservationResult * ReservationHandler * list output → Prop :=
| made_refused result : result ≠ Accepted → made evse_id r s (Ret result, s, [])
| made_accepted :
    wf (with_reservation evse_id r s) → served (with_reservation evse_id r s) →
    made evse_id r s (Ret Accepted, with_reservation evse_id r s, store_out (with_reservation evse_id r s)).

Lemma timers_in_array time id s : store_out (set_timers (<[id := time]> (timers s)) s) = store_out s.
Proof. done. Qed.

Lemma make_evse_made e r s :
  wf s → ¬ holds s (reservation_id r) → made (Some e) r s (make_evse_reservation e r s).
Proof.
  intros Hwf Hfresh. unfold make_evse_reservation. cprim.
  case_bool_decide as Hres; [by apply made_refused|]. rewrite <- eq_None_not_Some in Hres.
  destruct (evses s !! e) as [evse|] eqn:Hev; [|by apply made_refused]. cbv zeta.
  destruct (has_evse_connector_type _ _); cbn [negb]; [|by apply made_refused].
  case_bool_decide as H1; cbn [negb]; [|by apply made_refused].
  case_bool_decide as H2; cbn [negb]; [|by apply made_refused].
  pose proof (wf_with_evse (from_rfc3339 (r_expiry_time r)) e r s Hwf Hfresh Hres ltac:(by rewrite Hev)) as Hwf'.
  destruct (global_reservations s) as [|g gs] eqn:Hg.
  - cut (served (with_reservation (Some e) r s)).
    { intros Hs. pose proof (made_accepted (Some e) r s Hwf' Hs) as Hm. unfold store_out in Hm.
      unfold set_reservation_timer, store_reservations. crun. revert Hm. cbn. by destruct (store s). }
    unfold served; cbn. rewrite Hg. split; [|intros o ->%Permutation_nil_r Hst; inversion Hst].
    exact (wf_size _ Hwf').
  - rewrite <- Hg. destruct (is_possible_eq s None (global_reservations s) (<[e:=r]> (evse_reservations s)))
      as ([] & Hp & Hspec).
    + rewrite Hp. pose proof (proj1 Hspec eq_refl) as Hs. rewrite types_with_None in Hs.
      pose proof (made_accepted (Some e) r s Hwf' Hs) as Hm. unfold store_out in Hm.
      unfold set_reservation_timer, store_reservations. crun. revert Hm. cbn. by destruct (store s).
    + rewrite Hp. crun. apply made_refused, refusal_not_accepted.
Qed.

Lemma make_global_made r s :
  wf s → ¬ holds s (reservation_id r) → made None r s (make_global_reservation r s).
Proof.
  intros Hwf Hfresh. unfold make_global_reservation. cprim.
  destruct (match r_connector_type r with Some t => negb (does_evse_connector_type_exist s t) | None => false end).
  { by apply made_refused. }
  pose proof (wf_with_global (from_rfc3339 (r_expiry_time r)) r s Hwf Hfresh) as Hwf'.
  destruct (is_possible_eq s (Some (type_of r)) (global_reservations s) (evse_reservations s))
    as ([] & Hp & Hspec); rewrite Hp.
  - pose proof (proj1 Hspec eq_refl) as Hs. rewrite types_with_Some in Hs.
    pose proof (made_accepted None r s Hwf' Hs) as Hm. unfold store_out in Hm.
    unfold set_reservation_timer, store_reservations. crun. revert Hm. cbn. by destruct (store s).
  - crun. apply made_refused, refusal_not_accepted.
Qed.

(** The whole of [make_reservation]. *)
Lemma make_eq now evse_id r s :
  wf s →
  if from_rfc3339 (r_expiry_time r) <? now then make_reservation now evse_id r s = (Ret Rejected, s, [])
  else
    let s1 := without [reservation_id r] s in
    ∃ result s' t,
      make_reservation now evse_id r s = (Ret result, s', cancel_out (reservation_id r) false Cancelled s ++ t) ∧
      made evse_id r s1 (Ret result, s', t).
Proof.
  intros Hwf. unfold make_reservation. destruct (_ <? now); [done|]. cbv zeta.
  destruct (cancel_eq (reservation_id r) false Cancelled s Hwf) as (result & Hc & _).
  pose proof (wf_without [reservation_id r] s Hwf) as Hwf1.
  assert (¬ holds (without [reservation_id r] s) (reservation_id r)) as Hfresh.
  { rewrite holds_without. set_solver. }
  set (m := match evse_id with Some e => make_evse_reservation e r | None => make_global_reservation r end).
  assert (made evse_id r (without [reservation_id r] s) (m (without [reservation_id r] s))) as Hm.
  { destruct evse_id; [by apply make_evse_made|by apply make_global_made]. }
  destruct (m (without [reservation_id r] s)) as [[res s'] t] eqn:E.
  destruct res as [res|x|]; [|by inversion Hm..].
  exists res, s', t. split; [|done]. by eapply bind_eq.
Qed.

(** It returns and keeps the tables consistent. *)
Lemma make_returns now evse_id r s :
  wf s →
  ∃ result s' t, make_reservation now evse_id r s = (Ret result, s', t) ∧ wf s' ∧ evses s' = evses s ∧
    store s' = store s ∧ reservation_cancelled_callback s' = reservation_cancelled_callback s.
Proof.
  intros Hwf. pose proof (make_eq now evse_id r s Hwf) as Hm. destruct (_ <? now); [by eexists _, _, _|].
  destruct Hm as (result & s' & t & E & Hm). eexists _, _, _. split; [exact E|].
  inversion Hm as [? Hne|Hwf' Hs']; subst; [split_and!; [by apply wf_without|done..]|].
  split_and!; [done|by destruct evse_id..].
Qed.

(** What holds after it. *)
Lemma make_keeps now evse_id r s :
  wf s → served s →
  ∃ result s' t, make_reservation now evse_id r s = (Ret result, s', t) ∧
    wf s' ∧ served s' ∧ evses s' = evses s ∧ mirrored s s' t.
Proof.
  intros Hwf Hs. pose proof (make_eq now evse_id r s Hwf) as Hm. destruct (_ <? now).
  { exists Rejected, s, []. by split_and!; try apply mirrored_refl. }
  destruct Hm as (result & s' & t & E & Hm). eexists _, _, _. split; [exact E|].
  pose proof (mirrored_cancel (reservation_id r) false Cancelled s Hwf) as Hmc.
  inversion Hm as [? Hne|Hwf' Hs']; subst.
  - rewrite app_nil_r. split_and!; [by apply wf_without|by apply served_without|done|done].
  - split_and!; [done|done|by destruct evse_id|]. eapply mirrored_trans; [done|]. apply mirrored_store.
    by destruct evse_id.
Qed.
End make.

(** ** Connector events *)
Definition typed (s : ReservationHandler) : Prop :=
  Forall (λ r, is_Some (r_connector_type r)) (global_reservations s).

(** EVSE reservations alone are never too many. *)
Lemma check_evse_keeps s l acc :
  wf s → (∀ e r, (e, r) ∈ l → evse_reservations s !! e = Some r) → acc ⊆ evse_reservations s →
  (∀ e r, evse_reservations s !! e = Some r → (e, r) ∈ l ∨ acc !! e = Some r) →
  check_evse_reservations s l acc = Ret ([], evse_reservations s).
Proof.
  intros Hwf. revert acc. induction l as [|[e r] l IH]; intros acc Hl Hsub Hall; cbn.
  { assert (acc = evse_reservations s) as ->; [|done]. apply (anti_symm (⊆)); [done|].
    apply map_subseteq_spec. intros e r Hr. destruct (Hall e r Hr) as [?%elem_of_nil|]; done. }
  assert (<[e:=r]> acc ⊆ evse_reservations s) as Hsub'.
  { apply insert_subseteq_l; [|done]. apply Hl. by left. }
  rewrite (proj2 (possible_servable s None [] (<[e:=r]> acc))); cbn.
  - apply IH; [intros e' r' H; apply Hl; by right|done|]. intros e' r' Hr'.
    destruct (Hall e' r' Hr') as [[[= -> ->]|?]%elem_of_cons|Hacc]; [right; apply lookup_insert_eq|by left|].
    right. destruct (decide (e' = e)) as [->|]; [|by rewrite lookup_insert_ne].
    rewrite lookup_insert_eq. specialize (Hl e r ltac:(by left)). congruence.
  - split; [|intros o ->%Permutation_nil_r Hst; inversion Hst].
    pose proof (map_subseteq_size _ _ Hsub'). pose proof (wf_size s Hwf). cbn. lia.
Qed.

(** The second loop keeps a servable list of reservations. *)
Lemma check_global_keeps s l res kept :
  NoDup (reservation_id <$> l) → Forall (λ r, is_Some (r_connector_type r)) l →
  servable s (type_of <$> kept) res →
  ∃ ids, check_global_reservations s l res kept = Ret ids ∧ ids ⊆ reservation_id <$> l ∧
         servable s (type_of <$> kept ++ filter (λ r, reservation_id r ∉ ids) l) res.
Proof.
  revert kept. induction l as [|r l IH]; intros kept Hnd Hty Hs.
  { exists []. split_and!; [done|done|]. by rewrite app_nil_r. }
  cbn [fmap list_fmap] in Hnd. apply NoDup_cons in Hnd as [Hr Hnd]. apply Forall_cons in Hty as [[t Ht] Hty].
  assert (type_of r = t) as Htr by (unfold type_of; by rewrite Ht). cbn [check_global_reservations].
  destruct (is_possible_eq s (r_connector_type r) kept res) as (b & Hp & Hspec). rewrite Hp.
  cbn [mbind outcome_mbind outcome_bind]. rewrite Ht, <- Htr, types_with_Some in Hspec. destruct b.
  - destruct (IH (kept ++ [r]) Hnd Hty (proj1 Hspec eq_refl)) as (ids & Hids & Hsub & Hserv).
    exists ids. split_and!; [done|set_solver|].
    rewrite filter_cons_True by set_solver. by rewrite <- app_assoc in Hserv.
  - destruct (IH kept Hnd Hty Hs) as (ids & Hids & Hsub & Hserv). rewrite Hids.
    exists (reservation_id r :: ids). split_and!; [done|set_solver|].
    rewrite filter_cons_False by set_solver.
    rewrite (list_filter_ext_in _ (λ r, reservation_id r ∉ ids)); [exact Hserv|].
    intros r' Hr'. rewrite not_elem_of_cons. split; [tauto|]. intros Hn. split; [|done].
    intros E. apply Hr. rewrite <- E. by apply list_elem_of_fmap_2.
Qed.

Lemma check_cancels s :
  wf s → typed s →
  ∃ ids t, check_reservations_and_cancel_if_not_possible s = (Ret tt, without ids s, t) ∧
           mirrored s (without ids s) t ∧ served (without ids s).
Proof.
  intros Hwf Hty. unfold check_reservations_and_cancel_if_not_possible. cprim.
  rewrite (check_evse_keeps s (items (evse_reservations s)) ∅ Hwf).
  2: by intros e r; rewrite elem_of_items. 2: apply map_empty_subseteq. 2: left; by apply elem_of_items.
  destruct (check_global_keeps s (global_reservations s) (evse_reservations s) [] (wf_global_ids s Hwf) Hty)
    as (ids & Hids & Hsub & Hserv).
  { split; [cbn; by apply wf_size|]. intros o ->%Permutation_nil_r Hst. inversion Hst. }
  destruct (cancel_loop ids s Hwf) as (t & Hl & Hm). exists ids, t. split_and!; [|done|].
  - erewrite bind_pure by reflexivity. erewrite bind_pure; [|cbn; by rewrite Hids]. cbn. exact Hl.
  - unfold served. cbn. rewrite (map_filter_id _ (evse_reservations s)); [exact Hserv|].
    intros e r Hr Hin%Hsub. by apply (wf_disjoint s Hwf) in Hr.
Qed.

(** Eligibility looks at the EVSE itself only. *)
Lemma eligible_local s s1 res e car :
  evses s1 !! e = evses s !! e → eligible s1 res e car ↔ eligible s res e car.
Proof.
  intros He. unfold eligible, takes, get_evse_connector_state_reservation_result,
    get_connector_availability_reservation_result. by rewrite He.
Qed.

(** A change at a reserved EVSE does not matter to the other reservations. *)
Lemma served_reserved_evse s e evse r :
  served s → is_Some (evses s !! e) → evse_reservations s !! e = Some r →
  served (set_evses (<[e := evse]> (evses s)) s).
Proof.
  intros [Hn Hs] Hev Hr. destruct Hev as [evse0 Hev]. split; cbn.
  { rewrite map_size_insert_Some by eauto. exact Hn. }
  intros o Ho Hst. apply (Hs o Ho). revert Hst. apply strands_transfer. intros x car.
  destruct (decide (x = e)) as [->|Hne].
  - rewrite (eligible_iff s), (eligible_iff (set_evses _ s)), Hr. naive_solver.
  - rewrite (eligible_local s (set_evses (<[e:=evse]> (evses s)) s)); [done|]. cbn. by rewrite lookup_insert_ne.
Qed.

Lemma wf_replace_evse s e evse :
  wf s → wf (set_evses (<[e := evse]> (evses s)) s).
Proof.
  intros Hwf. split; [exact (wf_evse_ids s Hwf)|exact (wf_global_ids s Hwf)|exact (wf_disjoint s Hwf)|
    exact (wf_timers s Hwf)|]. intros x Hx. cbn.
  destruct (decide (x = e)) as [->|]; [by rewrite lookup_insert_eq|].
  rewrite lookup_insert_ne by done. by apply (wf_dom s Hwf).
Qed.

Lemma submit_absent id ev cs : (submit_to_connector id ev cs).2 = None → (submit_to_connector id ev cs).1 = cs.
Proof.
  induction cs as [|c cs IH]; cbn; [done|]. destruct (_ =? _); [done|].
  destruct (submit_to_connector id ev cs) as [cs' st]; cbn in *. intros E. by rewrite IH.
Qed.

(** The state the first connector with the id is in after the event. *)
Definition state_after (s : ReservationHandler) (e c : Z) (ev : ConnectorEvent) : option ConnectorState :=
  evse ← evses s !! e; (submit_to_connector c ev (connectors evse)).2.

Lemma submit_found id ev cs st :
  (submit_to_connector id ev cs).2 = Some st →
  List.find (λ c, connector_id c =? id) (submit_to_connector id ev cs).1 ≠ None.
Proof.
  induction cs as [|c cs IH]; cbn; [done|]. destruct (connector_id c =? id) eqn:E; cbn; [by rewrite E|].
  destruct (submit_to_connector id ev cs) as [cs' st']; cbn in *. by rewrite E.
Qed.

(** The handler's answer to a connector that is not available: it assumes only
    that the reservations were served if the EVSE itself is reserved. *)
Lemma connector_changed st e c evse s :
  wf s → typed s → st ≠ AVAILABLE → evses s !! e = Some evse → find_connector evse c ≠ None →
  (is_Some (evse_reservations s !! e) → served s) →
  ∃ s' t, on_connector_state_changed st e c s = (Ret tt, s', t) ∧ wf s' ∧ mirrored s s' t ∧ served s'.
Proof.
  intros Hwf Hty Hst Hev Hc Hres. unfold on_connector_state_changed.
  rewrite bool_decide_eq_false_2 by done. cprim. rewrite Hev. destruct (find_connector evse c) as [cn|]; [|done].
  assert (∃ s' t, check_reservations_and_cancel_if_not_possible s = (Ret tt, s', t) ∧
            wf s' ∧ mirrored s s' t ∧ served s') as Hcheck.
  { destruct (check_cancels s Hwf Hty) as (ids & t & E & Hm & Hs). exists (without ids s), t.
    split_and!; [done|by apply wf_without|done|done]. }
  destruct (evse_reservations s !! e) as [r|] eqn:Hr; [|done]. destruct (bound_to r cn); [|done].
  destruct (cancel_eq (reservation_id r) true Cancelled s Hwf) as (result & E & _).
  exists (without [reservation_id r] s), (cancel_out (reservation_id r) true Cancelled s ++ []).
  split_and!; [by eapply bind_eq|by apply wf_without| |apply served_without; eauto].
  rewrite app_nil_r. by apply mirrored_cancel.
Qed.

Lemma connector_event_keeps e c ev s :
  wf s → served s → typed s → state_after s e c ev ≠ Some AVAILABLE →
  (evses s !! e = None → submit_event_for_connector e c ev s = (Throw out_of_range, s, [])) ∧
  (is_Some (evses s !! e) →
   ∃ s' t, submit_event_for_connector e c ev s = (Ret tt, s', t) ∧ wf s' ∧ mirrored s s' t ∧ served s').
Proof.
  intros Hwf Hs Hty. unfold submit_event_for_connector, state_after. cprim.
  destruct (evses s !! e) as [evse|] eqn:Hev; [|naive_solver]. cbn. intros Hst. split; [done|]. intros _.
  pose proof (submit_absent c ev (connectors evse)) as Habs.
  pose proof (submit_found c ev (connectors evse)) as Hfound.
  destruct (submit_to_connector c ev (connectors evse)) as [cs [st|]]; cbn in *; rewrite bind_modify.
  - set (s1 := set_evses (<[e:=set_connectors cs evse]> (evses s)) s).
    destruct (connector_changed st e c (set_connectors cs evse) s1) as (s' & t & E & Hwf' & Hm & Hs').
    + by apply wf_replace_evse.
    + done.
    + congruence.
    + apply lookup_insert_eq.
    + by apply (Hfound st).
    + intros [r Hr]. apply (served_reserved_evse s e _ r); eauto.
    + exists s', t. split_and!; [done|done| |done]. exact Hm.
  - rewrite Habs by done.
    assert (set_evses (<[e:=set_connectors (connectors evse) evse]> (evses s)) s = s) as ->.
    { rewrite insert_id; [by destruct s|]. rewrite Hev. by destruct evse. }
    exists s, []. split_and!; [done|done|apply mirrored_refl|done].
Qed.

(** ** Requests *)
Inductive request :=
| MakeReservation (now : Z) (evse_id : option Z) (r : Reservation)
| CancelReservation (id : Z) (execute_callback : bool) (reason : ReservationEndReason)
| CancelOfEvse (evse_id : Z) (execute_callback : bool)
| ReservationUsed (id : Z)
| ReservationExpired (id : Z)
| ConnectorChange (evse_id connector_id : Z) (event : ConnectorEvent)
| TakeRestored (evse_id : Z)
| CheckGlobal
| RegisterCallback.

Definition rsv_handle `{!DateParser} (rq : request) : op () :=
  match rq with
  | MakeReservation now evse_id r => make_reservation now evse_id r ;; mret tt
  | CancelReservation id cb reason => cancel_reservation id cb reason ;; mret tt
  | CancelOfEvse e cb => cancel_reservation_of_evse e cb ;; mret tt
  | ReservationUsed id => on_reservation_used id
  | ReservationExpired id => on_reservation_expired id
  | ConnectorChange e c ev => submit_event_for_connector e c ev
  | TakeRestored e => take_restored_reservation e ;; mret tt
  | CheckGlobal => check_number_global_reservations_match_number_available_evses ;; mret tt
  | RegisterCallback => register_reservation_cancelled_callback
  end.

(** Connector events that leave the connector available, and those for an EVSE
    that does not exist. *)
Definition leaves_available (s : ReservationHandler) (rq : request) : bool :=
  match rq with
  | ConnectorChange e c ev => bool_decide (state_after s e c ev = Some AVAILABLE)
  | _ => false
  end.

Definition unknown_evse (s : ReservationHandler) (rq : request) : bool :=
  match rq with
  | ConnectorChange e _ _ => bool_decide (evses s !! e = None)
  | _ => false
  end.

Definition kept (s : ReservationHandler) (run : outcome exn () * ReservationHandler * list output) : Prop :=
  ∃ s' t, run = (Ret tt, s', t) ∧ wf s' ∧ served s' ∧ mirrored s s' t.

Lemma discard_kept {A} (m : op A) s a s' t :
  m s = (Ret a, s', t) → wf s' → served s' → mirrored s s' t → kept s ((m ;; mret tt) s).
Proof.
  intros E Hwf Hs Hm. exists s', (t ++ []). split_and!; [by eapply bind_eq|done|done|by rewrite app_nil_r].
Qed.

Lemma cancel_kept id cb reason s :
  wf s → served s → kept s ((cancel_reservation id cb reason ;; mret tt) s).
Proof.
  intros Hwf Hs. destruct (cancel_eq id cb reason s Hwf) as (result & E & _).
  eapply discard_kept; [exact E|by apply wf_without|by apply served_without|by apply mirrored_cancel].
Qed.

(** Updates of the other members. *)
Lemma update_kept (g : ReservationHandler → ReservationHandler) s :
  wf s → served s →
  evses (g s) = evses s → evse_reservations (g s) = evse_reservations s →
  global_reservations (g s) = global_reservations s → timers (g s) = timers s → store (g s) = store s →
  kept s (Ret tt, g s, []).
Proof.
  intros Hwf Hs H1 H2 H3 H4 H5. exists (g s), []. split; [done|].
  assert (wf (g s)) as Hwf'.
  { split; unfold holds; rewrite ?H1, ?H2, ?H3, ?H4; apply Hwf. }
  split_and!; [done| |].
  - unfold served, servable in *. rewrite H1, H2, H3. destruct Hs as [Hn Hs]. split; [done|].
    intros o Ho Hst. apply (Hs o Ho). revert Hst. apply strands_transfer. intros x car.
    by rewrite (eligible_local s (g s)) by (by rewrite H1).
  - apply mirrored_same; [done|]. unfold stored_array. by rewrite H2, H3.
Qed.

Lemma reserved_by_type_returns s available l : ∃ g, reserved_by_type s available l = Ret g.
Proof.
  induction l as [|r l [g IH]]; cbn; [eauto|].
  destruct (is_possible_eq s (r_connector_type r) (global_reservations s) (evse_reservations s)) as ([] & -> & _);
    cbn; rewrite IH; cbn; eauto.
Qed.

Lemma handle_kept `{!DateParser} rq s :
  wf s → served s → typed s → leaves_available s rq = false → unknown_evse s rq = false →
  kept s (rsv_handle rq s).
Proof.
  intros Hwf Hs Hty Hl Hu.
  destruct rq as [now e r|id cb reason|e cb|id|id|e c ev|e| |]; cbn [rsv_handle].
  - destruct (make_keeps now e r s Hwf Hs) as (result & s' & t & E & Hwf' & Hs' & _ & Hm).
    by eapply discard_kept.
  - by apply cancel_kept.
  - unfold cancel_reservation_of_evse. destruct (evse_reservations s !! e) as [r|] eqn:Hr.
    + destruct (cancel_eq (reservation_id r) cb Cancelled s Hwf) as (result & E & _).
      eapply discard_kept; [rewrite bind_get, Hr; by eapply bind_eq|by apply wf_without|by apply served_without|].
      rewrite app_nil_r. by apply mirrored_cancel.
    + crun. rewrite Hr. by apply (update_kept (λ s, s)).
  - by apply cancel_kept.
  - by apply cancel_kept.
  - cbn in Hl, Hu. apply bool_decide_eq_false in Hl, Hu. apply not_eq_None_Some in Hu.
    destruct (connector_event_keeps e c ev s Hwf Hs Hty Hl) as [_ Hk].
    destruct (Hk Hu) as (s' & t & E & Hwf' & Hm & Hs'). by exists s', t.
  - unfold take_restored_reservation. crun. destruct (restored_reservations s !! e); cbn.
    + by apply (update_kept (λ s, set_restored_reservations (delete e (restored_reservations s)) s)).
    + by apply (update_kept (λ s, s)).
  - unfold check_number_global_reservations_match_number_available_evses,
      get_evse_global_reserved_status_and_set_new_status. crun. case_decide; cbn.
    { by apply (update_kept (set_last_reserved_status _)). }
    destruct (reserved_by_type_returns s (available_evses s) (global_reservations s)) as [g ->]. cbn.
    by apply (update_kept (set_last_reserved_status _)).
  - by apply (update_kept (set_callback true)).
Qed.

(** ** Properties *)

(** C36: the reservations made stay servable. In a consistent handler whose reservations
    can all be honoured and whose reservations without an EVSE name a connector type
    ([typed]), every request (making, cancelling, using and expiry of reservations, and
    events of connectors of a known EVSE that do not leave the connector available)
    returns and leaves a consistent handler whose reservations can all be honoured, in
    every order of arrival; and the array written to the store last is the list of the
    reservations held, so that nothing cancelled is restored. *)
Theorem reservations_stay_served `{!DateParser} rq s :
  wf s → served s → typed s → leaves_available s rq = false → unknown_evse s rq = false →
  ∃ s' t, rsv_handle rq s = (Ret tt, s', t) ∧ wf s' ∧ served s' ∧
          (store s = true → last_stored (stored_array s) t = stored_array s').
Proof.
  intros Hwf Hs Hty Hl Hu. destruct (handle_kept rq s Hwf Hs Hty Hl Hu) as (s' & t & E & Hwf' & Hs' & _ & Hm).
  by exists s', t.
Qed.

(** [make_reservation] answers Accepted exactly if the reservation is held
    afterwards; then everything held before under another id is still held, and all
    of it can be honoured together.  A refused reservation changes nothing, except
    that an older reservation with the same id is given up; an expired one is refused
    and changes nothing at all. *)
Lemma make_reservation_outcome `{!DateParser} now evse_id r s :
  wf s → served s →
  ∃ result s' t, make_reservation now evse_id r s = (Ret result, s', t) ∧ served s' ∧
    (from_rfc3339 (r_expiry_time r) < now → result = Rejected ∧ s' = s ∧ t = []) ∧
    (now ≤ from_rfc3339 (r_expiry_time r) →
       (result = Accepted ↔ holds s' (reservation_id r)) ∧
       (∀ id, id ≠ reservation_id r → holds s' id ↔ holds s id) ∧
       (result = Accepted → s' = with_reservation evse_id r (without [reservation_id r] s)) ∧
       (result ≠ Accepted → s' = without [reservation_id r] s)).
Proof.
  intros Hwf Hs. destruct (make_keeps now evse_id r s Hwf Hs) as (result & s' & t & E & Hwf' & Hs' & _).
  exists result, s', t. split_and!; [done|done| |].
  - intros Hlt%Z.ltb_lt. pose proof (make_eq now evse_id r s Hwf) as Hm. rewrite Hlt, E in Hm. by simplify_eq.
  - intros Hge. pose proof (make_eq now evse_id r s Hwf) as Hm.
    rewrite (proj2 (Z.ltb_ge _ _) Hge) in Hm. destruct Hm as (result' & s'' & t' & E' & Hm).
    rewrite E in E'. simplify_eq. inversion Hm as [? Hne|Hwf1 Hs1]; subst.
    + split_and!; [|intros id Hid|done|done]; rewrite holds_without; set_solver.
    + assert (∀ id, holds (with_reservation evse_id r (without [reservation_id r] s)) id ↔
                id = reservation_id r ∨ holds (without [reservation_id r] s) id) as Hh.
      { intros id. rewrite <- (wf_timers _ Hwf1), <- (wf_timers _ (wf_without [reservation_id r] s Hwf)).
        destruct evse_id; cbn [with_reservation]; unfold with_evse, with_global, is_Some; cbn;
          setoid_rewrite lookup_insert_Some; destruct (decide (reservation_id r = id)); naive_solver. }
      split_and!; [rewrite Hh; naive_solver| |done|done].
      intros id Hid. rewrite Hh, holds_without. set_solver.
Qed.
