(* ===== verification/ReservationRestart.v ===== *)
(** * Reservations across a restart, and where they are lost

    What [load_reservations] restores from the array [store_reservations] wrote,
    the cases in which an accepted reservation can no longer be honoured without
    being cancelled, and concrete runs of the handler. *)

From stdpp Require Import sorting.
From S2P Require Import Prelude StdPermutation EvseContext Reservation ReservationFacts ReservationInv.

Import Evse Rsv.

Section restart.
Context `{!DateParser} (now : Z).

Definition unexpired (r : Reservation) : Prop := now ≤ from_rfc3339 (r_expiry_time r).

(** A new reservation cancels nothing. *)
Lemma make_fresh evse_id r x :
  wf x → unexpired r → ¬ holds x (reservation_id r) →
  make_reservation now evse_id r x =
  match evse_id with Some e => make_evse_reservation e r | None => make_global_reservation r end x.
Proof.
  intros Hwf Hr Hfresh. unfold make_reservation. rewrite (proj2 (Z.ltb_ge _ _) Hr).
  rewrite (bind_pure _ _ _ (false, None)); [done|]. unfold cancel_reservation. cprim.
  by rewrite bool_decide_eq_false_2 by (by rewrite (wf_timers x Hwf)).
Qed.

(** An available EVSE is reserved while there are no reservations without EVSE. *)
Lemma evse_accepts e r x :
  evse_reservations x !! e = None → eligible x ∅ e (type_of r) → global_reservations x = [] →
  make_evse_reservation e r x =
  (Ret Accepted, with_reservation (Some e) r x, store_out (with_reservation (Some e) r x)).
Proof.
  intros Hnone (evse & Hev & Ht) Hg. unfold takes in Ht. rewrite !andb_true_iff, !bool_decide_eq_true in Ht.
  destruct Ht as [[Hst Hty] Hav]. unfold make_evse_reservation. cprim.
  rewrite Hnone, Hev, bool_decide_eq_false_2 by (by intros []). cbv zeta. rewrite Hty, Hg.
  rewrite (bool_decide_eq_true_2 (get_evse_connector_state_reservation_result _ _ _ = Accepted))
    by (by apply evse_state_accepted).
  rewrite (bool_decide_eq_true_2 (get_connector_availability_reservation_result _ _ _ = Accepted)) by done.
  unfold set_reservation_timer, store_reservations, store_out. crun. by destruct (store x).
Qed.

(** A reservation without EVSE is made if all of them are servable together. *)
Lemma global_accepts r x :
  servable x (type_of <$> global_reservations x ++ [r]) (evse_reservations x) →
  make_global_reservation r x =
  (Ret Accepted, with_reservation None r x, store_out (with_reservation None r x)).
Proof.
  intros Hs. unfold make_global_reservation. cprim.
  assert (∀ t, r_connector_type r = Some t → does_evse_connector_type_exist x t = true) as Hex.
  { intros t Ht. destruct (servable_offers _ _ _ t Hs) as (e & evse & Hev & Htk).
    { rewrite fmap_app. apply elem_of_app. right. cbn. unfold type_of. rewrite Ht. by left. }
    apply existsb_exists. exists (e, evse). rewrite <- list_elem_of_In, elem_of_items. split; [done|].
    unfold takes in Htk. apply andb_true_iff in Htk as [Htk _]. by apply andb_true_iff in Htk as [_ Htk]. }
  assert (match r_connector_type r with Some t => negb (does_evse_connector_type_exist x t) | None => false end
          = false) as ->.
  { destruct (r_connector_type r) as [t|]; [|done]. by rewrite Hex. }
  rewrite <- types_with_Some in Hs. apply possible_servable in Hs. rewrite Hs.
  unfold set_reservation_timer, store_reservations, store_out. crun. by destruct (store x).
Qed.

(** [only_stores t]: nothing was reported as cancelled. *)
Definition only_stores (t : list output) : Prop := Forall (λ o, ∃ a, o = call_store a) t.

Lemma store_out_only x : only_stores (store_out x).
Proof. unfold store_out. destruct (store x); repeat constructor. eauto. Qed.

Context (s : ReservationHandler) (Hwf : wf s) (Hs : served s).
Context (Hfresh_evse : ∀ e r, evse_reservations s !! e = Some r → unexpired r ∧ eligible s ∅ e (type_of r)).
Context (Hfresh_global : Forall unexpired (global_reservations s)).

(** A handler that has loaded the reservations of some EVSEs. *)
Record loading (x : ReservationHandler) : Prop := {
  ld_wf : wf x;
  ld_evses : evses x = evses s;
  ld_sub : evse_reservations x ⊆ evse_reservations s;
  ld_restored : restored_reservations x = reservation_id <$> evse_reservations x;
  ld_globals : global_reservations x = [];
}.

Lemma load_evse_entry e r x :
  loading x → evse_reservations s !! e = Some r → evse_reservations x !! e = None →
  ∃ x' t, load_entry now (readable (Some e, r)) x = (Ret tt, x', t) ∧ loading x' ∧
          evse_reservations x' = <[e := r]> (evse_reservations x) ∧ only_stores t.
Proof.
  intros Hx Hr Hnone. destruct (Hfresh_evse e r Hr) as [Hexp Hel].
  assert (¬ holds x (reservation_id r)) as Hfr.
  { intros [(e' & r' & Hr' & Heq)|Hin]; [|rewrite (ld_globals x Hx) in Hin; by apply elem_of_nil in Hin].
    pose proof (lookup_weaken _ _ _ _ Hr' (ld_sub x Hx)) as Hr's.
    rewrite (wf_evse_ids s Hwf e' e r' r Hr's Hr Heq) in Hr'. congruence. }
  assert (eligible x ∅ e (type_of r)) as Hel'.
  { by apply (eligible_local s x); [rewrite (ld_evses x Hx)|]. }
  set (x1 := with_reservation (Some e) r x).
  exists (set_restored_reservations (<[e:=reservation_id r]> (restored_reservations x)) x1), (store_out x1 ++ []).
  split_and!.
  - eapply bind_eq; [by rewrite (make_fresh (Some e) r x (ld_wf x Hx) Hexp Hfr), evse_accepts;
                      [|done|done|apply (ld_globals x Hx)]|done].
  - assert (wf x1) as Hwf1.
    { apply wf_with_evse; [apply (ld_wf x Hx)|done|done|]. rewrite (ld_evses x Hx).
      apply (wf_dom s Hwf). eauto. }
    split; cbn.
    + split; apply Hwf1.
    + apply (ld_evses x Hx).
    + apply insert_subseteq_l; [done|apply (ld_sub x Hx)].
    + by rewrite (ld_restored x Hx), fmap_insert.
    + apply (ld_globals x Hx).
  - done.
  - rewrite app_nil_r. apply store_out_only.
Qed.

Lemma load_evse_entries l x :
  loading x → NoDup l.*1 →
  (∀ e r, (e, r) ∈ l → evse_reservations s !! e = Some r ∧ evse_reservations x !! e = None) →
  (∀ e r, evse_reservations s !! e = Some r → (e, r) ∈ l ∨ evse_reservations x !! e = Some r) →
  ∃ x' t, cfor ((λ p : Z * Reservation, readable (Some p.1, p.2)) <$> l) (load_entry now) x = (Ret tt, x', t) ∧
          loading x' ∧ evse_reservations x' = evse_reservations s ∧ only_stores t.
Proof.
  revert x. induction l as [|[e r] l IH]; intros x Hx Hnd Hl Hall.
  { exists x, []. split_and!; [done|done| |constructor]. apply (anti_symm (⊆)); [apply (ld_sub x Hx)|].
    apply map_subseteq_spec. intros e r Hr. by destruct (Hall e r Hr) as [?%elem_of_nil|]. }
  cbn in Hnd. apply NoDup_cons in Hnd as [Hne Hnd]. destruct (Hl e r ltac:(left)) as [Hr Hnone].
  destruct (load_evse_entry e r x Hx Hr Hnone) as (x1 & t1 & E1 & Hx1 & Hev1 & Ho1).
  destruct (IH x1 Hx1 Hnd) as (x2 & t2 & E2 & Hx2 & Hev2 & Ho2).
  - intros e' r' Hin. destruct (Hl e' r' ltac:(by right)) as [H1 H2]. split; [done|].
    rewrite Hev1, lookup_insert_ne; [done|]. intros ->. apply Hne. by apply (list_elem_of_fmap_2' fst _ (e', r')).
  - intros e' r' Hr'. rewrite Hev1. destruct (Hall e' r' Hr') as [[[= -> ->]|]%elem_of_cons|Hx'].
    + right. apply lookup_insert_eq.
    + by left.
    + right. rewrite lookup_insert_ne; [done|]. intros ->. congruence.
  - exists x2, (t1 ++ t2). split_and!; [by eapply bind_eq|done|done|by apply Forall_app].
Qed.
(** A handler that has loaded all EVSE reservations and the first of the others. *)
Record resuming (done_ : list Reservation) (x : ReservationHandler) : Prop := {
  rs_wf : wf x;
  rs_evses : evses x = evses s;
  rs_evse : evse_reservations x = evse_reservations s;
  rs_restored : restored_reservations x = reservation_id <$> evse_reservations s;
  rs_globals : global_reservations x = done_;
}.

Lemma load_global_entry done_ r rest x :
  resuming done_ x → global_reservations s = done_ ++ r :: rest →
  ∃ x' t, load_entry now (readable (None, r)) x = (Ret tt, x', t) ∧ resuming (done_ ++ [r]) x' ∧ only_stores t.
Proof.
  intros Hx Hg. pose proof (wf_global_ids s Hwf) as Hnd. rewrite Hg, fmap_app in Hnd. cbn in Hnd.
  apply NoDup_app in Hnd as (_ & Hdis & _).
  assert (¬ holds x (reservation_id r)) as Hfr.
  { intros [(e & r' & Hr' & Heq)|Hin].
    - rewrite (rs_evse _ x Hx) in Hr'. apply (wf_disjoint s Hwf e r' Hr'). rewrite Heq, Hg, fmap_app.
      apply elem_of_app. right. by left.
    - rewrite (rs_globals _ x Hx) in Hin. apply (Hdis _ Hin). by left. }
  assert (unexpired r) as Hexp.
  { rewrite Hg, Forall_app, Forall_cons in Hfresh_global. tauto. }
  assert (servable x (type_of <$> global_reservations x ++ [r]) (evse_reservations x)) as Hserv.
  { rewrite (rs_globals _ x Hx), (rs_evse _ x Hx). destruct (servable_fewer s (type_of <$> global_reservations s)
      (type_of <$> done_ ++ [r]) (evse_reservations s) Hs) as [Hn Hgame].
    { apply fmap_submseteq. rewrite Hg. apply submseteq_app; [done|]. apply submseteq_skip, submseteq_nil_l. }
    split; [by rewrite (rs_evses _ x Hx)|]. intros o Ho Hst. apply (Hgame o Ho). revert Hst.
    apply strands_transfer. intros e car. by rewrite (eligible_local s x) by (by rewrite (rs_evses _ x Hx)). }
  set (x1 := with_reservation None r x). exists x1, (store_out x1 ++ []). split_and!.
  - eapply bind_eq; [by rewrite (make_fresh None r x (rs_wf _ x Hx) Hexp Hfr), global_accepts|done].
  - split; cbn; [apply wf_with_global; [apply (rs_wf _ x Hx)|done]| | | |by rewrite (rs_globals _ x Hx)];
      apply Hx.
  - rewrite app_nil_r. apply store_out_only.
Qed.

Lemma load_global_entries rest done_ x :
  resuming done_ x → global_reservations s = done_ ++ rest →
  ∃ x' t, cfor ((λ r, readable (None, r)) <$> rest) (load_entry now) x = (Ret tt, x', t) ∧
          resuming (global_reservations s) x' ∧ only_stores t.
Proof.
  revert done_ x. induction rest as [|r rest IH]; intros done_ x Hx Hg.
  { exists x, []. rewrite Hg, app_nil_r. split_and!; [done|done|constructor]. }
  destruct (load_global_entry done_ r rest x Hx Hg) as (x1 & t1 & E1 & Hx1 & Ho1).
  destruct (IH (done_ ++ [r]) x1 Hx1) as (x2 & t2 & E2 & Hx2 & Ho2); [by rewrite Hg, <- app_assoc|].
  exists x2, (t1 ++ t2). split_and!; [by eapply bind_eq|done|by apply Forall_app].
Qed.
End restart.

Lemma wf_new es st : wf (ReservationHandler_new es st).
Proof.
  split; cbn; try done.
  - constructor.
  - intros id. unfold holds; cbn. rewrite lookup_empty. split; [by intros []|].
    intros [(e & r & Hr & _)|Hin%elem_of_nil]; done.
  - intros e [r Hr]. done.
Qed.

Lemma cfor_app {S O X A} (l1 l2 : list A) (body : A → cmd S O X ()) s s1 s2 t1 t2 :
  cfor l1 body s = (Ret tt, s1, t1) → cfor l2 body s1 = (Ret tt, s2, t2) →
  cfor (l1 ++ l2) body s = (Ret tt, s2, t1 ++ t2).
Proof.
  revert s t1. induction l1 as [|a l1 IH]; intros s t1; cbn; [by intros [= -> <-]|].
  unfold mbind, cmd_mbind, cmd_bind. destruct (body a s) as [[[[]|x|] s'] t]; [|done|done].
  destruct (cfor l1 body s') as [[r1 s1'] t1'] eqn:E. intros [= -> -> <-] E2.
  by rewrite (IH s' t1' E E2), app_assoc.
Qed.

(** ** Properties *)

(** Reservations survive a restart.  If the handler's tables are consistent,
    the reservations are servable and unexpired, and the reserved EVSEs are still
    available, then a new handler that loads the array the old one stored holds
    exactly the same reservations, remembers every EVSE reservation as restored, and
    reports none as cancelled. *)
Lemma reservations_survive_restart `{!DateParser} now s :
  wf s → served s → store s = true →
  (∀ e r, evse_reservations s !! e = Some r → unexpired now r ∧ eligible s ∅ e (type_of r)) →
  Forall (unexpired now) (global_reservations s) →
  ∃ s' t, load_reservations now (Some (readable <$> stored_array s)) (ReservationHandler_new (evses s) true) =
            (Ret tt, s', t) ∧ wf s' ∧
    evse_reservations s' = evse_reservations s ∧ global_reservations s' = global_reservations s ∧
    restored_reservations s' = reservation_id <$> evse_reservations s ∧ only_stores t.
Proof.
  intros Hwf Hs Hst Hev Hgl. set (x0 := ReservationHandler_new (evses s) true).
  assert (loading s x0) as Hx0.
  { split; [apply wf_new|done|apply map_empty_subseteq|cbn; by rewrite fmap_empty|done]. }
  destruct (load_evse_entries now s Hwf Hev (items (evse_reservations s)) x0 Hx0)
    as (x1 & t1 & E1 & Hx1 & Hev1 & Ho1).
  { rewrite items_perm. apply NoDup_fst_map_to_list. }
  { intros e r Hr%elem_of_items. done. }
  { intros e r Hr. left. by apply elem_of_items. }
  destruct (load_global_entries now s Hwf Hs Hgl (global_reservations s) [] x1) as (x2 & t2 & E2 & Hx2 & Ho2).
  { split; [apply Hx1|apply Hx1|done| |apply Hx1]. by rewrite (ld_restored s x1 Hx1), Hev1. }
  { done. }
  exists x2, (t1 ++ t2). split_and!; [|apply Hx2|apply Hx2|apply Hx2|apply Hx2|by apply Forall_app].
  unfold load_reservations. cprim. cbn [negb store x0 ReservationHandler_new]. unfold stored_array.
  rewrite fmap_app, <- !list_fmap_compose. eapply cfor_app; [exact E1|exact E2].
Qed.

(** A reservation without an EVSE and without a connector type is never
    cancelled by a connector event when it is the only one, even if no EVSE is left
    that could serve it: the handler checks the other reservations without it. *)
Lemma untyped_reservation_never_cancelled s r :
  global_reservations s = [r] → r_connector_type r = None → evse_reservations s = ∅ →
  check_reservations_and_cancel_if_not_possible s = (Ret tt, s, []) ∧
  ((∀ e, ¬ eligible s ∅ e Unknown) → ¬ served s).
Proof.
  intros Hg Hty Hev. split.
  - assert (check_global_reservations s [r] ∅ [] = Ret []) as Hcheck.
    { cbn [check_global_reservations]. rewrite Hty, (proj2 (possible_servable s None [] ∅)); [done|].
      split; [cbn; rewrite map_size_empty; lia|]. intros o ->%Permutation_nil_r Hst. inversion Hst. }
    unfold check_reservations_and_cancel_if_not_possible. cprim. rewrite Hg, Hev.
    assert (items (∅ : gmap Z Reservation) = []) as -> by (unfold items; by rewrite map_to_list_empty).
    erewrite bind_pure by reflexivity. erewrite bind_pure; [|cbn [snd]; by rewrite Hcheck]. done.
  - intros Hno [_ Hgame]. rewrite Hg, Hev in Hgame. apply (Hgame [Unknown]).
    + cbn. unfold type_of. by rewrite Hty.
    + apply strands_now. intros e He. by apply Hno in He.
Qed.

(** ** Concrete runs *)
Definition demo_dates : DateParser := λ _, 100.

Definition demo_reservation (id : Z) (t : option ConnectorTypeEnum) : Reservation :=
  {| r_evse_id := None; reservation_id := id; r_id_token := "TOKEN"; r_expiry_time := "2030-01-01T00:00:00Z";
     r_parent_id_token := None; r_connector_type := t |}.

(** EVSE 1 with a CCS1 and a Type 2 connector, EVSE 2 with a Type 2 connector. *)
Definition demo_evses : gmap Z EVSEContext :=
  {[ 1 := EVSEContext_new 1 0 [Connector_new 1 cCCS1; Connector_new 2 cType2];
     2 := EVSEContext_new 2 1 [Connector_new 1 cType2] ]}.

Definition demo_handler : ReservationHandler := ReservationHandler_new demo_evses true.

(** The Type 2 connector of EVSE 1 is disabled, then a CCS1 and a Type 2
    reservation are accepted. *)
Definition demo_requests : list request :=
  [ConnectorChange 1 2 DISABLE; MakeReservation 0 None (demo_reservation 1 (Some cCCS1));
   MakeReservation 0 None (demo_reservation 2 (Some cType2))].

Definition demo_reserved : ReservationHandler :=
  foldl (λ s rq, st_of (@rsv_handle demo_dates rq s)) demo_handler demo_requests.

Definition typed_bool (s : ReservationHandler) : bool :=
  forallb (λ r, bool_decide (is_Some (r_connector_type r))) (global_reservations s).

Lemma typed_bool_typed s : typed_bool s = true → typed s.
Proof.
  unfold typed_bool, typed. rewrite forallb_forall, Forall_forall. intros H r Hr.
  apply (bool_decide_eq_true (is_Some (r_connector_type r))), H. by apply list_elem_of_In.
Qed.

Lemma runs_keep `{!DateParser} rqs s :
  wf s → served s →
  (fix go s rqs := match rqs with
     | [] => True
     | rq :: rqs' => typed_bool s = true ∧ leaves_available s rq = false ∧ unknown_evse s rq = false ∧
                     go (st_of (rsv_handle rq s)) rqs'
     end) s rqs →
  wf (foldl (λ s rq, st_of (rsv_handle rq s)) s rqs) ∧ served (foldl (λ s rq, st_of (rsv_handle rq s)) s rqs).
Proof.
  revert s. induction rqs as [|rq rqs IH]; intros s Hwf Hs; [done|]. intros (Ht & Hl & Hu & Hgo).
  destruct (handle_kept rq s Hwf Hs (typed_bool_typed s Ht) Hl Hu) as (s' & t & E & Hwf' & Hs' & _).
  cbn [foldl]. rewrite E in *. by apply IH.
Qed.

Lemma served_new es st : served (ReservationHandler_new es st).
Proof.
  split; [cbn; rewrite map_size_empty; lia|]. intros o ->%Permutation_nil_r Hst. inversion Hst.
Qed.

Lemma demo_reserved_consistent : wf demo_reserved ∧ served demo_reserved.
Proof.
  apply (@runs_keep demo_dates); [apply wf_new|apply served_new|].
  split_and!; vm_compute; reflexivity || exact I.
Qed.

Lemma demo_reserved_typed : typed demo_reserved.
Proof. apply typed_bool_typed. vm_compute. reflexivity. Qed.

(** A connector that becomes available can make accepted reservations
    impossible to honour, and the handler does nothing about it: with CCS1 and Type 2
    at EVSE 1 (Type 2 disabled) and Type 2 at EVSE 2, a CCS1 and a Type 2 reservation
    are accepted; enabling the connector lets the Type 2 car take EVSE 1 and strand
    the CCS1 car, yet no reservation is cancelled and nothing is reported. *)
Lemma enabled_connector_breaks_reservations :
  ∃ s s', wf s ∧ served s ∧ submit_event_for_connector 1 2 ENABLE s = (Ret tt, s', []) ∧
    length (global_reservations s') = 2%nat ∧
    strands (eligible s' (evse_reservations s')) [] [cType2; cCCS1] ∧
    is_reservation_possible s' None (global_reservations s') (evse_reservations s') = Ret false.
Proof.
  exists demo_reserved, (st_of (submit_event_for_connector 1 2 ENABLE demo_reserved)).
  destruct demo_reserved_consistent as [Hwf Hs]. split_and!; [done|done|vm_compute; reflexivity..| |vm_compute; reflexivity].
  set (s' := st_of _).
  destruct (can_arrive_spec s' (evse_reservations s') [cType2; cCCS1] []) as (b & Hb & Hspec); [done|].
  apply Hspec. assert (can_virtual_car_arrive s' [] [cType2; cCCS1] (evse_reservations s') = Ret false) as E
    by (vm_compute; reflexivity). rewrite E in Hb. by injection Hb.
Qed.

Lemma reservations_stay_served_witness :
  ∃ s' t, @rsv_handle demo_dates (ConnectorChange 2 1 FAULTED_event) demo_reserved = (Ret tt, s', t) ∧
          wf s' ∧ served s' ∧ last_stored (stored_array demo_reserved) t = stored_array s'.
Proof.
  destruct (@reservations_stay_served demo_dates (ConnectorChange 2 1 FAULTED_event) demo_reserved
    (proj1 demo_reserved_consistent) (proj2 demo_reserved_consistent) demo_reserved_typed
    ltac:(vm_compute; reflexivity) ltac:(vm_compute; reflexivity)) as (s' & t & E & Hwf & Hs & Hm).
  exists s', t. split_and!; [exact E|exact Hwf|exact Hs|]. apply Hm. vm_compute. reflexivity.
Defined.

(** Every connector of the demo station is faulted. *)
Definition demo_faulted : ReservationHandler :=
  set_global_reservations [demo_reservation 7 None] (ReservationHandler_new
    {[ 1 := EVSEContext_new 1 0 [submit_event FAULTED_event (Connector_new 1 cCCS1)] ]} true).

