(* ===== verification/Resume.v ===== *)
(** * Code that gives up its lock in the middle

    A member function that waits on a condition variable, or unlocks the mutex around
    a slow call, is a sequence of critical sections: other threads run between two of
    them.  [act] is such a function stopped at a wait (or finished), [prog] a function
    about to run its next section in a state.  [fulfils] and [serves] are the
    rely-guarantee contracts: the guarantee has to hold at every wait, and the rely
    condition is all that is known when the function goes on. *)

From S2P Require Import Prelude.

Section act.
Context {S O X W R : Type}.

(** [W]: what the function waits for; [R]: what it is told when it goes on. *)
Inductive act (A : Type) : Type :=
| Done (a : A)
| Wait (w : W) (k : R → S → outcome X (act A) * S * list O).
Arguments Done {A} a.
Arguments Wait {A} w k.

Definition prog (A : Type) : Type := cmd S O X (act A).

(** Continue with [k] once the function is finished. *)
Fixpoint act_bind {A B} (k : A → prog B) (t : act A) : prog B :=
  match t with
  | Done a => k a
  | Wait w c =>
      λ s, (Ret (Wait w (λ r s1,
              match c r s1 with
              | (Ret t', s2, o1) => let '(res, s3, o2) := act_bind k t' s2 in (res, s3, o1 ++ o2)
              | (Throw x, s2, o1) => (Throw x, s2, o1)
              | (Undef, s2, o1) => (Undef, s2, o1)
              end)), s, [])
  end.

#[global] Instance prog_mret : MRet prog := λ A a, cmd_ret (Done a).
#[global] Instance prog_mbind : MBind prog := λ A B k m, cmd_bind (act_bind k) m.

(** Code that does not wait. *)
Definition sec {A} (m : cmd S O X A) : prog A := cmd_bind (λ a, cmd_ret (Done a)) m.

Definition pwait (w : W) : prog R := λ s, (Ret (Wait w (λ r s', (Ret (Done r), s', []))), s, []).

Fixpoint pfor {A} (l : list A) (body : A → prog ()) : prog () :=
  match l with
  | [] => mret tt
  | a :: l' => body a ≫= λ _, pfor l' body
  end.

(** Runs of a function whose first part is done without waiting. *)
Lemma pbind_done {A B} (m : prog A) (k : A → prog B) s a s1 o1 r s2 o2 :
  m s = (Ret (Done a), s1, o1) → k a s1 = (r, s2, o2) → (m ≫= k) s = (r, s2, o1 ++ o2).
Proof. unfold mbind, prog_mbind, cmd_bind. intros -> E. cbn. by rewrite E. Qed.

Lemma pbind_silent {A B} (m : prog A) (k : A → prog B) s a s1 :
  m s = (Ret (Done a), s1, []) → (m ≫= k) s = k a s1.
Proof. intros Hm. destruct (k a s1) as [[r s2] o2] eqn:E. by rewrite (pbind_done m k s a s1 [] r s2 o2). Qed.

Lemma sec_done {A} (m : cmd S O X A) s a s1 o : m s = (Ret a, s1, o) → sec m s = (Ret (Done a), s1, o).
Proof. unfold sec, cmd_bind. intros ->. cbn. by rewrite app_nil_r. Qed.

(** ** Contracts

    [ok w r s]: a function that waits for [w] may go on with answer [r] in state [s].
    [G w] holds at a wait for [w], [R'] when the function goes on; as in [hoare], [v] is what has
    been seen of this function so far: its calls ([f]), the answers it was given and the
    states in which it went on ([g]). *)
Section contracts.
Context {V : Type} (f : V → O → V) (g : V → W → R → S → V) (ok : W → R → S → Prop)
  (G : W → S → V → Prop) (R' : S → V → Prop).

Fixpoint fulfils {A} (Q : A → S → V → Prop) (E : option X → S → V → Prop) (t : act A) (s : S) (v : V) : Prop :=
  match t with
  | Done a => Q a s v
  | Wait w k =>
      G w s v ∧ ∀ r s1, R' s1 v → ok w r s1 →
        match k r s1 with
        | (Ret t', s2, o) => fulfils Q E t' s2 (foldl f (g v w r s1) o)
        | (Throw x, s2, o) => E (Some x) s2 (foldl f (g v w r s1) o)
        | (Undef, s2, o) => E None s2 (foldl f (g v w r s1) o)
        end
  end.

Definition serves {A} (P : S → V → Prop) (m : prog A) (Q : A → S → V → Prop)
    (E : option X → S → V → Prop) : Prop :=
  hoare f P m (fulfils Q E) E.

Lemma act_bind_fulfils {A B} (k : A → prog B) Q Q' E (t : act A) s v :
  (∀ a, serves (Q a) (k a) Q' E) → fulfils Q E t s v →
  match act_bind k t s with
  | (Ret t', s', o) => fulfils Q' E t' s' (foldl f v o)
  | (Throw x, s', o) => E (Some x) s' (foldl f v o)
  | (Undef, s', o) => E None s' (foldl f v o)
  end.
Proof.
  intros Hk. revert t s v. fix IH 1. intros [a|w c] s v; [by apply (Hk a)|]. cbn.
  intros [HI Hc]. split; [done|]. intros r s1 H1 Hok. specialize (Hc r s1 H1 Hok).
  destruct (c r s1) as [[[t'|x|] s2] o1]; [|done|done]. specialize (IH t' s2 _ Hc).
  destruct (act_bind k t' s2) as [[[t''|x|] s3] o2]; by rewrite foldl_app.
Qed.

Lemma serves_bind {A B} P (m : prog A) (k : A → prog B) Q Q' E :
  serves P m Q E → (∀ a, serves (Q a) (k a) Q' E) → serves P (m ≫= k) Q' E.
Proof.
  intros Hm Hk s v Hs. specialize (Hm s v Hs). unfold mbind, prog_mbind, cmd_bind.
  destruct (m s) as [[[t|x|] s1] o1]; [|done|done]. pose proof (act_bind_fulfils k Q Q' E t s1 _ Hk Hm) as H.
  destruct (act_bind k t s1) as [[[t'|x|] s2] o2]; by rewrite foldl_app.
Qed.

Lemma serves_ret {A} P (a : A) (Q : A → S → V → Prop) E :
  (∀ s v, P s v → Q a s v) → serves P (mret a : prog A) Q E.
Proof. intros HQ s v Hs. by apply HQ. Qed.

Lemma serves_sec {A} P (m : cmd S O X A) Q E : hoare f P m Q E → serves P (sec m) Q E.
Proof.
  intros Hm. unfold sec. change (hoare f P (m ≫= λ a, mret (Done a)) (fulfils Q E) E).
  eapply hoare_bind; [exact Hm|]. intros a. by apply hoare_ret.
Qed.

(** What is known of the view survives the wait. *)
Lemma serves_wait P w (Q : R → S → V → Prop) E :
  (∀ s v, P s v → G w s v) → (∀ s0 r s v, P s0 v → R' s v → ok w r s → Q r s (g v w r s)) →
  serves P (pwait w) Q E.
Proof. intros HG HQ s v Hs. cbn. split; [by apply HG|]. intros r s1 H1 Hok. by eapply HQ. Qed.

Lemma serves_pre {A} P P' (m : prog A) Q E :
  serves P' m Q E → (∀ s v, P s v → P' s v) → serves P m Q E.
Proof. apply hoare_pre. Qed.

Lemma fulfils_mono {A} (Q Q' : A → S → V → Prop) (E E' : option X → S → V → Prop) t s v :
  (∀ a s v, Q' a s v → Q a s v) → (∀ x s v, E' x s v → E x s v) → fulfils Q' E' t s v → fulfils Q E t s v.
Proof.
  intros HQ HE. revert t s v. fix IH 1. intros [a|w c] s v; [apply HQ|]. cbn. intros [HI Hc]. split; [done|].
  intros r s1 H1 Hok. specialize (Hc r s1 H1 Hok). destruct (c r s1) as [[[t'|x|] s2] o1]; eauto.
Qed.

Lemma serves_conseq {A} P P' (m : prog A) (Q Q' : A → S → V → Prop) E E' :
  serves P' m Q' E' → (∀ s v, P s v → P' s v) → (∀ a s v, Q' a s v → Q a s v) →
  (∀ x s v, E' x s v → E x s v) → serves P m Q E.
Proof. intros Hm HP HQ HE. eapply hoare_conseq; [exact Hm|done| |done]. intros t s v. by apply fulfils_mono. Qed.

Lemma serves_get {A} P (k : S → prog A) Q E :
  (∀ s0, serves (λ s v, s = s0 ∧ P s v) (k s0) Q E) → serves P (sec cget ≫= k) Q E.
Proof.
  intros Hk. eapply serves_bind; [|exact Hk]. apply serves_sec. intros s v Hs. by split.
Qed.

Lemma serves_assume {A} (φ : Prop) P (m : prog A) Q E :
  (∀ s v, P s v → φ) → (φ → serves P m Q E) → serves P m Q E.
Proof. apply hoare_assume. Qed.

Lemma serves_tracks {A} I (m : cmd S O X A) E : Tracks f I m → serves I (sec m) (λ _, I) E.
Proof. intros Hm. by apply serves_sec, leads_hoare. Qed.

Lemma serves_for {A} (I : S → V → Prop) (l : list A) (body : A → prog ()) E :
  (∀ a, a ∈ l → serves I (body a) (λ _, I) E) → serves I (pfor l body) (λ _, I) E.
Proof.
  induction l as [|a l IH]; intros Hb; cbn; [by apply serves_ret|].
  eapply serves_bind; [apply Hb; by left|]. intros []. apply IH. intros b Hin. apply Hb. by right.
Qed.
End contracts.
End act.

Arguments act : clear implicits.
Arguments prog : clear implicits.
Arguments Done {S O X W R A} a.
Arguments Wait {S O X W R A} w k.
