(* ===== verification/AuthHandler.v ===== *)
(** * The auth handler

    Models [src/modules/EVSE/Auth/lib/AuthHandler.cpp] and its header.  One record for
    the object, with the reservation handler it owns; the EVSE map, which both share, is
    the [evses] of the reservation handler.  Every function that keeps [event_mutex] to
    its end is a command; functions that release it (around the call of the
    validators, in a condition variable, between two locked calls) are [prog]s of
    critical sections.  The calls of the registered callbacks and of the key value
    store are the outputs.  An [EVSEContext]'s timer holds the lambda it is armed with. *)

From Stdlib Require Import String.
From S2P Require Import Prelude Resume EvseContext Reservation.

Import Evse.

Module Auth.

(** ** Types, [src/types/authorization.yaml] and others

    Members that are only carried along (certificate hash data, certificate status,
    transfer modes) are left out. *)
Inductive TokenHandlingResult :=
| ALREADY_IN_PROCESS | REJECTED | USED_TO_START_TRANSACTION | USED_TO_STOP_TRANSACTION | TIMEOUT
| NO_CONNECTOR_AVAILABLE | WITHDRAWN | USED_TO_REAUTHORIZE.

Inductive TokenValidationStatus :=
| Processing | TokenAccepted | TokenRejected | TimedOut | UsedToStart | UsedToStop | TokenWithdrawn | UsedToReauthorize.

Inductive SelectionAlgorithm := UserInput | PlugEvents | PlugEventsLIFO | FindFirst.

#[global] Instance TokenHandlingResult_eq_dec : EqDecision TokenHandlingResult.
Proof. solve_decision. Defined.
#[global] Instance TokenValidationStatus_eq_dec : EqDecision TokenValidationStatus.
Proof. solve_decision. Defined.
#[global] Instance SelectionAlgorithm_eq_dec : EqDecision SelectionAlgorithm.
Proof. solve_decision. Defined.

Record ProvidedIdToken := {
  p_request_id : option Z;
  p_id_token : IdToken;
  p_parent_id_token : option IdToken;
  p_authorization_type : AuthorizationType;
  p_connectors : option (list Z);
  p_prevalidated : option bool;
  p_certificate : option string;
}.

Definition eta_token (p : ProvidedIdToken) : ProvidedIdToken :=
  {| p_request_id := p_request_id p; p_id_token := p_id_token p; p_parent_id_token := p_parent_id_token p;
     p_authorization_type := p_authorization_type p; p_connectors := p_connectors p;
     p_prevalidated := p_prevalidated p; p_certificate := p_certificate p |}.

Definition set_p_parent_id_token v p : ProvidedIdToken := ltac:(set_field eta_token p_parent_id_token v p).
Definition set_p_connectors v p : ProvidedIdToken := ltac:(set_field eta_token p_connectors v p).

#[global] Instance ProvidedIdToken_eq_dec : EqDecision ProvidedIdToken.
Proof. solve_decision. Defined.

Record ValidationResult := {
  v_authorization_status : AuthorizationStatus;
  v_tariff_messages : list string;
  v_expiry_time : option string;
  v_parent_id_token : option IdToken;
  v_evse_ids : option (list Z);
  v_reservation_id : option Z;
}.

Definition eta_result (v : ValidationResult) : ValidationResult :=
  {| v_authorization_status := v_authorization_status v; v_tariff_messages := v_tariff_messages v;
     v_expiry_time := v_expiry_time v; v_parent_id_token := v_parent_id_token v; v_evse_ids := v_evse_ids v;
     v_reservation_id := v_reservation_id v |}.

Definition set_v_authorization_status x v : ValidationResult := ltac:(set_field eta_result v_authorization_status x v).
Definition set_v_reservation_id x v : ValidationResult := ltac:(set_field eta_result v_reservation_id x v).

(** [ValidationResult{status}], the other members default initialised. *)
Definition ValidationResult_of (status : AuthorizationStatus) (parent : option IdToken) : ValidationResult :=
  {| v_authorization_status := status; v_tariff_messages := []; v_expiry_time := None;
     v_parent_id_token := parent; v_evse_ids := None; v_reservation_id := None |}.

Record ValidationResultUpdate := { u_validation_result : ValidationResult; u_connector_id : Z }.

Record WithdrawAuthorizationRequest := { w_evse_id : option Z; w_id_token : option IdToken }.
Inductive WithdrawAuthorizationResult := WithdrawAccepted | AuthorizationNotFound | EvseNotFound | WithdrawRejected.

Inductive StopTransactionReason :=
| EmergencyStop | EVDisconnected | HardReset | Local | Other | PowerLoss | Reboot | Remote | SoftReset
| UnlockCommand | DeAuthorized | EnergyLimitReached | GroundFault | LocalOutOfCredit | MasterPass
| OvercurrentFault | PowerQuality | SOCLimitReached | StoppedByEV | TimeLimitReached | Timeout
| ReqEnergyTransferRejected | EVSEDisabled.
Record StopTransactionRequest := { reason : StopTransactionReason; id_tag : option ProvidedIdToken }.

Inductive ReservationCheckStatus :=
| NotReserved | ReservedForToken | ReservedForOtherToken | ReservedForOtherTokenAndHasParentToken.

Inductive StartSessionReason := EVConnected | Authorized_reason.

Inductive SessionEventEnum :=
| Authorized | Deauthorized | Enabled | Disabled | SessionStarted | AuthRequired | TransactionStarted
| PrepareCharging | ChargingStarted | ChargingPausedEV | ChargingPausedEVSE | StoppingCharging
| ChargingFinished | TransactionFinished | SessionFinished | ReservationStart | ReservationEnd
| PluginTimeout | SwitchingPhases | SessionResumed.

#[global] Instance SessionEventEnum_eq_dec : EqDecision SessionEventEnum.
Proof. solve_decision. Defined.

Record SessionEvent := {
  event : SessionEventEnum;
  ev_connector_id : option Z;
  session_started : option StartSessionReason;
}.

Definition token_handling_result_to_string (result : TokenHandlingResult) : string :=
  match result with
  | ALREADY_IN_PROCESS => "ALREADY_IN_PROCESS"
  | NO_CONNECTOR_AVAILABLE => "NO_CONNECTOR_AVAILABLE"
  | REJECTED => "REJECTED"
  | TIMEOUT => "TIMEOUT"
  | USED_TO_START_TRANSACTION => "USED_TO_START_TRANSACTION"
  | USED_TO_STOP_TRANSACTION => "USED_TO_STOP_TRANSACTION"
  | WITHDRAWN => "WITHDRAWN"
  | USED_TO_REAUTHORIZE => "USED_TO_REAUTHORIZE"
  end.

(** [is_equal_case_insensitive] on tokens: values up to case, and the types. *)
Definition equal_token (t1 t2 : IdToken) : bool :=
  Rsv.is_equal_case_insensitive (value t1) (value t2) && bool_decide (token_type t1 = token_type t2).

(** ** The object *)

(** The lambdas the timer of an EVSE is armed with. *)
Inductive timeout_task :=
| authorization_timeout (evse_id evse_index : Z) (provided_token : ProvidedIdToken)
| plug_in_timeout_task (evse_id : Z).

Definition task_evse (t : timeout_task) : Z :=
  match t with authorization_timeout e _ _ | plug_in_timeout_task e => e end.

Inductive callback :=
| cb_notify_evse | cb_withdraw_authorization | cb_validate_token | cb_stop_transaction | cb_reserved
| cb_reservation_cancelled | cb_publish_token_validation_status.

#[global] Instance callback_eq_dec : EqDecision callback.
Proof. solve_decision. Defined.

Record AuthHandler := {
  selection_algorithm : SelectionAlgorithm;
  connection_timeout : Z;
  plug_in_timeout_enabled : bool;
  master_pass_group_id : option string;
  prioritize_authorization_over_stopping_transaction : bool;
  ignore_faults : bool;
  stop_transaction_on_reswipe : bool;
  reservation_handler : Rsv.ReservationHandler;
  plug_in_queue : list Z;
  tokens_in_process : list ProvidedIdToken;      (* at most one per [id_token.value] *)
  withdraw_mutex : bool;                         (* locked *)
  withdraw_request : option WithdrawAuthorizationRequest;
  timeout_timers : gmap Z timeout_task;          (* the armed timers *)
  registered : list callback;
  reserved_answers : list bool;                  (* what [reserved_callback] will answer; then [true] *)
}.

Definition eta_auth (s : AuthHandler) : AuthHandler :=
  {| selection_algorithm := selection_algorithm s; connection_timeout := connection_timeout s;
     plug_in_timeout_enabled := plug_in_timeout_enabled s; master_pass_group_id := master_pass_group_id s;
     prioritize_authorization_over_stopping_transaction := prioritize_authorization_over_stopping_transaction s;
     ignore_faults := ignore_faults s; stop_transaction_on_reswipe := stop_transaction_on_reswipe s;
     reservation_handler := reservation_handler s; plug_in_queue := plug_in_queue s;
     tokens_in_process := tokens_in_process s; withdraw_mutex := withdraw_mutex s;
     withdraw_request := withdraw_request s; timeout_timers := timeout_timers s;
     registered := registered s; reserved_answers := reserved_answers s |}.

Definition set_connection_timeout_f v s : AuthHandler := ltac:(set_field eta_auth connection_timeout v s).
Definition set_plug_in_timeout_enabled_f v s : AuthHandler := ltac:(set_field eta_auth plug_in_timeout_enabled v s).
Definition set_master_pass_group_id_f v s : AuthHandler := ltac:(set_field eta_auth master_pass_group_id v s).
Definition set_prioritize_f v s : AuthHandler :=
  ltac:(set_field eta_auth prioritize_authorization_over_stopping_transaction v s).
Definition set_stop_on_reswipe_f v s : AuthHandler := ltac:(set_field eta_auth stop_transaction_on_reswipe v s).
Definition set_reservation_handler v s : AuthHandler := ltac:(set_field eta_auth reservation_handler v s).
Definition set_plug_in_queue v s : AuthHandler := ltac:(set_field eta_auth plug_in_queue v s).
Definition set_tokens_in_process v s : AuthHandler := ltac:(set_field eta_auth tokens_in_process v s).
Definition set_withdraw_mutex v s : AuthHandler := ltac:(set_field eta_auth withdraw_mutex v s).
Definition set_withdraw_request v s : AuthHandler := ltac:(set_field eta_auth withdraw_request v s).
Definition set_timeout_timers v s : AuthHandler := ltac:(set_field eta_auth timeout_timers v s).
Definition set_registered v s : AuthHandler := ltac:(set_field eta_auth registered v s).
Definition set_reserved_answers v s : AuthHandler := ltac:(set_field eta_auth reserved_answers v s).

(** The shared map of EVSEs. *)
Definition evses (s : AuthHandler) : gmap Z EVSEContext := Rsv.evses (reservation_handler s).
Definition set_evses (v : gmap Z EVSEContext) (s : AuthHandler) : AuthHandler :=
  set_reservation_handler (Rsv.set_evses v (reservation_handler s)) s.

Definition AuthHandler_new (algorithm : SelectionAlgorithm) (timeout : Z) (plug_in_timeout_on prioritize
    faults_ignored stop_on_reswipe has_store : bool) : AuthHandler :=
  {| selection_algorithm := algorithm; connection_timeout := timeout;
     plug_in_timeout_enabled := plug_in_timeout_on; master_pass_group_id := None;
     prioritize_authorization_over_stopping_transaction := prioritize;
     ignore_faults := faults_ignored; stop_transaction_on_reswipe := stop_on_reswipe;
     reservation_handler := Rsv.ReservationHandler_new ∅ has_store; plug_in_queue := [];
     tokens_in_process := []; withdraw_mutex := false; withdraw_request := None;
     timeout_timers := ∅; registered := []; reserved_answers := [] |}.

(** ** Calls to the outside *)
Inductive call :=
| notify_evse_callback (evse_index : Z) (provided_token : ProvidedIdToken) (validation_result : ValidationResult)
| withdraw_authorization_callback (evse_index : Z)
| stop_transaction_callback (evse_index : Z) (request : StopTransactionRequest)
| reserved_callback (evse_id : option Z) (reservation_id : Z) (reservation : option Rsv.Reservation)
| reservation_cancelled_callback (evse_id : option Z) (reservation_id : Z) (why : Rsv.ReservationEndReason)
    (send_reservation_update : bool)
| publish_token_validation_status_callback (token : ProvidedIdToken) (status : TokenValidationStatus)
    (tariff_messages : list string)
| call_store (reservations : list Rsv.stored_reservation).

Inductive exn := out_of_range | bad_function_call | json_exception | bad_optional_access | runtime_error.

Definition of_rsv_exn (x : Rsv.exn) : exn :=
  match x with
  | Rsv.out_of_range => out_of_range
  | Rsv.bad_function_call => bad_function_call
  | Rsv.json_exception => json_exception
  end.

Definition of_rsv_output (o : Rsv.output) : call :=
  match o with
  | Rsv.reservation_cancelled e id why upd => reservation_cancelled_callback e id why upd
  | Rsv.call_store l => call_store l
  end.

(** What a thread may wait for while [event_mutex] is released, and the answers. *)
Inductive wait :=
| validators (provided_token : ProvidedIdToken)              (* the call of the validators *)
| plug_in (selected_evses : list Z) (id_token : IdToken)      (* [cv.wait_for] in [select_evse] *)
| no_timeout_task (evse_id : Z)                               (* [cv.wait] for [!timeout_in_progress] *)
| processed (request : WithdrawAuthorizationRequest)          (* [processing_finished_cv.wait] *)
| withdraw_lock                                               (* [withdraw_mutex] *)
| relock                                                      (* between two critical sections *)
| timer_thread (evse_id : Z).                                 (* a fired timer's thread gets to its lambda *)

Inductive answer := validated (results : list ValidationResult) | notified | timed_out.

Notation op := (cmd AuthHandler call exn).
Notation thread := (prog AuthHandler call exn wait answer).

(** Running an operation of the reservation handler. *)
Definition of_rsv_outcome {A} (r : outcome Rsv.exn A) : outcome exn A :=
  match r with Ret a => Ret a | Throw x => Throw (of_rsv_exn x) | Undef => Undef end.

Definition rsv {A} (m : Rsv.op A) : op A :=
  λ s, let '(r, h, o) := m (reservation_handler s) in
       (of_rsv_outcome r, set_reservation_handler h s, of_rsv_output <$> o).

(** Calling a registered callback; an empty [std::function] throws. *)
Definition invoke (c : callback) (o : call) : op () :=
  s ← cget;
  if bool_decide (c ∈ registered s) then cemit o else cthrow bad_function_call.

Definition ask_reserved (e : option Z) (id : Z) (r : option Rsv.Reservation) : op bool :=
  invoke cb_reserved (reserved_callback e id r) ;;
  s ← cget;
  cmodify (set_reserved_answers (tail (reserved_answers s))) ;;
  mret (default true (head (reserved_answers s))).

Definition publish_token_validation_status (token : ProvidedIdToken) (status : TokenValidationStatus)
    (tariff_messages : list string) : op () :=
  invoke cb_publish_token_validation_status
    (publish_token_validation_status_callback token status tariff_messages).

(** [evses.at(evse_id)], and an assignment through it. *)
Definition evse_at (s : AuthHandler) (e : Z) : outcome exn EVSEContext :=
  match evses s !! e with Some evse => Ret evse | None => Throw out_of_range end.

Definition upd_evse (e : Z) (g : EVSEContext → EVSEContext) : op () :=
  s ← cget;
  evse ← clift (evse_at s e);
  cmodify (set_evses (<[e := g evse]> (evses s))).

(** ** Registration and settings *)
Definition register_callback (c : callback) : op () := cmodify (λ s, set_registered (c :: registered s) s).

Definition register_reservation_cancelled_callback : op () :=
  register_callback cb_reservation_cancelled ;;
  rsv Rsv.register_reservation_cancelled_callback.

Definition init_evse (evse_id evse_index : Z) (cs : list Connector) : op () :=
  if evse_id <=? 0 then mret tt
  else cmodify (λ s, set_evses (<[evse_id := EVSEContext_new evse_id evse_index cs]> (evses s)) s).

Definition get_evse_id_by_index (index : Z) : op Z :=
  s ← cget;
  match List.find (λ p, evse_index p.2 =? index) (items (evses s)) with
  | Some p => mret p.1
  | None => cthrow out_of_range
  end.

Definition set_connection_timeout (v : Z) : op () := cmodify (set_connection_timeout_f v).
Definition set_plug_in_timeout_enabled (v : bool) : op () := cmodify (set_plug_in_timeout_enabled_f v).
Definition set_master_pass_group_id (v : string) : op () :=
  cmodify (set_master_pass_group_id_f (if bool_decide (v = EmptyString) then None else Some v)).
Definition set_prioritize_authorization_over_stopping_transaction (b : bool) : op () := cmodify (set_prioritize_f b).
Definition set_stop_transaction_on_reswipe (b : bool) : op () := cmodify (set_stop_on_reswipe_f b).

(** ** Reservations and the EVSEs they need *)

(** A set is traversed in ascending order. *)
Definition ascending (l : gset Z) : list Z := merge_sort Z.le (elements l).

Definition check_evse_reserved_and_send_updates : op () :=
  status ← rsv Rsv.check_number_global_reservations_match_number_available_evses;
  cfor (ascending (Rsv.status_available status)) (λ e,
    invoke cb_reservation_cancelled
      (reservation_cancelled_callback (Some e) (-1) Rsv.GlobalReservationRequirementDropped false)) ;;
  cfor (ascending (Rsv.status_reserved status)) (λ e,
    s ← cget;
    cwhen (bool_decide (cb_reserved ∈ registered s)) (ask_reserved (Some e) (-1) None ;; mret tt)).

Definition call_reservation_cancelled (id : Z) (why : Rsv.ReservationEndReason) (e : option Z)
    (send_reservation_update : bool) : op () :=
  invoke cb_reservation_cancelled (reservation_cancelled_callback e id why send_reservation_update) ;;
  check_evse_reserved_and_send_updates.

(** The lambda handed to the reservation handler. *)
Definition on_reservation_cancelled (e : option Z) (id : Z) (why : Rsv.ReservationEndReason)
    (send_reservation_update : bool) : op () :=
  if match e with Some e => e <? 0 | None => false end then mret tt
  else call_reservation_cancelled id why e send_reservation_update.

(** [ReservationHandler::cancel_reservation(id, true, why)]: the callback is its last
    action, and runs the lambda above. *)
Definition cancel_and_notify (id : Z) (why : Rsv.ReservationEndReason) : op (bool * option Z) :=
  r ← rsv (Rsv.cancel_reservation id false why);
  s ← cget;
  cwhen (r.1 && Rsv.reservation_cancelled_callback (reservation_handler s))
    (on_reservation_cancelled r.2 id why true) ;;
  mret r.

Definition cancel_evse_and_notify (evse_id : Z) : op bool :=
  s ← cget;
  match Rsv.evse_reservations (reservation_handler s) !! evse_id with
  | Some r => result ← cancel_and_notify (Rsv.reservation_id r) Rsv.Cancelled; mret result.1
  | None => mret false
  end.

Definition on_reservation_expired (id : Z) : op () := cancel_and_notify id Rsv.Expired ;; mret tt.

Definition check_reservations_and_cancel_if_not_possible : op () :=
  s ← cget;
  let h := reservation_handler s in
  first ← clift (of_rsv_outcome (Rsv.check_evse_reservations h (items (Rsv.evse_reservations h)) ∅));
  second ← clift (of_rsv_outcome (Rsv.check_global_reservations h (Rsv.global_reservations h) first.2 []));
  cfor (first.1 ++ second) (λ id, cancel_and_notify id Rsv.Cancelled ;; mret tt).

Definition on_connector_state_changed (connector_state : ConnectorState) (evse_id conn_id : Z) : op () :=
  if bool_decide (connector_state = AVAILABLE) then mret tt
  else
    s ← cget;
    match evses s !! evse_id with
    | None => mret tt
    | Some evse =>
        match Rsv.find_connector evse conn_id with
        | None => mret tt
        | Some c =>
            match Rsv.evse_reservations (reservation_handler s) !! evse_id with
            | Some r =>
                if Rsv.bound_to r c then cancel_and_notify (Rsv.reservation_id r) Rsv.Cancelled ;; mret tt
                else check_reservations_and_cancel_if_not_possible
            | None => check_reservations_and_cancel_if_not_possible
            end
        end
    end.

Definition submit_event_for_connector (evse_id conn_id : Z) (ev : ConnectorEvent) : op () :=
  s ← cget;
  evse ← clift (evse_at s evse_id);
  let '(cs, state) := Rsv.submit_to_connector conn_id ev (connectors evse) in
  cmodify (set_evses (<[evse_id := set_connectors cs evse]> (evses s))) ;;
  match state with
  | Some st => on_connector_state_changed st evse_id conn_id
  | None => mret tt
  end.

Definition handle_permanent_fault_raised (evse_id conn_id : Z) : op () :=
  s ← cget;
  cwhen (negb (ignore_faults s)) (submit_event_for_connector evse_id conn_id FAULTED_event).

Definition handle_permanent_fault_cleared (evse_id conn_id : Z) : op () :=
  s ← cget;
  cwhen (negb (ignore_faults s)) (submit_event_for_connector evse_id conn_id ERROR_CLEARED).

Definition call_reserved (id : Z) (e : option Z) : op bool :=
  s ← cget;
  let reservation := match e with
                     | Some e => if 0 <=? e then Rsv.get_evse_reservation (reservation_handler s) e id else None
                     | None => None
                     end in
  reserved ← ask_reserved e id reservation;
  cwhen reserved check_evse_reserved_and_send_updates ;;
  mret reserved.

Section dates.
Context `{!Rsv.DateParser}.

Definition handle_reservation (now : Z) (r : Rsv.Reservation) : op Rsv.ReservationResult :=
  let e := match Rsv.r_evse_id r with
           | Some e => if 0 <=? e then Some e else None
           | None => None
           end in
  rsv (Rsv.make_reservation now e r).

Definition handle_cancel_reservation (id : Z) : op (bool * option Z) :=
  r ← rsv (Rsv.cancel_reservation id false Rsv.Cancelled);
  mret (if (r.1 : bool) then (true, r.2) else (false, None)).

(** [handle_cancel_reservation] of the module's reservation interface. *)
Definition cancel_reservation (id : Z) : thread bool :=
  cancelled ← sec (handle_cancel_reservation id);
  if (cancelled.1 : bool) then
    _ ← pwait relock;
    _ ← sec (call_reservation_cancelled id Rsv.Cancelled cancelled.2 false);
    mret true
  else mret false.

(** [cancel_replaced_if_dropped]; the new [replaced_evse_id]. *)
Definition cancel_replaced_if_dropped (id : Z) (replaced_evse_id : option Z) : op (option Z) :=
  s ← cget;
  match replaced_evse_id with
  | Some e =>
      if negb (Rsv.is_evse_reserved_with (reservation_handler s) e id) then
        call_reservation_cancelled id Rsv.Cancelled (Some e) false ;; mret None
      else mret (Some e)
  | None => mret None
  end.

Definition place_reservation (now : Z) (r : Rsv.Reservation) : thread Rsv.ReservationResult :=
  let id := Rsv.reservation_id r in
  s ← sec cget;
  let replaced := Rsv.get_evse_id_of_reservation (reservation_handler s) id in
  _ ← pwait relock;
  result ← sec (handle_reservation now r);
  _ ← pwait relock;
  replaced ← sec (cancel_replaced_if_dropped id replaced);
  if negb (bool_decide (result = Rsv.Accepted)) then mret result
  else
    _ ← pwait relock;
    reserved ← sec (call_reserved id (Rsv.r_evse_id r));
    _ ← pwait relock;
    if negb reserved then
      _ ← sec (handle_cancel_reservation id);
      _ ← pwait relock;
      _ ← sec (cancel_replaced_if_dropped id replaced);
      mret Rsv.Rejected
    else
      s ← sec cget;
      _ ← sec (cwhen (match Rsv.r_evse_id r with
                      | Some e => (0 <? e) && negb (Rsv.is_evse_reserved_with (reservation_handler s) e id)
                      | None => false
                      end)
                 (invoke cb_reservation_cancelled
                    (reservation_cancelled_callback (Rsv.r_evse_id r) id Rsv.Cancelled false)));
      mret result.

Definition handle_reservation_exists (token : string) (e : option Z) (group_id_token : option string) :
    op ReservationCheckStatus :=
  s ← cget;
  let h := reservation_handler s in
  let found := Rsv.matches_reserved_identifier h token e group_id_token in
  match e with
  | None => mret (if bool_decide (is_Some found) then ReservedForToken else NotReserved)
  | Some evse_id =>
      if negb (Rsv.is_evse_reserved h evse_id) then mret NotReserved
      else if bool_decide (is_Some found) then mret ReservedForToken
      else match group_id_token with
           | None => if Rsv.has_reservation_parent_id h e then mret ReservedForOtherTokenAndHasParentToken
                     else mret ReservedForOtherToken
           | Some _ => mret ReservedForOtherToken
           end
  end.

(** ** Restored reservations *)
Definition load_entry (now : Z) (entry : Rsv.loaded_entry) : op () :=
  match entry with
  | Rsv.unreadable_reservation => mret tt
  | Rsv.unreadable_evse_id _ => cthrow json_exception
  | Rsv.readable (e, r) =>
      result ← rsv (Rsv.make_reservation now e r);
      match bool_decide (result = Rsv.Accepted), e with
      | true, Some e => rsv (cmodify (λ h, Rsv.set_restored_reservations
                               (<[e := Rsv.reservation_id r]> (Rsv.restored_reservations h)) h))
      | true, None => mret tt
      | false, _ =>
          s ← cget;
          if Rsv.reservation_cancelled_callback (reservation_handler s)
          then on_reservation_cancelled e (Rsv.reservation_id r) Rsv.Cancelled true
          else cthrow bad_function_call
      end
  end.

Definition load_reservations (now : Z) (loaded : option (list Rsv.loaded_entry)) : op () :=
  s ← cget;
  if negb (Rsv.store (reservation_handler s)) then mret tt
  else match loaded with
       | None => mret tt
       | Some entries => cfor entries (load_entry now)
       end.

Definition apply_restored_reservation (e id : Z) : thread () :=
  reserved ← sec (call_reserved id (Some e));
  _ ← pwait relock;
  if negb reserved then
    cancelled ← sec (handle_cancel_reservation id);
    _ ← pwait relock;
    if (cancelled.1 : bool) then sec (call_reservation_cancelled id Rsv.Cancelled (Some e) true) else mret tt
  else
    s ← sec cget;
    sec (cwhen (negb (Rsv.is_evse_reserved_with (reservation_handler s) e id))
           (invoke cb_reservation_cancelled (reservation_cancelled_callback (Some e) id Rsv.Cancelled false))).

(** The restored reservations of the EVSEs that reported to be enabled. *)
Fixpoint take_restored (es : list (Z * EVSEContext)) : op (list (Z * Z)) :=
  match es with
  | [] => mret []
  | (e, evse) :: es' =>
      if negb (reported_enabled evse) then take_restored es'
      else
        id ← rsv (Rsv.take_restored_reservation e);
        rest ← take_restored es';
        mret (match id with Some id => (e, id) :: rest | None => rest end)
  end.

Definition initialize (now : Z) (loaded : option (list Rsv.loaded_entry)) : thread () :=
  to_apply ← sec (load_reservations now loaded ;;
                  check_evse_reserved_and_send_updates ;;
                  s ← cget; take_restored (items (evses s)));
  _ ← pwait relock;
  pfor to_apply (λ p, apply_restored_reservation p.1 p.2).

End dates.

End Auth.
