(* ===== verification/AuthToken.v ===== *)
(** * Tokens, sessions and withdrawals of the auth handler

    The second half of the model of [src/modules/EVSE/Auth/lib/AuthHandler.cpp]: what
    happens to a token that is presented, the session events of the EVSEs, the timeouts
    and the withdrawal of authorizations. *)

From Stdlib Require Import String.
From S2P Require Import Prelude Resume EvseContext Reservation AuthHandler.

Import Evse Auth.

Module Token.

(** ** Questions about EVSEs *)
Definition get_referenced_evses (s : AuthHandler) (p : ProvidedIdToken) : list Z :=
  match p_connectors p with
  | Some connectors =>
      List.filter (λ e, match evses s !! e with
                        | Some evse => negb (evse_is_unavailable evse)
                        | None => false
                        end) connectors
  | None => (List.filter (λ q, negb (evse_is_unavailable q.2)) (items (evses s))).*1
  end.

(** The loops over a vector of EVSE ids that stop at the first match. *)
Fixpoint find_evse (s : AuthHandler) (test : EVSEContext → bool) (evse_ids : list Z) : outcome exn (option Z) :=
  match evse_ids with
  | [] => Ret None
  | e :: es =>
      evse ← evse_at s e;
      if test evse then Ret (Some e) else find_evse s test es
  end.

(** An identifier whose token or parent token is [token]. *)
Definition identifies (token : string) (i : Identifier) : bool :=
  Rsv.is_equal_case_insensitive (value (id_token i)) token ||
  match parent_id_token i with
  | Some parent => Rsv.is_equal_case_insensitive (value parent) token
  | None => false
  end.

Definition has_identifier (test : Identifier → bool) (evse : EVSEContext) : bool :=
  match identifier evse with Some i => test i | None => false end.

Definition used_for_transaction (s : AuthHandler) (evse_ids : list Z) (token : string) : outcome exn Z :=
  e ← find_evse s (has_identifier (identifies token)) evse_ids;
  Ret (default (-1) e).

Definition in_process (s : AuthHandler) (p : ProvidedIdToken) : bool :=
  existsb (λ q, bool_decide (value (p_id_token q) = value (p_id_token p))) (tokens_in_process s).

Definition is_token_already_in_process (s : AuthHandler) (p : ProvidedIdToken) (referenced_evses : list Z) :
    outcome exn bool :=
  if in_process s p then Ret true
  else
    e ← find_evse s (λ evse, has_identifier (λ i, equal_token (id_token i) (p_id_token p)) evse
                             && negb (transaction_active evse)) referenced_evses;
    Ret (bool_decide (is_Some e)).

Definition any_evse_available (s : AuthHandler) (evse_ids : list Z) : outcome exn bool :=
  e ← find_evse s evse_is_available evse_ids; Ret (bool_decide (is_Some e)).

Definition any_parent_id_present (s : AuthHandler) (evse_ids : list Z) : outcome exn bool :=
  e ← find_evse s (has_identifier (λ i, bool_decide (is_Some (parent_id_token i)))) evse_ids;
  Ret (bool_decide (is_Some e)).

Definition equals_master_pass_group_id (s : AuthHandler) (parent : option IdToken) : bool :=
  match master_pass_group_id s, parent with
  | Some group, Some parent => Rsv.is_equal_case_insensitive (value parent) group
  | _, _ => false
  end.

Definition get_oldest_plugin (s : AuthHandler) (evse_ids : list Z) : Z :=
  default (-1) (List.find (λ e, bool_decide (e ∈ evse_ids)) (plug_in_queue s)).

Definition get_last_plugin (s : AuthHandler) (evse_ids : list Z) : Z :=
  default (-1) (List.find (λ e, bool_decide (e ∈ evse_ids)) (rev (plug_in_queue s))).

Definition does_withdraw_request_match (request : WithdrawAuthorizationRequest) (selected_evses : list Z)
    (token : IdToken) : bool :=
  let has_evse_id := bool_decide (is_Some (w_evse_id request)) in
  let is_evse_in_selected := match w_evse_id request with
                             | Some e => bool_decide (e ∈ selected_evses)
                             | None => false
                             end in
  let id_token_matches := match w_id_token request with
                          | Some t => equal_token t token
                          | None => true
                          end in
  id_token_matches && (negb has_evse_id || is_evse_in_selected).

Definition is_authorization_withdrawn (s : AuthHandler) (selected_evses : list Z) (token : IdToken) : bool :=
  match withdraw_request s with
  | Some request => does_withdraw_request_match request selected_evses token
  | None => false
  end.

(** ** Selecting an EVSE *)
Inductive SelectEvseReturnStatus := EvseSelected | Interrupted | TimeOut.
Record SelectEvseResult := { selected : option Z; status : SelectEvseReturnStatus }.

Definition select_plugged_in_evse (s : AuthHandler) (selected_evses : list Z) : Z :=
  if bool_decide (selection_algorithm s = PlugEventsLIFO) then get_last_plugin s selected_evses
  else get_oldest_plugin s selected_evses.

(** The predicate of the wait for a plug in. *)
Definition plug_in_or_withdrawn (s : AuthHandler) (selected_evses : list Z) (token : IdToken) : bool :=
  negb (select_plugged_in_evse s selected_evses =? -1) || is_authorization_withdrawn s selected_evses token.

Definition wait_for_plug_in (selected_evses : list Z) (token : IdToken) : thread answer :=
  s ← sec cget;
  if plug_in_or_withdrawn s selected_evses token then mret notified
  else pwait (plug_in selected_evses token).

Definition choose_plugged_in (selected_evses : list Z) (token : IdToken) : op SelectEvseResult :=
  s ← cget;
  mret (if is_authorization_withdrawn s selected_evses token then {| selected := None; status := Interrupted |}
        else {| selected := Some (select_plugged_in_evse s selected_evses); status := EvseSelected |}).

Definition find_first (selected_evses : list Z) : op SelectEvseResult :=
  s ← cget;
  let e := get_oldest_plugin s selected_evses in
  busy ← (if e =? -1 then mret true else evse ← clift (evse_at s e); mret (transaction_active evse));
  if negb busy then mret {| selected := Some e; status := EvseSelected |}
  else
    first ← clift (find_evse s evse_is_available selected_evses);
    mret (match first with
          | Some e => {| selected := Some e; status := EvseSelected |}
          | None => {| selected := None; status := TimeOut |}
          end).

Definition select_evse (selected_evses : list Z) (token : IdToken) : thread SelectEvseResult :=
  match selected_evses with
  | [e] => mret {| selected := Some e; status := EvseSelected |}
  | _ =>
      s ← sec cget;
      match selection_algorithm s with
      | PlugEvents | PlugEventsLIFO =>
          if select_plugged_in_evse s selected_evses =? -1 then
            result ← wait_for_plug_in selected_evses token;
            match result with
            | timed_out => mret {| selected := None; status := TimeOut |}
            | _ => sec (choose_plugged_in selected_evses token)
            end
          else sec (choose_plugged_in selected_evses token)
      | FindFirst => sec (find_first selected_evses)
      | UserInput => sec (cthrow runtime_error)
      end
  end.

(** ** Notifying an EVSE *)
Definition remove_plug_in (e : Z) : op () :=
  cmodify (λ s, set_plug_in_queue (filter (λ x, x ≠ e) (plug_in_queue s)) s).

(** [cv.wait(lk, !timeout_in_progress)] of an EVSE. *)
Definition wait_no_timeout_task (e : Z) : thread () :=
  s ← sec cget;
  evse ← sec (clift (evse_at s e));
  if timeout_in_progress evse then _ ← pwait (no_timeout_task e); mret tt else mret tt.

Definition stop_timer (e : Z) : op () :=
  cmodify (λ s, set_timeout_timers (delete e (timeout_timers s)) s).
(** [timeout] replaces the lambda of an armed timer. *)
Definition arm_timer (task : timeout_task) : op () :=
  cmodify (λ s, set_timeout_timers (<[task_evse task := task]> (timeout_timers s)) s).

Definition identifier_of (p : ProvidedIdToken) (v : ValidationResult) : Identifier :=
  {| id_token := p_id_token p; identifier_type := p_authorization_type p;
     authorization_status := Some (v_authorization_status v); expiry_time := v_expiry_time v;
     parent_id_token := v_parent_id_token v |}.

Definition notify_evse (e : Z) (p : ProvidedIdToken) (v : ValidationResult) : thread () :=
  s ← sec cget;
  evse ← sec (clift (evse_at s e));
  let index := evse_index evse in
  _ ← (if bool_decide (v_authorization_status v = auth_Accepted) then
         _ ← sec (upd_evse e (set_identifier (Some (identifier_of p v))));
         _ ← wait_no_timeout_task e;
         _ ← sec (stop_timer e ;; arm_timer (authorization_timeout e index p));
         sec (remove_plug_in e)
       else mret tt);
  sec (invoke cb_notify_evse (notify_evse_callback index p v)).

(** The lambdas of the timers: the flag is set before the lock is taken. *)
Definition run_timeout_task (task : timeout_task) : thread () :=
  _ ← pwait (timer_thread (task_evse task));
  _ ← sec (upd_evse (task_evse task) (set_timeout_in_progress true));
  _ ← pwait relock;
  match task with
  | authorization_timeout e index p =>
      sec (upd_evse e (set_identifier None) ;;
           invoke cb_withdraw_authorization (withdraw_authorization_callback index) ;;
           publish_token_validation_status p TimedOut [] ;;
           upd_evse e (set_timeout_in_progress false))
  | plug_in_timeout_task e =>
      sec (s ← cget;
           evse ← clift (evse_at s e);
           invoke cb_withdraw_authorization (withdraw_authorization_callback (evse_index evse)) ;;
           remove_plug_in e ;;
           upd_evse e (set_plug_in_timeout true) ;;
           upd_evse e (set_timeout_in_progress false))
  end.

(** ** Presented tokens *)

(** RFID and bank card tokens stop (or reauthorize) the transaction they are used for;
    [None]: the token is not used at any of the EVSEs. *)
Definition stop_by_token (referenced : list Z) (p : ProvidedIdToken) :
    op (option (TokenHandlingResult * ProvidedIdToken)) :=
  if bool_decide (p_authorization_type p = RFID) || bool_decide (p_authorization_type p = BankCard) then
    s ← cget;
    e ← clift (used_for_transaction s referenced (value (p_id_token p)));
    if e =? -1 then mret None
    else
      evse ← clift (evse_at s e);
      i ← clift (match identifier evse with Some i => Ret i | None => Undef end);
      let p1 := match parent_id_token i with Some t => set_p_parent_id_token (Some t) p | None => p end in
      let p2 := set_p_connectors (Some [e]) p1 in
      if negb (stop_transaction_on_reswipe s) then mret (Some (USED_TO_REAUTHORIZE, p2))
      else
        invoke cb_stop_transaction
          (stop_transaction_callback (evse_index evse) {| reason := Local; id_tag := Some p |}) ;;
        mret (Some (USED_TO_STOP_TRANSACTION, p2))
  else mret None.

(** The loop that looks for an EVSE that is not reserved for somebody else. *)
Fixpoint all_reserved_for_others (s : AuthHandler) (p : ProvidedIdToken) (evse_ids : list Z) : outcome exn bool :=
  match evse_ids with
  | [] => Ret true
  | e :: es =>
      if e <? 0 then all_reserved_for_others s p es
      else
        let h := reservation_handler s in
        possible ← (if negb (Rsv.is_evse_reserved h e) then of_rsv_outcome (Rsv.is_charging_possible h e)
                    else Ret false);
        if (possible : bool) then Ret false
        else if bool_decide (is_Some (Rsv.matches_reserved_identifier h (value (p_id_token p)) (Some e) None))
        then Ret false
        else if Rsv.has_reservation_parent_id h (Some e) then Ret false
        else all_reserved_for_others s p es
  end.

(** Whether it is useless to ask the validators. *)
Definition no_evse_for_token (s : AuthHandler) (referenced : list Z) (p : ProvidedIdToken) : outcome exn bool :=
  available ← any_evse_available s referenced;
  parent_id ← any_parent_id_present s referenced;
  if negb available && negb parent_id && negb (bool_decide (is_Some (master_pass_group_id s))) then Ret true
  else all_reserved_for_others s p referenced.

Definition validate_token (p : ProvidedIdToken) : thread (list ValidationResult) :=
  if default false (p_prevalidated p) then mret [ValidationResult_of auth_Accepted (p_parent_id_token p)]
  else
    s ← sec cget;
    if negb (bool_decide (cb_validate_token ∈ registered s)) then sec (cthrow bad_function_call)
    else
      a ← pwait (validators p);
      mret (match a with validated results => results | _ => [] end).

(** A master pass stops the active transactions of the EVSEs; they are returned. *)
Fixpoint stop_all_active (p : ProvidedIdToken) (evse_ids : list Z) : op (list Z) :=
  match evse_ids with
  | [] => mret []
  | e :: es =>
      s ← cget;
      evse ← clift (evse_at s e);
      if transaction_active evse then
        invoke cb_stop_transaction
          (stop_transaction_callback (evse_index evse) {| reason := MasterPass; id_tag := Some p |}) ;;
        rest ← stop_all_active p es; mret (e :: rest)
      else stop_all_active p es
  end.

(** What a validation result with a parent token stops; [None]: go on. *)
Definition stop_by_parent_id (referenced : list Z) (p : ProvidedIdToken) (v : ValidationResult) :
    op (option (TokenHandlingResult * ProvidedIdToken)) :=
  match bool_decide (v_authorization_status v = auth_Accepted), v_parent_id_token v with
  | true, Some parent =>
      s ← cget;
      if equals_master_pass_group_id s (Some parent) then
        stopped ← stop_all_active p referenced;
        mret (Some (USED_TO_STOP_TRANSACTION, set_p_connectors (Some stopped) (set_p_parent_id_token (Some parent) p)))
      else
        e ← clift (used_for_transaction s referenced (value parent));
        if e =? -1 then mret None
        else
          let p1 := set_p_connectors (Some [e]) p in
          evse ← clift (evse_at s e);
          if negb (transaction_active evse) then mret (Some (ALREADY_IN_PROCESS, p1))
          else
            let p2 := set_p_parent_id_token (Some parent) p1 in
            if negb (stop_transaction_on_reswipe s) then mret (Some (USED_TO_REAUTHORIZE, p2))
            else
              invoke cb_stop_transaction
                (stop_transaction_callback (evse_index evse) {| reason := Local; id_tag := Some p1 |}) ;;
              mret (Some (USED_TO_STOP_TRANSACTION, p2))
  | _, _ => mret None
  end.

Fixpoint stop_by_parent_ids (referenced : list Z) (p : ProvidedIdToken) (results : list ValidationResult) :
    op (option (TokenHandlingResult * ProvidedIdToken)) :=
  match results with
  | [] => mret None
  | v :: vs =>
      stopped ← stop_by_parent_id referenced p v;
      match stopped with
      | Some r => mret (Some r)
      | None => stop_by_parent_ids referenced p vs
      end
  end.

(** The accepted result [v] is checked at the selected EVSE: whether it is authorized,
    the token and the validation result the EVSE is told. *)
Definition authorize_at (e : Z) (p : ProvidedIdToken) (v : ValidationResult) :
    op (bool * ProvidedIdToken * ValidationResult) :=
  s ← cget;
  let h := reservation_handler s in
  let reservation_id := Rsv.matches_reserved_identifier h (value (p_id_token p)) (Some e)
                          (value <$> v_parent_id_token v) in
  if match v_evse_ids v with Some ids => negb (bool_decide (e ∈ ids)) | None => false end
  then mret (false, p, set_v_authorization_status auth_NotAtThisLocation v)
  else
    possible ← (match reservation_id with
                | None => clift (of_rsv_outcome (Rsv.is_charging_possible h e))
                | Some _ => mret true
                end);
    if negb possible then mret (false, p, set_v_authorization_status auth_NotAtThisTime v)
    else if negb (Rsv.is_evse_reserved h e) && bool_decide (reservation_id = None)
    then mret (true, set_p_connectors (Some [e]) p, v)
    else
      match reservation_id with
      | Some id =>
          rsv (Rsv.on_reservation_used id) ;;
          mret (true, set_p_connectors (Some [e]) p, set_v_reservation_id (Some id) v)
      | None => mret (false, p, set_v_authorization_status auth_NotAtThisTime v)
      end.

(** How the loop over the validation results ends. *)
Inductive loop_end :=
| returned (result : TokenHandlingResult) (p : ProvidedIdToken)
| ended (authorized : bool) (p : ProvidedIdToken) (v : ValidationResult).

Fixpoint authorize (referenced : list Z) (results : list ValidationResult) (p : ProvidedIdToken)
    (last : ValidationResult) : thread loop_end :=
  match results with
  | [] => mret (ended false p last)
  | v :: vs =>
      if bool_decide (referenced = []) then mret (ended false p last)
      else if negb (bool_decide (v_authorization_status v = auth_Accepted)) then authorize referenced vs p v
      else
        s ← sec cget;
        if equals_master_pass_group_id s (v_parent_id_token v) then mret (returned REJECTED p)
        else
          let p1 := match v_parent_id_token v with Some t => set_p_parent_id_token (Some t) p | None => p end in
          _ ← sec (publish_token_validation_status p1 TokenAccepted (v_tariff_messages v));
          choice ← select_evse referenced (p_id_token p1);
          match selected choice, status choice with
          | None, TimeOut => mret (returned TIMEOUT p1)
          | None, Interrupted => mret (returned WITHDRAWN p1)
          | None, EvseSelected => sec (cthrow bad_optional_access)
          | Some e, _ =>
              checked ← sec (authorize_at e p1 v);
              let '(authorized, p2, v2) := checked in
              _ ← notify_evse e p2 v2;
              if (authorized : bool) then mret (ended true p2 v2) else authorize referenced vs p2 v2
          end
  end.

(** A token that could not be authorized: the EVSEs it names are told the result. *)
Definition notify_rejected (p : ProvidedIdToken) (v : ValidationResult) : thread () :=
  match p_connectors p with
  | Some connectors => pfor connectors (λ e,
      s ← sec cget;
      if bool_decide (is_Some (evses s !! e)) then notify_evse e p v else mret tt)
  | None => mret tt
  end.

(** [remove_if]: the EVSEs that have no identifier yet. *)
Fixpoint without_identifier (s : AuthHandler) (evse_ids : list Z) : outcome exn (list Z) :=
  match evse_ids with
  | [] => Ret []
  | e :: es =>
      evse ← evse_at s e;
      rest ← without_identifier s es;
      Ret (if bool_decide (is_Some (identifier evse)) then rest else e :: rest)
  end.

(** [handle_token], with the token it leaves in its reference argument. *)
Definition handle_token (p : ProvidedIdToken) : thread (TokenHandlingResult * ProvidedIdToken) :=
  s ← sec cget;
  let referenced := get_referenced_evses s p in
  stopped ← sec (stop_by_token referenced p);
  match stopped with
  | Some r => mret r
  | None =>
      useless ← sec (clift (no_evse_for_token s referenced p));
      if (useless : bool) then mret (NO_CONNECTOR_AVAILABLE, p)
      else
        results ← validate_token p;
        s ← sec cget;
        available ← sec (clift (any_evse_available s referenced));
        stopped ← sec (if prioritize_authorization_over_stopping_transaction s && available then mret None
                       else stop_by_parent_ids referenced p results);
        match stopped with
        | Some r => mret r
        | None =>
            if negb available then mret (NO_CONNECTOR_AVAILABLE, p)
            else
              free ← sec (clift (without_identifier s referenced));
              match results with
              | [] => mret (REJECTED, p)
              | _ =>
                  result ← authorize free results p (ValidationResult_of auth_Unknown None);
                  match result with
                  | returned r p' => mret (r, p')
                  | ended true p' _ => mret (USED_TO_START_TRANSACTION, p')
                  | ended false p' v => _ ← notify_rejected p' v; mret (REJECTED, p')
                  end
              end
        end
  end.

Definition publish_result (result : TokenHandlingResult) (p : ProvidedIdToken) : op () :=
  match result with
  | ALREADY_IN_PROCESS => mret tt
  | TIMEOUT => publish_token_validation_status p TimedOut []
  | NO_CONNECTOR_AVAILABLE | REJECTED => publish_token_validation_status p TokenRejected []
  | USED_TO_START_TRANSACTION => publish_token_validation_status p UsedToStart []
  | USED_TO_STOP_TRANSACTION => publish_token_validation_status p UsedToStop []
  | WITHDRAWN => publish_token_validation_status p TokenWithdrawn []
  | USED_TO_REAUTHORIZE => publish_token_validation_status p UsedToReauthorize []
  end.

(** [tokens_in_process.insert] and [erase]; the set compares the values. *)
Definition insert_token (p : ProvidedIdToken) : op () :=
  cmodify (λ s, if in_process s p then s else set_tokens_in_process (p :: tokens_in_process s) s).
Definition erase_token (p : ProvidedIdToken) : op () :=
  cmodify (λ s, set_tokens_in_process
    (filter (λ q, value (p_id_token q) ≠ value (p_id_token p)) (tokens_in_process s)) s).

Definition on_token (p : ProvidedIdToken) : thread TokenHandlingResult :=
  s ← sec cget;
  if negb (bool_decide (cb_publish_token_validation_status ∈ registered s)) then mret REJECTED
  else
    already_in_process ← sec (clift (is_token_already_in_process s p (get_referenced_evses s p)));
    if negb already_in_process then
      _ ← sec (insert_token p ;; publish_token_validation_status p Processing []);
      handled ← handle_token p;
      _ ← sec (publish_result handled.1 handled.2 ;; erase_token p);
      mret handled.1
    else
      _ ← sec (publish_result ALREADY_IN_PROCESS p);
      mret ALREADY_IN_PROCESS.

Definition handle_token_validation_result_update (u : ValidationResultUpdate) : op () :=
  let e := u_connector_id u in
  let v := u_validation_result u in
  s ← cget;
  match evses s !! e ≫= identifier with
  | Some i =>
      upd_evse e (set_identifier (Some
        {| id_token := id_token i; identifier_type := identifier_type i;
           authorization_status := Some (v_authorization_status v); expiry_time := expiry_time i;
           parent_id_token := v_parent_id_token v |})) ;;
      publish_token_validation_status
        {| p_request_id := None; p_id_token := id_token i; p_parent_id_token := v_parent_id_token v;
           p_authorization_type := identifier_type i; p_connectors := Some [e]; p_prevalidated := None;
           p_certificate := None |}
        TokenAccepted (v_tariff_messages v)
  | None => mret tt
  end.

(** ** Session events *)
Definition session_started_at (e : Z) (ev : SessionEvent) : op () :=
  match session_started ev with
  | None => cthrow bad_optional_access
  | Some Authorized_reason => mret tt
  | Some EVConnected =>
      cmodify (λ s, set_plug_in_queue (plug_in_queue s ++ [e]) s) ;;
      upd_evse e (set_plugged_in true) ;;
      s ← cget;
      if bool_decide (size (evses s) = 1%nat) || negb (plug_in_timeout_enabled s) then mret tt
      else arm_timer (plug_in_timeout_task e)
  end.

(** The [switch] over the event; whether the reservations are to be checked. *)
Definition session_event (e connector_id : Z) (ev : SessionEvent) : thread bool :=
  match event ev with
  | SessionStarted => _ ← sec (session_started_at e ev); mret false
  | TransactionStarted =>
      _ ← sec (upd_evse e (set_plugged_in true) ;; upd_evse e (set_transaction_active true) ;;
               submit_event_for_connector e connector_id TRANSACTION_STARTED);
      _ ← wait_no_timeout_task e;
      _ ← sec (stop_timer e);
      mret true
  | TransactionFinished =>
      _ ← sec (upd_evse e (set_transaction_active false) ;; upd_evse e (set_identifier None)); mret false
  | SessionFinished =>
      _ ← sec (upd_evse e (set_plugged_in false) ;; upd_evse e (set_plug_in_timeout false) ;;
               upd_evse e (set_identifier None) ;;
               submit_event_for_connector e connector_id SESSION_FINISHED);
      _ ← wait_no_timeout_task e;
      _ ← sec (stop_timer e ;; remove_plug_in e);
      mret true
  | Disabled =>
      _ ← sec (submit_event_for_connector e connector_id DISABLE ;; upd_evse e (set_reported_enabled false));
      mret true
  | Enabled =>
      _ ← sec (submit_event_for_connector e connector_id ENABLE ;; upd_evse e (set_reported_enabled true));
      mret true
  | Deauthorized =>
      _ ← sec (upd_evse e (set_identifier None));
      _ ← wait_no_timeout_task e;
      _ ← sec (stop_timer e);
      mret false
  | ReservationEnd =>
      _ ← sec (s ← cget;
               cwhen (Rsv.is_evse_reserved (reservation_handler s) e) (cancel_evse_and_notify e ;; mret tt));
      mret false
  | _ => mret false
  end.

Definition handle_session_event (e : Z) (ev : SessionEvent) : thread () :=
  s ← sec cget;
  let connector_id := default 1 (ev_connector_id ev) in
  if (e <=? 0) || (connector_id <=? 0) || bool_decide (evses s !! e = None) then mret tt
  else
    check_reservations ← session_event e connector_id ev;
    _ ← sec (cwhen check_reservations check_evse_reserved_and_send_updates);
    if negb (bool_decide (event ev = Enabled)) then mret tt
    else
      restored ← sec (rsv (Rsv.take_restored_reservation e));
      _ ← pwait relock;
      match restored with
      | Some id => apply_restored_reservation e id
      | None => mret tt
      end.

(** ** Withdrawing authorizations *)
Definition targets_token_in_process (s : AuthHandler) (request : WithdrawAuthorizationRequest) : bool :=
  existsb (λ q, does_withdraw_request_match request (get_referenced_evses s q) (p_id_token q)) (tokens_in_process s).

Definition withdraw_authorization_or_stop_transaction (evse : EVSEContext) : op () :=
  if transaction_active evse then
    invoke cb_stop_transaction
      (stop_transaction_callback (evse_index evse) {| reason := DeAuthorized; id_tag := None |})
  else
    invoke cb_withdraw_authorization (withdraw_authorization_callback (evse_index evse)) ;;
    match identifier evse with
    | Some i =>
        publish_token_validation_status
          {| p_request_id := None; p_id_token := id_token i; p_parent_id_token := parent_id_token i;
             p_authorization_type := identifier_type i; p_connectors := Some [evse_id evse];
             p_prevalidated := None; p_certificate := None |}
          TokenWithdrawn []
    | None => mret tt
    end.

(** The granted authorizations the request is about. *)
Definition withdraws (request : WithdrawAuthorizationRequest) (evse : EVSEContext) : bool :=
  match identifier evse, w_id_token request with
  | Some i, Some t => equal_token t (id_token i)
  | Some _, None => true
  | None, _ => false
  end.

Definition withdraw_granted (request : WithdrawAuthorizationRequest) (result : WithdrawAuthorizationResult) :
    op WithdrawAuthorizationResult :=
  s ← cget;
  targets ← (match w_evse_id request with
             | Some e => evse ← clift (evse_at s e); mret [evse]
             | None => mret (items (evses s)).*2
             end);
  let granted := List.filter (withdraws request) targets in
  cfor granted withdraw_authorization_or_stop_transaction ;;
  mret (match granted with [] => result | _ => WithdrawAccepted end).

Definition handle_withdraw_authorization (request : WithdrawAuthorizationRequest) :
    thread WithdrawAuthorizationResult :=
  _ ← pwait withdraw_lock;
  _ ← sec (cmodify (set_withdraw_mutex true));
  s ← sec cget;
  if match w_evse_id request with Some e => bool_decide (evses s !! e = None) | None => false end
  then _ ← sec (cmodify (set_withdraw_mutex false)); mret EvseNotFound
  else
    _ ← pwait relock;
    _ ← sec (cmodify (set_withdraw_request (Some request)));
    s ← sec cget;
    result ← (if targets_token_in_process s request
              then _ ← pwait (processed request); mret WithdrawAccepted
              else mret AuthorizationNotFound);
    _ ← sec (cmodify (set_withdraw_request None));
    result ← sec (withdraw_granted request result);
    _ ← sec (cmodify (set_withdraw_mutex false));
    mret result.

(** ** Waiting threads

    When a thread that waits may go on, and with which answer. *)
Definition may_resume (w : wait) (a : answer) (s : AuthHandler) : bool :=
  match w, a with
  | validators _, validated _ => true
  | plug_in es t, notified => plug_in_or_withdrawn s es t
  | plug_in es t, timed_out => negb (plug_in_or_withdrawn s es t)
  | no_timeout_task e, notified | timer_thread e, notified =>
      match evses s !! e with Some evse => negb (timeout_in_progress evse) | None => false end
  | processed request, notified => negb (targets_token_in_process s request)
  | withdraw_lock, notified => negb (withdraw_mutex s)
  | relock, notified => true
  | _, _ => false
  end.

End Token.
