(* ===== verification/AuthFacts.v ===== *)
(** * The auth handler never throws, and what its threads do to the shared state

    A handler whose callbacks are registered and whose tables are consistent stays so
    under every command; the view of a thread collects the validation results it was
    given, the authorizations it granted and the statuses it published. *)

From Stdlib Require Import String.
From S2P Require Import Prelude Resume EvseContext Reservation ReservationFacts ReservationInv AuthHandler AuthToken.

Import Evse Auth Token.

Module AuthFacts.

(** ** What threads share

    The tokens in process, the EVSEs whose timeout task is running, and whether
    [withdraw_mutex] is locked. *)
Record shared := { sh_tokens : list ProvidedIdToken; sh_tasks : gset Z; sh_mutex : bool }.

Definition tasks (es : gmap Z EVSEContext) : gset Z :=
  dom (filter (λ q : Z * EVSEContext, timeout_in_progress q.2 = true) es).

Definition shared_of (s : AuthHandler) : shared :=
  {| sh_tokens := tokens_in_process s; sh_tasks := tasks (evses s); sh_mutex := withdraw_mutex s |}.

Lemma elem_of_tasks es e : e ∈ tasks es ↔ ∃ evse, es !! e = Some evse ∧ timeout_in_progress evse = true.
Proof. unfold tasks. rewrite elem_of_dom. unfold is_Some. by setoid_rewrite map_lookup_filter_Some. Qed.

Lemma tasks_insert es e evse evse' :
  es !! e = Some evse → timeout_in_progress evse' = timeout_in_progress evse → tasks (<[e := evse']> es) = tasks es.
Proof.
  intros He Ht. apply set_eq. intros x. rewrite !elem_of_tasks. setoid_rewrite lookup_insert_Some. split.
  - intros (y & [[<- <-]|[_ Hy]] & Hp); [exists evse; by rewrite <- Ht|eauto].
  - intros (y & Hy & Hp). destruct (decide (e = x)) as [<-|]; [|eauto].
    exists evse'. split; [by left|]. by simplify_eq; rewrite Ht.
Qed.

(** ** What is seen of a thread *)
Record view := {
  results_seen : list ValidationResult;                              (* answers of the validators *)
  grants : list (Z * ProvidedIdToken * ValidationResult);            (* EVSEs told that a token is accepted *)
  statuses : list (ProvidedIdToken * TokenValidationStatus);         (* published *)
  before : shared;                                                   (* when the section began *)
  resumed : bool;                                                    (* not in its first section *)
}.

Definition fresh (s : AuthHandler) : view :=
  {| results_seen := []; grants := []; statuses := []; before := shared_of s; resumed := false |}.

Definition see (v : view) (c : call) : view :=
  match c with
  | notify_evse_callback index p r =>
      {| results_seen := results_seen v;
         grants := grants v ++ (if bool_decide (v_authorization_status r = auth_Accepted) then [(index, p, r)] else []);
         statuses := statuses v; before := before v; resumed := resumed v |}
  | publish_token_validation_status_callback p st _ =>
      {| results_seen := results_seen v; grants := grants v; statuses := statuses v ++ [(p, st)];
         before := before v; resumed := resumed v |}
  | _ => v
  end.

Definition hear (v : view) (w : wait) (a : answer) (s : AuthHandler) : view :=
  {| results_seen := results_seen v ++ (match a with validated l => l | _ => [] end);
     grants := grants v; statuses := statuses v; before := shared_of s; resumed := true |}.

(** ** Handlers ready for work *)
(** [D]: the EVSEs and their indices in the configuration. *)
Record ready (D : gmap Z Z) (s : AuthHandler) : Prop := {
  rd_callbacks c : c ∈ registered s;
  rd_lambda : Rsv.reservation_cancelled_callback (reservation_handler s) = true;
  rd_algorithm : selection_algorithm s ≠ UserInput;
  rd_evses : evse_index <$> evses s = D;
  rd_wf : wf (reservation_handler s);
  rd_timers e task : timeout_timers s !! e = Some task → task_evse task = e ∧ is_Some (D !! e);
}.

Definition known (D : gmap Z Z) (e : Z) : Prop := is_Some (D !! e).

Lemma ready_index D s e evse : ready D s → evses s !! e = Some evse → D !! e = Some (evse_index evse).
Proof. intros H E. rewrite <- (rd_evses D s H), lookup_fmap, E. done. Qed.

Lemma ready_lookup D s e : ready D s → known D e ↔ ∃ evse, evses s !! e = Some evse.
Proof. intros H. unfold known. rewrite <- (rd_evses D s H), lookup_fmap. by rewrite fmap_is_Some. Qed.

Lemma evse_at_ready D s e : ready D s → known D e → ∃ evse, evse_at s e = Ret evse ∧ evses s !! e = Some evse.
Proof. intros H He. apply (ready_lookup D s e H) in He as [evse E]. exists evse. unfold evse_at. by rewrite E. Qed.

(** Everything but the EVSEs and the reservations. *)
Definition Base (D : gmap Z Z) (T : shared) (v0 : view) (s : AuthHandler) (v : view) : Prop :=
  ready D s ∧ shared_of s = T ∧ v = v0.

Section base.
Context (D : gmap Z Z) (T : shared).

Lemma base_modify v0 (g : AuthHandler → AuthHandler) :
  (∀ s, registered (g s) = registered s) → (∀ s, selection_algorithm (g s) = selection_algorithm s) →
  (∀ s, reservation_handler (g s) = reservation_handler s) →
  (∀ s, tokens_in_process (g s) = tokens_in_process s) → (∀ s, timeout_timers (g s) = timeout_timers s) →
  (∀ s, withdraw_mutex (g s) = withdraw_mutex s) → Tracks see (Base D T v0) (cmodify g : op ()).
Proof.
  intros H1 H2 H3 H4 H5 H6. apply tracks_modify. intros s v (Hr & Ht & ->). split_and!; [| |done].
  2: { rewrite <- Ht. unfold shared_of, evses. by rewrite H3, H4, H6. }
  split; rewrite ?H1, ?H2, ?H3, ?H5; unfold evses; rewrite ?H3; apply Hr.
Qed.

Lemma base_invoke v0 c o : leads see (Base D T v0) (invoke c o) (λ _, Base D T (see v0 o)).
Proof.
  intros s v (Hr & Ht & ->). exists tt, s, [o]. unfold invoke. crun.
  rewrite bool_decide_eq_true_2 by apply (rd_callbacks D s Hr). by cbn.
Qed.

(** Calls that are not part of the view. *)
Definition quiet (o : call) : Prop := ∀ v, see v o = v.

Lemma base_quiet v0 c o : quiet o → Tracks see (Base D T v0) (invoke c o).
Proof. intros Hq. pose proof (base_invoke v0 c o) as H. by rewrite (Hq v0) in H. Qed.

#[global] Instance base_ask v0 e id r : Tracks see (Base D T v0) (ask_reserved e id r).
Proof.
  unfold ask_reserved. apply tracks_bind; [by apply base_quiet|]. intros [].
  apply tracks_bind; [apply _|]. intros s. apply tracks_bind; [by apply base_modify|]. intros []. apply _.
Qed.

(** ** Operations of the reservation handler *)
Class RsvOk {A} (m : Rsv.op A) : Prop :=
  rsv_ok : ∀ h, wf h → Rsv.reservation_cancelled_callback h = true →
    ∃ a h' o, m h = (Ret a, h', o) ∧ wf h' ∧ Rsv.evses h' = Rsv.evses h ∧
              Rsv.reservation_cancelled_callback h' = true.

Lemma see_rsv v (o : list Rsv.output) : foldl see v (of_rsv_output <$> o) = v.
Proof. revert v. induction o as [|[]]; intros v; [done|..]; apply IHo. Qed.

Lemma base_rsv {A} v0 (m : Rsv.op A) : RsvOk m → Tracks see (Base D T v0) (rsv m).
Proof.
  intros Hm s v (Hr & Ht & ->).
  destruct (Hm _ (rd_wf D s Hr) (rd_lambda D s Hr)) as (a & h' & o & E & Hwf & He & Hcb).
  exists a, (set_reservation_handler h' s), (of_rsv_output <$> o). unfold rsv. rewrite E. split; [done|].
  rewrite see_rsv. split_and!; [|rewrite <- Ht; unfold shared_of, evses; cbn; by rewrite He|done].
  split; try apply Hr; [done| |done].
  unfold evses. cbn. rewrite He. apply Hr.
Qed.

Lemma update_ok (g : Rsv.ReservationHandler → Rsv.ReservationHandler) :
  (∀ h, Rsv.evses (g h) = Rsv.evses h) → (∀ h, Rsv.evse_reservations (g h) = Rsv.evse_reservations h) →
  (∀ h, Rsv.global_reservations (g h) = Rsv.global_reservations h) → (∀ h, Rsv.timers (g h) = Rsv.timers h) →
  (∀ h, Rsv.reservation_cancelled_callback h = true → Rsv.reservation_cancelled_callback (g h) = true) →
  RsvOk (cmodify g).
Proof.
  intros H1 H2 H3 H4 H5 h Hwf Hcb. exists tt, (g h), []. split_and!; [done| |done|auto].
  split; unfold holds; rewrite ?H1, ?H2, ?H3, ?H4; apply Hwf.
Qed.

#[global] Instance bind_ok {A B} (m : Rsv.op A) (k : A → Rsv.op B) :
  RsvOk m → (∀ a, RsvOk (k a)) → RsvOk (m ≫= k).
Proof.
  intros Hm Hk h Hwf Hcb. destruct (Hm h Hwf Hcb) as (a & h1 & o1 & E1 & Hwf1 & He1 & Hcb1).
  destruct (Hk a h1 Hwf1 Hcb1) as (b & h2 & o2 & E2 & Hwf2 & He2 & Hcb2).
  exists b, h2, (o1 ++ o2). split_and!; [by eapply bind_eq|done|congruence|done].
Qed.

#[global] Instance ret_ok {A} (a : A) : RsvOk (mret a).
Proof. intros h Hwf Hcb. by exists a, h, []. Qed.

#[global] Instance get_ok : RsvOk cget.
Proof. intros h Hwf Hcb. by exists h, h, []. Qed.

#[global] Instance cancel_ok id cb why : RsvOk (Rsv.cancel_reservation id cb why).
Proof.
  intros h Hwf Hcb. destruct (cancel_eq id cb why h Hwf) as (r & E & _).
  exists r, (without [id] h), (cancel_out id cb why h). split_and!; [done|by apply wf_without|done|done].
Qed.

#[global] Instance used_ok id : RsvOk (Rsv.on_reservation_used id).
Proof. unfold Rsv.on_reservation_used. apply _. Qed.

#[global] Instance make_ok `{!Rsv.DateParser} now e r : RsvOk (Rsv.make_reservation now e r).
Proof.
  intros h Hwf Hcb. destruct (make_returns now e r h Hwf) as (a & h' & o & E & Hwf' & He & _ & Hcb').
  exists a, h', o. split_and!; [done..|congruence].
Qed.

#[global] Instance take_ok e : RsvOk (Rsv.take_restored_reservation e).
Proof.
  unfold Rsv.take_restored_reservation. apply bind_ok; [apply _|]. intros h.
  destruct (Rsv.restored_reservations h !! e); [|apply _]. apply bind_ok; [by apply update_ok|]. intros []. apply _.
Qed.

#[global] Instance check_number_ok : RsvOk Rsv.check_number_global_reservations_match_number_available_evses.
Proof.
  assert (∀ a b, RsvOk (Rsv.get_evse_global_reserved_status_and_set_new_status a b)) as Hset.
  { intros a b. unfold Rsv.get_evse_global_reserved_status_and_set_new_status.
    apply bind_ok; [apply _|]. intros h. apply bind_ok; [by apply update_ok|]. intros []. apply _. }
  unfold Rsv.check_number_global_reservations_match_number_available_evses. intros h. rewrite bind_get. cbv zeta.
  case_decide; [apply Hset|].
  destruct (reserved_by_type_returns h (Rsv.available_evses h) (Rsv.global_reservations h)) as [l ->].
  erewrite bind_pure by reflexivity. apply Hset.
Qed.

#[global] Instance base_rsv_inst {A} v0 (m : Rsv.op A) : RsvOk m → Tracks see (Base D T v0) (rsv m) := base_rsv v0 m.

(** ** Commands of the auth handler *)
#[global] Instance base_check_updates v0 : Tracks see (Base D T v0) check_evse_reserved_and_send_updates.
Proof.
  unfold check_evse_reserved_and_send_updates. apply tracks_bind; [apply _|]. intros st.
  apply tracks_bind; [apply tracks_for; intros e; by apply base_quiet|]. intros [].
  apply tracks_for. intros e. apply tracks_bind; [apply _|]. intros s. apply tracks_when.
  apply tracks_bind; apply _.
Qed.

#[global] Instance base_cancelled v0 id why e upd : Tracks see (Base D T v0) (call_reservation_cancelled id why e upd).
Proof. unfold call_reservation_cancelled. apply tracks_bind; [by apply base_quiet|]. intros []. apply _. Qed.

#[global] Instance base_lambda v0 e id why upd : Tracks see (Base D T v0) (on_reservation_cancelled e id why upd).
Proof. unfold on_reservation_cancelled. destruct (match e with Some e => e <? 0 | None => false end); apply _. Qed.

#[global] Instance base_cancel v0 id why : Tracks see (Base D T v0) (cancel_and_notify id why).
Proof.
  unfold cancel_and_notify. apply tracks_bind; [apply _|]. intros r. apply tracks_bind; [apply _|]. intros s.
  apply tracks_bind; [apply _|]. intros []. apply _.
Qed.

#[global] Instance base_cancel_evse v0 e : Tracks see (Base D T v0) (cancel_evse_and_notify e).
Proof.
  unfold cancel_evse_and_notify. apply tracks_bind; [apply _|]. intros s.
  destruct (_ !! e); [|apply _]. apply tracks_bind; apply _.
Qed.

#[global] Instance base_expired v0 id : Tracks see (Base D T v0) (on_reservation_expired id).
Proof. unfold on_reservation_expired. apply tracks_bind; apply _. Qed.

Lemma base_evse_at {B} v0 e (s : AuthHandler) (k : EVSEContext → op B) Q :
  known D e → (∀ evse, evses s !! e = Some evse → leads see (λ s1 v, s1 = s ∧ Base D T v0 s v) (k evse) Q) →
  leads see (λ s1 v, s1 = s ∧ Base D T v0 s v) (clift (evse_at s e) ≫= k) Q.
Proof.
  intros He Hk s1 v [-> HB]. destruct (evse_at_ready D s e (proj1 HB) He) as (evse & E & Hl).
  rewrite E. erewrite bind_pure by reflexivity. by apply (Hk evse Hl).
Qed.

Lemma base_read {B} v0 s (m : op B) Q :
  leads see (Base D T v0) m Q → leads see (λ s1 v, s1 = s ∧ Base D T v0 s v) m Q.
Proof. intros Hm s1 v [-> H]. by apply Hm. Qed.

Lemma base_set_evse v0 e (s : AuthHandler) evse evse' :
  evses s !! e = Some evse → evse_index evse' = evse_index evse →
  timeout_in_progress evse' = timeout_in_progress evse →
  leads see (λ s1 v, s1 = s ∧ Base D T v0 s v) (cmodify (set_evses (<[e := evse']> (evses s))) : op ())
    (λ _, Base D T v0).
Proof.
  intros He Hi Hp. apply leads_modify. intros s1 v [-> (Hr & Ht & ->)]. split_and!; [| |done].
  2: { rewrite <- Ht. unfold shared_of, set_evses, evses in *. cbn. by rewrite (tasks_insert _ _ evse). }
  split; try apply Hr.
  - unfold set_evses, evses. cbn. rewrite fmap_insert, Hi. pose proof (rd_evses D s Hr) as Hd.
    unfold evses in *. rewrite Hd, insert_id; [done|]. by apply (ready_index D s).
  - unfold evses. cbn. apply wf_replace_evse, Hr.
Qed.

(** Assignments to a member of an EVSE other than its index and the flag. *)
Lemma base_upd v0 e g :
  known D e → (∀ evse, evse_index (g evse) = evse_index evse) →
  (∀ evse, timeout_in_progress (g evse) = timeout_in_progress evse) → Tracks see (Base D T v0) (upd_evse e g).
Proof.
  intros He Hg Hp. apply leads_get. intros s.
  eapply leads_conseq; [apply (base_evse_at v0 e s _ (λ _, Base D T v0) He)| |done].
  - intros evse Hl. by eapply base_set_evse.
  - intros s1 v [-> HB]. by split.
Qed.

(** The flag of a running timeout task. *)
Definition with_task (e : Z) (b : bool) (x : shared) : shared :=
  {| sh_tokens := sh_tokens x; sh_tasks := if b then {[e]} ∪ sh_tasks x else sh_tasks x ∖ {[e]}; sh_mutex := sh_mutex x |}.

Definition with_mutex (b : bool) (x : shared) : shared :=
  {| sh_tokens := sh_tokens x; sh_tasks := sh_tasks x; sh_mutex := b |}.

Lemma tasks_flag es e evse b :
  es !! e = Some evse →
  tasks (<[e := set_timeout_in_progress b evse]> es) = if b then {[e]} ∪ tasks es else tasks es ∖ {[e]}.
Proof.
  intros He. apply set_eq. intros x. rewrite elem_of_tasks. setoid_rewrite lookup_insert_Some.
  destruct (decide (e = x)) as [<-|Hne].
  - destruct b; [|set_solver]. split; [set_solver|]. intros _. exists (set_timeout_in_progress true evse). eauto.
  - transitivity (x ∈ tasks es); [|destruct b; set_solver]. rewrite elem_of_tasks. naive_solver.
Qed.

Lemma base_flag v0 e b :
  known D e → leads see (Base D T v0) (upd_evse e (set_timeout_in_progress b)) (λ _, Base D (with_task e b T) v0).
Proof.
  intros He s v (Hr & Ht & ->). destruct (evse_at_ready D s e Hr He) as (evse & E & Hl).
  eexists tt, (set_evses (<[e := set_timeout_in_progress b evse]> (evses s)) s), []. split.
  { unfold upd_evse. crun. by rewrite E. }
  split_and!; [split; try apply Hr| |done].
  - unfold set_evses, evses. cbn. rewrite fmap_insert. cbn. pose proof (rd_evses D s Hr) as Hd.
    unfold evses in *. rewrite Hd, insert_id; [done|]. by apply (ready_index D s).
  - unfold evses. cbn. apply wf_replace_evse, Hr.
  - rewrite <- Ht. unfold shared_of, with_task, set_evses. cbn. unfold evses at 1. cbn. by rewrite tasks_flag.
Qed.

Lemma base_mutex v0 b :
  leads see (Base D T v0) (cmodify (set_withdraw_mutex b) : op ()) (λ _, Base D (with_mutex b T) v0).
Proof.
  apply leads_modify. intros s v (Hr & Ht & ->). split_and!; [split; apply Hr| |done]. by rewrite <- Ht.
Qed.

#[global] Instance base_stop v0 e : Tracks see (Base D T v0) (stop_timer e).
Proof.
  apply tracks_modify. intros s v (Hr & Ht & ->). split_and!; [|done|done]. split; try apply Hr.
  intros x task. cbn. rewrite lookup_delete_Some. intros [_ H]. by apply (rd_timers D s Hr).
Qed.

Lemma base_arm v0 task : known D (task_evse task) → Tracks see (Base D T v0) (arm_timer task).
Proof.
  intros He. apply tracks_modify. intros s v (Hr & Ht & ->). split_and!; [|done|done]. split; try apply Hr.
  intros x t. cbn. rewrite lookup_insert_Some. intros [[<- <-]|[_ H]]; [done|]. by apply (rd_timers D s Hr).
Qed.

#[global] Instance base_remove v0 e : Tracks see (Base D T v0) (remove_plug_in e).
Proof. by apply base_modify. Qed.

Lemma base_lift {A} v0 (r : outcome exn A) : (∃ a, r = Ret a) → Tracks see (Base D T v0) (clift r : op A).
Proof. intros [a ->] s v H. by exists a, s, []. Qed.

Lemma possible_returns h t gs res : ∃ b, Rsv.is_reservation_possible h t gs res = Ret b.
Proof. destruct (is_possible_eq h t gs res) as (b & -> & _). eauto. Qed.

Lemma check_evse_returns h l res : ∃ r, Rsv.check_evse_reservations h l res = Ret r.
Proof.
  revert res. induction l as [|[e r] l IH]; intros res; cbn; [eauto|].
  destruct (possible_returns h None [] (<[e:=r]> res)) as [b ->]. cbn. destruct b; [apply IH|].
  destruct (IH (delete e (<[e:=r]> res))) as [x ->]. cbn. eauto.
Qed.

Lemma check_global_returns h l res gs : ∃ r, Rsv.check_global_reservations h l res gs = Ret r.
Proof.
  revert gs. induction l as [|r l IH]; intros gs; cbn; [eauto|].
  destruct (possible_returns h (Rsv.r_connector_type r) gs res) as [b ->]. cbn. destruct b; [apply IH|].
  destruct (IH gs) as [x ->]. cbn. eauto.
Qed.

#[global] Instance base_check v0 : Tracks see (Base D T v0) check_reservations_and_cancel_if_not_possible.
Proof.
  unfold check_reservations_and_cancel_if_not_possible. apply tracks_bind; [apply _|]. intros s. cbv zeta.
  apply tracks_bind.
  { apply base_lift. destruct (check_evse_returns (reservation_handler s)
      (items (Rsv.evse_reservations (reservation_handler s))) ∅) as [x ->]. eauto. }
  intros first. apply tracks_bind.
  { apply base_lift. destruct (check_global_returns (reservation_handler s)
      (Rsv.global_reservations (reservation_handler s)) first.2 []) as [x ->]. eauto. }
  intros second. apply tracks_for. intros id. apply tracks_bind; apply _.
Qed.

#[global] Instance base_connector_changed v0 st e c : Tracks see (Base D T v0) (on_connector_state_changed st e c).
Proof.
  unfold on_connector_state_changed. case_bool_decide; [apply _|]. apply tracks_bind; [apply _|]. intros s.
  destruct (evses s !! e) as [evse|]; [|apply _]. destruct (Rsv.find_connector evse c) as [cn|]; [|apply _].
  destruct (_ !! e) as [r|]; [|apply _]. destruct (Rsv.bound_to r cn); [|apply _]. apply tracks_bind; apply _.
Qed.

Lemma base_submit v0 e c ev : known D e → Tracks see (Base D T v0) (submit_event_for_connector e c ev).
Proof.
  intros He. apply leads_get. intros s.
  eapply leads_conseq; [apply (base_evse_at v0 e s _ (λ _, Base D T v0) He)| |done].
  - intros evse Hl. destruct (Rsv.submit_to_connector c ev (connectors evse)) as [cs st].
    eapply leads_bind; [by eapply base_set_evse|]. intros []. destruct st; apply tracks; apply _.
  - intros s1 v [-> HB]. by split.
Qed.

#[global] Instance base_call_reserved v0 id e : Tracks see (Base D T v0) (call_reserved id e).
Proof.
  unfold call_reserved. apply tracks_bind; [apply _|]. intros s. cbv zeta. apply tracks_bind; [apply _|]. intros b.
  apply tracks_bind; [apply _|]. intros []. apply _.
Qed.

#[global] Instance base_handle_cancel v0 id : Tracks see (Base D T v0) (handle_cancel_reservation id).
Proof. unfold handle_cancel_reservation. apply tracks_bind; apply _. Qed.

#[global] Instance base_replaced v0 id e : Tracks see (Base D T v0) (cancel_replaced_if_dropped id e).
Proof.
  unfold cancel_replaced_if_dropped. apply tracks_bind; [apply _|]. intros s. destruct e as [e|]; [|apply _].
  destruct (negb _); [|apply _]. apply tracks_bind; apply _.
Qed.

#[global] Instance base_exists v0 t e group : Tracks see (Base D T v0) (handle_reservation_exists t e group).
Proof.
  unfold handle_reservation_exists. apply tracks_bind; [apply _|]. intros s. cbv zeta.
  destruct e as [e|]; [|apply _]. destruct (negb _); [apply _|]. case_bool_decide; [apply _|].
  destruct group; [apply _|]. destruct (Rsv.has_reservation_parent_id _ _); apply _.
Qed.

#[global] Instance base_reservation `{!Rsv.DateParser} v0 now r : Tracks see (Base D T v0) (handle_reservation now r).
Proof. unfold handle_reservation. cbv zeta. apply _. Qed.

(** An entry whose EVSE id can be read. *)
Definition entry_ok (entry : Rsv.loaded_entry) : Prop :=
  match entry with Rsv.unreadable_evse_id _ => False | _ => True end.

Lemma base_load_entry `{!Rsv.DateParser} v0 now entry :
  entry_ok entry → Tracks see (Base D T v0) (load_entry now entry).
Proof.
  destruct entry as [|r|[e r]]; cbn; [intros _; apply _|done|]. intros _.
  apply tracks_bind; [apply _|]. intros res. case_bool_decide.
  - destruct e as [e|]; [|apply _]. apply base_rsv. by apply update_ok.
  - apply leads_get. intros s. apply leads_assume with (Rsv.reservation_cancelled_callback (reservation_handler s) = true).
    { intros s1 v [-> (Hr & _)]. apply Hr. }
    intros ->. apply leads_forget. by apply base_lambda.
Qed.

Lemma base_for {A} v0 (l : list A) (body : A → op ()) :
  (∀ a, a ∈ l → Tracks see (Base D T v0) (body a)) → Tracks see (Base D T v0) (cfor l body).
Proof.
  induction l as [|a l IH]; intros H; cbn; [apply _|]. apply tracks_bind; [apply H; by left|]. intros [].
  apply IH. intros b Hb. apply H. by right.
Qed.

Lemma base_load `{!Rsv.DateParser} v0 now loaded :
  (∀ entries, loaded = Some entries → Forall entry_ok entries) →
  Tracks see (Base D T v0) (load_reservations now loaded).
Proof.
  intros Hl. unfold load_reservations. apply tracks_bind; [apply _|]. intros s. destruct (negb _); [apply _|].
  destruct loaded as [entries|]; [|apply _]. apply base_for. intros entry Hin. apply base_load_entry.
  specialize (Hl entries eq_refl). rewrite Forall_forall in Hl. by apply Hl.
Qed.

#[global] Instance base_take v0 es : Tracks see (Base D T v0) (take_restored es).
Proof.
  induction es as [|[e evse] es IH]; cbn; [apply _|]. destruct (negb _); [done|].
  apply tracks_bind; [apply _|]. intros id. apply tracks_bind; [done|]. intros rest. apply _.
Qed.

Lemma base_publish v0 p st msgs :
  leads see (Base D T v0) (publish_token_validation_status p st msgs)
    (λ _, Base D T (see v0 (publish_token_validation_status_callback p st msgs))).
Proof. apply base_invoke. Qed.

End base.

(** ** Questions about EVSEs *)
Section questions.
Context (D : gmap Z Z) (s : AuthHandler) (Hr : ready D s).

Lemma find_returns test es : Forall (known D) es → ∃ r, find_evse s test es = Ret r ∧
  match r with
  | Some e => e ∈ es ∧ ∃ evse, evses s !! e = Some evse ∧ test evse = true
  | None => ∀ e evse, e ∈ es → evses s !! e = Some evse → test evse = false
  end.
Proof.
  induction 1 as [|e es He Hes IH]; cbn; [exists None; split; [done|]; by intros e evse ?%elem_of_nil|].
  destruct (evse_at_ready D s e Hr He) as (evse & E & Hl). rewrite E. cbn. destruct (test evse) eqn:Ht.
  { exists (Some e). split; [done|]. split; [left|eauto]. }
  destruct IH as (r & -> & Hspec). exists r. split; [done|]. destruct r as [e'|].
  - destruct Hspec as [Hin ?]. split; [by right|done].
  - intros e' evse' [->|Hin]%elem_of_cons Hl'; [congruence|by eapply Hspec].
Qed.

Lemma referenced_in p : Forall (known D) (get_referenced_evses s p).
Proof.
  apply Forall_forall. intros e. unfold get_referenced_evses. rewrite (ready_lookup D s e Hr).
  destruct (p_connectors p) as [cs|].
  - rewrite list_elem_of_In, filter_In. intros [_ H]. destruct (evses s !! e) as [evse|]; [eauto|done].
  - rewrite list_elem_of_fmap. intros ([e' evse] & -> & Hin). rewrite list_elem_of_In, filter_In in Hin.
    destruct Hin as [Hin _]. exists evse. by apply elem_of_items, list_elem_of_In.
Qed.

Lemma without_identifier_spec es : Forall (known D) es →
  without_identifier s es = Ret (List.filter (λ e, match evses s !! e with
                                                   | Some evse => negb (bool_decide (is_Some (identifier evse)))
                                                   | None => false end) es).
Proof.
  induction 1 as [|e es He Hes IH]; cbn; [done|]. destruct (evse_at_ready D s e Hr He) as (evse & E & Hl).
  rewrite E, IH, Hl. cbn. by case_bool_decide.
Qed.

Lemma used_returns es t : Forall (known D) es → ∃ e, used_for_transaction s es t = Ret e ∧
  (e = -1 ∨ e ∈ es ∧ ∃ evse i, evses s !! e = Some evse ∧ identifier evse = Some i ∧ identifies t i = true).
Proof.
  intros Hes. unfold used_for_transaction. destruct (find_returns (has_identifier (identifies t)) es Hes) as (r & -> & H).
  cbn. exists (default (-1) r). split; [done|]. destruct r as [e|]; [right|by left]. cbn.
  destruct H as (Hin & evse & Hl & Ht). split; [done|]. unfold has_identifier in Ht.
  destruct (identifier evse) as [i|] eqn:Ei; [|done]. eauto.
Qed.

Lemma charging_returns h e : ∃ b, Rsv.is_charging_possible h e = Ret b.
Proof.
  unfold Rsv.is_charging_possible. case_bool_decide; [eauto|]. case_bool_decide; cbn; [|eauto]. apply possible_returns.
Qed.

Lemma reserved_returns p es : ∃ b, all_reserved_for_others s p es = Ret b.
Proof.
  induction es as [|e es [b IH]]; cbn [all_reserved_for_others]; [eauto|]. destruct (e <? 0); [eauto|]. cbv zeta.
  assert (∃ b, (if negb (Rsv.is_evse_reserved (reservation_handler s) e)
                then of_rsv_outcome (Rsv.is_charging_possible (reservation_handler s) e) else Ret false) = Ret b)
    as [possible ->].
  { destruct (negb _); [|eauto]. destruct (charging_returns (reservation_handler s) e) as [? ->]. eauto. }
  cbn [mbind outcome_mbind outcome_bind]. destruct possible; [eauto|]. case_bool_decide; [eauto|].
  destruct (Rsv.has_reservation_parent_id _ _); eauto.
Qed.

Lemma available_returns es : Forall (known D) es → ∃ b, any_evse_available s es = Ret b ∧
  (b = true → ∃ e evse, e ∈ es ∧ evses s !! e = Some evse ∧ evse_is_available evse = true).
Proof.
  intros Hes. unfold any_evse_available. destruct (find_returns evse_is_available es Hes) as (r & -> & H). cbn.
  exists (bool_decide (is_Some r)). split; [done|]. destruct r as [e|]; [|by intros ?%bool_decide_eq_true_1].
  intros _. destruct H as (Hin & evse & ? & ?). eauto.
Qed.

Lemma useless_returns es p : Forall (known D) es → ∃ b, no_evse_for_token s es p = Ret b.
Proof.
  intros Hes. unfold no_evse_for_token. destruct (available_returns es Hes) as (b & -> & _). cbn.
  unfold any_parent_id_present.
  destruct (find_returns (has_identifier (λ i, bool_decide (is_Some (parent_id_token i)))) es Hes) as (r & -> & _). cbn.
  destruct (_ && _); [eauto|]. apply reserved_returns.
Qed.

Lemma already_returns p es : Forall (known D) es → ∃ b, is_token_already_in_process s p es = Ret b ∧
  (b = false → in_process s p = false).
Proof.
  intros Hes. unfold is_token_already_in_process. destruct (in_process s p); [eauto|].
  edestruct find_returns as (r & -> & _); [done|]. cbn. eauto.
Qed.

End questions.
End AuthFacts.
