(* ===== verification/AuthSystem.v ===== *)
(** * The threads of the auth handler

    Requests from the rest of the Auth module run as threads that interleave at their
    waits.  A step of the system starts a request, lets a waiting thread go on, or
    lets a timer fire; [trace] records, with the number of the thread, what was
    requested, what a waiting thread was told and what was called. *)

From Stdlib Require Import String.
From S2P Require Import Prelude Resume EvseContext Reservation AuthHandler AuthToken.

Import Evse Auth Token.

Module Sys.

Section system.
Context `{!Rsv.DateParser}.

(** What the module asks of the handler.  [now] is the time of the call; [loaded] the
    contents of the store. *)
Inductive request :=
| PresentToken (p : ProvidedIdToken)
| UpdateValidation (u : ValidationResultUpdate)
| Session (evse_id : Z) (ev : SessionEvent)
| FaultRaised (evse_id connector_id : Z)
| FaultCleared (evse_id connector_id : Z)
| PlaceReservation (now : Z) (r : Rsv.Reservation)
| CancelReservation (id : Z)
| ReservationExpires (id : Z)
| ReservationExists (token : string) (evse_id : option Z) (group_id_token : option string)
| Withdraw (w : WithdrawAuthorizationRequest)
| Initialize (now : Z) (loaded : option (list Rsv.loaded_entry))
| SetConnectionTimeout (v : Z)
| SetPlugInTimeoutEnabled (v : bool)
| SetMasterPassGroupId (v : string)
| SetPrioritize (v : bool)
| SetStopOnReswipe (v : bool)
| TimerFires (task : timeout_task).

Inductive reply :=
| token_result (r : TokenHandlingResult)
| reservation_result (r : Rsv.ReservationResult)
| cancelled (r : bool)
| reservation_check (r : ReservationCheckStatus)
| withdrawn (r : WithdrawAuthorizationResult)
| finished.

Notation stopped := (act AuthHandler call exn wait answer reply).

Definition reply_with {A} (f : A → reply) (m : thread A) : thread reply := a ← m; mret (f a).

Definition quietly (m : op ()) : thread reply := reply_with (λ _, finished) (sec m).

Definition start (rq : request) : thread reply :=
  match rq with
  | PresentToken p => reply_with token_result (on_token p)
  | UpdateValidation u => quietly (handle_token_validation_result_update u)
  | Session e ev => reply_with (λ _, finished) (handle_session_event e ev)
  | FaultRaised e c => quietly (handle_permanent_fault_raised e c)
  | FaultCleared e c => quietly (handle_permanent_fault_cleared e c)
  | PlaceReservation now r => reply_with reservation_result (place_reservation now r)
  | CancelReservation id => reply_with cancelled (cancel_reservation id)
  | ReservationExpires id => quietly (on_reservation_expired id)
  | ReservationExists t e g => reply_with reservation_check (sec (handle_reservation_exists t e g))
  | Withdraw w => reply_with withdrawn (handle_withdraw_authorization w)
  | Initialize now loaded => reply_with (λ _, finished) (initialize now loaded)
  | SetConnectionTimeout v => quietly (set_connection_timeout v)
  | SetPlugInTimeoutEnabled v => quietly (set_plug_in_timeout_enabled v)
  | SetMasterPassGroupId v => quietly (set_master_pass_group_id v)
  | SetPrioritize v => quietly (set_prioritize_authorization_over_stopping_transaction v)
  | SetStopOnReswipe v => quietly (set_stop_transaction_on_reswipe v)
  | TimerFires task => reply_with (λ _, finished) (run_timeout_task task)
  end.

(** ** Interleavings *)
Inductive obs :=
| Began (rq : request)
| Told (w : wait) (a : answer)
| Called (c : call)
| Ended (r : outcome exn reply).

Record system := {
  handler : AuthHandler;
  threads : gmap nat (request * stopped);    (* the waiting threads, with what they were started for *)
  next_thread : nat;
}.

Inductive step_kind :=
| Start (rq : request)
| Resume (thread_id : nat) (a : answer)
| Fire (evse_id : Z).                     (* the armed timer of an EVSE expires *)

(** The system after a section of thread [i], and what the section shows. *)
Definition after_section (i n : nat) (rq : request) (ts : gmap nat (request * stopped))
    (run : outcome exn stopped * AuthHandler * list call) : system * list (nat * obs) :=
  let '(r, s, o) := run in
  let called := pair i <$> (Called <$> o) in
  match r with
  | Ret (Done a) => ({| handler := s; threads := delete i ts; next_thread := n |}, called ++ [(i, Ended (Ret a))])
  | Ret t => ({| handler := s; threads := <[i := (rq, t)]> ts; next_thread := n |}, called)
  | Throw x => ({| handler := s; threads := delete i ts; next_thread := n |}, called ++ [(i, Ended (Throw x))])
  | Undef => ({| handler := s; threads := delete i ts; next_thread := n |}, called ++ [(i, Ended Undef)])
  end.

Definition begin_thread (rq : request) (s : AuthHandler) (y : system) : system * list (nat * obs) :=
  let i := next_thread y in
  let '(y', tr) := after_section i (S i) rq (threads y) (start rq s) in (y', (i, Began rq) :: tr).

(** [None]: the step is not possible.  Timer threads are only started by timers. *)
Definition sys_step (y : system) (k : step_kind) : option (system * list (nat * obs)) :=
  let s := handler y in
  match k with
  | Start (TimerFires _) => None
  | Start rq => Some (begin_thread rq s y)
  | Resume i a =>
      match threads y !! i with
      | Some (rq, Wait w c) =>
          if may_resume w a s then
            let '(y', tr) := after_section i (next_thread y) rq (threads y) (c a s) in Some (y', (i, Told w a) :: tr)
          else None
      | _ => None
      end
  | Fire e =>
      match timeout_timers s !! e with
      | Some task => Some (begin_thread (TimerFires task) (set_timeout_timers (delete e (timeout_timers s)) s) y)
      | None => None
      end
  end.

Fixpoint sys_run (y : system) (ks : list step_kind) : option (system * list (nat * obs)) :=
  match ks with
  | [] => Some (y, [])
  | k :: ks' =>
      r ← sys_step y k;
      r' ← sys_run r.1 ks';
      Some (r'.1, r.2 ++ r'.2)
  end.

Definition system_of (s : AuthHandler) : system := {| handler := s; threads := ∅; next_thread := 0 |}.

(** What thread [i] shows. *)
Definition of_thread (i : nat) (tr : list (nat * obs)) : list obs :=
  omap (λ q, if bool_decide (q.1 = i) then Some q.2 else None) tr.

End system.
End Sys.
