(* ===== verification/AuthThreads.v ===== *)
(** * What one thread of the auth handler does

    Contracts of the requests, section by section: threads that are not about a token
    leave the set of tokens in process alone and grant nothing; a thread that handles a
    presented token grants at most one authorization, to an EVSE the token may use and on
    the strength of a validation result it was given, and publishes the statuses of the
    token in order. *)

From Stdlib Require Import String.
From S2P Require Import Prelude Resume EvseContext Reservation ReservationFacts ReservationInv AuthHandler AuthToken AuthFacts AuthSystem.

Import Evse Auth Token AuthFacts Sys.

Module AuthThreads.

Definition ok (w : wait) (a : answer) (s : AuthHandler) : Prop := may_resume w a s = true.

Section contracts.
Context (D : gmap Z Z).

Definition rely (s : AuthHandler) (v : view) : Prop := ready D s.
Definition never : option exn → AuthHandler → view → Prop := λ _ _ _, False.

(** ** Threads that are not about a token

    [f]: what the section has done to what the threads share. *)
Definition Quiet (f : shared → shared) (s : AuthHandler) (v : view) : Prop :=
  ready D s ∧ shared_of s = f (before v) ∧ grants v = [].

Notation Calm := (Quiet id).

(** Where a thread waits that touches nothing shared. *)
Definition plain_wait (w : wait) : Prop :=
  match w with relock => True | no_timeout_task e => known D e | _ => False end.

Definition calm_guarantee (w : wait) (s : AuthHandler) (v : view) : Prop := Calm s v ∧ plain_wait w.

Notation calm m := (serves see hear ok calm_guarantee rely Calm m (λ _, Calm) never).

Lemma quiet_base {A} f (m : op A) : (∀ T v0, Tracks see (Base D T v0) m) → Tracks see (Quiet f) m.
Proof.
  intros Hm s v (Hr & Ht & Hg).
  destruct (Hm (shared_of s) v s v) as (a & s' & o & E & Hr' & Ht' & Hv); [done|].
  exists a, s', o. split; [done|]. rewrite Hv. split_and!; [done|congruence|done].
Qed.

Lemma quiet_publish f p st msgs : Tracks see (Quiet f) (publish_token_validation_status p st msgs).
Proof.
  intros s v (Hr & Ht & Hg).
  destruct (base_publish D (shared_of s) v p st msgs s v) as (a & s' & o & E & Hr' & Ht' & Hv); [done|].
  exists a, s', o. split; [done|]. rewrite Hv. split_and!; [done|by rewrite Ht', Ht|done].
Qed.

(** Commands that change what is shared. *)
Lemma quiet_change {A} f h (m : op A) :
  (∀ T v0, leads see (Base D T v0) m (λ _, Base D (h T) v0)) → leads see (Quiet f) m (λ _, Quiet (h ∘ f)).
Proof.
  intros Hm s v (Hr & Ht & Hg).
  destruct (Hm (shared_of s) v s v) as (a & s' & o & E & Hr' & Ht' & Hv); [done|].
  exists a, s', o. split; [done|]. rewrite Hv. split_and!; [done|cbn; congruence|done].
Qed.

Lemma calm_sec {A} (m : op A) : (∀ T v0, Tracks see (Base D T v0) m) → calm (sec m).
Proof. intros Hm. by apply serves_tracks, quiet_base. Qed.

Lemma calm_wait w : plain_wait w → calm (pwait w).
Proof. intros Hw. apply serves_wait; [done|]. intros s0 r s v (_ & _ & Hg) Hr _. by split_and!. Qed.

Lemma calm_bind {A B} (m : thread A) (k : A → thread B) : calm m → (∀ a, calm (k a)) → calm (m ≫= k).
Proof. apply serves_bind. Qed.

Lemma calm_ret {A} (a : A) : calm (mret a).
Proof. by apply serves_ret. Qed.

Lemma calm_for {A} (l : list A) (body : A → thread ()) : (∀ a, a ∈ l → calm (body a)) → calm (pfor l body).
Proof. apply serves_for. Qed.

(** The state read may be assumed to be a ready one. *)
Lemma calm_get {A} (k : AuthHandler → thread A) : (∀ s, ready D s → calm (k s)) → calm (sec cget ≫= k).
Proof.
  intros Hk. apply serves_get. intros s0 s v [-> Hs]. by apply (Hk s0 (proj1 Hs)).
Qed.

(** Follow the text; the leaves are the commands, which keep [Base]. *)
Ltac calm_tac leaf :=
  cbv beta;
  lazymatch goal with
  | |- serves _ _ _ _ _ _ (mret _) _ _ => apply calm_ret
  | |- serves _ _ _ _ _ _ (pwait _) _ _ => by apply calm_wait
  | |- serves _ _ _ _ _ _ (sec cget ≫= _) _ _ => apply calm_get; intros ? ?; calm_tac leaf
  | |- serves _ _ _ _ _ _ (_ ≫= _) _ _ => apply calm_bind; [calm_tac leaf | intros ?; calm_tac leaf]
  | |- serves _ _ _ _ _ _ (match ?x with _ => _ end) _ _ => destruct x; calm_tac leaf
  | |- serves _ _ _ _ _ _ (sec _) _ _ => apply calm_sec; intros ? ?; leaf
  | |- _ => idtac
  end.

Ltac base_leaf :=
  first [ apply _ | done
        | apply tracks_bind; [base_leaf | intros ?; base_leaf]
        | apply tracks_when; base_leaf
        | apply base_quiet; done
        | apply base_upd; done
        | apply base_submit; done
        | apply base_modify; done
        | apply base_load; done ].

Lemma wait_task_calm e : known D e → calm (wait_no_timeout_task e).
Proof.
  intros He. unfold wait_no_timeout_task. apply calm_get. intros s Hr.
  destruct (evse_at_ready D s e Hr He) as (evse & -> & _).
  apply calm_bind; [apply calm_sec; intros T v0; apply base_lift; eauto|]. intros x. calm_tac idtac.
Qed.

Lemma restored_calm e id : calm (apply_restored_reservation e id).
Proof. unfold apply_restored_reservation. calm_tac base_leaf. Qed.

Lemma cancel_calm id : calm (cancel_reservation id).
Proof. unfold cancel_reservation. calm_tac base_leaf. Qed.

Lemma place_calm `{!Rsv.DateParser} now r : calm (place_reservation now r).
Proof. unfold place_reservation. cbv zeta. calm_tac base_leaf. Qed.

Lemma initialize_calm `{!Rsv.DateParser} now loaded :
  (∀ entries, loaded = Some entries → Forall entry_ok entries) → calm (initialize now loaded).
Proof.
  intros Hl. unfold initialize. apply calm_bind; [apply calm_sec; intros T v0; base_leaf|]. intros l.
  apply calm_bind; [by apply calm_wait|]. intros _. apply calm_for. intros q _. apply restored_calm.
Qed.

Definition valid_session (ev : SessionEvent) : Prop := event ev = SessionStarted → is_Some (session_started ev).

Lemma session_started_base T v0 e ev :
  known D e → is_Some (session_started ev) → Tracks see (Base D T v0) (session_started_at e ev).
Proof.
  intros He [why Hw]. unfold session_started_at. rewrite Hw. destruct why; [|apply _].
  apply tracks_bind; [base_leaf|]. intros []. apply tracks_bind; [base_leaf|]. intros [].
  apply tracks_bind; [apply _|]. intros s. destruct (_ || _); [apply _|]. by apply base_arm.
Qed.

Lemma session_event_calm e c ev : known D e → valid_session ev → calm (session_event e c ev).
Proof.
  intros He Hev. unfold session_event, valid_session in *.
  destruct (event ev); try apply calm_ret;
    repeat first [ apply calm_ret | by apply wait_task_calm
                 | apply calm_bind; [|intros ?]
                 | apply calm_sec; intros ? ?; base_leaf ].
  apply calm_sec. intros. by apply session_started_base; [|apply Hev].
Qed.

Lemma session_calm e ev : valid_session ev → calm (handle_session_event e ev).
Proof.
  intros Hev. unfold handle_session_event. apply calm_get. intros s Hr. cbv zeta.
  destruct (_ || _ || _) eqn:Eb; [apply calm_ret|]. apply orb_false_iff in Eb as [_ Hn].
  apply bool_decide_eq_false in Hn. apply not_eq_None_Some in Hn as [evse Hl].
  apply calm_bind; [apply session_event_calm; [apply (ready_lookup D s e Hr); eauto|done]|]. intros b.
  apply calm_bind; [apply calm_sec; intros; apply _|]. intros [].
  destruct (negb _); [apply calm_ret|]. apply calm_bind; [apply calm_sec; intros; apply _|]. intros r.
  apply calm_bind; [by apply calm_wait|]. intros _. destruct r; [apply restored_calm|apply calm_ret].
Qed.

(** ** The timeout tasks *)
Definition task_guarantee (e : Z) (w : wait) (s : AuthHandler) (v : view) : Prop :=
  match w with
  | timer_thread e' => e' = e ∧ known D e ∧ resumed v = false ∧ Calm s v
  | relock => Quiet (with_task e true) s v
  | _ => False
  end.

Lemma quiet_pre {A} f g (m : thread A) G Q :
  serves see hear ok G rely (Quiet f) m Q never → (∀ x, f x = g x) → serves see hear ok G rely (Quiet g) m Q never.
Proof.
  intros Hm Hf. eapply serves_pre; [exact Hm|]. intros s v (Hr & Ht & Hg). split_and!; [done|by rewrite Hf|done].
Qed.

Lemma timeout_spec task :
  known D (task_evse task) →
  serves see hear ok (task_guarantee (task_evse task)) rely (λ s v, Calm s v ∧ resumed v = false)
    (run_timeout_task task)
    (λ _, Quiet (with_task (task_evse task) false)) never.
Proof.
  intros He. unfold run_timeout_task. eapply serves_bind.
  { apply serves_wait with (Q := λ _, Calm); [by intros s v [? ?]|].
    intros s0 r s v [(_ & _ & Hg) _] Hr _. by split_and!. }
  intros ?. eapply serves_bind; [apply serves_sec, leads_hoare, (quiet_change id (with_task (task_evse task) true));
    intros; by apply base_flag|]. intros [].
  eapply serves_bind.
  { apply serves_wait with (Q := λ _, Calm); [done|]. intros s0 r s v (_ & _ & Hg) Hr _. by split_and!. }
  intros ?. destruct task as [e index p|e]; cbn in He |- *; apply serves_sec, leads_hoare.
  - eapply leads_bind; [apply (quiet_base id); intros; base_leaf|]. intros [].
    eapply leads_bind; [apply (quiet_base id); intros; base_leaf|]. intros [].
    eapply leads_bind; [apply (quiet_publish id)|]. intros [].
    apply (quiet_change id (with_task e false)). intros. by apply base_flag.
  - apply leads_get. intros s. apply leads_assume with (ready D s); [by intros s1 v [-> (Hr & _)]|]. intros Hr.
    apply leads_forget. destruct (evse_at_ready D s e Hr He) as (evse & -> & _).
    eapply leads_bind; [apply (quiet_base id); intros T v0; apply base_lift; eauto|]. intros x.
    eapply leads_bind; [apply (quiet_base id); intros; base_leaf|]. intros [].
    eapply leads_bind; [apply (quiet_base id); intros; base_leaf|]. intros [].
    eapply leads_bind; [apply (quiet_base id); intros; base_leaf|]. intros [].
    apply (quiet_change id (with_task e false)). intros. by apply base_flag.
Qed.

(** ** Withdrawals *)
Definition withdraw_guarantee (w : wait) (s : AuthHandler) (v : view) : Prop :=
  match w with
  | withdraw_lock => resumed v = false ∧ Calm s v
  | processed _ => Calm s v
  | relock => Quiet (with_mutex true) s v
  | _ => False
  end.

Lemma withdraw_one_quiet evse : Tracks see Calm (withdraw_authorization_or_stop_transaction evse).
Proof.
  unfold withdraw_authorization_or_stop_transaction.
  destruct (transaction_active evse); [apply quiet_base; intros; base_leaf|].
  apply tracks_bind; [apply quiet_base; intros; base_leaf|]. intros [].
  destruct (identifier evse); [apply quiet_publish|apply _].
Qed.

Lemma withdraw_granted_quiet w r :
  (∀ e, w_evse_id w = Some e → known D e) → Tracks see Calm (withdraw_granted w r).
Proof.
  intros Hw. unfold withdraw_granted. apply leads_get. intros s.
  apply leads_assume with (ready D s); [by intros s1 v [-> (Hr & _)]|]. intros Hr. apply leads_forget.
  apply tracks_bind.
  - destruct (w_evse_id w) as [e|]; [|apply _]. apply tracks_bind; [|intros; apply _].
    apply quiet_base. intros T v0. apply base_lift.
    destruct (evse_at_ready D s e Hr (Hw e eq_refl)) as (evse & -> & _). eauto.
  - intros targets. cbv zeta. apply tracks_bind; [|intros; apply _]. apply tracks_for. intros evse.
    apply withdraw_one_quiet.
Qed.

Notation holds_mutex P m Q := (serves see hear ok withdraw_guarantee rely P m Q never).

Lemma withdraw_wait f w :
  match w with processed _ => f = id | relock => f = with_mutex true | _ => False end →
  holds_mutex (Quiet f) (pwait w) (λ _, Calm).
Proof.
  intros Hw. apply serves_wait.
  - intros s v H. destruct w; try done; by subst f.
  - intros s0 r s v (_ & _ & Hg) Hr _. by split_and!.
Qed.

Lemma unlock_spec {A} f (a : A) :
  (∀ x, with_mutex false (f x) = with_mutex false x) →
  holds_mutex (Quiet f) (sec (cmodify (set_withdraw_mutex false)) ≫= λ _, mret a) (λ _, Quiet (with_mutex false)).
Proof.
  intros Hf. eapply serves_bind.
  { apply serves_sec, leads_hoare, (quiet_change f (with_mutex false)). intros; apply base_mutex. }
  intros []. apply serves_ret. intros s v (Hr & Ht & Hg). split_and!; [done|rewrite Ht; apply Hf|done].
Qed.

Lemma withdraw_spec w :
  holds_mutex (λ s v, Calm s v ∧ resumed v = false) (handle_withdraw_authorization w) (λ _, Quiet (with_mutex false)).
Proof.
  unfold handle_withdraw_authorization. eapply serves_bind.
  { apply serves_wait with (Q := λ _, Calm); [by intros s v [? ?]|].
    intros s0 r s v [(_ & _ & Hg) _] Hr _. by split_and!. }
  intros ?.
  eapply serves_bind; [apply serves_sec, leads_hoare, (quiet_change id (with_mutex true)); intros; apply base_mutex|].
  intros []. apply serves_get. intros s. apply serves_assume with (ready D s); [by intros s1 v [-> (Hr & _)]|].
  intros Hr. eapply serves_pre; [|by intros s1 v [_ H]; exact H].
  destruct (match w_evse_id w with Some e => bool_decide (evses s !! e = None) | None => false end) eqn:Ew.
  { by apply (unlock_spec (with_mutex true ∘ id)). }
  assert (∀ e, w_evse_id w = Some e → known D e) as Hw.
  { intros e He. rewrite He in Ew. apply bool_decide_eq_false in Ew. apply not_eq_None_Some in Ew as [evse Hl].
    apply (ready_lookup D s e Hr). eauto. }
  eapply serves_bind; [by apply (withdraw_wait (with_mutex true ∘ id) relock)|]. intros ?.
  eapply serves_bind; [apply serves_tracks, (quiet_base id); intros; base_leaf|]. intros [].
  apply serves_get. intros s1. eapply serves_pre; [|by intros s2 v [_ H]; exact H].
  eapply (serves_bind _ _ _ _ _ _ _ _ (λ _, Calm)).
  { destruct (targets_token_in_process s1 w); [|by apply serves_ret].
    eapply serves_bind; [by apply (withdraw_wait id)|]. intros ?. by apply serves_ret. }
  intros r. eapply serves_bind; [apply serves_tracks, (quiet_base id); intros; base_leaf|]. intros [].
  eapply serves_bind; [by apply serves_tracks, withdraw_granted_quiet|]. intros r'. by apply (unlock_spec id).
Qed.

End contracts.
End AuthThreads.
