(* ===== verification/AuthGrant.v ===== *)
(** * What happens to a presented token

    The contract of [on_token] under every interleaving: at each wait the token is in
    process and nothing has been granted; at the end at most one EVSE has been told that
    the token is accepted, for a reason, and the published statuses are in order. *)

From Stdlib Require Import String.
From S2P Require Import Prelude Resume EvseContext Reservation ReservationFacts ReservationInv AuthHandler AuthToken AuthFacts AuthSystem AuthThreads.

Import Evse Auth Token AuthFacts Sys AuthThreads.

Module AuthGrant.

Definition values (l : list ProvidedIdToken) : list string := (λ q, value (p_id_token q)) <$> l.

Definition with_token (p : ProvidedIdToken) (x : shared) : shared :=
  {| sh_tokens := p :: sh_tokens x; sh_tasks := sh_tasks x; sh_mutex := sh_mutex x |}.

Definition without_token (p : ProvidedIdToken) (x : shared) : shared :=
  {| sh_tokens := filter (λ q, value (p_id_token q) ≠ value (p_id_token p)) (sh_tokens x);
     sh_tasks := sh_tasks x; sh_mutex := sh_mutex x |}.

Section grant.
Context (D : gmap Z Z) (p0 : ProvidedIdToken).

(** A result given by a validator, or the one a prevalidated token stands for. *)
Definition given (v : view) (r : ValidationResult) : Prop :=
  r ∈ results_seen v ∨
  p_prevalidated p0 = Some true ∧ r = ValidationResult_of auth_Accepted (p_parent_id_token p0).

(** An EVSE told that the token is accepted: the token may be used there, and a
    validation result accepts it there. *)
Definition justified (v : view) (x : Z * ProvidedIdToken * ValidationResult) : Prop :=
  let '(index, p, r) := x in
  p_id_token p = p_id_token p0 ∧
  ∃ e r0, D !! e = Some index ∧ p_connectors p = Some [e] ∧ given v r0 ∧
    v_authorization_status r0 = auth_Accepted ∧ (r = r0 ∨ ∃ id, r = set_v_reservation_id (Some id) r0) ∧
    (∀ l, v_evse_ids r0 = Some l → e ∈ l) ∧ (∀ l, p_connectors p0 = Some l → e ∈ l).

(** The token is in process: since this section if it is the first one. *)
Definition processing (s : AuthHandler) (v : view) : Prop :=
  if resumed v then shared_of s = before v
  else shared_of s = with_token p0 (before v) ∧ value (p_id_token p0) ∉ values (sh_tokens (before v)).

(** Published so far: Processing, then Accepted any number of times. *)
Definition progress (v : view) : Prop :=
  Forall (λ q, p_id_token q.1 = p_id_token p0) (statuses v) ∧
  ∃ n, (statuses v).*2 = Processing :: replicate n TokenAccepted.

Definition Tok (rs : list ValidationResult) (L : list (Z * ProvidedIdToken * ValidationResult))
    (s : AuthHandler) (v : view) : Prop :=
  ready D s ∧ processing s v ∧ progress v ∧ grants v = L ∧ Forall (given v) rs.

(** Where a thread that handles a token may wait. *)
Definition token_wait (w : wait) : Prop :=
  match w with validators _ | plug_in _ _ => True | no_timeout_task e => known D e | _ => False end.

Definition token_guarantee (w : wait) (s : AuthHandler) (v : view) : Prop := Tok [] [] s v ∧ token_wait w.

Notation contract P m Q := (serves see hear ok token_guarantee (rely D) P m Q never).

Lemma tok_base {A} rs L (m : op A) : (∀ T v0, Tracks see (Base D T v0) m) → Tracks see (Tok rs L) m.
Proof.
  intros Hm s v (Hr & Hp & Hrest).
  destruct (Hm (shared_of s) v s v) as (a & s' & o & E & Hr' & Ht' & Hv); [done|].
  exists a, s', o. split; [done|]. rewrite Hv. split_and!; [done| |apply Hrest..].
  unfold processing in *. by rewrite Ht'.
Qed.

Lemma tok_lift {A} rs L (r : outcome exn A) (φ : A → Prop) :
  (∀ s v, Tok rs L s v → ∃ a, r = Ret a ∧ φ a) →
  leads see (Tok rs L) (clift r : op A) (λ a s v, Tok rs L s v ∧ φ a).
Proof. intros H s v HT. destruct (H s v HT) as (a & -> & Ha). by exists a, s, []. Qed.

Lemma tok_accepted rs p msgs :
  p_id_token p = p_id_token p0 → Tracks see (Tok rs []) (publish_token_validation_status p TokenAccepted msgs).
Proof.
  intros Hp s v (Hr & Hproc & (Hall & n & Hn) & Hg & Hrs).
  destruct (base_publish D (shared_of s) v p TokenAccepted msgs s v) as (a & s' & o & E & Hr' & Ht' & Hv);
    [done|]. exists a, s', o. split; [done|]. rewrite Hv. split_and!; [done| | |done|done].
  - unfold processing in *. cbn. by rewrite Ht'.
  - split; cbn; [apply Forall_app; split; [done|by constructor]|]. exists (S n).
    rewrite fmap_app, Hn. cbn. by rewrite replicate_cons_app.
Qed.

Lemma given_hear v w a s r : given v r → given (hear v w a s) r.
Proof. intros [H|H]; [left|by right]. cbn. apply elem_of_app. by left. Qed.

Lemma tok_hear rs s0 s v w a : Tok rs [] s0 v → ready D s → Tok rs [] s (hear v w a s).
Proof.
  intros (_ & _ & Hprog & Hg & Hrs) Hr. split_and!; [done|done|done|done|].
  eapply Forall_impl; [exact Hrs|]. intros r. apply given_hear.
Qed.

Lemma tok_weaken rs L s v : Tok rs L s v → Tok [] L s v.
Proof. intros (H1 & H2 & H3 & H4 & _). by split_and!. Qed.

Lemma tok_wait rs w : token_wait w → contract (Tok rs []) (pwait w) (λ a s v, Tok rs [] s v ∧ ok w a s).
Proof.
  intros Hw. apply serves_wait; [intros s v HT; split; [by eapply tok_weaken|done]|]. intros s0 a s v HT Hr Hok. split; [|done].
  by apply tok_hear with s0.
Qed.

Lemma tok_sec {A} rs L (m : op A) : (∀ T v0, Tracks see (Base D T v0) m) →
  contract (Tok rs L) (sec m) (λ _, Tok rs L).
Proof. intros Hm. by apply serves_tracks, tok_base. Qed.

Lemma tok_get {A} rs L (k : AuthHandler → thread A) Q :
  (∀ s, ready D s → contract (λ s1 v, s1 = s ∧ Tok rs L s1 v) (k s) Q) → contract (Tok rs L) (sec cget ≫= k) Q.
Proof. intros Hk. apply serves_get. intros s0 s v [-> Hs]. by apply (Hk s0 (proj1 Hs)). Qed.

Lemma tok_forget {A} s0 rs L (m : thread A) Q : contract (Tok rs L) m Q → contract (λ s1 v, s1 = s0 ∧ Tok rs L s1 v) m Q.
Proof. intros Hm. by eapply serves_pre; [exact Hm|intros s v [_ H]]. Qed.

Lemma tok_ret {A} rs L (a : A) (Q : A → AuthHandler → view → Prop) :
  (∀ s v, Tok rs L s v → Q a s v) → contract (Tok rs L) (mret a) Q.
Proof. apply serves_ret. Qed.

Lemma tok_done {A} rs L (a : A) : contract (Tok rs L) (mret a) (λ _, Tok rs L).
Proof. by apply serves_ret. Qed.

(** ** Selecting an EVSE *)
Definition good_choice (es : list Z) (c : SelectEvseResult) : Prop :=
  match selected c with Some e => e ∈ es | None => status c ≠ EvseSelected end.

Lemma oldest_in s es : get_oldest_plugin s es ≠ -1 → get_oldest_plugin s es ∈ es.
Proof.
  unfold get_oldest_plugin. destruct (List.find _ (plug_in_queue s)) as [e|] eqn:Ef; [|done]. cbn. intros _.
  apply find_some in Ef as [_ H]. by apply bool_decide_eq_true_1 in H.
Qed.

Lemma last_in s es : get_last_plugin s es ≠ -1 → get_last_plugin s es ∈ es.
Proof.
  unfold get_last_plugin. destruct (List.find _ (rev (plug_in_queue s))) as [e|] eqn:Ef; [|done]. cbn. intros _.
  apply find_some in Ef as [_ H]. by apply bool_decide_eq_true_1 in H.
Qed.

Lemma plugged_in_in s es : select_plugged_in_evse s es ≠ -1 → select_plugged_in_evse s es ∈ es.
Proof. unfold select_plugged_in_evse. case_bool_decide; [apply last_in|apply oldest_in]. Qed.

Lemma choose_spec rs es t :
  leads see (λ s v, Tok rs [] s v ∧ plug_in_or_withdrawn s es t = true) (choose_plugged_in es t)
    (λ c s v, Tok rs [] s v ∧ good_choice es c).
Proof.
  intros s v [HT Hp]. eexists _, s, []. unfold choose_plugged_in. crun. split; [done|]. split; [done|].
  unfold plug_in_or_withdrawn in Hp. destruct (is_authorization_withdrawn s es t); [done|].
  rewrite orb_false_r in Hp. apply negb_true_iff, Z.eqb_neq in Hp. by apply plugged_in_in.
Qed.

Lemma find_first_spec rs es :
  Forall (known D) es → leads see (Tok rs []) (find_first es) (λ c s v, Tok rs [] s v ∧ good_choice es c).
Proof.
  intros Hes s v HT. pose proof HT as (Hr & _). unfold find_first. rewrite bind_get. cbv zeta.
  set (e := get_oldest_plugin s es).
  assert (∃ busy, (if e =? -1 then mret true else clift (evse_at s e) ≫= λ evse, mret (transaction_active evse) : op bool) s
            = (Ret busy, s, []) ∧ (busy = false → e ∈ es)) as (busy & Hb & He).
  { destruct (e =? -1) eqn:Ee; [by exists true|]. apply Z.eqb_neq, oldest_in in Ee.
    rewrite Forall_forall in Hes. destruct (evse_at_ready D s e Hr (Hes e Ee)) as (evse & -> & _).
    by exists (transaction_active evse). }
  destruct busy; cbn [negb].
  - destruct (find_returns D s Hr evse_is_available es Hes) as (r & Hf & Hspec).
    eexists _, s, []. split; [|].
    + erewrite bind_pure by exact Hb. cbn [negb]. rewrite Hf. erewrite bind_pure by reflexivity. done.
    + split; [done|]. destruct r as [e'|]; [apply Hspec|done].
  - eexists _, s, []. split; [by erewrite bind_pure by exact Hb|]. split; [done|by apply He].
Qed.

Lemma wait_plug_in_spec rs es t :
  contract (Tok rs []) (wait_for_plug_in es t)
    (λ a s v, Tok rs [] s v ∧ (a ≠ timed_out → plug_in_or_withdrawn s es t = true)).
Proof.
  unfold wait_for_plug_in. apply tok_get. intros s Hr. destruct (plug_in_or_withdrawn s es t) eqn:Ep.
  - apply serves_ret. intros s1 v [-> HT]. by split.
  - apply tok_forget. eapply serves_conseq; [by apply (tok_wait rs)|done| |done].
    intros a s1 v [HT Hok]. split; [done|]. by destruct a.
Qed.

Lemma plug_spec rs es t s :
  contract (λ s1 v, s1 = s ∧ Tok rs [] s1 v)
    (if select_plugged_in_evse s es =? -1 then
       wait_for_plug_in es t ≫= λ result,
         match result with
         | timed_out => mret {| selected := None; status := TimeOut |}
         | _ => sec (choose_plugged_in es t)
         end
     else sec (choose_plugged_in es t))
    (λ c s v, Tok rs [] s v ∧ good_choice es c).
Proof.
  destruct (_ =? -1) eqn:Ee.
  - apply tok_forget. eapply serves_bind; [apply wait_plug_in_spec|]. intros a.
    destruct a; [..|by apply serves_ret; intros s1 v [HT _]];
      (apply serves_sec, leads_hoare; eapply leads_conseq; [apply (choose_spec rs es t)| |by intros]);
      intros s1 v [HT Hp]; split; auto.
  - apply serves_sec, leads_hoare. eapply leads_conseq; [apply (choose_spec rs es t)| |by intros].
    intros s1 v [-> HT]. split; [done|]. unfold plug_in_or_withdrawn. by rewrite Ee.
Qed.

Lemma select_spec rs es t :
  es ≠ [] → Forall (known D) es →
  contract (Tok rs []) (select_evse es t) (λ c s v, Tok rs [] s v ∧ good_choice es c).
Proof.
  intros Hne Hes. unfold select_evse.
  set (m := sec cget ≫= _ : thread SelectEvseResult).
  assert (contract (Tok rs []) m (λ c s v, Tok rs [] s v ∧ good_choice es c)) as Hm.
  2: { destruct es as [|e [|e' es]]; [done| |exact Hm]. apply tok_ret. intros s v HT. split; [done|by left]. }
  subst m. apply tok_get. intros s Hr. destruct (selection_algorithm s) eqn:Ea.
  - exfalso. by apply (rd_algorithm D s Hr).
  - apply plug_spec.
  - apply plug_spec.
  - apply tok_forget, serves_sec, leads_hoare. by apply find_first_spec.

Qed.

(** ** Notifying an EVSE *)
Lemma wait_task_spec rs e : known D e → contract (Tok rs []) (wait_no_timeout_task e) (λ _, Tok rs []).
Proof.
  intros He. unfold wait_no_timeout_task. apply tok_get. intros s Hr.
  destruct (evse_at_ready D s e Hr He) as (evse & -> & _). apply tok_forget.
  eapply serves_bind; [apply tok_sec; intros T v0; apply base_lift; eauto|]. intros x.
  destruct (timeout_in_progress x); [|by apply tok_ret].
  eapply serves_bind; [by apply (tok_wait rs)|]. intros a. by apply serves_ret; intros s1 v [HT _].
Qed.

Lemma notify_refused rs e p r :
  known D e → v_authorization_status r ≠ auth_Accepted →
  contract (Tok rs []) (notify_evse e p r) (λ _, Tok rs []).
Proof.
  intros He Hr. unfold notify_evse. apply tok_get. intros s Hs.
  destruct (evse_at_ready D s e Hs He) as (evse & -> & _). apply tok_forget.
  eapply serves_bind; [apply tok_sec; intros T v0; apply base_lift; eauto|]. intros x. cbv zeta.
  rewrite bool_decide_eq_false_2 by done. eapply serves_bind; [apply tok_done|].
  intros []. apply serves_tracks. intros s1 v HT. pose proof HT as (Hr1 & _).
  destruct (base_invoke D (shared_of s1) v cb_notify_evse (notify_evse_callback (evse_index x) p r) s1 v)
    as (a & s' & o & E & Hr' & Ht' & Hv); [done|].
  exists a, s', o. split; [done|]. rewrite Hv. destruct HT as (_ & Hproc & Hrest). split_and!; try apply Hrest; [done| |].
  - unfold processing in *. cbn. by rewrite Ht'.
  - cbn. rewrite bool_decide_eq_false_2 by done. rewrite app_nil_r. apply Hrest.
Qed.

Lemma notify_granted rs e index p r :
  D !! e = Some index → v_authorization_status r = auth_Accepted →
  contract (Tok rs []) (notify_evse e p r) (λ _, Tok rs [(index, p, r)]).
Proof.
  intros He Hr. assert (known D e) as Hk by (by eexists). unfold notify_evse. apply tok_get. intros s Hs.
  destruct (evse_at_ready D s e Hs Hk) as (evse & -> & Hl). apply tok_forget.
  eapply serves_bind.
  { apply serves_sec, leads_hoare, (tok_lift rs [] (Ret evse) (λ x, x = evse)). eauto. }
  intros x. apply serves_assume with (x = evse); [by intros s1 v [_ ?]|]. intros ->. cbv zeta.
  rewrite bool_decide_eq_true_2 by done.
  assert (evse_index evse = index) as Hi. { pose proof (ready_index D s e evse Hs Hl). congruence. }
  eapply serves_pre; [|by intros s1 v [HT _]; exact HT].
  eapply serves_bind.
  { eapply serves_bind; [apply tok_sec; intros; by apply base_upd|]. intros [].
    eapply serves_bind; [by apply wait_task_spec|]. intros [].
    eapply serves_bind; [apply tok_sec; intros; apply tracks_bind; [apply _|intros []; by apply base_arm]|].
    intros []. apply tok_sec; intros; apply _. }
  intros []. apply serves_sec, leads_hoare. rewrite Hi. intros s1 v HT. pose proof HT as (Hr1 & Hproc & Hprog & Hg & Hrs).
  destruct (base_invoke D (shared_of s1) v cb_notify_evse (notify_evse_callback index p r) s1 v)
    as (a & s' & o & E & Hr' & Ht' & Hv); [done|].
  exists a, s', o. split; [done|]. rewrite Hv. split_and!; [done| |done| |done].
  - unfold processing in *. cbn. by rewrite Ht'.
  - cbn. by rewrite Hg, bool_decide_eq_true_2.
Qed.

(** ** Checking an accepted result at the selected EVSE *)
Definition checked (e : Z) (p : ProvidedIdToken) (r : ValidationResult)
    (x : bool * ProvidedIdToken * ValidationResult) : Prop :=
  let '(authorized, p2, r2) := x in
  p_id_token p2 = p_id_token p ∧
  if authorized : bool then
    p_connectors p2 = Some [e] ∧ (r2 = r ∨ ∃ id, r2 = set_v_reservation_id (Some id) r) ∧
    (∀ l, v_evse_ids r = Some l → e ∈ l)
  else p2 = p ∧ v_authorization_status r2 ≠ auth_Accepted.

Lemma authorize_at_spec rs e p r :
  leads see (Tok rs []) (authorize_at e p r) (λ x s v, Tok rs [] s v ∧ checked e p r x).
Proof.
  unfold authorize_at. apply leads_get. intros s. cbv zeta. apply leads_forget.
  set (h := reservation_handler s). set (found := Rsv.matches_reserved_identifier h _ _ _).
  destruct (match v_evse_ids r with Some ids => negb (bool_decide (e ∈ ids)) | None => false end) eqn:Ei.
  { by apply leads_ret. }
  assert (∀ l, v_evse_ids r = Some l → e ∈ l) as Hids.
  { intros l Hl. rewrite Hl in Ei. by apply negb_false_iff, bool_decide_eq_true_1 in Ei. }
  eapply (leads_bind _ _ _ _ (λ _, Tok rs [])).
  { destruct found; [by apply leads_ret|]. apply tok_base. intros T v0. apply base_lift.
    destruct (charging_returns h e) as [b ->]. eauto. }
  intros possible. destruct possible; cbn [negb]; [|by apply leads_ret].
  destruct (negb (Rsv.is_evse_reserved h e) && bool_decide (found = None)).
  { apply leads_ret. intros s1 v HT. split; [done|]. do 2 (split; [done|]). split; [by left|done]. }
  destruct found as [id|]; [|by apply leads_ret].
  eapply leads_bind; [apply (tok_base rs []); intros; apply _|]. intros []. apply leads_ret.
  intros s1 v HT. split; [done|]. do 2 (split; [done|]). split; [right; by exists id|done].
Qed.

(** ** The loop over the validation results *)

(** A token the loop may leave: the presented one, with other members changed. *)
Definition same_token (p : ProvidedIdToken) : Prop := p_id_token p = p_id_token p0.

(** The result of handling the token: what was granted fits the result. *)
Definition granted_for (result : TokenHandlingResult) (v : view) : Prop :=
  Forall (justified v) (grants v) ∧
  length (grants v) = (if bool_decide (result = USED_TO_START_TRANSACTION) then 1 else 0)%nat.

Definition Handled (result : TokenHandlingResult) (s : AuthHandler) (v : view) : Prop :=
  ready D s ∧ processing s v ∧ progress v ∧ granted_for result v.

Lemma tok_handled rs result s v : result ≠ USED_TO_START_TRANSACTION → Tok rs [] s v → Handled result s v.
Proof.
  intros Hne (H1 & H2 & H3 & H4 & _). split_and!; [done..|]. split; rewrite H4; [done|].
  by rewrite bool_decide_eq_false_2.
Qed.

Definition loop_post (rs : list ValidationResult) (p : ProvidedIdToken) (x : loop_end) (s : AuthHandler) (v : view) : Prop :=
  match x with
  | returned result p' => same_token p' ∧ result ≠ USED_TO_START_TRANSACTION ∧ Tok rs [] s v
  | ended true p' _ => same_token p' ∧ Handled USED_TO_START_TRANSACTION s v
  | ended false p' last => same_token p' ∧ v_authorization_status last ≠ auth_Accepted ∧ Tok rs [] s v
  end.

Lemma authorize_spec all es rs p last :
  Forall (known D) es → (∀ l e, p_connectors p0 = Some l → e ∈ es → e ∈ l) →
  same_token p → v_authorization_status last ≠ auth_Accepted → rs ⊆ all →
  contract (Tok all []) (authorize es rs p last) (loop_post all p).
Proof.
  intros Hes Hcs. revert p last. induction rs as [|r rs IH]; intros p last Hp Hl Hsub; cbn [authorize].
  { apply tok_ret. intros s v HT. split_and!; done. }
  case_bool_decide as He; [by apply tok_ret|]. case_bool_decide as Ha; cbn [negb].
  2: { eapply serves_conseq; [apply (IH p r Hp Ha); set_solver|done| |done]. by intros []. }
  apply tok_get. intros s Hs. apply tok_forget. destruct (equals_master_pass_group_id s _); [by apply tok_ret|]. cbv zeta.
  set (p1 := match v_parent_id_token r with Some t => set_p_parent_id_token (Some t) p | None => p end).
  assert (same_token p1) as Hp1 by (by subst p1; destruct (v_parent_id_token r)).
  eapply serves_bind; [by apply serves_tracks, tok_accepted|]. intros [].
  eapply serves_bind; [by apply select_spec|]. intros c.
  apply serves_assume with (good_choice es c); [by intros s1 v [_ ?]|]. intros Hc.
  eapply serves_pre; [|by intros s1 v [HT _]; exact HT]. unfold good_choice in Hc.
  destruct (selected c) as [e|]; [|destruct (status c); [done|by apply tok_ret..]].
  eapply serves_bind; [apply serves_sec, leads_hoare, (authorize_at_spec all)|]. intros [[b p2] r2].
  apply serves_assume with (checked e p1 r (b, p2, r2)); [by intros s1 v [_ ?]|]. intros [Hid Hchk].
  eapply serves_pre; [|by intros s1 v [HT _]; exact HT].
  rewrite Forall_forall in Hes. destruct (Hes e Hc) as [index Hi]. destruct b.
  - destruct Hchk as (Hcon & Hr2 & Hids).
    assert (v_authorization_status r2 = auth_Accepted) as Ha2 by (destruct Hr2 as [->|[id ->]]; done).
    eapply serves_bind; [by apply notify_granted|]. intros []. apply serves_ret.
    intros s1 v (H1 & H2 & H3 & H4 & H5). assert (same_token p2) as Hp2 by (unfold same_token; congruence).
    split; [done|]. split_and!; [done..|]. split; rewrite H4; [|done]. constructor; [|done].
    split; [done|]. exists e, r. rewrite Forall_forall in H5. split_and!; [done..|by apply H5; set_solver|done|done|done|].
    intros l Hl0. by eapply Hcs.
  - destruct Hchk as [-> Hr2].
    eapply serves_bind; [apply notify_refused; [by exists index|done]|]. intros [].
    eapply serves_conseq; [apply (IH p1 r2 Hp1 Hr2); set_solver|done| |done]. by intros [].
Qed.

(** ** Tokens that stop a transaction *)
Definition stop_post (x : option (TokenHandlingResult * ProvidedIdToken)) : Prop :=
  match x with
  | Some (result, p') => same_token p' ∧ result ≠ USED_TO_START_TRANSACTION
  | None => True
  end.

Lemma evse_at_lift rs L s e :
  ready D s → known D e →
  leads see (Tok rs L) (clift (evse_at s e) : op _) (λ evse s1 v, Tok rs L s1 v ∧ evses s !! e = Some evse).
Proof.
  intros Hr He. apply tok_lift. intros _ _ _. destruct (evse_at_ready D s e Hr He) as (evse & E & Hl). eauto.
Qed.

(** The state read is a ready one. *)
Lemma tok_get_op {A} rs L (k : AuthHandler → op A) Q :
  (∀ s, ready D s → leads see (Tok rs L) (k s) Q) → leads see (Tok rs L) (cget ≫= k) Q.
Proof.
  intros Hk. apply leads_get. intros s. apply leads_assume with (ready D s); [by intros s1 v [-> [Hr _]]|].
  intros Hr. by apply leads_forget, Hk.
Qed.

Lemma pure_post {A} rs L (m : op A) (φ : Prop) Q :
  (φ → leads see (Tok rs L) m Q) → leads see (λ s v, Tok rs L s v ∧ φ) m Q.
Proof. intros Hm s v [HT Hφ]. by apply (Hm Hφ). Qed.

Lemma stop_by_token_spec rs es p :
  Forall (known D) es → same_token p →
  leads see (Tok rs []) (stop_by_token es p) (λ x s v, Tok rs [] s v ∧ stop_post x).
Proof.
  intros Hes Hp. unfold stop_by_token. destruct (_ || _); [|by apply leads_ret].
  apply tok_get_op. intros s Hr. eapply leads_bind.
  { apply (tok_lift rs [] _ (λ e, e = -1 ∨ e ∈ es ∧ ∃ evse i, evses s !! e = Some evse ∧ identifier evse = Some i)).
    intros _ _ _. destruct (used_returns D s Hr es (value (p_id_token p)) Hes) as (e & -> & [->|(? & evse & i & ? & ? & _)]);
      eauto 10. }
  intros e. apply pure_post. intros [->|(He & evse & i & Hl & Hi)]; [by apply leads_ret|].
  destruct (e =? -1); [by apply leads_ret|]. rewrite Forall_forall in Hes.
  eapply leads_bind; [by apply evse_at_lift; [|apply Hes]|]. intros evse'. apply pure_post. intros Hl'. simplify_eq.
  rewrite Hi. eapply leads_bind; [by apply (tok_lift rs [] (Ret i) (λ x, x = i)); eauto|]. intros x.
  apply pure_post. intros ->. cbv zeta.
  destruct (negb _); [apply leads_ret; intros s1 v HT; split; [done|]; by destruct (parent_id_token i)|].
  eapply leads_bind; [apply (tok_base rs []); intros; by apply base_quiet|]. intros [].
  apply leads_ret. intros s1 v HT. split; [done|]. by destruct (parent_id_token i).
Qed.

Lemma stop_all_spec T v0 es p : Forall (known D) es → Tracks see (Base D T v0) (stop_all_active p es).
Proof.
  induction 1 as [|e es He Hes IH]; cbn; [apply _|]. apply leads_get. intros s.
  eapply leads_conseq; [apply (base_evse_at D T v0 e s _ (λ _, Base D T v0) He)|by intros ? ? [-> ?]|by intros].
  intros evse _. apply base_read. destruct (transaction_active evse); [|apply IH].
  apply tracks_bind; [by apply base_quiet|]. intros []. apply tracks_bind; [apply IH|]. intros l. apply _.
Qed.

Lemma stop_by_parent_spec rs es p r :
  Forall (known D) es → same_token p →
  leads see (Tok rs []) (stop_by_parent_id es p r) (λ x s v, Tok rs [] s v ∧ stop_post x).
Proof.
  intros Hes Hp. unfold stop_by_parent_id. case_bool_decide; [|by apply leads_ret].
  destruct (v_parent_id_token r) as [parent|]; [|by apply leads_ret]. apply tok_get_op. intros s Hr.
  destruct (equals_master_pass_group_id s _).
  { eapply leads_bind; [apply (tok_base rs []); intros; by apply stop_all_spec|]. intros l. by apply leads_ret. }
  eapply leads_bind.
  { apply (tok_lift rs [] _ (λ e, e = -1 ∨ e ∈ es)). intros _ _ _.
    destruct (used_returns D s Hr es (value parent) Hes) as (e & -> & [->|(? & _)]); eauto. }
  intros e. apply pure_post. intros [->|He]; [by apply leads_ret|]. destruct (e =? -1); [by apply leads_ret|]. cbv zeta.
  rewrite Forall_forall in Hes.
  eapply leads_bind; [by apply evse_at_lift; [|apply Hes]|]. intros evse. apply pure_post. intros _.
  destruct (negb (transaction_active evse)); [by apply leads_ret|]. destruct (negb _); [by apply leads_ret|].
  eapply leads_bind; [apply (tok_base rs []); intros; by apply base_quiet|]. intros []. by apply leads_ret.
Qed.

Lemma stop_by_parents_spec rs es p rs' :
  Forall (known D) es → same_token p →
  leads see (Tok rs []) (stop_by_parent_ids es p rs') (λ x s v, Tok rs [] s v ∧ stop_post x).
Proof.
  intros Hes Hp. induction rs' as [|r rs' IH]; cbn; [by apply leads_ret|].
  eapply leads_bind; [by apply (stop_by_parent_spec rs)|]. intros x. apply pure_post. intros Hx.
  destruct x; [by apply leads_ret|apply IH].
Qed.

(** ** Asking the validators, telling of a refusal *)
Lemma validators_spec :
  contract (Tok [] []) (validate_token p0) (λ rs s v, Tok rs [] s v).
Proof.
  unfold validate_token. destruct (default false (p_prevalidated p0)) eqn:Ep.
  { apply tok_ret. intros s v (H1 & H2 & H3 & H4 & _). split_and!; [done..|]. constructor; [|done]. right.
    split; [|done]. by destruct (p_prevalidated p0) as [[]|]. }
  apply tok_get. intros s Hr. rewrite bool_decide_eq_true_2 by apply (rd_callbacks D s Hr). cbn [negb]. apply tok_forget.
  eapply serves_bind.
  { apply serves_wait with (Q := λ a s v, Tok (match a with validated l => l | _ => [] end) [] s v); [done|].
    intros s0 a s1 v HT Hr1 _. destruct (tok_hear [] s0 s1 v (validators p0) a HT Hr1) as (H1 & H2 & H3 & H4 & _).
    split_and!; [done..|]. apply Forall_forall. intros r Hin. left. cbn. apply elem_of_app. by right. }
  intros a. by apply serves_ret.
Qed.

Lemma notify_rejected_spec rs p r :
  v_authorization_status r ≠ auth_Accepted → contract (Tok rs []) (notify_rejected p r) (λ _, Tok rs []).
Proof.
  intros Hr. unfold notify_rejected. destruct (p_connectors p) as [l|]; [|apply tok_done].
  apply serves_for. intros e _. apply tok_get. intros s Hs. apply tok_forget.
  case_bool_decide as He; [|apply tok_done]. apply notify_refused; [|done]. by apply (ready_lookup D s e Hs).
Qed.

(** ** Handling a token *)
Lemma referenced_connectors s l e :
  p_connectors p0 = Some l → e ∈ get_referenced_evses s p0 → e ∈ l.
Proof.
  intros Hl. unfold get_referenced_evses. rewrite Hl, list_elem_of_In, filter_In, list_elem_of_In. tauto.
Qed.

Definition handled_post (x : TokenHandlingResult * ProvidedIdToken) (s : AuthHandler) (v : view) : Prop :=
  same_token x.2 ∧ Handled x.1 s v.

Lemma authorize_all_spec es rs :
  Forall (known D) es → (∀ l e, p_connectors p0 = Some l → e ∈ es → e ∈ l) →
  contract (Tok rs [])
    (authorize es rs p0 (ValidationResult_of auth_Unknown None) ≫= λ result,
      match result with
      | returned r p' => mret (r, p')
      | ended true p' _ => mret (USED_TO_START_TRANSACTION, p')
      | ended false p' v => notify_rejected p' v ≫= λ _, mret (REJECTED, p')
      end) handled_post.
Proof.
  intros Hes Hcs. eapply serves_bind; [by apply (authorize_spec rs)|]. intros [r p'|[] p' r].
  - apply serves_ret. intros s v (Hp & Hr & HT). split; [done|]. by eapply tok_handled.
  - by apply serves_ret.
  - apply serves_assume with (same_token p' ∧ v_authorization_status r ≠ auth_Accepted); [by intros s v (? & ? & _)|].
    intros [Hp Hr]. eapply serves_pre; [|by intros s v (_ & _ & HT); exact HT].
    eapply serves_bind; [by apply (notify_rejected_spec rs)|]. intros []. apply tok_ret. intros s v HT.
    split; [done|]. by eapply tok_handled.
Qed.

(** What follows the answer of the validators. *)
Definition after_validation (referenced : list Z) (p : ProvidedIdToken) (results : list ValidationResult) :
    thread (TokenHandlingResult * ProvidedIdToken) :=
  s ← sec cget;
  available ← sec (clift (any_evse_available s referenced));
  stopped ← sec (if prioritize_authorization_over_stopping_transaction s && available then mret None
                 else stop_by_parent_ids referenced p results);
  match stopped with
  | Some r => mret r
  | None =>
      if negb available then mret (NO_CONNECTOR_AVAILABLE, p)
      else
        free ← sec (clift (without_identifier s referenced));
        match results with
        | [] => mret (REJECTED, p)
        | _ =>
            result ← authorize free results p (ValidationResult_of auth_Unknown None);
            match result with
            | returned r p' => mret (r, p')
            | ended true p' _ => mret (USED_TO_START_TRANSACTION, p')
            | ended false p' v => _ ← notify_rejected p' v; mret (REJECTED, p')
            end
        end
  end.

Lemma tok_lift_sec {A} rs (r : outcome exn A) (φ : A → Prop) :
  (∃ a, r = Ret a ∧ φ a) → contract (Tok rs []) (sec (clift r)) (λ a s v, Tok rs [] s v ∧ φ a).
Proof. intros H. apply serves_sec, leads_hoare, tok_lift. eauto. Qed.

Lemma pure_contract {A} rs (m : thread A) (φ : Prop) Q :
  (φ → contract (Tok rs []) m Q) → contract (λ s v, Tok rs [] s v ∧ φ) m Q.
Proof. intros Hm s v [HT Hφ]. by apply (Hm Hφ). Qed.

Lemma after_validation_spec es rs :
  Forall (known D) es → (∀ l e, p_connectors p0 = Some l → e ∈ es → e ∈ l) →
  contract (Tok rs []) (after_validation es p0 rs) handled_post.
Proof.
  intros Hes Hcs. unfold after_validation. apply tok_get. intros s Hr. apply tok_forget.
  eapply serves_bind.
  { apply (tok_lift_sec rs _ (λ _, True)). destruct (available_returns D s Hr es Hes) as (b & -> & _). eauto. }
  intros available. apply pure_contract. intros _.
  eapply (serves_bind _ _ _ _ _ _ _ _ (λ x s v, Tok rs [] s v ∧ stop_post x)).
  { apply serves_sec, leads_hoare. destruct (_ && _); [by apply leads_ret|by apply stop_by_parents_spec]. }
  intros x. apply pure_contract. intros Hx. destruct x as [[r p']|].
  { apply tok_ret. intros s1 v HT. split; [apply Hx|]. eapply tok_handled; [apply Hx|exact HT]. }
  destruct available; cbn [negb]; [|apply tok_ret; intros s1 v HT; split; [done|by eapply tok_handled]].
  eapply serves_bind.
  { apply (tok_lift_sec rs _ (λ l, l ⊆ es)). rewrite (without_identifier_spec D s Hr es Hes). eexists. split; [done|].
    intros e. rewrite !list_elem_of_In, filter_In. tauto. }
  intros free. apply pure_contract. intros Hfree.
  destruct rs as [|r rs]; [apply tok_ret; intros s1 v HT; split; [done|by eapply tok_handled]|].
  apply authorize_all_spec; [|eauto]. rewrite Forall_forall in *. auto.
Qed.

Lemma handle_token_spec : contract (Tok [] []) (handle_token p0) handled_post.
Proof.
  unfold handle_token. apply tok_get. intros s Hr. cbv zeta. apply tok_forget.
  pose proof (referenced_in D s Hr p0) as Hes.
  eapply serves_bind; [by apply serves_sec, leads_hoare, (stop_by_token_spec [])|]. intros x.
  apply pure_contract. intros Hx. destruct x as [[r p']|].
  { apply tok_ret. intros s1 v HT. split; [apply Hx|]. eapply tok_handled; [apply Hx|exact HT]. }
  eapply serves_bind.
  { apply (tok_lift_sec [] _ (λ _, True)).
    destruct (useless_returns D s Hr (get_referenced_evses s p0) p0 Hes) as (b & ->). eauto. }
  intros useless. apply pure_contract. intros _.
  destruct useless; [apply tok_ret; intros s1 v HT; split; [done|by eapply tok_handled]|].
  eapply serves_bind; [apply validators_spec|]. intros rs.
  apply (after_validation_spec (get_referenced_evses s p0) rs Hes). intros l e. apply referenced_connectors.
Qed.

(** ** The whole of [on_token] *)
Definition final_status (r : TokenHandlingResult) : option TokenValidationStatus :=
  match r with
  | ALREADY_IN_PROCESS => None
  | TIMEOUT => Some TimedOut
  | NO_CONNECTOR_AVAILABLE | REJECTED => Some TokenRejected
  | USED_TO_START_TRANSACTION => Some UsedToStart
  | USED_TO_STOP_TRANSACTION => Some UsedToStop
  | WITHDRAWN => Some TokenWithdrawn
  | USED_TO_REAUTHORIZE => Some UsedToReauthorize
  end.

(** What a thread that handled the token has published, and that it is no longer in
    process; a token that was in process before is left alone. *)
Definition token_done (r : TokenHandlingResult) (s : AuthHandler) (v : view) : Prop :=
  ready D s ∧ granted_for r v ∧ Forall (λ q, p_id_token q.1 = p_id_token p0) (statuses v) ∧
  ((∃ n, (statuses v).*2 = Processing :: replicate n TokenAccepted ++ option_list (final_status r) ∧
         shared_of s = without_token p0 (before v) ∧
         (resumed v = false → value (p_id_token p0) ∉ values (sh_tokens (before v)))) ∨
   r = ALREADY_IN_PROCESS ∧ statuses v = [] ∧ resumed v = false ∧ shared_of s = before v).

Lemma publish_result_spec r p s v :
  same_token p → Handled r s v →
  ∃ s' o, publish_result r p s = (Ret tt, s', o) ∧ s' = s ∧
    ∃ v', v' = foldl see v o ∧ (statuses v').*2 = (statuses v).*2 ++ option_list (final_status r) ∧
      Forall (λ q, p_id_token q.1 = p_id_token p0) (statuses v') ∧ grants v' = grants v ∧
      results_seen v' = results_seen v ∧ before v' = before v ∧ resumed v' = resumed v.
Proof.
  intros Hp (Hr & _ & [Hall _] & _).
  assert (∀ st, publish_token_validation_status p st [] s = (Ret tt, s, [publish_token_validation_status_callback p st []]))
    as Hpub.
  { intros st. unfold publish_token_validation_status, invoke. crun.
    by rewrite bool_decide_eq_true_2 by apply (rd_callbacks D s Hr). }
  destruct r; cbn [publish_result final_status option_list];
    (eexists s, _; split; [first [apply Hpub | reflexivity]|]; split; [done|]; eexists; split; [done|]);
    cbn; rewrite ?fmap_app, ?app_nil_r; split_and!; try done; apply Forall_app; (split; [done|by constructor]).
Qed.

Lemma without_with x : without_token p0 (with_token p0 x) = without_token p0 x.
Proof. unfold without_token, with_token. cbn [sh_tokens sh_tasks sh_mutex]. by rewrite filter_cons_False by auto. Qed.

Lemma erase_shared s : shared_of (st_of (erase_token p0 s)) = without_token p0 (shared_of s).
Proof. done. Qed.

Lemma in_process_values s : in_process s p0 = false → value (p_id_token p0) ∉ values (tokens_in_process s).
Proof.
  unfold in_process, values. intros Hn Hin. apply list_elem_of_fmap in Hin as (q & Hv & Hq).
  apply not_true_iff_false in Hn. apply Hn. apply existsb_exists. exists q.
  split; [by apply list_elem_of_In|]. by apply bool_decide_eq_true_2.
Qed.

Lemma finish_spec r p :
  same_token p →
  leads see (Handled r) (publish_result r p ;; erase_token p0) (λ _, token_done r).
Proof.
  intros Hp s v HH. destruct (publish_result_spec r p s v Hp HH) as (s' & o & E & -> & v' & -> & Hst & Hall & Hg & Hres & Htb & Hre).
  destruct HH as (Hr & Hproc & [_ [n Hn]] & [Hj Hlen]).
  exists tt, (st_of (erase_token p0 s)), (o ++ []). split; [by eapply bind_eq; [exact E|]|]. rewrite app_nil_r. split_and!.
  - split; try apply Hr.
  - split; rewrite Hg; [|done]. eapply Forall_impl; [exact Hj|]. intros [[i q] r'] Hx. unfold justified, given in *.
    by rewrite Hres.
  - done.
  - left. exists n. rewrite Hst, Hn, Htb, Hre. split; [done|]. unfold processing in Hproc.
    rewrite (erase_shared s). destruct (resumed v); [by rewrite Hproc|]. destruct Hproc as [-> Hfresh].
    by rewrite without_with.
Qed.

Lemma on_token_spec :
  contract (λ s v, ready D s ∧ v = fresh s) (on_token p0) token_done.
Proof.
  unfold on_token. eapply serves_get. intros s0.
  apply serves_assume with (ready D s0); [by intros s v [-> [? _]]|]. intros Hr.
  rewrite bool_decide_eq_true_2 by apply (rd_callbacks D s0 Hr). cbn [negb].
  destruct (already_returns D s0 Hr p0 (get_referenced_evses s0 p0) (referenced_in D s0 Hr p0)) as (b & -> & Hb).
  eapply serves_bind with (Q := λ a s v, a = b ∧ s = s0 ∧ v = fresh s0).
  { intros s v (-> & _ & ->). by cbn. }
  intros a. apply serves_assume with (a = b); [by intros s v (? & _)|]. intros ->. destruct b; cbn [negb].
  - eapply serves_bind with (Q := λ _ s v, s = s0 ∧ v = fresh s0); [by intros s v (_ & -> & ->)|]. intros [].
    apply serves_ret. intros s v [-> ->]. split_and!; [done|by split|done|]. by right.
  - eapply serves_bind with (Q := λ _, Tok [] []).
    { apply serves_sec, leads_hoare. intros s v (_ & -> & ->). specialize (Hb eq_refl).
      eexists tt, _, [publish_token_validation_status_callback p0 Processing []]. split.
      - unfold insert_token. rewrite bind_modify. rewrite Hb. unfold publish_token_validation_status, invoke. crun.
        by rewrite bool_decide_eq_true_2 by apply (rd_callbacks D s0 Hr).
      - split_and!; [split; apply Hr| |split; [by repeat constructor|by exists 0%nat]|done|done].
        split; [done|]. by apply in_process_values. }
    intros []. eapply serves_bind; [apply handle_token_spec|]. intros [r p].
    apply serves_assume with (same_token p); [by intros s v [? _]|]. intros Hp.
    eapply serves_bind; [apply serves_sec, leads_hoare; eapply leads_conseq; [by apply (finish_spec r p)|by intros s v [_ HH]|by intros]|].
    intros []. by apply serves_ret.
Qed.

End grant.
End AuthGrant.
