(* ===== verification/AuthRuns.v ===== *)
(** * Every interleaving of the auth handler's threads

    The contracts of the single threads, put together: an invariant of the system that
    every step keeps, and what it says about the trace of a run. *)

From Stdlib Require Import String.
From S2P Require Import Prelude Resume EvseContext Reservation ReservationFacts ReservationInv AuthHandler AuthToken AuthFacts AuthSystem AuthThreads AuthGrant.

Import Evse Auth Token AuthFacts Sys AuthThreads AuthGrant.

Module AuthRuns.

(** ** What a list of observations shows *)
Definition answers_of (l : list obs) : list ValidationResult :=
  l ≫= λ o, match o with Told _ (validated rs) => rs | _ => [] end.

Definition grants_of (l : list obs) : list (Z * ProvidedIdToken * ValidationResult) :=
  l ≫= λ o, match o with
            | Called (notify_evse_callback i p r) =>
                if bool_decide (v_authorization_status r = auth_Accepted) then [(i, p, r)] else []
            | _ => []
            end.

Definition statuses_of (l : list obs) : list (ProvidedIdToken * TokenValidationStatus) :=
  l ≫= λ o, match o with Called (publish_token_validation_status_callback p st _) => [(p, st)] | _ => [] end.

Definition shows (v : view) (l : list obs) : Prop :=
  results_seen v = answers_of l ∧ grants v = grants_of l ∧ statuses v = statuses_of l.

Lemma shows_see v l c : shows v l → shows (see v c) (l ++ [Called c]).
Proof.
  intros (H1 & H2 & H3). unfold shows, answers_of, grants_of, statuses_of in *. rewrite !bind_app.
  destruct c; cbn; rewrite ?app_nil_r, ?H1, ?H2, ?H3; done.
Qed.

Lemma shows_calls v l o : shows v l → shows (foldl see v o) (l ++ (Called <$> o)).
Proof.
  revert v l. induction o as [|c o IH]; intros v l H; cbn; [by rewrite app_nil_r|].
  replace (l ++ Called c :: (Called <$> o)) with ((l ++ [Called c]) ++ (Called <$> o)) by (by rewrite <- app_assoc).
  by apply IH, shows_see.
Qed.

Lemma shows_hear v l w a s : shows v l → shows (hear v w a s) (l ++ [Told w a]).
Proof.
  intros (H1 & H2 & H3). unfold shows, answers_of, grants_of, statuses_of in *. rewrite !bind_app.
  cbn. rewrite ?app_nil_r, ?H1, ?H2, ?H3. done.
Qed.

Lemma of_thread_app i tr tr' : of_thread i (tr ++ tr') = of_thread i tr ++ of_thread i tr'.
Proof. apply omap_app. Qed.

Lemma of_thread_same i l : of_thread i (pair i <$> l) = l.
Proof. induction l as [|o l IH]; [done|]. cbn. rewrite bool_decide_eq_true_2 by done. unfold of_thread in IH. by rewrite IH. Qed.

Lemma of_thread_other i j l : i ≠ j → of_thread j (pair i <$> l) = [].
Proof. intros Hne. induction l as [|o l IH]; [done|]. cbn. by rewrite bool_decide_eq_false_2. Qed.

Section runs.
Context `{!Rsv.DateParser} (D : gmap Z Z).

(** ** The contract of every request *)
Definition guarantee (rq : request) : wait → AuthHandler → view → Prop :=
  match rq with
  | PresentToken p => token_guarantee D p
  | TimerFires task => task_guarantee D (task_evse task)
  | Withdraw _ => withdraw_guarantee D
  | _ => calm_guarantee D
  end.

Definition result_ok (rq : request) (a : reply) (s : AuthHandler) (v : view) : Prop :=
  match rq with
  | PresentToken p => ∃ r, a = token_result r ∧ token_done D p r s v
  | TimerFires task => Quiet D (with_task (task_evse task) false) s v
  | Withdraw _ => Quiet D (with_mutex false) s v
  | _ => Quiet D id s v
  end.

(** Requests the rest of the module makes: for EVSEs that exist, with the data the
    interface promises. *)
Definition valid (rq : request) : Prop :=
  match rq with
  | Session _ ev => valid_session ev
  | FaultRaised e _ | FaultCleared e _ => known D e
  | Initialize _ (Some entries) => Forall entry_ok entries
  | TimerFires task => known D (task_evse task)
  | _ => True
  end.

Lemma quiet_start {A} G Q (f : A → reply) (m : thread A) :
  serves see hear ok G (rely D) (λ s v, Quiet D id s v ∧ resumed v = false) m (λ _, Q) never →
  serves see hear ok G (rely D) (λ s v, ready D s ∧ v = fresh s) (reply_with f m) (λ _, Q) never.
Proof.
  intros Hm. unfold reply_with. eapply serves_bind; [eapply serves_pre; [exact Hm|]|intros a; by apply serves_ret].
  intros s v [Hr ->]. by split_and!.
Qed.

Lemma calm_start {A} (f : A → reply) (m : thread A) :
  serves see hear ok (calm_guarantee D) (rely D) (Quiet D id) m (λ _, Quiet D id) never →
  serves see hear ok (calm_guarantee D) (rely D) (λ s v, ready D s ∧ v = fresh s) (reply_with f m) (λ _, Quiet D id) never.
Proof. intros Hm. apply quiet_start. eapply serves_pre; [exact Hm|by intros s v [? _]]. Qed.

Lemma quietly_start (m : op ()) :
  Tracks see (Quiet D id) m →
  serves see hear ok (calm_guarantee D) (rely D) (λ s v, ready D s ∧ v = fresh s) (quietly m) (λ _, Quiet D id) never.
Proof. intros Hm. apply calm_start. by apply serves_tracks. Qed.

Lemma fault_calm e c ev b :
  known D e → Tracks see (Quiet D id) (cget ≫= λ s, cwhen (b s) (submit_event_for_connector e c ev)).
Proof.
  intros He. apply quiet_base. intros T v0. apply tracks_bind; [apply _|]. intros s. apply tracks_when.
  by apply base_submit.
Qed.

Lemma update_calm u : Tracks see (Quiet D id) (handle_token_validation_result_update u).
Proof.
  unfold handle_token_validation_result_update. cbv zeta. apply leads_get. intros s.
  apply leads_assume with (ready D s); [by intros s1 v [-> (Hr & _)]|]. intros Hr. apply leads_forget.
  destruct (evses s !! u_connector_id u) as [evse|] eqn:El; cbn; [|by apply leads_ret].
  destruct (identifier evse) as [i|]; [|by apply leads_ret].
  apply tracks_bind; [|intros []; apply quiet_publish]. apply quiet_base. intros T v0. apply base_upd; [|done|done].
  apply (ready_lookup D s _ Hr). eauto.
Qed.

Lemma start_ok rq :
  valid rq →
  serves see hear ok (guarantee rq) (rely D) (λ s v, ready D s ∧ v = fresh s) (start rq) (result_ok rq) never.
Proof.
  intros Hv. destruct rq as [p|u|e ev|e c|e c|now r|id'|id'|t e g|w|now loaded|x|x|x|x|x|task];
    cbn [start guarantee result_ok valid] in *.
  - unfold reply_with. eapply serves_bind; [apply on_token_spec|]. intros r. apply serves_ret. intros s v H1. by exists r.
  - apply quietly_start, update_calm.
  - by apply calm_start, session_calm.
  - by apply quietly_start, (fault_calm e c FAULTED_event (λ s, negb (ignore_faults s))).
  - by apply quietly_start, (fault_calm e c ERROR_CLEARED (λ s, negb (ignore_faults s))).
  - by apply calm_start, place_calm.
  - apply calm_start, cancel_calm.
  - apply quietly_start, quiet_base. intros; apply _.
  - apply calm_start, calm_sec. intros; apply _.
  - apply (quiet_start (withdraw_guarantee D) (Quiet D (with_mutex false))), withdraw_spec.
  - apply calm_start, initialize_calm. intros entries ->. exact Hv.
  - by apply quietly_start, quiet_base; intros; apply base_modify.
  - by apply quietly_start, quiet_base; intros; apply base_modify.
  - by apply quietly_start, quiet_base; intros; apply base_modify.
  - by apply quietly_start, quiet_base; intros; apply base_modify.
  - by apply quietly_start, quiet_base; intros; apply base_modify.
  - by apply (quiet_start (task_guarantee D (task_evse task)) (Quiet D (with_task (task_evse task) false))), timeout_spec.
Qed.

(** ** The tokens of the waiting threads *)
Definition token_of (q : nat * (request * act AuthHandler call exn wait answer reply)) : option ProvidedIdToken :=
  match q.2.1 with PresentToken p => Some p | _ => None end.

Definition tokens_of (ts : gmap nat (request * act AuthHandler call exn wait answer reply)) : list ProvidedIdToken :=
  omap token_of (map_to_list ts).

Definition option_token (rq : request) : list ProvidedIdToken :=
  match rq with PresentToken p => [p] | _ => [] end.

Lemma tokens_of_insert ts i rq t :
  ts !! i = None → tokens_of (<[i := (rq, t)]> ts) ≡ₚ option_token rq ++ tokens_of ts.
Proof.
  intros Hi. unfold tokens_of. rewrite map_to_list_insert by done. cbn. unfold token_of at 1. cbn. by destruct rq.
Qed.

Lemma tokens_of_delete ts i rq t :
  ts !! i = Some (rq, t) → tokens_of ts ≡ₚ option_token rq ++ tokens_of (delete i ts).
Proof.
  intros Hi. rewrite <- (insert_delete_id ts i _ Hi) at 1. apply tokens_of_insert. apply lookup_delete_eq.
Qed.

Lemma tokens_of_replace ts i rq t t' :
  ts !! i = Some (rq, t) → tokens_of (<[i := (rq, t')]> ts) ≡ₚ tokens_of ts.
Proof.
  intros Hi. rewrite (tokens_of_delete ts i rq t Hi), <- insert_delete_eq. apply tokens_of_insert, lookup_delete_eq.
Qed.

Lemma filter_out p l l' :
  l ≡ₚ p :: l' → NoDup (values l) →
  filter (λ q, value (p_id_token q) ≠ value (p_id_token p)) l ≡ₚ l'.
Proof.
  intros Hl Hnd. assert (NoDup (values (p :: l'))) as Hnd' by (unfold values in *; by rewrite <- Hl).
  cbn in Hnd'. apply NoDup_cons in Hnd' as [Hp _]. rewrite Hl. rewrite filter_cons_False by auto.
  rewrite list_filter_all; [done|]. intros q Hq E. apply Hp. rewrite <- E.
  by apply (list_elem_of_fmap_2 (λ q, value (p_id_token q))).
Qed.

Lemma filter_absent p l :
  value (p_id_token p) ∉ values l → filter (λ q, value (p_id_token q) ≠ value (p_id_token p)) l = l.
Proof.
  intros Hp. apply list_filter_all. intros q Hq E. apply Hp. rewrite <- E.
  by apply (list_elem_of_fmap_2 (λ q, value (p_id_token q))).
Qed.

(** ** The invariant *)
Definition bound (rq : request) (t : act AuthHandler call exn wait answer reply) (v : view) : Prop :=
  ∃ w k s, t = Wait w k ∧ fulfils see hear ok (guarantee rq) (rely D) (result_ok rq) never t s v.

(** What is seen between the start and the end of a thread. *)
Definition inside (o : obs) : Prop := match o with Told _ _ | Called _ => True | _ => False end.
Definition open (l : list obs) : Prop := Forall inside l.

Lemma open_calls l o : open l → open (l ++ (Called <$> o)).
Proof. intros Hl. apply Forall_app. split; [done|]. apply Forall_fmap. by apply Forall_true. Qed.

Lemma open_elem l o : open l → o ∈ l → inside o.
Proof. unfold open. rewrite Forall_forall. auto. Qed.

(** A finished thread: what it showed. *)
Definition ended_ok (rq : request) (a : reply) (l : list obs) : Prop :=
  ∃ v, shows v l ∧
    match rq with
    | PresentToken p =>
        ∃ r, a = token_result r ∧ granted_for D p r v ∧ Forall (λ q, p_id_token q.1 = p_id_token p) (statuses v) ∧
             ((∃ n, (statuses v).*2 = Processing :: replicate n TokenAccepted ++ option_list (final_status r)) ∨
              r = ALREADY_IN_PROCESS ∧ statuses v = [])
    | _ => grants v = []
    end.

Record Inv (y : system) (tr : list (nat * obs)) : Prop := {
  inv_ready : ready D (handler y);
  inv_fresh i : (next_thread y ≤ i)%nat → threads y !! i = None ∧ of_thread i tr = [];
  inv_running i rq t : threads y !! i = Some (rq, t) →
    ∃ l v, of_thread i tr = Began rq :: l ∧ open l ∧ shows v l ∧ bound rq t v;
  inv_ended i : (i < next_thread y)%nat → threads y !! i = None →
    ∃ rq l a, of_thread i tr = Began rq :: l ++ [Ended (Ret a)] ∧ open l ∧ ended_ok rq a l;
  inv_tokens : tokens_in_process (handler y) ≡ₚ tokens_of (threads y);
  inv_distinct : NoDup (values (tokens_in_process (handler y)));
  inv_tasks e : e ∈ tasks (evses (handler y)) →
    ∃ i task k, threads y !! i = Some (TimerFires task, Wait relock k) ∧ task_evse task = e;
  inv_mutex : withdraw_mutex (handler y) = true →
    ∃ i w wt k, threads y !! i = Some (Withdraw w, Wait wt k) ∧ wt ≠ withdraw_lock;
}.

Lemma inv_init s : ready D s → shared_of s = {| sh_tokens := []; sh_tasks := ∅; sh_mutex := false |} → Inv (system_of s) [].
Proof.
  intros Hr [= Ht Hk Hm]. split; cbn; [done|done|done|lia| | | |].
  - by rewrite Ht.
  - rewrite Ht. constructor.
  - rewrite Hk. set_solver.
  - by rewrite Hm.
Qed.

Lemma done_ended rq a s v l : shows v l → result_ok rq a s v → ended_ok rq a l.
Proof.
  intros Hs Hr. exists v. split; [done|]. destruct rq; try apply Hr.
  destruct Hr as (r & -> & _ & Hg & Hall & [(n & Hn & _)|(Er & Hst & _)]); exists r.
  - eauto 6.
  - split_and!; eauto.
Qed.

Lemma done_ready rq a s v : result_ok rq a s v → ready D s.
Proof. destruct rq; [intros (? & _ & [? _])|intros [? _]..]; done. Qed.

(** A section that ends the thread, or suspends it. *)
Inductive section_end (rq : request) (v : view) (s : AuthHandler) :
    outcome exn (act AuthHandler call exn wait answer reply) → Prop :=
| section_done a : result_ok rq a s v → section_end rq v s (Ret (Done a))
| section_wait w k : guarantee rq w s v → bound rq (Wait w k) v → section_end rq v s (Ret (Wait w k)).

Lemma section_of rq v r s :
  match r with
  | Ret t => fulfils see hear ok (guarantee rq) (rely D) (result_ok rq) never t s v
  | _ => False
  end → section_end rq v s r.
Proof.
  destruct r as [[a|w k]|x|]; [|intros Hf..|done|done]; [by constructor|]. constructor; [apply Hf|].
  by exists w, k, s.
Qed.

(** ** Steps *)
Lemma before_calls v o : before (foldl see v o) = before v ∧ resumed (foldl see v o) = resumed v.
Proof.
  revert v. induction o as [|c o IH]; intros v; [done|]. cbn. destruct (IH (see v c)) as [-> ->].
  by destruct c.
Qed.

(** What a section does to what is shared, if the thread waits again. *)
Lemma wait_effect rq w s v :
  guarantee rq w s v →
  (tokens_in_process s = (if resumed v then [] else option_token rq) ++ sh_tokens (before v) ∧
   (resumed v = false → ∀ p, rq = PresentToken p → value (p_id_token p) ∉ values (sh_tokens (before v)))) ∧
  (∀ e, e ∈ tasks (evses s) → e ∈ sh_tasks (before v) ∨ ∃ task, rq = TimerFires task ∧ task_evse task = e ∧ w = relock) ∧
  (withdraw_mutex s = true → sh_mutex (before v) = true ∨ ∃ x, rq = Withdraw x ∧ w = relock) ∧
  (∀ task, rq = TimerFires task → w = relock ∨ resumed v = false) ∧
  (∀ x, rq = Withdraw x → w ≠ withdraw_lock ∨ resumed v = false).
Proof.
  intros Hg. assert (∀ f, shared_of s = f (before v) →
    tokens_in_process s = sh_tokens (f (before v)) ∧ tasks (evses s) = sh_tasks (f (before v)) ∧
    withdraw_mutex s = sh_mutex (f (before v))) as Hsh by (by intros f <-).
  destruct rq; cbn [guarantee option_token] in Hg;
    try (destruct Hg as [(_ & Hf & _) Hw]; destruct (Hsh (λ x, x) Hf) as (-> & -> & ->); destruct (resumed v); cbn; naive_solver).
  - destruct Hg as [(_ & Hp & _) Hw]. unfold processing in Hp. cbn [option_token]. destruct (resumed v).
    + destruct (Hsh (λ x, x) Hp) as (-> & -> & ->). cbn. naive_solver.
    + destruct Hp as [Hp Hfr]. destruct (Hsh _ Hp) as (-> & -> & ->). cbn. naive_solver.
  - destruct w; cbn in Hg; try done.
    + destruct Hg as (_ & Hf & _). destruct (Hsh (λ x, x) Hf) as (-> & -> & ->). destruct (resumed v); cbn; naive_solver.
    + destruct Hg as (Hre & _ & Hf & _). destruct (Hsh (λ x, x) Hf) as (-> & -> & ->). rewrite Hre. cbn. naive_solver.
    + destruct Hg as (_ & Hf & _). destruct (Hsh _ Hf) as (-> & -> & ->). destruct (resumed v); cbn; naive_solver.
  - destruct w; cbn in Hg; try done.
    + destruct Hg as (_ & Hf & _). destruct (Hsh _ Hf) as (-> & -> & ->). cbn [sh_tokens sh_tasks sh_mutex with_task].
      split_and!; [by destruct (resumed v)|done| |naive_solver|naive_solver|naive_solver].
      intros e. rewrite elem_of_union, elem_of_singleton. intros [->|He]; [right; eauto|by left].
    + destruct Hg as (-> & _ & Hre & _ & Hf & _). destruct (Hsh (λ x, x) Hf) as (-> & -> & ->). rewrite Hre. cbn. naive_solver.
Qed.

(** The same if it ends. *)
Lemma done_effect rq a s v :
  result_ok rq a s v →
  (tokens_in_process s = sh_tokens (before v) ∧ (resumed v = true → option_token rq = []) ∨
   ∃ p, rq = PresentToken p ∧ tokens_in_process s = sh_tokens (without_token p (before v)) ∧
        (resumed v = false → value (p_id_token p) ∉ values (sh_tokens (before v)))) ∧
  (∀ e, e ∈ tasks (evses s) → e ∈ sh_tasks (before v) ∧ ∀ task, rq = TimerFires task → task_evse task ≠ e) ∧
  (withdraw_mutex s = true → sh_mutex (before v) = true ∧ ∀ x, rq ≠ Withdraw x).
Proof.
  intros Hr. assert (∀ f, shared_of s = f (before v) →
    tokens_in_process s = sh_tokens (f (before v)) ∧ tasks (evses s) = sh_tasks (f (before v)) ∧
    withdraw_mutex s = sh_mutex (f (before v))) as Hsh by (by intros f <-).
  destruct rq; cbn [result_ok option_token] in Hr;
    try (destruct Hr as (_ & Hf & _); destruct (Hsh _ Hf) as (-> & -> & ->); cbn; naive_solver).
  - destruct Hr as (r & _ & _ & _ & _ & [(n & _ & Hf & Hfr)|(_ & _ & Hre & Hf)]).
    + destruct (Hsh _ Hf) as (-> & -> & ->). cbn [sh_tasks sh_mutex without_token]. split_and!; [right; eauto|naive_solver|naive_solver].
    + destruct (Hsh (λ x, x) Hf) as (-> & -> & ->). rewrite Hre. cbn. naive_solver.
  - destruct Hr as (_ & Hf & _). destruct (Hsh _ Hf) as (-> & -> & ->). cbn [sh_tokens sh_tasks sh_mutex with_task].
    split_and!; [by left|set_solver|naive_solver].
Qed.

Section step.
Context (y : system) (tr : list (nat * obs)) (HI : Inv y tr).

(** Thread [i], started now or waiting, runs a section for [rq]. *)
Context (i n : nat) (rq : request).
Definition entered (again : bool) : Prop :=
  if again then n = next_thread y ∧ ∃ t, threads y !! i = Some (rq, t)
  else n = S (next_thread y) ∧ i = next_thread y.

Lemma entered_absent : entered false → threads y !! i = None.
Proof. intros [_ ->]. by apply (inv_fresh y tr HI). Qed.

Lemma wait_tokens again s' v w t :
  entered again → guarantee rq w s' v → before v = shared_of (handler y) → resumed v = again →
  tokens_in_process s' ≡ₚ tokens_of (<[i := (rq, t)]> (threads y)) ∧ NoDup (values (tokens_in_process s')).
Proof.
  intros He Hg Hb Hre. pose proof (inv_tokens y tr HI) as Ht. pose proof (inv_distinct y tr HI) as Hnd.
  destruct (proj1 (wait_effect rq w s' v Hg)) as [-> Hfresh]. rewrite Hb, Hre in *. cbn [sh_tokens shared_of] in *.
  destruct again; cbn.
  - destruct He as [_ [t0 Hi]]. rewrite (tokens_of_replace _ _ _ _ t Hi). done.
  - rewrite tokens_of_insert by (by apply entered_absent). split; [by rewrite Ht|]. unfold values in *.
    rewrite fmap_app. destruct rq; try exact Hnd. cbn. apply NoDup_cons. split; [|done]. by apply Hfresh.
Qed.

Lemma done_tokens again s' v a :
  entered again → result_ok rq a s' v → before v = shared_of (handler y) → resumed v = again →
  tokens_in_process s' ≡ₚ tokens_of (delete i (threads y)) ∧ NoDup (values (tokens_in_process s')).
Proof.
  intros He Hr Hb Hre. pose proof (inv_tokens y tr HI) as Ht. pose proof (inv_distinct y tr HI) as Hnd.
  pose proof (proj1 (done_effect rq a s' v Hr)) as Heff. rewrite Hb, Hre in Heff. cbn [sh_tokens shared_of without_token] in Heff.
  assert (tokens_in_process s' ≡ₚ tokens_of (delete i (threads y))) as Hs.
  { assert (again = false → delete i (threads y) = threads y) as Hdel.
    { intros ->. by apply delete_id, entered_absent. }
    assert (again = true → tokens_in_process (handler y) ≡ₚ option_token rq ++ tokens_of (delete i (threads y))) as Hold.
    { intros ->. destruct He as [_ [t Hi]]. rewrite Ht. by apply tokens_of_delete with t. }
    destruct Heff as [[-> Hno]|(p & -> & -> & Hfresh)]; destruct again.
    - by rewrite Hold, Hno.
    - by rewrite Ht, Hdel.
    - by apply filter_out; [apply Hold|].
    - rewrite filter_absent by auto. by rewrite Ht, Hdel. }
  split; [done|]. unfold values in *. rewrite Hs. destruct again.
  - destruct He as [_ [t Hi]]. rewrite Ht, (tokens_of_delete _ _ _ _ Hi), fmap_app in Hnd. by apply NoDup_app in Hnd as (_ & _ & ?).
  - rewrite delete_id by (by apply entered_absent). by rewrite <- Ht.
Qed.

(** The thread of a task that runs, and the one that holds the mutex. *)
Lemma wait_holders again s' v w k :
  entered again → guarantee rq w s' v → before v = shared_of (handler y) → resumed v = again →
  (∀ e, e ∈ tasks (evses s') →
     ∃ j task k', (<[i := (rq, Wait w k)]> (threads y)) !! j = Some (TimerFires task, Wait relock k') ∧ task_evse task = e) ∧
  (withdraw_mutex s' = true →
     ∃ j x wt k', (<[i := (rq, Wait w k)]> (threads y)) !! j = Some (Withdraw x, Wait wt k') ∧ wt ≠ withdraw_lock).
Proof.
  intros He Hg Hb Hre. destruct (wait_effect rq w s' v Hg) as (_ & Hk & Hm & Hagain & Hagain'). rewrite Hb, Hre in *. split.
  - intros e Hin. destruct (Hk e Hin) as [Hold|(task & -> & Hte & ->)].
    + destruct (inv_tasks y tr HI e Hold) as (j & task & k' & Hj & Hte). destruct (decide (i = j)) as [<-|Hne].
      * destruct again; [|by rewrite entered_absent in Hj]. destruct He as [_ [t Hi]]. rewrite Hi in Hj. simplify_eq.
        exists i, task, k. rewrite lookup_insert_eq. destruct (Hagain task eq_refl) as [->|]; done.
      * exists j, task, k'. by rewrite lookup_insert_ne.
    + exists i, task, k. by rewrite lookup_insert_eq.
  - intros Hin. destruct (Hm Hin) as [Hold|(x & -> & ->)].
    + destruct (inv_mutex y tr HI Hold) as (j & x & wt & k' & Hj & Hwt). destruct (decide (i = j)) as [<-|Hne].
      * destruct again; [|by rewrite entered_absent in Hj]. destruct He as [_ [t Hi]]. rewrite Hi in Hj. simplify_eq.
        exists i, x, w, k. rewrite lookup_insert_eq. destruct (Hagain' x eq_refl); done.
      * exists j, x, wt, k'. by rewrite lookup_insert_ne.
    + exists i, x, relock, k. by rewrite lookup_insert_eq.
Qed.

Lemma done_holders again s' v a :
  entered again → result_ok rq a s' v → before v = shared_of (handler y) → resumed v = again →
  (∀ e, e ∈ tasks (evses s') →
     ∃ j task k', delete i (threads y) !! j = Some (TimerFires task, Wait relock k') ∧ task_evse task = e) ∧
  (withdraw_mutex s' = true →
     ∃ j x wt k', delete i (threads y) !! j = Some (Withdraw x, Wait wt k') ∧ wt ≠ withdraw_lock).
Proof.
  intros He Hr Hb Hre. destruct (done_effect rq a s' v Hr) as (_ & Hk & Hm). rewrite Hb in *.
  assert (∀ rq' t', threads y !! i = Some (rq', t') → rq' = rq) as Hsame.
  { intros rq' t' Hi'. destruct again; [|by rewrite entered_absent in Hi']. destruct He as [_ [t Hi]]. congruence. }
  split.
  - intros e Hin. destruct (Hk e Hin) as [Hold Hne].
    destruct (inv_tasks y tr HI e Hold) as (j & task & k' & Hj & Hte). exists j, task, k'.
    rewrite lookup_delete_ne; [done|]. intros <-. apply (Hne task); [|done]. by apply Hsame in Hj.
  - intros Hin. destruct (Hm Hin) as [Hold Hne]. destruct (inv_mutex y tr HI Hold) as (j & x & wt & k' & Hj & Hwt).
    exists j, x, wt, k'. rewrite lookup_delete_ne; [done|]. intros <-. apply (Hne x). by apply Hsame in Hj.
Qed.

Lemma section_inv again extra l v s' r o :
  entered again → of_thread i tr ++ extra = Began rq :: l → open l → shows v l →
  before v = shared_of (handler y) → resumed v = again →
  section_end rq (foldl see v o) s' r → ready D s' →
  let '(y', tr') := after_section i n rq (threads y) (r, s', o) in Inv y' (tr ++ (pair i <$> extra) ++ tr').
Proof.
  intros He Hl Ho Hs Hb Hre Hend Hr'. pose proof (open_calls l o Ho) as Ho'. destruct (before_calls v o) as [Hb' Hre'].
  rewrite <- Hb' in Hb. rewrite <- Hre' in Hre. pose proof (shows_calls v l o Hs) as Hs'.
  assert (∀ j, i ≠ j → ∀ tr', of_thread j (tr ++ (pair i <$> extra) ++ (pair i <$> tr')) = of_thread j tr) as Hother.
  { intros j Hj tr'. by rewrite !of_thread_app, !of_thread_other, !app_nil_r. }
  assert (∀ tr', of_thread i (tr ++ (pair i <$> extra) ++ (pair i <$> tr')) = Began rq :: l ++ tr') as Hself.
  { intros tr'. rewrite !of_thread_app, !of_thread_same, app_assoc. by rewrite Hl. }
  assert ((i < n)%nat ∧ (next_thread y ≤ n)%nat ∧ ∀ j, (j < n)%nat → j ≠ i → (j < next_thread y)%nat) as (Hin & Hn & Hlt).
  { destruct again; [destruct He as [-> [t Hi]]|destruct He as [-> ->]; split_and!; intros; lia].
    split_and!; [|lia|by intros].
    destruct (decide (i < next_thread y)%nat); [done|]. pose proof (proj1 (inv_fresh y tr HI i ltac:(lia))). congruence. }
  destruct Hend as [a Hres|w k Hg Hbd]; cbn [after_section].
  - rewrite <- list_fmap_singleton, <- fmap_app. destruct (done_tokens again _ _ a He Hres Hb Hre) as [Ht Hnd].
    destruct (done_holders again _ _ a He Hres Hb Hre) as [Hk Hm].
    split; cbn; [done| | | |done|done|done|done].
    + intros j Hj. rewrite Hother by lia. rewrite lookup_delete_ne by lia. apply (inv_fresh y tr HI). lia.
    + intros j rq' t. rewrite lookup_delete_Some. intros [Hne Hj]. rewrite Hother by done. by apply (inv_running y tr HI).
    + intros j Hj. destruct (decide (i = j)) as [<-|Hne].
      * intros _. exists rq, (l ++ (Called <$> o)), a. rewrite Hself, <- app_assoc. split_and!; [done|done|]. by eapply done_ended.
      * rewrite lookup_delete_ne, Hother by done. apply (inv_ended y tr HI). by apply Hlt.
  - destruct (wait_tokens again _ _ w (Wait w k) He Hg Hb Hre) as [Ht Hnd].
    destruct (wait_holders again _ _ w k He Hg Hb Hre) as [Hk Hm].
    split; cbn; [done| | | |done|done|done|done].
    + intros j Hj. rewrite Hother by lia. rewrite lookup_insert_ne by lia. apply (inv_fresh y tr HI). lia.
    + intros j rq' t. rewrite lookup_insert_Some. intros [[<- [= <- <-]]|[Hne Hj]].
      * exists (l ++ (Called <$> o)), (foldl see v o). by rewrite Hself.
      * rewrite Hother by done. by apply (inv_running y tr HI).
    + intros j Hj. destruct (decide (i = j)) as [<-|Hne]; [by rewrite lookup_insert_eq|].
      rewrite lookup_insert_ne, Hother by done. apply (inv_ended y tr HI). by apply Hlt.
Qed.
End step.

Lemma guarantee_ready rq w s v : guarantee rq w s v → ready D s ∧ grants v = [].
Proof.
  destruct rq; cbn [guarantee]; try (intros [(Hr & _ & Hg) _]; by split).
  - intros [(Hr & _ & _ & Hg & _) _]. by split.
  - destruct w; cbn; try done; [intros (Hr & _ & Hg)|intros (_ & Hr & _ & Hg)|intros (Hr & _ & Hg)]; by split.
  - destruct w; cbn; try done; [intros (Hr & _ & Hg)|intros (_ & _ & _ & Hr & _ & Hg)]; by split.
Qed.

Lemma section_ready rq v s r : section_end rq v s r → ready D s.
Proof. intros [a Hres|w k Hg _]; [by eapply done_ready|]. by eapply guarantee_ready. Qed.

Lemma section_run rq v run :
  match run with
  | (Ret t, s2, o) => fulfils see hear ok (guarantee rq) (rely D) (result_ok rq) never t s2 (foldl see v o)
  | (Throw x, s2, o) => never (Some x) s2 (foldl see v o)
  | (Undef, s2, o) => never None s2 (foldl see v o)
  end → section_end rq (foldl see v run.2) run.1.2 run.1.1.
Proof. destruct run as [[[t|x|] s2] o]; [exact (section_of rq _ (Ret t) s2)|done|done]. Qed.

Lemma begin_inv y tr rq s y' tr' :
  Inv y tr → valid rq → ready D s → shared_of s = shared_of (handler y) →
  begin_thread rq s y = (y', tr') → Inv y' (tr ++ tr').
Proof.
  intros HI Hv Hr Ht Hb. unfold begin_thread in Hb.
  pose proof (section_run rq (fresh s) _ (start_ok rq Hv s (fresh s) (conj Hr eq_refl))) as Hend.
  destruct (start rq s) as [[r s'] o]. cbn in Hend.
  pose proof (section_inv y tr HI (next_thread y) (S (next_thread y)) rq false [Began rq] [] (fresh s) s' r o) as Hsec.
  destruct (after_section _ _ _ _ _) as [y1 tr1]. injection Hb as <- <-.
  apply Hsec; clear Hsec; [done| |apply Forall_nil_2|done|done|done|done|by eapply section_ready].
  by rewrite (proj2 (inv_fresh y tr HI (next_thread y) ltac:(lia))).
Qed.

Lemma resume_inv y tr i a rq w k y' tr' :
  Inv y tr → threads y !! i = Some (rq, Wait w k) → may_resume w a (handler y) = true →
  after_section i (next_thread y) rq (threads y) (k a (handler y)) = (y', tr') →
  Inv y' (tr ++ (i, Told w a) :: tr').
Proof.
  intros HI Hi Hok Ha. destruct (inv_running y tr HI i rq _ Hi) as (l & v & Hl & Ho & Hs & (w' & k' & s0 & [= <- <-] & _ & Hk)).
  pose proof (section_run rq (hear v w a (handler y)) _ (Hk a (handler y) (inv_ready y tr HI) Hok)) as Hend.
  destruct (k a (handler y)) as [[r s'] o]. cbn in Hend.
  pose proof (section_inv y tr HI i (next_thread y) rq true [Told w a] (l ++ [Told w a]) (hear v w a (handler y)) s' r o) as Hsec.
  destruct (after_section _ _ _ _ _) as [y1 tr1]. simplify_eq.
  apply Hsec; clear Hsec; [split; eauto|by rewrite Hl| |by apply shows_hear|done|done|done|by eapply section_ready].
  apply Forall_app. split; [done|by repeat constructor].
Qed.

Definition valid_step (k : step_kind) : Prop := match k with Start rq => valid rq | _ => True end.

Lemma step_inv y tr k y' tr' : Inv y tr → valid_step k → sys_step y k = Some (y', tr') → Inv y' (tr ++ tr').
Proof.
  intros HI Hv Hstep. destruct k as [rq|i a|e]; cbn [sys_step valid_step] in *.
  - assert (begin_thread rq (handler y) y = (y', tr')) as Hb by (destruct rq; by simplify_eq).
    eapply begin_inv; [done|done|apply HI|done|done].
  - destruct (threads y !! i) as [[rq [?|w k]]|] eqn:Hi; [done| |done].
    destruct (may_resume w a (handler y)) eqn:Hok; [|done].
    destruct (after_section _ _ _ _ _) as [y1 tr1] eqn:Ha. simplify_eq. by eapply resume_inv.
  - destruct (timeout_timers (handler y) !! e) as [task|] eqn:He; [|done].
    destruct (rd_timers D _ (inv_ready y tr HI) e task He) as [Htask Hk].
    eapply (begin_inv y tr (TimerFires task) (set_timeout_timers (delete e (timeout_timers (handler y))) (handler y)));
      [exact HI| | |reflexivity|congruence].
    + cbn. by rewrite Htask.
    + split; try apply (inv_ready y tr HI). intros x t. cbn. rewrite lookup_delete_Some. intros [_ H'].
      by apply (rd_timers D _ (inv_ready y tr HI)).
Qed.

Lemma run_inv ks y tr y' tr' :
  Inv y tr → Forall valid_step ks → sys_run y ks = Some (y', tr') → Inv y' (tr ++ tr').
Proof.
  revert y tr tr'. induction ks as [|k ks IH]; intros y tr tr' HI Hv Hrun; cbn in Hrun.
  { simplify_eq. by rewrite app_nil_r. }
  apply Forall_cons in Hv as [Hk Hks]. destruct (sys_step y k) as [[y1 tr1]|] eqn:Es; cbn in Hrun; [|done].
  destruct (sys_run y1 ks) as [[y2 tr2]|] eqn:Er; cbn in Hrun; [|done]. simplify_eq. rewrite app_assoc.
  eapply IH; [by eapply step_inv|done|done].
Qed.

(** ** Runs from a handler without threads *)
Definition run_from (s : AuthHandler) (ks : list step_kind) (y : system) (tr : list (nat * obs)) : Prop :=
  ready D s ∧ shared_of s = {| sh_tokens := []; sh_tasks := ∅; sh_mutex := false |} ∧ Forall valid_step ks ∧ sys_run (system_of s) ks = Some (y, tr).

Lemma run_from_inv s ks y tr : run_from s ks y tr → Inv y tr.
Proof. intros (Hr & Ht & Hv & Hrun). by apply (run_inv ks (system_of s) [] y tr (inv_init s Hr Ht)). Qed.

Lemma elem_of_thread i o tr : (i, o) ∈ tr ↔ o ∈ of_thread i tr.
Proof.
  unfold of_thread. rewrite list_elem_of_omap. split.
  - intros H'. exists (i, o). split; [done|]. cbn. by rewrite bool_decide_eq_true_2.
  - intros ([j o'] & Hin & E). cbn in E. case_bool_decide; by simplify_eq.
Qed.

(** What a thread that appears in the trace was started for and has shown. *)
Lemma thread_view y tr i o :
  Inv y tr → (i, o) ∈ tr →
  ∃ rq l v, of_thread i tr = Began rq :: l ∧ shows v l ∧
    ((∃ t, threads y !! i = Some (rq, t) ∧ open l ∧ ∃ w s, guarantee rq w s v) ∨
     ∃ l' a, l = l' ++ [Ended (Ret a)] ∧ open l' ∧ ended_ok rq a l').
Proof.
  intros HI Hin. apply elem_of_thread in Hin.
  destruct (decide (i < next_thread y)%nat) as [Hlt|Hge].
  2: { rewrite (proj2 (inv_fresh y tr HI i ltac:(lia))) in Hin. by apply elem_of_nil in Hin. }
  destruct (threads y !! i) as [[rq t]|] eqn:Hi.
  - destruct (inv_running y tr HI i rq t Hi) as (l & v & Hl & Ho & Hs & (w & k & s & -> & Hg & _)).
    exists rq, l, v. split_and!; [done|done|]. left. exists (Wait w k). split_and!; [done|done|]. by exists w, s.
  - destruct (inv_ended y tr HI i Hlt Hi) as (rq & l & a & Hl & Ho & Hok). pose proof Hok as (v & Hs & _).
    exists rq, (l ++ [Ended (Ret a)]), v. split_and!; [done| |right; eauto 6].
    destruct Hs as (H1 & H2 & H3). unfold shows, answers_of, grants_of, statuses_of in *. rewrite !bind_app.
    cbn. by rewrite !app_nil_r.
Qed.

Lemma grants_of_elem index p r l :
  v_authorization_status r = auth_Accepted → Called (notify_evse_callback index p r) ∈ l → (index, p, r) ∈ grants_of l.
Proof.
  intros Hr Hin. unfold grants_of. apply list_elem_of_bind. eexists. split; [|exact Hin].
  cbn. rewrite bool_decide_eq_true_2 by done. by left.
Qed.

(** C13: an EVSE is only authorized for a presented token that a validator accepted.
    Whatever requests run at the same time, and however they interleave: when an EVSE is
    told that a token is accepted, this is done by a thread that was started by
    presenting that token; one of the validation results the validators gave to that
    thread accepts it (or the token was presented as prevalidated), and the EVSE is told
    that result, with the reservation that is used filled in; the EVSE is one that the
    result allows and that the presented token names, if it names any. *)
Theorem authorized_only_if_accepted s ks y tr i index p r :
  run_from s ks y tr → (i, Called (notify_evse_callback index p r)) ∈ tr →
  v_authorization_status r = auth_Accepted →
  ∃ p0 e r0,
    (i, Began (PresentToken p0)) ∈ tr ∧ p_id_token p = p_id_token p0 ∧
    (r0 ∈ answers_of (of_thread i tr) ∨
     p_prevalidated p0 = Some true ∧ r0 = ValidationResult_of auth_Accepted (p_parent_id_token p0)) ∧
    v_authorization_status r0 = auth_Accepted ∧ (r = r0 ∨ ∃ id, r = set_v_reservation_id (Some id) r0) ∧
    D !! e = Some index ∧ p_connectors p = Some [e] ∧
    (∀ l, v_evse_ids r0 = Some l → e ∈ l) ∧ (∀ l, p_connectors p0 = Some l → e ∈ l).
Proof.
  intros Hrun Hin Hr. pose proof (run_from_inv s ks y tr Hrun) as HI.
  destruct (thread_view y tr i _ HI Hin) as (rq & l & v & Hl & Hs & Hcase). apply elem_of_thread in Hin.
  assert ((i, Began rq) ∈ tr) as Hb by (apply elem_of_thread; rewrite Hl; by left).
  rewrite Hl in Hin. apply elem_of_cons in Hin as [|Hin]; [done|].
  destruct Hcase as [(t & _ & _ & w & s0 & Hg)|(l' & a & -> & _ & (v' & Hs' & Hok))].
  - exfalso. pose proof (proj2 (guarantee_ready rq w s0 v Hg)) as Hnone.
    pose proof (grants_of_elem index p r l Hr Hin) as Hx. rewrite <- (proj1 (proj2 Hs)), Hnone in Hx.
    by apply elem_of_nil in Hx.
  - apply elem_of_app in Hin as [Hin|Hin]; [|by apply list_elem_of_singleton in Hin].
    pose proof (grants_of_elem index p r l' Hr Hin) as Hx. rewrite <- (proj1 (proj2 Hs')) in Hx.
    assert (∃ p0, rq = PresentToken p0) as [p0 ->].
    { destruct rq; eauto; rewrite Hok in Hx; by apply elem_of_nil in Hx. }
    destruct Hok as (res & -> & [Hj _] & _). rewrite Forall_forall in Hj.
    destruct (Hj _ Hx) as (Hp & e & r0 & H1 & H2 & H3 & H4 & H5 & H6 & H7).
    exists p0, e, r0. split_and!; try done. destruct H3 as [H3|H3]; [left|by right].
    rewrite Hl. rewrite (proj1 Hs') in H3. unfold answers_of in *. cbn. rewrite bind_app. apply elem_of_app. by left.
Qed.

(** C15: tokens are processed once, and the handler never fails. In every run from a
    handler that is ready ([ready]: callbacks registered, a selection algorithm other
    than UserInput, consistent reservations) and has nothing in process, and with valid
    requests ([valid]: faults and timers of EVSEs the handler has, session events with
    their data, readable stored reservations), no thread ends with an exception or
    undefined behaviour; the tokens in process are exactly those of the threads that wait
    in the middle of handling a presented token, and no two of them are equal; so nothing
    blocks a later presentation of a token that has been dealt with. *)
Theorem tokens_processed_once s ks y tr :
  run_from s ks y tr →
  (∀ i out, (i, Ended out) ∈ tr → ∃ a, out = Ret a) ∧
  tokens_in_process (handler y) ≡ₚ tokens_of (threads y) ∧
  NoDup (values (tokens_in_process (handler y))).
Proof.
  intros Hrun. pose proof (run_from_inv s ks y tr Hrun) as HI. split_and!; [|apply HI|apply HI].
  intros i out Hin. destruct (thread_view y tr i _ HI Hin) as (rq & l & v & Hl & Hs & Hcase).
  apply elem_of_thread in Hin. rewrite Hl in Hin. apply elem_of_cons in Hin as [|Hin]; [done|].
  destruct Hcase as [(t & _ & Ho & _)|(l' & a & -> & Ho & _)]; [by apply (open_elem _ _ Ho) in Hin|].
  apply elem_of_app in Hin as [Hin|Hin]; [by apply (open_elem _ _ Ho) in Hin|]. apply list_elem_of_singleton in Hin.
  simplify_eq. eauto.
Qed.

(** The statuses published for a token are in order and tell the truth.  A thread
    that has dealt with a presented token has published, for that token only:
    Processing, then Accepted for each validation result it tried to use, then the
    status of its result; nothing at all if the token was in process already.  It has
    told exactly one EVSE that the token is accepted if its result is
    USED_TO_START_TRANSACTION, and none otherwise. *)
Lemma token_statuses_in_order s ks y tr i p out :
  run_from s ks y tr → (i, Began (PresentToken p)) ∈ tr → (i, Ended out) ∈ tr →
  ∃ r, out = Ret (token_result r) ∧
    Forall (λ q, p_id_token q.1 = p_id_token p) (statuses_of (of_thread i tr)) ∧
    ((∃ n, (statuses_of (of_thread i tr)).*2 =
             Processing :: replicate n TokenAccepted ++ option_list (final_status r)) ∨
     r = ALREADY_IN_PROCESS ∧ statuses_of (of_thread i tr) = []) ∧
    length (grants_of (of_thread i tr)) = (if bool_decide (r = USED_TO_START_TRANSACTION) then 1 else 0)%nat.
Proof.
  intros Hrun Hp Hin. pose proof (run_from_inv s ks y tr Hrun) as HI.
  destruct (thread_view y tr i _ HI Hin) as (rq & l & v & Hl & Hs & Hcase).
  apply elem_of_thread in Hin, Hp. rewrite Hl in Hin, Hp. apply elem_of_cons in Hin as [|Hin]; [done|].
  destruct Hcase as [(t & _ & Ho & _)|(l' & a & -> & Ho & (v' & Hs' & Hok))]; [by apply (open_elem _ _ Ho) in Hin|].
  assert (out = Ret a) as ->.
  { apply elem_of_app in Hin as [Hin|Hin]; [by apply (open_elem _ _ Ho) in Hin|]. apply list_elem_of_singleton in Hin. by simplify_eq. }
  assert (rq = PresentToken p) as ->.
  { apply elem_of_cons in Hp as [Hp|Hp]; [by simplify_eq|]. apply elem_of_app in Hp as [Hp|Hp].
    - by apply (open_elem _ _ Ho) in Hp.
    - by apply list_elem_of_singleton in Hp. }
  destruct Hok as (r & -> & [_ Hlen] & Hall & Hst). destruct Hs' as (_ & Hg & Hstat).
  assert (grants_of (of_thread i tr) = grants v' ∧ statuses_of (of_thread i tr) = statuses v') as [-> ->].
  { rewrite Hl, Hg, Hstat. unfold grants_of, statuses_of. cbn. rewrite !bind_app. cbn. by rewrite !app_nil_r. }
  exists r. split_and!; done.
Qed.

(** ** Somebody can always go on *)
Section progress.
Context (y : system) (tr : list (nat * obs)) (HI : Inv y tr).

Definition can_go_on : Prop := ∃ i a, is_Some (sys_step y (Resume i a)).

Lemma resume_can i rq w k a :
  threads y !! i = Some (rq, Wait w k) → may_resume w a (handler y) = true → can_go_on.
Proof. intros Hi Ha. exists i, a. cbn. rewrite Hi, Ha. by destruct (after_section _ _ _ _ _). Qed.

(** A thread that waits for the timeout task of an EVSE. *)
Lemma flag_can i rq w k e :
  threads y !! i = Some (rq, Wait w k) → known D e → w = no_timeout_task e ∨ w = timer_thread e → can_go_on.
Proof.
  intros Hi He Hw. apply (ready_lookup D _ e (inv_ready y tr HI)) in He as [evse Hl].
  destruct (timeout_in_progress evse) eqn:Ef.
  - destruct (inv_tasks y tr HI e) as (j & task & k' & Hj & _); [apply elem_of_tasks; eauto|]. by eapply (resume_can j _ _ _ notified).
  - eapply (resume_can i _ _ _ notified); [done|]. destruct Hw as [-> | ->]; cbn; by rewrite Hl, Ef.
Qed.

Lemma token_can i p w k : threads y !! i = Some (PresentToken p, Wait w k) → token_wait D w → can_go_on.
Proof.
  intros Hi Hw. destruct w as [q|es t|e|x| | |e]; cbn in Hw; try done.
  - by eapply (resume_can i _ _ _ (validated [])).
  - destruct (plug_in_or_withdrawn (handler y) es t) eqn:Ep.
    + by eapply (resume_can i _ _ _ notified).
    + eapply (resume_can i _ _ _ timed_out); [done|]. cbn. by rewrite Ep.
  - eapply (flag_can i); [done|done|by left].
Qed.

Lemma bound_wait i rq t :
  threads y !! i = Some (rq, t) → ∃ w k s v, t = Wait w k ∧ guarantee rq w s v.
Proof. intros Hi. destruct (inv_running y tr HI i rq t Hi) as (l & v & _ & _ & _ & (w & k & s & -> & Hg & _)). by exists w, k, s, v. Qed.

Lemma withdraw_can i x w k s v :
  threads y !! i = Some (Withdraw x, Wait w k) → withdraw_guarantee D w s v → w ≠ withdraw_lock → can_go_on.
Proof.
  intros Hi Hg Hw. destruct w as [q|es t|e|rq'| | |e]; cbn in Hg; try done; [|by eapply (resume_can i _ _ _ notified)].
  destruct (targets_token_in_process (handler y) rq') eqn:Et.
  - assert (∃ p, p ∈ tokens_in_process (handler y)) as [p Hp].
    { unfold targets_token_in_process in Et. apply existsb_exists in Et as (p & Hp & _). exists p. by apply list_elem_of_In. }
    rewrite (inv_tokens y tr HI) in Hp. unfold tokens_of in Hp. apply list_elem_of_omap in Hp as ([j [rq t]] & Hj & Hrq).
    apply elem_of_map_to_list in Hj. unfold token_of in Hrq. cbn in Hrq. destruct rq; try done. simplify_eq.
    destruct (bound_wait j _ t Hj) as (w' & k' & s' & v' & -> & [_ Hw']). by eapply token_can.
  - eapply (resume_can i _ _ _ notified); [done|]. cbn. by rewrite Et.
Qed.

Lemma thread_can i rq t : threads y !! i = Some (rq, t) → can_go_on.
Proof.
  intros Hi. destruct (bound_wait i rq t Hi) as (w & k & s & v & -> & Hg).
  assert (plain_wait D w → can_go_on) as Hplain.
  { destruct w; cbn; try done; [|intros _; by eapply (resume_can i _ _ _ notified)].
    intros He. eapply (flag_can i); [done|done|by left]. }
  destruct rq; cbn [guarantee] in Hg; try (destruct Hg as [_ Hw]; by apply Hplain).
  - destruct Hg as [_ Hw]. by eapply token_can.
  - assert (w = withdraw_lock ∨ w ≠ withdraw_lock) as [->|Hne] by (destruct w; auto); [|by eapply withdraw_can].
    destruct (withdraw_mutex (handler y)) eqn:Em; [|eapply (resume_can i _ _ _ notified); [done|]; cbn; by rewrite Em].
    destruct (inv_mutex y tr HI Em) as (j & x & wt & k' & Hj & Hwt).
    destruct (bound_wait j _ _ Hj) as (w' & k'' & s' & v' & [= -> ->] & Hg'). by eapply withdraw_can.
  - destruct w; cbn in Hg; try done; [by eapply (resume_can i _ _ _ notified)|].
    destruct Hg as (-> & Hk & _). eapply (flag_can i); [done|done|by right].
Qed.
End progress.

(** C14: the threads never block each other for good.  In every run of valid requests, as
    long as a thread waits there is one that can go on: the lock of the withdrawals, the
    waits for timeout tasks, for plug ins and for tokens in process never form a
    deadlock. *)
Theorem threads_never_deadlock s ks y tr :
  run_from s ks y tr → threads y ≠ ∅ → ∃ i a, is_Some (sys_step y (Resume i a)).
Proof.
  intros Hrun Hne. pose proof (run_from_inv s ks y tr Hrun) as HI.
  destruct (map_choose _ Hne) as (i & [rq t] & Hi). by eapply (thread_can y tr HI).
Qed.

End runs.
End AuthRuns.
