(* ===== verification/AuthReserve.v ===== *)
(** * Authorizations and reservations together

    What the auth handler decides at the selected EVSE, in terms of the reservations
    held; that a car authorized without a reservation does not cost anybody a
    reservation when it starts charging; which authorizations a withdrawal reaches. *)

From Stdlib Require Import String.
From S2P Require Import Prelude Resume EvseContext Reservation ReservationFacts ReservationInv AuthHandler AuthToken AuthFacts.

Import Evse Auth Token AuthFacts.

Module AuthReserve.

Section reserve.
Context (D : gmap Z Z).

(** ** The decision at the selected EVSE *)

(** The reservation the token may use at an EVSE. *)
Definition usable_reservation (s : AuthHandler) (e : Z) (p : ProvidedIdToken) (r : ValidationResult) : option Z :=
  Rsv.matches_reserved_identifier (reservation_handler s) (value (p_id_token p)) (Some e)
    (value <$> v_parent_id_token r).

Definition allowed_at (e : Z) (r : ValidationResult) : Prop := ∀ l, v_evse_ids r = Some l → e ∈ l.

Lemma allowed_bool e r :
  match v_evse_ids r with Some ids => negb (bool_decide (e ∈ ids)) | None => false end = false ↔ allowed_at e r.
Proof.
  unfold allowed_at. destruct (v_evse_ids r) as [l|]; [|naive_solver].
  rewrite negb_false_iff, bool_decide_eq_true. naive_solver.
Qed.

Lemma used_run id s :
  ready D s → ∃ o, rsv (Rsv.on_reservation_used id) s =
    (Ret tt, set_reservation_handler (without [id] (reservation_handler s)) s, o) ∧ Forall (λ c, ∃ l, c = call_store l) o.
Proof.
  intros Hr. unfold rsv, Rsv.on_reservation_used.
  destruct (cancel_eq id false Rsv.UsedToStartCharging (reservation_handler s) (rd_wf D s Hr)) as (res & E & _).
  eexists. erewrite (bind_eq _ _ _ _ _ _ _ _ _ E) by reflexivity. split; [done|]. rewrite app_nil_r.
  unfold cancel_out, store_out. case_bool_decide; [|constructor]. cbn. rewrite app_nil_r.
  destruct (Rsv.store _); repeat constructor. by eexists.
Qed.

(** C16: an authorization is granted at the selected EVSE exactly if the validation
    result allows that EVSE and either the token (or its parent token) has a reservation
    for it, or the EVSE is free to charge.  With a reservation, that reservation and no
    other is given up, and the EVSE is told its id; without one nothing changes, and
    every reservation held can still be honoured once the EVSE is taken, in every order
    of arrival.  A refusal changes nothing. *)
Theorem authorization_respects_reservations s e p r :
  ready D s → v_authorization_status r = auth_Accepted →
  ∃ b p2 r2 s' o, authorize_at e p r s = (Ret (b, p2, r2), s', o) ∧
    (b = true ↔ allowed_at e r ∧
       (is_Some (usable_reservation s e p r) ∨ Rsv.is_charging_possible (reservation_handler s) e = Ret true)) ∧
    (b = true → p_connectors p2 = Some [e] ∧ v_authorization_status r2 = auth_Accepted) ∧
    (b = false → p2 = p ∧ s' = s ∧ o = [] ∧ v_authorization_status r2 ≠ auth_Accepted) ∧
    (∀ id, b = true → usable_reservation s e p r = Some id →
       s' = set_reservation_handler (without [id] (reservation_handler s)) s ∧ v_reservation_id r2 = Some id) ∧
    (b = true → usable_reservation s e p r = None →
       s' = s ∧ r2 = r ∧ ∀ order, order ≡ₚ Rsv.type_of <$> Rsv.global_reservations (reservation_handler s) →
         ¬ strands (eligible (reservation_handler s) (Rsv.evse_reservations (reservation_handler s))) [e] order).
Proof.
  intros Hr Ha. unfold authorize_at. rewrite bind_get. cbv zeta. fold (usable_reservation s e p r).
  set (h := reservation_handler s).
  destruct (match v_evse_ids r with Some ids => negb (bool_decide (e ∈ ids)) | None => false end) eqn:Ei.
  { assert (¬ allowed_at e r) as Hn by (intros H%allowed_bool; congruence).
    eexists false, p, _, s, []. split; [done|]. naive_solver. }
  apply allowed_bool in Ei. destruct (usable_reservation s e p r) as [id|] eqn:Eu.
  - rewrite bind_ret. cbn [negb]. rewrite andb_false_r.
    destruct (used_run id s Hr) as (o & E & _).
    eexists true, _, _, _, _. split; [by eapply bind_eq; [exact E|]|]. split_and!; [|done|done| |done].
    + split; [intros _; split; [done|left; eauto]|done].
    + by intros id' _ [= <-].
  - destruct (charging_leaves_reservations_served h e) as (b & Hb & Hspec). rewrite Hb.
    erewrite bind_pure by reflexivity. destruct b; cbn [negb].
    + destruct (proj1 Hspec eq_refl) as (_ & Hnr & _ & Hord).
      assert (Rsv.is_evse_reserved h e = false) as ->.
      { unfold Rsv.is_evse_reserved. rewrite Hnr. by apply bool_decide_eq_false_2; intros []. }
      rewrite bool_decide_eq_true_2 by done. cbn.
      eexists true, _, r, s, []. split; [done|]. split_and!; [naive_solver|done|done|done|]. done.
    + eexists false, p, _, s, []. split; [done|]. split_and!; [|done|done|done|done].
      split; [done|]. intros [_ [[? [=]]|[=]]].
Qed.

(** ** A car that starts charging *)

(** The second loop cancels nothing if everything can be honoured. *)
Lemma check_global_none h l res kept :
  servable h (Rsv.type_of <$> kept ++ l) res → Rsv.check_global_reservations h l res kept = Ret [].
Proof.
  revert kept. induction l as [|r l IH]; intros kept Hs; cbn; [done|].
  assert (servable h (types_with kept (Rsv.r_connector_type r)) res) as Hp.
  { eapply servable_fewer; [exact Hs|]. rewrite fmap_app. unfold types_with. apply submseteq_app; [done|].
    cbn. destruct (Rsv.r_connector_type r) as [t|] eqn:Et; cbn; [|apply submseteq_nil_l].
    unfold Rsv.type_of at 1. rewrite Et. cbn. apply submseteq_skip, submseteq_nil_l. }
  apply possible_servable in Hp. rewrite Hp. cbn. apply IH. by rewrite <- app_assoc.
Qed.

Lemma plugged_not_eligible h res e evse car :
  Rsv.evses h !! e = Some evse → plugged_in evse = true → ¬ eligible h res e car.
Proof.
  intros He Hp (evse' & He' & Ht). unfold Rsv.takes in Ht. rewrite !andb_true_iff, !bool_decide_eq_true in Ht.
  destruct Ht as [[Ht _] _]. unfold Rsv.get_evse_connector_state_reservation_result in Ht. by rewrite He, Hp in Ht.
Qed.

(** The EVSE of the car that charges counts as taken. *)
Lemma charging_served h e evse :
  Rsv.is_charging_possible h e = Ret true → plugged_in evse = true →
  let h' := Rsv.set_evses (<[e := evse]> (Rsv.evses h)) h in
  servable h' (Rsv.type_of <$> Rsv.global_reservations h) (Rsv.evse_reservations h) ∧
  Rsv.evse_reservations h !! e = None.
Proof.
  intros Hc Hp h'. destruct (charging_leaves_reservations_served h e) as (b & Hb & Hspec).
  rewrite Hc in Hb. injection Hb as <-. destruct (proj1 Hspec eq_refl) as ([evse0 He] & Hnr & Hn & Hord).
  split; [|done]. split.
  - rewrite length_fmap. cbn. rewrite map_size_insert_Some by eauto. lia.
  - intros order Ho Hst. apply (Hord order Ho). revert Hst. apply strands_transfer. intros x car.
    destruct (decide (x = e)) as [->|Hne].
    + split; [intros [_ Hne]; destruct Hne; by left|]. intros [Hel _]. exfalso.
      eapply (plugged_not_eligible h'); [apply lookup_insert_eq|exact Hp|exact Hel].
    + rewrite (eligible_local h h') by (cbn; by rewrite lookup_insert_ne). set_solver.
Qed.

(** Changes of an EVSE, seen by the reservation handler. *)
Definition with_evse_at (e : Z) (evse : EVSEContext) (s : AuthHandler) : AuthHandler :=
  set_evses (<[e := evse]> (evses s)) s.

Lemma upd_run e g s evse :
  evses s !! e = Some evse → upd_evse e g s = (Ret tt, with_evse_at e (g evse) s, []).
Proof. intros He. unfold upd_evse. crun. unfold evse_at. by rewrite He. Qed.

Lemma with_evse_twice e evse evse' s : with_evse_at e evse' (with_evse_at e evse s) = with_evse_at e evse' s.
Proof. unfold with_evse_at, set_evses, evses. cbn. by rewrite insert_insert_eq. Qed.

Lemma with_evse_lookup e evse s : evses (with_evse_at e evse s) !! e = Some evse.
Proof. unfold with_evse_at, set_evses, evses. cbn. apply lookup_insert_eq. Qed.

Lemma check_nothing s e evse :
  ready D s → Rsv.is_charging_possible (reservation_handler s) e = Ret true → plugged_in evse = true →
  let s' := with_evse_at e evse s in
  check_reservations_and_cancel_if_not_possible s' = (Ret tt, s', []).
Proof.
  intros Hr Hc Hp s'. destruct (charging_served _ e evse Hc Hp) as [Hs Hnr].
  unfold check_reservations_and_cancel_if_not_possible. rewrite bind_get. cbv zeta.
  assert (wf (reservation_handler s')) as Hwf by apply wf_replace_evse, Hr.
  rewrite (check_evse_keeps (reservation_handler s') _ ∅ Hwf).
  2: by intros x r; rewrite elem_of_items. 2: apply map_empty_subseteq. 2: left; by apply elem_of_items.
  erewrite bind_pure by reflexivity. cbv beta. rewrite check_global_none by exact Hs.
  by erewrite bind_pure by reflexivity.
Qed.

Lemma submit_plugged s e c ev evse :
  ready D s → plugged_in evse = true → Rsv.is_charging_possible (reservation_handler s) e = Ret true →
  ∃ cs, submit_event_for_connector e c ev (with_evse_at e evse s) = (Ret tt, with_evse_at e (set_connectors cs evse) s, []).
Proof.
  intros Hr Hp Hc. unfold submit_event_for_connector. rewrite bind_get. unfold evse_at. rewrite with_evse_lookup.
  erewrite bind_pure by reflexivity. destruct (Rsv.submit_to_connector c ev (connectors evse)) as [cs st].
  exists cs. rewrite bind_modify. fold (with_evse_at e (set_connectors cs evse) (with_evse_at e evse s)).
  rewrite with_evse_twice.
  destruct st as [st|]; [|done]. unfold on_connector_state_changed. case_bool_decide; [done|]. rewrite bind_get.
  rewrite with_evse_lookup. destruct (Rsv.find_connector _ c); [|done].
  destruct (charging_served _ e (set_connectors cs evse) Hc Hp) as [_ Hnr].
  unfold with_evse_at at 1, set_evses. cbn [reservation_handler set_reservation_handler Rsv.evse_reservations Rsv.set_evses].
  rewrite Hnr. by apply check_nothing.
Qed.

(** Calls that do not cancel a reservation. *)
Definition harmless (c : call) : Prop :=
  match c with
  | reservation_cancelled_callback _ id _ _ => id = -1
  | reserved_callback _ id _ => id = -1
  | _ => False
  end.

Definition same_reservations (h h' : Rsv.ReservationHandler) : Prop :=
  Rsv.evse_reservations h' = Rsv.evse_reservations h ∧ Rsv.global_reservations h' = Rsv.global_reservations h ∧
  Rsv.timers h' = Rsv.timers h.

Lemma updates_run s :
  (∀ c, c ∈ registered s) →
  ∃ s' o, check_evse_reserved_and_send_updates s = (Ret tt, s', o) ∧
          same_reservations (reservation_handler s) (reservation_handler s') ∧ Forall harmless o.
Proof.
  set (I := λ (x : AuthHandler) (v : list call),
    (∀ c, c ∈ registered x) ∧ same_reservations (reservation_handler s) (reservation_handler x) ∧ Forall harmless v).
  intros Hreg. cut (Tracks (λ v c, v ++ [c]) I check_evse_reserved_and_send_updates).
  { intros Ht. destruct (Ht s []) as ([] & s' & o & E & _ & Hs & Ho); [by split_and!|].
    exists s', o. split_and!; [done|apply Hs..|]. revert Ho.
    assert (∀ l k : list call, foldl (λ v c, v ++ [c]) l k = l ++ k) as ->; [|done].
    intros l k. revert l. induction k as [|x k IH]; intros l; cbn; [by rewrite app_nil_r|]. by rewrite IH, <- app_assoc. }
  assert (∀ c o, harmless o → Tracks (λ v c, v ++ [c]) I (invoke c o)) as Hinv.
  { intros c o Ho x v (H1 & H2 & H3). exists tt, x, [o]. unfold invoke. crun. rewrite bool_decide_eq_true_2 by done.
    split; [done|]. split_and!; [done|apply H2..|]. apply Forall_app. by split; [|constructor]. }
  unfold check_evse_reserved_and_send_updates. apply tracks_bind.
  { intros x v (H1 & H2 & H3). unfold rsv, Rsv.check_number_global_reservations_match_number_available_evses,
      Rsv.get_evse_global_reserved_status_and_set_new_status. rewrite bind_get. cbv zeta.
    case_decide; [|destruct (reserved_by_type_returns (reservation_handler x) (Rsv.available_evses (reservation_handler x))
      (Rsv.global_reservations (reservation_handler x))) as [l ->]; erewrite bind_pure by reflexivity];
      (eexists _, _, []; split; [reflexivity|]; split_and!; [done|apply H2..|done]). }
  intros st. apply tracks_bind; [apply tracks_for; intros e; by apply Hinv|]. intros [].
  apply tracks_for. intros e. apply tracks_bind; [apply _|]. intros x. apply tracks_when.
  apply tracks_bind; [|intros; apply _]. unfold ask_reserved. apply tracks_bind; [by apply Hinv|]. intros [].
  apply tracks_bind; [apply _|]. intros x'. apply tracks_bind; [|intros; apply _].
  apply tracks_modify. intros z v (H1 & H2 & H3). by split_and!; [|apply H2..|].
Qed.

(** A car authorized without a reservation costs nobody a reservation.  If a car may
    charge at an EVSE (which is what an authorization without a reservation requires) and
    its transaction starts there, then the handler keeps every reservation and cancels
    none; the only reservation calls are those that mark EVSEs as needed by the
    reservations without an EVSE, or no longer needed. *)
Lemma authorized_car_costs_no_reservation s e evse ev :
  ready D s → 0 < e → 0 < default 1 (ev_connector_id ev) → event ev = TransactionStarted →
  evses s !! e = Some evse → timeout_in_progress evse = false →
  Rsv.is_charging_possible (reservation_handler s) e = Ret true →
  ∃ s' o, handle_session_event e ev s = (Ret (Done tt), s', o) ∧
    same_reservations (reservation_handler s) (reservation_handler s') ∧ Forall harmless o.
Proof.
  intros Hr He Hcid Hev Hl Hflag Hc. unfold handle_session_event, session_event. rewrite Hev.
  set (c := default 1 (ev_connector_id ev)) in *.
  set (evse1 := set_transaction_active true (set_plugged_in true evse)).
  destruct (submit_plugged s e c TRANSACTION_STARTED evse1 Hr eq_refl Hc) as (cs & Hsub).
  set (s2 := with_evse_at e (set_connectors cs evse1) s) in *.
  destruct (updates_run (set_timeout_timers (delete e (timeout_timers s2)) s2)) as (s' & o & Hup & Hsame & Ho).
  { apply Hr. }
  exists s', o. split_and!; [|apply Hsame..|done].
  rewrite (pbind_silent _ _ s s s) by by apply sec_done. cbv zeta.
  rewrite (proj2 (Z.leb_gt e 0)), (proj2 (Z.leb_gt c 0)), Hl by lia.
  rewrite bool_decide_eq_false_2 by done. cbn [orb].
  rewrite (pbind_silent _ _ s true (set_timeout_timers (delete e (timeout_timers s2)) s2)).
  - rewrite <- (app_nil_r o). eapply pbind_done; [apply sec_done; exact Hup|]. done.
  - rewrite (pbind_silent _ _ s tt s2).
    2: { apply sec_done. erewrite bind_silent by (by apply upd_run).
         erewrite bind_silent by (apply upd_run, with_evse_lookup). rewrite with_evse_twice. exact Hsub. }
    rewrite (pbind_silent _ _ s2 tt s2).
    2: { unfold wait_no_timeout_task. rewrite (pbind_silent _ _ s2 s2 s2) by by apply sec_done.
         rewrite (pbind_silent _ _ s2 (set_connectors cs evse1) s2).
         - cbn. by rewrite Hflag.
         - apply sec_done. unfold evse_at. subst s2. by rewrite with_evse_lookup. }
    by rewrite (pbind_silent _ _ s2 tt (set_timeout_timers (delete e (timeout_timers s2)) s2)) by by apply sec_done.
Qed.

(** ** Withdrawals *)

(** What an EVSE is told, and what is published, when its authorization is withdrawn. *)
Definition withdraw_calls (evse : EVSEContext) : list call :=
  if transaction_active evse then
    [stop_transaction_callback (evse_index evse) {| reason := DeAuthorized; id_tag := None |}]
  else
    withdraw_authorization_callback (evse_index evse) ::
    match identifier evse with
    | Some i =>
        [publish_token_validation_status_callback
           {| p_request_id := None; p_id_token := id_token i; p_parent_id_token := parent_id_token i;
              p_authorization_type := identifier_type i; p_connectors := Some [evse_id evse];
              p_prevalidated := None; p_certificate := None |} TokenWithdrawn []]
    | None => []
    end.

Lemma withdraw_one_run s evse :
  (∀ c, c ∈ registered s) → withdraw_authorization_or_stop_transaction evse s = (Ret tt, s, withdraw_calls evse).
Proof.
  intros Hc. unfold withdraw_authorization_or_stop_transaction, withdraw_calls, publish_token_validation_status, invoke.
  destruct (transaction_active evse); [|destruct (identifier evse)]; crun; by rewrite !bool_decide_eq_true_2 by done.
Qed.

Lemma withdraw_all_run s l :
  (∀ c, c ∈ registered s) → cfor l withdraw_authorization_or_stop_transaction s = (Ret tt, s, l ≫= withdraw_calls).
Proof.
  intros Hc. induction l as [|evse l IH]; [done|]. cbn [cfor mbind list_bind].
  eapply bind_eq; [by apply withdraw_one_run|exact IH].
Qed.

(** A withdrawal reaches exactly the granted authorizations it names: the EVSEs of the
    request (all of them if it names none) whose identifier has the token of the request
    (any token if it names none).  At each of them a running transaction is stopped;
    otherwise the authorization is withdrawn and the token published as withdrawn.  The
    answer is Accepted if there is such an EVSE, and else what it was before. *)
Lemma withdrawal_reaches_named_authorizations s w r :
  ready D s → (∀ e, w_evse_id w = Some e → known D e) →
  ∃ granted,
    withdraw_granted w r s =
      (Ret (match granted with [] => r | _ => WithdrawAccepted end), s, granted ≫= withdraw_calls) ∧
    (∀ evse, evse ∈ granted ↔
       ∃ e i, evses s !! e = Some evse ∧ (w_evse_id w = None ∨ w_evse_id w = Some e) ∧ identifier evse = Some i ∧
              ∀ t, w_id_token w = Some t → equal_token t (id_token i) = true).
Proof.
  intros Hr Hw. unfold withdraw_granted. rewrite bind_get.
  assert (∃ targets, (match w_evse_id w with
                      | Some e => clift (evse_at s e) ≫= λ evse, mret [evse]
                      | None => mret (items (evses s)).*2
                      end : op (list EVSEContext)) s = (Ret targets, s, []) ∧
            ∀ evse, evse ∈ targets ↔ ∃ e, evses s !! e = Some evse ∧ (w_evse_id w = None ∨ w_evse_id w = Some e))
    as (targets & Ht & Hspec).
  { destruct (w_evse_id w) as [e|].
    - destruct (evse_at_ready D s e Hr (Hw e eq_refl)) as (evse & -> & Hl). exists [evse]. split; [done|].
      intros x. rewrite list_elem_of_singleton. split; [intros ->; eauto|].
      intros (e' & He' & [?|[= <-]]); [done|congruence].
    - eexists. split; [done|]. intros x. rewrite list_elem_of_fmap. split.
      + intros ([e y] & -> & Hin%elem_of_items). eauto.
      + intros (e & He & _). exists (e, x). by rewrite elem_of_items. }
  rewrite (bind_pure _ _ _ _ Ht). cbv zeta. exists (List.filter (withdraws w) targets). split.
  - rewrite <- (app_nil_r (_ ≫= withdraw_calls)). eapply bind_eq; [apply withdraw_all_run, Hr|done].
  - intros x. rewrite list_elem_of_In, filter_In, <- list_elem_of_In, Hspec. unfold withdraws. split.
    + intros [(e & He & Hn) Hx]. exists e. destruct (identifier x) as [i|]; [|done]. exists i. split_and!; [done..|].
      intros t Et. by rewrite Et in Hx.
    + intros (e & i & He & Hn & Hi & Hx). split; [eauto|]. rewrite Hi. destruct (w_id_token w); [by apply Hx|done].
Qed.

End reserve.
End AuthReserve.
