(* ===== verification/AuthDemo.v ===== *)
(** * Concrete runs of the auth handler

    Two EVSEs, all callbacks registered.  Runs in which the main statements apply, and
    runs that show where the handler does something else than its comments say. *)

From Stdlib Require Import String.
From S2P Require Import Prelude Resume EvseContext Reservation ReservationFacts ReservationInv ReservationRestart AuthHandler AuthToken AuthFacts AuthSystem AuthThreads AuthGrant AuthRuns AuthReserve.

Import Evse Auth Token AuthFacts Sys AuthThreads AuthRuns AuthReserve.

Module AuthDemo.

#[local] Existing Instance demo_dates.

Definition all_callbacks : list callback :=
  [cb_notify_evse; cb_withdraw_authorization; cb_validate_token; cb_stop_transaction; cb_reserved;
   cb_reservation_cancelled; cb_publish_token_validation_status].

(** What [Auth::ready] does: the EVSEs, then the callbacks. *)
Definition set_up : op () :=
  init_evse 1 0 [Connector_new 1 cType2] ;; init_evse 2 1 [Connector_new 1 cCCS2] ;;
  cfor all_callbacks register_callback ;; register_reservation_cancelled_callback.

Definition demo_handler (algorithm : SelectionAlgorithm) : AuthHandler :=
  st_of (set_up (AuthHandler_new algorithm 60 true false false true true)).

Definition demo_indices : gmap Z Z := {[1 := 0; 2 := 1]}.

Lemma demo_ready algorithm : algorithm ≠ UserInput → ready demo_indices (demo_handler algorithm).
Proof.
  intros Ha. split.
  - intros c. apply list_elem_of_In. destruct c; vm_compute; tauto.
  - done.
  - done.
  - by vm_compute.
  - destruct (wf_new (evses (demo_handler algorithm)) true). by split.
  - intros e task. change (timeout_timers (demo_handler algorithm)) with (∅ : gmap Z timeout_task). by rewrite lookup_empty.
Qed.

Definition rfid (id : string) : ProvidedIdToken :=
  {| p_request_id := None; p_id_token := {| value := id; token_type := ISO14443; additional_info := [] |};
     p_parent_id_token := None; p_authorization_type := RFID; p_connectors := None; p_prevalidated := None;
     p_certificate := None |}.

Definition accepted (parent : option string) : ValidationResult :=
  ValidationResult_of auth_Accepted
    ((λ id, {| value := id; token_type := Central; additional_info := [] |}) <$> parent).

Definition session (e : SessionEventEnum) (why : option StartSessionReason) : SessionEvent :=
  {| event := e; ev_connector_id := None; session_started := why |}.
Definition plugged_in_event : SessionEvent := session SessionStarted (Some EVConnected).

(** What a run shows: the authorizations granted, by index and token; the statuses
    published; the tokens the EVSEs hold at the end; which transactions were stopped. *)
Record summary := {
  granted : list (Z * string);
  published : list (string * TokenValidationStatus);
  held : list (Z * option string);
  stopped : list Z;
  waiting : nat;
}.

Definition summarize (r : option (system * list (nat * obs))) : option summary :=
  '(y, tr) ← r;
  Some {| granted := (λ g : Z * ProvidedIdToken * ValidationResult, (g.1.1, value (p_id_token g.1.2))) <$> grants_of tr.*2;
          published := (λ q : ProvidedIdToken * TokenValidationStatus, (value (p_id_token q.1), q.2)) <$> statuses_of tr.*2;
          held := (λ q : Z * EVSEContext, (q.1, (λ i, value (id_token i)) <$> identifier q.2)) <$> items (evses (handler y));
          stopped := tr.*2 ≫= λ o, match o with Called (stop_transaction_callback i _) => [i] | _ => [] end;
          waiting := size (threads y) |}.

Definition demo_run (algorithm : SelectionAlgorithm) (ks : list step_kind) : option (system * list (nat * obs)) :=
  sys_run (system_of (demo_handler algorithm)) ks.

(** ** A token presented, validated, and used at the EVSE a car is plugged in to *)
Definition demo_steps : list step_kind :=
  [Start (Session 2 plugged_in_event); Start (PresentToken (rfid "A")); Resume 1 (validated [accepted (Some "G")]);
   Start (Session 2 (session TransactionStarted None))].

Lemma demo_steps_summary :
  summarize (demo_run PlugEvents demo_steps) =
  Some {| granted := [(1, "A"%string)];
          published := [("A"%string, Processing); ("A"%string, TokenAccepted); ("A"%string, UsedToStart)];
          held := [(1, None); (2, Some "A"%string)]; stopped := []; waiting := 0 |}.
Proof. by vm_compute. Qed.

Definition demo_result : system * list (nat * obs) :=
  default (system_of (demo_handler PlugEvents), []) (demo_run PlugEvents demo_steps).

Lemma demo_run_from :
  run_from demo_indices (demo_handler PlugEvents) demo_steps demo_result.1 demo_result.2.
Proof.
  split_and!; [by apply demo_ready|by vm_compute| |by vm_compute]. unfold demo_steps, valid_step.
  repeat (apply Forall_cons; split); try done. intros _. by eexists.
Qed.

Definition demo_told : ProvidedIdToken :=
  set_p_connectors (Some [2]) (set_p_parent_id_token (v_parent_id_token (accepted (Some "G"))) (rfid "A")).

Lemma authorized_only_if_accepted_witness :
  ∃ p0 e r0, p_id_token demo_told = p_id_token p0 ∧ v_authorization_status r0 = auth_Accepted ∧
    demo_indices !! e = Some 1 ∧ (1%nat, Began (PresentToken p0)) ∈ demo_result.2.
Proof.
  destruct (authorized_only_if_accepted demo_indices (demo_handler PlugEvents) demo_steps demo_result.1 demo_result.2
    1 1 demo_told (accepted (Some "G")) demo_run_from) as (p0 & e & r0 & H1 & H2 & _ & H4 & _ & H5 & _).
  - apply list_elem_of_In. vm_compute. tauto.
  - reflexivity.
  - exists p0, e, r0. split_and!; assumption.
Defined.

Lemma tokens_processed_once_witness :
  tokens_in_process (handler demo_result.1) ≡ₚ tokens_of (threads demo_result.1).
Proof.
  exact (proj1 (proj2 (tokens_processed_once demo_indices (demo_handler PlugEvents) demo_steps demo_result.1
    demo_result.2 demo_run_from))).
Defined.

(** Token B waits for a plug in when the run stops. *)
Definition waiting_steps : list step_kind :=
  [Start (PresentToken (rfid "B")); Resume 0 (validated [accepted None])].

Definition waiting_result : system * list (nat * obs) :=
  default (system_of (demo_handler PlugEvents), []) (demo_run PlugEvents waiting_steps).

Lemma threads_never_deadlock_witness : ∃ i a, is_Some (sys_step waiting_result.1 (Resume i a)).
Proof.
  apply (threads_never_deadlock demo_indices (demo_handler PlugEvents) waiting_steps waiting_result.1 waiting_result.2).
  - split_and!; [apply demo_ready; discriminate|vm_compute; reflexivity|repeat constructor|vm_compute; reflexivity].
  - intros E. apply (f_equal size) in E. vm_compute in E. discriminate.
Defined.

(** ** Reservations *)
Lemma authorization_respects_reservations_witness :
  ∃ p2 r2 s' o, authorize_at 1 (rfid "A") (accepted None) (demo_handler FindFirst) = (Ret (true, p2, r2), s', o) ∧
    p_connectors p2 = Some [1].
Proof.
  destruct (authorization_respects_reservations demo_indices (demo_handler FindFirst) 1 (rfid "A") (accepted None))
    as (b & p2 & r2 & s' & o & E & Hb & Hp & _).
  - apply demo_ready. discriminate.
  - reflexivity.
  - assert (b = true) as ->.
    { apply Hb. split; [discriminate|]. right. vm_compute. reflexivity. }
    exists p2, r2, s', o. split; [exact E|apply Hp; reflexivity].
Defined.

(** ** Findings *)

(** A comment in [select_evse] says that the EVSEs a waiting token references are locked
    for it.  They are not: token A is authorized at EVSE 1 while token B waits for a
    plug in; when the car plugs in, B takes over EVSE 1 and its authorization. *)
Lemma waiting_token_takes_authorized_evse :
  summarize (demo_run PlugEvents
    [Start (PresentToken (rfid "B")); Resume 0 (validated [accepted None]);
     Start (PresentToken (set_p_connectors (Some [1]) (rfid "A"))); Resume 1 (validated [accepted None]);
     Start (Session 1 plugged_in_event); Resume 0 notified]) =
  Some {| granted := [(0, "A"%string); (0, "B"%string)];
          published := [("B"%string, Processing); ("B"%string, TokenAccepted); ("A"%string, Processing);
                        ("A"%string, TokenAccepted); ("A"%string, UsedToStart); ("B"%string, UsedToStart)];
          held := [(1, Some "B"%string); (2, None)]; stopped := []; waiting := 0 |}.
Proof. by vm_compute. Qed.

(** An RFID token that is the parent token of an authorized EVSE stops "its transaction"
    although none has started. *)
Lemma stops_without_transaction :
  summarize (demo_run FindFirst
    [Start (PresentToken (rfid "A")); Resume 0 (validated [accepted (Some "G")]); Start (PresentToken (rfid "g"))]) =
  Some {| granted := [(0, "A"%string)];
          published := [("A"%string, Processing); ("A"%string, TokenAccepted); ("A"%string, UsedToStart);
                        ("g"%string, Processing); ("g"%string, UsedToStop)];
          held := [(1, Some "A"%string); (2, None)]; stopped := [0]; waiting := 0 |}.
Proof. by vm_compute. Qed.

(** A token whose parent token holds an authorized EVSE without a transaction is told
    that it is being processed, and never anything else. *)
Lemma processing_without_end :
  summarize (demo_run FindFirst
    [Start (PresentToken (rfid "A")); Resume 0 (validated [accepted (Some "G")]);
     Start (PresentToken (rfid "C")); Resume 1 (validated [accepted (Some "G")])]) =
  Some {| granted := [(0, "A"%string)];
          published := [("A"%string, Processing); ("A"%string, TokenAccepted); ("A"%string, UsedToStart);
                        ("C"%string, Processing)];
          held := [(1, Some "A"%string); (2, None)]; stopped := []; waiting := 0 |}.
Proof. by vm_compute. Qed.

(** A timeout that fires just before the transaction starts is not stopped by
    [timeout_timer.stop()]: it withdraws the authorization of the running transaction. *)
Lemma timeout_hits_transaction :
  summarize (demo_run FindFirst
    [Start (PresentToken (rfid "A")); Resume 0 (validated [accepted None]); Fire 1;
     Start (Session 1 (session TransactionStarted None)); Resume 1 notified; Resume 1 notified]) =
  Some {| granted := [(0, "A"%string)];
          published := [("A"%string, Processing); ("A"%string, TokenAccepted); ("A"%string, UsedToStart);
                        ("A"%string, TimedOut)];
          held := [(1, None); (2, None)]; stopped := []; waiting := 0 |}.
Proof. by vm_compute. Qed.

(** The identifier is assigned before the wait for a running timeout task: the task of
    an earlier authorization clears it, and the EVSE is told Accepted all the same. *)
Lemma accepted_without_identifier :
  summarize (demo_run FindFirst
    [Start (PresentToken (rfid "A")); Resume 0 (validated [accepted None]); Fire 1; Resume 1 notified;
     Start (Session 1 (session Deauthorized None));
     Start (PresentToken (set_p_connectors (Some [1]) (rfid "B"))); Resume 3 (validated [accepted None]);
     Resume 1 notified; Resume 2 notified; Resume 3 notified]) =
  Some {| granted := [(0, "A"%string); (0, "B"%string)];
          published := [("A"%string, Processing); ("A"%string, TokenAccepted); ("A"%string, UsedToStart);
                        ("B"%string, Processing); ("B"%string, TokenAccepted); ("A"%string, TimedOut);
                        ("B"%string, UsedToStart)];
          held := [(1, None); (2, None)]; stopped := []; waiting := 0 |}.
Proof. by vm_compute. Qed.

End AuthDemo.
