(* ===== verification/Float32.v ===== *)
(** * Single precision numbers

    The [float]s of the charging profiles: binary32 numbers of the standard library's
    [SpecFloat], the comparisons of C++ on them, and the order these comparisons
    decide. *)

From S2P Require Import Prelude.
From Stdlib Require Import Floats.SpecFloat.

Module Float32.

Definition float := spec_float.

Definition prec : Z := 24.
Definition emax : Z := 128.

(** Arithmetic, rounded to nearest even; [of_int] is [static_cast<float>]. *)
Definition f_add : float → float → float := SFadd prec emax.
Definition f_mul : float → float → float := SFmul prec emax.
Definition f_div : float → float → float := SFdiv prec emax.
Definition of_int (z : Z) : float := binary_normalize prec emax z 0 false.

Definition zero : float := S754_zero false.
Definition FLT_MAX : float := S754_finite false 16777215 104.

(** [<], [==] and [>=]. *)
Definition f_lt (a b : float) : bool := SFltb a b.
Definition f_eq (a b : float) : bool := SFeqb a b.
Definition f_ge (a b : float) : bool := SFleb b a.
Definition is_finite (a : float) : bool := match a with S754_zero _ | S754_finite _ _ _ => true | _ => false end.

(** ** The order

    A number's place: its class, exponent and mantissa, compared in this order. *)
Definition rank (a : float) : Z * Z * Z :=
  match a with
  | S754_infinity true => (-2, 0, 0)
  | S754_finite true m e => (-1, - e, Zneg m)
  | S754_zero _ => (0, 0, 0)
  | S754_finite false m e => (1, e, Zpos m)
  | S754_infinity false => (2, 0, 0)
  | S754_nan => (3, 0, 0)
  end.

Definition place_lt (x y : Z * Z * Z) : Prop :=
  x.1.1 < y.1.1 ∨ x.1.1 = y.1.1 ∧ (x.1.2 < y.1.2 ∨ x.1.2 = y.1.2 ∧ x.2 < y.2).

Definition is_number (a : float) : Prop := a ≠ S754_nan.
#[export] Instance is_number_dec a : Decision (is_number a).
Proof. destruct a; (left; discriminate) || (right; intros H; by apply H). Defined.

Lemma SFcompare_rank a b : is_number a → is_number b →
  match SFcompare a b with
  | Some Lt => place_lt (rank a) (rank b)
  | Some Eq => rank a = rank b
  | Some Gt => place_lt (rank b) (rank a)
  | None => False
  end.
Proof.
  unfold is_number, place_lt.
  destruct a as [sa|[]| |[] ma ea], b as [sb|[]| |[] mb eb]; try done; intros _ _; cbn; try lia;
    destruct (Z.compare_spec ea eb) as [->|?|?]; cbn; try lia;
    change (Pos.compare_cont Eq ma mb) with (Pos.compare ma mb);
    destruct (Pos.compare_spec ma mb) as [->|?|?]; cbn; first [done|lia].
Qed.

Lemma f_lt_spec a b : f_lt a b = true ↔ is_number a ∧ is_number b ∧ place_lt (rank a) (rank b).
Proof.
  unfold f_lt, SFltb. destruct (decide (is_number a ∧ is_number b)) as [[Ha Hb]|Hn].
  - pose proof (SFcompare_rank a b Ha Hb) as H. unfold place_lt in *.
    destruct (SFcompare a b) as [[]|]; try done; split; intros Hx; try done;
      destruct Hx as (_ & _ & Hx); try rewrite H in Hx; lia.
  - split; [|tauto]. unfold is_number in Hn. destruct a, b; try done; naive_solver.
Qed.

Lemma f_eq_spec a b : f_eq a b = true ↔ is_number a ∧ is_number b ∧ rank a = rank b.
Proof.
  unfold f_eq, SFeqb. destruct (decide (is_number a ∧ is_number b)) as [[Ha Hb]|Hn].
  - pose proof (SFcompare_rank a b Ha Hb) as H. unfold place_lt in *.
    destruct (SFcompare a b) as [[]|]; try done; split; intros Hx; try done;
      destruct Hx as (_ & _ & Hx); rewrite Hx in H; lia.
  - split; [|tauto]. unfold is_number in Hn. destruct a, b; try done; naive_solver.
Qed.

Lemma f_ge_spec a b : f_ge a b = true ↔ is_number a ∧ is_number b ∧ ¬ place_lt (rank a) (rank b).
Proof.
  unfold f_ge, SFleb. destruct (decide (is_number b ∧ is_number a)) as [[Hb Ha]|Hn].
  - pose proof (SFcompare_rank b a Hb Ha) as H. unfold place_lt in *.
    destruct (SFcompare b a) as [[]|]; try done; split; intros Hx; try done;
      try (split_and!; [done..|]; try rewrite H; lia); destruct Hx as (_ & _ & Hx); lia.
  - split; [|tauto]. unfold is_number in Hn. destruct a, b; try done; naive_solver.
Qed.

Lemma f_eq_refl a : is_number a → f_eq a a = true.
Proof. intros. by apply f_eq_spec. Qed.

(** [a <= b], as a relation. *)
Definition f_le (a b : float) : Prop := f_ge b a = true.

Lemma f_le_refl a : is_number a → f_le a a.
Proof. intros Ha. apply f_ge_spec. split_and!; [done..|]. unfold place_lt. lia. Qed.

#[export] Instance f_le_trans : Transitive f_le.
Proof.
  intros a b c H1%f_ge_spec H2%f_ge_spec. apply f_ge_spec. unfold place_lt in *. naive_solver lia.
Qed.

Lemma f_not_lt a b : is_number a → is_number b → f_lt a b = false → f_le b a.
Proof.
  intros Ha Hb H. apply f_ge_spec. split_and!; [done..|]. intros Hlt.
  by rewrite (proj2 (f_lt_spec a b)) in H by done.
Qed.

Lemma f_lt_le a b : f_lt a b = true → f_le a b.
Proof. intros (Ha & Hb & H)%f_lt_spec. apply f_ge_spec. unfold place_lt in *. split_and!; [done..|lia]. Qed.

Lemma f_lt_trans a b c : f_lt a b = true → f_lt b c = true → f_lt a c = true.
Proof. rewrite !f_lt_spec. unfold place_lt. naive_solver lia. Qed.

Lemma f_lt_irrefl a : f_lt a a = false.
Proof.
  destruct (f_lt a a) eqn:E; [|done]. apply f_lt_spec in E as (_ & _ & E). unfold place_lt in E. lia.
Qed.

(** Equal numbers: the same one, or equal for [==] (the two zeros). *)
Definition feq (a b : float) : Prop := a = b ∨ f_eq a b = true.

#[export] Instance feq_equiv : Equivalence feq.
Proof.
  split.
  - intros a. by left.
  - intros a b [->|H%f_eq_spec]; [by left|right]. apply f_eq_spec. naive_solver.
  - intros a b c [->|H1] [->|H2]; [by left|by right..|]. right. rewrite f_eq_spec in *. naive_solver congruence.
Qed.

#[export] Instance f_le_proper : Proper (feq ==> feq ==> iff) f_le.
Proof.
  assert (∀ a a' b b', feq a a' → feq b b' → f_le a b → f_le a' b') as H.
  { intros a a' b b' Ha Hb Hle. unfold f_le in *. rewrite f_ge_spec in *. destruct Hle as (H1 & H2 & H3).
    assert (is_number a' ∧ rank a' = rank a) as [Ha1 Ha2] by (destruct Ha as [<-|Ha%f_eq_spec]; naive_solver).
    assert (is_number b' ∧ rank b' = rank b) as [Hb1 Hb2] by (destruct Hb as [<-|Hb%f_eq_spec]; naive_solver).
    by rewrite Ha2, Hb2. }
  intros a a' Ha b b' Hb. split; apply H; by try symmetry.
Qed.

End Float32.
