(* ===== verification/Profile.v ===== *)
(** * Charging profiles and composite schedules (OCPP 1.6)

    Models [src/lib/everest/ocpp/lib/ocpp/v16/profile.cpp] and the types it works on
    ([ocpp_types.hpp], [ocpp_enums.hpp], [types.hpp], [profile.hpp] of [v16],
    [constants.hpp] and [clamp_to] of [common]).

    A [DateTime] is a number of nanoseconds.  [std::sort] is the class [StdSort]: it
    gives some sorted permutation, since the order of equivalent elements is
    unspecified.  A loop that is not structural takes fuel and ends in [Undef] when
    the fuel is used up; a null pointer that is dereferenced is [Undef], too. *)

From S2P Require Import Prelude Float32.

Module Profile.
Import Float32.

(** ** Types *)
Inductive ChargingProfilePurposeType := ChargePointMaxProfile | TxDefaultProfile | TxProfile.
Inductive ChargingProfileKindType := Absolute | Recurring | Relative.
Inductive RecurrencyKindType := Daily | Weekly.
Inductive ChargingRateUnit := A | W.

#[global] Instance ChargingProfilePurposeType_eq_dec : EqDecision ChargingProfilePurposeType.
Proof. solve_decision. Defined.
#[global] Instance ChargingRateUnit_eq_dec : EqDecision ChargingRateUnit.
Proof. solve_decision. Defined.

Definition DateTime := Z.

Record ChargingSchedulePeriod := {
  startPeriod : Z;
  limit : float;
  numberPhases : option Z;
}.

Record ChargingSchedule := {
  chargingRateUnit : ChargingRateUnit;
  chargingSchedulePeriod : list ChargingSchedulePeriod;
  duration : option Z;
  startSchedule : option DateTime;
  minChargingRate : option float;
}.

Record ChargingProfile := {
  chargingProfileId : Z;
  stackLevel : Z;
  chargingProfilePurpose : ChargingProfilePurposeType;
  chargingProfileKind : ChargingProfileKindType;
  chargingSchedule : ChargingSchedule;
  transactionId : option Z;
  recurrencyKind : option RecurrencyKindType;
  validFrom : option DateTime;
  validTo : option DateTime;
}.

Record EnhancedChargingSchedulePeriod := {
  e_startPeriod : Z;
  e_limit : float;
  e_numberPhases : option Z;
  e_stackLevel : Z;
  e_periodTransformed : bool;
}.

Record IntermediatePeriod := {
  i_startPeriod : Z;
  current_limit : float;
  power_limit : float;
  stack_level_current : Z;
  stack_level_power : Z;
  i_numberPhases : option Z;
  i_phaseToUse : option Z;
}.

Definition IntermediateProfile := list IntermediatePeriod.

Record period_entry_t := {
  entry_start : DateTime;
  entry_end : DateTime;
  entry_limit : float;
  number_phases : option Z;
  stack_level : Z;
  charging_rate_unit : ChargingRateUnit;
  min_charging_rate : option float;
}.

(** ** Constants and time *)
Definition HOURS_PER_DAY : Z := 24.
Definition SECONDS_PER_HOUR : Z := 3600.
Definition SECONDS_PER_DAY : Z := 86400.
Definition DAYS_PER_WEEK : Z := 7.
Definition NO_LIMIT_SPECIFIED : float := of_int (-1).

Definition INT_MAX : Z := 2 ^ 31 - 1.

(** [static_cast] to a 32 bit integer, and [clamp_to]. *)
Definition to_int32 (z : Z) : Z := (z + 2 ^ 31) mod 2 ^ 32 - 2 ^ 31.
Definition clamp_to_int (len : Z) : Z := if len <=? INT_MAX then to_int32 len else INT_MAX.

Definition second : Z := 1000000000.

(** [duration_cast<seconds>] cuts towards zero, [floor<seconds>] rounds down. *)
Definition elapsed_seconds (to from : DateTime) : Z := clamp_to_int (Z.quot (to - from) second).
Definition floor_seconds (dt : DateTime) : DateTime := dt / second * second.

(** [std::sort] with the comparison [lt]. *)
Class StdSort := std_sort : ∀ {T : Type}, (T → T → bool) → list T → list T.

(** What [std::sort] requires of a comparison, and what it guarantees. *)
Definition strict_weak_order {T} (lt : T → T → bool) : Prop :=
  (∀ a, lt a a = false) ∧
  (∀ a b c, lt a b = true → lt b c = true → lt a c = true) ∧
  (∀ a b c, lt a c = true → lt a b = true ∨ lt b c = true).

Class StdSortLaws `{StdSort} : Prop := {
  std_sort_perm {T} (lt : T → T → bool) (l : list T) : std_sort lt l ≡ₚ l;
  std_sort_sorted {T} (lt : T → T → bool) (l : list T) :
    strict_weak_order lt → StronglySorted (λ a b, lt b a = false) (std_sort lt l);
}.

Section profile.
Context {X : Type} `{SORT : StdSort}.

(** ** Schedule periods of one profile *)
Definition period_entry_init (in_start : DateTime) (in_duration : Z) (in_period : ChargingSchedulePeriod)
    (in_profile : ChargingProfile) : period_entry_t :=
  let start_tp := floor_seconds in_start in
  {| entry_start := start_tp + startPeriod in_period * second;
     entry_end := start_tp + in_duration * second;
     entry_limit := limit in_period;
     number_phases := numberPhases in_period;
     stack_level := stackLevel in_profile;
     charging_rate_unit := chargingRateUnit (chargingSchedule in_profile);
     min_charging_rate := minChargingRate (chargingSchedule in_profile) |}.

Definition with_entry_start (e : period_entry_t) (t : DateTime) : period_entry_t :=
  {| entry_start := t; entry_end := entry_end e; entry_limit := entry_limit e;
     number_phases := number_phases e; stack_level := stack_level e;
     charging_rate_unit := charging_rate_unit e; min_charging_rate := min_charging_rate e |}.

(** [period_entry_t::validate]: the result, and the entry it leaves. *)
Definition period_entry_validate (e : period_entry_t) (profile : ChargingProfile) (now : DateTime)
    : bool * period_entry_t :=
  let '(b_valid, e) :=
    match validFrom profile with
    | Some from =>
        let valid_from := floor_seconds from in
        if valid_from >? entry_start e then
          if valid_from >=? entry_end e then (false, e) else (true, with_entry_start e valid_from)
        else (true, e)
    | None => (true, e)
    end in
  (b_valid && (entry_end e >? entry_start e) && (entry_end e >? now), e).

(** The loop that lists the occurrences of a recurring profile. *)
Fixpoint occurrences (fuel : nat) (start end_ seconds_to_go_forward : Z) : outcome X (list DateTime) :=
  if start <=? end_ then
    match fuel with
    | O => Undef
    | S fuel' =>
        rest ← occurrences fuel' (start + seconds_to_go_forward * second) end_ seconds_to_go_forward;
        Ret (start :: rest)
    end
  else Ret [].

Definition recurrency_seconds (k : RecurrencyKindType) : Z :=
  match k with
  | Daily => HOURS_PER_DAY * SECONDS_PER_HOUR
  | Weekly => SECONDS_PER_DAY * DAYS_PER_WEEK
  end.

(** The remainder of C++ has the sign of the dividend. *)
Definition seconds_to_go_back (now start_schedule : DateTime) (k : RecurrencyKindType) : Z :=
  let r := Z.rem (Z.quot (now - start_schedule) second) (recurrency_seconds k) in
  if r <? 0 then r + recurrency_seconds k else r.

Definition calculate_start (in_now in_end : DateTime) (in_session_start : option DateTime)
    (in_profile : ChargingProfile) : outcome X (list DateTime) :=
  let start := floor_seconds in_now in
  match chargingProfileKind in_profile with
  | Absolute =>
      let start := match startSchedule (chargingSchedule in_profile) with
                   | Some t => t
                   | None => default start (validFrom in_profile)
                   end in
      Ret [floor_seconds start]
  | Recurring =>
      match recurrencyKind in_profile, startSchedule (chargingSchedule in_profile) with
      | Some k, Some t =>
          let start_schedule := floor_seconds t in
          let end_ := floor_seconds in_end in
          let start := start - seconds_to_go_back start start_schedule k * second in
          occurrences (S (Z.to_nat ((end_ - start) / (recurrency_seconds k * second)))) start end_
            (recurrency_seconds k)
      | _, _ => Ret []
      end
  | Relative =>
      let start := match in_session_start with Some t => floor_seconds t | None => start end in
      Ret [start]
  end.

(** How long the period lasts, from [entry_start], the start of the schedule. *)
Definition period_duration (in_profile : ChargingProfile) (next_period : option ChargingSchedulePeriod)
    (entry_start : DateTime) (next_occurrence : option DateTime) : Z :=
  let d := match next_period with Some p => startPeriod p | None => INT_MAX end in
  let d := match duration (chargingSchedule in_profile) with
           | Some n => if n <? d then n else d
           | None => d
           end in
  let d := match next_occurrence with
           | Some t => let next_start := Z.quot (t - entry_start) second in
                       if next_start <? d then clamp_to_int next_start else d
           | None => d
           end in
  match validTo in_profile with
  | Some t => let valid_to_seconds := Z.quot (floor_seconds t - entry_start) second in
              if valid_to_seconds <? d then clamp_to_int valid_to_seconds else d
  | None => d
  end.

(** The loop over the starts of the schedule. *)
Fixpoint schedule_entries (now : DateTime) (in_profile : ChargingProfile) (this_period : ChargingSchedulePeriod)
    (next_period : option ChargingSchedulePeriod) (schedule_start : list DateTime) : list period_entry_t :=
  match schedule_start with
  | [] => []
  | entry_start :: rest =>
      let d := period_duration in_profile next_period entry_start (head rest) in
      let '(valid, entry) :=
        period_entry_validate (period_entry_init entry_start d this_period in_profile) in_profile now in
      (if valid then [entry] else []) ++ schedule_entries now in_profile this_period next_period rest
  end.

Definition calculate_profile_entry (in_now in_end : DateTime) (in_session_start : option DateTime)
    (in_profile : ChargingProfile) (in_period_index : nat) : outcome X (list period_entry_t) :=
  let periods := chargingSchedulePeriod (chargingSchedule in_profile) in
  match periods !! in_period_index with
  | None => Ret []
  | Some this_period =>
      if (in_period_index =? 0)%nat && negb (startPeriod this_period =? 0) then Ret []
      else if (0 <? in_period_index)%nat &&
              match periods !! pred in_period_index with
              | Some previous => startPeriod previous >=? startPeriod this_period
              | None => false
              end then Ret []
      else
        schedule_start ← calculate_start in_now in_end in_session_start in_profile;
        Ret (schedule_entries (floor_seconds in_now) in_profile this_period (periods !! S in_period_index)
               schedule_start)
  end.

Fixpoint unsorted_entries (now end_ : DateTime) (session_start : option DateTime) (profile : ChargingProfile)
    (indices : list nat) : outcome X (list period_entry_t) :=
  match indices with
  | [] => Ret []
  | i :: rest =>
      results ← calculate_profile_entry now end_ session_start profile i;
      entries ← unsorted_entries now end_ session_start profile rest;
      Ret (list_filter (λ e, entry_start e ≤ end_) _ results ++ entries)
  end.

Definition calculate_profile_unsorted (now end_ : DateTime) (session_start : option DateTime)
    (profile : ChargingProfile) : outcome X (list period_entry_t) :=
  unsorted_entries now end_ session_start profile
    (seq 0 (length (chargingSchedulePeriod (chargingSchedule profile)))).

Definition earlier (a b : period_entry_t) : bool := entry_start a <? entry_start b.
Definition sort_periods_into_date_order (periods : list period_entry_t) : list period_entry_t :=
  std_sort earlier periods.

Definition calculate_profile (now end_ : DateTime) (session_start : option DateTime) (profile : ChargingProfile)
    : outcome X (list period_entry_t) :=
  entries ← calculate_profile_unsorted now end_ session_start profile;
  Ret (sort_periods_into_date_order entries).

Fixpoint collect_profiles (now end_ : DateTime) (session_start : option DateTime) (profiles : list ChargingProfile)
    (purpose : ChargingProfilePurposeType) : outcome X (list period_entry_t) :=
  match profiles with
  | [] => Ret []
  | profile :: rest =>
      periods ← (if decide (chargingProfilePurpose profile = purpose)
                 then calculate_profile_unsorted now end_ session_start profile else Ret []);
      output ← collect_profiles now end_ session_start rest purpose;
      Ret (periods ++ output)
  end.

Definition calculate_all_profiles (now end_ : DateTime) (session_start : option DateTime)
    (profiles : list ChargingProfile) (purpose : ChargingProfilePurposeType) : outcome X (list period_entry_t) :=
  output ← collect_profiles now end_ session_start profiles purpose;
  Ret (sort_periods_into_date_order output).

(** ** One profile from overlapping periods *)
Definition no_limit (start : Z) : IntermediatePeriod :=
  {| i_startPeriod := start; current_limit := NO_LIMIT_SPECIFIED; power_limit := NO_LIMIT_SPECIFIED;
     stack_level_current := 0; stack_level_power := 0; i_numberPhases := None; i_phaseToUse := None |}.

(** The inner loop: [earliest], [next_earliest] and [chosen] when it ends. *)
Fixpoint find_schedule (periods : list period_entry_t) (current earliest next_earliest : DateTime)
    (chosen : option period_entry_t) : DateTime * DateTime * option period_entry_t :=
  match periods with
  | [] => (earliest, next_earliest, chosen)
  | schedule :: rest =>
      if (entry_start schedule <=? earliest) && (entry_end schedule >? current) then
        if entry_start schedule <=? current then (entry_start schedule, earliest, Some schedule)
        else find_schedule rest current (entry_start schedule) earliest (Some schedule)
      else find_schedule rest current earliest next_earliest chosen
  end.

(** The period for the chosen schedule, [start] seconds after the beginning. *)
Definition period_of_entry (start : Z) (chosen : period_entry_t) : IntermediatePeriod :=
  let a := bool_decide (charging_rate_unit chosen = A) in
  {| i_startPeriod := start;
     current_limit := if a then entry_limit chosen else NO_LIMIT_SPECIFIED;
     power_limit := if a then NO_LIMIT_SPECIFIED else entry_limit chosen;
     stack_level_current := if a then stack_level chosen else 0;
     stack_level_power := if a then 0 else stack_level chosen;
     i_numberPhases := number_phases chosen; i_phaseToUse := None |}.

(** One turn of the outer loop: the period it appends and the next [current]. *)
Definition generate_step (periods : list period_entry_t) (now end_ current : DateTime)
    : outcome X (IntermediatePeriod * DateTime) :=
  let '(earliest, next_earliest, chosen) := find_schedule periods current end_ end_ None in
  if earliest >? current then Ret (no_limit (elapsed_seconds current now), earliest)
  else match chosen with
       | None => Undef
       | Some c => Ret (period_of_entry (elapsed_seconds current now) c,
                        if entry_end c <? next_earliest then entry_end c else next_earliest)
       end.

Fixpoint generate_loop (fuel : nat) (periods : list period_entry_t) (now end_ current : DateTime)
    : outcome X IntermediateProfile :=
  match fuel with
  | O => Undef
  | S fuel' =>
      '(period, current') ← generate_step periods now end_ current;
      rest ← (if current' <? end_ then generate_loop fuel' periods now end_ current' else Ret []);
      Ret (period :: rest)
  end.

Definition higher_stack_level (a b : period_entry_t) : bool := stack_level a >? stack_level b.

Definition generate_profile_from_periods (periods : list period_entry_t) (in_now in_end : DateTime)
    : outcome X IntermediateProfile :=
  let now := floor_seconds in_now in
  let end_ := floor_seconds in_end in
  match periods with
  | [] => Ret [no_limit 0]
  | _ => generate_loop (2 * length periods + 2) (std_sort higher_stack_level periods) now end_ now
  end.

(** ** Combining profiles

    An iterator of a profile and its end are the periods from the iterator on, which
    are never empty here. *)
Definition cursor := list IntermediatePeriod.
Definition combinator := list IntermediatePeriod → IntermediatePeriod.

Definition with_startPeriod (p : IntermediatePeriod) (start : Z) : IntermediatePeriod :=
  {| i_startPeriod := start; current_limit := current_limit p; power_limit := power_limit p;
     stack_level_current := stack_level_current p; stack_level_power := stack_level_power p;
     i_numberPhases := i_numberPhases p; i_phaseToUse := i_phaseToUse p |}.

(** Whether a period differs from the last one in what matters. *)
Definition period_differs (a b : IntermediatePeriod) : bool :=
  negb (f_eq (current_limit a) (current_limit b)) || negb (f_eq (power_limit a) (power_limit b))
  || negb (bool_decide (i_numberPhases a = i_numberPhases b))
  || negb (stack_level_current a =? stack_level_current b)
  || negb (stack_level_power a =? stack_level_power b).

Definition heads (its : list cursor) : list IntermediatePeriod := omap head its.

(** The start of the next period of a cursor. *)
Definition next_start (it : cursor) : option Z := i_startPeriod <$> head (tail it).

Definition next_lowest_period (current_period : Z) (its : list cursor) : Z :=
  foldl (λ low it, match next_start it with
                   | Some n => if (n >? current_period) && (n <? low) then n else low
                   | None => low
                   end) INT_MAX its.

Definition advance (next_lowest : Z) (it : cursor) : cursor :=
  match next_start it with
  | Some n => if n =? next_lowest then tail it else it
  | None => it
  end.

Fixpoint combine_loop (fuel : nat) (f : combinator) (its : list cursor) (current_period : Z)
    (combined : IntermediateProfile) : outcome X IntermediateProfile :=
  match fuel with
  | O => Undef
  | S fuel' =>
      if forallb (λ it, bool_decide (it = [])) its then Ret combined
      else
        let period := with_startPeriod (f (heads its)) current_period in
        let combined' :=
          match last combined with
          | Some back => if period_differs period back then combined ++ [period] else combined
          | None => [period]
          end in
        let next_lowest := next_lowest_period current_period its in
        if next_lowest =? INT_MAX then Ret combined'
        else combine_loop fuel' f (map (advance next_lowest) its) next_lowest combined'
  end.

Definition combine_list_of_profiles (profiles : list IntermediateProfile) (f : combinator)
    : outcome X IntermediateProfile :=
  match profiles with
  | [] => Ret [no_limit 0]
  | _ =>
      let its := list_filter (λ p, p ≠ []) _ profiles in
      combined ← combine_loop (S (length (concat its))) f its 0 [];
      Ret (match combined with [] => [no_limit 0] | _ => combined end)
  end.

(** The first period that has a limit. *)
Definition prefer_first (periods : list IntermediatePeriod) : IntermediatePeriod :=
  match list_find (λ p, Is_true (negb (f_eq (current_limit p) NO_LIMIT_SPECIFIED)
                                 || negb (f_eq (power_limit p) NO_LIMIT_SPECIFIED))) periods with
  | Some (_, p) =>
      {| i_startPeriod := 0; current_limit := current_limit p; power_limit := power_limit p;
         stack_level_current := stack_level_current p; stack_level_power := stack_level_power p;
         i_numberPhases := i_numberPhases p; i_phaseToUse := None |}
  | None => no_limit 0
  end.

Definition merge_tx_profile_with_tx_default_profile (tx_profile tx_default_profile : IntermediateProfile)
    : outcome X IntermediateProfile :=
  combine_list_of_profiles [tx_profile; tx_default_profile] prefer_first.

(** The limit with its stack level, lowered by one of another period. *)
Definition lower (acc : float * Z) (l : float) (level : Z) : float * Z :=
  if f_ge l zero && f_lt l acc.1 then (l, level) else acc.

Definition fewer_phases (acc n : option Z) : option Z :=
  match acc with
  | None => n
  | Some a => match n with Some b => if b <? a then n else acc | None => acc end
  end.

Definition or_no_limit (acc : float * Z) : float * Z :=
  if f_eq acc.1 FLT_MAX then (NO_LIMIT_SPECIFIED, 0) else acc.

Definition lowest_limits (periods : list IntermediatePeriod) : IntermediatePeriod :=
  let c := or_no_limit (foldl (λ acc p, lower acc (current_limit p) (stack_level_current p)) (FLT_MAX, 0) periods) in
  let w := or_no_limit (foldl (λ acc p, lower acc (power_limit p) (stack_level_power p)) (FLT_MAX, 0) periods) in
  {| i_startPeriod := 0; current_limit := c.1; power_limit := w.1; stack_level_current := c.2;
     stack_level_power := w.2; i_numberPhases := foldl (λ acc p, fewer_phases acc (i_numberPhases p)) None periods;
     i_phaseToUse := None |}.

Definition merge_profiles_by_lowest_limit (profiles : list IntermediateProfile) : outcome X IntermediateProfile :=
  combine_list_of_profiles profiles lowest_limits.

Definition more_phases (acc n : option Z) : option Z :=
  match acc with
  | None => n
  | Some a => match n with Some b => if b >? a then n else acc | None => acc end
  end.

Definition summed_limits (current_default power_default : float) (periods : list IntermediatePeriod)
    : IntermediatePeriod :=
  {| i_startPeriod := 0;
     current_limit := foldl (λ acc p, f_add acc (if f_ge (current_limit p) zero then current_limit p
                                                 else current_default)) zero periods;
     power_limit := foldl (λ acc p, f_add acc (if f_ge (power_limit p) zero then power_limit p
                                               else power_default)) zero periods;
     stack_level_current := 0; stack_level_power := 0;
     i_numberPhases := foldl (λ acc p, more_phases acc (i_numberPhases p)) None periods;
     i_phaseToUse := None |}.

Definition merge_profiles_by_summing_limits (profiles : list IntermediateProfile)
    (current_default power_default : float) : outcome X IntermediateProfile :=
  combine_list_of_profiles profiles (summed_limits current_default power_default).

(** ** The final schedule *)
Definition limited (l : float) : bool := negb (f_eq l NO_LIMIT_SPECIFIED).

(** The limit in the wanted unit: the one given in it, or the other one converted,
    whichever is lower; with the stack level and whether it was converted. *)
Definition final_limit (own other converted : float) (own_level other_level : Z) : float * Z * bool :=
  let r := if limited own then (own, own_level, false) else (FLT_MAX, 0, false) in
  if limited other && f_lt converted r.1.1 then (converted, other_level, true) else r.

Definition convert_period (unit : ChargingRateUnit) (default_limit : float) (default_number_phases : Z)
    (supply_voltage : float) (period : IntermediatePeriod) : EnhancedChargingSchedulePeriod :=
  let transform_value := f_mul supply_voltage (of_int (default default_number_phases (i_numberPhases period))) in
  let '(l, level, transformed) :=
    if negb (limited (current_limit period)) && negb (limited (power_limit period)) then (default_limit, 0, false)
    else match unit with
         | A => final_limit (current_limit period) (power_limit period) (f_div (power_limit period) transform_value)
                  (stack_level_current period) (stack_level_power period)
         | W => final_limit (power_limit period) (current_limit period) (f_mul (current_limit period) transform_value)
                  (stack_level_power period) (stack_level_current period)
         end in
  {| e_startPeriod := i_startPeriod period; e_limit := l; e_numberPhases := i_numberPhases period;
     e_stackLevel := level; e_periodTransformed := transformed |}.

Definition output_differs (a b : EnhancedChargingSchedulePeriod) : bool :=
  negb (f_eq (e_limit a) (e_limit b)) || negb (bool_decide (e_numberPhases a = e_numberPhases b))
  || negb (e_stackLevel a =? e_stackLevel b).

Fixpoint append_converted (output : list EnhancedChargingSchedulePeriod) (l : list EnhancedChargingSchedulePeriod)
    : list EnhancedChargingSchedulePeriod :=
  match l with
  | [] => output
  | p :: rest =>
      let output' := match last output with
                     | Some back => if output_differs p back then output ++ [p] else output
                     | None => [p]
                     end in
      append_converted output' rest
  end.

Definition convert_intermediate_into_schedule (profile : IntermediateProfile) (unit : ChargingRateUnit)
    (default_limit : float) (default_number_phases : Z) (supply_voltage : float)
    : list EnhancedChargingSchedulePeriod :=
  append_converted [] (convert_period unit default_limit default_number_phases supply_voltage <$> profile).

End profile.
End Profile.
