(* ===== verification/ProfileFacts.v ===== *)
(** * What the schedule of a single charging profile means

    A reference definition of the period of a profile that is in force at a point of
    time, and that the entries [calculate_profile_unsorted] computes are exactly the
    periods in force. *)

From S2P Require Import Prelude Float32 Profile.

Module ProfileFacts.
Import Float32 Profile.

(** ** Whole seconds *)
Definition whole (t : Z) : Prop := ∃ k, t = k * second.

Lemma whole_floor t : whole (floor_seconds t).
Proof. by exists (t / second). Qed.

Lemma floor_whole t : whole t → floor_seconds t = t.
Proof. intros [k ->]. unfold floor_seconds. by rewrite Z.div_mul. Qed.

Lemma floor_le t u : whole t → t ≤ u ↔ t ≤ floor_seconds u.
Proof.
  intros [k ->]. unfold floor_seconds, second.
  pose proof (Z.mod_pos_bound u 1000000000 ltac:(lia)). pose proof (Z.div_mod u 1000000000 ltac:(lia)). lia.
Qed.

Lemma quot_whole a b : whole a → whole b → Z.quot (a - b) second * second = a - b.
Proof. intros [k ->] [l ->]. replace (k * second - l * second) with ((k - l) * second) by lia. by rewrite Z.quot_mul. Qed.

Lemma to_int32_id z : - 2 ^ 31 ≤ z ≤ INT_MAX → to_int32 z = z.
Proof. unfold to_int32, INT_MAX. intros. rewrite Z.mod_small; lia. Qed.

Lemma clamp_id z : - 2 ^ 31 ≤ z ≤ INT_MAX → clamp_to_int z = z.
Proof. intros. unfold clamp_to_int. rewrite to_int32_id by lia. by destruct (Z.leb_spec z INT_MAX); [|lia]. Qed.

Lemma elapsed_whole a b : whole a → whole b → 0 ≤ a - b < INT_MAX * second →
  elapsed_seconds a b * second = a - b ∧ 0 ≤ elapsed_seconds a b < INT_MAX.
Proof.
  intros Ha Hb H. pose proof (quot_whole a b Ha Hb) as Hq. unfold elapsed_seconds.
  assert (0 ≤ Z.quot (a - b) second < INT_MAX) as Hr by (unfold second in *; lia).
  rewrite clamp_id by lia. lia.
Qed.

(** ** The last of several starts *)
Definition at_time {T} (start : T → Z) (l : list T) (t : Z) : option T :=
  last (list_filter (λ x, start x ≤ t) _ l).

(** Starts that increase. *)
Definition increasing {T} (start : T → Z) (l : list T) : Prop := StronglySorted (λ a b, start a < start b) l.

Section at_time.
Context {T : Type} (start : T → Z).
Implicit Types (l : list T).

Lemma at_time_app l1 l2 t : Forall (λ x, t < start x) l2 → at_time start (l1 ++ l2) t = at_time start l1 t.
Proof.
  intros H. unfold at_time. change (list_filter ?P ?d ?l) with (filter P l). rewrite filter_app.
  replace (filter (λ x, start x ≤ t) l2) with ([] : list T); [by rewrite app_nil_r|].
  symmetry. induction H; [done|]. rewrite filter_cons_False by lia. done.
Qed.

Lemma at_time_snoc l x t : start x ≤ t → at_time start (l ++ [x]) t = Some x.
Proof.
  intros H. unfold at_time. change (list_filter ?P ?d ?l) with (filter P l).
  rewrite filter_app, filter_cons_True by done. by rewrite filter_nil, last_snoc.
Qed.

Lemma at_time_nil t : at_time start [] t = None.
Proof. done. Qed.

Lemma increasing_app l1 l2 : increasing start (l1 ++ l2) ↔
  increasing start l1 ∧ increasing start l2 ∧ Forall (λ a, Forall (λ b, start a < start b) l2) l1.
Proof.
  unfold increasing. rewrite StronglySorted_app, Forall_forall. setoid_rewrite Forall_forall. naive_solver.
Qed.

Lemma increasing_split l i x : increasing start l → l !! i = Some x →
  ∃ l1 l2, l = l1 ++ x :: l2 ∧ length l1 = i ∧ Forall (λ a, start a < start x) l1 ∧
    Forall (λ b, start x < start b) l2 ∧ head l2 = l !! S i.
Proof.
  intros Hs Hi. exists (take i l), (drop (S i) l). pose proof (take_drop_middle l i x Hi) as E. split; [done|].
  rewrite <- E in Hs. apply increasing_app in Hs as (_ & [_ H2]%StronglySorted_inv & H1).
  pose proof (lookup_lt_Some _ _ _ Hi). split_and!; [rewrite length_take; lia| |done|].
  - eapply Forall_impl; [exact H1|]. intros a Ha. by apply Forall_cons in Ha as [? _].
  - by rewrite head_lookup, lookup_drop, Nat.add_0_r.
Qed.

(** The element in force starts no later, and the next one starts later. *)
Lemma at_time_lookup l t x : increasing start l →
  at_time start l t = Some x ↔
  ∃ i, l !! i = Some x ∧ start x ≤ t ∧ ∀ y, l !! S i = Some y → t < start y.
Proof.
  intros Hs. split.
  - intros H. induction l as [|y l IH] using rev_ind; [done|].
    destruct (decide (start y ≤ t)) as [Hy|Hy].
    + rewrite at_time_snoc in H by done. injection H as <-. exists (length l).
      rewrite lookup_app_r, Nat.sub_diag by lia. split_and!; [done..|]. intros z Hz.
      apply lookup_lt_Some in Hz. rewrite length_app in Hz. cbn in Hz. lia.
    + rewrite at_time_app in H by (constructor; [lia|done]).
      apply increasing_app in Hs as (Hs & _ & Hy').
      destruct (IH Hs H) as (i & Hi & Hle & Hnext). exists i. pose proof (lookup_lt_Some _ _ _ Hi).
      rewrite lookup_app_l by lia. split_and!; [done..|]. intros z Hz. destruct (decide (S i < length l)%nat).
      * rewrite lookup_app_l in Hz by lia. eauto.
      * rewrite lookup_app_r in Hz by lia. replace (S i - length l)%nat with 0%nat in Hz by lia.
        injection Hz as <-. lia.
  - intros (i & Hi & Hle & Hnext). destruct (increasing_split l i x Hs Hi) as (l1 & l2 & -> & <- & _ & H2 & Hh).
    replace (l1 ++ x :: l2) with ((l1 ++ [x]) ++ l2) by (by rewrite <- app_assoc).
    rewrite at_time_app; [by apply at_time_snoc|].
    destruct l2 as [|y l2]; [constructor|]. cbn in Hh. specialize (Hnext y (eq_sym Hh)).
    assert (increasing start (y :: l2)) as Hs2 by (apply increasing_app in Hs as (_ & [? _]%StronglySorted_inv & _); done).
    apply StronglySorted_inv in Hs2 as [_ Hs2].
    constructor; [done|]. eapply Forall_impl; [exact Hs2|]. cbn. lia.
Qed.

Lemma at_time_some l x t : increasing start (x :: l) → start x ≤ t → is_Some (at_time start (x :: l) t).
Proof.
  intros _ Hx. unfold at_time. change (list_filter ?P ?d ?l) with (filter P l).
  rewrite filter_cons_True by done. apply last_is_Some. done.
Qed.
End at_time.

(** ** The reference *)
Section reference.
Context (now : DateTime) (session_start : option DateTime) (p : ChargingProfile).

(** The start of the schedule that is in force at [t]: for a recurring profile the
    last occurrence up to [t]. *)
Definition start_at (t : DateTime) : option DateTime :=
  match chargingProfileKind p with
  | Absolute => Some (floor_seconds (match startSchedule (chargingSchedule p) with
                                     | Some s => s
                                     | None => default (floor_seconds now) (validFrom p)
                                     end))
  | Recurring =>
      match recurrencyKind p, startSchedule (chargingSchedule p) with
      | Some k, Some s => Some (t - (t - floor_seconds s) mod (recurrency_seconds k * second))
      | _, _ => None
      end
  | Relative => Some (floor_seconds (default now session_start))
  end.

(** A duration the profile leaves open is the longest one there is. *)
Definition within_schedule (off : Z) : Prop :=
  0 ≤ off < INT_MAX ∧ ∀ d, duration (chargingSchedule p) = Some d → off < d.
Definition within_validity (t : DateTime) : Prop :=
  (∀ v, validFrom p = Some v → floor_seconds v ≤ t) ∧ (∀ v, validTo p = Some v → t < floor_seconds v).

(** The period [per] of the profile is in force at [t]. *)
Definition in_force (t : DateTime) (per : ChargingSchedulePeriod) : Prop :=
  ∃ s, start_at t = Some s ∧ let off := (t - s) / second in
    within_schedule off ∧ within_validity t ∧
    at_time startPeriod (chargingSchedulePeriod (chargingSchedule p)) off = Some per.

Lemma in_force_unique t per per' : in_force t per → in_force t per' → per = per'.
Proof. intros (s & Hs & _ & _ & H) (s' & Hs' & _ & _ & H'). congruence. Qed.
End reference.

(** Periods as a profile has to give them: from 0 on, increasing. *)
Definition periods_ok (l : list ChargingSchedulePeriod) : Prop :=
  increasing startPeriod l ∧ (∀ x, head l = Some x → startPeriod x = 0) ∧ Forall (λ x, startPeriod x ≤ INT_MAX) l.

(** ** The starts of the schedule *)
Section starts.
Context {X : Type}.

Lemma seconds_to_go_back_mod now s k : whole now → whole s →
  seconds_to_go_back now s k * second = (now - s) mod (recurrency_seconds k * second).
Proof.
  intros Hn Hs. unfold seconds_to_go_back. pose proof (quot_whole now s Hn Hs) as Hq.
  set (q := Z.quot (now - s) second) in *.
  assert (0 < recurrency_seconds k) as Hk by (by destruct k).
  rewrite <- Hq, Z.mul_mod_distr_r by (unfold second; lia). f_equal.
  pose proof (Z.rem_bound_abs q (recurrency_seconds k)) as Hb. pose proof (Z.quot_rem q (recurrency_seconds k)) as Hr.
  destruct (Z.ltb_spec (Z.rem q (recurrency_seconds k)) 0).
  - apply (Z.mod_unique_pos _ _ (Z.quot q (recurrency_seconds k) - 1)); lia.
  - apply (Z.mod_unique_pos _ _ (Z.quot q (recurrency_seconds k))); lia.
Qed.

(** The occurrences are [P] apart, and end with the last one up to [end_]. *)
Lemma occurrences_spec fuel start end_ f : 0 < f → whole start →
  (end_ - start) / (f * second) < Z.of_nat fuel →
  ∃ ss, occurrences (X:=X) fuel start end_ f = Ret ss ∧ Forall (λ s, whole s ∧ s ≤ end_) ss ∧
    (∀ l1 s l2, ss = l1 ++ s :: l2 → s = start + Z.of_nat (length l1) * (f * second) ∧
       match head l2 with Some s' => s' = s + f * second | None => end_ < s + f * second end) ∧
    (∀ j, 0 ≤ j → start + j * (f * second) ≤ end_ → ∃ l1 s l2, ss = l1 ++ s :: l2 ∧ Z.of_nat (length l1) = j).
Proof.
  intros Hf. revert start. induction fuel as [|fuel IH]; intros start Hw Hfuel; cbn [occurrences].
  - destruct (Z.leb_spec start end_) as [Hle|Hgt].
    + exfalso. assert (0 ≤ (end_ - start) / (f * second)) by (apply Z.div_pos; unfold second; lia). lia.
    + exists []. split_and!; [done..| |].
      * intros [|] ? ? ?; done.
      * intros j Hj Hle. exfalso. unfold second in *. nia.
  - destruct (Z.leb_spec start end_) as [Hle|Hgt].
    + destruct (IH (start + f * second)) as (ss & -> & Hss & Hnext & Hall).
      { destruct Hw as [k ->]. exists (k + f). lia. }
      { replace (end_ - (start + f * second)) with (end_ - start + (-1) * (f * second)) by lia.
        rewrite Z.div_add by (unfold second; lia). lia. }
      exists (start :: ss). split_and!; [done|by constructor| |].
      * intros [|a l1] s l2 [= <- E].
        -- split; [cbn; lia|]. subst l2. destruct ss as [|s1 ss].
           ++ cbn. destruct (decide (start + f * second ≤ end_)) as [Hl|Hl]; [|lia].
              destruct (Hall 0) as (l1 & ? & ? & ? & _); [lia|lia|]. by destruct l1.
           ++ cbn. destruct (Hnext [] s1 ss eq_refl) as [-> _]. cbn. lia.
        -- destruct (Hnext l1 s l2 E) as [-> ?]. split; [cbn [length]; lia|done].
      * intros j Hj Hle'. destruct (decide (j = 0)) as [->|Hj0]; [by exists [], start, ss|].
        destruct (Hall (j - 1)) as (l1 & s & l2 & -> & Hl); [lia|lia|].
        exists (start :: l1), s, l2. split; [done|]. cbn [length]. lia.
    + exists []. split_and!; [done..| |].
      * intros [|] ? ? ?; done.
      * intros j Hj Hle. exfalso. unfold second in *. nia.
Qed.

(** [s] is one of the starts and [t] lies between it and the next one. *)
Definition governs (ss : list DateTime) (t s : DateTime) : Prop :=
  s ≤ t ∧ ∃ l1 l2, ss = l1 ++ s :: l2 ∧ ∀ s', head l2 = Some s' → t < s'.

Lemma recurring_starts now end_ k s0 :
  let start := floor_seconds now - seconds_to_go_back (floor_seconds now) (floor_seconds s0) k * second in
  let P := recurrency_seconds k * second in
  ∃ ss, occurrences (X:=X) (S (Z.to_nat ((floor_seconds end_ - start) / P))) start (floor_seconds end_)
          (recurrency_seconds k) = Ret ss ∧ Forall whole ss ∧
    (∀ l1 s l2 s', ss = l1 ++ s :: l2 → head l2 = Some s' → 0 < s' - s < INT_MAX * second) ∧
    (∀ t s, whole t → floor_seconds now ≤ t ≤ end_ →
      governs ss t s ↔ Some (t - (t - floor_seconds s0) mod P) = Some s ∧ s ≤ t) ∧
    ∀ s, s ∈ ss → ∃ s', Some (floor_seconds end_ - (floor_seconds end_ - floor_seconds s0) mod P) = Some s' ∧ s ≤ s'.
Proof.
  intros start P. pose proof (whole_floor now) as Hn. pose proof (whole_floor s0) as Hs0.
  pose proof (seconds_to_go_back_mod _ _ k Hn Hs0) as Hback. fold P in Hback.
  assert (0 < recurrency_seconds k ∧ recurrency_seconds k < INT_MAX ∧ 0 < P) as (Hk & Hk' & HP) by (by destruct k).
  assert (start = floor_seconds now - (floor_seconds now - floor_seconds s0) mod P) as Hstart by (unfold start; lia).
  assert (whole start) as Hws.
  { destruct Hn as [a Ha]. exists (a - seconds_to_go_back (floor_seconds now) (floor_seconds s0) k).
    unfold start. lia. }
  clearbody start. pose proof (Z.mod_pos_bound (floor_seconds now - floor_seconds s0) P HP) as Hmod.
  destruct (occurrences_spec (S (Z.to_nat ((floor_seconds end_ - start) / P))) start (floor_seconds end_)
    (recurrency_seconds k) Hk Hws) as (ss & -> & Hw & Hnext & Hall).
  { fold P. lia. }
  (* the start in force at [t] is the start plus a number of periods *)
  assert (∀ t, ∃ j, t - (t - floor_seconds s0) mod P = start + j * P) as Hj.
  { intros t. rewrite Hstart.
    exists ((t - floor_seconds s0) / P - (floor_seconds now - floor_seconds s0) / P).
    pose proof (Z.div_mod (t - floor_seconds s0) P). pose proof (Z.div_mod (floor_seconds now - floor_seconds s0) P). lia. }
  exists ss. split_and!; [done|by eapply Forall_impl; [exact Hw|]; intros ? []|..].
  1: { intros l1 s l2 s' E Hs'. destruct (Hnext _ _ _ E) as [_ H]. rewrite Hs' in H. unfold second in *. lia. }
  2: { intros s (l1 & l2 & E)%list_elem_of_split. eexists. split; [done|]. destruct (Hj (floor_seconds end_)) as [j Ej].
    destruct (Hnext _ _ _ E) as [Es _]. rewrite E in Hw. apply Forall_app in Hw as [_ [[_ ?] _]%Forall_cons].
    pose proof (Z.mod_pos_bound (floor_seconds end_ - floor_seconds s0) P HP). rewrite Ej. fold P in Es.
    unfold DateTime in *. assert (Z.of_nat (length l1) < j + 1) by (apply (Z.mul_lt_mono_pos_r P); lia). nia. }
  intros t s Ht Hr. destruct (Hj t) as [j Hjt]. pose proof (Z.mod_pos_bound (t - floor_seconds s0) P HP) as Hmt.
  split.
  - intros (Hle & l1 & l2 & -> & Hbefore). split; [|done]. destruct (Hnext l1 s l2 eq_refl) as [-> H].
    assert (t < start + Z.of_nat (length l1) * P + P) as Hlt.
    { destruct (head l2) as [s'|]; [subst s'; specialize (Hbefore _ eq_refl); lia|].
      pose proof (proj1 (floor_le t end_ Ht)). unfold P in *. lia. }
    rewrite Hjt. f_equal. f_equal. f_equal. unfold P in *. nia.
  - intros [[= Es] Hle]. split; [done|]. rewrite Hjt in Es.
    assert (0 ≤ j) by nia. destruct (Hall j) as (l1 & s1 & l2 & -> & Hl).
    { done. } { fold P. pose proof (proj1 (floor_le t end_ Ht)). lia. }
    destruct (Hnext l1 s1 l2 eq_refl) as [Hs1 Hn']. assert (s1 = s) as -> by (rewrite Hs1, Hl, <- Es; done).
    exists l1, l2. split; [done|]. intros s' Hs'. rewrite Hs' in Hn'. fold P in Hn'. lia.
Qed.

(** The start that governs a point of time is the one in force. *)
Lemma calculate_start_spec now end_ session p :
  ∃ ss, calculate_start (X:=X) now end_ session p = Ret ss ∧ Forall whole ss ∧
    (∀ l1 s l2 s', ss = l1 ++ s :: l2 → head l2 = Some s' → 0 < s' - s < INT_MAX * second) ∧
    (∀ t s, whole t → floor_seconds now ≤ t ≤ end_ →
      governs ss t s ↔ start_at now session p t = Some s ∧ s ≤ t) ∧
    ∀ s, s ∈ ss → ∃ s', start_at now session p (floor_seconds end_) = Some s' ∧ s ≤ s'.
Proof.
  assert (∀ a, whole a → Forall whole [a] ∧
    (∀ l1 s l2 s', [a] = l1 ++ s :: l2 → head l2 = Some s' → 0 < s' - s < INT_MAX * second) ∧
    (∀ t s, governs [a] t s ↔ Some a = Some s ∧ s ≤ t) ∧ ∀ s, s ∈ [a] → ∃ s', Some a = Some s' ∧ s ≤ s') as Hone.
  { intros a Ha. split_and!; [by repeat constructor|..].
    - intros l1 s l2 s' E. apply (f_equal length) in E as Hl. rewrite length_app in Hl. cbn in Hl.
      destruct l2; [done|cbn in Hl; lia].
    - intros t s. split.
      + intros (Hle & l1 & l2 & E & _). destruct l1 as [|? [|]]; [injection E as <- _|done..]. done.
      + intros [[= <-] Hle]. split; [done|]. by exists [], [].
    - intros s ->%list_elem_of_singleton. by exists a. }
  unfold calculate_start, start_at. destruct (chargingProfileKind p).
  - eexists. split; [done|]. destruct (Hone _ (whole_floor (match startSchedule (chargingSchedule p) with
      | Some t => t | None => default (floor_seconds now) (validFrom p) end))) as (H1 & H2 & H3 & H4). split_and!; [done..| |done].
    intros t s _ _. apply H3.
  - assert (∃ ss : list DateTime, (Ret [] : outcome X _) = Ret ss ∧ Forall whole ss ∧
      (∀ l1 s l2 s', ss = l1 ++ s :: l2 → head l2 = Some s' → 0 < s' - s < INT_MAX * second) ∧
      (∀ t s, whole t → floor_seconds now ≤ t ≤ end_ → governs ss t s ↔ None = Some s ∧ s ≤ t) ∧
      ∀ s, s ∈ ss → ∃ s', None = Some s' ∧ s ≤ s') as Hnone.
    { exists []. split_and!; [done..|by intros []| |by intros ? ?%not_elem_of_nil].
      intros t s _ _. split; [by intros (_ & [] & ? & ? & ?)|by intros []]. }
    destruct (recurrencyKind p) as [k|]; [|exact Hnone].
    destruct (startSchedule (chargingSchedule p)) as [s0|]; [clear Hnone Hone|exact Hnone].
    apply recurring_starts.
  - eexists. split; [done|]. assert (whole (floor_seconds (default now session))) as Hw by apply whole_floor.
    destruct (Hone _ Hw) as (H1 & H2 & H3 & H4).
    assert (match session with Some t => floor_seconds t | None => floor_seconds now end =
            floor_seconds (default now session)) as -> by (by destruct session).
    split_and!; [done..| |done]. intros t s _ _. apply H3.
Qed.
End starts.

(** ** The entries of a period *)
Definition covers (e : period_entry_t) (t : DateTime) : Prop := entry_start e ≤ t < entry_end e.

(** The entry belongs to the period [per] of [p]. *)
Definition entry_for (p : ChargingProfile) (per : ChargingSchedulePeriod) (e : period_entry_t) : Prop :=
  entry_limit e = limit per ∧ number_phases e = numberPhases per ∧ stack_level e = stackLevel p ∧
  charging_rate_unit e = chargingRateUnit (chargingSchedule p).

(** Entries that can be laid out from [now] to [end_]. *)
Definition entry_ok (now end_ : DateTime) (e : period_entry_t) : Prop :=
  whole (entry_start e) ∧ whole (entry_end e) ∧ entry_start e < entry_end e ∧ floor_seconds now < entry_end e ∧
  entry_start e ≤ floor_seconds end_.

Lemma forall_some {T} (a : T) (P : T → Prop) : (∀ x, Some a = Some x → P x) ↔ P a.
Proof. naive_solver. Qed.

Lemma forall_none {T} (Q : Prop) (P : T → Prop) : Q ∧ (∀ x, None = Some x → P x) ↔ Q.
Proof. naive_solver. Qed.

Lemma period_duration_spec p next (s : DateTime) (nxt : option DateTime) (t : DateTime) :
  whole s → whole t → s ≤ t →
  (∀ q, next = Some q → startPeriod q ≤ INT_MAX) →
  (∀ s', nxt = Some s' → whole s' ∧ 0 < s' - s < INT_MAX * second) →
  (∀ v, validTo p = Some v → s - floor_seconds v ≤ 2 ^ 31 * second) →
  let off := (t - s) / second in
  t < s + period_duration p next s nxt * second ↔
  off < INT_MAX ∧ (∀ q, next = Some q → off < startPeriod q) ∧
  (∀ d, duration (chargingSchedule p) = Some d → off < d) ∧
  (∀ s', nxt = Some s' → t < s') ∧ (∀ v, validTo p = Some v → t < floor_seconds v).
Proof.
  intros Hs Ht Hle Hnext Hnxt Hvt off.
  assert (t = s + off * second ∧ 0 ≤ off) as [Et Hoff].
  { destruct Hs as [a ->], Ht as [b ->]. unfold off. rewrite <- Z.mul_sub_distr_r, Z.div_mul by done.
    unfold second in *. lia. }
  clearbody off. unfold period_duration. cbv zeta.
  set (d1 := match next with Some q => startPeriod q | None => INT_MAX end).
  assert (d1 ≤ INT_MAX ∧ (off < d1 ↔ off < INT_MAX ∧ ∀ q, next = Some q → off < startPeriod q)) as [Hd1 E1].
  { unfold d1. destruct next as [q|]; [|by rewrite forall_none].
    specialize (Hnext q eq_refl). rewrite (forall_some q). lia. }
  clearbody d1. set (d2 := match duration (chargingSchedule p) with Some n => if n <? d1 then n else d1 | None => d1 end).
  assert (d2 ≤ INT_MAX ∧ (off < d2 ↔ off < d1 ∧ ∀ d, duration (chargingSchedule p) = Some d → off < d)) as [Hd2 E2].
  { unfold d2. destruct (duration (chargingSchedule p)) as [n|]; [|by rewrite forall_none].
    rewrite forall_some. destruct (Z.ltb_spec n d1); lia. }
  clearbody d2. set (d3 := match nxt with
    | Some t0 => if Z.quot (t0 - s) second <? d2 then clamp_to_int (Z.quot (t0 - s) second) else d2 | None => d2 end).
  assert (d3 ≤ INT_MAX ∧ (off < d3 ↔ off < d2 ∧ ∀ s', nxt = Some s' → t < s')) as [Hd3 E3].
  { unfold d3. destruct nxt as [s'|]; [|by rewrite forall_none]. rewrite forall_some.
    destruct (Hnxt s' eq_refl) as [Hw Hb]. pose proof (quot_whole s' s Hw Hs) as Hq. unfold second in *.
    destruct (Z.ltb_spec (Z.quot (s' - s) 1000000000) d2); [rewrite clamp_id by lia|]; lia. }
  clearbody d3. set (d4 := match validTo p with
    | Some t0 => if Z.quot (floor_seconds t0 - s) second <? d3 then clamp_to_int (Z.quot (floor_seconds t0 - s) second) else d3
    | None => d3 end).
  assert (off < d4 ↔ off < d3 ∧ ∀ v, validTo p = Some v → t < floor_seconds v) as E4.
  { unfold d4. destruct (validTo p) as [v|]; [|by rewrite forall_none]. rewrite forall_some.
    specialize (Hvt v eq_refl). pose proof (quot_whole _ s (whole_floor v) Hs) as Hq. unfold second in *.
    destruct (Z.ltb_spec (Z.quot (floor_seconds v - s) 1000000000) d3); [rewrite clamp_id by lia|]; lia. }
  clearbody d4. assert (t < s + d4 * second ↔ off < d4) as -> by (unfold second in *; lia). tauto.
Qed.

(** A valid entry covers what lies in the period and in the validity of the profile. *)
Lemma validate_spec p now s d per :
  whole s → let '(valid, e) := period_entry_validate (period_entry_init s d per p) p (floor_seconds now) in
  (valid = true → entry_for p per e ∧ whole (entry_start e) ∧ whole (entry_end e) ∧ entry_start e < entry_end e ∧
     floor_seconds now < entry_end e) ∧
  ∀ t, floor_seconds now ≤ t →
    valid = true ∧ covers e t ↔
    s + startPeriod per * second ≤ t ∧ (∀ v, validFrom p = Some v → floor_seconds v ≤ t) ∧ t < s + d * second.
Proof.
  intros Hs. pose proof (floor_whole s Hs) as Hfl. unfold period_entry_validate, period_entry_init, covers, entry_for.
  cbn. rewrite Hfl.
  assert (whole (s + startPeriod per * second) ∧ whole (s + d * second)) as [Hw1 Hw2].
  { destruct Hs as [k ->]. rewrite <- !Z.mul_add_distr_r. split; eexists; done. }
  destruct (validFrom p) as [v|].
  - pose proof (whole_floor v). assert (∀ t, (∀ v0, Some v = Some v0 → floor_seconds v0 ≤ t) ↔ floor_seconds v ≤ t) as Hv
      by (intros; apply (forall_some v)).
    destruct (Z.gtb_spec (floor_seconds v) (s + startPeriod per * second));
      [destruct (Z.geb_spec (floor_seconds v) (s + d * second))|]; cbn; rewrite ?andb_true_iff, ?Z.gtb_lt; split;
      try (intros; split_and!; (done || lia)); intros t Ht; rewrite Hv, ?andb_true_iff, ?Z.gtb_lt; lia.
  - cbn. rewrite !andb_true_iff, !Z.gtb_lt. split; [intros; split_and!; (done || lia)|].
    intros t Ht. split; [intros; split_and!; (done || lia)|intros (? & _ & ?); lia].
Qed.

Lemma schedule_entries_elem now p per next ss e :
  e ∈ schedule_entries now p per next ss ↔
  ∃ l1 s l2, ss = l1 ++ s :: l2 ∧
    period_entry_validate (period_entry_init s (period_duration p next s (head l2)) per p) p now = (true, e).
Proof.
  induction ss as [|s0 ss IH]; cbn [schedule_entries].
  - split; [by intros ?%not_elem_of_nil|]. intros ([] & ? & ? & ? & _); done.
  - destruct (period_entry_validate _ p now) as [valid e0] eqn:Ev. rewrite elem_of_app, IH. split.
    + intros [H|(l1 & s & l2 & -> & H)]; [|by exists (s0 :: l1), s, l2].
      destruct valid; [|by apply not_elem_of_nil in H]. apply list_elem_of_singleton in H as ->. by exists [], s0, ss.
    + intros ([|a l1] & s & l2 & [= -> ->] & H).
      * rewrite H in Ev. injection Ev as <- <-. left. by apply list_elem_of_singleton.
      * right. by exists l1, s, l2.
Qed.

Section entries.
Context {X : Type} (now end_ : DateTime) (session : option DateTime) (p : ChargingProfile).
Notation periods := (chargingSchedulePeriod (chargingSchedule p)).

(** A profile whose periods are in order, and whose validity does not end decades
    before its schedule starts. *)
Definition profile_ok : Prop :=
  periods_ok periods ∧
  ∀ v s, validTo p = Some v → start_at now session p (floor_seconds end_) = Some s →
    s - floor_seconds v ≤ 2 ^ 31 * second.

Context (Hok : profile_ok).

Lemma previous_before i this : periods !! i = Some this →
  ((i =? 0)%nat && negb (startPeriod this =? 0) = false) ∧
  ((0 <? i)%nat && match periods !! pred i with Some q => startPeriod q >=? startPeriod this | None => false end = false).
Proof.
  destruct Hok as [(Hinc & Hhd & _) _]. intros Hi. destruct i as [|i]; cbn.
  - rewrite (Hhd this) by (by rewrite head_lookup). done.
  - split; [done|]. destruct (periods !! i) as [q|] eqn:Eq; [|done].
    destruct (increasing_split startPeriod periods i q Hinc Eq) as (l1 & l2 & _ & _ & _ & Hf & Hh).
    rewrite Hi in Hh. destruct l2 as [|? l2]; [done|]. injection Hh as ->. apply Forall_cons in Hf as [? _].
    destruct (Z.geb_spec (startPeriod q) (startPeriod this)); [lia|done].
Qed.

Lemma unsorted_entries_spec ss : calculate_start (X:=X) now end_ session p = Ret ss →
  ∀ idx, (∀ i, i ∈ idx → (i < length periods)%nat) →
  ∃ es, unsorted_entries (X:=X) now end_ session p idx = Ret es ∧ ∀ e, e ∈ es ↔
    ∃ i this, i ∈ idx ∧ periods !! i = Some this ∧ entry_start e ≤ end_ ∧
      e ∈ schedule_entries (floor_seconds now) p this (periods !! S i) ss.
Proof.
  intros Hss. induction idx as [|i idx IH]; intros His.
  - exists []. split; [done|]. intros e. split; [by intros ?%not_elem_of_nil|]. by intros (? & ? & ?%not_elem_of_nil & _).
  - destruct IH as (es & Hes & Helem); [intros; apply His; by right|].
    destruct (lookup_lt_is_Some_2 periods i) as [this Hthis]; [apply His; left|].
    cbn [unsorted_entries]. unfold calculate_profile_entry. rewrite Hthis.
    destruct (previous_before i this Hthis) as [-> ->]. rewrite Hss. cbn. rewrite Hes. cbn. eexists. split; [done|].
    intros e. rewrite elem_of_app, Helem. change (list_filter ?P ?d ?l) with (filter P l). rewrite list_elem_of_filter.
    split.
    + intros [[Hle He]|(i' & this' & Hi' & Hrest)]; [exists i, this|exists i', this']; split_and!; try done;
        [left|right; done|naive_solver..].
    + intros (i' & this' & Hi' & Hthis' & Hle & He). apply elem_of_cons in Hi' as [->|Hi']; [|right; by exists i', this'].
      left. rewrite Hthis in Hthis'. by injection Hthis' as <-.
Qed.

(** The period of index [i] is in force when the offset lies in it. *)
Lemma period_in_force i this off : periods !! i = Some this →
  startPeriod this ≤ off ∧ (∀ q, periods !! S i = Some q → off < startPeriod q) →
  at_time startPeriod periods off = Some this.
Proof. destruct Hok as [(Hinc & _) _]. intros Hi [H1 H2]. apply at_time_lookup; [done|]. by exists i. Qed.

(** The part of an entry of the period [this] with start [s] that covers [t]. *)
Lemma entry_at ss l1 s l2 i this t :
  calculate_start (X:=X) now end_ session p = Ret ss → ss = l1 ++ s :: l2 → periods !! i = Some this →
  whole t → floor_seconds now ≤ t ≤ end_ →
  let '(valid, e) := period_entry_validate (period_entry_init s
    (period_duration p (periods !! S i) s (head l2)) this p) p (floor_seconds now) in
  valid = true ∧ covers e t ↔
  s ≤ t ∧ (∀ s', head l2 = Some s' → t < s') ∧ within_schedule p ((t - s) / second) ∧ within_validity p t ∧
  startPeriod this ≤ (t - s) / second ∧ (∀ q, periods !! S i = Some q → (t - s) / second < startPeriod q).
Proof.
  intros Hss E Hi Ht Hr. destruct (calculate_start_spec (X:=X) now end_ session p) as (ss' & E' & Hw & Hgap & _ & Hlast).
  rewrite Hss in E'. injection E' as <-. pose proof Hok as [(_ & _ & Hmax) Hvt].
  assert (whole s) as Hs by (rewrite E in Hw; by apply Forall_app in Hw as [_ [? _]%Forall_cons]).
  destruct (Hlast s) as (s2 & Hs2 & Hle2); [rewrite E; set_solver|].
  assert (0 ≤ startPeriod this) as Hpos.
  { destruct Hok as [(Hinc & Hhd & _) _]. destruct periods as [|x l] eqn:El; [done|]. specialize (Hhd x eq_refl).
    apply StronglySorted_inv in Hinc as [_ Hinc]. destruct i as [|i]; [injection Hi as ->; lia|].
    eapply Forall_lookup_1 in Hinc; [|exact Hi]. lia. }
  pose proof (validate_spec p now s (period_duration p (periods !! S i) s (head l2)) this Hs) as H.
  destruct (period_entry_validate _ _ _) as [valid e]. destruct H as [_ H]. rewrite (H t) by lia. clear H.
  assert (∀ off, (t - s) / second = off → s ≤ t → t = s + off * second ∧ 0 ≤ off) as Hoff.
  { intros off <- Hle. destruct Hs as [a ->], Ht as [b ->]. rewrite <- Z.mul_sub_distr_r, Z.div_mul by done.
    unfold second in *. lia. }
  specialize (Hoff _ eq_refl). set (off := (t - s) / second) in *.
  pose proof (λ Hle, period_duration_spec p (periods !! S i) s (head l2) t Hs Ht Hle) as Hd. cbv zeta in Hd. fold off in Hd.
  assert (s ≤ t → t < s + period_duration p (periods !! S i) s (head l2) * second ↔
    off < INT_MAX ∧ (∀ q, periods !! S i = Some q → off < startPeriod q) ∧
    (∀ d, duration (chargingSchedule p) = Some d → off < d) ∧
    (∀ s', head l2 = Some s' → t < s') ∧ (∀ v, validTo p = Some v → t < floor_seconds v)) as Hd'.
  { intros Hle. apply Hd; [done|..].
    - intros q Hq. by eapply Forall_lookup_1 in Hmax; [|exact Hq].
    - intros s' Hs'. split; [|by eapply Hgap]. rewrite E in Hw. apply Forall_app in Hw as [_ [_ Hw]%Forall_cons].
      destruct l2; [done|]. injection Hs' as ->. by apply Forall_cons in Hw as [? _].
    - intros v Hv. specialize (Hvt v s2 Hv Hs2). lia. }
  clear Hd. unfold within_schedule, within_validity. split.
  - intros (H1 & H2 & H3). assert (s ≤ t) as Hle by (unfold second in *; lia).
    apply Hd' in H3 as (H4 & H5 & H6 & H7 & H8); [|done]. specialize (Hoff Hle) as [Et Hpos']. unfold second in *.
    split_and!; try done. lia.
  - intros (Hle & H1 & [H2 H3] & [H4 H5] & H6 & H7). specialize (Hoff Hle) as [Et Hpos']. split_and!; [|done|].
    + unfold second in *. lia.
    + apply Hd'; [done|]. split_and!; try done. lia.
Qed.

Lemma unsorted_in_force :
  ∃ es, calculate_profile_unsorted (X:=X) now end_ session p = Ret es ∧ Forall (entry_ok now end_) es ∧
    ∀ t, whole t → floor_seconds now ≤ t ≤ end_ →
      (∀ per, in_force now session p t per → ∃ e, e ∈ es ∧ covers e t ∧ entry_for p per e) ∧
      (∀ e, e ∈ es → covers e t → ∃ per, in_force now session p t per ∧ entry_for p per e).
Proof.
  destruct (calculate_start_spec (X:=X) now end_ session p) as (ss & Hss & Hw & _ & Hgov & _).
  destruct (unsorted_entries_spec ss Hss (seq 0 (length periods))) as (es & Hes & Helem).
  { intros i Hi. apply elem_of_seq in Hi. lia. }
  assert (∀ l1 s l2, ss = l1 ++ s :: l2 → whole s) as Hws.
  { intros l1 s l2 ->. by apply Forall_app in Hw as [_ [? _]%Forall_cons]. }
  exists es. split_and!; [exact Hes|..].
  - apply Forall_forall. intros e He. apply Helem in He as (i & this & _ & Hi & Hle & He).
    apply schedule_entries_elem in He as (l1 & s & l2 & E & Hv).
    pose proof (validate_spec p now s (period_duration p (periods !! S i) s (head l2)) this (Hws _ _ _ E)) as H.
    rewrite Hv in H. destruct H as [H _]. destruct (H eq_refl) as (_ & H1 & H2 & H3 & H4).
    split_and!; [done..|]. by apply (proj1 (floor_le _ end_ H1)).
  - intros t Ht Hr. split.
    + intros per (s & Hs & H1 & H2 & H3). cbv zeta in *.
      assert (s ≤ t) as Hle.
      { destruct H1 as [[H1 _] _]. pose proof (Z.mul_div_le (t - s) second). unfold second in *. lia. }
      destruct (proj2 (Hgov t s Ht Hr) (conj Hs Hle)) as (_ & l1 & l2 & E & Hbefore).
      destruct Hok as [(Hinc & _) _]. apply at_time_lookup in H3 as (i & Hi & H3 & H4); [|done].
      pose proof (entry_at ss l1 s l2 i per t Hss E Hi Ht Hr) as H.
      pose proof (validate_spec p now s (period_duration p (periods !! S i) s (head l2)) per (Hws _ _ _ E)) as Hval.
      destruct (period_entry_validate _ _ _) as [valid e] eqn:Ev. destruct H as [_ H], Hval as [Hval _].
      destruct H as [Hvalid Hc]; [done|]. subst valid. exists e. split_and!; [|done|by destruct (Hval eq_refl)].
      apply Helem. exists i, per. split_and!; [apply elem_of_seq; apply lookup_lt_Some in Hi; lia|done| |].
      * destruct Hc. lia.
      * apply schedule_entries_elem. by exists l1, s, l2.
    + intros e He Hc. apply Helem in He as (i & this & _ & Hi & Hle & He).
      apply schedule_entries_elem in He as (l1 & s & l2 & E & Hv).
      pose proof (entry_at ss l1 s l2 i this t Hss E Hi Ht Hr) as H.
      pose proof (validate_spec p now s (period_duration p (periods !! S i) s (head l2)) this (Hws _ _ _ E)) as Hval.
      rewrite Hv in H, Hval. destruct H as [H _], Hval as [Hval _].
      destruct H as (H1 & H2 & H3 & H4 & H5); [done|]. exists this. split; [|by destruct (Hval eq_refl)].
      exists s. split; [|exact (conj H3 (conj H4 (period_in_force i this _ Hi H5)))].
      apply (Hgov t s Ht Hr). split; [done|]. by exists l1, l2.
Qed.

End entries.

End ProfileFacts.
