(* ===== verification/ScheduleFacts.v ===== *)
(** * From overlapping periods to one schedule

    [generate_profile_from_periods] lays out entries of several profiles: at every
    second its result has the limits of the entry with the highest stack level that
    covers it. *)

From S2P Require Import Prelude Float32 Profile ProfileFacts.

Module ScheduleFacts.
Import Float32 Profile ProfileFacts.

(** A stronger condition that loses an element leaves fewer. *)
Lemma filter_shrinks {T} (P Q : T → Prop) `{∀ x, Decision (P x)} `{∀ x, Decision (Q x)} (l : list T) :
  (∀ x, Q x → P x) → (∃ x, x ∈ l ∧ P x ∧ ¬ Q x) → (length (filter Q l) < length (filter P l))%nat.
Proof.
  intros HQP. assert (∀ l, length (filter Q l) ≤ length (filter P l))%nat as Hle.
  { clear l. induction l as [|y l IH]; [done|]. rewrite !filter_cons. repeat case_decide; cbn; try lia. naive_solver. }
  induction l as [|y l IH]; intros (x & Hx & HP & HQ); [by apply not_elem_of_nil in Hx|].
  rewrite !filter_cons. apply elem_of_cons in Hx as [->|Hx].
  - rewrite (decide_True (P:=P y)), (decide_False (P:=Q y)) by done. cbn. specialize (Hle l). lia.
  - specialize (IH ltac:(eauto)). repeat case_decide; cbn; try lia. naive_solver.
Qed.

Section generate.
Context {X : Type} `{SORT : StdSort} `{!StdSortLaws}.

(** ** Entries of several profiles *)

(** The entries are those in force, of the profiles with the purpose. *)
Definition entries_for (now end_ : DateTime) (session : option DateTime) (ps : list ChargingProfile)
    (purpose : ChargingProfilePurposeType) (es : list period_entry_t) : Prop :=
  Forall (entry_ok now end_) es ∧
  ∀ t, whole t → floor_seconds now ≤ t ≤ end_ →
    (∀ p per, p ∈ ps → chargingProfilePurpose p = purpose → in_force now session p t per →
       ∃ e, e ∈ es ∧ covers e t ∧ entry_for p per e) ∧
    (∀ e, e ∈ es → covers e t →
       ∃ p per, p ∈ ps ∧ chargingProfilePurpose p = purpose ∧ in_force now session p t per ∧ entry_for p per e).

Lemma collect_profiles_spec now end_ session ps purpose :
  Forall (profile_ok now end_ session) ps →
  ∃ es, collect_profiles (X:=X) now end_ session ps purpose = Ret es ∧ entries_for now end_ session ps purpose es.
Proof.
  induction 1 as [|p ps Hp _ (es & Hes & Hok & Hat)]; cbn [collect_profiles].
  { exists []. split; [done|]. split; [done|]. intros t _ _. split; [by intros ? ? ?%not_elem_of_nil|by intros ? ?%not_elem_of_nil]. }
  assert (∃ es0, (if decide (chargingProfilePurpose p = purpose)
      then calculate_profile_unsorted (X:=X) now end_ session p else Ret []) = Ret es0 ∧ Forall (entry_ok now end_) es0 ∧
    ∀ t, whole t → floor_seconds now ≤ t ≤ end_ →
      (∀ per, chargingProfilePurpose p = purpose → in_force now session p t per →
         ∃ e, e ∈ es0 ∧ covers e t ∧ entry_for p per e) ∧
      (∀ e, e ∈ es0 → covers e t →
         chargingProfilePurpose p = purpose ∧ ∃ per, in_force now session p t per ∧ entry_for p per e)) as (es0 & -> & Hok0 & Hat0).
  { destruct (decide (chargingProfilePurpose p = purpose)) as [Hpu|Hpu].
    - destruct (unsorted_in_force (X:=X) now end_ session p Hp) as (es0 & -> & Hok0 & Hat0). exists es0.
      split_and!; [done..|]. intros t Ht Hr. destruct (Hat0 t Ht Hr). naive_solver.
    - exists []. split_and!; [done..|]. intros t _ _. split; [done|by intros ? ?%not_elem_of_nil]. }
  cbn. rewrite Hes. cbn. eexists. split; [done|]. split; [by apply Forall_app|].
  intros t Ht Hr. destruct (Hat t Ht Hr) as [H1 H2], (Hat0 t Ht Hr) as [H3 H4]. split.
  - intros q per [->|Hq]%elem_of_cons Hpu Hf; [destruct (H3 per Hpu Hf) as (e & ? & ?)|destruct (H1 q per Hq Hpu Hf) as (e & ? & ?)];
      exists e; rewrite elem_of_app; tauto.
  - intros e [He|He]%elem_of_app Hc; [destruct (H4 e He Hc) as (? & per & ? & ?); exists p, per|
      destruct (H2 e He Hc) as (q & per & ? & ? & ? & ?); exists q, per]; rewrite elem_of_cons; tauto.
Qed.

Lemma entries_for_perm now end_ session ps purpose es es' :
  es' ≡ₚ es → entries_for now end_ session ps purpose es → entries_for now end_ session ps purpose es'.
Proof.
  intros Hp [H1 H2]. split; [by rewrite Hp|]. intros t Ht Hr. destruct (H2 t Ht Hr) as [H3 H4]. split.
  - intros p per Hin Hpu Hf. destruct (H3 p per Hin Hpu Hf) as (e & He & ?). exists e. by rewrite Hp.
  - intros e He. apply H4. by rewrite <- Hp.
Qed.

Lemma calculate_all_profiles_spec now end_ session ps purpose :
  Forall (profile_ok now end_ session) ps →
  ∃ es, calculate_all_profiles (X:=X) now end_ session ps purpose = Ret es ∧ entries_for now end_ session ps purpose es.
Proof.
  intros (es & Hes & Hfor)%(collect_profiles_spec now end_ session ps purpose). unfold calculate_all_profiles. rewrite Hes.
  eexists. split; [done|]. eapply entries_for_perm; [|exact Hfor]. apply std_sort_perm.
Qed.

(** ** The inner loop *)

(** What [find_schedule] finds when no earlier entry covers [current]: an entry that
    covers it, with the first later start before it in the list, or no entry, with the
    first later start of all. *)
Lemma find_schedule_spec l current earliest ne ch : current < earliest →
  let '(e', n', c') := find_schedule l current earliest ne ch in
  (∃ l1 s l2, l = l1 ++ s :: l2 ∧ c' = Some s ∧ e' = entry_start s ∧ covers s current ∧
     Forall (λ x, ¬ covers x current ∧ (current < entry_end x → n' ≤ entry_start x)) l1 ∧
     current < n' ≤ earliest ∧ (n' = earliest ∨ ∃ x, x ∈ l1 ∧ n' = entry_start x)) ∨
  (current < e' ≤ earliest ∧ Forall (λ x, ¬ covers x current ∧ (current < entry_end x → e' ≤ entry_start x)) l ∧
     (e' = earliest ∨ ∃ x, x ∈ l ∧ e' = entry_start x)).
Proof.
  revert earliest ne ch. induction l as [|s l IH]; intros earliest ne ch Hlt; cbn [find_schedule].
  { right. split_and!; [lia|lia|done|by left]. }
  (* an entry before [e'] and [n'] does not change what is found behind it *)
  assert (∀ lim ne' ch', current < lim ≤ earliest → ¬ covers s current → (current < entry_end s → lim ≤ entry_start s) →
    (lim = earliest ∨ lim = entry_start s) →
    let '(e', n', c') := find_schedule l current lim ne' ch' in
    (∃ l1 x l2, s :: l = l1 ++ x :: l2 ∧ c' = Some x ∧ e' = entry_start x ∧ covers x current ∧
       Forall (λ x, ¬ covers x current ∧ (current < entry_end x → n' ≤ entry_start x)) l1 ∧
       current < n' ≤ earliest ∧ (n' = earliest ∨ ∃ x, x ∈ l1 ∧ n' = entry_start x)) ∨
    (current < e' ≤ earliest ∧ Forall (λ x, ¬ covers x current ∧ (current < entry_end x → e' ≤ entry_start x)) (s :: l) ∧
       (e' = earliest ∨ ∃ x, x ∈ s :: l ∧ e' = entry_start x))) as Hskip.
  { intros lim ne' ch' Hlim Hs Hend Hor'. specialize (IH lim ne' ch' ltac:(lia)).
    destruct (find_schedule l current lim ne' ch') as [[e' n'] c'].
    destruct IH as [(l1 & x & l2 & -> & -> & -> & Hc & Hl1 & Hn & Hor)|(He & Hl & Hor)].
    - left. exists (s :: l1), x, l2. split_and!; [done..|constructor; [split; [done|lia]|done]|lia|lia|].
      destruct Hor as [->|(y & Hy & ->)]; [|set_solver]. destruct Hor' as [-> | ->]; [by left|set_solver].
    - right. split_and!; [lia|lia|constructor; [split; [done|lia]|done]|].
      destruct Hor as [->|(y & Hy & ->)]; [|set_solver]. destruct Hor' as [-> | ->]; [by left|set_solver]. }
  destruct ((entry_start s <=? earliest) && (entry_end s >? current)) eqn:Eb.
  - apply andb_prop in Eb as [H1 H2]. apply Z.leb_le in H1. apply Z.gtb_lt in H2.
    destruct (Z.leb_spec (entry_start s) current) as [H3|H3].
    + left. exists [], s, l. unfold covers. split_and!; try done; lia.
    + apply Hskip; [lia|unfold covers; lia|lia|by right].
  - apply andb_false_iff in Eb as [Eb|Eb]; [apply Z.leb_gt in Eb|rewrite Z.gtb_ltb in Eb; apply Z.ltb_ge in Eb];
      (apply Hskip; [lia|unfold covers; lia|lia|by left]).
Qed.

(** ** The layout *)

(** The entry with the highest stack level at [t]. *)
Definition best (es : list period_entry_t) (t : DateTime) (e : period_entry_t) : Prop :=
  e ∈ es ∧ covers e t ∧ ∀ e', e' ∈ es → covers e' t → stack_level e' ≤ stack_level e.

(** The period [x] has the limits for the time [t]. *)
Definition shows (es : list period_entry_t) (t : DateTime) (x : IntermediatePeriod) : Prop :=
  (∃ e, best es t e ∧ x = period_of_entry (i_startPeriod x) e) ∨
  ((∀ e, e ∈ es → ¬ covers e t) ∧ x = no_limit (i_startPeriod x)).

Definition by_stack_level (es : list period_entry_t) : Prop :=
  StronglySorted (λ a b, higher_stack_level b a = false) es.

Lemma sort_by_stack_level es : by_stack_level (std_sort higher_stack_level es).
Proof.
  apply std_sort_sorted. unfold higher_stack_level. split_and!.
  - intros a. rewrite Z.gtb_ltb. apply Z.ltb_irrefl.
  - intros a b c. rewrite !Z.gtb_lt. lia.
  - intros a b c. rewrite !Z.gtb_lt. lia.
Qed.

Lemma first_is_best l1 s l2 t : by_stack_level (l1 ++ s :: l2) →
  Forall (λ x, ¬ covers x t) l1 → covers s t → best (l1 ++ s :: l2) t s.
Proof.
  intros Hsort Hl1 Hc. split_and!; [set_solver|done|]. intros e' [He|He]%elem_of_app Hc'.
  - by eapply Forall_forall in Hl1.
  - apply elem_of_cons in He as [->|He]; [done|]. apply StronglySorted_app in Hsort as (_ & _ & [_ Hs]%StronglySorted_inv).
    eapply Forall_forall in Hs; [|exact He]. unfold higher_stack_level in Hs. rewrite Z.gtb_ltb in Hs.
    by apply Z.ltb_ge in Hs.
Qed.

(** The times at which something changes. *)
Definition boundaries (es : list period_entry_t) (end_ : DateTime) : list DateTime :=
  end_ :: map entry_start es ++ map entry_end es.

Definition remaining (es : list period_entry_t) (end_ current : DateTime) : nat :=
  length (filter (λ b, current < b) (boundaries es end_)).

Lemma generate_step_spec es now end_ current : by_stack_level es → current < end_ →
  ∃ x current', generate_step (X:=X) es now end_ current = Ret (x, current') ∧
    i_startPeriod x = elapsed_seconds current now ∧ current < current' ≤ end_ ∧ current' ∈ boundaries es end_ ∧
    ∀ u, current ≤ u < current' → shows es u x.
Proof.
  intros Hsort Hlt. unfold generate_step.
  pose proof (find_schedule_spec es current end_ end_ None Hlt) as H'.
  destruct (find_schedule es current end_ end_ None) as [[e' n'] c'].
  destruct H' as [(l1 & s & l2 & -> & -> & -> & Hc & Hl1 & Hn & Hor)|(He & Hl & Hor)].
  - destruct (Z.gtb_spec (entry_start s) current) as [Hgt|Hgt]; [destruct Hc; lia|].
    set (next := if entry_end s <? n' then entry_end s else n').
    assert (next ≤ entry_end s ∧ next ≤ n' ∧ (next = entry_end s ∨ next = n')) as (H1 & H2 & H3).
    { unfold next. destruct (Z.ltb_spec (entry_end s) n'); lia. }
    eexists _, next. split_and!; [done|done| | | |].
    + destruct Hc, H3; lia.
    + lia.
    + unfold boundaries. rewrite !elem_of_cons, !elem_of_app, !list_elem_of_fmap.
      destruct H3 as [->| ->]; [|destruct Hor as [->|(y & Hy & ->)]]; set_solver.
    + intros u Hu. left. exists s. split; [|done]. apply first_is_best; [done| |destruct Hc; split; lia].
      eapply Forall_impl; [exact Hl1|]. intros x [Hx1 Hx2] [Hx3 Hx4]. unfold covers in Hx1. lia.
  - destruct (Z.gtb_spec e' current) as [Hgt|Hgt]; [|lia]. eexists _, e'. split_and!; [done..|lia|lia| |].
    + unfold boundaries. rewrite !elem_of_cons, !elem_of_app, !list_elem_of_fmap. destruct Hor as [->|(y & Hy & ->)]; set_solver.
    + intros u Hu. right. split; [|done]. intros e Hin [He1 He2]. eapply Forall_forall in Hl; [|exact Hin].
      destruct Hl as [Hl1 Hl2]. unfold covers in Hl1. lia.
Qed.

(** Schedules without gaps: from 0 on, increasing, before the largest integer. *)
Definition profile_wf (prof : IntermediateProfile) : Prop :=
  increasing i_startPeriod prof ∧ (i_startPeriod <$> head prof) = Some 0 ∧ Forall (λ x, i_startPeriod x < INT_MAX) prof.

Lemma profile_wf_single x : i_startPeriod x = 0 → profile_wf [x].
Proof.
  intros Hx. split_and!; [apply SSorted_cons; [apply SSorted_nil|done]|by cbn; rewrite Hx|].
  apply Forall_singleton. by rewrite Hx.
Qed.

Lemma at_time_cons {T} (start : T → Z) x l t y : at_time start l t = Some y → at_time start (x :: l) t = Some y.
Proof.
  unfold at_time. change (list_filter ?P ?d ?l) with (filter P l). intros Hl. rewrite filter_cons.
  destruct (decide (start x ≤ t)); [|done]. rewrite last_cons, Hl. done.
Qed.

Lemma generate_loop_spec es now end_ : by_stack_level es → whole now → whole end_ →
  Forall (λ e, whole (entry_start e) ∧ whole (entry_end e)) es → end_ - now < INT_MAX * second →
  ∀ fuel current, whole current → now ≤ current < end_ →
  (remaining es end_ current < fuel)%nat →
  ∃ prof, generate_loop (X:=X) fuel es now end_ current = Ret prof ∧
    increasing i_startPeriod prof ∧ (i_startPeriod <$> head prof) = Some (elapsed_seconds current now) ∧
    Forall (λ x, elapsed_seconds current now ≤ i_startPeriod x < INT_MAX) prof ∧
    ∀ u, whole u → current ≤ u < end_ →
      ∃ x, at_time i_startPeriod prof (elapsed_seconds u now) = Some x ∧ shows es u x.
Proof.
  intros Hsort Hnow Hend Hes Hlen. induction fuel as [|fuel IH]; intros current Hw Hr Hfuel; [lia|].
  cbn [generate_loop]. destruct (generate_step_spec es now end_ current Hsort ltac:(lia)) as (x & c' & -> & Hx & Hc & Hb & Hshow).
  cbn. assert (whole c') as Hwc.
  { unfold boundaries in Hb. rewrite elem_of_cons, elem_of_app, !list_elem_of_fmap in Hb.
    rewrite Forall_forall in Hes. destruct Hb as [->|[(e & -> & He)|(e & -> & He)]]; [done|by apply Hes..]. }
  destruct (elapsed_whole current now Hw Hnow ltac:(lia)) as [Ec Hec].
  destruct (Z.ltb_spec c' end_) as [Hlt|Hge].
  - destruct (IH c' Hwc ltac:(lia)) as (prof & -> & Hinc & Hhd & Hall & Hat).
    { assert (remaining es end_ c' < remaining es end_ current)%nat; [|lia].
      apply filter_shrinks; [intros; lia|exists c'; split_and!; [done|lia|lia]]. }
    cbn. destruct (elapsed_whole c' now Hwc Hnow ltac:(lia)) as [Ec' Hec'].
    assert (elapsed_seconds current now < elapsed_seconds c' now) by (unfold second in *; lia).
    exists (x :: prof). split_and!; [done| |by rewrite <- Hx| |].
    + constructor; [done|]. eapply Forall_impl; [exact Hall|]. cbn. lia.
    + constructor; [lia|]. eapply Forall_impl; [exact Hall|]. cbn. lia.
    + intros u Hu Hru. destruct (elapsed_whole u now Hu Hnow ltac:(lia)) as [Eu Heu].
      destruct (decide (u < c')) as [Huc|Huc].
      * exists x. split; [|apply Hshow; lia]. change (x :: prof) with ([x] ++ prof). rewrite at_time_app.
        -- apply (at_time_snoc i_startPeriod []). unfold second in *. lia.
        -- eapply Forall_impl; [exact Hall|]. cbn. unfold second in *. lia.
      * destruct (Hat u Hu ltac:(lia)) as (y & Hy & Hs). exists y. split; [by apply at_time_cons|done].
  - exists [x]. split_and!; [done|by repeat constructor|by rewrite <- Hx|repeat constructor; lia|].
    intros u Hu Hru. destruct (elapsed_whole u now Hu Hnow ltac:(lia)) as [Eu Heu].
    exists x. split; [|apply Hshow; lia]. apply (at_time_snoc i_startPeriod []). unfold second in *. lia.
Qed.

Lemma shows_perm es es' t x : es' ≡ₚ es → shows es' t x → shows es t x.
Proof.
  intros Hp [(e & (He & Hc & Hb) & Ex)|[Hn Ex]].
  - left. exists e. split; [|done]. split_and!; [by rewrite <- Hp|done|]. intros e' He'. apply Hb. by rewrite Hp.
  - right. split; [|done]. intros e He. apply Hn. by rewrite Hp.
Qed.

Lemma remaining_bound es end_ current : (remaining es end_ current < 2 * length es + 2)%nat.
Proof.
  unfold remaining. pose proof (length_filter (λ b, current < b) (boundaries es end_)) as Hl.
  unfold boundaries, DateTime in *. cbn [length] in Hl. rewrite length_app, !length_map in Hl. lia.
Qed.

Lemma generate_profile_spec es now end_ :
  Forall (entry_ok now end_) es → floor_seconds end_ - floor_seconds now < INT_MAX * second →
  ∃ prof, generate_profile_from_periods (X:=X) es now end_ = Ret prof ∧ profile_wf prof ∧
    ∀ o, 0 ≤ o → (floor_seconds now + o * second < floor_seconds end_ ∨ o = 0) →
      ∃ x, at_time i_startPeriod prof o = Some x ∧ shows es (floor_seconds now + o * second) x.
Proof.
  intros Hok Hlen. unfold generate_profile_from_periods. set (n := floor_seconds now) in *. set (e_ := floor_seconds end_) in *.
  destruct es as [|e0 es0] eqn:Ees.
  { exists [no_limit 0]. split; [done|]. split; [by apply profile_wf_single|].
    intros o Ho _. exists (no_limit 0). split; [by apply (at_time_snoc i_startPeriod [])|]. right. split; [|done].
    by intros e ?%not_elem_of_nil. }
  rewrite <- Ees in *. assert (length es ≠ 0)%nat as Hne by (by rewrite Ees). clear Ees e0 es0.
  set (ss := std_sort higher_stack_level es). assert (ss ≡ₚ es) as Hperm by apply std_sort_perm.
  pose proof (sort_by_stack_level es : by_stack_level ss) as Hsort.
  assert (whole n ∧ whole e_) as [Hwn Hwe] by (split; apply whole_floor).
  assert (Forall (entry_ok now end_) ss) as Hok' by (by rewrite Hperm).
  assert (length ss = length es) as Hlss by (by rewrite Hperm).
  destruct (decide (n < e_)) as [Hlt|Hge].
  - destruct (generate_loop_spec ss n e_ Hsort Hwn Hwe) with (fuel := (2 * length es + 2)%nat) (current := n)
      as (prof & -> & Hinc & Hhd & Hall & Hat); [|done|done|lia| |].
    { eapply Forall_impl; [exact Hok'|]. by intros e (? & ? & _). }
    { rewrite <- Hlss. apply remaining_bound. }
    assert (elapsed_seconds n n = 0) as E by (unfold elapsed_seconds; by rewrite Z.sub_diag). rewrite E in *.
    exists prof. split; [done|]. split; [split_and!; [done|done|by eapply Forall_impl; [exact Hall|]; cbn; lia]|].
    intros o Ho Hr. assert (whole (n + o * second)) as Hwo by (destruct Hwn as [k ->]; exists (k + o); lia).
    destruct (Hat (n + o * second) Hwo) as (x & Hx & Hs); [unfold second in *; lia|].
    destruct (elapsed_whole _ n Hwo Hwn) as [Eo _]; [unfold second in *; lia|].
    assert (elapsed_seconds (n + o * second) n = o) as Eo' by (unfold second in *; lia). rewrite Eo' in Hx.
    exists x. split; [done|]. by eapply shows_perm.
  - destruct ss as [|s ss'] eqn:Ess; [cbn in Hlss; lia|]. apply Forall_cons in Hok' as [(_ & _ & _ & He & Hs) Hrest].
    fold n in He. fold e_ in Hs.
    replace (2 * length es + 2)%nat with (S (2 * length es + 1)) by lia. cbn [generate_loop]. unfold generate_step.
    cbn [find_schedule]. rewrite (proj2 (Z.leb_le _ _) Hs), (proj2 (Z.gtb_lt _ _) He). cbn [andb].
    rewrite (proj2 (Z.leb_le (entry_start s) n)) by lia. destruct (Z.gtb_spec (entry_start s) n); [lia|]. cbn.
    destruct (Z.ltb_spec (entry_end s) e_); [lia|]. rewrite Z.ltb_irrefl. cbn.
    assert (elapsed_seconds n n = 0) as -> by (unfold elapsed_seconds; by rewrite Z.sub_diag).
    eexists. split; [done|]. split; [by apply profile_wf_single|].
    intros o Ho [?| ->]; [unfold second in *; lia|]. eexists. split; [by apply (at_time_snoc i_startPeriod [])|].
    rewrite Z.add_0_r. eapply shows_perm; [exact Hperm|]. left. exists s. split; [|done].
    apply (first_is_best [] s ss' n Hsort); [done|]. split; lia.
Qed.

End generate.

(** ** Combining schedules *)
Section combine.
Context {X : Type} (f : combinator).

(** Periods that do not differ for [combine_list_of_profiles]. *)
Definition same_limits (a b : IntermediatePeriod) : Prop :=
  feq (current_limit a) (current_limit b) ∧ feq (power_limit a) (power_limit b) ∧
  i_numberPhases a = i_numberPhases b ∧ stack_level_current a = stack_level_current b ∧
  stack_level_power a = stack_level_power b.

#[export] Instance same_limits_equiv : Equivalence same_limits.
Proof.
  unfold same_limits. split.
  - by intros a.
  - intros a b (H1 & H2 & H3 & H4 & H5). by rewrite H1, H2, H3, H4, H5.
  - intros a b c (H1 & H2 & H3 & H4 & H5) (H6 & H7 & H8 & H9 & H10). by rewrite H1, H2, H3, H4, H5.
Qed.

Lemma same_limits_start a c : same_limits a (with_startPeriod a c).
Proof. by unfold same_limits. Qed.

Lemma same_limits_of a b c : same_limits (with_startPeriod a c) b → same_limits a b.
Proof. done. Qed.

Lemma not_differs a b : period_differs a b = false → same_limits a b.
Proof.
  unfold period_differs, same_limits, feq. rewrite !orb_false_iff, !negb_false_iff, bool_decide_eq_true, !Z.eqb_eq. tauto.
Qed.

(** A cursor at the time [cur]: its first period is in force. *)
Definition cursor_at (cur : Z) (it : cursor) : Prop :=
  increasing i_startPeriod it ∧ Forall (λ x, i_startPeriod x < INT_MAX) it ∧
  (∃ x, head it = Some x ∧ i_startPeriod x ≤ cur) ∧ (∀ n, next_start it = Some n → cur < n).

Definition values_at (its : list cursor) (t : Z) : list IntermediatePeriod :=
  omap (λ it, at_time i_startPeriod it t) its.

Lemma next_lowest_spec cur its :
  let m := next_lowest_period cur its in
  m ≤ INT_MAX ∧ (∀ it n, it ∈ its → next_start it = Some n → cur < n → m ≤ n) ∧
  (m = INT_MAX ∨ ∃ it, it ∈ its ∧ next_start it = Some m ∧ cur < m).
Proof.
  unfold next_lowest_period. generalize INT_MAX. induction its as [|it its IH]; intros low; cbn [foldl].
  { cbv zeta. split_and!; [lia|by intros ? ? ?%not_elem_of_nil|by left]. }
  set (low' := match next_start it with Some n => _ | None => low end).
  assert (low' ≤ low ∧ (∀ n, next_start it = Some n → cur < n → low' ≤ n) ∧
    (low' = low ∨ next_start it = Some low' ∧ cur < low')) as (H1 & H2 & H3).
  { unfold low'. destruct (next_start it) as [n|]; [|split_and!; [lia|done|by left]].
    destruct (Z.gtb_spec n cur), (Z.ltb_spec n low); cbn; split_and!; try lia; try (intros ? [= <-]; lia); naive_solver lia. }
  clearbody low'. destruct (IH low') as (H4 & H5 & H6). split_and!; [lia| |].
  - intros it' n [->|Hin]%elem_of_cons Hn Hc; [specialize (H2 n Hn Hc); lia|eauto].
  - destruct H6 as [->|(it' & ? & ? & ?)]; [|right; exists it'; set_solver].
    destruct H3 as [->|[? ?]]; [by left|right; exists it; set_solver].
Qed.

(** Between two changes the cursors stay where they are. *)
Lemma cursor_holds cur it t : cursor_at cur it → cur ≤ t → (∀ n, next_start it = Some n → t < n) →
  at_time i_startPeriod it t = head it.
Proof.
  intros (Hinc & _ & (x & Hx & Hle) & _) Ht Hn. destruct it as [|y it]; [done|]. injection Hx as ->. cbn.
  apply at_time_lookup; [done|]. exists 0%nat. split_and!; [done|lia|]. intros z Hz. apply Hn. cbn in Hz.
  destruct it as [|z' it]; [done|]. by injection Hz as ->.
Qed.

Lemma advance_at cur m it : cursor_at cur it → cur < m → (∀ n, next_start it = Some n → m ≤ n) →
  cursor_at m (advance m it) ∧ ∀ t, m ≤ t → at_time i_startPeriod (advance m it) t = at_time i_startPeriod it t.
Proof.
  intros (Hinc & Hmax & (x & Hx & Hle) & Hnext) Hm Hn. unfold advance.
  destruct it as [|x0 it]; [done|]. injection Hx as ->. destruct it as [|y it]; cbn in *.
  { split; [|done]. split_and!; [done..| |done]. exists x. split; [done|lia]. }
  unfold next_start. cbn. destruct (Z.eqb_spec (i_startPeriod y) m) as [<-|Hne].
  - apply StronglySorted_inv in Hinc as [Hinc Hx]. pose proof Hinc as [_ Hy]%StronglySorted_inv.
    apply Forall_cons in Hmax as [_ Hmax]. split.
    + split_and!; [done..|by exists y|]. intros n. unfold next_start. cbn. destruct it as [|z it]; [done|].
      intros [= <-]. by apply Forall_cons in Hy as [? _].
    + intros t Ht. destruct (at_time_some i_startPeriod it y t Hinc Ht) as [v Hv]. rewrite Hv. by rewrite (at_time_cons _ x _ _ v).
  - split; [|done]. split_and!; [done..|exists x; split; [done|lia]|]. intros n. unfold next_start. cbn. intros [= <-].
    specialize (Hn _ eq_refl). lia.
Qed.

Lemma advance_length m it : (length (advance m it) ≤ length it)%nat ∧
  (next_start it = Some m → length (advance m it) < length it)%nat.
Proof.
  unfold advance. destruct it as [|x [|y it]]; [split; [cbn; lia|done]..|]. unfold next_start. cbn.
  destruct (Z.eqb_spec (i_startPeriod y) m) as [<-|Hne]; cbn; [lia|]. split; [lia|congruence].
Qed.

Lemma advance_shrinks m its it : it ∈ its → next_start it = Some m →
  (length (concat (map (advance m) its)) < length (concat its))%nat.
Proof.
  induction its as [|i its IH]; [by intros ?%not_elem_of_nil|]. intros Hin Hn. cbn. rewrite !length_app.
  assert (length (concat (map (advance m) its)) ≤ length (concat its))%nat as Hle.
  { clear. induction its as [|j its IH]; [done|]. cbn. rewrite !length_app. destruct (advance_length m j). lia. }
  destruct (advance_length m i) as [H1 H2]. apply elem_of_cons in Hin as [->|Hin]; [specialize (H2 Hn); lia|].
  specialize (IH Hin Hn). lia.
Qed.

Lemma at_time_last {T} (start : T → Z) l t : Forall (λ x, start x ≤ t) l → at_time start l t = last l.
Proof.
  intros Hl. unfold at_time. change (list_filter ?P ?d ?l) with (filter P l). f_equal.
  induction Hl as [|x l Hx _ IH]; [done|]. rewrite filter_cons_True by done. by rewrite IH.
Qed.

Lemma values_at_heads cur its t : Forall (cursor_at cur) its → cur ≤ t →
  (∀ it n, it ∈ its → next_start it = Some n → t < n) → values_at its t = heads its.
Proof.
  intros Hc Ht Hn. unfold values_at, heads. induction Hc as [|it its Hit _ IH]; [done|]. cbn.
  rewrite (cursor_holds cur it t Hit Ht) by (intros n; apply Hn; left). rewrite IH; [done|].
  intros it' n Hin. apply Hn. by right.
Qed.

Lemma values_at_advance cur m its t : Forall (cursor_at cur) its → cur < m ≤ t →
  (∀ it n, it ∈ its → next_start it = Some n → m ≤ n) →
  Forall (cursor_at m) (map (advance m) its) ∧ values_at (map (advance m) its) t = values_at its t.
Proof.
  intros Hc Hm Hn. unfold values_at. induction Hc as [|it its Hit _ IH]; [done|]. cbn.
  destruct (advance_at cur m it Hit) as [H1 H2]; [lia|intros n; apply Hn; left|].
  destruct IH as [IH1 IH2]; [intros it' n Hin; apply Hn; by right|]. rewrite H2, IH2 by lia. split; [by constructor|done].
Qed.

(** A period is appended unless it shows the same limits as the last one. *)
Definition appended (acc : IntermediateProfile) (period : IntermediatePeriod) : IntermediateProfile :=
  match last acc with
  | Some back => if period_differs period back then acc ++ [period] else acc
  | None => [period]
  end.

Lemma appended_spec acc v cur : increasing i_startPeriod acc → Forall (λ x, i_startPeriod x < cur) acc →
  let acc' := appended acc (with_startPeriod v cur) in
  ∃ b, last acc' = Some b ∧ same_limits v b ∧ increasing i_startPeriod acc' ∧ Forall (λ x, i_startPeriod x ≤ cur) acc' ∧
    ∃ l, acc' = acc ++ l ∧ Forall (λ x, cur ≤ i_startPeriod x) l ∧ (acc = [] → i_startPeriod <$> head l = Some cur).
Proof.
  intros Hinc Hacc. cbv zeta. unfold appended. set (period := with_startPeriod v cur).
  assert (i_startPeriod period = cur) as Hp by done.
  destruct (last acc) as [back|] eqn:Eb; [destruct (period_differs period back) eqn:Ed|].
  - exists period. rewrite last_snoc. split; [done|]. split; [apply same_limits_start|]. split_and!.
    + apply increasing_app. split_and!; [done|apply SSorted_cons; [apply SSorted_nil|done]|].
      eapply Forall_impl; [exact Hacc|]. intros x Hx. cbv beta in Hx. apply Forall_singleton. lia.
    + apply Forall_app. split; [eapply Forall_impl; [exact Hacc|]; cbn; lia|apply Forall_singleton; cbv beta; lia].
    + exists [period]. split_and!; [done|apply Forall_singleton; cbv beta; lia|]. by intros ->.
  - exists back. split; [done|]. split; [by apply not_differs, same_limits_of in Ed|].
    split_and!; [done|by eapply Forall_impl; [exact Hacc|]; cbn; lia|].
    exists []. split_and!; [by rewrite app_nil_r|done|by intros ->].
  - apply last_None in Eb as ->. exists period. split; [done|]. split; [apply same_limits_start|].
    split_and!; [apply SSorted_cons; [apply SSorted_nil|done]|apply Forall_singleton; cbv beta; lia|].
    exists [period]. split_and!; [done|apply Forall_singleton; cbv beta; lia|done].
Qed.

Lemma combine_loop_spec fuel its cur acc :
  its ≠ [] → Forall (cursor_at cur) its → (length (concat its) < fuel)%nat → cur < INT_MAX →
  increasing i_startPeriod acc → Forall (λ x, i_startPeriod x < cur) acc →
  ∃ r, combine_loop (X:=X) fuel f its cur acc = Ret r ∧ increasing i_startPeriod r ∧
    Forall (λ x, i_startPeriod x < INT_MAX) r ∧
    (∃ l, r = acc ++ l ∧ Forall (λ x, cur ≤ i_startPeriod x) l ∧ (acc = [] → i_startPeriod <$> head l = Some cur)) ∧
    ∀ t, cur ≤ t → ∃ x, at_time i_startPeriod r t = Some x ∧ same_limits (f (values_at its t)) x.
Proof.
  revert its cur acc. induction fuel as [|fuel IH]; intros its cur acc Hne Hits Hfuel Hcur Hinc Hacc; [lia|].
  cbn [combine_loop]. cbv zeta. case_match eqn:Eall.
  { exfalso. destruct its as [|it its]; [done|]. apply andb_prop in Eall as [Eit _]. apply bool_decide_eq_true in Eit as ->.
    apply Forall_cons in Hits as [(_ & _ & (? & ? & _) & _) _]. done. }
  clear Eall. change (match last acc with Some back => _ | None => _ end) with (appended acc (with_startPeriod (f (heads its)) cur)).
  destruct (appended_spec acc (f (heads its)) cur Hinc Hacc) as (b & Hlast & Hsame & Hinc' & Hacc' & l0 & El0 & Hl0 & Hhd0).
  set (acc' := appended acc _) in *.
  clearbody acc'. pose proof (next_lowest_spec cur its) as (Hm1 & Hm2 & Hm3). set (m := next_lowest_period cur its) in *.
  assert (∀ it n, it ∈ its → next_start it = Some n → cur < n < INT_MAX) as Hnext.
  { intros it n Hin Hn. eapply Forall_forall in Hits; [|exact Hin]. destruct Hits as (_ & Hmax & _ & Hc). split; [by apply Hc|].
    unfold next_start in Hn. destruct it as [|? [|y it]]; try done. injection Hn as <-.
    apply Forall_cons in Hmax as [_ [? _]%Forall_cons]. done. }
  destruct (Z.eqb_spec m INT_MAX) as [Em|Em].
  - exists acc'. split_and!; [done|done|by eapply Forall_impl; [exact Hacc'|]; cbn; lia|by exists l0|].
    intros t Ht. exists b. rewrite at_time_last, Hlast by (eapply Forall_impl; [exact Hacc'|]; cbn; lia).
    rewrite (values_at_heads cur) by (try done; intros it n Hin Hn; destruct (Hnext it n Hin Hn); specialize (Hm2 it n Hin Hn); lia).
    done.
  - destruct Hm3 as [?|(it & Hit & Hn & Hc)]; [done|].
    destruct (values_at_advance cur m its m Hits ltac:(lia)) as [Hadv _]; [intros it' n' Hin' Hn'; destruct (Hnext it' n' Hin' Hn'); by eapply Hm2|].
    destruct (IH (map (advance m) its) m acc') as (r & -> & Hr1 & Hr2 & (l & -> & Hl & _) & Hr3);
      [by destruct its|done|pose proof (advance_shrinks m its it Hit Hn); lia|lia|done|by eapply Forall_impl; [exact Hacc'|]; cbn; lia|].
    exists (acc' ++ l). split_and!; [done..| |].
    + exists (l0 ++ l). rewrite El0, app_assoc. split_and!; [done| |].
      * apply Forall_app. split; [done|]. eapply Forall_impl; [exact Hl|]. cbn. lia.
      * intros Ha. specialize (Hhd0 Ha). by destruct l0.
    + intros t Ht. destruct (decide (t < m)) as [Htm|Htm].
      * exists b. rewrite at_time_app by (eapply Forall_impl; [exact Hl|]; cbn; lia).
        rewrite at_time_last, Hlast by (eapply Forall_impl; [exact Hacc'|]; cbn; lia).
        rewrite (values_at_heads cur) by (try done; intros it' n' Hin' Hn'; destruct (Hnext it' n' Hin' Hn'); specialize (Hm2 it' n' Hin' Hn'); lia).
        done.
      * destruct (Hr3 t ltac:(lia)) as (x & Hx & Hs). exists x. split; [done|].
        destruct (values_at_advance cur m its t Hits ltac:(lia)) as [_ <-]; [|done].
        intros it' n' Hin' Hn'. destruct (Hnext it' n' Hin' Hn'). by eapply Hm2.
Qed.

(** Schedules are combined second by second. *)
Lemma combine_spec profiles : profiles ≠ [] → Forall profile_wf profiles →
  ∃ r, combine_list_of_profiles (X:=X) profiles f = Ret r ∧ profile_wf r ∧
    ∀ t, 0 ≤ t → ∃ x, at_time i_startPeriod r t = Some x ∧ same_limits (f (values_at profiles t)) x.
Proof.
  intros Hne Hwf. unfold combine_list_of_profiles. destruct profiles as [|p0 ps0] eqn:Ep; [done|]. rewrite <- Ep in *.
  match goal with |- context [list_filter ?P ?d profiles] => assert (list_filter P d profiles = profiles) as -> end.
  { apply list_filter_all. intros p Hp. eapply Forall_forall in Hwf; [|exact Hp]. destruct Hwf as (_ & Hh & _). by intros ->. }
  destruct (combine_loop_spec (S (length (concat profiles))) profiles 0 []) as (r & -> & Hinc & Hmax & (l & -> & _ & Hhd) & Hat);
    [done| |lia|done|apply SSorted_nil|constructor|].
  { eapply Forall_impl; [exact Hwf|]. intros p (Hinc & Hh & Hmax). destruct p as [|x p]; [done|]. injection Hh as Hh.
    split_and!; [done..|exists x; split; [done|lia]|]. intros n Hn. unfold next_start in Hn. destruct p as [|y p]; [done|].
    injection Hn as <-. apply StronglySorted_inv in Hinc as [_ [? _]%Forall_cons]. lia. }
  specialize (Hhd eq_refl). cbn [app] in *. destruct l as [|x l]; [done|]. exists (x :: l). split; [done|]. done.
Qed.
End combine.
End ScheduleFacts.
