(* ===== verification/SmartCharging.v ===== *)
(** * The smart charging handler (OCPP 1.6)

    Models [SmartChargingHandler] of
    [src/lib/everest/ocpp/lib/ocpp/v16/smart_charging.cpp], the table of charging
    profiles of [lib/ocpp/v16/database_handler.cpp] and the loading of it in
    [ChargePointImpl::load_charging_profiles].

    The connectors with their transactions and the configuration are members of the
    state; the owner may change them between calls.  A call is one
    operation: most calls hold the mutexes of the maps they change throughout;
    [clear_all_profiles_with_filter] and [clear_profiles] take none, and are modelled
    as if no other thread (the timer of [clear_expired_profiles]) came in between.
    Whether the next SQLite statement succeeds is a list in the state (an empty list:
    all succeed).  Rows are read in the order of insertion; the query has no ORDER
    BY. *)

From S2P Require Import Prelude Float32 Profile.
#[local] Open Scope Z_scope.

Module SmartCharging.
Import Float32 Profile.

Inductive exn := OutOfRange | QueryExecutionException | RequiredEntryNotFoundException.

(** ** Data *)
Record Transaction := {
  transaction_id : option Z;
  start_timestamp : DateTime;
}.

Record Connector := {
  transaction : option Transaction;
  stack_level_tx_default_profiles_map : gmap Z ChargingProfile;
  stack_level_tx_profiles_map : gmap Z ChargingProfile;
}.

(** The settings the handler asks for. *)
Record Configuration := {
  IgnoredProfilePurposesOffline : list ChargingProfilePurposeType;
  CompositeScheduleDefaultLimitAmps : option Z;
  CompositeScheduleDefaultLimitWatts : option Z;
  CompositeScheduleDefaultNumberPhases : option Z;
  SupplyVoltage : option Z;
  AllowChargingProfileWithoutStartSchedule : option bool;
}.

(** A row of the table [CHARGING_PROFILES]; the id is the primary key.  Rows are read
    in the order of insertion. *)
Record profile_row := {
  row_id : Z;
  row_connector_id : Z;
  row_profile : ChargingProfile;
}.

Record SmartChargingHandler := {
  connectors : gmap Z Connector;
  configuration : Configuration;
  stack_level_charge_point_max_profiles_map : gmap Z ChargingProfile;
  profile_rows : list profile_row;
  statement_ok : list bool;
}.

Definition eta (s : SmartChargingHandler) : SmartChargingHandler :=
  {| connectors := connectors s; configuration := configuration s;
     stack_level_charge_point_max_profiles_map := stack_level_charge_point_max_profiles_map s;
     profile_rows := profile_rows s; statement_ok := statement_ok s |}.

Definition set_connectors v s : SmartChargingHandler := ltac:(set_field eta connectors v s).
Definition set_max_profiles v s : SmartChargingHandler :=
  ltac:(set_field eta stack_level_charge_point_max_profiles_map v s).
Definition set_profile_rows v s : SmartChargingHandler := ltac:(set_field eta profile_rows v s).
Definition set_statement_ok v s : SmartChargingHandler := ltac:(set_field eta statement_ok v s).

Notation op := (cmd SmartChargingHandler Empty_set exn).

(** ** The table *)
Definition step_statement : op bool :=
  s ← cget;
  match statement_ok s with
  | [] => mret true
  | ok :: rest => cmodify (set_statement_ok rest);; mret ok
  end.

Definition run_statement (f : list profile_row → list profile_row) : op () :=
  ok ← step_statement;
  if ok : bool then s ← cget; cmodify (set_profile_rows (f (profile_rows s))) else cthrow QueryExecutionException.

(** Two statements: rows with the same level and purpose are deleted, then the
    profile is inserted under its id, in place of a row with this id. *)
Definition insert_or_update_charging_profile (connector_id : Z) (profile : ChargingProfile) : op () :=
  run_statement (list_filter (λ r, ¬ (stackLevel (row_profile r) = stackLevel profile ∧
                   chargingProfilePurpose (row_profile r) = chargingProfilePurpose profile)) _);;
  run_statement (λ rows, list_filter (λ r, row_id r ≠ chargingProfileId profile) _ rows ++
    [{| row_id := chargingProfileId profile; row_connector_id := connector_id; row_profile := profile |}]).

Definition delete_charging_profile (profile_id : Z) : op () :=
  run_statement (list_filter (λ r, row_id r ≠ profile_id) _).
Definition delete_charging_profiles : op () := run_statement (λ _, []).

Definition get_charging_profiles : op (list ChargingProfile) :=
  ok ← step_statement;
  s ← cget;
  if ok : bool then mret (row_profile <$> profile_rows s) else cthrow QueryExecutionException.

Definition get_connector_id (profile_id : Z) : op Z :=
  ok ← step_statement;
  s ← cget;
  if negb ok then cthrow QueryExecutionException
  else match list_find (λ r, row_id r = profile_id) (profile_rows s) with
       | Some (_, r) => mret (row_connector_id r)
       | None => cthrow RequiredEntryNotFoundException
       end.

(** A statement that fails (before its first row) is logged. *)
Definition get_charging_profile_ids_by_connector_id (connector_id : Z) : op (list Z) :=
  ok ← step_statement;
  s ← cget;
  mret (if ok : bool then row_id <$> list_filter (λ r, row_connector_id r = connector_id) _ (profile_rows s) else []).

(** [catch (const QueryExecutionException&)] that logs. *)
Definition try_db (m : op ()) : op () :=
  ccatch m (λ x, match x with QueryExecutionException => Some (mret tt) | _ => None end).

(** ** Access to connectors *)
Definition connector_at (id : Z) : op Connector :=
  s ← cget;
  match connectors s !! id with Some c => mret c | None => cthrow OutOfRange end.

Definition set_connector (id : Z) (c : Connector) : op () :=
  s ← cget; cmodify (set_connectors (<[id := c]> (connectors s))).

Definition with_tx_default (c : Connector) (m : gmap Z ChargingProfile) : Connector :=
  {| transaction := transaction c; stack_level_tx_default_profiles_map := m;
     stack_level_tx_profiles_map := stack_level_tx_profiles_map c |}.
Definition with_tx (c : Connector) (m : gmap Z ChargingProfile) : Connector :=
  {| transaction := transaction c; stack_level_tx_default_profiles_map := stack_level_tx_default_profiles_map c;
     stack_level_tx_profiles_map := m |}.

Definition nr_of_connectors (s : SmartChargingHandler) : Z := Z.of_nat (size (connectors s)).

(** The number of EVSEs, [connectors.size() - 1] as [size_t]. *)
Definition nr_of_evses (s : SmartChargingHandler) : Z := (nr_of_connectors s - 1) mod 2 ^ 64.

(** ** Adding profiles *)
Definition add_charge_point_max_profile (profile : ChargingProfile) : op () :=
  s ← cget;
  cmodify (set_max_profiles (<[stackLevel profile := profile]> (stack_level_charge_point_max_profiles_map s)));;
  try_db (insert_or_update_charging_profile 0 profile).

Definition set_tx_default (profile : ChargingProfile) (id : Z) : op () :=
  c ← connector_at id;
  set_connector id (with_tx_default c (<[stackLevel profile := profile]> (stack_level_tx_default_profiles_map c))).

(** The loop over all EVSEs; it ends at the latest at the first id that does not
    exist, so it makes at most one turn more than there are connectors. *)
Fixpoint evse_loop (fuel : nat) (id n : Z) (body : Z → op ()) : op () :=
  if id <=? n then
    match fuel with
    | O => clift Undef
    | S fuel' => body id;; evse_loop fuel' (id + 1) n body
    end
  else mret tt.

Definition for_evses (body : Z → op ()) : op () :=
  s ← cget;
  evse_loop (S (size (connectors s))) 1 (nr_of_evses s) body.

Definition add_tx_default_profile (profile : ChargingProfile) (connector_id : Z) : op () :=
  (if connector_id =? 0 then for_evses (set_tx_default profile) else set_tx_default profile connector_id);;
  try_db (insert_or_update_charging_profile connector_id profile).

Definition add_tx_profile (profile : ChargingProfile) (connector_id : Z) : op () :=
  c ← connector_at connector_id;
  set_connector connector_id (with_tx c (<[stackLevel profile := profile]> (stack_level_tx_profiles_map c)));;
  try_db (insert_or_update_charging_profile connector_id profile).

(** ** Clearing profiles *)
Record filter_t := {
  profile_id_opt : option Z;
  connector_id_opt : option Z;
  stack_level_opt : option Z;
  charging_profile_purpose_opt : option ChargingProfilePurposeType;
  check_id_only : bool;
}.

(** An absent filter matches everything. *)
Definition matches {T} `{EqDecision T} (o : option T) (x : T) : bool :=
  match o with Some y => bool_decide (y = x) | None => true end.

Definition clears (f : filter_t) (connector_id level : Z) (profile : ChargingProfile) : bool :=
  match profile_id_opt f with Some id => chargingProfileId profile =? id | None => false end
  || negb (check_id_only f) && matches (connector_id_opt f) connector_id && matches (stack_level_opt f) level
     && matches (charging_profile_purpose_opt f) (chargingProfilePurpose profile).

(** The loop of [clear_profiles] over one map: what stays, and whether something was
    erased. *)
Fixpoint clear_loop (f : filter_t) (connector_id : Z) (l : list (Z * ChargingProfile))
    (m : gmap Z ChargingProfile) : op (gmap Z ChargingProfile * bool) :=
  match l with
  | [] => mret (m, false)
  | (level, profile) :: rest =>
      if clears f connector_id level profile then
        try_db (delete_charging_profile (chargingProfileId profile));;
        '(m', _) ← clear_loop f connector_id rest (delete level m);
        mret (m', true)
      else clear_loop f connector_id rest m
  end.

Definition clear_profiles (f : filter_t) (connector_id : Z) (m : gmap Z ChargingProfile)
    : op (gmap Z ChargingProfile * bool) :=
  clear_loop f connector_id (items m) m.

(** Whether some connector has a matching copy of the profile [id]. *)
Definition id_has_matching_tx_default (f : filter_t) (s : SmartChargingHandler) (id : Z) : bool :=
  existsb (λ kc, existsb (λ lp, (chargingProfileId lp.2 =? id) && matches (stack_level_opt f) (stackLevel lp.2)
                                && matches (charging_profile_purpose_opt f) (chargingProfilePurpose lp.2))
                   (items (stack_level_tx_default_profiles_map kc.2)))
    (items (connectors s)).

Definition without_id (id : Z) (m : gmap Z ChargingProfile) : gmap Z ChargingProfile :=
  filter (λ '(_, p), chargingProfileId p ≠ id) m.

(** All copies of a profile installed for connector 0 are erased. *)
Definition erase_copies (id : Z) : op bool :=
  s ← cget;
  cmodify (set_connectors ((λ c, with_tx_default c (without_id id (stack_level_tx_default_profiles_map c)))
                           <$> connectors s));;
  mret (existsb (λ kc, existsb (λ lp, chargingProfileId lp.2 =? id)
                         (items (stack_level_tx_default_profiles_map kc.2))) (items (connectors s))).

Fixpoint clear_fanned_out (f : filter_t) (ids : list Z) : op bool :=
  match ids with
  | [] => mret false
  | id :: rest =>
      s ← cget;
      if negb (id_has_matching_tx_default f s id) then clear_fanned_out f rest
      else
        erased ← erase_copies id;
        cwhen erased (try_db (delete_charging_profile id));;
        others ← clear_fanned_out f rest;
        mret (erased || others)
  end.

Fixpoint clear_connectors (f : filter_t) (ids : list Z) : op bool :=
  match ids with
  | [] => mret false
  | id :: rest =>
      c ← connector_at id;
      '(d, erased_default) ← clear_profiles f id (stack_level_tx_default_profiles_map c);
      set_connector id (with_tx_default c d);;
      '(t, erased_tx) ← clear_profiles f id (stack_level_tx_profiles_map c);
      set_connector id (with_tx (with_tx_default c d) t);;
      others ← clear_connectors f rest;
      mret (erased_default || erased_tx || others)
  end.

Definition clear_all_profiles_with_filter (f : filter_t) : op bool :=
  s ← cget;
  '(m, erased_max) ← clear_profiles f 0 (stack_level_charge_point_max_profiles_map s);
  cmodify (set_max_profiles m);;
  erased_copies ←
    (if bool_decide (profile_id_opt f = None) && (default 1 (connector_id_opt f) =? 0) then
       ids ← get_charging_profile_ids_by_connector_id 0;
       clear_fanned_out f ids
     else mret false);
  erased_tx ← clear_connectors f (fst <$> items (connectors s));
  mret (erased_max || erased_copies || erased_tx).

Definition clear_all_profiles : op () :=
  cmodify (set_max_profiles ∅);;
  s ← cget;
  cmodify (set_connectors ((λ c, with_tx (with_tx_default c ∅) ∅) <$> connectors s));;
  try_db delete_charging_profiles.

(** ** Expired profiles *)
Definition is_expired (now : DateTime) (profile : ChargingProfile) : bool :=
  match validTo profile with Some t => t <? now | None => false end
  || match chargingProfileKind profile, startSchedule (chargingSchedule profile), duration (chargingSchedule profile) with
     | Absolute, Some t, Some d => t + d * second <? now
     | _, _, _ => false
     end.

(** The loop over one map; the exception of a failing statement leaves it, so what was
    erased before is written back at every turn. *)
Fixpoint clear_expired_loop (now : DateTime) (l : list (Z * ChargingProfile)) (erase : Z → op ()) : op () :=
  match l with
  | [] => mret tt
  | (level, profile) :: rest =>
      cwhen (is_expired now profile) (delete_charging_profile (chargingProfileId profile);; erase level);;
      clear_expired_loop now rest erase
  end.

Definition erase_max (level : Z) : op () :=
  s ← cget; cmodify (set_max_profiles (delete level (stack_level_charge_point_max_profiles_map s))).
Definition erase_tx_default (id level : Z) : op () :=
  c ← connector_at id; set_connector id (with_tx_default c (delete level (stack_level_tx_default_profiles_map c))).
Definition erase_tx (id level : Z) : op () :=
  c ← connector_at id; set_connector id (with_tx c (delete level (stack_level_tx_profiles_map c))).

Definition clear_expired_profiles (now : DateTime) : op () :=
  s ← cget;
  clear_expired_loop now (items (stack_level_charge_point_max_profiles_map s)) erase_max;;
  cfor (items (connectors s)) (λ '(id, c),
    clear_expired_loop now (items (stack_level_tx_default_profiles_map c)) (erase_tx_default id);;
    clear_expired_loop now (items (stack_level_tx_profiles_map c)) (erase_tx id)).

(** ** Validation *)
Definition DEFAULT_AND_MAX_NUMBER_PHASES : Z := 3.

Definition valid_period (period : ChargingSchedulePeriod) : bool :=
  is_finite (limit period)
  && match numberPhases period with
     | Some n => negb ((n <=? 0) || (n >? DEFAULT_AND_MAX_NUMBER_PHASES))
     | None => true
     end
  && negb (f_lt (limit period) zero).

(** The number of periods is compared as [size_t]. *)
Definition validate_schedule (schedule : ChargingSchedule) (charging_schedule_max_periods : Z)
    (allowed_units : list ChargingRateUnit) : bool :=
  negb (Z.of_nat (length (chargingSchedulePeriod schedule)) >? charging_schedule_max_periods mod 2 ^ 64)
  && bool_decide (chargingRateUnit schedule ∈ allowed_units)
  && is_finite (default zero (minChargingRate schedule))
  && forallb valid_period (chargingSchedulePeriod schedule).

Definition get_number_installed_profiles (s : SmartChargingHandler) : Z :=
  clamp_to_int (Z.of_nat (size (stack_level_charge_point_max_profiles_map s)))
  + foldr (λ kc n, clamp_to_int (Z.of_nat (size (stack_level_tx_default_profiles_map kc.2)))
                   + clamp_to_int (Z.of_nat (size (stack_level_tx_profiles_map kc.2))) + n) 0 (items (connectors s)).

Record limits_t := {
  profile_max_stack_level : Z;
  max_charging_profiles_installed : Z;
  charging_schedule_max_periods : Z;
  charging_schedule_allowed_charging_rate_units : list ChargingRateUnit;
}.

Definition with_schedule (p : ChargingProfile) (sch : ChargingSchedule) : ChargingProfile :=
  {| chargingProfileId := chargingProfileId p; stackLevel := stackLevel p;
     chargingProfilePurpose := chargingProfilePurpose p; chargingProfileKind := chargingProfileKind p;
     chargingSchedule := sch; transactionId := transactionId p; recurrencyKind := recurrencyKind p;
     validFrom := validFrom p; validTo := validTo p |}.
Definition with_startSchedule (p : ChargingProfile) (t : DateTime) : ChargingProfile :=
  with_schedule p
    {| chargingRateUnit := chargingRateUnit (chargingSchedule p);
       chargingSchedulePeriod := chargingSchedulePeriod (chargingSchedule p);
       duration := duration (chargingSchedule p); startSchedule := Some t;
       minChargingRate := minChargingRate (chargingSchedule p) |}.
Definition with_duration (p : ChargingProfile) (d : Z) : ChargingProfile :=
  with_schedule p
    {| chargingRateUnit := chargingRateUnit (chargingSchedule p);
       chargingSchedulePeriod := chargingSchedulePeriod (chargingSchedule p);
       duration := Some d; startSchedule := startSchedule (chargingSchedule p);
       minChargingRate := minChargingRate (chargingSchedule p) |}.

(** A missing [startSchedule] is filled in with the current time if that is allowed. *)
Definition require_start (s : SmartChargingHandler) (now : DateTime) (p : ChargingProfile) : option ChargingProfile :=
  match startSchedule (chargingSchedule p) with
  | Some _ => Some p
  | None => if default false (AllowChargingProfileWithoutStartSchedule (configuration s))
            then Some (with_startSchedule p now) else None
  end.

Definition max_recurrency_duration (p : ChargingProfile) : Z :=
  match recurrencyKind p with Some Daily => SECONDS_PER_DAY | _ => SECONDS_PER_DAY * DAYS_PER_WEEK end.

Definition validate_recurring (s : SmartChargingHandler) (now : DateTime) (p : ChargingProfile)
    : option ChargingProfile :=
  match chargingProfileKind p with
  | Recurring =>
      match recurrencyKind p with
      | None => None
      | Some _ =>
          p ← require_start s now p;
          match duration (chargingSchedule p) with
          | Some d => Some (if d >? max_recurrency_duration p then with_duration p (max_recurrency_duration p) else p)
          | None => Some p
          end
      end
  | _ => Some p
  end.

Definition validate_purpose (s : SmartChargingHandler) (p : ChargingProfile) (connector_id : Z)
    (ignore_no_transaction : bool) : outcome exn bool :=
  match chargingProfilePurpose p with
  | ChargePointMaxProfile =>
      Ret ((connector_id =? 0) && match chargingProfileKind p with Relative => false | _ => true end)
  | TxDefaultProfile => Ret true
  | TxProfile =>
      if connector_id =? 0 then Ret false
      else match connectors s !! connector_id with
           | None => Throw OutOfRange
           | Some connector =>
               match transaction connector with
               | None => Ret (ignore_no_transaction && match transactionId p with Some _ => false | None => true end)
               | Some tr => Ret (match transactionId p with
                                 | Some id => bool_decide (transaction_id tr = Some id)
                                 | None => true
                                 end)
               end
           end
  end.

(** [validate_profile] at the time [now]: the result with the profile it leaves, or no
    profile when it is refused. *)
Definition validate_profile (now : DateTime) (profile : ChargingProfile) (connector_id : Z)
    (ignore_no_transaction : bool) (l : limits_t) : op (option ChargingProfile) :=
  s ← cget;
  if (connector_id mod 2 ^ 64 >=? nr_of_connectors s) || (connector_id <? 0) || (stackLevel profile <? 0)
     || (stackLevel profile >? profile_max_stack_level l) then mret None
  else
    let started := match chargingProfileKind profile with
                   | Absolute => require_start s now profile
                   | _ => Some profile
                   end in
    match started with
    | None => mret None
    | Some p =>
        if get_number_installed_profiles s >=? max_charging_profiles_installed l then mret None
        else if negb (validate_schedule (chargingSchedule p) (charging_schedule_max_periods l)
                        (charging_schedule_allowed_charging_rate_units l)) then mret None
        else match validate_recurring s now p with
             | None => mret None
             | Some p' =>
                 ok ← clift (validate_purpose s p' connector_id ignore_no_transaction);
                 mret (if ok : bool then Some p' else None)
             end
    end.

(** ** Composite schedules *)
Record CompositeScheduleConfig := {
  purposes_to_ignore : list ChargingProfilePurposeType;
  config_current_limit : float;
  config_power_limit : float;
  default_number_phases : Z;
  supply_voltage : float;
}.

Definition CompositeScheduleConfig_new (c : Configuration) (is_offline : bool) : CompositeScheduleConfig :=
  {| purposes_to_ignore := if is_offline then IgnoredProfilePurposesOffline c else [];
     config_current_limit := of_int (default 48 (CompositeScheduleDefaultLimitAmps c));
     config_power_limit := of_int (default 33120 (CompositeScheduleDefaultLimitWatts c));
     default_number_phases := default DEFAULT_AND_MAX_NUMBER_PHASES (CompositeScheduleDefaultNumberPhases c);
     supply_voltage := of_int (default 230 (SupplyVoltage c)) |}.

Definition considered (ignored : list ChargingProfilePurposeType) (p : ChargingProfilePurposeType) : bool :=
  negb (bool_decide (p ∈ ignored)).

Definition get_valid_profiles (s : SmartChargingHandler) (connector_id : Z)
    (ignored : list ChargingProfilePurposeType) : list ChargingProfile :=
  (if considered ignored ChargePointMaxProfile
   then snd <$> items (stack_level_charge_point_max_profiles_map s) else []) ++
  (if connector_id >? 0 then
     match connectors s !! connector_id with
     | None => []
     | Some c =>
         let id := transaction c ≫= transaction_id in
         (if considered ignored TxProfile
          then list_filter (λ p, match transactionId p with Some i => id = Some i | None => True end)
                 (λ p, match transactionId p as t return Decision (match t with Some i => id = Some i | None => True end)
                       with Some i => decide (id = Some i) | None => left I end)
                 (snd <$> items (stack_level_tx_profiles_map c)) else []) ++
         (if considered ignored TxDefaultProfile
          then snd <$> items (stack_level_tx_default_profiles_map c) else [])
     end
   else []).

Section composite.
Context `{SORT : StdSort}.

Definition periods_of (profiles : list ChargingProfile) (purpose : ChargingProfilePurposeType)
    (start_time end_time : DateTime) (session_start : option DateTime) : outcome exn IntermediateProfile :=
  periods ← calculate_all_profiles start_time end_time session_start profiles purpose;
  generate_profile_from_periods periods start_time end_time.

Definition generate_evse_intermediates (evse_profiles station_wide_profiles : list ChargingProfile)
    (start_time end_time : DateTime) (session_start : option DateTime) (simulate_transaction_active : bool)
    : outcome exn (list IntermediateProfile) :=
  let profiles := evse_profiles ++ station_wide_profiles in
  if bool_decide (is_Some session_start) || simulate_transaction_active then
    tx_default_periods ← calculate_all_profiles start_time end_time session_start profiles TxDefaultProfile;
    tx_periods ← calculate_all_profiles start_time end_time session_start profiles TxProfile;
    tx_default ← generate_profile_from_periods tx_default_periods start_time end_time;
    tx ← generate_profile_from_periods tx_periods start_time end_time;
    merged ← merge_tx_profile_with_tx_default_profile tx tx_default;
    Ret [merged]
  else Ret [].

(** The start of the transaction at a connector. *)
Definition session_of (c : Connector) : option DateTime := start_timestamp <$> transaction c.

(** The loop over the EVSEs of a station wide schedule; also the session start it
    leaves in its variable. *)
Fixpoint evse_schedules (fuel : nat) (s : SmartChargingHandler) (config : CompositeScheduleConfig)
    (station_wide_profiles : list ChargingProfile) (start_time end_time : DateTime) (simulate : bool)
    (evse n : Z) (session_start : option DateTime) : outcome exn (list IntermediateProfile * option DateTime) :=
  if evse <=? n then
    match fuel with
    | O => Undef
    | S fuel' =>
        match connectors s !! evse with
        | None => Throw OutOfRange
        | Some c =>
            intermediates ← generate_evse_intermediates (get_valid_profiles s evse (purposes_to_ignore config))
                              station_wide_profiles start_time end_time (session_of c) simulate;
            lowest ← merge_profiles_by_lowest_limit intermediates;
            '(rest, last_session) ← evse_schedules fuel' s config station_wide_profiles start_time end_time simulate
                                      (evse + 1) n (session_of c);
            Ret (lowest :: rest, last_session)
        end
    end
  else Ret ([], session_start).

Record EnhancedChargingSchedule := {
  ec_chargingRateUnit : ChargingRateUnit;
  ec_chargingSchedulePeriod : list EnhancedChargingSchedulePeriod;
  ec_duration : option Z;
  ec_startSchedule : option DateTime;
  ec_minChargingRate : option float;
}.

Definition calculate_enhanced_composite_schedule (s : SmartChargingHandler) (start_time end_time : DateTime)
    (evse_id : Z) (unit : ChargingRateUnit) (is_offline simulate_transaction_active : bool)
    : outcome exn EnhancedChargingSchedule :=
  let config := CompositeScheduleConfig_new (configuration s) is_offline in
  let session_start := floor_seconds <$> (connectors s !! evse_id ≫= session_of) in
  let station_wide_profiles := get_valid_profiles s 0 (purposes_to_ignore config) in
  '(combined_profiles, session_start) ←
    (if evse_id =? 0 then
       '(schedules, last_session) ← evse_schedules (S (size (connectors s))) s config station_wide_profiles
          start_time end_time simulate_transaction_active 1 (nr_of_evses s) session_start;
       summed ← merge_profiles_by_summing_limits schedules (config_current_limit config) (config_power_limit config);
       Ret ([summed], last_session)
     else
       intermediates ← generate_evse_intermediates (get_valid_profiles s evse_id (purposes_to_ignore config))
                         station_wide_profiles start_time end_time session_start simulate_transaction_active;
       Ret (intermediates, session_start));
  charge_point_max_periods ←
    calculate_all_profiles start_time end_time session_start station_wide_profiles ChargePointMaxProfile;
  charge_point_max ← generate_profile_from_periods charge_point_max_periods start_time end_time;
  retval ← merge_profiles_by_lowest_limit (combined_profiles ++ [charge_point_max]);
  Ret {| ec_chargingRateUnit := unit;
         ec_chargingSchedulePeriod :=
           convert_intermediate_into_schedule retval unit
             (if decide (unit = A) then config_current_limit config else config_power_limit config)
             (default_number_phases config) (supply_voltage config);
         ec_duration := Some (elapsed_seconds (floor_seconds end_time) (floor_seconds start_time));
         ec_startSchedule := Some (floor_seconds start_time);
         ec_minChargingRate := None |}.

Definition calculate_composite_schedule (s : SmartChargingHandler) (start_time end_time : DateTime)
    (evse_id : Z) (unit : ChargingRateUnit) (is_offline simulate_transaction_active : bool)
    : outcome exn ChargingSchedule :=
  let start_time_w := if start_time >? end_time then end_time else start_time in
  e ← calculate_enhanced_composite_schedule s start_time_w end_time evse_id unit is_offline
        simulate_transaction_active;
  Ret {| chargingRateUnit := ec_chargingRateUnit e;
         chargingSchedulePeriod :=
           (λ p, {| startPeriod := e_startPeriod p; limit := e_limit p; numberPhases := e_numberPhases p |})
             <$> ec_chargingSchedulePeriod e;
         duration := ec_duration e; startSchedule := ec_startSchedule e; minChargingRate := ec_minChargingRate e |}.

End composite.

(** ** Loading the stored profiles *)
Definition add_profile (profile : ChargingProfile) (connector_id : Z) : op () :=
  match chargingProfilePurpose profile with
  | ChargePointMaxProfile => add_charge_point_max_profile profile
  | TxDefaultProfile => add_tx_default_profile profile connector_id
  | TxProfile => add_tx_profile profile connector_id
  end.

(** The body of the loop for one profile, with its [catch]. *)
Definition load_profile (now : DateTime) (l : limits_t) (supported : list ChargingProfilePurposeType)
    (profile : ChargingProfile) : op () :=
  ccatch
    (connector_id ← get_connector_id (chargingProfileId profile);
     v ← validate_profile now profile connector_id false l;
     match v with
     | Some p => if bool_decide (chargingProfilePurpose p ∈ supported) then add_profile p connector_id
                 else delete_charging_profile (chargingProfileId p)
     | None => delete_charging_profile (chargingProfileId profile)
     end)
    (λ x, match x with
          | RequiredEntryNotFoundException | QueryExecutionException => Some (mret tt)
          | OutOfRange => None
          end).

Definition load_charging_profiles (now : DateTime) (l : limits_t) (supported : list ChargingProfilePurposeType)
    : op () :=
  ccatch (profiles ← get_charging_profiles; cfor profiles (load_profile now l supported)) (λ _, Some (mret tt)).

(** ** Requests of the central system

    What a request does besides: its response, and the callback that new profiles are
    to be applied (when one is registered). *)
Inductive ChargingProfileStatus := SetAccepted | SetRejected | SetNotSupported.
Inductive ClearChargingProfileStatus := ClearAccepted | ClearUnknown.
Inductive GetCompositeScheduleStatus := GetAccepted | GetRejected.

Record GetCompositeScheduleResponse := {
  gcs_status : GetCompositeScheduleStatus;
  gcs_connectorId : option Z;
  gcs_scheduleStart : option DateTime;
  gcs_chargingSchedule : option ChargingSchedule;
}.

Inductive call :=
| call_set_result (status : ChargingProfileStatus)
| call_clear_result (status : ClearChargingProfileStatus)
| call_schedule_result (r : GetCompositeScheduleResponse)
| signal_set_charging_profiles_callback.

Notation request := (cmd SmartChargingHandler call exn).

(** The handler's operations make no calls of this kind. *)
Definition on_handler {T} (m : op T) : request T := λ s, let '(r, s', _) := m s in (r, s', []).

Definition id_filter (id : Z) : filter_t :=
  {| profile_id_opt := Some id; connector_id_opt := None; stack_level_opt := None;
     charging_profile_purpose_opt := None; check_id_only := true |}.
Definition slot_filter (connector_id level : Z) (purpose : ChargingProfilePurposeType) : filter_t :=
  {| profile_id_opt := None; connector_id_opt := Some connector_id; stack_level_opt := Some level;
     charging_profile_purpose_opt := Some purpose; check_id_only := false |}.

(** The part of the request between validation and response. *)
Definition replace_profile (profile : ChargingProfile) (connector_id : Z) : op () :=
  clear_all_profiles_with_filter (id_filter (chargingProfileId profile));;
  clear_all_profiles_with_filter (slot_filter connector_id (stackLevel profile) (chargingProfilePurpose profile));;
  add_profile profile connector_id.

Definition handleSetChargingProfileRequest (now : DateTime) (l : limits_t) (supported : list ChargingProfilePurposeType)
    (registered : bool) (connector_id : Z) (csChargingProfiles : ChargingProfile) : request () :=
  status ←
    (if negb (bool_decide (chargingProfilePurpose csChargingProfiles ∈ supported)) then mret SetRejected
     else
       v ← on_handler (validate_profile now csChargingProfiles connector_id false l);
       match v with
       | Some profile => on_handler (replace_profile profile connector_id);; mret SetAccepted
       | None => mret SetRejected
       end);
  cemit (call_set_result status);;
  match status with
  | SetAccepted => cwhen registered (cemit signal_set_charging_profiles_callback)
  | SetRejected | SetNotSupported => mret tt
  end.

Definition handleClearChargingProfileRequest (registered : bool) (id connectorId stackLevel : option Z)
    (chargingProfilePurpose : option ChargingProfilePurposeType) : request () :=
  cleared ←
    (match id, connectorId, chargingProfilePurpose, stackLevel with
     | None, None, None, None => on_handler clear_all_profiles;; mret true
     | _, _, _, _ =>
         on_handler (clear_all_profiles_with_filter
           {| profile_id_opt := id; connector_id_opt := connectorId; stack_level_opt := stackLevel;
              charging_profile_purpose_opt := chargingProfilePurpose; check_id_only := bool_decide (is_Some id) |})
     end);
  cemit (call_clear_result (if cleared : bool then ClearAccepted else ClearUnknown));;
  cwhen (cleared && registered) (cemit signal_set_charging_profiles_callback).

(** A profile that comes with a remote start: whether the start is accepted. *)
Definition remote_start_profile (now : DateTime) (l : limits_t) (connectorId : option Z)
    (chargingProfile : option ChargingProfile) : op bool :=
  match chargingProfile with
  | None => mret true
  | Some profile =>
      match connectorId, chargingProfilePurpose profile with
      | Some connector, TxProfile =>
          v ← validate_profile now profile connector true l;
          match v with
          | Some p => add_tx_profile p connector;; mret true
          | None => mret false
          end
      | _, _ => mret false
      end
  end.

Definition with_transaction (c : Connector) (t : option Transaction) : Connector :=
  {| transaction := t; stack_level_tx_default_profiles_map := stack_level_tx_default_profiles_map c;
     stack_level_tx_profiles_map := stack_level_tx_profiles_map c |}.

(** The end of a transaction: it is detached and its TxProfiles are cleared. *)
Definition transaction_stopped (registered : bool) (connector : Z) : request () :=
  on_handler (c ← connector_at connector; set_connector connector (with_transaction c None));;
  profile_cleared ← on_handler (clear_all_profiles_with_filter
    {| profile_id_opt := None; connector_id_opt := Some connector; stack_level_opt := None;
       charging_profile_purpose_opt := Some TxProfile; check_id_only := false |});
  cwhen (profile_cleared && registered) (cemit signal_set_charging_profiles_callback).

(** [allowed_charging_rate_units.at(0)] throws when no unit is allowed. *)
Definition handleGetCompositeScheduleRequest `{StdSort} (now : DateTime) (number_of_connectors max_duration : Z)
    (allowed_charging_rate_units : list ChargingRateUnit) (is_offline : bool) (connector_id requested : Z)
    (chargingRateUnit : option ChargingRateUnit) : request () :=
  if (connector_id >? number_of_connectors) || (connector_id <? 0)
     || match chargingRateUnit with
        | Some u => negb (bool_decide (u ∈ allowed_charging_rate_units))
        | None => false
        end
  then cemit (call_schedule_result {| gcs_status := GetRejected; gcs_connectorId := None;
                gcs_scheduleStart := None; gcs_chargingSchedule := None |})
  else
    let start_time := floor_seconds now in
    let end_time := start_time + Z.min max_duration requested * second in
    unit ← (match chargingRateUnit, head allowed_charging_rate_units with
            | Some u, Some _ => mret u
            | None, Some u => mret u
            | _, None => cthrow OutOfRange
            end);
    s ← cget;
    schedule ← clift (calculate_composite_schedule s start_time end_time connector_id unit is_offline true);
    cemit (call_schedule_result {| gcs_status := GetAccepted; gcs_connectorId := Some connector_id;
             gcs_scheduleStart := Some start_time; gcs_chargingSchedule := Some schedule |}).

End SmartCharging.
