(* ===== verification/CompositeFacts.v ===== *)
(** * Composite schedules

    The limit a composite schedule gives at a second is the lowest one of the profiles
    that decide at this second: of every purpose the profile with the highest stack
    level that is in force, a TxProfile before a TxDefaultProfile. *)

From S2P Require Import Prelude Float32 Profile ProfileFacts ScheduleFacts SmartCharging.

Module CompositeFacts.
Import Float32 Profile ProfileFacts ScheduleFacts SmartCharging.

(** ** Limits *)
Definition own (unit : ChargingRateUnit) (x : IntermediatePeriod) : float :=
  match unit with A => current_limit x | W => power_limit x end.

(** A limit that counts: neither negative nor beyond the largest number. *)
Definition effective (l : float) : Prop := f_ge l zero = true ∧ f_lt l FLT_MAX = true.

Lemma effective_number l : effective l → is_number l.
Proof. intros [_ H]. by apply f_lt_spec in H as [? _]. Qed.

Lemma effective_limited l : effective l → limited l = true.
Proof.
  intros [(_ & _ & H)%f_ge_spec _]. unfold limited. destruct (f_eq l NO_LIMIT_SPECIFIED) eqn:E; [|done].
  apply f_eq_spec in E as (_ & _ & E). exfalso. apply H. rewrite E. by left.
Qed.

Lemma effective_proper a b : feq a b → effective a → effective b.
Proof.
  intros [->|H%f_eq_spec]; [done|]. destruct H as (Ha & Hb & Hr). intros [H1%f_ge_spec H2%f_lt_spec].
  split; [apply f_ge_spec|apply f_lt_spec]; rewrite <- Hr; naive_solver.
Qed.

(** The fold that looks for the lowest limit. *)
Lemma lower_fold (get : IntermediatePeriod → float) (level : IntermediatePeriod → Z) periods acc :
  is_number acc.1 → f_le acc.1 FLT_MAX →
  let r := foldl (λ acc p, lower acc (get p) (level p)) acc periods in
  is_number r.1 ∧ f_le r.1 acc.1 ∧ (∀ p, p ∈ periods → effective (get p) → f_le r.1 (get p)) ∧
  (r = acc ∨ ∃ p, p ∈ periods ∧ effective (get p) ∧ r.1 = get p).
Proof.
  revert acc. induction periods as [|p periods IH]; intros acc Hn Hle; cbn [foldl].
  { cbv zeta. split_and!; [done|by apply f_le_refl|by intros ? ?%not_elem_of_nil|by left]. }
  set (acc' := lower acc (get p) (level p)).
  assert (is_number acc'.1 ∧ f_le acc'.1 acc.1 ∧ (effective (get p) → f_le acc'.1 (get p)) ∧
    (acc' = acc ∨ effective (get p) ∧ acc'.1 = get p)) as (H1 & H2 & H3 & H4).
  { unfold acc', lower. destruct (f_ge (get p) zero) eqn:Eg; [destruct (f_lt (get p) acc.1) eqn:El|]; cbn.
    - assert (is_number (get p)) as Hp by (by apply f_lt_spec in El as [? _]).
      split_and!; [done|by apply f_lt_le|intros; by apply f_le_refl|]. right. split; [|done]. split; [done|].
      apply f_lt_spec. apply f_lt_spec in El as (_ & _ & El). apply f_ge_spec in Hle as (_ & _ & Hle).
      split_and!; [done|done|]. unfold place_lt in *. lia.
    - split_and!; [done|by apply f_le_refl| |by left]. intros He. apply f_not_lt; [by apply effective_number|done|done].
    - split_and!; [done|by apply f_le_refl| |by left]. intros [? _]. congruence. }
  destruct (IH acc' H1) as (H5 & H6 & H7 & H8); [by etrans|]. split_and!; [done|by etrans| |].
  - intros q [->|Hq]%elem_of_cons He; [etrans; [exact H6|by apply H3]|by apply H7].
  - destruct H8 as [->|(q & ? & ? & ?)]; [|right; exists q; set_solver].
    destruct H4 as [->|[? ?]]; [by left|right; exists p; set_solver].
Qed.

(** The lowest limit of the periods that have one that counts. *)
Definition lowest_of (get : IntermediatePeriod → float) (periods : list IntermediatePeriod) (l : float) : Prop :=
  (effective l ∧ (∃ p, p ∈ periods ∧ feq l (get p)) ∧ ∀ p, p ∈ periods → effective (get p) → f_le l (get p)) ∨
  (feq l NO_LIMIT_SPECIFIED ∧ ∀ p, p ∈ periods → ¬ effective (get p)).

Lemma lowest_of_proper get periods l l' : feq l l' → lowest_of get periods l → lowest_of get periods l'.
Proof.
  intros E [(He & (p & Hp & Hl) & Hmin)|[Hl Hno]]; [left|right].
  - split; [by eapply effective_proper|]. split; [exists p; split; [done|by rewrite <- E]|]. intros q Hq Heq. rewrite <- E. by apply Hmin.
  - split; [by rewrite <- E|done].
Qed.

Lemma lower_spec get level periods :
  lowest_of get periods (or_no_limit (foldl (λ acc p, lower acc (get p) (level p)) (FLT_MAX, 0) periods)).1.
Proof.
  assert (is_number FLT_MAX) as Hn by done.
  pose proof (lower_fold get level periods (FLT_MAX, 0) Hn (f_le_refl _ Hn)) as (H1 & H2 & H3 & H4).
  set (r := foldl _ _ periods) in *. unfold or_no_limit. destruct (f_eq r.1 FLT_MAX) eqn:Ef.
  - right. split; [done|]. intros p Hp He. specialize (H3 p Hp He). destruct He as [_ He].
    apply f_eq_spec in Ef as (_ & _ & Ef). apply f_lt_spec in He as (_ & _ & He).
    apply f_ge_spec in H3 as (_ & _ & H3). rewrite Ef in H3. done.
  - left. destruct H4 as [E|(p & Hp & He & E)].
    + exfalso. rewrite E in Ef. by rewrite f_eq_refl in Ef.
    + split_and!; [by rewrite E|exists p; by rewrite E|done].
Qed.

Lemma lowest_limits_spec unit periods : lowest_of (own unit) periods (own unit (lowest_limits periods)).
Proof. destruct unit; [apply (lower_spec current_limit stack_level_current)|apply (lower_spec power_limit stack_level_power)]. Qed.

(** ** The final schedule *)
Definition same_output (a b : EnhancedChargingSchedulePeriod) : Prop :=
  feq (e_limit a) (e_limit b) ∧ e_numberPhases a = e_numberPhases b ∧ e_stackLevel a = e_stackLevel b.

Lemma output_same a b : output_differs a b = false → same_output a b.
Proof.
  unfold output_differs, same_output, feq. rewrite !orb_false_iff, !negb_false_iff, bool_decide_eq_true, Z.eqb_eq. tauto.
Qed.

Lemma append_converted_spec l acc : increasing e_startPeriod (acc ++ l) →
  increasing e_startPeriod (append_converted acc l) ∧
  ∀ t, match at_time e_startPeriod l t with
       | Some p => ∃ y, at_time e_startPeriod (append_converted acc l) t = Some y ∧ same_output p y
       | None => at_time e_startPeriod (append_converted acc l) t = at_time e_startPeriod acc t
       end.
Proof.
  revert acc. induction l as [|p l IH]; intros acc Hinc; cbn [append_converted].
  { rewrite app_nil_r in Hinc. split; [done|]. intros t. by rewrite at_time_nil. }
  set (acc' := match last acc with Some back => _ | None => [p] end).
  pose proof Hinc as (Ha & [Hl Hpl]%StronglySorted_inv & Hap)%increasing_app.
  assert (Forall (λ x, e_startPeriod x < e_startPeriod p) acc) as Hacc.
  { eapply Forall_impl; [exact Hap|]. intros x Hx. by apply Forall_cons in Hx as [? _]. }
  assert (∃ b, last acc' = Some b ∧ same_output p b ∧ increasing e_startPeriod (acc' ++ l) ∧
    Forall (λ x, e_startPeriod x ≤ e_startPeriod p) acc' ∧ (acc' = acc ∨ acc' = acc ++ [p])) as (b & Hb & Hs & Hinc' & Hle & Hor).
  { assert (Forall (λ x, e_startPeriod x ≤ e_startPeriod p) (acc ++ [p])) as Hle.
    { apply Forall_app. split; [eapply Forall_impl; [exact Hacc|]; cbn; lia|by apply Forall_singleton]. }
    assert (increasing e_startPeriod ((acc ++ [p]) ++ l)) as Hinc' by (by rewrite <- app_assoc).
    unfold acc'. destruct (last acc) as [back|] eqn:Eb; [destruct (output_differs p back) eqn:Ed|].
    - exists p. rewrite last_snoc. split; [done|]. split; [done|]. split_and!; [done..|by right].
    - exists back. split; [done|]. split; [by apply output_same|]. split_and!; [|by apply Forall_app in Hle as [? _]|by left].
      apply increasing_app. split_and!; [done..|]. eapply Forall_impl; [exact Hap|]. intros x Hx. by apply Forall_cons in Hx as [_ ?].
    - apply last_None in Eb as ->. exists p. split; [done|]. split; [done|]. split_and!; [done..|by right]. }
  clearbody acc'. destruct (IH acc' Hinc') as [H1 H2]. split; [done|]. intros t. specialize (H2 t).
  destruct (at_time e_startPeriod l t) as [q|] eqn:Eq.
  { by rewrite (at_time_cons _ _ _ _ q). }
  destruct (decide (e_startPeriod p ≤ t)) as [Ht|Ht].
  - assert (at_time e_startPeriod (p :: l) t = Some p) as ->.
    { change (p :: l) with ([p] ++ l). unfold at_time in *. change (list_filter ?P ?d ?l) with (filter P l) in *.
      apply last_None in Eq. by rewrite filter_app, Eq, filter_cons_True, filter_nil by done. }
    exists b. rewrite H2, at_time_last by (eapply Forall_impl; [exact Hle|]; cbn; lia). done.
  - assert (at_time e_startPeriod (p :: l) t = None) as ->.
    { unfold at_time in *. change (list_filter ?P ?d ?l) with (filter P l) in *. by rewrite filter_cons_False. }
    rewrite H2. destruct Hor as [-> | ->]; [done|]. apply at_time_app. apply Forall_singleton. lia.
Qed.

Lemma convert_at prof unit dl dp sv o x : profile_wf prof → at_time i_startPeriod prof o = Some x →
  ∃ y, at_time e_startPeriod (convert_intermediate_into_schedule prof unit dl dp sv) o = Some y ∧
    same_output (convert_period unit dl dp sv x) y.
Proof.
  intros (Hinc & _ & _) Hx. unfold convert_intermediate_into_schedule.
  assert (∀ z, e_startPeriod (convert_period unit dl dp sv z) = i_startPeriod z) as Hst.
  { intros z. unfold convert_period. by destruct (if negb _ && negb _ then _ else _) as [[? ?] ?]. }
  assert (∀ l, at_time e_startPeriod (convert_period unit dl dp sv <$> l) o =
               convert_period unit dl dp sv <$> at_time i_startPeriod l o) as Hmap.
  { intros l. unfold at_time. rewrite <- fmap_last. f_equal. change (list_filter ?P ?d ?l) with (filter P l).
    induction l as [|z l IH]; [done|]. cbn [fmap list_fmap]. rewrite !filter_cons.
    destruct (decide (i_startPeriod z ≤ o)), (decide (e_startPeriod (convert_period unit dl dp sv z) ≤ o)) as [H|H];
      rewrite Hst in H; try done. cbn. by rewrite <- IH. }
  destruct (append_converted_spec (convert_period unit dl dp sv <$> prof) []) as [_ H].
  { cbn. clear Hx. induction Hinc as [|z l Hl IH Hz]; [constructor|]. cbn. constructor; [exact IH|].
    apply Forall_fmap. eapply Forall_impl; [exact Hz|]. intros w Hw. cbn. by rewrite !Hst. }
  specialize (H o). rewrite Hmap, Hx in H. exact H.
Qed.

(** The final limit does not exceed a limit given in its unit. *)
Lemma convert_below unit dl dp sv x : effective (own unit x) →
  f_le (e_limit (convert_period unit dl dp sv x)) (own unit x).
Proof.
  intros He. pose proof (effective_limited _ He) as Hl. pose proof (effective_number _ He) as Hn.
  assert (∀ other conv lv lv', f_le (final_limit (own unit x) other conv lv lv').1.1 (own unit x)) as Hf.
  { intros other conv lv lv'. unfold final_limit. rewrite Hl. cbn. destruct (limited other && f_lt conv (own unit x)) eqn:E; cbn.
    - apply andb_prop in E as [_ E]. by apply f_lt_le.
    - by apply f_le_refl. }
  unfold convert_period. destruct unit; cbn [own] in *.
  - rewrite Hl. cbn [negb andb].
    pose proof (Hf (power_limit x) (f_div (power_limit x) (f_mul sv (of_int (default dp (i_numberPhases x)))))
      (stack_level_current x) (stack_level_power x)) as H.
    by destruct (final_limit _ _ _ _ _) as [[? ?] ?].
  - rewrite Hl, andb_false_r.
    pose proof (Hf (current_limit x) (f_mul (current_limit x) (f_mul sv (of_int (default dp (i_numberPhases x)))))
      (stack_level_power x) (stack_level_current x)) as H.
    by destruct (final_limit _ _ _ _ _) as [[? ?] ?].
Qed.

Lemma limited_proper a b : feq a b → limited a = limited b.
Proof.
  intros [->|H]; [done|]. unfold limited. f_equal. apply eq_iff_eq_true. rewrite !f_eq_spec in *.
  destruct H as (H1 & H2 & H3). rewrite H3. naive_solver.
Qed.

Lemma no_limit_unlimited : limited NO_LIMIT_SPECIFIED = false.
Proof. done. Qed.

(** ** Who decides *)
Section decides.
Context (now : DateTime) (session : option DateTime) (ps : list ChargingProfile) (purpose : ChargingProfilePurposeType).

Definition competes (t : DateTime) (p : ChargingProfile) (per : ChargingSchedulePeriod) : Prop :=
  p ∈ ps ∧ chargingProfilePurpose p = purpose ∧ in_force now session p t per.

(** The profile of the purpose with the highest stack level that is in force. *)
Definition picked (t : DateTime) (p : ChargingProfile) (per : ChargingSchedulePeriod) : Prop :=
  competes t p per ∧ ∀ p' per', competes t p' per' → stackLevel p' ≤ stackLevel p.

Definition period_for (p : ChargingProfile) (per : ChargingSchedulePeriod) (x : IntermediatePeriod) : Prop :=
  (∀ unit, own unit x = if decide (chargingRateUnit (chargingSchedule p) = unit) then limit per else NO_LIMIT_SPECIFIED) ∧
  i_numberPhases x = numberPhases per.

Definition decides (t : DateTime) (x : IntermediatePeriod) : Prop :=
  (∃ p per, picked t p per ∧ period_for p per x) ∨ ((∀ p per, ¬ competes t p per) ∧ x = no_limit (i_startPeriod x)).

(** Of every purpose there is one profile per stack level. *)
Definition unique_levels : Prop :=
  ∀ p p', p ∈ ps → p' ∈ ps → chargingProfilePurpose p = purpose → chargingProfilePurpose p' = purpose →
    stackLevel p = stackLevel p' → p = p'.

Lemma decides_picked t x p per : unique_levels → decides t x → picked t p per → period_for p per x.
Proof.
  intros Hu [(p' & per' & (Hc' & Hmax') & Hx)|[Hn _]] (Hc & Hmax); [|by apply Hn in Hc].
  assert (p' = p) as ->.
  { pose proof (Hmax _ _ Hc'). pose proof (Hmax' _ _ Hc). destruct Hc as (? & ? & _), Hc' as (? & ? & _). apply Hu; try done. lia. }
  destruct Hc as (_ & _ & Hf), Hc' as (_ & _ & Hf'). by rewrite (in_force_unique _ _ _ _ _ _ Hf Hf').
Qed.

Lemma decides_nobody t x : decides t x → (∀ p per, ¬ competes t p per) → x = no_limit (i_startPeriod x).
Proof. intros [(p & per & [H _] & _)|[_ H]] Hn; [by apply Hn in H|done]. Qed.

Context {X : Type} `{SORT : StdSort} `{!StdSortLaws}.

Lemma laid_out end_ : Forall (profile_ok now end_ session) ps → now ≤ end_ →
  floor_seconds end_ - floor_seconds now < INT_MAX * second →
  ∃ es prof, calculate_all_profiles (X:=X) now end_ session ps purpose = Ret es ∧
    generate_profile_from_periods (X:=X) es now end_ = Ret prof ∧ profile_wf prof ∧
    ∀ o, 0 ≤ o → (floor_seconds now + o * second < floor_seconds end_ ∨ o = 0) →
      ∃ x, at_time i_startPeriod prof o = Some x ∧ decides (floor_seconds now + o * second) x.
Proof.
  intros Hok Hle Hr. destruct (calculate_all_profiles_spec (X:=X) now end_ session ps purpose Hok) as (es & Hes & Hent & Hat).
  destruct (generate_profile_spec (X:=X) es now end_ Hent Hr) as (prof & Hprof & Hwf & Hshow).
  exists es, prof. split_and!; [done..|]. intros o Ho Hor. destruct (Hshow o Ho Hor) as (x & Hx & Hs).
  exists x. split; [done|]. set (t := floor_seconds now + o * second) in *.
  assert (whole t) as Ht by (destruct (whole_floor now) as [k Hk]; exists (k + o); unfold t; lia).
  assert (floor_seconds now ≤ t ≤ end_) as Hrt.
  { assert (∀ u, floor_seconds u ≤ u) as Hfl.
    { intros u. unfold floor_seconds, second. pose proof (Z.mul_div_le u 1000000000). lia. }
    pose proof (Hfl end_). pose proof (Hfl now). unfold t, second in *. lia. }
  destruct (Hat t Ht Hrt) as [H1 H2]. destruct Hs as [(e & (He & Hc & Hb) & Ex)|[Hn Ex]].
  - left. destruct (H2 e He Hc) as (p & per & Hp & Hpu & Hf & (E1 & E2 & E3 & E4)). exists p, per. split.
    + split; [done|]. intros p' per' (Hp' & Hpu' & Hf'). destruct (H1 p' per' Hp' Hpu' Hf') as (e' & He' & Hc' & (_ & _ & E3' & _)).
      rewrite <- E3, <- E3'. by apply Hb.
    + rewrite Ex. split; [|by cbn]. intros unit. rewrite <- E1, <- E4. unfold period_of_entry.
      destruct (charging_rate_unit e), unit; done.
  - right. split; [|done]. intros p per (Hp & Hpu & Hf). destruct (H1 p per Hp Hpu Hf) as (e & He & Hc & _). by apply (Hn e).
Qed.
End decides.

(** The limits of [x] are those of the period, or there are none. *)
Definition like (p : ChargingProfile) (per : ChargingSchedulePeriod) (x : IntermediatePeriod) : Prop :=
  ∀ unit, feq (own unit x) (if decide (chargingRateUnit (chargingSchedule p) = unit) then limit per else NO_LIMIT_SPECIFIED).
Definition unlimited (x : IntermediatePeriod) : Prop := ∀ unit, feq (own unit x) NO_LIMIT_SPECIFIED.

(** The periods stand for the profiles that count. *)
Definition stand_for (counts : ChargingProfile → ChargingSchedulePeriod → Prop) (periods : list IntermediatePeriod) : Prop :=
  (∀ p per, counts p per → effective (limit per) → ∃ z, z ∈ periods ∧ like p per z) ∧
  ((∀ p per, counts p per → effective (limit per)) →
   ∀ z, z ∈ periods → (∃ p per, counts p per ∧ like p per z) ∨ unlimited z).

Lemma stand_for_app (c c1 c2 : ChargingProfile → ChargingSchedulePeriod → Prop) l1 l2 :
  (∀ p per, c p per ↔ c1 p per ∨ c2 p per) → stand_for c1 l1 → stand_for c2 l2 → stand_for c (l1 ++ l2).
Proof.
  intros Hc [HA1 HB1] [HA2 HB2]. split.
  - intros p per [H|H]%Hc He; [destruct (HA1 p per H He) as (z & ? & ?)|destruct (HA2 p per H He) as (z & ? & ?)];
      exists z; set_solver.
  - intros He z [Hz|Hz]%elem_of_app.
    + destruct (HB1 (λ p per H, He p per (proj2 (Hc p per) (or_introl H))) z Hz) as [(p & per & ? & ?)|?]; [|by right].
      left. exists p, per. by rewrite Hc; auto.
    + destruct (HB2 (λ p per H, He p per (proj2 (Hc p per) (or_intror H))) z Hz) as [(p & per & ? & ?)|?]; [|by right].
      left. exists p, per. by rewrite Hc; auto.
Qed.

Lemma stand_for_same c x x' : same_limits x x' → stand_for c [x] → stand_for c [x'].
Proof.
  intros Hs [HA HB]. assert (∀ u, feq (own u x) (own u x')) as Hu by (destruct Hs as (? & ? & _); by intros []).
  split.
  - intros p per Hc He. destruct (HA p per Hc He) as (z & ->%list_elem_of_singleton & Hl). exists x'. split; [set_solver|].
    intros u. by rewrite <- Hu.
  - intros He z ->%list_elem_of_singleton. destruct (HB He x) as [(p & per & ? & Hl)|Hl]; [set_solver|left; exists p, per|right].
    + split; [done|]. intros u. by rewrite <- Hu.
    + intros u. by rewrite <- Hu.
Qed.

Lemma stand_for_none c l : (∀ p per, ¬ c p per) → (∀ z, z ∈ l → unlimited z) → stand_for c l.
Proof. intros Hc Hl. split; [by intros ?? ?%Hc|]. intros _ z Hz. right. by apply Hl. Qed.

Lemma period_for_like p per x : period_for p per x → like p per x.
Proof. intros [H _] u. by rewrite H. Qed.

Lemma unlimited_no_limit x : x = no_limit (i_startPeriod x) → unlimited x.
Proof. intros -> []; done. Qed.

Lemma decides_stand_for now session ps purpose t x : unique_levels ps purpose →
  decides now session ps purpose t x → stand_for (picked now session ps purpose t) [x].
Proof.
  intros Hu Hd. destruct Hd as [(p & per & Hp & Hx)|[Hn Hx]].
  - split.
    + intros p' per' Hp' _. exists x. split; [set_solver|]. apply period_for_like.
      eapply decides_picked; [done| |done]. left. by exists p, per.
    + intros _ z ->%list_elem_of_singleton. left. exists p, per. split; [done|]. by apply period_for_like.
  - apply stand_for_none; [intros p per [H _]; by apply Hn in H|]. intros z ->%list_elem_of_singleton. by apply unlimited_no_limit.
Qed.

(** The final limit is not above a limit in the wanted unit that is merged into it. *)
Lemma merged_below unit dl dp sv periods x y z : z ∈ periods → effective (own unit z) →
  same_limits (lowest_limits periods) x → same_output (convert_period unit dl dp sv x) y → f_le (e_limit y) (own unit z).
Proof.
  intros Hz Hez Hs [Hy _]. assert (lowest_of (own unit) periods (own unit x)) as Hlow.
  { eapply lowest_of_proper; [|apply lowest_limits_spec]. destruct Hs as (? & ? & _). by destruct unit. }
  destruct Hlow as [(Hx & _ & Hmin)|[_ Hno]]; [|by destruct (Hno z Hz)].
  rewrite <- Hy. etrans; [by apply convert_below|by apply Hmin].
Qed.

(** ** The caps at one second *)
Section caps.
Context (now : DateTime) (session : option DateTime) (ps : list ChargingProfile) (active : bool).

(** The profiles that count at [t]: the one for the whole charge point, and during a
    transaction its TxProfile or else its TxDefaultProfile. *)
Definition tx_binding (t : DateTime) (p : ChargingProfile) (per : ChargingSchedulePeriod) : Prop :=
  picked now session ps TxProfile t p per ∨
  picked now session ps TxDefaultProfile t p per ∧ ∀ p' per', ¬ competes now session ps TxProfile t p' per'.
Definition binding (t : DateTime) (p : ChargingProfile) (per : ChargingSchedulePeriod) : Prop :=
  active = true ∧ tx_binding t p per ∨ picked now session ps ChargePointMaxProfile t p per.

(** What the limit of a composite schedule at [t] has to be. *)
Definition capped (t : DateTime) (unit : ChargingRateUnit) (default_limit : float) (l : float) : Prop :=
  (∀ p per, binding t p per → chargingRateUnit (chargingSchedule p) = unit → effective (limit per) → f_le l (limit per)) ∧
  ((∀ p per, ¬ binding t p per) → feq l default_limit) ∧
  ((∃ p per, binding t p per) →
   (∀ p per, binding t p per → chargingRateUnit (chargingSchedule p) = unit ∧ effective (limit per)) →
   ∃ p per, binding t p per ∧ feq l (limit per)).

Lemma unlimited_not_effective z unit : unlimited z → ¬ effective (own unit z).
Proof.
  intros Hz He. apply (effective_proper _ _ (Hz unit)) in He. by apply effective_limited in He.
Qed.

Lemma capped_lowest t unit dl dp sv periods x y : stand_for (binding t) periods → same_limits (lowest_limits periods) x →
  same_output (convert_period unit dl dp sv x) y → capped t unit dl (e_limit y).
Proof.
  intros [HA HB] Hs Ho. pose proof Ho as [Hy _]. assert (∀ u, lowest_of (own u) periods (own u x)) as Hlow.
  { intros u. eapply lowest_of_proper; [|apply lowest_limits_spec]. destruct Hs as (? & ? & _). by destruct u. }
  assert (∀ u z, effective (own u x) → feq (own u x) (own u z) → unlimited z → False) as Hlim.
  { intros u z Hx E Hz. apply (effective_proper _ _ E) in Hx. by eapply unlimited_not_effective. }
  split_and!.
  - intros p per Hb Hu He. destruct (HA p per Hb He) as (z & Hz & Hlike). specialize (Hlike unit).
    rewrite decide_True in Hlike by done. assert (effective (own unit z)) as Hez by (by eapply effective_proper; [symmetry|]).
    rewrite <- Hlike. by eapply merged_below.
  - intros Hn. assert (∀ u, limited (own u x) = false) as Hx.
    { intros u. destruct (Hlow u) as [(Hx & (z & Hz & E) & _)|[E _]]; [exfalso|by rewrite (limited_proper _ _ E)].
      destruct (HB ltac:(intros ?? H; by apply Hn in H) z Hz) as [(p & per & H & _)|Hun]; [by apply Hn in H|].
      by eapply Hlim. }
    rewrite <- Hy. unfold convert_period. pose proof (Hx A) as HxA. pose proof (Hx W) as HxW. cbn [own] in *. rewrite HxA, HxW. done.
  - intros (p & per & Hb) Hall. assert (∀ p per, binding t p per → effective (limit per)) as Heff by (by intros q qr [_ ?]%Hall).
    specialize (HB Heff). destruct (HA p per Hb (Heff _ _ Hb)) as (z & Hz & Hlike). specialize (Hlike unit).
    rewrite decide_True in Hlike by (by apply Hall in Hb as [? _]).
    assert (effective (own unit z)) as Hez by (eapply effective_proper; [symmetry; exact Hlike|by eapply Heff]).
    assert (∀ u, u ≠ unit → limited (own u x) = false) as Hother.
    { intros u Hu. destruct (Hlow u) as [(Hx & (w & Hw & E) & _)|[E _]]; [exfalso|by rewrite (limited_proper _ _ E)].
      destruct (HB w Hw) as [(p' & per' & Hb' & Hl')|Hun]; [|by eapply Hlim].
      specialize (Hl' u). rewrite decide_False in Hl' by (destruct (Hall _ _ Hb'); congruence).
      apply (effective_proper _ _ E), (effective_proper _ _ Hl') in Hx. by apply effective_limited in Hx. }
    destruct (Hlow unit) as [(Hx & (w & Hw & E) & _)|[_ Hno]]; [|by destruct (Hno z Hz)].
    destruct (HB w Hw) as [(p' & per' & Hb' & Hl')|Hun]; [|by destruct (Hlim unit w Hx E Hun)].
    exists p', per'. split; [done|]. specialize (Hl' unit). rewrite decide_True in Hl' by (by apply Hall in Hb' as [? _]).
    rewrite <- Hy, <- Hl', <- E. apply effective_limited in Hx. unfold convert_period, final_limit.
    destruct unit; [specialize (Hother W ltac:(done))|specialize (Hother A ltac:(done))]; cbn [own] in *;
      by rewrite Hother, Hx.
Qed.
End caps.

(** ** Merging the profiles of a transaction *)
Lemma limited_feq a b : feq a b → limited a = true → limited b = true.
Proof. intros H. by rewrite (limited_proper _ _ H). Qed.

Lemma like_limited p per x : like p per x → effective (limit per) →
  limited (current_limit x) || limited (power_limit x) = true.
Proof.
  intros Hl He%effective_limited. specialize (Hl (chargingRateUnit (chargingSchedule p))). rewrite decide_True in Hl by done.
  apply (limited_feq _ _ (symmetry Hl)) in He. apply orb_true_iff.
  destruct (chargingRateUnit (chargingSchedule p)); cbn [own] in He; auto.
Qed.

Lemma unlimited_limited x : unlimited x → limited (current_limit x) || limited (power_limit x) = false.
Proof.
  intros H. pose proof (H A) as HA. pose proof (H W) as HW. cbn [own] in *.
  by rewrite (limited_proper _ _ HA), (limited_proper _ _ HW).
Qed.

(** The first period wins when it is limited. *)
Lemma prefer_first_pair x y : same_limits (prefer_first [x; y])
  (if limited (current_limit x) || limited (power_limit x) then x
   else if limited (current_limit y) || limited (power_limit y) then y else no_limit 0).
Proof.
  unfold prefer_first, limited. cbn [list_find].
  destruct (decide (Is_true (negb (f_eq (current_limit x) NO_LIMIT_SPECIFIED) || negb (f_eq (power_limit x) NO_LIMIT_SPECIFIED)))) as [H|H].
  { apply Is_true_eq_true in H. by rewrite H. }
  rewrite Is_true_true, not_true_iff_false in H. rewrite H.
  destruct (decide (Is_true (negb (f_eq (current_limit y) NO_LIMIT_SPECIFIED) || negb (f_eq (power_limit y) NO_LIMIT_SPECIFIED)))) as [H'|H'].
  { apply Is_true_eq_true in H'. by rewrite H'. }
  rewrite Is_true_true, not_true_iff_false in H'. by rewrite H'.
Qed.

Lemma prefer_first_stands now session ps t x y :
  unique_levels ps TxProfile → unique_levels ps TxDefaultProfile →
  decides now session ps TxProfile t x → decides now session ps TxDefaultProfile t y →
  stand_for (tx_binding now session ps t) [prefer_first [x; y]].
Proof.
  intros Hu1 Hu2 Hx Hy. eapply stand_for_same; [symmetry; apply prefer_first_pair|].
  pose proof (decides_stand_for _ _ _ _ _ _ Hu2 Hy) as [HA2 HB2].
  destruct Hx as [(p & per & Hp & Hf)|[Hn Hx]].
  - split.
    + intros p' per' [Hp'|[_ Hno]] He; [|by destruct (Hno p per (proj1 Hp))].
      assert (like p' per' x) as Hl.
      { apply period_for_like. eapply decides_picked; [exact Hu1| |exact Hp']. left. by exists p, per. }
      rewrite (like_limited _ _ _ Hl He). exists x. split; [set_solver|done].
    + intros He z ->%list_elem_of_singleton. left. exists p, per. split; [by left|].
      apply period_for_like in Hf. by rewrite (like_limited _ _ _ Hf (He _ _ (or_introl Hp))).
  - apply unlimited_no_limit in Hx. rewrite (unlimited_limited _ Hx). split.
    + intros p per [Hp|[Hp _]] He; [by destruct (Hn p per (proj1 Hp))|].
      destruct (HA2 p per Hp He) as (z & ->%list_elem_of_singleton & Hl). rewrite (like_limited _ _ _ Hl He).
      exists y. split; [set_solver|done].
    + intros He z ->%list_elem_of_singleton.
      destruct (limited (current_limit y) || limited (power_limit y)); [|right; by intros []].
      destruct (HB2 ltac:(intros p per H; apply (He p per); by right) y) as [(p & per & Hp & Hl)|Hl]; [set_solver| |by right].
      left. exists p, per. split; [|done]. by right.
Qed.

End CompositeFacts.
