(* ===== verification/CompositeSchedule.v ===== *)
(** * The composite schedule of an EVSE

    [calculate_enhanced_composite_schedule] for a connector, second by second: the
    limit never exceeds that of a profile that counts, it is the limit of one of them
    when all are given in the wanted unit, and the default limit when no profile
    counts. *)

From S2P Require Import Prelude Float32 Profile ProfileFacts ScheduleFacts SmartCharging CompositeFacts.

Module CompositeSchedule.
Import Float32 Profile ProfileFacts ScheduleFacts SmartCharging CompositeFacts.

Lemma ret_bind {X T U} (x : T) (k : T → outcome X U) : (Ret x ≫= k) = k x.
Proof. done. Qed.

(** ** The installed profiles *)

(** A map holds profiles of one purpose under their stack level. *)
Definition keyed (purpose : ChargingProfilePurposeType) (m : gmap Z ChargingProfile) : Prop :=
  ∀ k p, m !! k = Some p → stackLevel p = k ∧ chargingProfilePurpose p = purpose.

Definition keyed_connector (c : Connector) : Prop :=
  keyed TxDefaultProfile (stack_level_tx_default_profiles_map c) ∧ keyed TxProfile (stack_level_tx_profiles_map c).

Definition well_keyed (s : SmartChargingHandler) : Prop :=
  keyed ChargePointMaxProfile (stack_level_charge_point_max_profiles_map s) ∧
  map_Forall (λ _, keyed_connector) (connectors s).

(** The map that holds the profiles of a purpose for a connector. *)
Definition map_of (s : SmartChargingHandler) (id : Z) (purpose : ChargingProfilePurposeType) : gmap Z ChargingProfile :=
  match purpose, connectors s !! id with
  | ChargePointMaxProfile, _ => stack_level_charge_point_max_profiles_map s
  | TxDefaultProfile, Some c => stack_level_tx_default_profiles_map c
  | TxProfile, Some c => stack_level_tx_profiles_map c
  | _, None => ∅
  end.

Lemma map_of_keyed s id purpose : well_keyed s → keyed purpose (map_of s id purpose).
Proof.
  intros [Hm Hc]. unfold map_of. destruct purpose; [done| |]; destruct (connectors s !! id) as [c|] eqn:Ec; try done;
    destruct (Hc id c Ec); done.
Qed.

Lemma elem_of_values (m : gmap Z ChargingProfile) p : p ∈ snd <$> items m ↔ ∃ k, m !! k = Some p.
Proof.
  rewrite list_elem_of_fmap. split.
  - intros ([k q] & -> & H%elem_of_items). by exists k.
  - intros [k H]. exists (k, p). split; [done|]. by apply elem_of_items.
Qed.

(** A profile is considered for a connector only if the map of its purpose holds it. *)
Lemma valid_profile_installed s id ignored p : well_keyed s → p ∈ get_valid_profiles s id ignored →
  map_of s id (chargingProfilePurpose p) !! stackLevel p = Some p ∧
  considered ignored (chargingProfilePurpose p) = true ∧ (chargingProfilePurpose p ≠ ChargePointMaxProfile → 0 < id).
Proof.
  intros Hk. unfold get_valid_profiles.
  assert (∀ purpose k, map_of s id purpose !! k = Some p → considered ignored purpose = true →
    (purpose ≠ ChargePointMaxProfile → 0 < id) →
    map_of s id (chargingProfilePurpose p) !! stackLevel p = Some p ∧ considered ignored (chargingProfilePurpose p) = true ∧
    (chargingProfilePurpose p ≠ ChargePointMaxProfile → 0 < id)) as Hgo.
  { intros purpose k H. by destruct (map_of_keyed s id purpose Hk k p H) as [-> ->]. }
  rewrite elem_of_app. intros [H|H].
  - destruct (considered ignored ChargePointMaxProfile) eqn:E; [|by apply not_elem_of_nil in H].
    apply elem_of_values in H as [k H]. eapply (Hgo ChargePointMaxProfile k); done.
  - destruct (id >? 0) eqn:Ei; [|by apply not_elem_of_nil in H]. apply Z.gtb_lt in Ei.
    destruct (connectors s !! id) as [c|] eqn:Ec; [|by apply not_elem_of_nil in H]. apply elem_of_app in H as [H|H].
    + destruct (considered ignored TxProfile) eqn:E; [|by apply not_elem_of_nil in H].
      eapply (proj1 (list_elem_of_filter _ _ _)) in H as [_ [k H]%elem_of_values]. apply (Hgo TxProfile k); [|done..]. unfold map_of. by rewrite Ec.
    + destruct (considered ignored TxDefaultProfile) eqn:E; [|by apply not_elem_of_nil in H].
      apply elem_of_values in H as [k H]. apply (Hgo TxDefaultProfile k); [|done..]. unfold map_of. by rewrite Ec.
Qed.

Lemma valid_unique s id ignored purpose : well_keyed s → unique_levels (get_valid_profiles s id ignored) purpose.
Proof.
  intros Hk p p' [Hp _]%valid_profile_installed [Hp' _]%valid_profile_installed E E' El; try done.
  rewrite E in Hp. rewrite E', <- El in Hp'. congruence.
Qed.

(** The profiles for the whole charge point are considered for every connector. *)
Lemma station_wide_valid s ignored : get_valid_profiles s 0 ignored =
  if considered ignored ChargePointMaxProfile then snd <$> items (stack_level_charge_point_max_profiles_map s) else [].
Proof. unfold get_valid_profiles. by rewrite app_nil_r. Qed.

Lemma station_wide_subset s id ignored p : p ∈ get_valid_profiles s 0 ignored → p ∈ get_valid_profiles s id ignored.
Proof. rewrite station_wide_valid. unfold get_valid_profiles. set_solver. Qed.

Lemma station_wide_max s id ignored p : well_keyed s → p ∈ get_valid_profiles s id ignored →
  chargingProfilePurpose p = ChargePointMaxProfile → p ∈ get_valid_profiles s 0 ignored.
Proof.
  intros Hk (H & Hc & _)%valid_profile_installed E; [|done]. rewrite E in *. rewrite station_wide_valid, Hc.
  apply elem_of_values. by exists (stackLevel p).
Qed.

(** Which profiles compete depends on the profiles of the purpose only. *)
Lemma picked_ext now session ps ps' purpose t p per :
  (∀ q, chargingProfilePurpose q = purpose → q ∈ ps ↔ q ∈ ps') →
  picked now session ps purpose t p per ↔ picked now session ps' purpose t p per.
Proof.
  intros H. assert (∀ q qr, competes now session ps purpose t q qr ↔ competes now session ps' purpose t q qr) as Hc.
  { intros q qr. unfold competes. split; intros (? & ? & ?); split_and!; try done; by apply H. }
  unfold picked. rewrite Hc. split; intros [? Hm]; (split; [done|]); intros q qr ?%Hc; by eapply Hm.
Qed.

(** Only a relative profile depends on the start of the session. *)
Lemma in_force_session now s1 s2 p t per : chargingProfileKind p ≠ Relative → in_force now s1 p t per → in_force now s2 p t per.
Proof. intros Hp (st & Hs & H). exists st. split; [|done]. rewrite <- Hs. unfold start_at. by destruct (chargingProfileKind p). Qed.

Lemma profile_ok_session now end_ s1 s2 p : chargingProfileKind p ≠ Relative → profile_ok now end_ s1 p → profile_ok now end_ s2 p.
Proof.
  intros Hp [H1 H2]. split; [done|]. intros v st Hv Hs. apply (H2 v st Hv). rewrite <- Hs. unfold start_at.
  by destruct (chargingProfileKind p).
Qed.

Lemma picked_session now s1 s2 ps purpose t p per : (∀ q, q ∈ ps → chargingProfileKind q ≠ Relative) →
  picked now s1 ps purpose t p per → picked now s2 ps purpose t p per.
Proof.
  intros Hr. assert (∀ a b q qr, competes now a ps purpose t q qr → competes now b ps purpose t q qr) as Hc.
  { intros a b q qr (? & ? & Hf). split_and!; [done..|]. eapply in_force_session; [by apply Hr|exact Hf]. }
  intros [H Hm]. split; [by eapply Hc|]. intros q qr Hq. by eapply Hm, Hc.
Qed.

(** ** The schedule of an EVSE *)
Section composite.
Context `{SORT : StdSort} `{!StdSortLaws}.
Context (start end_ : DateTime).
Context (Hle : start ≤ end_) (Hspan : floor_seconds end_ - floor_seconds start < INT_MAX * second).

(** The seconds of the schedule. *)
Definition in_span (o : Z) : Prop := 0 ≤ o ∧ (floor_seconds start + o * second < floor_seconds end_ ∨ o = 0).
Notation time o := (floor_seconds start + o * second).

Lemma evse_intermediates_stand session sim evse station :
  let ps := evse ++ station in let active := bool_decide (is_Some session) || sim in
  Forall (profile_ok start end_ session) ps → (∀ purpose, unique_levels ps purpose) →
  ∃ l, generate_evse_intermediates evse station start end_ session sim = Ret l ∧ Forall profile_wf l ∧
    ∀ o, in_span o → stand_for (λ p per, active = true ∧ tx_binding start session ps (time o) p per) (values_at l o).
Proof.
  intros ps active Hok Hu. unfold generate_evse_intermediates. fold ps. fold active. destruct active eqn:Ea.
  2: { exists []. split_and!; [done..|]. intros o _. apply stand_for_none; [by intros ?? [? _]|by intros ? ?%not_elem_of_nil]. }
  destruct (laid_out start session ps TxDefaultProfile (X:=exn) end_ Hok Hle Hspan) as (es2 & p2 & -> & Hg2 & Hw2 & Hd2).
  destruct (laid_out start session ps TxProfile (X:=exn) end_ Hok Hle Hspan) as (es1 & p1 & -> & Hg1 & Hw1 & Hd1).
  destruct (combine_spec (X:=exn) prefer_first [p1; p2]) as (r & Hr & Hwr & Hat); [done|by apply Forall_cons; split; [|apply Forall_singleton]|].
  unfold merge_tx_profile_with_tx_default_profile. rewrite !ret_bind, Hg2, ret_bind, Hg1, !ret_bind, Hr, ret_bind.
  exists [r]. split; [done|]. split; [by constructor|].
  intros o [Ho Hor]. destruct (Hd1 o Ho Hor) as (x1 & E1 & D1), (Hd2 o Ho Hor) as (x2 & E2 & D2), (Hat o Ho) as (x & E & Hs).
  unfold values_at in *. cbn in *. rewrite E. rewrite E1, E2 in Hs. cbn in *.
  pose proof (prefer_first_stands _ _ _ _ _ _ (Hu TxProfile) (Hu TxDefaultProfile) D1 D2) as Hst.
  apply (stand_for_same _ _ _ Hs) in Hst.
  rewrite <- (app_nil_r [x]). eapply stand_for_app with (c2 := λ _ _, False); [|exact Hst|apply stand_for_none; [by intros ?? []|by intros ? ?%not_elem_of_nil]].
  intros p per. tauto.
Qed.

Context (s : SmartChargingHandler) (evse : Z) (unit : ChargingRateUnit) (offline sim : bool).
Let config := CompositeScheduleConfig_new (configuration s) offline.
Let session : option DateTime := floor_seconds <$> (connectors s !! evse ≫= session_of).
Let ps := get_valid_profiles s evse (purposes_to_ignore config).

Lemma composite_capped : evse ≠ 0 → well_keyed s → Forall (profile_ok start end_ session) ps →
  ∃ sch, calculate_enhanced_composite_schedule s start end_ evse unit offline sim = Ret sch ∧
    ec_chargingRateUnit sch = unit ∧
    ∀ o, in_span o → ∃ y, at_time e_startPeriod (ec_chargingSchedulePeriod sch) o = Some y ∧
      capped start session ps (bool_decide (is_Some session) || sim) (time o) unit
        (if decide (unit = A) then config_current_limit config else config_power_limit config) (e_limit y).
Proof.
  intros Hev Hk Hok. unfold calculate_enhanced_composite_schedule. fold config. fold session. fold ps.
  rewrite (proj2 (Z.eqb_neq _ _) Hev). set (station := get_valid_profiles s 0 (purposes_to_ignore config)).
  assert (∀ q, q ∈ ps ++ station ↔ q ∈ ps) as Hps.
  { intros q. rewrite elem_of_app. split; [|auto]. intros [?|?]; [done|]. by apply station_wide_subset. }
  assert (∀ l purpose, (∀ q, q ∈ l → q ∈ ps) → unique_levels l purpose) as Hul.
  { intros l purpose Hl q q' Hq Hq'. apply (valid_unique s evse (purposes_to_ignore config)); [done|by apply Hl..]. }
  assert (∀ l, (∀ q, q ∈ l → q ∈ ps) → Forall (profile_ok start end_ session) l) as Hfl.
  { intros l Hl. apply Forall_forall. intros q Hq. eapply Forall_forall in Hok; [exact Hok|]. by apply Hl. }
  destruct (evse_intermediates_stand session sim ps station) as (inter & -> & Hwi & Hsi);
    [apply Hfl; naive_solver|intros; apply Hul; naive_solver|]. rewrite !ret_bind.
  destruct (laid_out start session station ChargePointMaxProfile (X:=exn) end_) as (es & pm & -> & Hg & Hwm & Hdm);
    [apply Hfl; by intros q; apply station_wide_subset|done..|]. rewrite ret_bind, Hg, ret_bind.
  destruct (combine_spec (X:=exn) lowest_limits (inter ++ [pm])) as (r & Hr & Hwr & Hat);
    [by destruct inter|apply Forall_app; by split; [|constructor]|].
  unfold merge_profiles_by_lowest_limit. rewrite Hr, ret_bind. eexists. split; [done|]. split; [done|]. cbn [ec_chargingSchedulePeriod].
  intros o Ho. destruct (Hdm o (proj1 Ho) (proj2 Ho)) as (xm & Em & Dm), (Hat o (proj1 Ho)) as (x & Ex & Hs).
  edestruct (convert_at r unit) as (y & Ey & Hy); [exact Hwr|exact Ex|]. exists y. split; [exact Ey|].
  eapply capped_lowest; [|exact Hs|exact Hy]. unfold values_at. rewrite omap_app. fold (values_at inter o). cbn. rewrite Em.
  eapply stand_for_app; [|apply (Hsi o Ho)|apply decides_stand_for; [apply Hul; by intros q; apply station_wide_subset|exact Dm]].
  intros p per. unfold binding, tx_binding. fold station.
  rewrite (picked_ext _ _ station ps ChargePointMaxProfile), !(picked_ext _ _ (ps ++ station) ps); [|by intros q _..|].
  2: { intros q Hq. split; [by apply station_wide_subset|]. intros ?. by eapply station_wide_max. }
  unfold competes. setoid_rewrite Hps. done.
Qed.

(** *** The whole charge point *)

(** The connectors are numbered without gaps. *)
Definition contiguous : Prop := ∀ id, 0 ≤ id → id < Z.of_nat (size (connectors s)) → is_Some (connectors s !! id).

Definition profiles_ok : Prop := ∀ id session', (session' = None ∨ ∃ c, connectors s !! id = Some c ∧ session' = session_of c) →
  Forall (profile_ok start end_ session') (get_valid_profiles s id (purposes_to_ignore config)).

Lemma evse_schedules_total fuel station id n last_session : station = get_valid_profiles s 0 (purposes_to_ignore config) →
  contiguous → well_keyed s → profiles_ok → 1 ≤ id → n < Z.of_nat (size (connectors s)) → n - id < Z.of_nat fuel →
  ∃ l last_session', evse_schedules fuel s config station start end_ sim id n last_session = Ret (l, last_session') ∧
    Forall profile_wf l ∧ (last_session' = last_session ∨ ∃ id c, connectors s !! id = Some c ∧ last_session' = session_of c).
Proof.
  intros -> Hc Hk Hok. revert id last_session. induction fuel as [|fuel IH]; intros id last_session Hid Hn Hf;
    cbn [evse_schedules]; destruct (Z.leb_spec id n) as [Hi|Hi]; [lia|by exists [], last_session; auto| |by exists [], last_session; auto].
  destruct (Hc id) as [c Ec]; [lia..|]. rewrite Ec.
  set (own_ps := get_valid_profiles s id (purposes_to_ignore config)).
  set (station := get_valid_profiles s 0 (purposes_to_ignore config)) in *.
  assert (∀ q, q ∈ own_ps ++ station ↔ q ∈ own_ps) as Hps.
  { intros q. rewrite elem_of_app. split; [|auto]. intros [?|?]; [done|]. by apply station_wide_subset. }
  destruct (evse_intermediates_stand (session_of c) sim own_ps station) as (inter & -> & Hwi & _).
  { apply Forall_forall. intros q Hq%Hps. eapply (Forall_forall _ own_ps); [|exact Hq]. apply Hok. right. by exists c. }
  { intros purpose q q' Hq%Hps Hq'%Hps. by apply (valid_unique s id (purposes_to_ignore config)). }
  rewrite ret_bind. unfold merge_profiles_by_lowest_limit.
  assert (∃ r, combine_list_of_profiles (X:=exn) inter lowest_limits = Ret r ∧ profile_wf r) as (r & -> & Hr).
  { destruct inter as [|i inter]; [exists [no_limit 0]; split; [done|by apply profile_wf_single]|].
    destruct (combine_spec (X:=exn) lowest_limits (i :: inter)) as (r & ? & ? & _); [done..|by exists r]. }
  rewrite ret_bind. destruct (IH (id + 1) (session_of c)) as (l & ls & -> & Hl & Hls); [lia..|].
  exists (r :: l), ls. split; [done|]. split; [by constructor|]. right. destruct Hls as [->|?]; [by exists id, c|done].
Qed.

Lemma station_composite_capped : contiguous → well_keyed s → profiles_ok → connectors s ≠ ∅ → nr_of_connectors s < 2 ^ 64 →
  (∀ p, p ∈ get_valid_profiles s 0 (purposes_to_ignore config) → chargingProfileKind p ≠ Relative) →
  ∃ sch, calculate_enhanced_composite_schedule s start end_ 0 unit offline sim = Ret sch ∧ ec_chargingRateUnit sch = unit ∧
    ∀ o, in_span o → ∃ y, at_time e_startPeriod (ec_chargingSchedulePeriod sch) o = Some y ∧
      ∀ p per, picked start None (get_valid_profiles s 0 (purposes_to_ignore config)) ChargePointMaxProfile (time o) p per →
        chargingRateUnit (chargingSchedule p) = unit → effective (limit per) → f_le (e_limit y) (limit per).
Proof.
  intros Hc Hk Hok Hne Hmax Hrel. unfold calculate_enhanced_composite_schedule. fold config. rewrite Z.eqb_refl.
  set (station := get_valid_profiles s 0 (purposes_to_ignore config)).
  assert (nr_of_evses s = nr_of_connectors s - 1) as ->.
  { unfold nr_of_evses. rewrite Z.mod_small; [done|]. unfold nr_of_connectors in *. apply map_size_non_empty_iff in Hne. lia. }
  destruct (evse_schedules_total (S (size (connectors s))) station 1 (nr_of_connectors s - 1)
    (floor_seconds <$> (connectors s !! 0 ≫= session_of))) as (l & ls & -> & Hl & Hls);
    [done..|unfold nr_of_connectors; lia|unfold nr_of_connectors; lia|].
  rewrite ret_bind. unfold merge_profiles_by_summing_limits.
  assert (∃ r, combine_list_of_profiles (X:=exn) l (summed_limits (config_current_limit config) (config_power_limit config)) = Ret r ∧
    profile_wf r) as (r & -> & Hr).
  { destruct l as [|i l]; [exists [no_limit 0]; split; [done|by apply profile_wf_single]|].
    destruct (combine_spec (X:=exn) (summed_limits (config_current_limit config) (config_power_limit config)) (i :: l))
      as (r & ? & ? & _); [done..|by exists r]. }
  rewrite !ret_bind.
  destruct (laid_out start ls station ChargePointMaxProfile (X:=exn) end_) as (es & pm & -> & Hg & Hwm & Hdm); [|done..|].
  { apply Forall_forall. intros q Hq. eapply profile_ok_session; [by apply Hrel|].
    eapply (Forall_forall _ station); [|exact Hq]. apply Hok. by left. }
  rewrite ret_bind, Hg, ret_bind.
  destruct (combine_spec (X:=exn) lowest_limits [r; pm]) as (r' & Hr' & Hwr' & Hat);
    [done|apply Forall_cons; by split; [|apply Forall_singleton]|].
  unfold merge_profiles_by_lowest_limit. cbn [app]. rewrite Hr', ret_bind. eexists. split; [done|]. split; [done|].
  cbn [ec_chargingSchedulePeriod]. intros o Ho.
  destruct (Hdm o (proj1 Ho) (proj2 Ho)) as (xm & Em & Dm), (Hat o (proj1 Ho)) as (x & Ex & Hs).
  edestruct (convert_at r' unit) as (y & Ey & Hy); [exact Hwr'|exact Ex|]. exists y. split; [exact Ey|].
  intros p per Hp Hu He.
  assert (period_for p per xm) as [Hx _].
  { apply (decides_picked start ls station ChargePointMaxProfile (time o)); [by apply valid_unique|exact Dm|]. by apply (picked_session _ None ls). }
  specialize (Hx unit). rewrite decide_True in Hx by done. rewrite <- Hx. eapply merged_below; [| |exact Hs|exact Hy].
  - apply list_elem_of_omap. exists pm. split; [set_solver|done].
  - by rewrite Hx.
Qed.
End composite.
End CompositeSchedule.
