(* ===== verification/SmartChargingFacts.v ===== *)
(** * Installed and stored charging profiles

    The profiles in the table are those the handler gets back when it is started
    again.  As long as the statements succeed, every profile in the table is installed
    in memory wherever it is meant to be: [coherent].  All operations keep this, and
    loading the table establishes it. *)

From S2P Require Import Prelude Float32 Profile SmartCharging CompositeSchedule.
#[local] Open Scope Z_scope.

Module SmartChargingFacts.
Import Profile SmartCharging CompositeSchedule.

Lemma elem_of_lfilter {T} (P : T → Prop) (dec : ∀ x, Decision (P x)) l x : x ∈ list_filter P dec l ↔ P x ∧ x ∈ l.
Proof. apply list_elem_of_filter. Qed.

(** ** Runs that return *)
Definition ends {T} (P : SmartChargingHandler → Prop) (m : op T) (Q : T → SmartChargingHandler → Prop) : Prop :=
  ∀ s, P s → ∃ a s', m s = (Ret a, s', []) ∧ Q a s'.

Lemma ends_bind {T U} P (m : op T) (k : T → op U) Q R : ends P m Q → (∀ a, ends (Q a) (k a) R) → ends P (m ≫= k) R.
Proof.
  intros Hm Hk s Hs. destruct (Hm s Hs) as (a & s1 & E & HQ). destruct (Hk a s1 HQ) as (b & s2 & E2 & HR).
  exists b, s2. split; [|done]. by rewrite (bind_silent _ _ _ _ _ E).
Qed.

Lemma ends_get {U} P (k : SmartChargingHandler → op U) R :
  (∀ s0, P s0 → ends (λ s, s = s0) (k s0) R) → ends P (cget ≫= k) R.
Proof. intros Hk s Hs. rewrite bind_get. by apply (Hk s Hs). Qed.

Lemma ends_ret {T} (P : _ → Prop) (a : T) (Q : T → _ → Prop) : (∀ s, P s → Q a s) → ends P (mret a) Q.
Proof. intros H s Hs. exists a, s. eauto. Qed.

Lemma ends_modify (P : _ → Prop) g (Q : () → _ → Prop) : (∀ s, P s → Q tt (g s)) → ends P (cmodify g) Q.
Proof. intros H s Hs. exists tt, (g s). eauto. Qed.

Lemma ends_post {T} P (m : op T) (Q R : T → _ → Prop) : ends P m Q → (∀ a s, Q a s → R a s) → ends P m R.
Proof. intros H HQ s Hs. destruct (H s Hs) as (a & s' & ? & ?). eauto. Qed.

Lemma ends_pre {T} (P P' : _ → Prop) (m : op T) Q : ends P' m Q → (∀ s, P s → P' s) → ends P m Q.
Proof. intros H HP s Hs. by apply H, HP. Qed.

Lemma ends_try P m Q : ends P m Q → ends P (try_db m) Q.
Proof. intros H s Hs. destruct (H s Hs) as (a & s' & E & ?). exists a, s'. unfold try_db, ccatch. by rewrite E. Qed.

(** ** The database answers *)
Definition db_ok (s : SmartChargingHandler) : Prop := statement_ok s = [].

Lemma run_statement_ok f s0 : db_ok s0 →
  ends (λ s, s = s0) (run_statement f) (λ _ s, s = set_profile_rows (f (profile_rows s0)) s0).
Proof. intros H s ->. unfold db_ok in H. unfold run_statement, step_statement. cexpand. rewrite H. cbn. eauto. Qed.

Lemma delete_profile_ok id s0 : db_ok s0 → ends (λ s, s = s0) (delete_charging_profile id)
  (λ _ s, s = set_profile_rows (list_filter (λ r, row_id r ≠ id) _ (profile_rows s0)) s0).
Proof. apply run_statement_ok. Qed.

(** ** Clearing one map *)
Lemma clear_loop_ok f id l m s0 : db_ok s0 → NoDup (fst <$> l) →
  ends (λ s, s = s0) (clear_loop f id l m) (λ r s,
    (∀ lv, r.1 !! lv = if existsb (λ kp, (kp.1 =? lv) && clears f id kp.1 kp.2) l then None else m !! lv) ∧
    r.2 = existsb (λ kp, clears f id kp.1 kp.2) l ∧
    ∃ rows, s = set_profile_rows rows s0 ∧
      ∀ r, r ∈ rows ↔ r ∈ profile_rows s0 ∧ ∀ kp, kp ∈ l → clears f id kp.1 kp.2 = true → row_id r ≠ chargingProfileId kp.2).
Proof.
  revert m s0. induction l as [|[lv p] l IH]; intros m s0 Hdb Hnd; cbn [clear_loop].
  { apply ends_ret. intros s ->. split_and!; [done..|]. exists (profile_rows s0). split; [by destruct s0|]. set_solver. }
  apply NoDup_cons in Hnd as [Hni Hnd]. cbn [existsb fst snd]. destruct (clears f id lv p) eqn:Ec.
  - eapply ends_bind; [apply ends_try, delete_profile_ok, Hdb|]. intros [].
    set (s1 := set_profile_rows _ s0). eapply ends_bind; [by apply (IH (delete lv m) s1)|]. intros [m' b].
    apply ends_ret. intros s (Hm & _ & rows & -> & Hrows). cbn [fst snd] in *. split_and!; [|done|].
    + intros k. rewrite Hm. destruct (Z.eqb_spec lv k) as [->|Hne]; cbn.
      * case_match; [done|apply lookup_delete_eq].
      * by rewrite lookup_delete_ne.
    + exists rows. split; [done|]. intros r. rewrite Hrows. cbn [s1 set_profile_rows profile_rows].
      rewrite elem_of_lfilter. split.
      * intros [[H1 H2] H3]. split; [done|]. intros kp [->|Hkp]%elem_of_cons; [by intros _|by apply H3].
      * intros [H1 H2]. split; [split; [|done]|].
        -- by apply (H2 (lv, p)); [left|].
        -- intros kp Hkp. apply H2. by right.
  - eapply ends_post; [by apply IH|]. intros [m' b] s (Hm & Hb & rows & -> & Hrows). split_and!; [intros k; rewrite andb_false_r; apply Hm|done|].
    exists rows. split; [done|]. intros r. rewrite Hrows. split; intros [H1 H2]; (split; [done|]).
    + intros kp [->|Hkp]%elem_of_cons; [cbn; by rewrite Ec|by apply H2].
    + intros kp Hkp. apply H2. by right.
Qed.

Lemma items_NoDup {T} (m : gmap Z T) : NoDup (fst <$> items m).
Proof. rewrite items_perm. apply NoDup_fst_map_to_list. Qed.

Lemma clear_profiles_ok f id m s0 : db_ok s0 →
  ends (λ s, s = s0) (clear_profiles f id m) (λ r s,
    r.1 = filter (λ kp, clears f id kp.1 kp.2 = false) m ∧
    (r.2 = false → r.1 = m) ∧
    ∃ rows, s = set_profile_rows rows s0 ∧
      ∀ r, r ∈ rows ↔ r ∈ profile_rows s0 ∧ ∀ lv p, m !! lv = Some p → clears f id lv p = true → row_id r ≠ chargingProfileId p).
Proof.
  intros Hdb. eapply ends_post; [by apply clear_loop_ok, items_NoDup|]. intros [m' b] s (Hm & Hb & rows & -> & Hrows).
  cbn [fst snd] in *. assert (m' = filter (λ kp, clears f id kp.1 kp.2 = false) m) as ->.
  { apply map_eq. intros lv. rewrite Hm.
    match goal with |- context [existsb ?g ?l] => destruct (existsb g l) eqn:E end.
    - apply existsb_exists in E as ([lv' p] & Hin%list_elem_of_In%elem_of_items & [E%Z.eqb_eq Hc]%andb_prop). cbn in *. subst lv'.
      symmetry. apply map_lookup_filter_None. right. intros p' Hp'. rewrite Hin in Hp'. injection Hp' as <-. cbn. congruence.
    - destruct (m !! lv) as [p|] eqn:Ep; [|symmetry; apply map_lookup_filter_None; by left].
      symmetry. apply map_lookup_filter_Some. split; [done|]. cbn. destruct (clears f id lv p) eqn:Ec; [|done]. exfalso.
      apply not_true_iff_false in E. apply E, existsb_exists. exists (lv, p). cbn. rewrite Z.eqb_refl, Ec. split; [|done].
      by apply list_elem_of_In, elem_of_items. }
  split; [done|]. split.
  - intros ->. apply map_filter_id. intros lv p Hp. cbn. destruct (clears f id lv p) eqn:Ec; [|done]. exfalso.
    symmetry in Hb. apply not_true_iff_false in Hb. apply Hb, existsb_exists. exists (lv, p). split; [|done].
    by apply list_elem_of_In, elem_of_items.
  - exists rows. split; [done|]. intros r. rewrite Hrows. split; intros [H1 H2]; (split; [done|]).
    + intros lv p Hp. by apply (H2 (lv, p)), elem_of_items.
    + intros [lv p] Hp%elem_of_items. by apply H2.
Qed.

(** ** Coherence *)
Definition same_connectors (s s' : SmartChargingHandler) : Prop :=
  dom (connectors s') = dom (connectors s) ∧ configuration s' = configuration s ∧ statement_ok s' = statement_ok s.

(** The connectors a stored profile is meant for. *)
Definition meant_for (s : SmartChargingHandler) (r : profile_row) (id : Z) : Prop :=
  id ∈ dom (connectors s) ∧
  (id = row_connector_id r ∧ (chargingProfilePurpose (row_profile r) = TxDefaultProfile → id ≠ 0) ∨
   row_connector_id r = 0 ∧ chargingProfilePurpose (row_profile r) = TxDefaultProfile ∧ id ≠ 0).

Definition installed (s : SmartChargingHandler) (r : profile_row) : Prop :=
  (∃ id, meant_for s r id) ∧ ∀ id, meant_for s r id →
    map_of s id (chargingProfilePurpose (row_profile r)) !! stackLevel (row_profile r) = Some (row_profile r).

(** Coherent but for the rows with the given ids. *)
Definition coherent_but (ids : list Z) (s : SmartChargingHandler) : Prop :=
  db_ok s ∧ contiguous s ∧ 2 ≤ nr_of_connectors s < 2 ^ 31 ∧ well_keyed s ∧
  ∀ r, r ∈ profile_rows s → row_id r = chargingProfileId (row_profile r) ∧ row_connector_id r < 2 ^ 31 ∧ (installed s r ∨ row_id r ∈ ids).
Definition coherent : SmartChargingHandler → Prop := coherent_but [].

(** What an operation that erases profiles does. *)
Definition shrinks (s s' : SmartChargingHandler) : Prop :=
  same_connectors s s' ∧ (∀ r, r ∈ profile_rows s' → r ∈ profile_rows s) ∧
  (∀ id purpose lv p, map_of s' id purpose !! lv = Some p → map_of s id purpose !! lv = Some p) ∧
  (∀ id purpose lv p, map_of s id purpose !! lv = Some p → map_of s' id purpose !! lv = Some p ∨
     ∀ r, r ∈ profile_rows s' → row_id r ≠ chargingProfileId p).

#[export] Instance shrinks_preorder : PreOrder shrinks.
Proof.
  split.
  - intros s. split_and!; auto. by split_and!.
  - intros a b c ((?&?&?) & H2 & H3 & H4) ((?&?&?) & H2' & H3' & H4'). split_and!; [split_and!; congruence|auto..|].
    intros id purpose lv p Hp. destruct (H4 _ _ _ _ Hp) as [Hb|Hb]; [by apply H4'|]. right. auto.
Qed.

Lemma shrinks_coherent ids s s' : shrinks s s' → coherent_but ids s → coherent_but ids s'.
Proof.
  intros ((Hdom & _ & Hst) & Hrows & Hback & Hfwd) (Hdb & Hc & Hn & Hk & Hr).
  assert (size (connectors s') = size (connectors s)) as Hsize by (rewrite <- !size_dom, Hdom; done).
  split_and!.
  - unfold db_ok in *. congruence.
  - intros id H0 Hid. apply elem_of_dom. rewrite Hdom. apply elem_of_dom, Hc; [done|congruence].
  - unfold nr_of_connectors in *. rewrite Hsize. lia.
  - unfold nr_of_connectors in *. rewrite Hsize. lia.
  - split; [|intros id c Ec; split]; intros k p Hp.
    + by apply (map_of_keyed s 0 ChargePointMaxProfile Hk), (Hback 0 ChargePointMaxProfile).
    + apply (map_of_keyed s id TxDefaultProfile Hk), (Hback id TxDefaultProfile). unfold map_of. by rewrite Ec.
    + apply (map_of_keyed s id TxProfile Hk), (Hback id TxProfile). unfold map_of. by rewrite Ec.
  - intros r Hin. destruct (Hr r (Hrows r Hin)) as (Hid & Hint & [Hi|Hi]); (split_and!; [done..|]); [left|by right].
    assert (∀ id, meant_for s' r id ↔ meant_for s r id) as Hmf by (unfold meant_for; by rewrite Hdom).
    destruct Hi as [[id0 Hid0] Hi]. split; [exists id0; by apply Hmf|]. intros id Hm%Hmf.
    destruct (Hfwd id _ _ _ (Hi id Hm)) as [H|H]; [done|]. by destruct (H r Hin).
Qed.

(** Part of the entries of a map goes away, with the rows of the same id. *)
Definition thins (m m' : gmap Z ChargingProfile) (rows : list profile_row) : Prop :=
  m' ⊆ m ∧ ∀ lv p, m !! lv = Some p → m' !! lv = Some p ∨ ∀ r, r ∈ rows → row_id r ≠ chargingProfileId p.

Lemma thins_refl m rows : thins m m rows.
Proof. split; [done|auto]. Qed.

Lemma thins_filter (P : Z → ChargingProfile → bool) m rows :
  (∀ r lv p, r ∈ rows → m !! lv = Some p → P lv p = true → row_id r ≠ chargingProfileId p) →
  thins m (filter (λ kp, P kp.1 kp.2 = false) m) rows.
Proof.
  intros H. split; [apply map_filter_subseteq|]. intros lv p Hp. destruct (P lv p) eqn:E; [right|left].
  - intros r Hr. by eapply H.
  - by apply map_lookup_filter_Some.
Qed.

Lemma shrinks_max s m rows : (∀ r, r ∈ rows → r ∈ profile_rows s) → thins (stack_level_charge_point_max_profiles_map s) m rows →
  shrinks s (set_max_profiles m (set_profile_rows rows s)).
Proof.
  intros Hr [Hsub Hth]. split_and!; [done|done|..]; intros id [] lv p; try by auto.
  cbn. intros Hp. by eapply lookup_weaken.
Qed.

Lemma shrinks_connector s id c c' rows : connectors s !! id = Some c → (∀ r, r ∈ rows → r ∈ profile_rows s) →
  thins (stack_level_tx_default_profiles_map c) (stack_level_tx_default_profiles_map c') rows →
  thins (stack_level_tx_profiles_map c) (stack_level_tx_profiles_map c') rows →
  shrinks s (set_connectors (<[id := c']> (connectors s)) (set_profile_rows rows s)).
Proof.
  intros Ec Hr [Hsub Hth] [Hsub' Hth']. split_and!.
  - split_and!; [|done..]. cbn. apply dom_insert_lookup_L. by exists c.
  - done.
  - intros id' [] lv p; cbn; [auto|..]; (destruct (decide (id = id')) as [<-|Hne];
      [rewrite lookup_insert_eq, Ec; intros Hp; by eapply lookup_weaken|by rewrite lookup_insert_ne]).
  - intros id' [] lv p; cbn; [auto|..]; (destruct (decide (id = id')) as [<-|Hne];
      [rewrite lookup_insert_eq, Ec; auto|rewrite lookup_insert_ne by done; auto]).
Qed.

(** ** Clearing keeps coherence *)
Definition shrinking {T} (m : op T) : Prop := ∀ s0, db_ok s0 → ends (λ s, s = s0) m (λ _ s, shrinks s0 s).

Lemma shrinks_db s s' : shrinks s s' → db_ok s → db_ok s'.
Proof. intros ((_ & _ & E) & _). unfold db_ok. by rewrite E. Qed.

Lemma shrinking_bind {T U} (m : op T) (k : T → op U) : shrinking m → (∀ a, shrinking (k a)) → shrinking (m ≫= k).
Proof.
  intros Hm Hk s0 Hdb. eapply ends_bind; [by apply Hm|]. intros a s Hs. cbn in Hs.
  destruct (Hk a s (shrinks_db _ _ Hs Hdb) s eq_refl) as (b & s' & E & H). exists b, s'. split; [done|]. by etrans.
Qed.

Lemma shrinking_ret {T} (a : T) : shrinking (mret a).
Proof. intros s0 _. by apply ends_ret; intros s ->. Qed.

Lemma shrinking_get {U} (k : SmartChargingHandler → op U) :
  (∀ s0, db_ok s0 → ends (λ s, s = s0) (k s0) (λ _ s, shrinks s0 s)) → shrinking (cget ≫= k).
Proof. intros Hk s0 Hdb. apply ends_get. intros s ->. by apply Hk. Qed.

Lemma shrinking_try m : shrinking m → shrinking (try_db m).
Proof. intros Hm s0 Hdb. by apply ends_try, Hm. Qed.

Lemma shrinking_when b m : shrinking m → shrinking (cwhen b m).
Proof. intros Hm. destruct b; [done|apply shrinking_ret]. Qed.

Lemma shrinking_delete id : shrinking (delete_charging_profile id).
Proof.
  intros s0 Hdb. eapply ends_post; [by apply delete_profile_ok|]. intros [] s ->. split_and!; [done| |auto..].
  intros r. cbn. by intros [_ ?]%elem_of_lfilter.
Qed.

Lemma map_of_set_connectors s cs id purpose : map_of (set_connectors cs s) id purpose =
  match purpose, cs !! id with
  | ChargePointMaxProfile, _ => stack_level_charge_point_max_profiles_map s
  | TxDefaultProfile, Some c => stack_level_tx_default_profiles_map c
  | TxProfile, Some c => stack_level_tx_profiles_map c
  | _, None => ∅
  end.
Proof. done. Qed.

Lemma connector_at_ok {U} s id c (k : Connector → op U) : connectors s !! id = Some c → (connector_at id ≫= k) s = k c s.
Proof. intros E. apply bind_pure. unfold connector_at. rewrite bind_get. by rewrite E. Qed.

Lemma put_connector_ok {U} s id c (k : () → op U) :
  (set_connector id c ≫= k) s = k tt (set_connectors (<[id := c]> (connectors s)) s).
Proof. by apply bind_silent. Qed.

Lemma clear_profiles_thins f id m s : db_ok s → ∃ m' b rows, clear_profiles f id m s = (Ret (m', b), set_profile_rows rows s, []) ∧
  thins m m' rows ∧ (∀ r, r ∈ rows → r ∈ profile_rows s) ∧ ∀ lv p, m' !! lv = Some p → clears f id lv p = false.
Proof.
  intros Hdb. destruct (clear_profiles_ok f id m s Hdb s eq_refl) as ([m' b] & s' & E & Hm & _ & rows & -> & Hrows).
  cbn in Hm. subst m'. exists (filter (λ kp, clears f id kp.1 kp.2 = false) m), b, rows. split; [done|].
  split; [|split; [by intros r [? _]%Hrows|by intros lv p [_ ?]%map_lookup_filter_Some]]. apply thins_filter. intros r lv p Hr. apply Hrows in Hr as [_ H]. apply H.
Qed.

(** Nothing that matches the filter is left in a map of the connectors. *)
Definition none_left (f : filter_t) (ids : list Z) (s : SmartChargingHandler) : Prop :=
  ∀ id purpose lv p, id ∈ ids → purpose ≠ ChargePointMaxProfile → map_of s id purpose !! lv = Some p → clears f id lv p = false.

Lemma none_left_shrinks f ids s s' : shrinks s s' → none_left f ids s → none_left f ids s'.
Proof. intros (_ & _ & H & _) Hn id purpose lv p Hid Hp Hl%H. by eapply Hn. Qed.

Lemma shrinking_clear_connectors f ids : ∀ s0, db_ok s0 → Forall (λ id, id ∈ dom (connectors s0)) ids →
  ends (λ s, s = s0) (clear_connectors f ids) (λ _ s, shrinks s0 s ∧ none_left f ids s).
Proof.
  induction ids as [|id ids IH]; intros s0 Hdb Hids; cbn [clear_connectors].
  { apply ends_ret. intros s ->. split; [done|]. by intros id purpose lv p ?%not_elem_of_nil. }
  apply Forall_cons in Hids as [[c Ec]%elem_of_dom Hids]. intros s ->. rewrite (connector_at_ok _ _ c) by done.
  destruct (clear_profiles_thins f id (stack_level_tx_default_profiles_map c) s0 Hdb) as (d & b1 & rows1 & E1 & Ht1 & Hr1 & Hn1).
  rewrite (bind_silent _ _ _ _ _ E1), put_connector_ok.
  set (s1 := set_connectors _ _).
  assert (shrinks s0 s1) as Hs1 by (apply (shrinks_connector s0 id c (with_tx_default c d) rows1); [done|done|exact Ht1|apply thins_refl]).
  destruct (clear_profiles_thins f id (stack_level_tx_profiles_map c) s1 (shrinks_db _ _ Hs1 Hdb)) as (t & b2 & rows2 & E2 & Ht2 & Hr2 & Hn2).
  rewrite (bind_silent _ _ _ _ _ E2), put_connector_ok. set (s2 := set_connectors _ _).
  assert (shrinks s1 s2) as Hs2.
  { apply (shrinks_connector s1 id (with_tx_default c d) (with_tx (with_tx_default c d) t) rows2); [apply lookup_insert_eq|done|apply thins_refl|exact Ht2]. }
  assert (shrinks s0 s2) as Hs by (by etrans). destruct (IH s2 (shrinks_db _ _ Hs Hdb)) with s2 as (b & s' & E & H & Hnl); [|done|].
  { eapply Forall_impl; [exact Hids|]. intros k Hk. cbv beta in *. destruct Hs as ((Ed & _) & _). by rewrite Ed. }
  rewrite (bind_silent _ _ _ _ _ E). eexists _, s'. split; [done|]. split; [by etrans|].
  intros k pu lv p [->|Hk]%elem_of_cons Hpu Hl; [|by eapply Hnl]. destruct H as (_ & _ & Hback & _). apply Hback in Hl.
  unfold s2 in Hl. rewrite map_of_set_connectors, lookup_insert_eq in Hl. destruct pu; [done|by apply Hn1|by apply Hn2].
Qed.

Definition drop_copies (id : Z) (s : SmartChargingHandler) : SmartChargingHandler :=
  set_connectors ((λ c, with_tx_default c (without_id id (stack_level_tx_default_profiles_map c))) <$> connectors s) s.

Lemma shrinks_erase_copies s id :
  shrinks s (set_profile_rows (list_filter (λ r, row_id r ≠ id) _ (profile_rows s)) (drop_copies id s)).
Proof.
  split_and!.
  - split_and!; [apply dom_fmap_L|done..].
  - cbn. by intros r [_ ?]%elem_of_lfilter.
  - intros k [] lv p; cbn; [done|..]; rewrite lookup_fmap; destruct (connectors s !! k) as [c|]; cbn; try done.
    by intros [? _]%map_lookup_filter_Some.
  - intros k [] lv p; cbn; [auto|..]; rewrite lookup_fmap; destruct (connectors s !! k) as [c|]; cbn; try auto.
    intros Hp. destruct (decide (chargingProfileId p = id)) as [<-|Hne]; [right|left].
    + by intros r [? _]%elem_of_lfilter.
    + by apply map_lookup_filter_Some.
Qed.

Lemma existsb_items {T} (g : Z * T → bool) (m : gmap Z T) : existsb g (items m) = true ↔ ∃ k x, m !! k = Some x ∧ g (k, x) = true.
Proof.
  rewrite existsb_exists. split.
  - intros ([k x] & H%list_elem_of_In%elem_of_items & ?). by exists k, x.
  - intros (k & x & H & ?). exists (k, x). split; [|done]. by apply list_elem_of_In, elem_of_items.
Qed.

Lemma shrinking_clear_fanned_out f ids : shrinking (clear_fanned_out f ids).
Proof.
  induction ids as [|id ids IH]; cbn [clear_fanned_out]; [apply shrinking_ret|].
  apply shrinking_get. intros s0 Hdb. destruct (id_has_matching_tx_default f s0 id) eqn:Em; cbn [negb]; [|by apply IH].
  intros s ->. assert (erase_copies id s0 = (Ret true, drop_copies id s0, [])) as E1.
  { unfold erase_copies. rewrite bind_get, bind_modify. unfold mret, cmd_mret, cmd_ret. do 3 f_equal.
    apply existsb_items in Em as (k & c & Hc & (lv & p & Hp & [[Hid _]%andb_prop _]%andb_prop)%existsb_items).
    apply existsb_items. exists k, c. split; [done|]. apply existsb_items. by exists lv, p. }
  rewrite (bind_silent _ _ _ _ _ E1). cbn [cwhen].
  destruct (ends_try _ _ _ (delete_profile_ok id (drop_copies id s0) Hdb) (drop_copies id s0) eq_refl) as ([] & s2 & E2 & ->).
  rewrite (bind_silent _ _ _ _ _ E2). pose proof (shrinks_erase_copies s0 id) as Hs.
  destruct (IH _ (shrinks_db _ _ Hs Hdb) _ eq_refl) as (b & s3 & E3 & H3).
  rewrite (bind_silent _ _ _ _ _ E3). eexists _, s3. split; [done|]. by etrans.
Qed.

(** The filter takes away all that matches it. *)
Lemma clear_filter_ok f s0 : db_ok s0 → ends (λ s, s = s0) (clear_all_profiles_with_filter f) (λ _ s,
  shrinks s0 s ∧ none_left f (elements (dom (connectors s0))) s ∧
  ∀ lv p, stack_level_charge_point_max_profiles_map s !! lv = Some p → clears f 0 lv p = false).
Proof.
  intros Hdb s ->. unfold clear_all_profiles_with_filter. rewrite bind_get.
  destruct (clear_profiles_thins f 0 (stack_level_charge_point_max_profiles_map s0) s0 Hdb) as (m & b1 & rows & E1 & Ht & Hr & Hn).
  rewrite (bind_silent _ _ _ _ _ E1), bind_modify.
  pose proof (shrinks_max s0 m rows Hr Ht) as Hs1. set (s1 := set_max_profiles m _) in *.
  match goal with |- context [(?middle ≫= ?k) s1] => assert (shrinking middle) as Hmid end.
  { destruct (_ && _); [|apply shrinking_ret]. apply shrinking_bind; [|intros; apply shrinking_clear_fanned_out].
    intros s2 Hdb2 s' ->. unfold db_ok in Hdb2. unfold get_charging_profile_ids_by_connector_id, step_statement. cexpand. rewrite Hdb2. cbn.
    eexists _, s2. split; [done|reflexivity]. }
  destruct (Hmid s1 (shrinks_db _ _ Hs1 Hdb) s1 eq_refl) as (b2 & s2 & E2 & Hs2). rewrite (bind_silent _ _ _ _ _ E2).
  assert (shrinks s0 s2) as Hs by (by etrans).
  destruct (shrinking_clear_connectors f (fst <$> items (connectors s0)) s2 (shrinks_db _ _ Hs Hdb)) with s2 as (b3 & s3 & E3 & Hs3 & Hnl); [|done|].
  { apply Forall_fmap, Forall_forall. intros [id c] Hin%elem_of_items. cbn. destruct Hs as ((Ed & _) & _). rewrite Ed.
    apply elem_of_dom. by exists c. }
  rewrite (bind_silent _ _ _ _ _ E3). eexists _, s3. split; [done|]. split_and!; [by etrans|..].
  - intros id pu lv p Hid. apply Hnl. apply elem_of_elements, elem_of_dom in Hid as [c Hc].
    apply list_elem_of_fmap. exists (id, c). split; [done|]. by apply elem_of_items.
  - intros lv p Hp. apply (Hn lv p). assert (shrinks s1 s3) as (_ & _ & Hback & _) by (by etrans).
    apply (Hback 0 ChargePointMaxProfile lv p Hp).
Qed.

Lemma shrinking_clear_all : shrinking clear_all_profiles.
Proof.
  intros s0 Hdb s ->. unfold clear_all_profiles. rewrite bind_modify, bind_get, bind_modify. set (s1 := set_connectors _ _).
  destruct (ends_try _ _ _ (run_statement_ok (λ _, []) s1 Hdb) s1 eq_refl) as ([] & s2 & E2 & ->).
  eexists _, _. split; [exact E2|]. split_and!.
  - split_and!; [apply dom_fmap_L|done..].
  - by intros r ?%not_elem_of_nil.
  - intros k [] lv p; cbn; [by rewrite lookup_empty|..]; rewrite lookup_fmap; by destruct (connectors s0 !! k).
  - intros k [] lv p _; right; by intros r ?%not_elem_of_nil.
Qed.

(** *** Expired profiles *)

(** The loop over one map, which is the part [m] of the state [put m rows]. *)
Lemma clear_expired_loop_ok now l erase (put : gmap Z ChargingProfile → list profile_row → SmartChargingHandler) m rows :
  (∀ m rows lv, erase lv (put m rows) = (Ret tt, put (delete lv m) rows, [])) →
  (∀ m rows, db_ok (put m rows) ∧ profile_rows (put m rows) = rows ∧ ∀ rows', set_profile_rows rows' (put m rows) = put m rows') →
  NoDup (fst <$> l) → (∀ lv p, (lv, p) ∈ l → m !! lv = Some p) →
  ∃ m' rows', clear_expired_loop now l erase (put m rows) = (Ret tt, put m' rows', []) ∧
    thins m m' rows' ∧ ∀ r, r ∈ rows' → r ∈ rows.
Proof.
  intros Herase Hput. revert m rows. induction l as [|[lv p] l IH]; intros m rows Hnd Hin; cbn [clear_expired_loop].
  { exists m, rows. split; [done|]. split; [apply thins_refl|done]. }
  apply NoDup_cons in Hnd as [Hni Hnd]. destruct (is_expired now p) eqn:Ee; cbn [cwhen].
  - destruct (Hput m rows) as (Hdb & Hrows & Hset).
    destruct (delete_profile_ok (chargingProfileId p) _ Hdb _ eq_refl) as ([] & s1 & E1 & ->). rewrite Hrows, Hset in E1.
    set (rows1 := list_filter _ _ rows) in *.
    assert ((delete_charging_profile (chargingProfileId p);; erase lv) (put m rows) = (Ret tt, put (delete lv m) rows1, [])) as E2.
    { by rewrite (bind_silent _ _ _ _ _ E1), Herase. }
    rewrite (bind_silent _ _ _ _ _ E2). destruct (IH (delete lv m) rows1) as (m' & rows' & E & [Hsub Hth] & Hr); [done|..].
    { intros k q Hkq. rewrite lookup_delete_ne; [apply Hin; by right|]. intros ->. apply Hni. apply list_elem_of_fmap. by exists (k, q). }
    exists m', rows'. split; [exact E|]. split; [split|].
    + etrans; [exact Hsub|apply delete_subseteq].
    + intros k q Hq. destruct (decide (lv = k)) as [<-|Hne]; [right|apply Hth; by rewrite lookup_delete_ne].
      rewrite (Hin lv p) in Hq by (by left). injection Hq as <-. by intros r [? _]%Hr%elem_of_lfilter.
    + by intros r [_ ?]%Hr%elem_of_lfilter.
  - rewrite bind_ret. apply IH; [done|]. intros k q Hkq. apply Hin. by right.
Qed.

Lemma clear_expired_max now s : db_ok s → ∃ m rows,
  clear_expired_loop now (items (stack_level_charge_point_max_profiles_map s)) erase_max s
    = (Ret tt, set_max_profiles m (set_profile_rows rows s), []) ∧
  shrinks s (set_max_profiles m (set_profile_rows rows s)).
Proof.
  intros Hdb. destruct (clear_expired_loop_ok now (items (stack_level_charge_point_max_profiles_map s)) erase_max
    (λ m rows, set_max_profiles m (set_profile_rows rows s)) (stack_level_charge_point_max_profiles_map s) (profile_rows s))
    as (m & rows & E & Ht & Hr); [done|done|apply items_NoDup|by intros ?? ?%elem_of_items|].
  exists m, rows. split; [by destruct s|]. by apply shrinks_max.
Qed.

(** One connector; the others stay as they are. *)
Lemma clear_expired_connector now s id c : db_ok s → connectors s !! id = Some c → ∃ s',
  (clear_expired_loop now (items (stack_level_tx_default_profiles_map c)) (erase_tx_default id);;
   clear_expired_loop now (items (stack_level_tx_profiles_map c)) (erase_tx id)) s = (Ret tt, s', []) ∧
  shrinks s s' ∧ ∀ k, k ≠ id → connectors s' !! k = connectors s !! k.
Proof.
  intros Hdb Ec.
  set (put1 d rows := set_connectors (<[id := with_tx_default c d]> (connectors s)) (set_profile_rows rows s)).
  destruct (clear_expired_loop_ok now (items (stack_level_tx_default_profiles_map c)) (erase_tx_default id) put1
    (stack_level_tx_default_profiles_map c) (profile_rows s)) as (d & rows1 & E1 & Ht1 & Hr1);
    [|done|apply items_NoDup|by intros ?? ?%elem_of_items|].
  { intros d rows lv. unfold erase_tx_default. rewrite (connector_at_ok _ _ (with_tx_default c d)) by apply lookup_insert_eq.
    unfold set_connector, put1. rewrite bind_get. unfold cmodify. cbn. by rewrite insert_insert_eq. }
  set (put2 t rows := set_connectors (<[id := with_tx (with_tx_default c d) t]> (connectors s)) (set_profile_rows rows s)).
  destruct (clear_expired_loop_ok now (items (stack_level_tx_profiles_map c)) (erase_tx id) put2
    (stack_level_tx_profiles_map c) rows1) as (t & rows2 & E2 & Ht2 & Hr2);
    [|done|apply items_NoDup|by intros ?? ?%elem_of_items|].
  { intros t rows lv. unfold erase_tx. rewrite (connector_at_ok _ _ (with_tx (with_tx_default c d) t)) by apply lookup_insert_eq.
    unfold set_connector, put2. rewrite bind_get. unfold cmodify. cbn. by rewrite insert_insert_eq. }
  assert (put1 (stack_level_tx_default_profiles_map c) (profile_rows s) = s) as Es.
  { unfold put1. rewrite insert_id by (rewrite Ec; by destruct c). by destruct s. }
  assert (put2 (stack_level_tx_profiles_map c) rows1 = put1 d rows1) as Es2 by done.
  rewrite Es in E1. rewrite Es2 in E2. exists (put2 t rows2). rewrite (bind_silent _ _ _ _ _ E1). split; [exact E2|]. split.
  - apply (shrinks_connector s id c); [done|auto| |exact Ht2]. destruct Ht1 as [? Hth]. split; [done|]. intros lv p Hp.
    destruct (Hth lv p Hp) as [?|Hno]; [by left|right]. intros r Hr. by apply Hno, Hr2.
  - intros k Hk. cbn. by rewrite lookup_insert_ne.
Qed.

Lemma clear_expired_shrinks now s0 : db_ok s0 → ends (λ s, s = s0) (clear_expired_profiles now) (λ _ s, shrinks s0 s).
Proof.
  intros Hdb s ->. unfold clear_expired_profiles. rewrite bind_get. destruct (clear_expired_max now s0 Hdb) as (m & rows & E & Hs).
  rewrite (bind_silent _ _ _ _ _ E). set (s1 := set_max_profiles _ _) in *.
  assert (∀ l s, shrinks s0 s → NoDup (fst <$> l) → (∀ id c, (id, c) ∈ l → connectors s !! id = Some c) →
    ∃ s', cfor l (λ '(id, c), clear_expired_loop now (items (stack_level_tx_default_profiles_map c)) (erase_tx_default id);;
      clear_expired_loop now (items (stack_level_tx_profiles_map c)) (erase_tx id)) s = (Ret tt, s', []) ∧ shrinks s0 s') as Hgo.
  { induction l as [|[id c] l IH]; intros s Hss Hnd Hin; cbn [cfor]; [by exists s|]. apply NoDup_cons in Hnd as [Hni Hnd].
    destruct (clear_expired_connector now s id c) as (s' & E' & Hs' & Hk); [by eapply shrinks_db|apply Hin; by left|].
    rewrite (bind_silent _ _ _ _ _ E'). apply IH; [by etrans|done|]. intros k q Hkq. rewrite Hk; [apply Hin; by right|].
    intros ->. apply Hni, list_elem_of_fmap. by exists (id, q). }
  destruct (Hgo (items (connectors s0)) s1 Hs (items_NoDup _)) as (s' & E' & H'); [by intros id c ?%elem_of_items|]. by exists tt, s'.
Qed.

(** ** Adding profiles *)
Definition row_of (connector_id : Z) (p : ChargingProfile) : profile_row :=
  {| row_id := chargingProfileId p;
     row_connector_id := if decide (chargingProfilePurpose p = ChargePointMaxProfile) then 0 else connector_id;
     row_profile := p |}.

(** The place of the profile in the maps. *)
Definition hits (s : SmartChargingHandler) (r : profile_row) (id : Z) (purpose : ChargingProfilePurposeType) (lv : Z) : Prop :=
  purpose = chargingProfilePurpose (row_profile r) ∧ lv = stackLevel (row_profile r) ∧
  (purpose = ChargePointMaxProfile ∨ meant_for s r id).

#[export] Instance hits_dec s r id purpose lv : Decision (hits s r id purpose lv).
Proof. unfold hits, meant_for. apply _. Defined.

(** The profile is installed, and its row replaces those with its id, and those with
    its purpose and level. *)
Definition grows (r : profile_row) (s s' : SmartChargingHandler) : Prop :=
  same_connectors s s' ∧
  (∀ q, q ∈ profile_rows s' ↔ q = r ∨ q ∈ profile_rows s ∧ row_id q ≠ row_id r ∧
     ¬ (stackLevel (row_profile q) = stackLevel (row_profile r) ∧
        chargingProfilePurpose (row_profile q) = chargingProfilePurpose (row_profile r))) ∧
  (∀ id purpose lv, hits s r id purpose lv → map_of s' id purpose !! lv = Some (row_profile r)) ∧
  (∀ id purpose lv, ¬ hits s r id purpose lv → map_of s' id purpose !! lv = map_of s id purpose !! lv).

Lemma insert_profile_ok connector_id p s0 : db_ok s0 →
  ∃ rows, try_db (insert_or_update_charging_profile connector_id p) s0 = (Ret tt, set_profile_rows rows s0, []) ∧
    ∀ q, q ∈ rows ↔ q = {| row_id := chargingProfileId p; row_connector_id := connector_id; row_profile := p |} ∨
      q ∈ profile_rows s0 ∧ row_id q ≠ chargingProfileId p ∧
      ¬ (stackLevel (row_profile q) = stackLevel p ∧ chargingProfilePurpose (row_profile q) = chargingProfilePurpose p).
Proof.
  intros Hdb. unfold insert_or_update_charging_profile.
  match goal with |- context [run_statement ?f;; run_statement ?g] => set (f1 := f); set (f2 := g) end.
  destruct (run_statement_ok f1 s0 Hdb s0 eq_refl) as ([] & s1 & E1 & ->).
  destruct (run_statement_ok f2 (set_profile_rows (f1 (profile_rows s0)) s0) Hdb _ eq_refl) as ([] & s2 & E2 & ->).
  exists (f2 (f1 (profile_rows s0))). split.
  - unfold try_db, ccatch. by rewrite (bind_silent _ _ _ _ _ E1), E2.
  - intros q. unfold f2, f1. rewrite elem_of_app, !elem_of_lfilter, list_elem_of_singleton. tauto.
Qed.

Definition add_default (p : ChargingProfile) (c : Connector) : Connector :=
  with_tx_default c (<[stackLevel p := p]> (stack_level_tx_default_profiles_map c)).

Lemma set_tx_default_ok s id c p : connectors s !! id = Some c →
  set_tx_default p id s = (Ret tt, set_connectors (<[id := add_default p c]> (connectors s)) s, []).
Proof. intros E. unfold set_tx_default. by rewrite (connector_at_ok _ _ c). Qed.

Lemma evse_loop_ok p fuel id n s : contiguous s → 1 ≤ id → n < nr_of_connectors s → n - id < Z.of_nat fuel →
  ∃ cs, evse_loop fuel id n (set_tx_default p) s = (Ret tt, set_connectors cs s, []) ∧
    ∀ k, cs !! k = (if decide (id ≤ k ≤ n) then add_default p else λ c, c) <$> connectors s !! k.
Proof.
  revert id s. induction fuel as [|fuel IH]; intros id s Hc Hid Hn Hf; cbn [evse_loop];
    (destruct (Z.leb_spec id n) as [Hi|Hi]; [|exists (connectors s); split; [by destruct s|];
      intros k; rewrite decide_False by lia; by destruct (connectors s !! k)]); [lia|].
  unfold nr_of_connectors in *. destruct (Hc id) as [c Ec]; [lia..|]. rewrite (bind_silent _ _ _ _ _ (set_tx_default_ok s id c p Ec)).
  set (s1 := set_connectors _ s).
  assert (dom (connectors s1) = dom (connectors s)) as Hd by (apply dom_insert_lookup_L; by exists c).
  assert (size (connectors s1) = size (connectors s)) as Hs by (rewrite <- !size_dom, Hd; done).
  destruct (IH (id + 1) s1) as (cs & E & Hcs); [|lia|lia|lia|].
  { intros k H1 H2. apply elem_of_dom. rewrite Hd. apply elem_of_dom, Hc; [done|]. congruence. }
  exists cs. split; [exact E|]. intros k. rewrite Hcs. cbn. destruct (decide (k = id)) as [->|Hne].
  - rewrite lookup_insert_eq, Ec, decide_False, decide_True by lia. done.
  - rewrite lookup_insert_ne by done. destruct (decide (id + 1 ≤ k ≤ n)), (decide (id ≤ k ≤ n)); try lia; done.
Qed.

Lemma grows_coherent ids r s s' : row_id r = chargingProfileId (row_profile r) → row_connector_id r < 2 ^ 31 → (∃ id, meant_for s r id) → grows r s s' →
  coherent_but (row_id r :: ids) s → coherent_but ids s'.
Proof.
  intros Hrid Hrint [id0 Hid0] ((Hdom & _ & Hst) & Hrows & Hhit & Hmiss) (Hdb & Hc & Hn & Hk & Hr).
  assert (size (connectors s') = size (connectors s)) as Hsize by (rewrite <- !size_dom, Hdom; done).
  assert (∀ id q, meant_for s' q id ↔ meant_for s q id) as Hmf by (unfold meant_for; by rewrite Hdom).
  assert (∀ id purpose, keyed purpose (map_of s' id purpose)) as Hkeyed.
  { intros id purpose lv p Hp. destruct (decide (hits s r id purpose lv)) as [Hh|Hh].
    - pose proof (Hhit _ _ _ Hh) as H. rewrite Hp in H. injection H as ->. by destruct Hh as (-> & -> & _).
    - rewrite (Hmiss _ _ _ Hh) in Hp. by apply (map_of_keyed s id purpose Hk). }
  split_and!.
  - unfold db_ok in *. congruence.
  - intros id H0 Hid. apply elem_of_dom. rewrite Hdom. apply elem_of_dom, Hc; [done|congruence].
  - unfold nr_of_connectors in *. rewrite Hsize. lia.
  - unfold nr_of_connectors in *. rewrite Hsize. lia.
  - split; [apply (Hkeyed 0 ChargePointMaxProfile)|]. intros id c Ec.
    pose proof (Hkeyed id TxDefaultProfile) as H1. pose proof (Hkeyed id TxProfile) as H2. unfold map_of in H1, H2. rewrite Ec in H1, H2. done.
  - intros q [->|(Hin & Hqid & Hslot)]%Hrows.
    + split_and!; [done..|]. left. split; [exists id0; by apply Hmf|]. intros id Hm%Hmf. apply Hhit. split_and!; [done..|by right].
    + destruct (Hr q Hin) as (Hq1 & Hq2 & Hq3). split_and!; [done..|]. destruct Hq3 as [Hi|[?|?]%elem_of_cons]; [left|done|by right].
      destruct Hi as [[id1 Hid1] Hi]. split; [exists id1; by apply Hmf|].
      intros id Hm%Hmf. rewrite Hmiss; [by apply Hi|]. intros (H1 & H2 & _). by apply Hslot.
Qed.

Lemma contiguous_dom s id : contiguous s → id ∈ dom (connectors s) → 0 ≤ id < nr_of_connectors s.
Proof.
  intros Hc Hid. set (n := nr_of_connectors s).
  assert ((list_to_set (seqZ 0 n) : gset Z) = dom (connectors s)) as E.
  { apply set_subseteq_size_eq.
    - intros k [Hk1 Hk2]%elem_of_list_to_set%elem_of_seqZ. apply elem_of_dom, Hc; [lia|]. unfold n, nr_of_connectors in *. lia.
    - rewrite size_dom, size_list_to_set by apply NoDup_seqZ. rewrite length_seqZ. unfold n, nr_of_connectors. lia. }
  rewrite <- E in Hid. apply elem_of_list_to_set, elem_of_seqZ in Hid. lia.
Qed.

(** Installing a TxDefaultProfile at the connectors that match. *)
Lemma default_map p s cs id (at_ : Z → Prop) `{∀ k, Decision (at_ k)} :
  (∀ k, cs !! k = (if decide (at_ k) then add_default p else λ c, c) <$> connectors s !! k) →
  ∀ pu lv, map_of (set_connectors cs s) id pu !! lv =
    if decide (pu = TxDefaultProfile ∧ lv = stackLevel p ∧ at_ id ∧ id ∈ dom (connectors s)) then Some p else map_of s id pu !! lv.
Proof.
  intros Hcs pu lv. rewrite map_of_set_connectors, Hcs. unfold map_of.
  destruct pu; [by rewrite decide_False by (intros (? & _); done)|..]; destruct (connectors s !! id) as [c|] eqn:Ec; cbn.
  - destruct (decide (at_ id)) as [Ha|Ha]; cbn.
    + destruct (decide (lv = stackLevel p)) as [->|Hl]; [|rewrite decide_False by naive_solver; by apply lookup_insert_ne].
      rewrite decide_True by (split_and!; [done..|apply elem_of_dom; by exists c]). apply lookup_insert_eq.
    + by rewrite decide_False by naive_solver.
  - rewrite decide_False; [done|]. intros (_ & _ & _ & [??]%elem_of_dom). congruence.
  - destruct (decide (at_ id)); cbn; by rewrite decide_False by (intros (? & _); done).
  - rewrite decide_False by (intros (? & _); done). done.
Qed.

Lemma default_connectors p s cs (at_ : Z → Prop) `{∀ k, Decision (at_ k)} :
  (∀ k, cs !! k = (if decide (at_ k) then add_default p else λ c, c) <$> connectors s !! k) →
  same_connectors s (set_connectors cs s).
Proof.
  intros Hcs. split_and!; [|done..]. apply set_eq. intros k. rewrite !elem_of_dom. cbn. rewrite Hcs. apply fmap_is_Some.
Qed.

Lemma add_profile_ok p id s : db_ok s → contiguous s → nr_of_connectors s < 2 ^ 31 → 0 ≤ id < nr_of_connectors s →
  ∃ s', add_profile p id s = (Ret tt, s', []) ∧ grows (row_of id p) s s'.
Proof.
  intros Hdb Hc Hmax Hid. assert (is_Some (connectors s !! id)) as [c Ec] by (apply Hc; unfold nr_of_connectors in *; lia).
  assert (∀ s1, same_connectors s s1 →
    (∀ i pu lv, hits s (row_of id p) i pu lv → map_of s1 i pu !! lv = Some p) →
    (∀ i pu lv, ¬ hits s (row_of id p) i pu lv → map_of s1 i pu !! lv = map_of s i pu !! lv) → profile_rows s1 = profile_rows s →
    ∃ s', try_db (insert_or_update_charging_profile (row_connector_id (row_of id p)) p) s1 = (Ret tt, s', []) ∧
      grows (row_of id p) s s') as Hstore.
  { intros s1 Hs1 Hh Hm Hrows. destruct (insert_profile_ok (row_connector_id (row_of id p)) p s1) as (rows & E & Hr).
    { destruct Hs1 as (_ & _ & E). unfold db_ok. by rewrite E. }
    exists (set_profile_rows rows s1). split; [done|]. split_and!; [done| |done|done].
    intros q. cbn [profile_rows set_profile_rows]. rewrite Hr, Hrows. done. }
  unfold add_profile. cbn [row_connector_id row_of] in Hstore. destruct (chargingProfilePurpose p) eqn:Ep.
  - unfold add_charge_point_max_profile. rewrite bind_get, bind_modify. apply Hstore; [done|..|done].
    + intros i pu lv (-> & -> & _). cbn [row_of row_profile]. rewrite Ep. apply lookup_insert_eq.
    + intros i pu lv Hh. destruct pu; [|done..]. apply lookup_insert_ne. intros <-. apply Hh. split_and!; [by cbn; rewrite Ep|done|by left].
  - rewrite decide_False in Hstore by done. unfold add_tx_default_profile. destruct (Z.eqb_spec id 0) as [->|Hnz].
    + assert (nr_of_evses s = nr_of_connectors s - 1) as En by (apply Z.mod_small; lia).
      destruct (evse_loop_ok p (S (size (connectors s))) 1 (nr_of_evses s) s) as (cs & E & Hcs);
        [done|lia|rewrite En; lia|rewrite En; unfold nr_of_connectors; lia|].
      assert (for_evses (set_tx_default p) s = (Ret tt, set_connectors cs s, [])) as E' by (unfold for_evses; by rewrite bind_get).
      rewrite (bind_silent _ _ _ _ _ E').
      assert (∀ k, cs !! k = (if decide (k ≠ 0) then add_default p else λ c, c) <$> connectors s !! k) as Hcs'.
      { intros k. rewrite Hcs, En. destruct (connectors s !! k) as [ck|] eqn:Ek; [|done]. cbn. f_equal.
        assert (0 ≤ k < nr_of_connectors s) by (apply contiguous_dom; [done|by apply elem_of_dom; eexists]).
        destruct (decide (1 ≤ k ≤ nr_of_connectors s - 1)), (decide (k ≠ 0)); try lia; done. }
      apply Hstore; [by apply (default_connectors p s cs (λ k, k ≠ 0))|..|done]; intros i pu lv Hh;
        rewrite (default_map p s cs i (λ k, k ≠ 0) Hcs').
      * destruct Hh as (-> & -> & [Hh|[Hd [[-> Hh]|(_ & _ & Hh)]]]); cbn in *; [congruence|..];
          (rewrite decide_True; [done|]); split_and!; try done; by apply Hh.
      * rewrite decide_False; [done|]. intros (-> & -> & Hi & Hd). apply Hh. split_and!; [by symmetry|done|right].
        split; [done|]. right. split_and!; [cbn; by case_decide|done..].
    + rewrite (bind_silent _ _ _ _ _ (set_tx_default_ok s id c p Ec)). set (cs := <[id := _]> _).
      assert (∀ k, cs !! k = (if decide (k = id) then add_default p else λ c, c) <$> connectors s !! k) as Hcs.
      { intros k. unfold cs. destruct (decide (k = id)) as [->|Hk]; [by rewrite lookup_insert_eq, Ec|].
        rewrite lookup_insert_ne by done. by destruct (connectors s !! k). }
      apply Hstore; [by apply (default_connectors p s cs (λ k, k = id))|..|done]; intros i pu lv Hh;
        rewrite (default_map p s cs i (λ k, k = id) Hcs).
      * destruct Hh as (-> & -> & [Hh|[Hd [[-> Hh]|(E & _ & Hh)]]]); cbn in *; [congruence|..].
        -- rewrite decide_True; [done|]. split_and!; try done. by rewrite decide_False by congruence.
        -- rewrite decide_False in E by congruence. done.
      * rewrite decide_False; [done|]. intros (-> & -> & -> & Hd). apply Hh. split_and!; [by symmetry|done|right]. split; [done|]. left.
        cbn. by rewrite decide_False by congruence.
  - rewrite decide_False in Hstore by done. unfold add_tx_profile. rewrite (connector_at_ok _ _ c) by done. rewrite put_connector_ok.
    apply Hstore; [split_and!; [apply dom_insert_lookup_L; by exists c|done..]|..|done];
      intros i pu lv Hh; rewrite map_of_set_connectors; unfold map_of.
    + destruct Hh as (-> & -> & [Hh|[Hd [[-> Hh]|(_ & Hh & _)]]]); cbn in *; [congruence| |congruence].
      rewrite decide_False by congruence. rewrite Ep, lookup_insert_eq. apply lookup_insert_eq.
    + destruct pu; [done|..]; (destruct (decide (i = id)) as [->|Hi]; [rewrite lookup_insert_eq, Ec; cbn|by rewrite lookup_insert_ne]); [done|].
      apply lookup_insert_ne. intros <-. apply Hh. split_and!; [by symmetry|done|right]. split; [apply elem_of_dom; by exists c|].
      left. cbn. rewrite decide_False by congruence. split; [done|congruence].
Qed.

End SmartChargingFacts.
