(* ===== verification/SmartChargingRuns.v ===== *)
(** * Requests, restarts and the stored charging profiles

    Loading the table, the requests that install and clear profiles, and sequences of
    them: what is stored stays installed, and a profile that was cleared does not come
    back with a restart. *)

From S2P Require Import Prelude Float32 Profile SmartCharging CompositeSchedule SmartChargingFacts.
#[local] Open Scope Z_scope.

Module SmartChargingRuns.
Import Profile SmartCharging CompositeSchedule SmartChargingFacts.

(** ** Validation *)

(** Validation may fill in the start and cap the duration, nothing else. *)
Definition same_profile (p q : ChargingProfile) : Prop :=
  chargingProfileId q = chargingProfileId p ∧ stackLevel q = stackLevel p ∧
  chargingProfilePurpose q = chargingProfilePurpose p ∧ chargingProfileKind q = chargingProfileKind p ∧
  chargingSchedulePeriod (chargingSchedule q) = chargingSchedulePeriod (chargingSchedule p) ∧
  chargingRateUnit (chargingSchedule q) = chargingRateUnit (chargingSchedule p) ∧
  transactionId q = transactionId p ∧ recurrencyKind q = recurrencyKind p ∧ validFrom q = validFrom p ∧ validTo q = validTo p.

#[export] Instance same_profile_preorder : PreOrder same_profile.
Proof. unfold same_profile. split; [done|]. intros p q r H1 H2. destruct_and!. split_and!; congruence. Qed.

Lemma require_start_same s now p q : require_start s now p = Some q → same_profile p q.
Proof. unfold require_start. repeat case_match; intros; simplify_eq; by split_and!. Qed.

Lemma validate_recurring_same s now p q : validate_recurring s now p = Some q → same_profile p q.
Proof.
  unfold validate_recurring. destruct (chargingProfileKind p) eqn:Ek; try by intros [= <-].
  destruct (recurrencyKind p); [|done]. intros (q' & Hq%require_start_same & H)%bind_Some. etrans; [exact Hq|].
  repeat case_match; simplify_eq; by split_and!.
Qed.

(** A profile that is accepted is for a connector that exists, its limits are numbers
    that are not negative, and a profile for the whole charge point is not relative. *)
Definition acceptable (s : SmartChargingHandler) (l : limits_t) (id : Z) (p : ChargingProfile) : Prop :=
  0 ≤ id < nr_of_connectors s ∧ 0 ≤ stackLevel p ≤ profile_max_stack_level l ∧
  validate_schedule (chargingSchedule p) (charging_schedule_max_periods l) (charging_schedule_allowed_charging_rate_units l) = true ∧
  (chargingProfilePurpose p = ChargePointMaxProfile → id = 0 ∧ chargingProfileKind p ≠ Relative) ∧
  (chargingProfilePurpose p = TxProfile → id ≠ 0) ∧
  (chargingProfileKind p = Absolute ∨ chargingProfileKind p = Recurring → is_Some (startSchedule (chargingSchedule p))).

Lemma validate_schedule_ext sch sch' n us : chargingRateUnit sch' = chargingRateUnit sch →
  chargingSchedulePeriod sch' = chargingSchedulePeriod sch → minChargingRate sch' = minChargingRate sch →
  validate_schedule sch' n us = validate_schedule sch n us.
Proof. unfold validate_schedule. by intros -> -> ->. Qed.

Lemma validate_recurring_start s now p q : validate_recurring s now p = Some q →
  minChargingRate (chargingSchedule q) = minChargingRate (chargingSchedule p) ∧
  (chargingProfileKind p = Recurring ∨ is_Some (startSchedule (chargingSchedule p)) → is_Some (startSchedule (chargingSchedule q))).
Proof.
  unfold validate_recurring. destruct (chargingProfileKind p) eqn:Ek; try (intros [= <-]; naive_solver).
  destruct (recurrencyKind p); [|done]. intros (q' & Hq & H)%bind_Some.
  assert (is_Some (startSchedule (chargingSchedule q')) ∧ minChargingRate (chargingSchedule q') = minChargingRate (chargingSchedule p)) as [? ?].
  { unfold require_start in Hq. repeat case_match; simplify_eq; split; done. }
  repeat case_match; simplify_eq; done.
Qed.

Lemma validate_ok now p id ign l s : contiguous s → nr_of_connectors s < 2 ^ 31 → id < 2 ^ 31 →
  ∃ v, validate_profile now p id ign l s = (Ret v, s, []) ∧ ∀ q, v = Some q → same_profile p q ∧ acceptable s l id q.
Proof.
  intros Hc Hn Hid. unfold validate_profile. rewrite bind_get.
  destruct (_ || _) eqn:E1; [by exists None|]. rewrite !orb_false_iff, Z.geb_leb, Z.leb_gt, !Z.ltb_ge, Z.gtb_ltb, Z.ltb_ge in E1.
  destruct E1 as (((E1 & E2) & E3) & E4). rewrite Z.mod_small in E1 by lia.
  match goal with |- context [match ?m with Some _ => _ | None => mret None end] => destruct m as [p1|] eqn:Es; [|by exists None] end.
  assert (same_profile p p1 ∧ (chargingProfileKind p = Absolute → is_Some (startSchedule (chargingSchedule p1)))) as [Hp1 Habs].
  { destruct (chargingProfileKind p) eqn:Ek; [|by injection Es as <-..]. split; [by eapply require_start_same|]. intros _.
    unfold require_start in Es. repeat case_match; simplify_eq; done. }
  destruct (_ >=? _); [by exists None|]. destruct (validate_schedule _ _ _) eqn:Ev; cbn [negb]; [|by exists None].
  destruct (validate_recurring s now p1) as [q|] eqn:Er; [|by exists None].
  pose proof (validate_recurring_same _ _ _ _ Er) as Hq. pose proof (validate_recurring_start _ _ _ _ Er) as [Hmin Hrec].
  assert (∃ b, validate_purpose s q id ign = Ret b ∧ (b = true →
    (chargingProfilePurpose q = ChargePointMaxProfile → id = 0 ∧ chargingProfileKind q ≠ Relative) ∧
    (chargingProfilePurpose q = TxProfile → id ≠ 0))) as (b & Eb & Hb).
  { unfold validate_purpose. destruct (chargingProfilePurpose q).
    - eexists. split; [done|]. intros [->%Z.eqb_eq Hk]%andb_prop. split; [|done]. intros _. split; [done|]. by destruct (chargingProfileKind q).
    - by exists true.
    - destruct (Z.eqb_spec id 0); [by exists false|]. destruct (Hc id) as [c ->]; [lia|unfold nr_of_connectors in *; lia|].
      destruct (transaction c); eexists; (split; [done|]); done. }
  rewrite Eb. exists (if b then Some q else None). split; [done|]. intros q'. destruct b; [|done]. intros [= <-].
  assert (same_profile p q) as Hpq by (by etrans). split; [done|]. destruct (Hb eq_refl) as [Hb1 Hb2].
  pose proof Hpq as (_ & Hl & _ & Hk & _). pose proof Hq as (_ & _ & _ & Hk1 & Hper & Hu & _). pose proof Hp1 as (_ & _ & _ & Hk2 & _).
  split_and!; [lia..| |exact Hb1|exact Hb2|].
  - rewrite <- Ev. by apply validate_schedule_ext.
  - intros [H|H]; apply Hrec; [right; apply Habs; congruence|left; congruence].
Qed.

(** ** Loading *)

(** Every id of an installed or stored profile satisfies [P]. *)
Definition known (P : Z → Prop) (s : SmartChargingHandler) : Prop :=
  (∀ id purpose lv p, map_of s id purpose !! lv = Some p → P (chargingProfileId p)) ∧
  ∀ r, r ∈ profile_rows s → P (row_id r).

Section runs.
Context (P : Z → Prop).

Lemma grows_known r s s' : row_id r = chargingProfileId (row_profile r) → P (row_id r) → grows r s s' → known P s → known P s'.
Proof.
  intros Hid Hr (_ & Hrows & Hh & Hm) [Hk Hk']. split.
  - intros id purpose lv p Hp. destruct (decide (hits s r id purpose lv)) as [H|H].
    + rewrite (Hh _ _ _ H) in Hp. injection Hp as <-. by rewrite <- Hid.
    + rewrite (Hm _ _ _ H) in Hp. by eapply Hk.
  - intros q [->|(Hq & _)]%Hrows; [done|by apply Hk'].
Qed.

Lemma shrinks_known s s' : shrinks s s' → known P s → known P s'.
Proof. intros (_ & Hr & H & _) [Hk Hk']. split; [intros id purpose lv p Hp%H; by eapply Hk|intros r ?%Hr; by apply Hk']. Qed.

Lemma coherent_done ids i s : coherent_but (i :: ids) s → (∀ r, r ∈ profile_rows s → row_id r ≠ i) → coherent_but ids s.
Proof.
  intros (H1 & H2 & H3 & H4 & H5) Hi. split_and!; try done; try lia. intros r Hr.
  destruct (H5 r Hr) as (? & ? & [?|[?|?]%elem_of_cons]); split_and!; auto. by destruct (Hi r Hr).
Qed.

(** Adding an acceptable profile. *)
Lemma add_coherent ids p q id l s : same_profile p q → acceptable s l id q → P (chargingProfileId p) →
  coherent_but (chargingProfileId p :: ids) s → known P s →
  ∃ s', add_profile q id s = (Ret tt, s', []) ∧ coherent_but ids s' ∧ known P s'.
Proof.
  intros (Hi & _) (Hid & _ & _ & Hmax & Htx & _) HP Hco Hkn. pose proof Hco as (Hdb & Hc & Hn & _).
  destruct (add_profile_ok q id s) as (s' & E & Hg); [done|done|lia|done|]. exists s'. split; [done|].
  assert (row_id (row_of id q) = chargingProfileId p) as Hri by exact Hi. split.
  - eapply (grows_coherent ids (row_of id q) s); [done|cbn; case_decide; lia| |done|by rewrite Hri]. unfold meant_for. cbn.
    destruct (decide (chargingProfilePurpose q = TxDefaultProfile ∧ id = 0)) as [[Hq ->]|Hq].
    + exists 1. split; [apply elem_of_dom, Hc; unfold nr_of_connectors in *; lia|]. right. split_and!; [by case_decide|done|done].
    + exists id. split; [apply elem_of_dom, Hc; unfold nr_of_connectors in *; lia|]. left. split; [|naive_solver].
      case_decide as E'; [|done]. by destruct (Hmax E').
  - apply (grows_known (row_of id q) s); [done|by rewrite Hri|done..].
Qed.

Lemma coherent_weaken ids i s : coherent_but ids s → coherent_but (i :: ids) s.
Proof.
  intros (H1 & H2 & H3 & H4 & H5). split_and!; try done; try lia. intros r Hr.
  destruct (H5 r Hr) as (? & ? & [?|?]); split_and!; auto. right. by right.
Qed.

Lemma load_profile_ok now l supported ids p s : P (chargingProfileId p) →
  coherent_but (chargingProfileId p :: ids) s → known P s →
  ∃ s', load_profile now l supported p s = (Ret tt, s', []) ∧ coherent_but ids s' ∧ known P s'.
Proof.
  intros HP Hco Hkn. pose proof Hco as (Hdb & Hc & Hn & _ & Hrows).
  assert (∃ s', delete_charging_profile (chargingProfileId p) s = (Ret tt, s', []) ∧ coherent_but ids s' ∧ known P s')
    as (sd & Ed & Hd1 & Hd2).
  { destruct (shrinking_delete (chargingProfileId p) s Hdb s eq_refl) as ([] & s' & E & Hs). exists s'. split; [done|].
    split; [|by eapply shrinks_known]. eapply coherent_done; [by eapply shrinks_coherent|].
    destruct (delete_profile_ok (chargingProfileId p) s Hdb s eq_refl) as ([] & s2 & E2 & ->).
    rewrite E in E2. injection E2 as ->. cbn. by intros r [? _]%elem_of_lfilter. }
  unfold load_profile, ccatch.
  assert (get_connector_id (chargingProfileId p) s = (match list_find (λ r, row_id r = chargingProfileId p) (profile_rows s) with
    | Some (_, r) => Ret (row_connector_id r) | None => Throw RequiredEntryNotFoundException end, s, [])) as Eg.
  { unfold get_connector_id, step_statement. unfold db_ok in Hdb. cexpand. rewrite Hdb. cbn. by destruct (list_find _ _) as [[? ?]|]. }
  destruct (list_find _ _) as [[n r]|] eqn:Ef.
  2: { rewrite (bind_throw _ _ _ _ Eg). exists s. split; [done|]. split; [|done]. eapply coherent_done; [done|].
       intros r Hr. by apply list_find_None in Ef; eapply Forall_forall in Ef. }
  apply list_find_Some in Ef as (Hlook & _ & _). apply list_elem_of_lookup_2 in Hlook. destruct (Hrows r Hlook) as (_ & Hint & _).
  destruct (validate_ok now p (row_connector_id r) false l s) as (v & Ev & Hv); [done|lia|done|].
  rewrite (bind_pure _ _ _ _ Eg), (bind_pure _ _ _ _ Ev). destruct v as [q|]; [|rewrite Ed; by exists sd].
  destruct (Hv q eq_refl) as [Hsame Hacc]. pose proof Hsame as (Hqi & _).
  destruct (bool_decide _); [|rewrite Hqi, Ed; by exists sd].
  destruct (add_coherent ids p q (row_connector_id r) l s Hsame Hacc HP Hco Hkn) as (s' & Ea & H1 & H2). rewrite Ea. by exists s'.
Qed.

Lemma load_loop_ok now l supported ps s : Forall (λ p, P (chargingProfileId p)) ps →
  coherent_but (chargingProfileId <$> ps) s → known P s →
  ∃ s', cfor ps (load_profile now l supported) s = (Ret tt, s', []) ∧ coherent s' ∧ known P s'.
Proof.
  revert s. induction ps as [|p ps IH]; intros s HP Hco Hkn; cbn [cfor]; [by exists s|]. apply Forall_cons in HP as [Hp HP].
  destruct (load_profile_ok now l supported (list_fmap _ _ chargingProfileId ps) p s Hp Hco Hkn) as (s1 & E1 & H1 & H1').
  destruct (IH s1 HP H1 H1') as (s2 & E2 & H2). exists s2. by rewrite (bind_silent _ _ _ _ _ E1).
Qed.

(** A handler that has just been started: nothing is installed. *)
Definition booted (rows : list profile_row) (s : SmartChargingHandler) : Prop :=
  profile_rows s = rows ∧ db_ok s ∧ contiguous s ∧ 2 ≤ nr_of_connectors s < 2 ^ 31 ∧
  ∀ id purpose, map_of s id purpose = ∅.

(** What the table guarantees: the id of the row is that of the profile, and an int. *)
Definition rows_ok (rows : list profile_row) : Prop :=
  Forall (λ r, row_id r = chargingProfileId (row_profile r) ∧ row_connector_id r < 2 ^ 31) rows.

Lemma load_ok now l supported rows s : booted rows s → rows_ok rows → Forall (λ r, P (row_id r)) rows →
  ∃ s', load_charging_profiles now l supported s = (Ret tt, s', []) ∧ coherent s' ∧ known P s'.
Proof.
  intros (Er & Hdb & Hc & Hn & Hm) Hok HP. unfold load_charging_profiles, ccatch.
  assert (get_charging_profiles s = (Ret (row_profile <$> rows), s, [])) as Eg.
  { unfold get_charging_profiles, step_statement. unfold db_ok in Hdb. cexpand. rewrite Hdb. cbn. by rewrite Er. }
  rewrite (bind_pure _ _ _ _ Eg).
  destruct (load_loop_ok now l supported (row_profile <$> rows) s) as (s' & -> & H); [| | |by exists s'].
  - apply Forall_fmap, Forall_forall. intros r Hr. eapply Forall_forall in HP, Hok; [|exact Hr..]. destruct Hok as [Hok _].
    cbn. by rewrite <- Hok.
  - split_and!; [done..|lia|lia| |].
    + split; [|intros id c Ec; split].
      * intros k p. rewrite (Hm 0 ChargePointMaxProfile : stack_level_charge_point_max_profiles_map s = ∅). done.
      * intros k p Hp. pose proof (Hm id TxDefaultProfile) as H. unfold map_of in H. rewrite Ec in H. by rewrite H in Hp.
      * intros k p Hp. pose proof (Hm id TxProfile) as H. unfold map_of in H. rewrite Ec in H. by rewrite H in Hp.
    + rewrite Er. intros r Hr. eapply Forall_forall in Hok; [|exact Hr]. destruct Hok. split_and!; [done..|right].
      apply list_elem_of_fmap. exists (row_profile r). split; [done|]. apply list_elem_of_fmap. by exists r.
  - split; [intros id purpose lv p; by rewrite Hm|]. rewrite Er. by apply Forall_forall.
Qed.

(** ** Requests *)
Lemma on_handler_ok {T} (m : op T) s r s' : m s = (r, s', []) → on_handler m s = (r, s', []).
Proof. intros E. unfold on_handler. by rewrite E. Qed.

Lemma clear_ok f s : coherent s → known P s → ∃ b s', clear_all_profiles_with_filter f s = (Ret b, s', []) ∧ coherent s' ∧ known P s'.
Proof.
  intros Hco Hkn. destruct (clear_filter_ok f s (proj1 Hco) s eq_refl) as (b & s' & E & Hs & _). exists b, s'.
  split; [done|]. split; [by eapply shrinks_coherent|by eapply shrinks_known].
Qed.

Lemma replace_ok p q id l s : same_profile p q → acceptable s l id q → P (chargingProfileId p) → coherent s → known P s →
  ∃ s', replace_profile q id s = (Ret tt, s', []) ∧ coherent s' ∧ known P s'.
Proof.
  intros Hsame Hacc HP Hco Hkn. unfold replace_profile.
  destruct (clear_filter_ok (id_filter (chargingProfileId q)) s (proj1 Hco) s eq_refl) as (b1 & s1 & E1 & Hs1 & _).
  destruct (clear_filter_ok (slot_filter id (stackLevel q) (chargingProfilePurpose q)) s1 (shrinks_db _ _ Hs1 (proj1 Hco)) s1 eq_refl)
    as (b2 & s2 & E2 & Hs2 & _).
  rewrite (bind_silent _ _ _ _ _ E1), (bind_silent _ _ _ _ _ E2). assert (shrinks s s2) as Hs by (by etrans).
  apply (add_coherent [] p q id l); [done| |done|by eapply coherent_weaken, shrinks_coherent|by eapply shrinks_known].
  destruct Hs as ((Hd & _) & _). destruct Hacc as (Hid & ?). split; [|done]. unfold nr_of_connectors in *.
  by rewrite <- size_dom, Hd, size_dom.
Qed.

Lemma set_request_ok now l supported registered id p s : id < 2 ^ 31 → P (chargingProfileId p) → coherent s → known P s →
  ∃ s' calls, handleSetChargingProfileRequest now l supported registered id p s = (Ret tt, s', calls) ∧ coherent s' ∧ known P s'.
Proof.
  intros Hid HP Hco Hkn. unfold handleSetChargingProfileRequest. destruct (negb _).
  { eexists s, _. split; [done|]. done. }
  pose proof Hco as (_ & Hc & Hn & _). destruct (validate_ok now p id false l s) as (v & Ev & Hv); [done|lia|done|].
  unfold mbind at 1, cmd_mbind at 1, cmd_bind at 1. rewrite (bind_pure _ _ _ _ (on_handler_ok _ _ _ _ Ev)). destruct v as [q|].
  - destruct (Hv q eq_refl) as [Hsame Hacc]. destruct (replace_ok p q id l s Hsame Hacc HP Hco Hkn) as (s' & Er & H).
    rewrite (bind_silent _ _ _ _ _ (on_handler_ok _ _ _ _ Er)). by destruct registered; eexists s', _.
  - by eexists s, _.
Qed.

Lemma clear_request_ok registered id cid lv pu s : coherent s → known P s →
  ∃ s' calls, handleClearChargingProfileRequest registered id cid lv pu s = (Ret tt, s', calls) ∧ coherent s' ∧ known P s'.
Proof.
  intros Hco Hkn. unfold handleClearChargingProfileRequest.
  match goal with |- context [(?m ≫= _) s] => assert (∃ b s', m s = (Ret b, s', []) ∧ coherent s' ∧ known P s') as (b & s' & E & H) end.
  { destruct (shrinking_clear_all s (proj1 Hco) s eq_refl) as ([] & sa & Ea & Ha).
    assert (coherent sa ∧ known P sa) as HA by (split; [by eapply shrinks_coherent|by eapply shrinks_known]).
    set (f := {| profile_id_opt := id |}). destruct (clear_ok f s Hco Hkn) as (b & s' & E & H).
    destruct id, cid, pu, lv; try (exists b, s'; split; [by apply on_handler_ok|done]).
    exists true, sa. by rewrite (bind_silent _ _ _ _ _ (on_handler_ok _ _ _ _ Ea)). }
  rewrite (bind_silent _ _ _ _ _ E). by destruct b, registered; eexists s', _.
Qed.

Lemma remote_start_ok now l cid p s : (∀ i, cid = Some i → i < 2 ^ 31) → (∀ q, p = Some q → P (chargingProfileId q)) →
  coherent s → known P s → ∃ b s', remote_start_profile now l cid p s = (Ret b, s', []) ∧ coherent s' ∧ known P s'.
Proof.
  intros Hid HP Hco Hkn. unfold remote_start_profile. destruct p as [p|]; [|by eexists _, s].
  destruct cid as [id|]; [|by eexists _, s]. destruct (chargingProfilePurpose p) eqn:Ep; [by eexists _, s..|].
  pose proof Hco as (_ & Hc & Hn & _). destruct (validate_ok now p id true l s) as (v & Ev & Hv); [done|lia|by apply Hid|].
  rewrite (bind_pure _ _ _ _ Ev). destruct v as [q|]; [|by eexists _, s]. destruct (Hv q eq_refl) as [Hsame Hacc].
  destruct (add_coherent [] p q id l s Hsame Hacc) as (s' & Ea & H); [by apply HP|by apply coherent_weaken|done|].
  assert (add_tx_profile q id s = (Ret tt, s', [])) as Ea'.
  { unfold add_profile in Ea. destruct Hsame as (_ & _ & Hpu & _). by rewrite Hpu, Ep in Ea. }
  rewrite (bind_silent _ _ _ _ _ Ea'). by eexists _, s'.
Qed.

Lemma transaction_change s id c t : connectors s !! id = Some c →
  shrinks s (set_connectors (<[id := with_transaction c t]> (connectors s)) s).
Proof.
  intros Ec. pose proof (shrinks_connector s id c (with_transaction c t) (profile_rows s) Ec) as H.
  destruct s. apply H; [done|apply thins_refl..].
Qed.

Lemma stopped_ok registered id s : coherent s → known P s →
  coherent (st_of (transaction_stopped registered id s)) ∧ known P (st_of (transaction_stopped registered id s)).
Proof.
  intros Hco Hkn. unfold transaction_stopped. destruct (connectors s !! id) as [c|] eqn:Ec.
  - assert (on_handler (c ← connector_at id; set_connector id (with_transaction c None)) s
      = (Ret tt, set_connectors (<[id := with_transaction c None]> (connectors s)) s, [])) as E.
    { apply on_handler_ok. by rewrite (connector_at_ok _ _ c). }
    rewrite (bind_silent _ _ _ _ _ E). pose proof (transaction_change s id c None Ec) as Hs.
    match goal with |- context [clear_all_profiles_with_filter ?f] => destruct (clear_ok f _ (shrinks_coherent _ _ _ Hs Hco) (shrinks_known _ _ Hs Hkn))
      as (b & s' & E' & H) end.
    rewrite (bind_silent _ _ _ _ _ (on_handler_ok _ _ _ _ E')). by destruct b, registered.
  - assert (on_handler (c ← connector_at id; set_connector id (with_transaction c None)) s = (Throw OutOfRange, s, [])) as E.
    { apply on_handler_ok. unfold connector_at. cexpand. rewrite Ec. done. }
    by rewrite (bind_throw _ _ _ _ E).
Qed.
End runs.

(** ** Runs *)

(** What can happen to the handler.  Profiles that are installed have to satisfy [ok];
    connector ids of requests are ints; a restart drops what is in memory. *)
Inductive step (ok : ChargingProfile → Prop) (s : SmartChargingHandler) : SmartChargingHandler → Prop :=
| step_set now l supported registered id p : id < 2 ^ 31 → ok p →
    step ok s (st_of (handleSetChargingProfileRequest now l supported registered id p s))
| step_clear registered id cid lv purpose :
    step ok s (st_of (handleClearChargingProfileRequest registered id cid lv purpose s))
| step_remote_start now l cid p : (∀ i, cid = Some i → i < 2 ^ 31) → (∀ q, p = Some q → ok q) →
    step ok s (st_of (remote_start_profile now l cid p s))
| step_transaction id c t : connectors s !! id = Some c →
    step ok s (set_connectors (<[id := with_transaction c t]> (connectors s)) s)
| step_stopped registered id : step ok s (st_of (transaction_stopped registered id s))
| step_expire now : step ok s (st_of (clear_expired_profiles now s))
| step_restart now l supported s0 : booted (profile_rows s) s0 →
    step ok s (st_of (load_charging_profiles now l supported s0)).

Lemma step_ok P s s' : step (λ p, P (chargingProfileId p)) s s' → coherent s → known P s → coherent s' ∧ known P s'.
Proof.
  intros Hst Hco Hkn. destruct Hst as [now l sup reg id p Hid Hp|reg id cid lv pu|now l cid p Hid Hp|id c t Ec|reg id|now|now l sup s0 Hb].
  - by destruct (set_request_ok P now l sup reg id p s) as (s' & calls & -> & H).
  - by destruct (clear_request_ok P reg id cid lv pu s) as (s' & calls & -> & H).
  - by destruct (remote_start_ok P now l cid p s) as (b & s' & -> & H).
  - pose proof (transaction_change s id c t Ec) as Hs. split; [by eapply shrinks_coherent|by eapply shrinks_known].
  - by apply stopped_ok.
  - destruct (clear_expired_shrinks now s (proj1 Hco) s eq_refl) as (u & s' & E & Hs). rewrite E.
    split; [by eapply shrinks_coherent|by eapply shrinks_known].
  - destruct Hco as (_ & _ & _ & _ & Hr). destruct (load_ok P now l sup (profile_rows s) s0) as (s' & -> & H); [done|..|done].
    + apply Forall_forall. intros r Hin. by destruct (Hr r Hin) as (? & ? & _).
    + apply Forall_forall. apply Hkn.
Qed.

Lemma steps_ok P s s' : rtc (step (λ p, P (chargingProfileId p))) s s' → coherent s → known P s → coherent s' ∧ known P s'.
Proof. induction 1 as [|a b c Hab _ IH]; [done|]. intros Hco Hkn. destruct (step_ok P _ _ Hab Hco Hkn). by apply IH. Qed.

(** C33: As long as the statements of the database succeed, after every sequence of
    requests, remote starts, transactions, clean-ups and restarts every stored profile
    is installed in memory at each connector it is meant for, every map holds profiles
    of its purpose under their stack level, and so a restart gives back nothing that
    was not installed. *)
Theorem stored_profiles_installed now l supported rows s0 s : booted rows s0 → rows_ok rows →
  rtc (step (λ _, True)) (st_of (load_charging_profiles now l supported s0)) s → coherent s.
Proof.
  intros Hb Hr Hst. destruct (load_ok (λ _, True) now l supported rows s0 Hb Hr) as (s1 & E & Hco & Hkn).
  { by apply Forall_forall. }
  rewrite E in Hst. by destruct (steps_ok (λ _, True) _ _ Hst Hco Hkn).
Qed.

(** ** Cleared profiles *)
Lemma cleared_by_id i f s : profile_id_opt f = Some i → coherent s →
  ∃ b s', clear_all_profiles_with_filter f s = (Ret b, s', []) ∧ coherent s' ∧ known (λ k, k ≠ i) s'.
Proof.
  intros Hf Hco. destruct (clear_filter_ok f s (proj1 Hco) s eq_refl) as (b & s' & E & Hs & Hnone & Hmax).
  exists b, s'. split; [done|]. assert (coherent s') as Hco' by (by eapply shrinks_coherent). split; [done|].
  assert (∀ id lv p, clears f id lv p = false → chargingProfileId p ≠ i) as Hcl.
  { intros id lv p Hc Ei. unfold clears in Hc. by rewrite Hf, Ei, Z.eqb_refl in Hc. }
  assert (∀ id purpose lv p, map_of s' id purpose !! lv = Some p → chargingProfileId p ≠ i) as Hmaps.
  { intros id purpose lv p Hp. destruct (decide (purpose = ChargePointMaxProfile)) as [->|Hpu]; [by eapply (Hcl 0), Hmax|].
    eapply Hcl, Hnone; [|exact Hpu|exact Hp]. apply elem_of_elements. destruct Hs as ((Hd & _) & _). rewrite <- Hd.
    apply elem_of_dom. unfold map_of in Hp. destruct purpose; [done|..]; by destruct (connectors s' !! id); [|rewrite lookup_empty in Hp]. }
  split; [done|]. intros r Hr Hri. destruct Hco' as (_ & _ & _ & _ & Hrows). destruct (Hrows r Hr) as (Hid & _ & [Hin|[]%not_elem_of_nil]).
  destruct Hin as [[k Hk] Hin]. apply (Hmaps _ _ _ _ (Hin k Hk)). congruence.
Qed.

(** A profile that the central system clears by its id is gone from memory and from
    the database, and it stays away, whatever restarts, clean-ups and requests for
    other profiles follow. *)
Lemma cleared_profile_stays_cleared registered i cid lv purpose s s' : coherent s →
  rtc (step (λ p, chargingProfileId p ≠ i)) (st_of (handleClearChargingProfileRequest registered (Some i) cid lv purpose s)) s' →
  known (λ k, k ≠ i) s'.
Proof.
  intros Hco Hst. unfold handleClearChargingProfileRequest in Hst.
  match type of Hst with context [clear_all_profiles_with_filter ?f] =>
    destruct (cleared_by_id i f s eq_refl Hco) as (b & s1 & E & Hco1 & Hkn1) end.
  rewrite (bind_silent _ _ _ _ _ (on_handler_ok _ _ _ _ E)) in Hst.
  assert (rtc (step (λ p, chargingProfileId p ≠ i)) s1 s') as Hst' by (by destruct b, registered).
  by destruct (steps_ok (λ k, k ≠ i) _ _ Hst' Hco1 Hkn1).
Qed.

End SmartChargingRuns.
