(* ===== verification/SmartChargingDemo.v ===== *)
(** * Smart charging: statements and concrete runs

    The main statements about charging schedules, with concrete profiles and handlers
    that show that their conditions can be met, and runs of the handler. *)

From S2P Require Import Prelude Float32 Profile ProfileFacts ScheduleFacts SmartCharging CompositeFacts CompositeSchedule.
From S2P Require Import SmartChargingFacts SmartChargingRuns.
#[local] Open Scope Z_scope.

Module SmartChargingDemo.
Import Float32 Profile ProfileFacts ScheduleFacts SmartCharging CompositeFacts CompositeSchedule SmartChargingFacts SmartChargingRuns.

(** ** A sorting routine *)
Definition not_after {T} (lt : T → T → bool) (a b : T) : Prop := lt b a = false.
#[export] Instance not_after_dec {T} (lt : T → T → bool) : RelDecision (not_after lt).
Proof. intros a b. unfold not_after. apply _. Defined.
#[export] Instance merge_std_sort : StdSort := λ T lt l, merge_sort (not_after lt) l.

#[export] Instance merge_std_sort_laws : StdSortLaws.
Proof.
  split.
  - intros T lt l. apply merge_sort_Permutation.
  - intros T lt l (Hirr & Htr & Hneg).
    assert (Total (not_after lt)).
    { intros a b. unfold not_after. destruct (lt b a) eqn:E1; [|by left]. destruct (lt a b) eqn:E2; [|by right].
      pose proof (Htr a b a E2 E1). by rewrite Hirr in H. }
    assert (Transitive (not_after lt)).
    { unfold not_after. intros a b c H1 H2. destruct (lt c a) eqn:E; [|done]. destruct (Hneg c b a E) as [?|?]; congruence. }
    apply (StronglySorted_merge_sort (not_after lt)).
Qed.

(** ** Profiles *)
Definition amps (periods : list (Z * Z)) (start : option DateTime) : ChargingSchedule :=
  {| chargingRateUnit := A;
     chargingSchedulePeriod := (λ '(s, l), {| startPeriod := s; limit := of_int l; numberPhases := None |}) <$> periods;
     duration := None; startSchedule := start; minChargingRate := None |}.

Definition a_profile (id level : Z) (purpose : ChargingProfilePurposeType) (kind : ChargingProfileKindType)
    (rec : option RecurrencyKindType) (sch : ChargingSchedule) : ChargingProfile :=
  {| chargingProfileId := id; stackLevel := level; chargingProfilePurpose := purpose; chargingProfileKind := kind;
     chargingSchedule := sch; transactionId := None; recurrencyKind := rec; validFrom := None; validTo := None |}.

(** 32 A for the charge point, 20 A by default every day, 16 A and then 10 A for the
    transaction. *)
Definition max_profile := a_profile 10 0 ChargePointMaxProfile Absolute None (amps [(0, 32)] (Some 0)).
Definition default_profile := a_profile 12 0 TxDefaultProfile Recurring (Some Daily) (amps [(0, 20)] (Some 0)).
Definition tx_profile := a_profile 11 1 TxProfile Relative None (amps [(0, 16); (1800, 10)] None).

Definition an_hour_from : DateTime := 1000 * second.
Definition an_hour_to : DateTime := 4600 * second.

Definition example_config : Configuration :=
  {| IgnoredProfilePurposesOffline := []; CompositeScheduleDefaultLimitAmps := None;
     CompositeScheduleDefaultLimitWatts := None; CompositeScheduleDefaultNumberPhases := None; SupplyVoltage := None;
     AllowChargingProfileWithoutStartSchedule := None |}.

Definition connector (t : option Transaction) (d x : gmap Z ChargingProfile) : Connector :=
  {| transaction := t; stack_level_tx_default_profiles_map := d; stack_level_tx_profiles_map := x |}.

Definition charging : SmartChargingHandler :=
  {| connectors := {[0 := connector None ∅ ∅;
       1 := connector (Some {| transaction_id := Some 7; start_timestamp := 900 * second |}) {[0 := default_profile]} {[1 := tx_profile]}]};
     configuration := example_config; stack_level_charge_point_max_profiles_map := {[0 := max_profile]};
     profile_rows := []; statement_ok := [] |}.

Definition limits_of (r : outcome exn EnhancedChargingSchedule) : list (Z * float) :=
  match r with
  | Ret sch => (λ p, (e_startPeriod p, e_limit p)) <$> ec_chargingSchedulePeriod sch
  | _ => []
  end.

(** 1700 seconds of the transaction's first period are left, then its second one. *)
Example composite_of_transaction :
  limits_of (calculate_enhanced_composite_schedule charging an_hour_from an_hour_to 1 A false false)
    = [(0, of_int 16); (1700, of_int 10)].
Proof. vm_compute. reflexivity. Qed.

Example composite_without_transaction :
  limits_of (calculate_enhanced_composite_schedule charging an_hour_from an_hour_to 2 A false false) = [(0, of_int 32)].
Proof. vm_compute. reflexivity. Qed.

(** ** The main statements *)
Section statements.
Context `{SORT : StdSort} `{!StdSortLaws}.

(** The entries [calculate_all_profiles] gives for a purpose are exactly the periods
    that are in force: at every second of the span, each period of a profile of the
    purpose that is in force by its start (for a recurring profile its last
    occurrence), its duration and its validity is covered by an entry with its limit,
    phases, level and unit, and every entry that covers the second belongs to such a
    period. *)
Lemma entries_are_periods_in_force (now end_ : DateTime) session ps purpose : Forall (profile_ok now end_ session) ps →
  ∃ es, calculate_all_profiles (X:=exn) now end_ session ps purpose = Ret es ∧ Forall (entry_ok now end_) es ∧
    ∀ t, whole t → floor_seconds now ≤ t ≤ end_ →
      (∀ p per, p ∈ ps → chargingProfilePurpose p = purpose → in_force now session p t per →
         ∃ e, e ∈ es ∧ covers e t ∧ entry_for p per e) ∧
      (∀ e, e ∈ es → covers e t →
         ∃ p per, p ∈ ps ∧ chargingProfilePurpose p = purpose ∧ in_force now session p t per ∧ entry_for p per e).
Proof. apply (calculate_all_profiles_spec (X:=exn)). Qed.

(** C34: [generate_profile_from_periods] ends, dereferences no null pointer, and gives a
    schedule from 0 on with increasing starts that shows at every second of the span
    the entry with the highest stack level, or no limit where no entry covers it. *)
Theorem generated_profile_shows_highest_level es (now end_ : DateTime) :
  Forall (entry_ok now end_) es → floor_seconds end_ - floor_seconds now < INT_MAX * second →
  ∃ prof, generate_profile_from_periods (X:=exn) es now end_ = Ret prof ∧ profile_wf prof ∧
    ∀ o, 0 ≤ o → (floor_seconds now + o * second < floor_seconds end_ ∨ o = 0) →
      ∃ x, at_time i_startPeriod prof o = Some x ∧ shows es (floor_seconds now + o * second) x.
Proof. apply (generate_profile_spec (X:=exn)). Qed.

(** C35: [combine_list_of_profiles] ends, and the schedule it gives is at every second the
    combination of what the schedules show at this second, for each of the ways to
    combine them. *)
Theorem combined_profiles_pointwise (f : combinator) profiles : profiles ≠ [] → Forall profile_wf profiles →
  ∃ r, combine_list_of_profiles (X:=exn) profiles f = Ret r ∧ profile_wf r ∧
    ∀ t, 0 ≤ t → ∃ x, at_time i_startPeriod r t = Some x ∧ same_limits (f (values_at profiles t)) x.
Proof. apply (combine_spec (X:=exn)). Qed.

(** C32: The composite schedule of an EVSE is computed, and at every second its limit
    does not exceed the limit, given in its unit, of a profile that counts: the profile
    for the whole charge point and, during a transaction, the TxProfile or else the
    TxDefaultProfile, of each purpose the one in force with the highest stack level. It
    is the limit of one of them when all of them are given in its unit, and the default
    limit when no profile counts. The maps are keyed by level and purpose, the span is
    shorter than INT_MAX seconds, and the profiles have periods from 0 on in increasing
    order and do not start long after their validity ([profile_ok]); accepting a profile
    does not check the latter. *)
Theorem composite_schedule_capped (start end_ : DateTime) s evse unit offline sim :
  let config := CompositeScheduleConfig_new (configuration s) offline in
  let session := floor_seconds <$> (connectors s !! evse ≫= session_of) in
  let ps := get_valid_profiles s evse (purposes_to_ignore config) in
  start ≤ end_ → floor_seconds end_ - floor_seconds start < INT_MAX * second → evse ≠ 0 → well_keyed s →
  Forall (profile_ok start end_ session) ps →
  ∃ sch, calculate_enhanced_composite_schedule s start end_ evse unit offline sim = Ret sch ∧
    ec_chargingRateUnit sch = unit ∧
    ∀ o, in_span start end_ o → ∃ y, at_time e_startPeriod (ec_chargingSchedulePeriod sch) o = Some y ∧
      capped start session ps (bool_decide (is_Some session) || sim) (floor_seconds start + o * second) unit
        (if decide (unit = A) then config_current_limit config else config_power_limit config) (e_limit y).
Proof. intros config session ps H1 H2. by apply composite_capped. Qed.
End statements.

(** ** Witnesses *)
Lemma max_profile_ok now end_ session : profile_ok now end_ session max_profile.
Proof. split; [|done]. split; [repeat constructor|]. split; [by intros x [= <-]|repeat constructor; done]. Qed.

Lemma default_profile_ok now end_ session : profile_ok now end_ session default_profile.
Proof. split; [|done]. split; [repeat constructor|]. split; [by intros x [= <-]|repeat constructor; done]. Qed.

Lemma tx_profile_ok now end_ session : profile_ok now end_ session tx_profile.
Proof. split; [|done]. split; [repeat constructor|]. split; [by intros x [= <-]|repeat constructor; done]. Qed.

Definition entry (from to limit level : Z) : period_entry_t :=
  {| entry_start := from * second; entry_end := to * second; entry_limit := of_int limit; number_phases := None;
     stack_level := level; charging_rate_unit := A; min_charging_rate := None |}.

Lemma entry_is_ok (now end_ from to l level : Z) : from < to → now / second < to → from ≤ end_ / second →
  entry_ok now end_ (entry from to l level).
Proof.
  intros. unfold entry_ok, floor_seconds, second in *. cbn [entry entry_start entry_end].
  split; [by exists from|]. split; [by exists to|]. unfold second. lia.
Qed.

Lemma generated_profile_shows_highest_level_witness :
  ∃ prof, generate_profile_from_periods (X:=exn) [entry 0 10000 20 0; entry 2000 3000 6 5] an_hour_from an_hour_to = Ret prof ∧
    ∃ x, at_time i_startPeriod prof 1500 = Some x ∧
      shows [entry 0 10000 20 0; entry 2000 3000 6 5] (2500 * second) x.
Proof.
  destruct (generated_profile_shows_highest_level [entry 0 10000 20 0; entry 2000 3000 6 5] an_hour_from an_hour_to)
    as (prof & E & _ & H).
  - apply Forall_cons. split; [by apply entry_is_ok|]. apply Forall_singleton. by apply entry_is_ok.
  - done.
  - exists prof. split; [exact E|]. apply (H 1500); [done|by left].
Defined.

Definition in_amps (start amps : Z) : IntermediatePeriod :=
  {| i_startPeriod := start; current_limit := of_int amps; power_limit := NO_LIMIT_SPECIFIED; stack_level_current := 0;
     stack_level_power := 0; i_numberPhases := None; i_phaseToUse := None |}.

Lemma combined_profiles_pointwise_witness :
  ∃ r, combine_list_of_profiles (X:=exn) [[in_amps 0 16; in_amps 1800 10]; [in_amps 0 12]] lowest_limits = Ret r ∧
    ∃ x, at_time i_startPeriod r 2000 = Some x ∧ same_limits (in_amps 0 10) x.
Proof.
  destruct (combined_profiles_pointwise lowest_limits [[in_amps 0 16; in_amps 1800 10]; [in_amps 0 12]]) as (r & E & _ & H).
  - done.
  - apply Forall_cons. split; [|by apply Forall_singleton, profile_wf_single].
    split; [repeat constructor|]. split; [done|]. repeat constructor; done.
  - exists r. split; [exact E|]. exact (H 2000 ltac:(done)).
Defined.

Lemma keyed_empty purpose : keyed purpose ∅.
Proof. by intros k p. Qed.
Lemma keyed_singleton purpose k p : stackLevel p = k → chargingProfilePurpose p = purpose → keyed purpose {[k := p]}.
Proof. intros H1 H2 k' p' [-> ->]%lookup_singleton_Some. done. Qed.

Lemma charging_keyed : well_keyed charging.
Proof.
  split; [by apply keyed_singleton|]. apply map_Forall_insert_2; [|apply map_Forall_insert_2; [|apply map_Forall_empty]].
  - split; apply keyed_empty.
  - split; by apply keyed_singleton.
Qed.

Lemma composite_schedule_capped_witness :
  ∃ sch, calculate_enhanced_composite_schedule charging an_hour_from an_hour_to 1 A false false = Ret sch ∧
    ∃ y, at_time e_startPeriod (ec_chargingSchedulePeriod sch) 2000 = Some y ∧ f_le (e_limit y) (of_int 32).
Proof.
  destruct (composite_schedule_capped an_hour_from an_hour_to charging 1 A false false) as (sch & E & _ & H).
  - done.
  - done.
  - done.
  - apply charging_keyed.
  - change (Forall (profile_ok an_hour_from an_hour_to (Some (900 * second))) [max_profile; tx_profile; default_profile]).
    apply Forall_cons. split; [apply max_profile_ok|]. apply Forall_cons. split; [apply tx_profile_ok|].
    apply Forall_singleton, default_profile_ok.
  - exists sch. split; [exact E|]. destruct (H 2000) as (y & Ey & Hc & _); [split; [done|by left]|].
    exists y. split; [exact Ey|].
    apply (Hc max_profile {| startPeriod := 0; limit := of_int 32; numberPhases := None |}); [|done|by split].
    right. split.
    + clear. split; [left|]. split; [done|]. exists 0. split; [done|]. cbv zeta.
      replace ((floor_seconds an_hour_from + 2000 * second - 0) / second) with 3000 by (vm_compute; reflexivity).
      split; [by split; [|intros ? [=]]|]. split; [by split; intros ? [=]|done].
    + intros p' per' (Hin & Hpu & _).
      change (p' ∈ [max_profile; tx_profile; default_profile]) in Hin.
      apply elem_of_cons in Hin as [->|Hin]; [done|]. apply elem_of_cons in Hin as [->|Hin]; [done|].
      apply list_elem_of_singleton in Hin as ->. done.
Defined.

(** ** Runs of the handler *)
Definition idle : Connector := connector None ∅ ∅.
Definition started (rows : list profile_row) : SmartChargingHandler :=
  {| connectors := {[0 := idle; 1 := idle; 2 := idle]}; configuration := example_config;
     stack_level_charge_point_max_profiles_map := ∅; profile_rows := rows; statement_ok := [] |}.

Lemma started_connectors rows id c : connectors (started rows) !! id = Some c → c = idle.
Proof.
  cbn. rewrite !lookup_insert_Some, lookup_singleton_Some. naive_solver.
Qed.

Lemma started_booted rows : booted rows (started rows).
Proof.
  split; [done|]. split; [done|]. split; [|split; [done|]].
  - intros id H0 H1. change (id < 3) in H1. assert (id = 0 ∨ id = 1 ∨ id = 2) as [-> | [-> | ->]] by lia; by eexists.
  - intros id purpose. unfold map_of. destruct purpose; [done|..];
      (destruct (connectors (started rows) !! id) as [c|] eqn:E; [|done]); by apply started_connectors in E as ->.
Qed.

Definition allow_all : limits_t :=
  {| profile_max_stack_level := 10; max_charging_profiles_installed := 20; charging_schedule_max_periods := 24;
     charging_schedule_allowed_charging_rate_units := [A; W] |}.
Definition all_purposes := [ChargePointMaxProfile; TxDefaultProfile; TxProfile].

Definition load (s : SmartChargingHandler) : SmartChargingHandler :=
  st_of (load_charging_profiles an_hour_from allow_all all_purposes s).
Definition set_request (id : Z) (p : ChargingProfile) (s : SmartChargingHandler) :=
  handleSetChargingProfileRequest an_hour_from allow_all all_purposes true id p s.

(** A default for every connector is installed, stored, and loaded again. *)
Definition with_default : SmartChargingHandler := st_of (set_request 0 default_profile (load (started []))).

Example default_survives_restart :
  map_of (load (started (profile_rows with_default))) 2 TxDefaultProfile !! 0 = Some default_profile.
Proof. vm_compute. reflexivity. Qed.

Lemma stored_profiles_installed_witness : coherent with_default.
Proof.
  apply (stored_profiles_installed an_hour_from allow_all all_purposes [] (started []) with_default).
  - apply started_booted.
  - constructor.
  - apply rtc_once. by apply step_set.
Defined.

Lemma with_default_coherent : coherent with_default.
Proof.
  destruct (load_ok (λ _, True) an_hour_from allow_all all_purposes [] (started [])) as (s & E & Hco & Hkn);
    [apply started_booted|constructor..|].
  destruct (step_ok (λ _, True) (load (started [])) with_default) as [? _]; [by apply step_set| | |done].
  - unfold load. by rewrite E.
  - unfold load. by rewrite E.
Qed.

Definition without_default : SmartChargingHandler :=
  st_of (handleClearChargingProfileRequest true (Some 12) None None None with_default).

(** ** Two connectors with the same level *)
Definition default_at (id amps_ : Z) : ChargingProfile := a_profile id 0 TxDefaultProfile Recurring (Some Daily) (amps [(0, amps_)] (Some 0)).
Definition first_set := set_request 1 (default_at 21 16) (load (started [])).
Definition second_set := set_request 2 (default_at 22 10) (st_of first_set).

(** A default profile is set for connector 1 and one with the same stack level for
    connector 2.  Both requests are accepted and both profiles are installed, but the
    second one removes the row of the first one: after a restart connector 1 charges
    without its limit. *)
Lemma same_level_profile_lost_on_restart :
  out_of first_set = [call_set_result SetAccepted; signal_set_charging_profiles_callback] ∧
  out_of second_set = [call_set_result SetAccepted; signal_set_charging_profiles_callback] ∧
  map_of (st_of second_set) 1 TxDefaultProfile !! 0 = Some (default_at 21 16) ∧
  map_of (st_of second_set) 2 TxDefaultProfile !! 0 = Some (default_at 22 10) ∧
  row_id <$> profile_rows (st_of second_set) = [22] ∧
  map_of (load (started (profile_rows (st_of second_set)))) 1 TxDefaultProfile !! 0 = None.
Proof. vm_compute. done. Qed.

(** A profile set for all connectors and cleared at one of them stays installed at the
    others, but is no longer stored. *)
Lemma cleared_at_one_connector :
  let s := st_of (handleClearChargingProfileRequest true None (Some 1) None None with_default) in
  map_of s 1 TxDefaultProfile !! 0 = None ∧ map_of s 2 TxDefaultProfile !! 0 = Some default_profile ∧ profile_rows s = [].
Proof. vm_compute. done. Qed.

(** Periods that are not in order are accepted, and everything from the period that comes
    too early on is ignored: the charge point is limited to 16 A, then to nothing. *)
Definition disordered : ChargingProfile :=
  a_profile 31 0 ChargePointMaxProfile Absolute None (amps [(0, 16); (1800, 10); (900, 6)] (Some an_hour_from)).
Lemma disordered_periods_accepted :
  let r := set_request 0 disordered (load (started [])) in
  out_of r = [call_set_result SetAccepted; signal_set_charging_profiles_callback] ∧
  limits_of (calculate_enhanced_composite_schedule (st_of r) an_hour_from an_hour_to 1 A false false)
    = [(0, of_int 16); (1800, of_int 48)].
Proof. vm_compute. done. Qed.

(** A statement that fails in the clean-up leaves it as an exception. *)
Lemma expiry_throws :
  let expired := a_profile 30 0 ChargePointMaxProfile Absolute None
    {| chargingRateUnit := A; chargingSchedulePeriod := []; duration := Some 60; startSchedule := Some 0; minChargingRate := None |} in
  let s := set_max_profiles {[0 := expired]} (set_statement_ok [false] (started [])) in
  res_of (clear_expired_profiles an_hour_from s) = Throw QueryExecutionException.
Proof. vm_compute. done. Qed.
End SmartChargingDemo.
