(* ===== verification/ChargerTypes.v ===== *)
(** * The charger's state

    The types and members of the charging session state machine of EvseManager,
    [src/modules/EVSE/EvseManager/Charger.hpp]: the three contexts, the atomics
    beside them, the calls to the outside.  Members that only serve logging (texts that
    were printed already, the age of meter data, the stopwatch) are left out.  Times are
    nanoseconds; the two clocks and the answers of the outside (meters, the board's
    cable ampacity, session ids) are members of the record. *)

From Stdlib Require Import String Floats.SpecFloat.
From S2P Require Import Prelude Float32 IecStateMachine EvseContext AuthHandler.

Module Chg.

Export Float32.
Notation double := Iec.double.

(** ** Enumerations and data *)
Inductive ChargeMode := AC | DC.

Inductive EvseState :=
| Disabled | Idle | WaitingForAuthentication | PrepareCharging | Charging | ChargingPausedEV
| ChargingPausedEVSE | StoppingCharging | Finished | T_step_EF | T_step_X1 | Reinit | SwitchPhases.

Inductive HlcTerminatePause := Unknown | Terminate | Pause.
Inductive ShutdownType := NoShutdown | ErrorShutdown | EmergencyShutdown.
Inductive ErrorHandlingEvents :=
| ForceErrorShutdown | ForceEmergencyShutdown | AllErrorsPreventingChargingCleared | AllErrorCleared.
Inductive Connector_type := IEC62196Type2Cable | IEC62196Type2Socket.
Inductive EvseError :=
| Error_Contactor | Error_RCD | Error_UtilityInterruptEvent | Error_Malfunction
| Error_EmergencyShutdown | Error_ErrorShutdown.
Inductive SessionStopAction := ActionTerminate | ActionPause | ActionFailedTermination.
Inductive PauseChargingEVSEReasonEnum := UserPause | Error | NoEnergy.

Inductive Enable_source :=
| Unspecified | LocalAPI | LocalKeyLock | ServiceTechnician | RemoteKeyLock | MobileApp | FirmwareUpdate | CSMS.
Inductive Enable_state := Unassigned | Disable | Enable.

#[global] Instance ChargeMode_eq_dec : EqDecision ChargeMode.
Proof. solve_decision. Defined.
#[global] Instance EvseState_eq_dec : EqDecision EvseState.
Proof. solve_decision. Defined.
#[global] Instance HlcTerminatePause_eq_dec : EqDecision HlcTerminatePause.
Proof. solve_decision. Defined.
#[global] Instance ShutdownType_eq_dec : EqDecision ShutdownType.
Proof. solve_decision. Defined.
#[global] Instance Connector_type_eq_dec : EqDecision Connector_type.
Proof. solve_decision. Defined.
#[global] Instance PauseReason_eq_dec : EqDecision PauseChargingEVSEReasonEnum.
Proof. solve_decision. Defined.
#[global] Instance Enable_source_eq_dec : EqDecision Enable_source.
Proof. solve_decision. Defined.
#[global] Instance Enable_state_eq_dec : EqDecision Enable_state.
Proof. solve_decision. Defined.

Record EnableDisableSource := {
  enable_source : Enable_source;
  enable_state : Enable_state;
  enable_priority : Z;
}.

Record DcEvseLimits := {
  evse_current_limit : float;
  evse_power_limit : float;
  evse_voltage_limit : float;
  evse_discharge_current_limit : option float;
  evse_discharge_power_limit : option float;
}.

Record SignedMeterValue := {
  signed_meter_data : string;
  signing_method : string;
  encoding_method : string;
  public_key : option string;
  smv_timestamp : option string;
}.

Inductive TransactionRequestStatus := MeterOK | NOT_SUPPORTED | UNEXPECTED_ERROR.
Record TransactionStartResponse := {
  start_status : TransactionRequestStatus;
  start_signed : option SignedMeterValue;
}.
Record TransactionStopResponse := {
  stop_status : TransactionRequestStatus;
  stop_start_signed : option SignedMeterValue;
  stop_signed : option SignedMeterValue;
}.

Inductive OCMFIdentificationType :=
| NONE | DENIED | UNDEFINED | ISO14443 | ISO15693 | EMAID | EVCCID | EVCOID | ISO7812 | CARD_TXN_NR
| CENTRAL | CENTRAL_1 | CENTRAL_2 | LOCAL | LOCAL_1 | LOCAL_2 | PHONE_NUMBER | KEY_CODE.

Definition convert_to_ocmf_identification_type (t : Evse.IdTokenType) : OCMFIdentificationType :=
  match t with
  | Evse.Central => CENTRAL
  | Evse.eMAID => EMAID
  | Evse.ISO14443 => ISO14443
  | Evse.ISO15693 => ISO15693
  | Evse.KeyCode => KEY_CODE
  | Evse.Local_ => LOCAL
  | Evse.NoAuthorization => NONE
  | Evse.MacAddress => UNDEFINED
  end.

(** The members of the request that vary; the user is always ASSIGNED. *)
Record TransactionReq := {
  transaction_id : string;
  identification_type : OCMFIdentificationType;
  identification_data : string;
  tariff_text : option string;
}.

Record ReinitConfiguration := { state_transition : string; duration : Z }.

(** ** The members *)
Record SharedContext := {
  legacy_wakeup_done : bool;
  hlc_allow_close_contactor : bool;
  iec_allow_close_contactor : bool;
  contactor_open : bool;
  hlc_charging_active : bool;
  hlc_charging_terminate_pause : HlcTerminatePause;
  hlc_session_paused_by_evse : bool;
  hlc_dc_renegotiation : bool;
  current_evse_max_limits : DcEvseLimits;
  current_evse_min_limits : DcEvseLimits;
  pwm_running : bool;
  stop_transaction_id_token : option Auth.ProvidedIdToken;
  id_token : Auth.ProvidedIdToken;
  validation_result : Auth.ValidationResult;
  flag_authorized : bool;
  flag_externally_cancelled : bool;
  flag_paused_by_evse : bool;
  flag_ev_plugged_in : bool;
  authorized_pnc : bool;
  matching_started : bool;
  slac_matched : bool;
  dlink_established : bool;
  max_current : float;
  max_current_valid_until : Z;
  max_current_cable : option double;
  flag_transaction_active : bool;
  session_active : bool;
  session_uuid : string;
  connector_enabled : bool;
  flag_disable_requested : bool;
  current_state : EvseState;
  last_stop_transaction_reason : option Auth.StopTransactionReason;
  last_start_session_reason : Auth.StartSessionReason;
  current_drawn_by_vehicle : float * float * float;
  shutdown_type : ShutdownType;
  last_shutdown_type : ShutdownType;
  ac_with_soc_timer : Z;
  ac_with_soc_timeout : bool;
  switch_3ph1ph_threephase : bool;
  switch_3ph1ph_threephase_ongoing : bool;
  reinit_requested : bool;
  reinit_running : bool;
  reinit_config : ReinitConfiguration;
  stop_signed_meter_value : option SignedMeterValue;
  start_signed_meter_value : option SignedMeterValue;
  hlc_d20_active : bool;
  hlc_d20_dynamic_mode : bool;
}.

Record ConfigContext := {
  ac_enforce_hlc : bool;
  ac_limit_slac_init_retries : bool;
  ac_hlc_use_5percent : bool;
  ac_hlc_enabled : bool;
  charge_mode : ChargeMode;
  switch_3ph1ph_delay_s : Z;
  switch_3ph1ph_cp_state : string;
  soft_over_current_timeout_ms : Z;
  state_F_after_fault_ms : Z;
  reinit_duration_ms : Z;
  reinit_method : string;
  fail_on_powermeter_errors : bool;
  raise_mrec9 : bool;
  sleep_before_enabling_pwm_hlc_mode_ms : Z;
  hlc_charge_loop_without_energy_timeout_s : Z;
}.

Record InternalContext := {
  hlc_bcb_sequence_started : bool;
  hlc_ev_pause_bcb_count : Z;
  hlc_ev_pause_start_of_bcb : Z;
  hlc_ev_pause_start_of_bcb_sequence : Z;
  wakeup_link_deadline : option Z;
  update_pwm_last_duty_cycle : float;
  last_pwm_update : Z;
  t_step_EF_return_state : EvseState;
  t_step_EF_return_pwm : float;
  t_step_EF_return_ampere : float;
  switching_phases_return_state : EvseState;
  t_step_X1_return_state : EvseState;
  t_step_X1_return_pwm : float;
  t_step_X1_until_unmatched : bool;
  last_over_current_event : Z;
  over_current : bool;
  detected_shutdown_type : ShutdownType;   (* [internal_context.last_shutdown_type] *)
  current_state_started : Z;   (* system clock *)
  last_state_detect_state_change : EvseState;
  last_state : EvseState;
  no_energy_warning_printed : bool;
  pwm_set_last_ampere : float;
  t_step_ef_x1_pause : bool;
  cp_state_F_active : bool;
  pwm_switched_off_at : option Z;
  slac_retries : Z;
  slac_retries_exhausted : bool;
  ac_x1_fallback_nominal_timeout_running : bool;
  ac_x1_fallback_nominal_timeout_started : Z;
  hlc_charge_loop_no_energy_timeout_running : bool;
  iso_charge_loop_no_energy_timeout_started : Z;
  fatal_error_became_active : Z;
  fatal_error_timer_running : bool;
  reinit_timer_active : bool;
  reinit_deadline : Z;
  last_charging_paused_evse_reasons : list PauseChargingEVSEReasonEnum;
  session_stop_pwm_off_deadline : option Z;
  stopping_for_evse_pause : bool;
  stopping_charging_timeout_ms : Z;
  hlc_session_restarted_by_ev : bool;
  d20_pause_ramp_start : option Z;
  d20_pause_notified : bool;
  d20_pause_requested : bool;
  d20_pause_confirmed : bool;
}.

Record Charger := {
  shared :> SharedContext;
  config :> ConfigContext;
  internal :> InternalContext;
  soft_over_current_tolerance_percent : float;
  soft_over_current_measurement_noise_A : float;
  dc_present_current_A : float;
  supports_cp_state_E : bool;
  hlc_use_5percent_current_session : bool;
  ac_hlc_enabled_current_session : bool;
  hlc_failed : bool;
  last_dc_enforce_target_limits : Z;
  dc_pause_ramp_start : option Z;   (* [None]: [NO_DC_PAUSE_RAMP] *)
  connector_type : Connector_type;
  active_enable_disable_source : EnableDisableSource;
  enable_disable_source_table : list EnableDisableSource;
  billing_meters : nat;   (* [r_powermeter_billing] *)
  steady_now : Z;   (* the two clocks *)
  system_now : Z;
  pp_answers : list (option double);   (* what [read_pp_ampacity] will answer; then nothing *)
  meter_start_answers : list TransactionStartResponse;   (* what the meters will answer; then [NOT_SUPPORTED] *)
  meter_stop_answers : list TransactionStopResponse;
  session_ids : list string;   (* what [generate_session_id] will return; then [session] *)
}.

(** ** Assignments *)
Definition eta_shared (c : SharedContext) : SharedContext :=
  {| legacy_wakeup_done := legacy_wakeup_done c; hlc_allow_close_contactor := hlc_allow_close_contactor c;
     iec_allow_close_contactor := iec_allow_close_contactor c; contactor_open := contactor_open c;
     hlc_charging_active := hlc_charging_active c;
     hlc_charging_terminate_pause := hlc_charging_terminate_pause c;
     hlc_session_paused_by_evse := hlc_session_paused_by_evse c; hlc_dc_renegotiation := hlc_dc_renegotiation c;
     current_evse_max_limits := current_evse_max_limits c; current_evse_min_limits := current_evse_min_limits c;
     pwm_running := pwm_running c; stop_transaction_id_token := stop_transaction_id_token c;
     id_token := id_token c; validation_result := validation_result c; flag_authorized := flag_authorized c;
     flag_externally_cancelled := flag_externally_cancelled c; flag_paused_by_evse := flag_paused_by_evse c;
     flag_ev_plugged_in := flag_ev_plugged_in c; authorized_pnc := authorized_pnc c;
     matching_started := matching_started c; slac_matched := slac_matched c;
     dlink_established := dlink_established c; max_current := max_current c;
     max_current_valid_until := max_current_valid_until c; max_current_cable := max_current_cable c;
     flag_transaction_active := flag_transaction_active c; session_active := session_active c;
     session_uuid := session_uuid c; connector_enabled := connector_enabled c;
     flag_disable_requested := flag_disable_requested c; current_state := current_state c;
     last_stop_transaction_reason := last_stop_transaction_reason c;
     last_start_session_reason := last_start_session_reason c;
     current_drawn_by_vehicle := current_drawn_by_vehicle c; shutdown_type := shutdown_type c;
     last_shutdown_type := last_shutdown_type c; ac_with_soc_timer := ac_with_soc_timer c;
     ac_with_soc_timeout := ac_with_soc_timeout c; switch_3ph1ph_threephase := switch_3ph1ph_threephase c;
     switch_3ph1ph_threephase_ongoing := switch_3ph1ph_threephase_ongoing c;
     reinit_requested := reinit_requested c; reinit_running := reinit_running c;
     reinit_config := reinit_config c; stop_signed_meter_value := stop_signed_meter_value c;
     start_signed_meter_value := start_signed_meter_value c; hlc_d20_active := hlc_d20_active c;
     hlc_d20_dynamic_mode := hlc_d20_dynamic_mode c |}.

Definition eta_internal (c : InternalContext) : InternalContext :=
  {| hlc_bcb_sequence_started := hlc_bcb_sequence_started c; hlc_ev_pause_bcb_count := hlc_ev_pause_bcb_count c;
     hlc_ev_pause_start_of_bcb := hlc_ev_pause_start_of_bcb c;
     hlc_ev_pause_start_of_bcb_sequence := hlc_ev_pause_start_of_bcb_sequence c;
     wakeup_link_deadline := wakeup_link_deadline c; update_pwm_last_duty_cycle := update_pwm_last_duty_cycle c;
     last_pwm_update := last_pwm_update c; t_step_EF_return_state := t_step_EF_return_state c;
     t_step_EF_return_pwm := t_step_EF_return_pwm c; t_step_EF_return_ampere := t_step_EF_return_ampere c;
     switching_phases_return_state := switching_phases_return_state c;
     t_step_X1_return_state := t_step_X1_return_state c; t_step_X1_return_pwm := t_step_X1_return_pwm c;
     t_step_X1_until_unmatched := t_step_X1_until_unmatched c;
     last_over_current_event := last_over_current_event c; over_current := over_current c;
     detected_shutdown_type := detected_shutdown_type c; current_state_started := current_state_started c;
     last_state_detect_state_change := last_state_detect_state_change c; last_state := last_state c;
     no_energy_warning_printed := no_energy_warning_printed c; pwm_set_last_ampere := pwm_set_last_ampere c;
     t_step_ef_x1_pause := t_step_ef_x1_pause c; cp_state_F_active := cp_state_F_active c;
     pwm_switched_off_at := pwm_switched_off_at c; slac_retries := slac_retries c;
     slac_retries_exhausted := slac_retries_exhausted c;
     ac_x1_fallback_nominal_timeout_running := ac_x1_fallback_nominal_timeout_running c;
     ac_x1_fallback_nominal_timeout_started := ac_x1_fallback_nominal_timeout_started c;
     hlc_charge_loop_no_energy_timeout_running := hlc_charge_loop_no_energy_timeout_running c;
     iso_charge_loop_no_energy_timeout_started := iso_charge_loop_no_energy_timeout_started c;
     fatal_error_became_active := fatal_error_became_active c;
     fatal_error_timer_running := fatal_error_timer_running c; reinit_timer_active := reinit_timer_active c;
     reinit_deadline := reinit_deadline c;
     last_charging_paused_evse_reasons := last_charging_paused_evse_reasons c;
     session_stop_pwm_off_deadline := session_stop_pwm_off_deadline c;
     stopping_for_evse_pause := stopping_for_evse_pause c;
     stopping_charging_timeout_ms := stopping_charging_timeout_ms c;
     hlc_session_restarted_by_ev := hlc_session_restarted_by_ev c;
     d20_pause_ramp_start := d20_pause_ramp_start c; d20_pause_notified := d20_pause_notified c;
     d20_pause_requested := d20_pause_requested c; d20_pause_confirmed := d20_pause_confirmed c |}.

Definition eta_charger (s : Charger) : Charger :=
  {| shared := shared s; config := config s; internal := internal s;
     soft_over_current_tolerance_percent := soft_over_current_tolerance_percent s;
     soft_over_current_measurement_noise_A := soft_over_current_measurement_noise_A s;
     dc_present_current_A := dc_present_current_A s; supports_cp_state_E := supports_cp_state_E s;
     hlc_use_5percent_current_session := hlc_use_5percent_current_session s;
     ac_hlc_enabled_current_session := ac_hlc_enabled_current_session s; hlc_failed := hlc_failed s;
     last_dc_enforce_target_limits := last_dc_enforce_target_limits s;
     dc_pause_ramp_start := dc_pause_ramp_start s; connector_type := connector_type s;
     active_enable_disable_source := active_enable_disable_source s;
     enable_disable_source_table := enable_disable_source_table s; billing_meters := billing_meters s;
     steady_now := steady_now s; system_now := system_now s; pp_answers := pp_answers s;
     meter_start_answers := meter_start_answers s; meter_stop_answers := meter_stop_answers s;
     session_ids := session_ids s |}.

Definition put_shared v s : Charger := ltac:(set_field eta_charger shared v s).
Definition set_config v s : Charger := ltac:(set_field eta_charger config v s).
Definition put_internal v s : Charger := ltac:(set_field eta_charger internal v s).
Definition upd_shared (f : SharedContext → SharedContext) (s : Charger) : Charger := put_shared (f (shared s)) s.
Definition upd_internal (f : InternalContext → InternalContext) (s : Charger) : Charger := put_internal (f (internal s)) s.

Definition put_legacy_wakeup_done v c : SharedContext := ltac:(set_field eta_shared legacy_wakeup_done v c).
Definition put_hlc_allow_close_contactor v c : SharedContext := ltac:(set_field eta_shared hlc_allow_close_contactor v c).
Definition put_iec_allow_close_contactor v c : SharedContext := ltac:(set_field eta_shared iec_allow_close_contactor v c).
Definition put_contactor_open v c : SharedContext := ltac:(set_field eta_shared contactor_open v c).
Definition put_hlc_charging_active v c : SharedContext := ltac:(set_field eta_shared hlc_charging_active v c).
Definition put_hlc_charging_terminate_pause v c : SharedContext := ltac:(set_field eta_shared hlc_charging_terminate_pause v c).
Definition put_hlc_session_paused_by_evse v c : SharedContext := ltac:(set_field eta_shared hlc_session_paused_by_evse v c).
Definition put_hlc_dc_renegotiation v c : SharedContext := ltac:(set_field eta_shared hlc_dc_renegotiation v c).
Definition put_current_evse_max_limits v c : SharedContext := ltac:(set_field eta_shared current_evse_max_limits v c).
Definition put_current_evse_min_limits v c : SharedContext := ltac:(set_field eta_shared current_evse_min_limits v c).
Definition put_pwm_running v c : SharedContext := ltac:(set_field eta_shared pwm_running v c).
Definition put_stop_transaction_id_token v c : SharedContext := ltac:(set_field eta_shared stop_transaction_id_token v c).
Definition put_id_token v c : SharedContext := ltac:(set_field eta_shared id_token v c).
Definition put_validation_result v c : SharedContext := ltac:(set_field eta_shared validation_result v c).
Definition put_flag_authorized v c : SharedContext := ltac:(set_field eta_shared flag_authorized v c).
Definition put_flag_externally_cancelled v c : SharedContext := ltac:(set_field eta_shared flag_externally_cancelled v c).
Definition put_flag_paused_by_evse v c : SharedContext := ltac:(set_field eta_shared flag_paused_by_evse v c).
Definition put_flag_ev_plugged_in v c : SharedContext := ltac:(set_field eta_shared flag_ev_plugged_in v c).
Definition put_authorized_pnc v c : SharedContext := ltac:(set_field eta_shared authorized_pnc v c).
Definition put_matching_started v c : SharedContext := ltac:(set_field eta_shared matching_started v c).
Definition put_slac_matched v c : SharedContext := ltac:(set_field eta_shared slac_matched v c).
Definition put_dlink_established v c : SharedContext := ltac:(set_field eta_shared dlink_established v c).
Definition put_max_current v c : SharedContext := ltac:(set_field eta_shared max_current v c).
Definition put_max_current_valid_until v c : SharedContext := ltac:(set_field eta_shared max_current_valid_until v c).
Definition put_max_current_cable v c : SharedContext := ltac:(set_field eta_shared max_current_cable v c).
Definition put_flag_transaction_active v c : SharedContext := ltac:(set_field eta_shared flag_transaction_active v c).
Definition put_session_active v c : SharedContext := ltac:(set_field eta_shared session_active v c).
Definition put_session_uuid v c : SharedContext := ltac:(set_field eta_shared session_uuid v c).
Definition put_connector_enabled v c : SharedContext := ltac:(set_field eta_shared connector_enabled v c).
Definition put_flag_disable_requested v c : SharedContext := ltac:(set_field eta_shared flag_disable_requested v c).
Definition put_current_state v c : SharedContext := ltac:(set_field eta_shared current_state v c).
Definition put_last_stop_transaction_reason v c : SharedContext := ltac:(set_field eta_shared last_stop_transaction_reason v c).
Definition put_last_start_session_reason v c : SharedContext := ltac:(set_field eta_shared last_start_session_reason v c).
Definition put_current_drawn_by_vehicle v c : SharedContext := ltac:(set_field eta_shared current_drawn_by_vehicle v c).
Definition put_shutdown_type v c : SharedContext := ltac:(set_field eta_shared shutdown_type v c).
Definition put_last_shutdown_type v c : SharedContext := ltac:(set_field eta_shared last_shutdown_type v c).
Definition put_ac_with_soc_timer v c : SharedContext := ltac:(set_field eta_shared ac_with_soc_timer v c).
Definition put_ac_with_soc_timeout v c : SharedContext := ltac:(set_field eta_shared ac_with_soc_timeout v c).
Definition put_switch_3ph1ph_threephase v c : SharedContext := ltac:(set_field eta_shared switch_3ph1ph_threephase v c).
Definition put_switch_3ph1ph_threephase_ongoing v c : SharedContext := ltac:(set_field eta_shared switch_3ph1ph_threephase_ongoing v c).
Definition put_reinit_requested v c : SharedContext := ltac:(set_field eta_shared reinit_requested v c).
Definition put_reinit_running v c : SharedContext := ltac:(set_field eta_shared reinit_running v c).
Definition put_reinit_config v c : SharedContext := ltac:(set_field eta_shared reinit_config v c).
Definition put_stop_signed_meter_value v c : SharedContext := ltac:(set_field eta_shared stop_signed_meter_value v c).
Definition put_start_signed_meter_value v c : SharedContext := ltac:(set_field eta_shared start_signed_meter_value v c).
Definition put_hlc_d20_active v c : SharedContext := ltac:(set_field eta_shared hlc_d20_active v c).
Definition put_hlc_d20_dynamic_mode v c : SharedContext := ltac:(set_field eta_shared hlc_d20_dynamic_mode v c).

Definition put_hlc_bcb_sequence_started v c : InternalContext := ltac:(set_field eta_internal hlc_bcb_sequence_started v c).
Definition put_hlc_ev_pause_bcb_count v c : InternalContext := ltac:(set_field eta_internal hlc_ev_pause_bcb_count v c).
Definition put_hlc_ev_pause_start_of_bcb v c : InternalContext := ltac:(set_field eta_internal hlc_ev_pause_start_of_bcb v c).
Definition put_hlc_ev_pause_start_of_bcb_sequence v c : InternalContext := ltac:(set_field eta_internal hlc_ev_pause_start_of_bcb_sequence v c).
Definition put_wakeup_link_deadline v c : InternalContext := ltac:(set_field eta_internal wakeup_link_deadline v c).
Definition put_update_pwm_last_duty_cycle v c : InternalContext := ltac:(set_field eta_internal update_pwm_last_duty_cycle v c).
Definition put_last_pwm_update v c : InternalContext := ltac:(set_field eta_internal last_pwm_update v c).
Definition put_t_step_EF_return_state v c : InternalContext := ltac:(set_field eta_internal t_step_EF_return_state v c).
Definition put_t_step_EF_return_pwm v c : InternalContext := ltac:(set_field eta_internal t_step_EF_return_pwm v c).
Definition put_t_step_EF_return_ampere v c : InternalContext := ltac:(set_field eta_internal t_step_EF_return_ampere v c).
Definition put_switching_phases_return_state v c : InternalContext := ltac:(set_field eta_internal switching_phases_return_state v c).
Definition put_t_step_X1_return_state v c : InternalContext := ltac:(set_field eta_internal t_step_X1_return_state v c).
Definition put_t_step_X1_return_pwm v c : InternalContext := ltac:(set_field eta_internal t_step_X1_return_pwm v c).
Definition put_t_step_X1_until_unmatched v c : InternalContext := ltac:(set_field eta_internal t_step_X1_until_unmatched v c).
Definition put_last_over_current_event v c : InternalContext := ltac:(set_field eta_internal last_over_current_event v c).
Definition put_over_current v c : InternalContext := ltac:(set_field eta_internal over_current v c).
Definition put_detected_shutdown_type v c : InternalContext := ltac:(set_field eta_internal detected_shutdown_type v c).
Definition put_current_state_started v c : InternalContext := ltac:(set_field eta_internal current_state_started v c).
Definition put_last_state_detect_state_change v c : InternalContext := ltac:(set_field eta_internal last_state_detect_state_change v c).
Definition put_last_state v c : InternalContext := ltac:(set_field eta_internal last_state v c).
Definition put_no_energy_warning_printed v c : InternalContext := ltac:(set_field eta_internal no_energy_warning_printed v c).
Definition put_pwm_set_last_ampere v c : InternalContext := ltac:(set_field eta_internal pwm_set_last_ampere v c).
Definition put_t_step_ef_x1_pause v c : InternalContext := ltac:(set_field eta_internal t_step_ef_x1_pause v c).
Definition put_cp_state_F_active v c : InternalContext := ltac:(set_field eta_internal cp_state_F_active v c).
Definition put_pwm_switched_off_at v c : InternalContext := ltac:(set_field eta_internal pwm_switched_off_at v c).
Definition put_slac_retries v c : InternalContext := ltac:(set_field eta_internal slac_retries v c).
Definition put_slac_retries_exhausted v c : InternalContext := ltac:(set_field eta_internal slac_retries_exhausted v c).
Definition put_ac_x1_fallback_nominal_timeout_running v c : InternalContext := ltac:(set_field eta_internal ac_x1_fallback_nominal_timeout_running v c).
Definition put_ac_x1_fallback_nominal_timeout_started v c : InternalContext := ltac:(set_field eta_internal ac_x1_fallback_nominal_timeout_started v c).
Definition put_hlc_charge_loop_no_energy_timeout_running v c : InternalContext := ltac:(set_field eta_internal hlc_charge_loop_no_energy_timeout_running v c).
Definition put_iso_charge_loop_no_energy_timeout_started v c : InternalContext := ltac:(set_field eta_internal iso_charge_loop_no_energy_timeout_started v c).
Definition put_fatal_error_became_active v c : InternalContext := ltac:(set_field eta_internal fatal_error_became_active v c).
Definition put_fatal_error_timer_running v c : InternalContext := ltac:(set_field eta_internal fatal_error_timer_running v c).
Definition put_reinit_timer_active v c : InternalContext := ltac:(set_field eta_internal reinit_timer_active v c).
Definition put_reinit_deadline v c : InternalContext := ltac:(set_field eta_internal reinit_deadline v c).
Definition put_last_charging_paused_evse_reasons v c : InternalContext := ltac:(set_field eta_internal last_charging_paused_evse_reasons v c).
Definition put_session_stop_pwm_off_deadline v c : InternalContext := ltac:(set_field eta_internal session_stop_pwm_off_deadline v c).
Definition put_stopping_for_evse_pause v c : InternalContext := ltac:(set_field eta_internal stopping_for_evse_pause v c).
Definition put_stopping_charging_timeout_ms v c : InternalContext := ltac:(set_field eta_internal stopping_charging_timeout_ms v c).
Definition put_hlc_session_restarted_by_ev v c : InternalContext := ltac:(set_field eta_internal hlc_session_restarted_by_ev v c).
Definition put_d20_pause_ramp_start v c : InternalContext := ltac:(set_field eta_internal d20_pause_ramp_start v c).
Definition put_d20_pause_notified v c : InternalContext := ltac:(set_field eta_internal d20_pause_notified v c).
Definition put_d20_pause_requested v c : InternalContext := ltac:(set_field eta_internal d20_pause_requested v c).
Definition put_d20_pause_confirmed v c : InternalContext := ltac:(set_field eta_internal d20_pause_confirmed v c).

Definition set_soft_over_current_tolerance_percent v s : Charger := ltac:(set_field eta_charger soft_over_current_tolerance_percent v s).
Definition set_soft_over_current_measurement_noise_A v s : Charger := ltac:(set_field eta_charger soft_over_current_measurement_noise_A v s).
Definition set_dc_present_current_A v s : Charger := ltac:(set_field eta_charger dc_present_current_A v s).
Definition set_supports_cp_state_E v s : Charger := ltac:(set_field eta_charger supports_cp_state_E v s).
Definition set_hlc_use_5percent_current_session v s : Charger := ltac:(set_field eta_charger hlc_use_5percent_current_session v s).
Definition set_ac_hlc_enabled_current_session v s : Charger := ltac:(set_field eta_charger ac_hlc_enabled_current_session v s).
Definition set_hlc_failed v s : Charger := ltac:(set_field eta_charger hlc_failed v s).
Definition set_last_dc_enforce_target_limits v s : Charger := ltac:(set_field eta_charger last_dc_enforce_target_limits v s).
Definition set_dc_pause_ramp_start v s : Charger := ltac:(set_field eta_charger dc_pause_ramp_start v s).
Definition set_connector_type v s : Charger := ltac:(set_field eta_charger connector_type v s).
Definition set_active_enable_disable_source v s : Charger := ltac:(set_field eta_charger active_enable_disable_source v s).
Definition set_enable_disable_source_table v s : Charger := ltac:(set_field eta_charger enable_disable_source_table v s).
Definition set_billing_meters v s : Charger := ltac:(set_field eta_charger billing_meters v s).
Definition set_steady_now v s : Charger := ltac:(set_field eta_charger steady_now v s).
Definition set_system_now v s : Charger := ltac:(set_field eta_charger system_now v s).
Definition set_pp_answers v s : Charger := ltac:(set_field eta_charger pp_answers v s).
Definition set_meter_start_answers v s : Charger := ltac:(set_field eta_charger meter_start_answers v s).
Definition set_meter_stop_answers v s : Charger := ltac:(set_field eta_charger meter_stop_answers v s).
Definition set_session_ids v s : Charger := ltac:(set_field eta_charger session_ids v s).

Definition set_legacy_wakeup_done v s : Charger := upd_shared (put_legacy_wakeup_done v) s.
Definition set_hlc_allow_close_contactor v s : Charger := upd_shared (put_hlc_allow_close_contactor v) s.
Definition set_iec_allow_close_contactor v s : Charger := upd_shared (put_iec_allow_close_contactor v) s.
Definition set_contactor_open v s : Charger := upd_shared (put_contactor_open v) s.
Definition set_hlc_charging_active v s : Charger := upd_shared (put_hlc_charging_active v) s.
Definition set_hlc_charging_terminate_pause v s : Charger := upd_shared (put_hlc_charging_terminate_pause v) s.
Definition set_hlc_session_paused_by_evse v s : Charger := upd_shared (put_hlc_session_paused_by_evse v) s.
Definition set_hlc_dc_renegotiation v s : Charger := upd_shared (put_hlc_dc_renegotiation v) s.
Definition set_current_evse_max_limits v s : Charger := upd_shared (put_current_evse_max_limits v) s.
Definition set_current_evse_min_limits v s : Charger := upd_shared (put_current_evse_min_limits v) s.
Definition set_pwm_running v s : Charger := upd_shared (put_pwm_running v) s.
Definition set_stop_transaction_id_token v s : Charger := upd_shared (put_stop_transaction_id_token v) s.
Definition set_id_token v s : Charger := upd_shared (put_id_token v) s.
Definition set_validation_result v s : Charger := upd_shared (put_validation_result v) s.
Definition set_flag_authorized v s : Charger := upd_shared (put_flag_authorized v) s.
Definition set_flag_externally_cancelled v s : Charger := upd_shared (put_flag_externally_cancelled v) s.
Definition set_flag_paused_by_evse v s : Charger := upd_shared (put_flag_paused_by_evse v) s.
Definition set_flag_ev_plugged_in v s : Charger := upd_shared (put_flag_ev_plugged_in v) s.
Definition set_authorized_pnc v s : Charger := upd_shared (put_authorized_pnc v) s.
Definition set_matching_started v s : Charger := upd_shared (put_matching_started v) s.
Definition set_slac_matched v s : Charger := upd_shared (put_slac_matched v) s.
Definition set_dlink_established v s : Charger := upd_shared (put_dlink_established v) s.
Definition set_max_current v s : Charger := upd_shared (put_max_current v) s.
Definition set_max_current_valid_until v s : Charger := upd_shared (put_max_current_valid_until v) s.
Definition set_max_current_cable v s : Charger := upd_shared (put_max_current_cable v) s.
Definition set_flag_transaction_active v s : Charger := upd_shared (put_flag_transaction_active v) s.
Definition set_session_active v s : Charger := upd_shared (put_session_active v) s.
Definition set_session_uuid v s : Charger := upd_shared (put_session_uuid v) s.
Definition set_connector_enabled v s : Charger := upd_shared (put_connector_enabled v) s.
Definition set_flag_disable_requested v s : Charger := upd_shared (put_flag_disable_requested v) s.
Definition set_current_state v s : Charger := upd_shared (put_current_state v) s.
Definition set_last_stop_transaction_reason v s : Charger := upd_shared (put_last_stop_transaction_reason v) s.
Definition set_last_start_session_reason v s : Charger := upd_shared (put_last_start_session_reason v) s.
Definition set_current_drawn_by_vehicle v s : Charger := upd_shared (put_current_drawn_by_vehicle v) s.
Definition set_shutdown_type v s : Charger := upd_shared (put_shutdown_type v) s.
Definition set_last_shutdown_type v s : Charger := upd_shared (put_last_shutdown_type v) s.
Definition set_ac_with_soc_timer v s : Charger := upd_shared (put_ac_with_soc_timer v) s.
Definition set_ac_with_soc_timeout v s : Charger := upd_shared (put_ac_with_soc_timeout v) s.
Definition set_switch_3ph1ph_threephase v s : Charger := upd_shared (put_switch_3ph1ph_threephase v) s.
Definition set_switch_3ph1ph_threephase_ongoing v s : Charger := upd_shared (put_switch_3ph1ph_threephase_ongoing v) s.
Definition set_reinit_requested v s : Charger := upd_shared (put_reinit_requested v) s.
Definition set_reinit_running v s : Charger := upd_shared (put_reinit_running v) s.
Definition set_reinit_config v s : Charger := upd_shared (put_reinit_config v) s.
Definition set_stop_signed_meter_value v s : Charger := upd_shared (put_stop_signed_meter_value v) s.
Definition set_start_signed_meter_value v s : Charger := upd_shared (put_start_signed_meter_value v) s.
Definition set_hlc_d20_active v s : Charger := upd_shared (put_hlc_d20_active v) s.
Definition set_hlc_d20_dynamic_mode v s : Charger := upd_shared (put_hlc_d20_dynamic_mode v) s.

Definition set_hlc_bcb_sequence_started v s : Charger := upd_internal (put_hlc_bcb_sequence_started v) s.
Definition set_hlc_ev_pause_bcb_count v s : Charger := upd_internal (put_hlc_ev_pause_bcb_count v) s.
Definition set_hlc_ev_pause_start_of_bcb v s : Charger := upd_internal (put_hlc_ev_pause_start_of_bcb v) s.
Definition set_hlc_ev_pause_start_of_bcb_sequence v s : Charger := upd_internal (put_hlc_ev_pause_start_of_bcb_sequence v) s.
Definition set_wakeup_link_deadline v s : Charger := upd_internal (put_wakeup_link_deadline v) s.
Definition set_update_pwm_last_duty_cycle v s : Charger := upd_internal (put_update_pwm_last_duty_cycle v) s.
Definition set_last_pwm_update v s : Charger := upd_internal (put_last_pwm_update v) s.
Definition set_t_step_EF_return_state v s : Charger := upd_internal (put_t_step_EF_return_state v) s.
Definition set_t_step_EF_return_pwm v s : Charger := upd_internal (put_t_step_EF_return_pwm v) s.
Definition set_t_step_EF_return_ampere v s : Charger := upd_internal (put_t_step_EF_return_ampere v) s.
Definition set_switching_phases_return_state v s : Charger := upd_internal (put_switching_phases_return_state v) s.
Definition set_t_step_X1_return_state v s : Charger := upd_internal (put_t_step_X1_return_state v) s.
Definition set_t_step_X1_return_pwm v s : Charger := upd_internal (put_t_step_X1_return_pwm v) s.
Definition set_t_step_X1_until_unmatched v s : Charger := upd_internal (put_t_step_X1_until_unmatched v) s.
Definition set_last_over_current_event v s : Charger := upd_internal (put_last_over_current_event v) s.
Definition set_over_current v s : Charger := upd_internal (put_over_current v) s.
Definition set_detected_shutdown_type v s : Charger := upd_internal (put_detected_shutdown_type v) s.
Definition set_current_state_started v s : Charger := upd_internal (put_current_state_started v) s.
Definition set_last_state_detect_state_change v s : Charger := upd_internal (put_last_state_detect_state_change v) s.
Definition set_last_state v s : Charger := upd_internal (put_last_state v) s.
Definition set_no_energy_warning_printed v s : Charger := upd_internal (put_no_energy_warning_printed v) s.
Definition set_pwm_set_last_ampere v s : Charger := upd_internal (put_pwm_set_last_ampere v) s.
Definition set_t_step_ef_x1_pause v s : Charger := upd_internal (put_t_step_ef_x1_pause v) s.
Definition set_cp_state_F_active v s : Charger := upd_internal (put_cp_state_F_active v) s.
Definition set_pwm_switched_off_at v s : Charger := upd_internal (put_pwm_switched_off_at v) s.
Definition set_slac_retries v s : Charger := upd_internal (put_slac_retries v) s.
Definition set_slac_retries_exhausted v s : Charger := upd_internal (put_slac_retries_exhausted v) s.
Definition set_ac_x1_fallback_nominal_timeout_running v s : Charger := upd_internal (put_ac_x1_fallback_nominal_timeout_running v) s.
Definition set_ac_x1_fallback_nominal_timeout_started v s : Charger := upd_internal (put_ac_x1_fallback_nominal_timeout_started v) s.
Definition set_hlc_charge_loop_no_energy_timeout_running v s : Charger := upd_internal (put_hlc_charge_loop_no_energy_timeout_running v) s.
Definition set_iso_charge_loop_no_energy_timeout_started v s : Charger := upd_internal (put_iso_charge_loop_no_energy_timeout_started v) s.
Definition set_fatal_error_became_active v s : Charger := upd_internal (put_fatal_error_became_active v) s.
Definition set_fatal_error_timer_running v s : Charger := upd_internal (put_fatal_error_timer_running v) s.
Definition set_reinit_timer_active v s : Charger := upd_internal (put_reinit_timer_active v) s.
Definition set_reinit_deadline v s : Charger := upd_internal (put_reinit_deadline v) s.
Definition set_last_charging_paused_evse_reasons v s : Charger := upd_internal (put_last_charging_paused_evse_reasons v) s.
Definition set_session_stop_pwm_off_deadline v s : Charger := upd_internal (put_session_stop_pwm_off_deadline v) s.
Definition set_stopping_for_evse_pause v s : Charger := upd_internal (put_stopping_for_evse_pause v) s.
Definition set_stopping_charging_timeout_ms v s : Charger := upd_internal (put_stopping_charging_timeout_ms v) s.
Definition set_hlc_session_restarted_by_ev v s : Charger := upd_internal (put_hlc_session_restarted_by_ev v) s.
Definition set_d20_pause_ramp_start v s : Charger := upd_internal (put_d20_pause_ramp_start v) s.
Definition set_d20_pause_notified v s : Charger := upd_internal (put_d20_pause_notified v) s.
Definition set_d20_pause_requested v s : Charger := upd_internal (put_d20_pause_requested v) s.
Definition set_d20_pause_confirmed v s : Charger := upd_internal (put_d20_pause_confirmed v) s.

(** ** Calls to the outside *)
Inductive error_kind :=
| overcurrent_error | internal_error | powermeter_transaction_start_failed_error | authorization_timeout_error
| isolation_resistance_fault_Resistance | isolation_resistance_fault_VoltageToEarth | cable_check_fault
| over_voltage_error | voltage_plausibility_fault.

(** The events about a transaction also carry the session id under which their handlers
    in evse_managerImpl.cpp publish them, which is what [get_session_id] returns then. *)
Inductive call :=
| bsp_setup (has_ventilation : bool)
| bsp_enable (b : bool)
| bsp_allow_power_on (b : bool) (why : Iec.Reason)
| bsp_set_pwm (duty_cycle : float)
| bsp_set_cp_state_X1
| bsp_set_cp_state_F
| bsp_set_cp_state_E
| bsp_set_authorized (b : bool)
| bsp_switch_three_phases_while_charging (n : bool)
| bsp_set_overcurrent_limit (ampere : float)
| signal_simple_event (e : Auth.SessionEventEnum)
| signal_session_started_event (why : Auth.StartSessionReason) (token : option Auth.ProvidedIdToken)
| signal_transaction_started_event (session : string) (token : Auth.ProvidedIdToken)
| signal_transaction_finished_event (session : string) (why : Auth.StopTransactionReason) (token : option Auth.ProvidedIdToken)
| signal_charging_paused_evse_event (reasons : list PauseChargingEVSEReasonEnum)
| signal_state (st : EvseState)
| signal_max_current (ampere : float)
| signal_ac_with_soc_timeout
| signal_dc_supply_off
| signal_dc_enforce_target_limits (limits : DcEvseLimits)
| signal_slac_reset
| signal_slac_start
| signal_hlc_stop_charging
| signal_hlc_pause_charging
| signal_hlc_resume_charging
| signal_hlc_error (e : EvseError)
| signal_hlc_plug_in_timeout
| signal_hlc_no_energy_available
| raise_error (e : error_kind)
| clear_error (e : error_kind)
| meter_start_transaction (req : TransactionReq)
| meter_stop_transaction (id : string)
| store_session (id : string)
| clear_session.

(** Nothing throws. *)
Notation op := (cmd Charger call Empty_set).

End Chg.
