(* ===== verification/ChargerOps.v ===== *)
(** * The charger's operations

    The parts of [src/modules/EVSE/EvseManager/Charger.cpp] the state machine is made of:
    pulse width modulation, limits, fatal errors, sessions and transactions, the table of
    enable and disable sources. *)

From Stdlib Require Import String Floats.SpecFloat.
From S2P Require Import Prelude Float32 IecStateMachine EvseContext AuthHandler ChargerTypes.

Module ChgOps.

Import Chg.
#[local] Open Scope string_scope.
#[local] Open Scope Z_scope.

(** ** Constants *)
Definition ms (n : Z) : Z := n * 1000000.
(** [duration_cast<milliseconds>(d).count()] and [duration_cast<seconds>]. *)
Definition count_ms (d : Z) : Z := Z.quot d 1000000.
Definition count_s (d : Z) : Z := Z.quot d 1000000000.

Definition LEGACY_WAKEUP_TIMEOUT : Z := 30000.
Definition PREPARING_TIMEOUT_PAUSED_BY_EV : Z := 10000.
Definition TP_EV_VALD_STATE_DURATION_MIN : Z := ms (200 - 50).
Definition TP_EV_VALD_STATE_DURATION_MAX : Z := ms (400 + 50).
Definition TT_EVSE_VALD_TOGGLE : Z := ms (3500 + 200).
Definition V2G_SECC_CP_OSCILLATOR_RETAIN : Z := ms 1550.
Definition T_STEP_X1 : Z := 3000.
Definition TP_MATCH_LEAVE_MS : Z := 1000.
Definition T_STEP_EF : Z := 4000.
Definition T_CONN_MAX_COMM : Z := ms 8000.
Definition C_SEQU_RETRY : Z := 2.
Definition IEC_PWM_MAX_UPDATE_INTERVAL : Z := 5000.
Definition IEC_MIN_X1_BEFORE_PWM_MS : Z := 3000.
Definition STAY_IN_X1_AFTER_TSTEP_EF_MS : Z := 750.
Definition WAIT_FOR_ENERGY_IN_AUTHLOOP_TIMEOUT_MS : Z := 5000.
Definition AC_X1_FALLBACK_TO_NOMINAL_TIMEOUT_MS : Z := 10000.
Definition STOPPING_CHARGING_TIMEOUT_MS : Z := 20000.
Definition STOPPING_CHARGING_D20_PAUSE_TIMEOUT_MS : Z := 65000.
Definition D20_PAUSE_RAMP_TIMEOUT_MS : Z := 35000.
Definition DC_ENFORCE_TARGET_LIMITS_INTERVAL_MS : Z := 5000.

(** ** Numbers

    Floats and doubles; a decimal literal is the double nearest to it. *)
Definition dbl (n d : Z) : double :=
  SFdiv 53 1024 (binary_normalize 53 1024 n 0 false) (binary_normalize 53 1024 d 0 false).
Definition of_finite (prec emax : Z) (x : spec_float) : spec_float :=
  match x with
  | S754_finite sign m e => binary_normalize prec emax (if sign then Zneg m else Zpos m) e sign
  | _ => x
  end.
Definition to_double (x : float) : double := of_finite 53 1024 x.
Definition to_float (x : double) : float := of_finite 24 128 x.
Definition flt (n d : Z) : float := to_float (dbl n d).
Definition d_div (x y : double) : double := SFdiv 53 1024 x y.
Definition d_add (x y : double) : double := SFadd 53 1024 x y.
Definition d_mul (x y : double) : double := SFmul 53 1024 x y.
Definition d_lt (x y : double) : bool := SFltb x y.
Definition d_le (x y : double) : bool := SFleb x y.

Definition PWM_5_PERCENT : float := flt 5 100.
Definition D20_PAUSE_ZERO_CURRENT_A : float := flt 1 1.
Definition f_one : float := flt 1 1.

Definition ampere_to_duty_cycle (ampere : float) : float :=
  let a := to_double ampere in
  if d_lt a (dbl 59 10) then flt 1 1
  else if d_le a (dbl 61 10) then flt 1 10
  else if d_lt a (dbl 525 10) then
    let a := if d_lt (dbl 51 1) a then dbl 51 1 else a in
    to_float (d_div (d_div a (dbl 6 10)) (dbl 100 1))
  else if d_le a (dbl 80 1) then
    to_float (d_div (d_add (d_div a (dbl 25 10)) (dbl 64 1)) (dbl 100 1))
  else if d_le a (dbl 801 10) then flt 97 100
  else flt 1 1.

(** ** Basic commands *)
(** [self s; k]: [k] with the state of the object. *)
Notation "'self' s ; k" := ((cget : op Charger) ≫= (λ s : Charger, k))
  (at level 20, s name, k at level 200, only parsing).
Definition assign (f : Charger → Charger) : op () := cmodify f.
Definition emit (c : call) : op () := cemit c.
Definition set_state (st : EvseState) : op () := assign (set_current_state st).

(** [SignalingBool]: the signal, then the assignment. *)
Definition authorize_flag (b : bool) : op () :=
  emit (bsp_set_authorized b) ;; assign (set_flag_authorized b).

Definition state_is (st : EvseState) (s : Charger) : bool := bool_decide (current_state s = st).
Definition is_AC (s : Charger) : bool := bool_decide (charge_mode s = AC).
Definition is_DC (s : Charger) : bool := bool_decide (charge_mode s = DC).
Definition session_stopped (s : Charger) : bool := negb (bool_decide (hlc_charging_terminate_pause s = Unknown)).

(** ** Control pilot *)
Definition pwm_signal_off (s : Charger) : bool :=
  negb (pwm_running s) || f_ge (update_pwm_last_duty_cycle s) f_one.

Definition note_pwm_switched_off : op () :=
  self s;
  cwhen (negb (pwm_signal_off s)) (assign (set_pwm_switched_off_at (Some (steady_now s)))).

Definition must_wait_in_x1_before_pwm (s : Charger) : bool :=
  match pwm_switched_off_at s with
  | Some t => pwm_signal_off s && (count_ms (steady_now s - t) <? IEC_MIN_X1_BEFORE_PWM_MS)
  | None => false
  end.

Definition cp_state_X1 : op () :=
  note_pwm_switched_off ;;
  assign (set_pwm_running false) ;;
  assign (set_update_pwm_last_duty_cycle f_one) ;;
  assign (set_pwm_set_last_ampere zero) ;;
  assign (set_cp_state_F_active false) ;;
  emit bsp_set_cp_state_X1.

Definition cp_state_F : op () :=
  note_pwm_switched_off ;;
  assign (set_pwm_running false) ;;
  assign (set_update_pwm_last_duty_cycle zero) ;;
  assign (set_pwm_set_last_ampere zero) ;;
  assign (set_cp_state_F_active true) ;;
  emit bsp_set_cp_state_F.

Definition cp_state_E : op () :=
  note_pwm_switched_off ;;
  self s;
  if negb (supports_cp_state_E s) then cp_state_X1
  else
    assign (set_pwm_running false) ;;
    assign (set_update_pwm_last_duty_cycle zero) ;;
    assign (set_pwm_set_last_ampere zero) ;;
    assign (set_cp_state_F_active false) ;;
    emit bsp_set_cp_state_E.

Definition apply_configured_reinit_method : op () :=
  self s;
  let method := state_transition (reinit_config s) in
  if bool_decide (method = "CPStateE") then cp_state_E
  else if bool_decide (method = "CPStateX1") then cp_state_X1
  else cp_state_F.

Definition update_pwm_now (duty_cycle : float) : op () :=
  if f_ge duty_cycle f_one then cp_state_X1
  else if f_ge zero duty_cycle then cp_state_F
  else
    assign (set_update_pwm_last_duty_cycle duty_cycle) ;;
    assign (set_pwm_running true) ;;
    self s;
    assign (set_last_pwm_update (steady_now s)) ;;
    assign (set_cp_state_F_active false) ;;
    emit (bsp_set_pwm duty_cycle).

Definition update_pwm_now_if_changed (duty_cycle : float) : op () :=
  self s;
  cwhen (negb (f_eq (update_pwm_last_duty_cycle s) duty_cycle)) (update_pwm_now duty_cycle).

Definition update_pwm_now_if_changed_ampere (ampere : float) : op () :=
  let duty_cycle := ampere_to_duty_cycle ampere in
  self s;
  cwhen (negb (f_eq (update_pwm_last_duty_cycle s) duty_cycle))
    (update_pwm_now duty_cycle ;; assign (set_pwm_set_last_ampere ampere)).

Definition update_pwm_max_every_5seconds_ampere (ampere : float) : op () :=
  let duty_cycle := ampere_to_duty_cycle ampere in
  self s;
  cwhen (negb (f_eq duty_cycle (update_pwm_last_duty_cycle s)) &&
         (IEC_PWM_MAX_UPDATE_INTERVAL <=? count_ms (steady_now s - last_pwm_update s)))
    (update_pwm_now duty_cycle ;; assign (set_pwm_set_last_ampere ampere)).

Definition allow_power_on (b : bool) (why : Iec.Reason) : op () := emit (bsp_allow_power_on b why).
Definition power_off : op () := allow_power_on false Iec.ReasonPowerOff.

(** ** Limits *)
Definition get_max_current_internal (s : Charger) : float :=
  let cable := default Iec.dbl_0 (max_current_cable s) in
  if bool_decide (connector_type s = IEC62196Type2Socket) && d_lt cable (to_double (max_current s)) &&
     negb (state_is Idle s)
  then to_float cable else max_current s.

Definition get_max_current_signalled_to_ev_internal (s : Charger) : float :=
  if negb (hlc_charging_active s) then pwm_set_last_ampere s else get_max_current_internal s.

(** Whether there is power, and the fall back to none when the budget has expired. *)
Definition has_power (s : Charger) : bool :=
  match charge_mode s with
  | AC => d_lt (dbl 59 10) (to_double (get_max_current_internal s))
  | DC => f_lt zero (evse_current_limit (current_evse_max_limits s)) &&
          f_lt zero (evse_power_limit (current_evse_max_limits s))
  end.

Definition power_available : op bool :=
  self s;
  cwhen ((0 <? count_s (steady_now s - max_current_valid_until s)) && f_lt zero (max_current s))
    (assign (set_max_current zero) ;; emit (signal_max_current zero)) ;;
  self s; mret (has_power s).

Definition f_abs (x : float) : float := SFabs x.

Definition check_soft_over_current : op () :=
  self s;
  let limit := to_float (d_mul (to_double (f_add (get_max_current_signalled_to_ev_internal s)
                                                 (soft_over_current_measurement_noise_A s)))
                               (d_add (dbl 1 1) (d_div (to_double (soft_over_current_tolerance_percent s)) (dbl 100 1)))) in
  let '(l1, l2, l3) := current_drawn_by_vehicle s in
  (if f_lt limit (f_abs l1) || f_lt limit (f_abs l2) || f_lt limit (f_abs l3) then
     cwhen (negb (over_current s))
       (assign (set_over_current true) ;; assign (set_last_over_current_event (steady_now s)))
   else assign (set_over_current false)) ;;
  self s;
  cwhen (over_current s && (soft_over_current_timeout_ms s <=? count_ms (steady_now s - last_over_current_event s)))
    (emit (raise_error overcurrent_error)).

(** ** Fatal errors *)
Definition emergency_shutdown : op () :=
  self s;
  cwhen (pwm_running s) cp_state_X1 ;;
  cwhen (is_DC s) (emit signal_dc_supply_off) ;;
  power_off ;;
  emit (signal_hlc_error Error_EmergencyShutdown).

Definition error_shutdown : op () :=
  self s;
  cwhen (is_DC s) (emit signal_dc_supply_off) ;;
  power_off ;;
  emit (signal_hlc_error Error_ErrorShutdown).

Definition shut_down (t : ShutdownType) (action : op ()) : op () :=
  self s;
  cwhen (negb (bool_decide (last_shutdown_type s = t)))
    (assign (set_fatal_error_became_active (steady_now s)) ;; action).

Definition stop_charging_on_fatal_error_internal : op bool :=
  self s;
  err ← (match shutdown_type s with
         | EmergencyShutdown => shut_down EmergencyShutdown emergency_shutdown ;; mret true
         | ErrorShutdown => shut_down ErrorShutdown error_shutdown ;; mret true
         | NoShutdown => mret false
         end);
  assign (set_fatal_error_timer_running err) ;;
  assign (set_last_shutdown_type (shutdown_type s)) ;;
  mret err.

Definition entered_fatal_error_state (s : Charger) : bool :=
  negb (bool_decide (shutdown_type s = NoShutdown)) && bool_decide (last_shutdown_type s = NoShutdown).

Definition time_in_fatal_error_state_ms (s : Charger) : Z :=
  if negb (fatal_error_timer_running s) then 0 else count_ms (steady_now s - fatal_error_became_active s).

Definition clear_errors_on_unplug : op () :=
  emit (clear_error overcurrent_error) ;;
  emit (clear_error internal_error) ;;
  emit (clear_error powermeter_transaction_start_failed_error) ;;
  emit (clear_error authorization_timeout_error) ;;
  emit (clear_error isolation_resistance_fault_Resistance) ;;
  emit (clear_error isolation_resistance_fault_VoltageToEarth) ;;
  emit (clear_error cable_check_fault) ;;
  emit (clear_error over_voltage_error) ;;
  emit (clear_error voltage_plausibility_fault) ;;
  assign (set_last_shutdown_type NoShutdown).

(** ** B-C-B toggles *)
Definition bcb_toggle_reset : op () :=
  assign (set_hlc_ev_pause_bcb_count 0) ;; assign (set_hlc_bcb_sequence_started false).

Definition bcb_toggle_detect_start_pulse : op () :=
  self s;
  assign (set_hlc_ev_pause_start_of_bcb (steady_now s)) ;;
  cwhen (hlc_ev_pause_bcb_count s =? 0)
    (assign (set_hlc_ev_pause_start_of_bcb_sequence (steady_now s)) ;;
     assign (set_hlc_bcb_sequence_started true)).

Definition bcb_toggle_detect_stop_pulse : op () :=
  self s;
  let pulse_length := steady_now s - hlc_ev_pause_start_of_bcb s in
  cwhen (hlc_bcb_sequence_started s)
    (if (TP_EV_VALD_STATE_DURATION_MIN <? pulse_length) && (pulse_length <? TP_EV_VALD_STATE_DURATION_MAX)
     then assign (set_hlc_ev_pause_bcb_count (hlc_ev_pause_bcb_count s + 1))
     else assign (set_hlc_ev_pause_bcb_count 0)).

Definition bcb_toggle_detected : op bool :=
  self s;
  if hlc_bcb_sequence_started s &&
     ((TT_EVSE_VALD_TOGGLE <? steady_now s - hlc_ev_pause_start_of_bcb_sequence s) ||
      (3 <=? hlc_ev_pause_bcb_count s))
  then assign (set_hlc_ev_pause_bcb_count 0) ;; mret true
  else mret false.

(** ** Sessions and transactions *)
Definition generate_session_id : op string :=
  self s;
  assign (set_session_ids (tail (session_ids s))) ;;
  mret (default "session" (head (session_ids s))).

Definition start_session (authfirst : bool) : op () :=
  assign (set_session_active true) ;;
  assign (set_dlink_established false) ;;
  authorize_flag false ;;
  assign (set_authorized_pnc false) ;;
  assign (set_flag_externally_cancelled false) ;;
  uuid ← generate_session_id;
  assign (set_session_uuid uuid) ;;
  self s;
  let why := if authfirst then Auth.Authorized_reason else Auth.EVConnected in
  assign (set_last_start_session_reason why) ;;
  emit (signal_session_started_event why (if authfirst then Some (id_token s) else None)).

Definition stop_session : op () :=
  assign (set_session_active false) ;;
  authorize_flag false ;;
  assign (set_authorized_pnc false) ;;
  assign (set_flag_externally_cancelled false) ;;
  assign (set_flag_paused_by_evse false) ;;
  emit (signal_simple_event Auth.SessionFinished) ;;
  assign (set_session_uuid "").

Definition transaction_req (s : Charger) : TransactionReq :=
  {| transaction_id := session_uuid s;
     identification_type :=
       convert_to_ocmf_identification_type (Evse.token_type (Auth.p_id_token (id_token s)));
     identification_data := Evse.value (Auth.p_id_token (id_token s));
     tariff_text := head (Auth.v_tariff_messages (validation_result s)) |}.

(** [call_start_transaction] and [call_stop_transaction] of a meter. *)
Definition call_start_transaction (req : TransactionReq) : op TransactionStartResponse :=
  emit (meter_start_transaction req) ;;
  self s;
  assign (set_meter_start_answers (tail (meter_start_answers s))) ;;
  mret (default {| start_status := NOT_SUPPORTED; start_signed := None |} (head (meter_start_answers s))).

Definition call_stop_transaction (id : string) : op TransactionStopResponse :=
  emit (meter_stop_transaction id) ;;
  self s;
  assign (set_meter_stop_answers (tail (meter_stop_answers s))) ;;
  mret (default {| stop_status := NOT_SUPPORTED; stop_start_signed := None; stop_signed := None |}
          (head (meter_stop_answers s))).

(** The loop over the meters at the start; [false]: the transaction must not start. *)
Fixpoint start_on_meters (req : TransactionReq) (meters : nat) : op bool :=
  match meters with
  | O => mret true
  | S meters' =>
      response ← call_start_transaction req;
      match start_status response with
      | UNEXPECTED_ERROR =>
          self s;
          if fail_on_powermeter_errors s then
            emit (raise_error powermeter_transaction_start_failed_error) ;; mret false
          else start_on_meters req meters'
      | MeterOK => assign (set_start_signed_meter_value (start_signed response)) ;; mret true
      | NOT_SUPPORTED => start_on_meters req meters'
      end
  end.

Definition start_transaction : op bool :=
  assign (set_stop_transaction_id_token None) ;;
  assign (set_last_stop_transaction_reason None) ;;
  assign (set_start_signed_meter_value None) ;;
  assign (set_stop_signed_meter_value None) ;;
  self s;
  started ← start_on_meters (transaction_req s) (billing_meters s);
  if negb started then mret false
  else
    self s;
    emit (store_session (session_uuid s)) ;;
    emit (signal_transaction_started_event (session_uuid s) (id_token s)) ;;
    assign (set_flag_transaction_active true) ;;
    mret true.

(** The loop over the meters at the end; [keep]: a start value that is known is kept. *)
Fixpoint stop_on_meters (id : string) (keep : bool) (meters : nat) : op () :=
  match meters with
  | O => mret tt
  | S meters' =>
      response ← call_stop_transaction id;
      match stop_status response with
      | UNEXPECTED_ERROR => mret tt
      | MeterOK =>
          self s;
          cwhen (negb (keep && bool_decide (is_Some (start_signed_meter_value s))))
            (assign (set_start_signed_meter_value (stop_start_signed response))) ;;
          assign (set_stop_signed_meter_value (stop_signed response))
      | NOT_SUPPORTED => stop_on_meters id keep meters'
      end
  end.

Definition stop_transaction : op () :=
  assign (set_flag_transaction_active false) ;;
  self s;
  let why := default Auth.EVDisconnected (last_stop_transaction_reason s) in
  assign (set_last_stop_transaction_reason (Some why)) ;;
  stop_on_meters (session_uuid s) true (billing_meters s) ;;
  emit clear_session ;;
  emit (signal_simple_event Auth.ChargingFinished) ;;
  self s;
  emit (signal_transaction_finished_event (session_uuid s) why (stop_transaction_id_token s)).

(** [stored]: what [get_session] of the store returns. *)
Definition cleanup_transactions_on_startup (stored : string) : op () :=
  self s;
  cwhen (negb (bool_decide (stored = "")))
    (emit clear_session ;;
     stop_on_meters stored false (billing_meters s) ;;
     self s;
     emit (signal_transaction_finished_event (session_uuid s) Auth.PowerLoss None)) ;;
  cfor (seq 0 (billing_meters s)) (λ _, call_stop_transaction "" ;; mret tt).

Definition deauthorize_internal : op bool :=
  self s;
  if negb (session_active s) then mret false
  else
    emit (signal_simple_event Auth.Deauthorized) ;;
    if state_is Disabled s || state_is Idle s || state_is WaitingForAuthentication s then
      if negb (flag_authorized s) then
        emit (signal_simple_event Auth.PluginTimeout) ;;
        cwhen (raise_mrec9 s) (emit (raise_error authorization_timeout_error)) ;;
        emit signal_hlc_plug_in_timeout ;;
        mret false
      else
        authorize_flag false ;;
        stop_session ;;
        mret true
    else mret false.

(** ** Pauses *)
Definition evse_pause_resumable (s : Charger) : bool :=
  hlc_session_paused_by_evse s && negb (flag_paused_by_evse s).

Definition resume_evse_pause_marker : op () :=
  self s;
  cwhen (negb (bool_decide (hlc_charging_terminate_pause s = Pause))) (emit signal_slac_start) ;;
  assign (set_hlc_charging_terminate_pause Unknown) ;;
  assign (set_session_stop_pwm_off_deadline None).

(** ** The error sequence of ISO 15118-3 *)
Definition return_from_EF_to (st : EvseState) (pwm ampere : float) : op () :=
  assign (set_t_step_EF_return_state st) ;;
  assign (set_t_step_EF_return_pwm pwm) ;;
  assign (set_t_step_EF_return_ampere ampere).

Definition request_error_sequence_internal : op () :=
  self s;
  let limit_retries := ac_limit_slac_init_retries s && is_AC s in
  if state_is WaitingForAuthentication s || state_is PrepareCharging s then
    if limit_retries && negb (hlc_use_5percent_current_session s) then assign (set_dlink_established false)
    else
      assign (set_t_step_EF_return_state (current_state s)) ;;
      assign (set_t_step_EF_return_ampere zero) ;;
      (if limit_retries && (C_SEQU_RETRY <=? slac_retries s) then
         assign (set_slac_retries_exhausted true) ;;
         assign (set_hlc_use_5percent_current_session false) ;;
         assign (set_t_step_EF_return_pwm zero)
       else if hlc_use_5percent_current_session s then
         cwhen limit_retries (assign (set_slac_retries (slac_retries s + 1))) ;;
         assign (set_t_step_EF_return_pwm PWM_5_PERCENT)
       else assign (set_t_step_EF_return_pwm zero)) ;;
      (if dlink_established s then
         assign (set_t_step_X1_until_unmatched true) ;; set_state T_step_X1
       else set_state T_step_EF ;; emit signal_slac_reset) ;;
      assign (set_dlink_established false)
  else assign (set_dlink_established false).

(** ** Enable and disable *)
Definition default_source : EnableDisableSource :=
  {| enable_source := Unspecified; enable_state := Unassigned; enable_priority := 10000 |}.

(** One entry of the table against the winner so far. *)
Definition compare_source (winning_source entry : EnableDisableSource) : EnableDisableSource :=
  match enable_state entry with
  | Unassigned => winning_source
  | st =>
      match enable_state winning_source with
      | Unassigned => entry
      | _ =>
          if enable_priority entry =? enable_priority winning_source then
            if bool_decide (st = Disable) then entry else winning_source
          else if enable_priority entry <? enable_priority winning_source then entry
          else winning_source
      end
  end.

Definition parse_enable_disable_source_table : op bool :=
  self s;
  let winning_source := foldl compare_source default_source (enable_disable_source_table s) in
  assign (set_active_enable_disable_source winning_source) ;;
  mret (negb (bool_decide (enable_state winning_source = Disable))).

Fixpoint update_source (source : EnableDisableSource) (table : list EnableDisableSource) :
    list EnableDisableSource :=
  match table with
  | [] => [source]
  | entry :: table' =>
      if bool_decide (enable_source entry = enable_source source) then source :: table'
      else entry :: update_source source table'
  end.

Definition enable_disable_source_table_update (source : EnableDisableSource) : op () :=
  self s; assign (set_enable_disable_source_table (update_source source (enable_disable_source_table s))).

End ChgOps.
