(* ===== verification/ChargerStates.v ===== *)
(** * The charger's state machine

    [Charger::run_state_machine] of [src/modules/EVSE/EvseManager/Charger.cpp]: one
    definition per [case] of its switch, the part of every pass before the switch, and
    the loop.  [init] is the source's [initialize_state]; [time] is
    [time_in_current_state].  The clocks stand still during a pass, apart from the
    one place where the source sleeps. *)

From Stdlib Require Import String Floats.SpecFloat.
From S2P Require Import Prelude Float32 IecStateMachine EvseContext AuthHandler ChargerTypes ChargerOps.

Module ChgStates.

Import Chg ChgOps.
#[local] Open Scope string_scope.
#[local] Open Scope Z_scope.

Definition sleep_for (d : Z) : op () :=
  self s; assign (set_steady_now (steady_now s + ms d)) ;; assign (set_system_now (system_now s + ms d)).

Definition read_pp_ampacity : op (option double) :=
  self s;
  assign (set_pp_answers (tail (pp_answers s))) ;;
  mret (default None (head (pp_answers s))).

Definition not_plugged_or_disabled (s : Charger) : bool :=
  negb (flag_ev_plugged_in s) || flag_disable_requested s.

(** No authorization, no transaction, no car, or a request to disable. *)
Definition must_end (s : Charger) : bool :=
  negb (flag_authorized s) || negb (flag_transaction_active s) || not_plugged_or_disabled s.

(** ** Disabled, Idle *)
Definition in_Disabled (init : bool) : op () :=
  cwhen init
    (cp_state_F ;;
     emit (bsp_enable false) ;;
     emit (signal_simple_event Auth.Disabled)) ;;
  self s;
  cwhen (negb (flag_disable_requested s)) (set_state Idle).

Definition enter_Idle : op () :=
  bcb_toggle_reset ;;
  assign (set_iec_allow_close_contactor false) ;;
  self s;
  assign (set_hlc_charging_active (negb (is_AC s))) ;;
  assign (set_hlc_allow_close_contactor false) ;;
  assign (set_max_current_cable None) ;;
  assign (set_hlc_charging_terminate_pause Unknown) ;;
  assign (set_hlc_dc_renegotiation false) ;;
  assign (set_session_stop_pwm_off_deadline None) ;;
  assign (set_hlc_session_paused_by_evse false) ;;
  assign (set_hlc_session_restarted_by_ev false) ;;
  assign (set_legacy_wakeup_done false) ;;
  assign (set_hlc_d20_active false) ;;
  assign (set_hlc_d20_dynamic_mode false) ;;
  assign (set_d20_pause_requested false) ;;
  assign (set_d20_pause_confirmed false) ;;
  cp_state_X1 ;;
  assign (set_pwm_switched_off_at None) ;;
  deauthorize_internal ;;
  assign (set_flag_transaction_active false) ;;
  clear_errors_on_unplug ;;
  assign (set_slac_retries 0) ;;
  assign (set_slac_retries_exhausted false) ;;
  assign (set_wakeup_link_deadline None) ;;
  assign (set_hlc_failed false).

Definition in_Idle (init : bool) : op () :=
  cwhen init enter_Idle ;;
  self s;
  if flag_disable_requested s then set_state Disabled
  else if negb (bool_decide (shutdown_type s = NoShutdown)) then
    cwhen (negb (cp_state_F_active s)) cp_state_F
  else cwhen (cp_state_F_active s) cp_state_X1.

(** ** WaitingForAuthentication *)
(** Whether this session starts with 5 percent. *)
Definition choose_5_percent : op () :=
  assign (set_hlc_use_5percent_current_session false) ;;
  self s;
  match charge_mode s with
  | AC =>
      let hlc := ac_hlc_enabled s && negb (hlc_failed s) in
      assign (set_ac_hlc_enabled_current_session hlc) ;;
      cwhen hlc (assign (set_hlc_use_5percent_current_session
                           (ac_hlc_use_5percent s && negb (slac_retries_exhausted s))))
  | DC => assign (set_hlc_use_5percent_current_session true)
  end.

Definition start_5_percent : op () :=
  self s;
  cwhen (hlc_use_5percent_current_session s && flag_ev_plugged_in s)
    (sleep_for (sleep_before_enabling_pwm_hlc_mode_ms s) ;;
     self s;
     if flag_authorized s && is_AC s && ac_hlc_enabled_current_session s && negb (ac_enforce_hlc s)
     then assign (set_hlc_use_5percent_current_session false)
     else update_pwm_now PWM_5_PERCENT).

Definition enter_WaitingForAuthentication : op () :=
  assign (set_no_energy_warning_printed false) ;;
  assign (set_ac_x1_fallback_nominal_timeout_running false) ;;
  power_off ;;
  self s;
  cwhen (negb (session_active s)) (start_session false) ;;
  emit (signal_simple_event Auth.AuthRequired) ;;
  choose_5_percent ;;
  start_5_percent.

(** The ampacity of the cable is read once; [false]: it is not known yet. *)
Definition know_cable : op bool :=
  self s;
  if bool_decide (connector_type s = IEC62196Type2Socket) && bool_decide (max_current_cable s = None) then
    cable ← read_pp_ampacity;
    assign (set_max_current_cable cable) ;;
    mret (bool_decide (is_Some cable))
  else mret true.

(** DC waits some time for energy; [false]: wait. *)
Definition know_energy (time : Z) : op bool :=
  self s;
  if is_DC s then
    power ← power_available;
    if (power : bool) then mret true
    else if time <? WAIT_FOR_ENERGY_IN_AUTHLOOP_TIMEOUT_MS then mret false
    else
      self s;
      cwhen (negb (no_energy_warning_printed s))
        (assign (set_no_energy_warning_printed true) ;; emit signal_hlc_no_energy_available) ;;
      mret true
  else mret true.

(** AC after an authorization by EIM, figures 3 to 6 of ISO 15118-3. *)
Definition eim_with_hlc : op () :=
  self s;
  if ac_enforce_hlc s && negb (slac_retries_exhausted s) then
    assign (set_hlc_use_5percent_current_session true) ;; set_state PrepareCharging
  else if negb (matching_started s) then
    if hlc_use_5percent_current_session s then
      return_from_EF_to PrepareCharging zero zero ;;
      set_state T_step_EF ;;
      assign (set_hlc_use_5percent_current_session false)
    else set_state PrepareCharging
  else if hlc_use_5percent_current_session s then
    if hlc_charging_active s then set_state PrepareCharging
    else if ac_x1_fallback_nominal_timeout_running s then
      cwhen (AC_X1_FALLBACK_TO_NOMINAL_TIMEOUT_MS <?
               count_ms (steady_now s - ac_x1_fallback_nominal_timeout_started s))
        (assign (set_t_step_X1_return_state PrepareCharging) ;;
         assign (set_t_step_X1_return_pwm zero) ;;
         assign (set_t_step_EF_return_ampere zero) ;;
         assign (set_t_step_X1_until_unmatched false) ;;
         assign (set_hlc_use_5percent_current_session false) ;;
         set_state T_step_X1)
    else
      assign (set_ac_x1_fallback_nominal_timeout_running true) ;;
      assign (set_ac_x1_fallback_nominal_timeout_started (steady_now s))
  else set_state PrepareCharging.

(** [false]: the transaction could not be started. *)
Definition transaction_running : op bool :=
  self s; if flag_transaction_active s then mret true else start_transaction.

Definition eim_authorized : op () :=
  ok ← transaction_running;
  if negb ok then mret tt
  else
    self s;
    if is_AC s && ac_hlc_enabled_current_session s then eim_with_hlc else set_state PrepareCharging.

Definition pnc_authorized : op () :=
  ok ← transaction_running;
  if negb ok then mret tt
  else
    self s;
    if is_AC s then
      if hlc_charging_active s then
        assign (set_hlc_use_5percent_current_session true) ;; set_state PrepareCharging
      else cwhen (negb (hlc_use_5percent_current_session s) && negb (dlink_established s)) (set_state PrepareCharging)
    else set_state PrepareCharging.

Definition in_WaitingForAuthentication (init : bool) (time : Z) : op () :=
  cwhen init enter_WaitingForAuthentication ;;
  fatal ← stop_charging_on_fatal_error_internal;
  if (fatal : bool) then emit signal_slac_reset ;; set_state Finished
  else
    self s;
    if not_plugged_or_disabled s || flag_externally_cancelled s then set_state Finished
    else
      cable ← know_cable;
      if negb cable then mret tt
      else
        energy ← know_energy time;
        if negb energy then mret tt
        else
          self s;
          if flag_authorized s then (if authorized_pnc s then pnc_authorized else eim_authorized) else mret tt.

(** ** SwitchPhases, T_step_EF, T_step_X1, Reinit *)
Definition in_SwitchPhases (init : bool) (time : Z) : op () :=
  cwhen init
    (emit (signal_simple_event Auth.SwitchingPhases) ;;
     self s;
     if bool_decide (switch_3ph1ph_cp_state s = "E") then cp_state_E
     else if bool_decide (switch_3ph1ph_cp_state s = "F") then cp_state_F
     else cp_state_X1) ;;
  fatal ← stop_charging_on_fatal_error_internal;
  self s;
  if fatal || not_plugged_or_disabled s then set_state (switching_phases_return_state s)
  else cwhen (switch_3ph1ph_delay_s s * 1000 <=? time)
    (emit (bsp_switch_three_phases_while_charging (switch_3ph1ph_threephase s)) ;;
     assign (set_switch_3ph1ph_threephase_ongoing false) ;;
     set_state (switching_phases_return_state s)).

Definition in_T_step_EF (init : bool) (time : Z) : op () :=
  cwhen init (assign (set_t_step_ef_x1_pause false) ;; cp_state_F) ;;
  fatal ← stop_charging_on_fatal_error_internal;
  self s;
  if fatal || not_plugged_or_disabled s then
    cp_state_X1 ;; set_state (t_step_EF_return_state s)
  else if T_STEP_EF + STAY_IN_X1_AFTER_TSTEP_EF_MS <=? time then
    (if f_eq (t_step_EF_return_pwm s) zero then cp_state_X1
     else if hlc_use_5percent_current_session s then
       update_pwm_now PWM_5_PERCENT ;; assign (set_pwm_set_last_ampere (t_step_EF_return_ampere s))
     else
       update_pwm_now (t_step_EF_return_pwm s) ;; assign (set_pwm_set_last_ampere (t_step_EF_return_ampere s))) ;;
    set_state (t_step_EF_return_state s)
  else cwhen ((T_STEP_EF <=? time) && negb (t_step_ef_x1_pause s))
    (assign (set_t_step_ef_x1_pause true) ;; cp_state_X1).

Definition in_T_step_X1 (init : bool) (time : Z) : op () :=
  cwhen init
    (cp_state_X1 ;;
     self s; cwhen (t_step_X1_until_unmatched s) (emit signal_slac_reset)) ;;
  fatal ← stop_charging_on_fatal_error_internal;
  self s;
  if fatal || not_plugged_or_disabled s then
    set_state (if t_step_X1_until_unmatched s then t_step_EF_return_state s else t_step_X1_return_state s) ;;
    assign (set_t_step_X1_until_unmatched false)
  else if t_step_X1_until_unmatched s then
    let unmatched := negb (matching_started s) && negb (slac_matched s) in
    cwhen ((unmatched && (TP_MATCH_LEAVE_MS <=? time)) || (T_STEP_X1 <=? time))
      (assign (set_t_step_X1_until_unmatched false) ;; set_state T_step_EF)
  else cwhen (T_STEP_X1 <=? time)
    ((if f_eq (t_step_X1_return_pwm s) zero then cp_state_X1
      else
        update_pwm_now (t_step_X1_return_pwm s) ;; assign (set_pwm_set_last_ampere (t_step_EF_return_ampere s))) ;;
     set_state (t_step_X1_return_state s)).

Definition in_Reinit (init : bool) : op () :=
  cwhen init
    (assign (set_reinit_running true) ;;
     assign (set_iec_allow_close_contactor false) ;;
     assign (set_hlc_allow_close_contactor false) ;;
     apply_configured_reinit_method ;;
     self s;
     if 0 <? duration (reinit_config s) then
       assign (set_reinit_timer_active true) ;;
       assign (set_reinit_deadline (steady_now s + ms (duration (reinit_config s))))
     else assign (set_reinit_timer_active false)) ;;
  self s;
  cwhen (negb (reinit_timer_active s) || (reinit_deadline s <=? steady_now s))
    (assign (set_reinit_running false) ;;
     assign (set_reinit_timer_active false) ;;
     cp_state_X1 ;;
     set_state WaitingForAuthentication).

(** ** PrepareCharging *)
Definition enter_PrepareCharging : op () :=
  emit (signal_simple_event Auth.PrepareCharging) ;;
  bcb_toggle_reset ;;
  assign (set_hlc_charge_loop_no_energy_timeout_running false) ;;
  self s;
  cwhen (is_DC s)
    (power ← power_available;
     self s;
     cwhen (negb power && negb (hlc_dc_renegotiation s)) (emit signal_hlc_no_energy_available)).

(** AC: whether charging can start, and what to do with a car that does not want to. *)
Definition start_AC_charging (time : Z) : op () :=
  power ← power_available;
  self s;
  if negb power && negb (hlc_use_5percent_current_session s) then mret tt
  else if iec_allow_close_contactor s &&
          (negb (hlc_use_5percent_current_session s) || hlc_allow_close_contactor s)
  then set_state Charging
  else if negb (hlc_charging_active s) && negb (legacy_wakeup_done s) && (LEGACY_WAKEUP_TIMEOUT <? time) then
    assign (set_legacy_wakeup_done true) ;;
    return_from_EF_to PrepareCharging (ampere_to_duty_cycle (get_max_current_internal s))
      (get_max_current_internal s) ;;
    set_state T_step_EF
  else cwhen (negb (hlc_charging_active s) && legacy_wakeup_done s && (PREPARING_TIMEOUT_PAUSED_BY_EV <? time))
    (set_state ChargingPausedEV).

Definition enable_pwm_and_start (time : Z) : op () :=
  self s;
  let max_current := get_max_current_internal s in
  let nominal := is_AC s && (negb (hlc_use_5percent_current_session s) || hlc_failed s) in
  if (if nominal then f_lt (ampere_to_duty_cycle max_current) f_one else true) && must_wait_in_x1_before_pwm s
  then mret tt
  else
    (if nominal then update_pwm_now_if_changed_ampere max_current else update_pwm_now_if_changed PWM_5_PERCENT) ;;
    cwhen (is_AC s) (start_AC_charging time).

(** The watchdog of the link after a wake up; [false]: the link did not come back. *)
Definition watch_wakeup_link : op bool :=
  self s;
  match wakeup_link_deadline s with
  | Some deadline =>
      if dlink_established s then assign (set_wakeup_link_deadline None) ;; mret true
      else if deadline <=? steady_now s then
        assign (set_wakeup_link_deadline None) ;;
        request_error_sequence_internal ;;
        mret false
      else mret true
  | None => mret true
  end.

Definition in_PrepareCharging (init : bool) (time : Z) : op () :=
  cwhen init enter_PrepareCharging ;;
  fatal ← stop_charging_on_fatal_error_internal;
  self s;
  if fatal || must_end s then set_state StoppingCharging
  else
    cwhen (is_DC s && hlc_allow_close_contactor s && iec_allow_close_contactor s)
      (allow_power_on true Iec.DCCableCheck) ;;
    if hlc_charging_active s && session_stopped s && negb (evse_pause_resumable s) then set_state ChargingPausedEV
    else
      cwhen (hlc_charging_active s && session_stopped s) resume_evse_pause_marker ;;
      link ← watch_wakeup_link;
      if negb link then mret tt else enable_pwm_and_start time.

(** ** Charging *)
Definition enter_Charging : op () :=
  emit (signal_simple_event Auth.ChargingStarted) ;;
  assign (set_hlc_charging_terminate_pause Unknown) ;;
  assign (set_session_stop_pwm_off_deadline None) ;;
  assign (set_hlc_session_paused_by_evse false).

(** Whether a pause by the EVSE stops charging now; in scheduled control mode of
    ISO 15118-20 it is requested first. *)
Definition pause_stops : op bool :=
  self s;
  if hlc_charging_active s && hlc_d20_active s && negb (hlc_d20_dynamic_mode s) then
    (if flag_paused_by_evse s && negb (d20_pause_requested s) then
       emit signal_hlc_pause_charging ;; assign (set_d20_pause_requested true)
     else cwhen (negb (flag_paused_by_evse s) && d20_pause_requested s && negb (d20_pause_confirmed s))
       (emit signal_hlc_resume_charging ;; assign (set_d20_pause_requested false))) ;;
    mret (d20_pause_confirmed s)
  else mret (flag_paused_by_evse s).

(** Without energy; [false]: charging stops. *)
Definition go_on_without_energy : op bool :=
  self s;
  if hlc_charging_active s || hlc_use_5percent_current_session s then
    if 0 <? hlc_charge_loop_without_energy_timeout_s s then
      if negb (hlc_charge_loop_no_energy_timeout_running s) then
        assign (set_hlc_charge_loop_no_energy_timeout_running true) ;;
        assign (set_iso_charge_loop_no_energy_timeout_started (steady_now s)) ;;
        mret true
      else if hlc_charge_loop_without_energy_timeout_s s * 1000 <=?
                count_ms (steady_now s - iso_charge_loop_no_energy_timeout_started s)
      then assign (set_hlc_charge_loop_no_energy_timeout_running false) ;; mret false
      else mret true
    else mret false
  else mret (negb (is_AC s)).

Definition energy_or_stop : op bool :=
  power ← power_available;
  if (power : bool) then assign (set_hlc_charge_loop_no_energy_timeout_running false) ;; mret true
  else go_on_without_energy.

Definition charge (init : bool) : op () :=
  self s;
  if is_DC s then
    cwhen init (allow_power_on true Iec.FullPowerCharging) ;;
    cwhen (ms DC_ENFORCE_TARGET_LIMITS_INTERVAL_MS <=? steady_now s - last_dc_enforce_target_limits s)
      (assign (set_last_dc_enforce_target_limits (steady_now s)) ;;
       emit (signal_dc_enforce_target_limits (current_evse_max_limits s)))
  else
    check_soft_over_current ;;
    if init then
      assign (set_legacy_wakeup_done false) ;;
      allow_power_on true Iec.FullPowerCharging ;;
      if hlc_use_5percent_current_session s then update_pwm_now_if_changed PWM_5_PERCENT
      else update_pwm_now_if_changed_ampere (get_max_current_internal s)
    else cwhen (negb (hlc_use_5percent_current_session s))
      (update_pwm_max_every_5seconds_ampere (get_max_current_internal s)).

Definition in_Charging (init : bool) : op () :=
  cwhen init enter_Charging ;;
  fatal ← stop_charging_on_fatal_error_internal;
  paused ← pause_stops;
  self s;
  if fatal || must_end s || paused || negb (iec_allow_close_contactor s) then set_state StoppingCharging
  else
    energy ← energy_or_stop;
    if negb energy then set_state StoppingCharging else charge init.

(** ** ChargingPausedEV, ChargingPausedEVSE *)
Definition paused_EV_hlc : op () :=
  self s;
  let restarted_by_ev := hlc_session_restarted_by_ev s in
  assign (set_hlc_session_restarted_by_ev false) ;;
  toggled ← bcb_toggle_detected;
  cwhen (toggled || restarted_by_ev)
    (assign (set_hlc_charging_terminate_pause Unknown) ;;
     assign (set_session_stop_pwm_off_deadline None) ;;
     emit signal_slac_start ;;
     assign (set_wakeup_link_deadline
       (Some ((if restarted_by_ev then steady_now s else hlc_ev_pause_start_of_bcb_sequence s) + T_CONN_MAX_COMM))) ;;
     set_state PrepareCharging) ;;
  self s;
  cwhen (session_stopped s && pwm_running s && bool_decide (session_stop_pwm_off_deadline s = None)) cp_state_X1.

Definition paused_EV_basic : op () :=
  power ← power_available;
  self s;
  if negb power then set_state ChargingPausedEVSE
  else cwhen (negb (must_wait_in_x1_before_pwm s))
    (update_pwm_max_every_5seconds_ampere (get_max_current_internal s)).

Definition in_ChargingPausedEV (init : bool) : op () :=
  cwhen init (emit (signal_simple_event Auth.ChargingPausedEV)) ;;
  self s;
  if must_end s then set_state StoppingCharging
  else
    cwhen (is_AC s) check_soft_over_current ;;
    if hlc_charging_active s then paused_EV_hlc else paused_EV_basic.

(** State F for a short time after a fault, basic charging only. *)
Definition signal_fault_in_F : op () :=
  self s;
  cwhen ((0 <? state_F_after_fault_ms s) && negb (hlc_charging_active s))
    (cwhen (entered_fatal_error_state s) cp_state_F ;;
     self s;
     cwhen (cp_state_F_active s && (state_F_after_fault_ms s <? time_in_fatal_error_state_ms s)) cp_state_X1).

Definition pause_reasons : op (list PauseChargingEVSEReasonEnum) :=
  fatal ← stop_charging_on_fatal_error_internal;
  power ← power_available;
  self s;
  mret ((if (fatal : bool) then [Error] else []) ++ (if (power : bool) then [] else [NoEnergy]) ++
        (if flag_paused_by_evse s then [UserPause] else []))%list.

Definition resume_from_pause : op () :=
  self s;
  if hlc_charging_active s && session_stopped s then
    if evse_pause_resumable s then resume_evse_pause_marker ;; set_state PrepareCharging
    else set_state ChargingPausedEV
  else if must_wait_in_x1_before_pwm s then mret tt
  else
    cwhen (negb (bool_decide (hlc_charging_terminate_pause s = Pause))) (emit signal_slac_start) ;;
    set_state PrepareCharging.

Definition in_ChargingPausedEVSE (init : bool) : op () :=
  cwhen init
    (self s;
     cwhen (negb (hlc_charging_active s) || negb (flag_transaction_active s)) cp_state_X1 ;;
     assign (set_last_charging_paused_evse_reasons [])) ;;
  self s;
  if must_end s then set_state StoppingCharging
  else
    signal_fault_in_F ;;
    emit (clear_error cable_check_fault) ;;
    r ← pause_reasons;
    if bool_decide (r = []) then resume_from_pause
    else
      self s;
      cwhen (negb (bool_decide (last_charging_paused_evse_reasons s = r)))
        (emit (signal_charging_paused_evse_event r) ;;
         assign (set_last_charging_paused_evse_reasons r)).

(** ** StoppingCharging, Finished *)
Definition enter_StoppingCharging : op () :=
  assign (set_hlc_dc_renegotiation false) ;;
  bcb_toggle_reset ;;
  assign (set_legacy_wakeup_done false) ;;
  emit (signal_simple_event Auth.StoppingCharging) ;;
  self s;
  let evse_pause := flag_paused_by_evse s || d20_pause_confirmed s in
  assign (set_d20_pause_requested false) ;;
  assign (set_d20_pause_confirmed false) ;;
  assign (set_stopping_for_evse_pause evse_pause) ;;
  assign (set_stopping_charging_timeout_ms STOPPING_CHARGING_TIMEOUT_MS) ;;
  assign (set_d20_pause_ramp_start None) ;;
  assign (set_d20_pause_notified false) ;;
  if hlc_charging_active s then
    if hlc_d20_active s && evse_pause && hlc_d20_dynamic_mode s then
      assign (set_d20_pause_ramp_start (Some (steady_now s))) ;;
      assign (set_stopping_charging_timeout_ms D20_PAUSE_RAMP_TIMEOUT_MS)
    else if hlc_d20_active s && evse_pause then
      cwhen (negb (d20_pause_confirmed s)) (emit signal_hlc_pause_charging) ;;
      assign (set_d20_pause_notified true) ;;
      assign (set_stopping_charging_timeout_ms STOPPING_CHARGING_D20_PAUSE_TIMEOUT_MS)
    else emit signal_hlc_stop_charging
  else cp_state_X1.

(** The pause is requested once no current flows any more. *)
Definition request_pause_at_zero (time : Z) : op () :=
  self s;
  cwhen (bool_decide (is_Some (d20_pause_ramp_start s)) && negb (d20_pause_notified s) &&
         f_lt (f_abs (dc_present_current_A s)) D20_PAUSE_ZERO_CURRENT_A)
    (emit signal_hlc_pause_charging ;;
     assign (set_d20_pause_notified true) ;;
     assign (set_stopping_charging_timeout_ms (time + STOPPING_CHARGING_D20_PAUSE_TIMEOUT_MS))).

(** Where charging goes once the contactors are open; the checks in their order. *)
Definition leave_StoppingCharging : op () :=
  power ← power_available;
  self s;
  by_evse ← (if negb power || flag_paused_by_evse s || stopping_for_evse_pause s then mret true
             else stop_charging_on_fatal_error_internal);
  self s;
  if (by_evse : bool) then
    assign (set_hlc_session_paused_by_evse (hlc_charging_active s)) ;; set_state ChargingPausedEVSE
  else set_state ChargingPausedEV.

Definition in_StoppingCharging (init : bool) (time : Z) : op () :=
  cwhen init enter_StoppingCharging ;;
  request_pause_at_zero time ;;
  self s;
  cwhen (stopping_charging_timeout_ms s <? time) (emit signal_dc_supply_off ;; power_off) ;;
  if negb (contactor_open s) then mret tt
  else if must_end s then set_state Finished
  else leave_StoppingCharging.

Definition in_Finished (init : bool) : op () :=
  cwhen init
    (self s;
     cwhen (flag_transaction_active s) stop_transaction ;;
     cwhen (is_DC s) (emit signal_dc_supply_off) ;;
     power_off) ;;
  self s;
  cwhen (not_plugged_or_disabled s)
    (stop_session ;; set_state (if flag_disable_requested s then Disabled else Idle)).

(** ** The loop *)
Definition process_pending_reinit_request : op () :=
  self s;
  if negb (reinit_requested s) then mret tt
  else
    cwhen (state_is Charging s) (set_state StoppingCharging) ;;
    if slac_matched s then
      cwhen (negb (reinit_running s)) (assign (set_reinit_running true) ;; emit signal_hlc_stop_charging)
    else
      assign (set_reinit_requested false) ;;
      assign (set_reinit_running true) ;;
      assign (set_t_step_X1_until_unmatched false) ;;
      set_state Reinit.

(** Whether the state is new, and the time in it.  [None]: the time to fetch the state of
    charge in DC mode has come, and the function returns. *)
Definition detect_change : op (option (bool * Z)) :=
  self s;
  let init := negb (bool_decide (last_state_detect_state_change s = current_state s)) ||
              negb (bool_decide (detected_shutdown_type s = shutdown_type s)) in
  assign (set_last_state (last_state_detect_state_change s)) ;;
  assign (set_last_state_detect_state_change (current_state s)) ;;
  assign (set_detected_shutdown_type (shutdown_type s)) ;;
  cwhen (ac_with_soc_timeout s) (assign (set_ac_with_soc_timer (ac_with_soc_timer s - 50))) ;;
  self s;
  if ac_with_soc_timeout s && (ac_with_soc_timer s <? 0) then
    assign (set_ac_with_soc_timeout false) ;;
    assign (set_ac_with_soc_timer 3600000) ;;
    emit signal_ac_with_soc_timeout ;;
    mret None
  else
    cwhen init (assign (set_current_state_started (system_now s)) ;; emit (signal_state (current_state s))) ;;
    self s;
    mret (Some (init, count_ms (system_now s - current_state_started s))).

(** The part of a pass before the switch. *)
Definition begin_pass : op (option (bool * Z)) := process_pending_reinit_request ;; detect_change.

(** An interrupted switch of the phases, and the end of the oscillator's retain time. *)
Definition finish_phase_switch : op () :=
  self s;
  cwhen (bool_decide (last_state s = SwitchPhases) && negb (state_is SwitchPhases s) &&
         switch_3ph1ph_threephase_ongoing s)
    (emit (bsp_switch_three_phases_while_charging (switch_3ph1ph_threephase s)) ;;
     assign (set_switch_3ph1ph_threephase_ongoing false)).

Definition retain_time_over : op () :=
  self s;
  match session_stop_pwm_off_deadline s with
  | Some deadline =>
      cwhen (deadline <=? steady_now s)
        (assign (set_session_stop_pwm_off_deadline None) ;; cwhen (pwm_running s) cp_state_X1)
  | None => mret tt
  end.

Definition state_actions (init : bool) (time : Z) : op () :=
  self s;
  match current_state s with
  | Disabled => in_Disabled init
  | Idle => in_Idle init
  | WaitingForAuthentication => in_WaitingForAuthentication init time
  | SwitchPhases => in_SwitchPhases init time
  | T_step_EF => in_T_step_EF init time
  | T_step_X1 => in_T_step_X1 init time
  | Reinit => in_Reinit init
  | PrepareCharging => in_PrepareCharging init time
  | Charging => in_Charging init
  | ChargingPausedEV => in_ChargingPausedEV init
  | ChargingPausedEVSE => in_ChargingPausedEVSE init
  | StoppingCharging => in_StoppingCharging init time
  | Finished => in_Finished init
  end.

(** How the loop goes on after a pass. *)
Inductive pass_end := again | settled | returned_early.

Definition act_and_test (init : bool) (time : Z) : op pass_end :=
  finish_phase_switch ;;
  retain_time_over ;;
  state_actions init time ;;
  self s;
  mret (if bool_decide (last_state_detect_state_change s = current_state s) then settled else again).

Definition pass : op pass_end :=
  begun ← begin_pass;
  match begun with
  | None => mret returned_early
  | Some (init, time) => act_and_test init time
  end.

(** [None]: the loop did not end within [fuel] passes. *)
Fixpoint run_loop (fuel : nat) : op (option pass_end) :=
  match fuel with
  | O => mret None
  | S fuel' =>
      e ← pass;
      match e with
      | again => run_loop fuel'
      | _ => mret (Some e)
      end
  end.

(** The source only warns after ten passes; the loop is shown to end within this many. *)
Definition max_passes : nat := 14.

Definition publish_pause_ramp : op () :=
  self s;
  assign (set_dc_pause_ramp_start (if state_is StoppingCharging s then d20_pause_ramp_start s else None)).

Definition run_state_machine : op () :=
  e ← run_loop max_passes;
  match e with
  | Some settled => publish_pause_ramp
  | _ => mret tt
  end.

End ChgStates.
