(* ===== verification/Charger.v ===== *)
(** * The requests to the charger

    The rest of [src/modules/EVSE/EvseManager/Charger.cpp]: the constructor, the events of
    the control pilot, the turns of the main loop and of the error thread, and what the
    other parts of EvseManager ask for (authorization, limits, pauses, the data link, high
    level communication, enabling and disabling).  A request is atomic.  [step] runs one of
    them, [run] a sequence; between two requests the clocks move on as the environment
    likes. *)

From Stdlib Require Import String Floats.SpecFloat.
From S2P Require Import Prelude Float32 IecStateMachine EvseContext AuthHandler ChargerTypes ChargerOps ChargerStates.

Module Chgr.

Import Chg ChgOps ChgStates.
#[local] Open Scope string_scope.
#[local] Open Scope Z_scope.

(** ** Construction

    [authorized_pnc] and [hlc_charging_terminate_pause] are not initialised: their first
    values are arguments.  [cable] is what the board measures. *)
Definition no_limits : DcEvseLimits :=
  {| evse_current_limit := zero; evse_power_limit := zero; evse_voltage_limit := zero;
     evse_discharge_current_limit := None; evse_discharge_power_limit := None |}.
Definition no_token : Auth.ProvidedIdToken :=
  {| Auth.p_request_id := None;
     Auth.p_id_token := {| Evse.value := ""; Evse.token_type := Evse.Central; Evse.additional_info := [] |};
     Auth.p_parent_id_token := None; Auth.p_authorization_type := Evse.OCPP; Auth.p_connectors := None;
     Auth.p_prevalidated := None; Auth.p_certificate := None |}.

Definition shared_new (pnc : bool) (tp : HlcTerminatePause) (cable : option double) : SharedContext :=
  {| legacy_wakeup_done := false; hlc_allow_close_contactor := false; iec_allow_close_contactor := false;
     contactor_open := true; hlc_charging_active := false; hlc_charging_terminate_pause := tp;
     hlc_session_paused_by_evse := false; hlc_dc_renegotiation := false;
     current_evse_max_limits := no_limits; current_evse_min_limits := no_limits; pwm_running := false;
     stop_transaction_id_token := None; id_token := no_token;
     validation_result := Auth.ValidationResult_of Evse.auth_Accepted None; flag_authorized := false;
     flag_externally_cancelled := false; flag_paused_by_evse := false; flag_ev_plugged_in := false;
     authorized_pnc := pnc; matching_started := false; slac_matched := false; dlink_established := false;
     max_current := flt 6 1; max_current_valid_until := 0; max_current_cable := cable;
     flag_transaction_active := false; session_active := false; session_uuid := "";
     connector_enabled := true; flag_disable_requested := false; current_state := Idle;
     last_stop_transaction_reason := None; last_start_session_reason := Auth.EVConnected;
     current_drawn_by_vehicle := (zero, zero, zero); shutdown_type := NoShutdown;
     last_shutdown_type := NoShutdown; ac_with_soc_timer := 3600000; ac_with_soc_timeout := false;
     switch_3ph1ph_threephase := false; switch_3ph1ph_threephase_ongoing := false;
     reinit_requested := false; reinit_running := false;
     reinit_config := {| state_transition := "CPStateF"; duration := 3000 |};
     stop_signed_meter_value := None; start_signed_meter_value := None; hlc_d20_active := false;
     hlc_d20_dynamic_mode := false |}.

Definition config_new : ConfigContext :=
  {| ac_enforce_hlc := false; ac_limit_slac_init_retries := true; ac_hlc_use_5percent := false;
     ac_hlc_enabled := false; charge_mode := AC; switch_3ph1ph_delay_s := 10;
     switch_3ph1ph_cp_state := "X1"; soft_over_current_timeout_ms := 7000; state_F_after_fault_ms := 300;
     reinit_duration_ms := 3000; reinit_method := "CPStateF"; fail_on_powermeter_errors := false;
     raise_mrec9 := false; sleep_before_enabling_pwm_hlc_mode_ms := 1000;
     hlc_charge_loop_without_energy_timeout_s := 300 |}.

Definition internal_new : InternalContext :=
  {| hlc_bcb_sequence_started := false; hlc_ev_pause_bcb_count := 0; hlc_ev_pause_start_of_bcb := 0;
     hlc_ev_pause_start_of_bcb_sequence := 0; wakeup_link_deadline := None;
     update_pwm_last_duty_cycle := zero; last_pwm_update := 0; t_step_EF_return_state := Idle;
     t_step_EF_return_pwm := zero; t_step_EF_return_ampere := zero;
     switching_phases_return_state := Disabled; t_step_X1_return_state := Idle;
     t_step_X1_return_pwm := zero; t_step_X1_until_unmatched := false; last_over_current_event := 0;
     over_current := false; detected_shutdown_type := NoShutdown; current_state_started := 0;
     last_state_detect_state_change := Idle; last_state := Disabled; no_energy_warning_printed := false;
     pwm_set_last_ampere := zero; t_step_ef_x1_pause := false; cp_state_F_active := false;
     pwm_switched_off_at := None; slac_retries := 0; slac_retries_exhausted := false;
     ac_x1_fallback_nominal_timeout_running := false; ac_x1_fallback_nominal_timeout_started := 0;
     hlc_charge_loop_no_energy_timeout_running := false; iso_charge_loop_no_energy_timeout_started := 0;
     fatal_error_became_active := 0; fatal_error_timer_running := false; reinit_timer_active := false;
     reinit_deadline := 0; last_charging_paused_evse_reasons := []; session_stop_pwm_off_deadline := None;
     stopping_for_evse_pause := false; stopping_charging_timeout_ms := STOPPING_CHARGING_TIMEOUT_MS;
     hlc_session_restarted_by_ev := false; d20_pause_ramp_start := None; d20_pause_notified := false;
     d20_pause_requested := false; d20_pause_confirmed := false |}.

Definition Charger_new (pnc : bool) (tp : HlcTerminatePause) (t : Connector_type) (cable : option double)
    (meters : nat) (now : Z) : Charger :=
  {| shared := shared_new pnc tp (if bool_decide (t = IEC62196Type2Socket) then cable else None);
     config := config_new; internal := internal_new; soft_over_current_tolerance_percent := flt 10 1;
     soft_over_current_measurement_noise_A := flt 5 10; dc_present_current_A := zero;
     supports_cp_state_E := false; hlc_use_5percent_current_session := false;
     ac_hlc_enabled_current_session := false; hlc_failed := false; last_dc_enforce_target_limits := 0;
     dc_pause_ramp_start := None; connector_type := t; active_enable_disable_source := default_source;
     enable_disable_source_table := []; billing_meters := meters; steady_now := now; system_now := now;
     pp_answers := []; meter_start_answers := []; meter_stop_answers := []; session_ids := [] |}.

(** ** Events of the control pilot *)
Definition process_cp_events_independent (ev : Iec.CPEvent) : op () :=
  match ev with
  | Iec.CarRequestedStopPower => assign (set_iec_allow_close_contactor false)
  | Iec.CarUnplugged => assign (set_flag_ev_plugged_in false)
  | Iec.PowerOff => assign (set_contactor_open true)
  | Iec.PowerOn => assign (set_contactor_open false)
  | _ => mret tt
  end.

Definition event_in_ChargingPausedEV (ev : Iec.CPEvent) : op () :=
  self s;
  match ev with
  | Iec.CarRequestedPower =>
      assign (set_iec_allow_close_contactor true) ;;
      if is_AC s && negb (hlc_charging_active s) then set_state PrepareCharging
      else cwhen (negb (pwm_running s)) bcb_toggle_detect_start_pulse
  | Iec.CarRequestedStopPower =>
      cwhen (negb (pwm_running s) && hlc_charging_active s) bcb_toggle_detect_stop_pulse
  | _ => mret tt
  end.

Definition process_cp_events_state (ev : Iec.CPEvent) : op () :=
  self s;
  match current_state s, ev with
  | Idle, Iec.CarPluggedIn =>
      set_state WaitingForAuthentication ;; assign (set_flag_ev_plugged_in true)
  | WaitingForAuthentication, Iec.CarRequestedPower => assign (set_iec_allow_close_contactor true)
  | WaitingForAuthentication, Iec.CarRequestedStopPower => assign (set_iec_allow_close_contactor false)
  | PrepareCharging, Iec.CarRequestedPower => assign (set_iec_allow_close_contactor true)
  | PrepareCharging, Iec.CarRequestedStopPower =>
      assign (set_iec_allow_close_contactor false) ;;
      assign (set_hlc_session_paused_by_evse false) ;;
      emit signal_dc_supply_off ;;
      cwhen (negb (hlc_dc_renegotiation s)) (set_state ChargingPausedEVSE)
  | Charging, (Iec.CarRequestedStopPower | Iec.BCDtoE) => assign (set_iec_allow_close_contactor false)
  | ChargingPausedEV, _ => event_in_ChargingPausedEV ev
  | StoppingCharging, Iec.CarRequestedPower =>
      cwhen (hlc_charging_active s && negb (pwm_running s)) bcb_toggle_detect_start_pulse
  | StoppingCharging, Iec.CarRequestedStopPower =>
      cwhen (hlc_charging_active s && negb (pwm_running s)) bcb_toggle_detect_stop_pulse
  | _, _ => mret tt
  end.

Definition process_event (ev : Iec.CPEvent) : op () :=
  process_cp_events_independent ev ;;
  run_state_machine ;;
  process_cp_events_state ev ;;
  run_state_machine.

(** What the main thread does first. *)
Definition start_main : op () :=
  emit (bsp_enable true) ;;
  self s;
  emit (signal_max_current (get_max_current_internal s)) ;;
  emit (signal_state (current_state s)).

(** A turn of the main loop without events, and one of the error thread. *)
Definition main_turn : op () := power_available ;; run_state_machine.

Definition error_event (e : ErrorHandlingEvents) : op () :=
  assign (set_shutdown_type (match e with
                             | ForceErrorShutdown => ErrorShutdown
                             | ForceEmergencyShutdown => EmergencyShutdown
                             | _ => NoShutdown
                             end)).

(** ** Requests of the other parts of EvseManager *)
Definition set_max_current (c : float) (valid_until : Z) : op bool :=
  self s;
  if steady_now s <? valid_until then
    assign (set_max_current (f_abs c)) ;;
    assign (set_max_current_valid_until valid_until) ;;
    self s;
    let c_abs := get_max_current_internal s in
    emit (bsp_set_overcurrent_limit c_abs) ;;
    emit (signal_max_current (if f_lt c zero then SFopp c_abs else c_abs)) ;;
    mret true
  else mret false.

Definition pause_charging : op bool :=
  self s;
  if flag_transaction_active s then assign (set_flag_paused_by_evse true) ;; mret true else mret false.

Definition resume_charging : op bool :=
  self s;
  if flag_transaction_active s then assign (set_flag_paused_by_evse false) ;; mret true else mret false.

Definition remember_stop (request : Auth.StopTransactionRequest) : op () :=
  assign (set_last_stop_transaction_reason (Some (Auth.reason request))) ;;
  assign (set_stop_transaction_id_token (Auth.id_tag request)).

Definition cancel_transaction (request : Auth.StopTransactionRequest) : op bool :=
  self s;
  if flag_transaction_active s then
    cwhen (hlc_charging_active s)
      (match Auth.reason request with
       | Auth.EmergencyStop => emit (signal_hlc_error Error_EmergencyShutdown)
       | Auth.PowerLoss => emit (signal_hlc_error Error_UtilityInterruptEvent)
       | _ => mret tt
       end) ;;
    assign (set_flag_externally_cancelled true) ;;
    authorize_flag false ;;
    assign (set_authorized_pnc false) ;;
    remember_stop request ;;
    mret true
  else if session_active s && state_is WaitingForAuthentication s then
    assign (set_flag_externally_cancelled true) ;;
    remember_stop request ;;
    emit signal_hlc_plug_in_timeout ;;
    mret true
  else mret false.

Definition switch_three_phases_while_charging (n : bool) : op bool :=
  self s;
  if hlc_charging_active s then mret false
  else
    (if state_is Charging s then
       assign (set_switch_3ph1ph_threephase n) ;;
       assign (set_switch_3ph1ph_threephase_ongoing true) ;;
       assign (set_switching_phases_return_state PrepareCharging) ;;
       set_state SwitchPhases
     else if state_is SwitchPhases s then assign (set_switch_3ph1ph_threephase n)
     else emit (bsp_switch_three_phases_while_charging n)) ;;
    mret true.

Definition start_reinit : op bool :=
  self s;
  if state_is Disabled s || state_is Idle s then mret false
  else if bool_decide (reinit_method s = "CPStateE") && negb (supports_cp_state_E s) then mret false
  else if reinit_running s then mret false
  else
    assign (set_reinit_config {| state_transition := reinit_method s; duration := reinit_duration_ms s |}) ;;
    assign (set_reinit_requested true) ;;
    mret true.

Record SetupConfig := {
  setup_config : ConfigContext;
  setup_has_ventilation : bool;
  setup_ac_with_soc_timeout : bool;
  setup_tolerance_percent : float;
  setup_measurement_noise_A : float;
}.

Definition setup (c : SetupConfig) : op () :=
  emit (bsp_setup (setup_has_ventilation c)) ;;
  assign (set_config (setup_config c)) ;;
  assign (set_ac_hlc_enabled_current_session (ac_hlc_enabled (setup_config c))) ;;
  assign (set_ac_with_soc_timeout (setup_ac_with_soc_timeout c)) ;;
  assign (set_ac_with_soc_timer 3600000) ;;
  assign (set_soft_over_current_tolerance_percent (setup_tolerance_percent c)) ;;
  assign (set_soft_over_current_measurement_noise_A (setup_measurement_noise_A c)) ;;
  self s;
  if is_DC s then assign (set_hlc_charging_active true)
  else cwhen (negb (ac_hlc_enabled s)) (assign (set_hlc_charging_active false)).

Definition authorize (a : bool) (token : Auth.ProvidedIdToken) (result : Auth.ValidationResult) : op bool :=
  self s;
  if a then
    if flag_externally_cancelled s || flag_disable_requested s then mret false
    else if negb (session_active s) && negb (state_is Idle s) then mret false
    else
      assign (set_id_token token) ;;
      assign (set_validation_result result) ;;
      cwhen (negb (session_active s)) (start_session true) ;;
      emit (signal_simple_event Auth.Authorized) ;;
      authorize_flag true ;;
      assign (set_authorized_pnc (bool_decide (Auth.p_authorization_type token = Evse.PlugAndCharge))) ;;
      mret true
  else
    cwhen (session_active s) stop_session ;;
    authorize_flag false ;;
    mret true.

Definition enable_disable_initial_state_publish : op () :=
  self s;
  let disabled := state_is Disabled s in
  let source := {| enable_source := Unspecified; enable_state := if disabled then Disable else Enable;
                   enable_priority := 10000 |} in
  emit (signal_simple_event (if disabled then Auth.Disabled else Auth.Enabled)) ;;
  enable_disable_source_table_update source ;;
  assign (set_active_enable_disable_source source).

Definition enable_disable (connector_id : Z) (source : EnableDisableSource) : op bool :=
  self s0;
  let last := enable_state (active_enable_disable_source s0) in
  enable_disable_source_table_update source ;;
  is_enabled ← parse_enable_disable_source_table;
  cwhen (negb (connector_id =? 0)) (assign (set_connector_enabled is_enabled)) ;;
  self s;
  cwhen (state_is Disabled s && connector_enabled s)
    (assign (set_flag_disable_requested false) ;;
     emit (bsp_enable true) ;;
     set_state Idle) ;;
  let active := enable_state (active_enable_disable_source s) in
  cwhen ((bool_decide (active = Disable) || bool_decide (last = Disable)) && negb (bool_decide (active = last)))
    ((if (is_enabled : bool) then emit (signal_simple_event Auth.Enabled)
      else
        assign (set_flag_disable_requested true) ;;
        assign (set_last_stop_transaction_reason (Some Auth.EVSEDisabled))) ;;
     run_state_machine) ;;
  mret is_enabled.

Definition set_slac_matched (matched : bool) : op () :=
  assign (Chg.set_slac_matched matched) ;;
  cwhen matched (assign (set_slac_retries 0)) ;;
  self s;
  assign (set_matching_started (matched || matching_started s)).

Definition notify_currentdemand_started : op () :=
  self s;
  cwhen (state_is PrepareCharging s) (assign (set_hlc_dc_renegotiation false) ;; set_state Charging).

(** ** The data link and high level communication *)
Definition oscillator_off_unless_retained : op () :=
  self s; cwhen (bool_decide (session_stop_pwm_off_deadline s = None)) cp_state_X1.

Definition dlink_pause : op () :=
  self s;
  cwhen (negb (state_is Idle s))
    (assign (set_hlc_allow_close_contactor false) ;;
     oscillator_off_unless_retained ;;
     assign (set_hlc_charging_terminate_pause Pause)).

Definition pnc_without_charging_loop (s : Charger) : bool :=
  is_AC s && state_is WaitingForAuthentication s && flag_authorized s && authorized_pnc s &&
  negb (hlc_charging_active s).

Definition stopping_for_good (s : Charger) : bool :=
  state_is StoppingCharging s &&
  (negb (flag_transaction_active s) || negb (flag_authorized s) || flag_disable_requested s).

(** [dlink_error]: its critical section, which tells whether the reinitialisation is
    requested after it, and the request. *)
Definition dlink_error_section : op bool :=
  assign (set_dlink_established false) ;;
  self s;
  if reinit_requested s || reinit_running s || state_is Idle s then mret false
  else
    assign (set_session_stop_pwm_off_deadline None) ;;
    assign (set_hlc_allow_close_contactor false) ;;
    assign (set_hlc_failed true) ;;
    if stopping_for_good s || state_is Finished s then
      cwhen (pwm_running s) cp_state_X1 ;;
      cwhen (is_DC s) (emit signal_dc_supply_off) ;;
      power_off ;;
      mret false
    else if pnc_without_charging_loop s then
      assign (set_hlc_use_5percent_current_session false) ;;
      return_from_EF_to PrepareCharging zero zero ;;
      assign (set_t_step_X1_until_unmatched true) ;;
      set_state T_step_X1 ;;
      mret false
    else
      cwhen (is_AC s) (assign (set_hlc_charging_active false)) ;;
      if hlc_use_5percent_current_session s then
        cp_state_X1 ;;
        if state_is WaitingForAuthentication s || state_is PrepareCharging s then
          return_from_EF_to WaitingForAuthentication zero zero ;;
          assign (set_t_step_X1_until_unmatched true) ;;
          set_state T_step_X1 ;;
          mret false
        else mret true
      else mret false.

Definition dlink_error : op () :=
  reinit ← dlink_error_section;
  if (reinit : bool) then start_reinit ;; mret tt else mret tt.

Definition dlink_terminate : op bool :=
  assign (set_dlink_established false) ;;
  self s;
  if state_is Idle s then mret false
  else
    let link_lost_during_setup :=
      state_is PrepareCharging s && flag_ev_plugged_in s && negb (session_stopped s) &&
      bool_decide (session_stop_pwm_off_deadline s = None) in
    if pnc_without_charging_loop s then
      assign (set_session_stop_pwm_off_deadline None) ;;
      assign (set_hlc_allow_close_contactor false) ;;
      assign (set_hlc_use_5percent_current_session false) ;;
      return_from_EF_to PrepareCharging zero zero ;;
      set_state T_step_EF ;;
      mret false
    else if negb link_lost_during_setup then
      assign (set_hlc_allow_close_contactor false) ;;
      oscillator_off_unless_retained ;;
      assign (set_hlc_charging_terminate_pause Terminate) ;;
      mret false
    else dlink_error ;; mret true.

Definition notify_session_stop_res_sent (action : SessionStopAction) : op () :=
  self s;
  cwhen (negb (state_is Idle s) && hlc_charging_active s)
    (assign (set_hlc_allow_close_contactor false) ;;
     match action with
     | ActionFailedTermination => assign (set_hlc_charging_terminate_pause Terminate) ;; cp_state_X1
     | _ =>
         assign (set_hlc_charging_terminate_pause
                   (match action with ActionPause => Pause | _ => Terminate end)) ;;
         assign (set_session_stop_pwm_off_deadline (Some (steady_now s + V2G_SECC_CP_OSCILLATOR_RETAIN)))
     end).

Definition notify_hlc_session_started_by_ev : op () :=
  self s;
  cwhen (state_is ChargingPausedEV s && hlc_charging_active s && session_stopped s)
    (assign (set_hlc_session_restarted_by_ev true)).

Definition dc_open_contactor_request : op () :=
  assign (set_hlc_allow_close_contactor false) ;; power_off.

Definition dc_renegotiation_started : op () :=
  self s;
  cwhen (state_is Charging s)
    (assign (set_hlc_dc_renegotiation true) ;;
     assign (set_hlc_allow_close_contactor false) ;;
     power_off ;;
     set_state PrepareCharging).

Definition notify_hlc_pause_notified : op () :=
  self s; cwhen (d20_pause_requested s) (assign (set_d20_pause_confirmed true)).

(** ** All requests *)
Inductive request :=
| StartMain
| CpEvent (ev : Iec.CPEvent)
| MainTurn
| ErrorEvents (es : list ErrorHandlingEvents)
| SetMaxCurrent (c : float) (valid_until : Z)
| PauseCharging
| ResumeCharging
| CancelTransaction (r : Auth.StopTransactionRequest)
| SwitchThreePhases (n : bool)
| StartReinit
| Setup (c : SetupConfig)
| Authorize (a : bool) (token : Auth.ProvidedIdToken) (result : Auth.ValidationResult)
| Deauthorize
| InitialStatePublish
| EnableDisable (connector_id : Z) (source : EnableDisableSource)
| SetCurrentDrawn (l1 l2 l3 : float)
| RequestErrorSequence
| SetDlinkReady (ready : bool)
| SetMatchingStarted (m : bool)
| SetSlacMatched (matched : bool)
| NotifyCurrentdemandStarted
| ResetDcEnforceTimer
| InformMaxLimits (l : DcEvseLimits)
| InformMinLimits (l : DcEvseLimits)
| DlinkPause
| DlinkTerminate
| DlinkError
| NotifySessionStopResSent (action : SessionStopAction)
| NotifyHlcSessionStartedByEv
| SetHlcChargingActive
| SetHlcAllowCloseContactor (on : bool)
| DcOpenContactorRequest
| DcRenegotiationStarted
| SetHlcD20Active (dynamic_control_mode : bool)
| NotifyHlcPauseNotified
| UpdateDcPresentCurrent (c : float)
| SetConnectorType (t : Connector_type)
| SetSupportsCpStateE (b : bool)
| StopChargingOnFatalError
| CleanupOnStartup (stored : string)
| Environment (steady system : Z) (pp : list (option double)) (start : list TransactionStartResponse)
    (stop : list TransactionStopResponse) (ids : list string).

Definition quiet {A} (m : op A) : op () := m ;; mret tt.

(** The clocks move on, and the next answers of the outside become known. *)
Definition environment (steady system : Z) (pp : list (option double)) (start : list TransactionStartResponse)
    (stop : list TransactionStopResponse) (ids : list string) : op () :=
  assign (set_steady_now steady) ;; assign (set_system_now system) ;; assign (set_pp_answers pp) ;;
  assign (set_meter_start_answers start) ;; assign (set_meter_stop_answers stop) ;; assign (set_session_ids ids).

Definition handle (rq : request) : op () :=
  match rq with
  | StartMain => start_main
  | CpEvent ev => process_event ev
  | MainTurn => main_turn
  | ErrorEvents es => cfor es error_event
  | SetMaxCurrent c t => quiet (set_max_current c t)
  | PauseCharging => quiet pause_charging
  | ResumeCharging => quiet resume_charging
  | CancelTransaction r => quiet (cancel_transaction r)
  | SwitchThreePhases n => quiet (switch_three_phases_while_charging n)
  | StartReinit => quiet start_reinit
  | Setup c => setup c
  | Authorize a token result => quiet (authorize a token result)
  | Deauthorize => quiet deauthorize_internal
  | InitialStatePublish => enable_disable_initial_state_publish
  | EnableDisable c source => quiet (enable_disable c source)
  | SetCurrentDrawn l1 l2 l3 => assign (set_current_drawn_by_vehicle (l1, l2, l3))
  | RequestErrorSequence => request_error_sequence_internal
  | SetDlinkReady ready => cwhen ready (assign (set_dlink_established true))
  | SetMatchingStarted m => assign (set_matching_started m)
  | SetSlacMatched m => set_slac_matched m
  | NotifyCurrentdemandStarted => notify_currentdemand_started
  | ResetDcEnforceTimer => self s; assign (set_last_dc_enforce_target_limits (steady_now s))
  | InformMaxLimits l => assign (set_current_evse_max_limits l)
  | InformMinLimits l => assign (set_current_evse_min_limits l)
  | DlinkPause => dlink_pause
  | DlinkTerminate => quiet dlink_terminate
  | DlinkError => dlink_error
  | NotifySessionStopResSent a => notify_session_stop_res_sent a
  | NotifyHlcSessionStartedByEv => notify_hlc_session_started_by_ev
  | SetHlcChargingActive => assign (set_hlc_charging_active true)
  | SetHlcAllowCloseContactor on => assign (set_hlc_allow_close_contactor on)
  | DcOpenContactorRequest => dc_open_contactor_request
  | DcRenegotiationStarted => dc_renegotiation_started
  | SetHlcD20Active b => assign (set_hlc_d20_active true) ;; assign (set_hlc_d20_dynamic_mode b)
  | NotifyHlcPauseNotified => notify_hlc_pause_notified
  | UpdateDcPresentCurrent c => assign (set_dc_present_current_A c)
  | SetConnectorType t => assign (set_connector_type t)
  | SetSupportsCpStateE b => assign (set_supports_cp_state_E b)
  | StopChargingOnFatalError => quiet stop_charging_on_fatal_error_internal
  | CleanupOnStartup stored => cleanup_transactions_on_startup stored
  | Environment steady system pp start stop ids => environment steady system pp start stop ids
  end.

Definition step (rq : request) (s : Charger) : Charger * list call :=
  let '(_, s', o) := handle rq s in (s', o).

Fixpoint run (rqs : list request) (s : Charger) : Charger * list call :=
  match rqs with
  | [] => (s, [])
  | rq :: rqs' => let '(s1, o1) := step rq s in let '(s2, o2) := run rqs' s1 in (s2, o1 ++ o2)%list
  end.

End Chgr.
