(* ===== verification/ChargerCore.v ===== *)
(** * What the charger's theorems look at

    [core]: the members the theorems are about.  [view]: what the outside has seen of the
    calls: the permission to close the contactors, the session events, the stored session.
    [At c v]: the state has core [c] and the outside has seen [v].  The lemmas say what the
    charger's operations do to both; [walk] follows the text of an operation. *)

From Stdlib Require Import String Floats.SpecFloat.
From S2P Require Import Prelude Float32 IecStateMachine EvseContext AuthHandler ChargerTypes ChargerOps ChargerStates.

Module ChgCore.

Import Chg ChgOps ChgStates.

(** ** The session protocol

    What EvseManager promises the modules that follow its session events: a session is
    opened before anything else, a transaction is started only in an open session that was
    authorized, one at a time, and finished before the session is. *)
Record protocol := { session_open : bool; session_authorized : bool; transaction_open : bool }.

Definition obey (p : protocol) (c : call) : option protocol :=
  match c with
  | signal_session_started_event _ _ =>
      if session_open p then None
      else Some {| session_open := true; session_authorized := false; transaction_open := transaction_open p |}
  | signal_simple_event Auth.Authorized =>
      if session_open p
      then Some {| session_open := true; session_authorized := true; transaction_open := transaction_open p |}
      else None
  | signal_transaction_started_event _ _ =>
      if session_open p && session_authorized p && negb (transaction_open p)
      then Some {| session_open := true; session_authorized := true; transaction_open := true |}
      else None
  | signal_transaction_finished_event _ _ _ =>
      if transaction_open p
      then Some {| session_open := session_open p; session_authorized := session_authorized p;
                   transaction_open := false |}
      else None
  | signal_simple_event Auth.SessionFinished =>
      if transaction_open p then None
      else Some {| session_open := false; session_authorized := false; transaction_open := false |}
  | _ => Some p
  end.

(** ** The view *)
Record view := {
  permission : bool;             (* what [allow_power_on] was last called with *)
  granted : bool;                (* it was called with [true] since the view was refreshed *)
  proto : option protocol;       (* [None]: the protocol was violated *)
  stored : string;               (* the session in the persistent store *)
}.

Definition see (v : view) (c : call) : view :=
  match c with
  | bsp_allow_power_on b _ =>
      {| permission := b; granted := granted v || b; proto := proto v; stored := stored v |}
  | signal_session_started_event _ _ | signal_simple_event (Auth.Authorized | Auth.SessionFinished)
  | signal_transaction_started_event _ _ | signal_transaction_finished_event _ _ _ =>
      {| permission := permission v; granted := granted v; proto := (match proto v with Some p => obey p c | None => None end); stored := stored v |}
  | store_session id => {| permission := permission v; granted := granted v; proto := proto v; stored := id |}
  | clear_session => {| permission := permission v; granted := granted v; proto := proto v; stored := ""%string |}
  | _ => v
  end.

(** ** The core *)

(** Whether there is power once an expired budget has been taken back; the limit of the
    cable counts unless the charger is idle. *)
Definition expired (s : Charger) : bool := 0 <? count_s (steady_now s - max_current_valid_until s).
Definition budget (s : Charger) : float :=
  if expired s && f_lt zero (max_current s) then zero else max_current s.
Definition power_now (s : Charger) : bool :=
  match charge_mode s with
  | AC =>
      let cable := default Iec.dbl_0 (max_current_cable s) in
      d_lt (dbl 59 10) (to_double
        (if bool_decide (connector_type s = IEC62196Type2Socket) && d_lt cable (to_double (budget s))
         then to_float cable else budget s))
  | DC => f_lt zero (evse_current_limit (current_evse_max_limits s)) &&
          f_lt zero (evse_power_limit (current_evse_max_limits s))
  end.

Record core := {
  c_state : EvseState;
  c_last : EvseState;
  c_authorized : bool;
  c_transaction : bool;
  c_session : bool;
  c_uuid : string;
  c_plugged : bool;
  c_disable : bool;
  c_fatal : bool;
  c_told : bool;   (* of the fatal error: [last_shutdown_type] *)
  c_paused : bool;
  c_confirmed : bool;
  c_for_pause : bool;
  c_restarted : bool;
  c_bcb : bool;
  c_power : bool;
  c_until : bool;
  c_EF : EvseState;
  c_X1 : EvseState;
  c_phases : EvseState;
  c_reinit : bool;
  c_matched : bool;
  c_soc : bool;
}.

Definition core_of (s : Charger) : core :=
  {| c_state := current_state s; c_last := last_state_detect_state_change s;
     c_authorized := flag_authorized s; c_transaction := flag_transaction_active s;
     c_session := session_active s; c_uuid := session_uuid s; c_plugged := flag_ev_plugged_in s;
     c_disable := flag_disable_requested s; c_fatal := negb (bool_decide (shutdown_type s = NoShutdown));
     c_told := negb (bool_decide (last_shutdown_type s = NoShutdown));
     c_paused := flag_paused_by_evse s; c_confirmed := d20_pause_confirmed s;
     c_for_pause := stopping_for_evse_pause s; c_restarted := hlc_session_restarted_by_ev s;
     c_bcb := hlc_bcb_sequence_started s; c_power := power_now s; c_until := t_step_X1_until_unmatched s;
     c_EF := t_step_EF_return_state s; c_X1 := t_step_X1_return_state s;
     c_phases := switching_phases_return_state s; c_reinit := reinit_requested s;
     c_matched := slac_matched s; c_soc := ac_with_soc_timeout s |}.

Definition At (c : core) (v : view) : Charger → view → Prop := λ s w, core_of s = c ∧ w = v.

Notation "'{{' P '}}' m '{{' x , Q '}}'" := (leads see P m (λ x, Q))
  (at level 20, P at level 100, x name, Q at level 200, format "'[hv' {{  P  }}  '/' m  '/' {{  x ,  Q  }} ']'").

(** Operations that neither change the core nor show anything. *)
Class Silent {A} (m : op A) : Prop := silent : ∀ c v, Tracks see (At c v) m.
#[local] Hint Constants Opaque : typeclass_instances.
#[global] Instance silent_tracks {A} (m : op A) c v : Silent m → Tracks see (At c v) m.
Proof. intros H. apply H. Qed.

Ltac silent_leaf := let s := fresh in let w := fresh in intros s w [<- ->]; split; reflexivity.
Ltac silent_op := intros c v; track silent_leaf.

#[global] Instance silent_ret {A} (a : A) : Silent (mret a).
Proof. intros c v. apply _. Qed.
#[global] Instance silent_bind {A B} (m : op A) (k : A → op B) : Silent m → (∀ a, Silent (k a)) → Silent (m ≫= k).
Proof. intros Hm Hk c v. apply tracks_bind; [apply Hm|intros; apply Hk]. Qed.
#[global] Instance silent_when b (m : op ()) : Silent m → Silent (cwhen b m).
Proof. intros Hm c v. apply tracks_when, Hm. Qed.
#[global] Hint Extern 5 (Silent (emit _)) => (intros ? ?; unfold emit; apply tracks_emit; silent_leaf) : typeclass_instances.
#[global] Hint Extern 5 (Silent (assign _)) => (intros ? ?; unfold assign; apply tracks_modify; silent_leaf) : typeclass_instances.

#[global] Instance silent_X1 : Silent cp_state_X1. Proof. silent_op. Qed.
#[global] Instance silent_F : Silent cp_state_F. Proof. silent_op. Qed.
#[global] Instance silent_E : Silent cp_state_E. Proof. silent_op. Qed.
#[global] Instance silent_pwm d : Silent (update_pwm_now d). Proof. silent_op. Qed.
#[global] Instance silent_pwm_changed d : Silent (update_pwm_now_if_changed d). Proof. silent_op. Qed.
#[global] Instance silent_pwm_ampere d : Silent (update_pwm_now_if_changed_ampere d). Proof. silent_op. Qed.
#[global] Instance silent_pwm_5s d : Silent (update_pwm_max_every_5seconds_ampere d). Proof. silent_op. Qed.
#[global] Instance silent_over_current : Silent check_soft_over_current. Proof. silent_op. Qed.
#[global] Instance silent_reinit_method : Silent apply_configured_reinit_method. Proof. silent_op. Qed.
#[global] Instance silent_marker : Silent resume_evse_pause_marker. Proof. silent_op. Qed.
#[global] Instance silent_stop_pulse : Silent bcb_toggle_detect_stop_pulse. Proof. silent_op. Qed.
#[global] Instance silent_pause_stops : Silent pause_stops. Proof. silent_op. Qed.
#[global] Instance silent_no_energy : Silent go_on_without_energy. Proof. silent_op. Qed.
#[global] Instance silent_fault_F : Silent signal_fault_in_F. Proof. silent_op. Qed.
#[global] Instance silent_at_zero t : Silent (request_pause_at_zero t). Proof. silent_op. Qed.
#[global] Instance silent_phase_switch : Silent finish_phase_switch. Proof. silent_op. Qed.
#[global] Instance silent_retain : Silent retain_time_over. Proof. silent_op. Qed.
#[global] Instance silent_ramp : Silent publish_pause_ramp. Proof. silent_op. Qed.
#[global] Instance silent_session_id : Silent generate_session_id. Proof. silent_op. Qed.
#[global] Instance silent_call_start req : Silent (call_start_transaction req). Proof. silent_op. Qed.
#[global] Instance silent_call_stop id : Silent (call_stop_transaction id). Proof. silent_op. Qed.
#[global] Instance silent_meters_start req n : Silent (start_on_meters req n).
Proof. intros c v. induction n as [|n IH]; cbn [start_on_meters]; [apply silent_ret|track silent_leaf]. Qed.
#[global] Instance silent_meters_stop id b n : Silent (stop_on_meters id b n).
Proof. intros c v. induction n as [|n IH]; cbn [stop_on_meters]; [apply silent_ret|track silent_leaf]. Qed.

(** ** Changes of the core *)
Definition eta_core (c : core) : core :=
  {| c_state := c_state c; c_last := c_last c; c_authorized := c_authorized c; c_transaction := c_transaction c;
     c_session := c_session c; c_uuid := c_uuid c; c_plugged := c_plugged c; c_disable := c_disable c;
     c_fatal := c_fatal c; c_told := c_told c; c_paused := c_paused c; c_confirmed := c_confirmed c;
     c_for_pause := c_for_pause c; c_restarted := c_restarted c; c_bcb := c_bcb c; c_power := c_power c;
     c_until := c_until c; c_EF := c_EF c; c_X1 := c_X1 c; c_phases := c_phases c; c_reinit := c_reinit c;
     c_matched := c_matched c; c_soc := c_soc c |}.

Definition up_state x c : core := ltac:(set_field eta_core c_state x c).
Definition up_last x c : core := ltac:(set_field eta_core c_last x c).
Definition up_authorized x c : core := ltac:(set_field eta_core c_authorized x c).
Definition up_transaction x c : core := ltac:(set_field eta_core c_transaction x c).
Definition up_session x c : core := ltac:(set_field eta_core c_session x c).
Definition up_uuid x c : core := ltac:(set_field eta_core c_uuid x c).
Definition up_plugged x c : core := ltac:(set_field eta_core c_plugged x c).
Definition up_disable x c : core := ltac:(set_field eta_core c_disable x c).
Definition up_fatal x c : core := ltac:(set_field eta_core c_fatal x c).
Definition up_told x c : core := ltac:(set_field eta_core c_told x c).
Definition up_paused x c : core := ltac:(set_field eta_core c_paused x c).
Definition up_confirmed x c : core := ltac:(set_field eta_core c_confirmed x c).
Definition up_for_pause x c : core := ltac:(set_field eta_core c_for_pause x c).
Definition up_restarted x c : core := ltac:(set_field eta_core c_restarted x c).
Definition up_bcb x c : core := ltac:(set_field eta_core c_bcb x c).
Definition up_power x c : core := ltac:(set_field eta_core c_power x c).
Definition up_until x c : core := ltac:(set_field eta_core c_until x c).
Definition up_EF x c : core := ltac:(set_field eta_core c_EF x c).
Definition up_X1 x c : core := ltac:(set_field eta_core c_X1 x c).
Definition up_phases x c : core := ltac:(set_field eta_core c_phases x c).
Definition up_reinit x c : core := ltac:(set_field eta_core c_reinit x c).
Definition up_matched x c : core := ltac:(set_field eta_core c_matched x c).
Definition up_soc x c : core := ltac:(set_field eta_core c_soc x c).

(** Reading the state through its core. *)
Definition c_ended (c : core) : bool := negb (c_plugged c) || c_disable c.
Definition c_must_end (c : core) : bool := negb (c_authorized c) || negb (c_transaction c) || c_ended c.

Ltac read_core s H :=
  change (must_end s) with (c_must_end (core_of s));
  change (not_plugged_or_disabled s) with (c_ended (core_of s));
  change (current_state (shared s)) with (c_state (core_of s));
  change (last_state_detect_state_change (internal s)) with (c_last (core_of s));
  change (flag_authorized (shared s)) with (c_authorized (core_of s));
  change (flag_transaction_active (shared s)) with (c_transaction (core_of s));
  change (session_active (shared s)) with (c_session (core_of s));
  change (session_uuid (shared s)) with (c_uuid (core_of s));
  change (flag_ev_plugged_in (shared s)) with (c_plugged (core_of s));
  change (flag_disable_requested (shared s)) with (c_disable (core_of s));
  change (negb (bool_decide (shutdown_type (shared s) = NoShutdown))) with (c_fatal (core_of s));
  change (flag_paused_by_evse (shared s)) with (c_paused (core_of s));
  change (d20_pause_confirmed (internal s)) with (c_confirmed (core_of s));
  change (stopping_for_evse_pause (internal s)) with (c_for_pause (core_of s));
  change (hlc_session_restarted_by_ev (internal s)) with (c_restarted (core_of s));
  change (hlc_bcb_sequence_started (internal s)) with (c_bcb (core_of s));
  change (t_step_X1_until_unmatched (internal s)) with (c_until (core_of s));
  change (t_step_EF_return_state (internal s)) with (c_EF (core_of s));
  change (t_step_X1_return_state (internal s)) with (c_X1 (core_of s));
  change (switching_phases_return_state (internal s)) with (c_phases (core_of s));
  change (reinit_requested (shared s)) with (c_reinit (core_of s));
  change (slac_matched (shared s)) with (c_matched (core_of s));
  change (ac_with_soc_timeout (shared s)) with (c_soc (core_of s));
  unfold state_is;
  change (current_state (shared s)) with (c_state (core_of s));
  rewrite ?H.

(** ** Following the text *)
Lemma get_at {B} c v (k : Charger → op B) Q :
  (∀ s, core_of s = c → leads see (At c v) (k s) Q) → leads see (At c v) (cget ≫= k) Q.
Proof.
  intros Hk. apply leads_get. intros s0. apply leads_assume with (core_of s0 = c); [by intros s w [-> [? _]]|].
  intros Hs. apply leads_forget. by apply Hk.
Qed.

Lemma leads_from {A} P (m : op A) Q :
  (∀ s w, P s w → leads see (At (core_of s) w) m Q) → leads see P m Q.
Proof. intros H s w Hs. by apply (H s w Hs). Qed.

Lemma ret_at {A} c v (a : A) (Q : A → Charger → view → Prop) :
  (∀ s, core_of s = c → Q a s v) → leads see (At c v) (mret a : op A) Q.
Proof. intros H. apply leads_ret. intros s w [Hs ->]. by apply H. Qed.

Lemma ret_then {A B} P (a : A) (k : A → op B) Q : leads see P (k a) Q → leads see P (mret a ≫= k) Q.
Proof. intros H s w Hs. rewrite bind_ret. by apply H. Qed.

Lemma last_at {A} P (m : op A) Q : leads see P (m ≫= λ a, mret a) Q → leads see P m Q.
Proof.
  intros H s w Hs. destruct (H s w Hs) as (a & s' & o & E & HQ). unfold mbind, cmd_mbind, cmd_bind in E.
  destruct (m s) as [[[a'|[]|] s1] o1]; [|done]. cbn in E. rewrite app_nil_r in E. injection E as -> -> ->. eauto.
Qed.

Lemma assoc_at {A B C} P (m : op A) (f : A → op B) (k : B → op C) Q :
  leads see P (m ≫= λ a, f a ≫= k) Q → leads see P ((m ≫= f) ≫= k) Q.
Proof.
  intros H s w Hs. destruct (H s w Hs) as (a & s' & o & E & HQ). exists a, s', o. split; [|done]. rewrite <- E.
  unfold mbind, cmd_mbind, cmd_bind. destruct (m s) as [[[a'|[]|] s1] o1]; [|done].
  destruct (f a' s1) as [[[b|[]|] s2] o2]; [|done]. destruct (k b s2) as [[r s3] o3]. by rewrite app_assoc.
Qed.

Lemma emit_then {B} c v o (k : () → op B) Q :
  leads see (At c (see v o)) (k tt) Q → leads see (At c v) (emit o ≫= k) Q.
Proof.
  intros H. eapply leads_bind with (Q := λ _, At c (see v o)).
  - apply leads_emit. intros s w [Hs ->]. by split.
  - by intros [].
Qed.

Lemma silent_then {A B} c v (m : op A) (k : A → op B) Q :
  Silent m → (∀ a, leads see (At c v) (k a) Q) → leads see (At c v) (m ≫= k) Q.
Proof. intros Hm Hk. eapply leads_bind; [apply Hm|done]. Qed.

(** Operations that show nothing and do one of several things to the core, or only change
    what the power is calculated from. *)
Class Outcomes {A} (m : op A) (f : core → list core) : Prop :=
  outcomes : ∀ c v, leads see (At c v) m (λ _ s w, ∃ c', c' ∈ f c ∧ At c' v s w).
#[global] Hint Mode Outcomes ! ! - : typeclass_instances.
Class Powers {A} (m : op A) : Prop :=
  powers : ∀ c v, leads see (At c v) m (λ _ s w, ∃ b, At (up_power b c) v s w).

Lemma outcomes_then {A B} c v (m : op A) f (k : A → op B) Q :
  Outcomes m f → (∀ a, Forall (λ c', leads see (At c' v) (k a) Q) (f c)) → leads see (At c v) (m ≫= k) Q.
Proof.
  intros Hm Hk. eapply leads_bind; [apply Hm|]. intros a s w (c' & Hc & Hat).
  by eapply (proj1 (Forall_forall _ _) (Hk a) c' Hc).
Qed.
Lemma powers_then {A B} c v (m : op A) (k : A → op B) Q :
  Powers m → (∀ a b, leads see (At (up_power b c) v) (k a) Q) → leads see (At c v) (m ≫= k) Q.
Proof.
  intros Hm Hk. eapply leads_bind; [apply Hm|]. intros a s w (b & Hat). by apply (Hk a b).
Qed.

(** What an assignment does to the core. *)
Class Moves (f : Charger → Charger) (g : core → core) : Prop := moves s : core_of (f s) = g (core_of s).
#[global] Hint Mode Moves ! - : typeclass_instances.

#[global] Instance moves_state x : Moves (set_current_state x) (up_state x). Proof. done. Qed.
#[global] Instance moves_last x : Moves (set_last_state_detect_state_change x) (up_last x). Proof. done. Qed.
#[global] Instance moves_authorized x : Moves (set_flag_authorized x) (up_authorized x). Proof. done. Qed.
#[global] Instance moves_transaction x : Moves (set_flag_transaction_active x) (up_transaction x). Proof. done. Qed.
#[global] Instance moves_session x : Moves (set_session_active x) (up_session x). Proof. done. Qed.
#[global] Instance moves_uuid x : Moves (set_session_uuid x) (up_uuid x). Proof. done. Qed.
#[global] Instance moves_plugged x : Moves (set_flag_ev_plugged_in x) (up_plugged x). Proof. done. Qed.
#[global] Instance moves_disable x : Moves (set_flag_disable_requested x) (up_disable x). Proof. done. Qed.
#[global] Instance moves_shutdown x :
  Moves (set_shutdown_type x) (up_fatal (negb (bool_decide (x = NoShutdown)))). Proof. done. Qed.
#[global] Instance moves_told x :
  Moves (set_last_shutdown_type x) (up_told (negb (bool_decide (x = NoShutdown)))). Proof. done. Qed.
#[global] Instance moves_paused x : Moves (set_flag_paused_by_evse x) (up_paused x). Proof. done. Qed.
#[global] Instance moves_confirmed x : Moves (set_d20_pause_confirmed x) (up_confirmed x). Proof. done. Qed.
#[global] Instance moves_for_pause x : Moves (set_stopping_for_evse_pause x) (up_for_pause x). Proof. done. Qed.
#[global] Instance moves_restarted x : Moves (set_hlc_session_restarted_by_ev x) (up_restarted x). Proof. done. Qed.
#[global] Instance moves_bcb x : Moves (set_hlc_bcb_sequence_started x) (up_bcb x). Proof. done. Qed.
#[global] Instance moves_until x : Moves (set_t_step_X1_until_unmatched x) (up_until x). Proof. done. Qed.
#[global] Instance moves_EF x : Moves (set_t_step_EF_return_state x) (up_EF x). Proof. done. Qed.
#[global] Instance moves_X1 x : Moves (set_t_step_X1_return_state x) (up_X1 x). Proof. done. Qed.
#[global] Instance moves_phases x : Moves (set_switching_phases_return_state x) (up_phases x). Proof. done. Qed.
#[global] Instance moves_reinit x : Moves (set_reinit_requested x) (up_reinit x). Proof. done. Qed.
#[global] Instance moves_matched x : Moves (set_slac_matched x) (up_matched x). Proof. done. Qed.
#[global] Instance moves_soc x : Moves (set_ac_with_soc_timeout x) (up_soc x). Proof. done. Qed.

Lemma assign_then {B} c v f g (k : () → op B) Q :
  Moves f g → leads see (At (g c) v) (k tt) Q → leads see (At c v) (assign f ≫= k) Q.
Proof.
  intros Hf H. eapply leads_bind with (Q := λ _, At (g c) v).
  - apply leads_modify. intros s w [<- ->]. by split.
  - by intros [].
Qed.

(** An assignment to what the power is calculated from. *)
Lemma power_moves {B} c v f (k : () → op B) Q :
  (∀ s, core_of (f s) = up_power (power_now (f s)) (core_of s)) →
  (∀ b, leads see (At (up_power b c) v) (k tt) Q) → leads see (At c v) (assign f ≫= k) Q.
Proof.
  intros Hf H. eapply leads_bind with (Q := λ _ s w, ∃ b, At (up_power b c) v s w).
  - apply leads_modify. intros s w [<- ->]. eexists. split; [apply Hf|done].
  - intros [] s w [b Hs]. by apply (H b).
Qed.

(** ** Power and fatal errors *)
Lemma power_expired (s : Charger) :
  expired s && f_lt zero (max_current s) = true → power_now (set_max_current zero s) = power_now s.
Proof.
  intros H. unfold power_now, budget.
  change (expired (set_max_current zero s)) with (expired s). rewrite H.
  change (max_current (set_max_current zero s)) with zero. change (f_lt zero zero) with false.
  by rewrite andb_false_r.
Qed.

Lemma has_power_now (s : Charger) :
  current_state s ≠ Idle → expired s && f_lt zero (max_current s) = false → has_power s = power_now s.
Proof.
  intros Hs H. unfold has_power, power_now, get_max_current_internal, budget, state_is. rewrite H.
  rewrite (bool_decide_eq_false_2 (current_state s = Idle)) by done. cbn [negb]. by rewrite andb_true_r.
Qed.

Lemma power_at c v :
  leads see (At c v) power_available (λ b s w, At c v s w ∧ (c_state c ≠ Idle → b = c_power c)).
Proof.
  intros s w [Hc ->]. destruct (expired s && f_lt zero (max_current s)) eqn:E.
  - exists (has_power (set_max_current zero s)), (set_max_current zero s), [signal_max_current zero].
    assert (core_of (set_max_current zero s) = c) as Hc'.
    { rewrite <- Hc. pose proof (power_expired s E) as Hp. unfold core_of. by rewrite Hp. }
    split.
    + unfold power_available. rewrite bind_get. fold (expired s). by rewrite E.
    + split; [by split|]. intros Hi. rewrite <- Hc'. apply has_power_now; [by rewrite <- Hc in Hi|].
      change (max_current (set_max_current zero s)) with zero. apply andb_false_r.
  - exists (has_power s), s, []. split; [|split; [by split|]].
    + unfold power_available. rewrite bind_get. fold (expired s). by rewrite E.
    + intros Hi. rewrite <- Hc. apply has_power_now; [by rewrite <- Hc in Hi|done].
Qed.

#[global] Instance silent_power : Silent power_available.
Proof. intros c v. eapply leads_conseq; [apply power_at|done|]. by intros b s w [? _]. Qed.
#[global] Instance silent_energy : Silent energy_or_stop. Proof. silent_op. Qed.
#[global] Instance silent_know_energy t : Silent (know_energy t). Proof. silent_op. Qed.

Lemma power_then {B} c v (k : bool → op B) Q :
  c_state c ≠ Idle → leads see (At c v) (k (c_power c)) Q → leads see (At c v) (power_available ≫= k) Q.
Proof.
  intros Hi H. eapply leads_bind; [apply power_at|]. intros b. apply leads_assume with (b = c_power c).
  - intros s w [_ Hb]. by apply Hb.
  - intros ->. eapply leads_conseq; [exact H| |done]. by intros s w [? _].
Qed.

(** Calls that leave the view alone, apart from withdrawing the permission. *)
Definition allow (b : bool) (v : view) : view :=
  {| permission := b; granted := granted v; proto := proto v; stored := stored v |}.

(** A fatal error withdraws the permission when it is new; [must]: it has to be withdrawn. *)
Definition Dims (must : bool) (c : core) (v : view) (s : Charger) (w : view) : Prop :=
  ∃ b, (b = true → permission v = true ∧ must = false) ∧ At c (allow b v) s w.

Lemma power_off_dims must c v : leads see (At c v) power_off (λ _, Dims must c v).
Proof.
  apply leads_emit. intros s w [Hs ->]. exists false. split; [done|]. split; [done|].
  unfold allow. cbn. by rewrite orb_false_r.
Qed.

Lemma dims_then must c v (post : op ()) :
  Silent post → leads see (At c v) (power_off ;; post) (λ _, Dims must c v).
Proof.
  intros Hp. eapply leads_bind; [apply power_off_dims|]. intros [] s w (b & Hb & Hat).
  destruct (Hp _ _ s w Hat) as ([] & s2 & o & E & Hat2). exists tt, s2, o. split; [done|]. by exists b.
Qed.

Lemma shut_down_at c v t (action : op ()) :
  t ≠ NoShutdown → (∀ must, leads see (At c v) action (λ _, Dims must c v)) →
  leads see (At c v) (shut_down t action) (λ _, Dims (negb (c_told c)) c v).
Proof.
  intros Ht H. unfold shut_down. apply get_at. intros s Hs. case_bool_decide as Hl; cbn [cwhen negb].
  - apply ret_at. intros s1 Hs1. exists (permission v). split; [|split; [done|by destruct v]].
    intros Hp. split; [done|]. rewrite <- Hs. cbn [c_told core_of]. rewrite Hl. by rewrite bool_decide_eq_false_2.
  - apply silent_then; [apply _|]. by intros [].
Qed.

Lemma error_shutdown_at must c v : leads see (At c v) error_shutdown (λ _, Dims must c v).
Proof.
  unfold error_shutdown. apply get_at. intros s Hs. apply silent_then; [apply _|]. intros []. apply dims_then, _.
Qed.
Lemma emergency_shutdown_at must c v : leads see (At c v) emergency_shutdown (λ _, Dims must c v).
Proof.
  unfold emergency_shutdown. apply get_at. intros s Hs. apply silent_then; [apply _|]. intros [].
  apply silent_then; [apply _|]. intros []. apply dims_then, _.
Qed.

Lemma fatal_at c v :
  leads see (At c v) stop_charging_on_fatal_error_internal
    (λ b s w, Dims (c_fatal c && negb (c_told c)) (up_told (c_fatal c) c) v s w ∧ b = c_fatal c).
Proof.
  unfold stop_charging_on_fatal_error_internal. apply get_at. intros s Hs.
  assert (c_fatal c = negb (bool_decide (shutdown_type s = NoShutdown))) as -> by (by rewrite <- Hs).
  eapply leads_bind with (Q := λ b s1 w,
    Dims (negb (bool_decide (shutdown_type s = NoShutdown)) && negb (c_told c)) c v s1 w ∧
    b = negb (bool_decide (shutdown_type s = NoShutdown))).
  - destruct (shutdown_type s).
    + apply ret_at. intros s1 Hs1. split; [|done]. exists (permission v). split; [done|]. split; [done|by destruct v].
    + eapply leads_bind; [apply shut_down_at; [done|intros must; apply error_shutdown_at]|]. intros []. by apply leads_ret.
    + eapply leads_bind; [apply shut_down_at; [done|intros must; apply emergency_shutdown_at]|]. intros []. by apply leads_ret.
  - intros b s1 w [(b' & Hb' & [<- ->]) Hb]. eexists b, _, []. split; [reflexivity|]. split; [|done]. by exists b'.
Qed.

Lemma fatal_then {B} c v (k : bool → op B) Q :
  (∀ b, (b = true → permission v = true ∧ (c_told c = false → c_fatal c = false)) →
    leads see (At (up_told (c_fatal c) c) (allow b v)) (k (c_fatal c)) Q) →
  leads see (At c v) (stop_charging_on_fatal_error_internal ≫= k) Q.
Proof.
  intros H. eapply leads_bind; [apply fatal_at|]. intros b s w [(b' & Hb & Hs) ->].
  apply (H b'); [|done]. intros Hb'. destruct (Hb Hb') as [Hp Hm]. split; [done|]. intros Ht. rewrite Ht in Hm.
  by rewrite andb_true_r in Hm.
Qed.

(** [walk]: follow the text of an operation from a core whose members are known. *)
Ltac core_simpl :=
  cbn [see];
  cbv beta iota delta
    [up_state up_last up_authorized up_transaction up_session up_uuid up_plugged up_disable up_fatal up_told up_paused
     up_confirmed up_for_pause up_restarted up_bcb up_power up_until up_EF up_X1 up_phases up_reinit up_matched up_soc
     c_state c_last c_authorized c_transaction c_session c_uuid c_plugged c_disable c_fatal c_told c_paused
     c_confirmed c_for_pause c_restarted c_bcb c_power c_until c_EF c_X1 c_phases c_reinit c_matched c_soc
     c_ended c_must_end allow permission granted proto stored obey session_open session_authorized
     transaction_open];
  cbn [negb andb orb cwhen].

(** Tests of a state that is known. *)
Ltac decided :=
  repeat match goal with
  | |- context [bool_decide (@eq EvseState ?a ?b)] =>
      let r := eval cbv in (bool_decide (@eq EvseState a b)) in
      lazymatch r with true => idtac | false => idtac end;
      change (bool_decide (@eq EvseState a b)) with r; cbn [negb andb orb cwhen]
  end.

Ltac core_simpl_in H := cbn [permission c_fatal c_told] in H.

Ltac core_simpl_all :=
  cbv beta iota delta
    [up_state up_last up_authorized up_transaction up_session up_uuid up_plugged up_disable up_fatal up_told up_paused
     up_confirmed up_for_pause up_restarted up_bcb up_power up_until up_EF up_X1 up_phases up_reinit up_matched up_soc
     c_state c_last c_authorized c_transaction c_session c_uuid c_plugged c_disable c_fatal c_told c_paused
     c_confirmed c_for_pause c_restarted c_bcb c_power c_until c_EF c_X1 c_phases c_reinit c_matched c_soc
     c_ended c_must_end allow permission granted proto stored obey session_open session_authorized
     transaction_open] in *;
  cbn [negb andb orb cwhen] in *.

Ltac walk_split x := destruct x eqn:?; core_simpl.

Ltac walk_step :=
  lazymatch goal with
  | |- leads see _ (let _ := _ in _) _ => cbv zeta
  | |- leads see _ (?m ≫= ?k) _ =>
      lazymatch m with
      | cget => let s := fresh "s" in let Hs := fresh "Hs" in
                apply get_at; intros s Hs; cbv beta; read_core s Hs; clear Hs; core_simpl; decided
      | mret _ => apply ret_then; cbv beta
      | run_state_machine => fail
      | let _ := _ in _ => cbv zeta
      | _ ≫= _ => apply assoc_at
      | emit _ => apply emit_then; core_simpl
      | assign _ =>
          first [ eapply assign_then; [apply _|]; core_simpl
                | apply silent_then; [apply _|intros []]
                | apply power_moves; [reflexivity|intros ?]; core_simpl ]
      | cwhen ?b _ => first [ apply silent_then; [apply _|intros []] | walk_split b ]
      | power_available =>
          first [ apply power_then; [discriminate|]; core_simpl | apply silent_then; [apply _|intros ?] ]
      | stop_charging_on_fatal_error_internal => let H := fresh "Hperm" in apply fatal_then; intros ? H; core_simpl_in H; core_simpl
      | match ?x with _ => _ end => walk_split x
      | _ => first [ apply silent_then; [apply _|intros ?]
                   | apply powers_then; [apply _|intros ? ?; core_simpl]
                   | eapply outcomes_then; [apply _|intros ?; core_simpl; repeat apply Forall_cons_2; [..|apply Forall_nil_2]]
                   | let h := head_of m in unfold h ]
      end
  | |- leads see _ (match ?x with _ => _ end) _ => walk_split x
  | |- leads see _ (mret _) _ => fail
  | |- leads see _ run_state_machine _ => fail
  | |- leads see _ ?m _ => apply last_at
  end.
Ltac walk := repeat walk_step.

(** ** Parts of the states' actions *)
Ltac power_leaf :=
  apply ret_at; let s := fresh "s" in let Hs := fresh "Hs" in intros s Hs;
  eexists (power_now s); split; [|reflexivity]; rewrite Hs; change (power_now s) with (c_power (core_of s));
  by rewrite Hs.

#[global] Instance silent_choose : Silent choose_5_percent. Proof. silent_op. Qed.
#[global] Instance powers_start : Powers start_5_percent.
Proof. intros [] []. unfold start_5_percent. walk. all: power_leaf. Qed.
#[global] Instance powers_cable : Powers know_cable.
Proof. intros [] []. unfold know_cable, read_pp_ampacity. walk. all: power_leaf. Qed.

Ltac outcome_leaf :=
  apply ret_at; let s := fresh "s" in let Hs := fresh "Hs" in intros s Hs;
  eexists; split; [|split; [exact Hs|reflexivity]]; repeat first [apply list_elem_of_here|apply list_elem_of_further].
Ltac outcome_op := intros [] []; walk; outcome_leaf.

#[global] Instance outcomes_error_sequence :
  Outcomes request_error_sequence_internal
    (λ c, if bool_decide (c_state c = WaitingForAuthentication) || bool_decide (c_state c = PrepareCharging)
          then [c; up_state T_step_X1 (up_until true (up_EF (c_state c) c)); up_state T_step_EF (up_EF (c_state c) c)]
          else [c]).
Proof. outcome_op. Qed.
#[global] Instance outcomes_eim :
  Outcomes eim_with_hlc
    (λ c, [c; up_state PrepareCharging c; up_state T_step_EF (up_EF PrepareCharging c);
           up_state T_step_X1 (up_until false (up_X1 PrepareCharging c))]).
Proof. outcome_op. Qed.
#[global] Instance outcomes_start_AC t :
  Outcomes (start_AC_charging t)
    (λ c, [c; up_state Charging c; up_state T_step_EF (up_EF PrepareCharging c); up_state ChargingPausedEV c]).
Proof. outcome_op. Qed.
#[global] Instance outcomes_enable t :
  Outcomes (enable_pwm_and_start t)
    (λ c, [c; up_state Charging c; up_state T_step_EF (up_EF PrepareCharging c); up_state ChargingPausedEV c]).
Proof. outcome_op. Qed.
#[global] Instance outcomes_resume :
  Outcomes resume_from_pause (λ c, [c; up_state PrepareCharging c; up_state ChargingPausedEV c]).
Proof. outcome_op. Qed.

End ChgCore.
