(* ===== verification/ChargerPass.v ===== *)
(** * A pass of the charger's state machine

    [Inv]: the invariant of the charger and of what the outside has seen of it.
    [rank]: a bound on the passes that follow.  One lemma per state: its actions keep the
    invariant and decrease the bound; then the loop. *)

From Stdlib Require Import String Floats.SpecFloat.
From S2P Require Import Prelude Float32 IecStateMachine EvseContext AuthHandler ChargerTypes ChargerOps ChargerStates ChargerCore.

Module ChgPass.

Import Chg ChgOps ChgStates ChgCore.
#[local] Open Scope nat_scope.

(** ** The invariant *)
Definition at_rest (st : EvseState) : bool := match st with Disabled | Idle => true | _ => false end.
(** The states that are entered with the permission withdrawn. *)
Definition unpowered (st : EvseState) : bool :=
  match st with Disabled | Idle | WaitingForAuthentication | Finished => true | _ => false end.
(** The states the error sequence returns to. *)
Definition resumed (st : EvseState) : bool :=
  match st with WaitingForAuthentication | PrepareCharging => true | _ => false end.

(** The states of a session in which power may flow. *)
Definition charging (st : EvseState) : bool := match st with PrepareCharging | Charging => true | _ => false end.

(** Where the machine may rest when the car has left or the charger shall be disabled:
    it waits for the contactors to open, or for a reinitialisation to end. *)
Definition ended_in (disable : bool) (st : EvseState) : bool :=
  match st with
  | Disabled => disable
  | Idle => negb disable
  | StoppingCharging | Reinit => true
  | _ => false
  end.

(** The states whose actions do not look at the fatal errors. *)
Definition overlooks (st : EvseState) : bool :=
  match st with StoppingCharging | ChargingPausedEV | Reinit => true | _ => false end.

(** Charging is allowed: what has to hold when the permission is given. *)
Definition may_charge (c : core) : Prop := c_must_end c = false ∧ c_fatal c = false.

Definition matches (c : core) (p : protocol) : Prop :=
  session_open p = c_session c ∧ transaction_open p = c_transaction c ∧
  (c_authorized c = true → session_authorized p = true).

Record Inv (c : core) (v : view) : Prop := {
  inv_soc : c_soc c = false;
  inv_authorized : c_authorized c = true → c_session c = true;
  inv_transaction : c_transaction c = true → c_session c = true;
  inv_active : c_transaction c = true →
    at_rest (c_state c) = false ∧ at_rest (c_last c) = false ∧ c_last c ≠ Finished;
  inv_EF : c_state c = T_step_EF → resumed (c_EF c) = true;
  inv_until : c_until c = true → resumed (c_EF c) = true;
  inv_X1 : c_state c = T_step_X1 → c_until c = false → c_X1 c = PrepareCharging;
  inv_phases : c_state c = SwitchPhases → c_phases c = PrepareCharging;
  inv_protocol : ∃ p, proto v = Some p ∧ matches c p;
  inv_stored : stored v = if c_transaction c then c_uuid c else ""%string;
  inv_permission : permission v = true → unpowered (c_last c) = false ∧ at_rest (c_state c) = false;
  inv_told : permission v = true → c_told c = false;
  inv_billed : permission v = true → c_transaction c = true;
  inv_granted : granted v = true →
    may_charge c ∧ unpowered (c_state c) = false ∧ c_state c ≠ Reinit ∧ (c_reinit c = true → c_matched c = true) ∧
    (c_state c = T_step_EF → c_EF c = PrepareCharging) ∧ (c_state c = T_step_X1 → c_EF c = PrepareCharging);
}.

(** ** The bound *)
Definition b2n (b : bool) : nat := if b then 1 else 0.
Definition toggling (c : core) : bool :=
  c_restarted c || (c_bcb c && match c_state c with ChargingPausedEV | ChargingPausedEVSE => true | _ => false end).
Definition rank (c : core) : nat :=
  let e := c_must_end c in
  let f := c_fatal c in
  let stop := f || c_ended c in
  let budget := 4 * b2n (toggling c) + 4 * b2n (c_confirmed c) in
  match c_state c with
  | Idle => b2n (c_disable c)
  | Disabled => b2n (negb (c_disable c))
  | Finished => 2
  | StoppingCharging => if e then 3 else if f then 1 else 1 + budget
  | Charging => if e then 4 else if f then 2 else 2 + budget
  | PrepareCharging => if e then 4 else if f then 2 else 3 + budget
  | ChargingPausedEVSE =>
      if e then 4 else if f || negb (c_power c) || c_paused c then 0 else 4 + budget
  | ChargingPausedEV =>
      if e then 4 else if f then 3
      else if toggling c then 4 + 4 * b2n (c_confirmed c) else b2n (negb (c_power c))
  | WaitingForAuthentication => if stop then 3 else 12
  | T_step_EF | T_step_X1 => if stop then 5 else 0
  | SwitchPhases => 12
  | Reinit => 13
  end.

(** ** The actions of a state

    Before them [last_state_detect_state_change] is the state; [l] is what it was before
    the pass. *)
Record Ready (init : bool) (l : EvseState) (c : core) (v : view) : Prop := {
  ready_inv : Inv (up_last l c) v;
  ready_last : c_last c = c_state c;
  ready_init : init = false → l = c_state c;
  ready_reinit : c_reinit c = true → c_matched c = true;
}.

Record Acted (init : bool) (time : Z) (c c' : core) (v' : view) : Prop := {
  acted_inv : Inv c' v';
  acted_last : c_last c' = c_state c;
  acted_reinit : c_reinit c' = c_reinit c ∧ c_matched c' = c_matched c;
  acted_charging : c_state c' = Charging → c_state c ≠ StoppingCharging;
  acted_stays : c_state c' = c_state c → charging (c_state c) = true → may_charge c';
  acted_ended : c_state c' = c_state c → c_ended c' = true → ended_in (c_disable c') (c_state c) = true;
  acted_fatal : c_state c' = c_state c → c_fatal c' = true → permission v' = true → overlooks (c_state c) = true;
  acted_rank : c_state c' ≠ c_state c → (rank c' <= 12)%nat ∧ (init = true → time = 0%Z → (rank c' < rank c)%nat);
}.

Definition acts (st : EvseState) (init : bool) (time : Z) (m : op ()) : Prop :=
  ∀ l c v, c_state c = st → Ready init l c v → leads see (At c v) m (λ _ s w, Acted init time c (core_of s) w).


#[local] Hint Constants Opaque : typeclass_instances.


(** Facts about booleans as equations of their parts; implications whose premise is known. *)
Ltac bools :=
  repeat match goal with
  | H : true = false |- _ => discriminate H
  | H : false = true |- _ => discriminate H
  | H : negb ?b = true |- _ => apply negb_true_iff in H
  | H : negb ?b = false |- _ => apply negb_false_iff in H
  | H : ?a && ?b = true |- _ => apply andb_true_iff in H as [? ?]
  | H : ?a || ?b = false |- _ => apply orb_false_iff in H as [? ?]
  | H : bool_decide (?x = _) = true |- _ => is_var x; apply bool_decide_eq_true in H
  | H : ?b = _ |- _ => is_var b; subst b
  | H : ?a = ?a → _ |- _ => specialize (H eq_refl)
  | H : ?a = ?b → _ |- _ => assert_succeeds (assert (a <> b) by discriminate); clear H
  | H : _ ∧ _ |- _ => destruct H
  end.

Ltac refute b := assert (b = false) by (destruct b; [exfalso; bools; congruence|done]); subst b.
Ltac prune :=
  cbn [at_rest unpowered resumed charging] in *; bools;
  repeat match goal with
  | H : ?b = true → _ |- _ => is_var b; refute b
  end; bools.

Ltac open_inv HI :=
  destruct (inv_protocol _ _ HI) as ([] & ? & ?); destruct HI as [???????????];
  match goal with |- context [At ?c ?v] => destruct c, v end;
  unfold matches, may_charge in *; core_simpl_all; destruct_and!; simplify_eq;
  repeat match goal with H : ∃ p : protocol, _ |- _ => clear H end; prune.

Ltac open_ready :=
  let l := fresh "l" in let c := fresh "c" in let v := fresh "v" in let HI := fresh "HI" in
  intros l c v ? [HI ? ? ?]; open_inv HI.

(** The time that has to pass first has not passed. *)
Ltac too_early :=
  try match goal with
  | H : (?t <=? 0)%Z = true |- _ => exfalso; assert ((t <=? 0)%Z = false) by reflexivity; congruence
  | H : (?t <? 0)%Z = true |- _ => exfalso; assert ((t <? 0)%Z = false) by reflexivity; congruence
  | H : _ && (?t <=? 0)%Z || (?t' <=? 0)%Z = true |- _ =>
      exfalso; assert ((t <=? 0)%Z = false) as E1 by reflexivity;
      assert ((t' <=? 0)%Z = false) as E2 by reflexivity; rewrite E1, E2, andb_false_r in H; discriminate H
  end.

Ltac ranks :=
  too_early;
  unfold rank, toggling; core_simpl; rewrite ?andb_false_r, ?andb_true_r, ?orb_false_r;
  repeat match goal with
  | |- context [if ?b then _ else _] =>
      lazymatch b with
      | context [if _ then _ else _] => fail
      | _ => let E := fresh "E" in destruct b eqn:E; rewrite ?E in *; cbn [negb andb orb] in *; bools
      end
  end;
  repeat match goal with
  | |- context [b2n ?b] => match b with context [?x] => is_var x; destruct x; cbn [negb andb orb] in *; bools end
  end; cbn; lia.

Ltac finish := first [ done | by eauto | congruence ].
Ltac easy_field :=
  rewrite ?orb_true_r, ?orb_false_r; intros; bools;
  first [ finish
        | eexists; split; [reflexivity|]; split_and!; finish
        | split; [ranks|intros; bools; ranks]
        | split_and!; intros; bools; finish
        | match goal with |- context [if ?b then _ else _] => is_var b; refute b end; finish ].

Ltac settle_with tac :=
  bools; apply ret_at; let s := fresh "s" in let Hs := fresh "Hs" in intros s Hs; rewrite Hs; clear s Hs;
  tac; unfold matches, may_charge; core_simpl; try easy_field.
Ltac settle := settle_with ltac:(constructor; [constructor|..]).


Lemma acts_Disabled init time : acts Disabled init time (in_Disabled init).
Proof. open_ready. walk; settle. Qed.
Lemma acts_Idle init time : acts Idle init time (in_Idle init).
Proof. open_ready. walk; settle. Qed.
Lemma acts_WaitingForAuthentication init time :
  acts WaitingForAuthentication init time (in_WaitingForAuthentication init time).
Proof. open_ready. walk; settle. Qed.
Lemma acts_SwitchPhases init time : acts SwitchPhases init time (in_SwitchPhases init time).
Proof. open_ready. walk; settle. Qed.
Lemma acts_T_step_EF init time : acts T_step_EF init time (in_T_step_EF init time).
Proof. open_ready. destruct c_EF0; try discriminate; walk; settle. Qed.
Lemma acts_T_step_X1 init time : acts T_step_X1 init time (in_T_step_X1 init time).
Proof. open_ready. destruct c_until0; bools; [destruct c_EF0; try discriminate|]; walk; settle. Qed.
Lemma acts_Reinit init time : acts Reinit init time (in_Reinit init).
Proof. open_ready. walk; settle. Qed.
Lemma acts_PrepareCharging init time : acts PrepareCharging init time (in_PrepareCharging init time).
Proof. open_ready. walk; settle. Qed.
Lemma acts_Charging init time : acts Charging init time (in_Charging init).
Proof. open_ready. walk; settle. Qed.
Lemma acts_ChargingPausedEV init time : acts ChargingPausedEV init time (in_ChargingPausedEV init).
Proof. open_ready. walk; settle. Qed.
Lemma acts_ChargingPausedEVSE init time : acts ChargingPausedEVSE init time (in_ChargingPausedEVSE init).
Proof. open_ready. destruct c_fatal0, c_power0, c_paused0; walk; settle. Qed.
Lemma acts_StoppingCharging init time : acts StoppingCharging init time (in_StoppingCharging init time).
Proof. open_ready. walk; settle. Qed.
Lemma acts_Finished init time : acts Finished init time (in_Finished init).
Proof. open_ready. destruct init, c_disable0; prune; walk; settle. Qed.

Lemma acts_state st init time v c l :
  c_state c = st → Ready init l c v →
  leads see (At c v) (state_actions init time) (λ _ s w, Acted init time c (core_of s) w).
Proof.
  intros Hst Hr. unfold state_actions. apply get_at. intros s Hs. change (current_state s) with (c_state (core_of s)).
  rewrite Hs, Hst.
  destruct st; [apply (acts_Disabled init time l)|apply (acts_Idle init time l)
    |apply (acts_WaitingForAuthentication init time l)|apply (acts_PrepareCharging init time l)
    |apply (acts_Charging init time l)|apply (acts_ChargingPausedEV init time l)
    |apply (acts_ChargingPausedEVSE init time l)|apply (acts_StoppingCharging init time l)
    |apply (acts_Finished init time l)|apply (acts_T_step_EF init time l)|apply (acts_T_step_X1 init time l)
    |apply (acts_Reinit init time l)|apply (acts_SwitchPhases init time l)]; done.
Qed.

End ChgPass.
