(* ===== verification/ChargerLoop.v ===== *)
(** * The loop of the charger's state machine

    A pass keeps the invariant, and the loop ends. *)

From Stdlib Require Import String Floats.SpecFloat.
From S2P Require Import Prelude Float32 IecStateMachine EvseContext AuthHandler ChargerTypes ChargerOps ChargerStates ChargerCore ChargerPass.

Module ChgLoop.

Import Chg ChgOps ChgStates ChgCore ChgPass.
#[local] Open Scope nat_scope.
#[local] Hint Constants Opaque : typeclass_instances.

(** ** The beginning of a pass *)

(** The loop has gone on: the state is new, and no request is pending. *)
Record Going (c : core) : Prop := {
  going_new : c_last c ≠ c_state c;
  going_reinit : c_reinit c = true → c_matched c = true;
  going_charging : c_state c = Charging → c_last c ≠ StoppingCharging;
}.

Record Begun (c c' : core) (v : view) : Prop := {
  begun_inv : Inv c' v;
  begun_reinit : c_reinit c' = true → c_matched c' = true;
  begun_rank : Going c → c_last c' ≠ c_state c' ∧ rank c' <= rank c;
}.

Lemma pending_begins c v :
  Inv c v → leads see (At c v) process_pending_reinit_request (λ _ s w, Begun c (core_of s) w).
Proof.
  intros HI. destruct (c_state c) eqn:Hst; open_inv HI; walk.
  all: settle_with ltac:(constructor; [constructor| |intros []; core_simpl_all; bools]).
  all: split; [by auto|ranks].
Qed.

Ltac run_detect s Hs :=
  cbv [assign emit mbind cmd_mbind cmd_bind mret cmd_mret cmd_ret cmodify cemit cget cwhen];
  match goal with |- context [ac_with_soc_timeout ?x && _] =>
    change (ac_with_soc_timeout x) with (ac_with_soc_timeout s) end;
  rewrite Hs; reflexivity.

(** What the beginning of a pass finds. *)
Lemma detect_at c v :
  c_soc c = false →
  leads see (At c v) detect_change (λ r s w,
    ∃ init time, r = Some (init, time) ∧ At (up_last (c_state c) c) v s w ∧
      (init = false → c_last c = c_state c) ∧ (c_last c ≠ c_state c → init = true ∧ time = 0%Z)).
Proof.
  intros Hsoc s w [Hc ->]. unfold detect_change. rewrite bind_get. cbv zeta.
  set (init := negb (bool_decide (last_state_detect_state_change s = current_state s)) || _).
  assert (ac_with_soc_timeout s = false) as Hs by (by rewrite <- Hc in Hsoc). rewrite Hs.
  assert (init = false → c_last c = c_state c) as Hinit.
  { subst init. intros [E%negb_false_iff%bool_decide_eq_true _]%orb_false_iff. by rewrite <- Hc. }
  assert (c_last c ≠ c_state c → init = true) as Hnew by (intros ?; destruct init; naive_solver).
  clearbody init. destruct init.
  - do 3 eexists. split; [by run_detect s Hs|]. exists true. eexists. split; [reflexivity|].
    split_and!; [subst c; by split|done|]. intros _. split; [done|]. cbn. by rewrite Z.sub_diag.
  - do 3 eexists. split; [by run_detect s Hs|]. exists false. eexists. split; [reflexivity|].
    split_and!; [subst c; by split|done|]. intros E. by specialize (Hnew E).
Qed.

(** ** A pass, and the loop *)
Record Settled (c : core) (v : view) : Prop := {
  settled_inv : Inv c v;
  settled_state : c_last c = c_state c;
  settled_charging : charging (c_state c) = true → may_charge c;
  settled_fatal : c_fatal c = true → permission v = true → overlooks (c_state c) = true;
  settled_ended : c_ended c = true → ended_in (c_disable c) (c_state c) = true;
}.

Definition Passed (c : core) (e : pass_end) (c' : core) (v' : view) : Prop :=
  match e with
  | settled => Settled c' v'
  | again => Inv c' v' ∧ Going c' ∧ rank c' <= 12 ∧ (Going c → rank c' < rank c)
  | returned_early => False
  end.

Lemma ready_begun c c' v init :
  Begun c c' v → (init = false → c_last c' = c_state c') → Ready init (c_last c') (up_last (c_state c') c') v.
Proof. intros [HI Hr _] Hi. constructor; [by destruct c'|done|done|done]. Qed.

Lemma up_last_rank x c : rank (up_last x c) = rank c.
Proof. by destruct c. Qed.

Lemma acted_passes c c1 c2 v init time w :
  Begun c c1 v → (c_last c1 ≠ c_state c1 → init = true ∧ time = 0%Z) →
  Acted init time (up_last (c_state c1) c1) c2 w →
  Passed c (if bool_decide (c_last c2 = c_state c2) then settled else again) c2 w.
Proof.
  intros [_ Hr Hrank] Hnew [HI Hl [Hre Hm] Hch Hst Hend Hfat Hrk]. cbn in *. rewrite up_last_rank in Hrk.
  case_bool_decide as Hs; cbn.
  - assert (c_state c2 = c_state c1) as E by congruence. rewrite E in *. constructor; rewrite ?E; auto.
  - destruct Hrk as [H12 Hlt]; [congruence|]. split_and!; [done| |done|].
    + constructor; [done|by rewrite Hre, Hm|]. intros E. rewrite Hl. by apply Hch.
    + intros Hg. destruct (Hrank Hg) as [Hn Hle]. destruct (Hnew Hn) as [-> ->]. specialize (Hlt eq_refl eq_refl). lia.
Qed.

Lemma act_and_test_at c c1 v init time :
  Begun c c1 v → (init = false → c_last c1 = c_state c1) → (c_last c1 ≠ c_state c1 → init = true ∧ time = 0%Z) →
  leads see (At (up_last (c_state c1) c1) v) (act_and_test init time) (λ e s w, Passed c e (core_of s) w).
Proof.
  intros Hb Hi Hn. unfold act_and_test. do 2 (apply silent_then; [apply _|intros []]).
  eapply leads_bind; [eapply acts_state; [reflexivity|by eapply ready_begun]|].
  intros [] s w Ha. eexists _, _, []. split; [reflexivity|]. by eapply (acted_passes c c1 (core_of s)).
Qed.

Lemma pass_at c v : Inv c v → leads see (At c v) pass (λ e s w, Passed c e (core_of s) w).
Proof.
  intros HI. unfold pass, begin_pass. apply assoc_at.
  eapply leads_bind; [by apply pending_begins|]. intros []. apply leads_from. intros s1 w1 Hb.
  eapply leads_bind; [apply detect_at, (inv_soc _ _ (begun_inv _ _ _ Hb))|].
  intros r s2 w2 (init & time & -> & Hat & Hi & Hn). by apply (act_and_test_at c (core_of s1) w1 init time Hb Hi Hn).
Qed.

Lemma run_loop_at n c v :
  Inv c v → Going c → rank c < n →
  leads see (At c v) (run_loop n) (λ e s w, e = Some settled ∧ Settled (core_of s) w).
Proof.
  revert c v. induction n as [|n IH]; intros c v HI Hg Hr; [lia|]. cbn [run_loop].
  eapply leads_bind; [by apply pass_at|]. intros [] s w Hp; cbn in Hp; [|by eexists _, _, []|done].
  destruct Hp as (HI' & Hg' & _ & Hlt). by apply (IH (core_of s) w HI' Hg' ltac:(specialize (Hlt Hg); lia)).
Qed.

(** The first pass may start in any state. *)
Lemma first_loop_at c v :
  Inv c v → leads see (At c v) (run_loop max_passes) (λ e s w, e = Some settled ∧ Settled (core_of s) w).
Proof.
  intros HI. change max_passes with (S 13). cbn [run_loop]. eapply leads_bind; [by apply pass_at|].
  intros [] s w Hp; cbn in Hp; [|by eexists _, _, []|done]. destruct Hp as (HI' & Hg' & Hle & _).
  by apply (run_loop_at 13 (core_of s) w HI' Hg' ltac:(lia)).
Qed.

(** The state machine comes to rest, in a state that fits. *)
Lemma run_state_machine_at c v :
  Inv c v → leads see (At c v) run_state_machine (λ _ s w, Settled (core_of s) w).
Proof.
  intros HI. unfold run_state_machine. eapply leads_bind; [by apply first_loop_at|]. intros e s w [-> Hs].
  destruct (silent_ramp (core_of s) w s w (conj eq_refl eq_refl)) as ([] & s2 & o & E & H2 & H3).
  exists tt, s2, o. split; [done|]. by rewrite H2, H3.
Qed.

End ChgLoop.
