(* ===== verification/ChargerRuns.v ===== *)
(** * Runs of the charger

    Every request keeps the invariant; what follows for every run of requests. *)

From Stdlib Require Import String Floats.SpecFloat.
From S2P Require Import Prelude Float32 IecStateMachine EvseContext AuthHandler ChargerTypes ChargerOps ChargerStates Charger ChargerCore ChargerPass ChargerLoop.

Module ChgRuns.

Import Chg ChgOps ChgStates Chgr ChgCore ChgPass ChgLoop.
#[local] Open Scope nat_scope.

(** ** Requests

    The callers never refuse an authorization through [authorize], and withdraw one only
    while no transaction runs; the early return for the state of charge is not configured;
    the clean up of an interrupted transaction comes before everything else. *)
Definition valid (rq : request) (s : Charger) : Prop :=
  match rq with
  | Authorize a _ _ => a = true
  | Deauthorize => flag_transaction_active s = false
  | Setup c => setup_ac_with_soc_timeout c = false
  | CleanupOnStartup _ => False
  | _ => True
  end.

Definition kept (m : op ()) : Prop :=
  ∀ c v, Inv c v → granted v = false → leads see (At c v) m (λ _ s w, Inv (core_of s) w).

Section requests.
#[local] Hint Constants Opaque : typeclass_instances.

Ltac open_kept :=
  let c := fresh "c" in let v := fresh "v" in let HI := fresh "HI" in
  intros c v HI ?; open_inv HI.
Ltac keep_inv := open_kept; walk; settle_with ltac:(constructor).

(** Requests that do not run the state machine. *)
Definition runs_machine (rq : request) : bool :=
  match rq with CpEvent _ | MainTurn | EnableDisable _ _ | ErrorEvents _ => true | _ => false end.

Lemma kept_setup x : setup_ac_with_soc_timeout x = false → kept (setup x).
Proof. intros Hx. open_kept. unfold setup. rewrite Hx. walk; settle_with ltac:(constructor). Qed.

Lemma kept_authorize token result : kept (quiet (authorize true token result)).
Proof. keep_inv. Qed.

Lemma kept_deauthorize c v :
  Inv c v → granted v = false → c_transaction c = false →
  leads see (At c v) (quiet deauthorize_internal) (λ _ s w, Inv (core_of s) w).
Proof. intros HI ? ?. open_inv HI. walk; settle_with ltac:(constructor). Qed.

Lemma kept_publish : kept enable_disable_initial_state_publish.
Proof. open_kept. destruct c_state0; prune; walk; settle_with ltac:(constructor). Qed.

Lemma kept_error_sequence : kept request_error_sequence_internal.
Proof. open_kept. destruct c_state0; prune; walk; settle_with ltac:(constructor). Qed.

Lemma kept_other rq s0 c v :
  runs_machine rq = false → core_of s0 = c → valid rq s0 → Inv c v → granted v = false →
  leads see (At c v) (handle rq) (λ _ s w, Inv (core_of s) w).
Proof.
  intros Hrq Hc Hv HI Hg. destruct rq; try discriminate Hrq; cbn [handle valid] in *;
    try (by apply kept_publish); try (by apply kept_error_sequence); try (by apply kept_setup); try done;
    try (by subst; apply kept_authorize); try (by subst; apply kept_deauthorize);
    clear s0 Hc Hv; open_inv HI; walk; settle_with ltac:(constructor).
Qed.

(** ** Requests that run it *)
Lemma machine_then {B} c v (k : () → op B) Q :
  Inv c v → (∀ c' v', Settled c' v' → leads see (At c' v') (k tt) Q) → leads see (At c v) (run_state_machine ≫= k) Q.
Proof.
  intros HI Hk. eapply leads_bind; [by apply run_state_machine_at|]. intros []. apply leads_from.
  intros s w Hs. by apply Hk.
Qed.

(** Every run of the state machine in the request is the last thing it does to the core. *)
Ltac machine_last :=
  apply machine_then; [|intros ? ? [? ? ? ? ?]; walk; apply ret_at; by intros ? ->].

Lemma kept_enable connector source : kept (quiet (enable_disable connector source)).
Proof.
  open_kept. destruct c_state0; prune; walk.
  all: try (settle_with ltac:(constructor)).
  all: machine_last; bools; constructor; unfold matches, may_charge; core_simpl; try easy_field.
Qed.

Lemma error_event_at e c v :
  Inv c v → granted v = false → leads see (At c v) (error_event e) (λ _ s w, Inv (core_of s) w ∧ granted w = false).
Proof.
  intros HI ?. open_inv HI. unfold error_event.
  walk. all: settle_with ltac:(split; [constructor|]).
Qed.

Lemma kept_errors es : kept (cfor es error_event).
Proof.
  induction es as [|e es IH]; cbn [cfor]; intros c v HI Hg.
  - apply ret_at. by intros s ->.
  - eapply leads_bind; [by apply error_event_at|]. intros []. apply leads_from. intros s w [? ?]. by apply IH.
Qed.

Lemma kept_independent ev : kept (process_cp_events_independent ev).
Proof. open_kept. destruct ev; walk; settle_with ltac:(constructor). Qed.

Lemma cp_events_at ev c v :
  Inv c v → leads see (At c v) (process_cp_events_state ev) (λ _ s w, Inv (core_of s) w).
Proof.
  intros HI. destruct (c_state c) eqn:Hst; open_inv HI; destruct ev; walk; settle_with ltac:(constructor).
Qed.

End requests.

Lemma event_settles ev c v :
  Inv c v → granted v = false → leads see (At c v) (process_event ev) (λ _ s w, Settled (core_of s) w).
Proof.
  intros HI Hg. unfold process_event.
  eapply leads_bind; [by apply kept_independent|]. intros []. apply leads_from. intros s1 w1 H1.
  apply machine_then; [done|]. intros c2 v2 [H2 _ _ _ _].
  eapply leads_bind; [by apply cp_events_at|]. intros []. apply leads_from. intros s3 w3 H3.
  by apply run_state_machine_at.
Qed.

Lemma turn_settles c v : Inv c v → leads see (At c v) main_turn (λ _ s w, Settled (core_of s) w).
Proof.
  intros HI. unfold main_turn. apply silent_then; [apply _|]. intros _. by apply run_state_machine_at.
Qed.

Lemma handle_keeps rq s v :
  valid rq s → Inv (core_of s) v → granted v = false →
  leads see (At (core_of s) v) (handle rq) (λ _ s w, Inv (core_of s) w).
Proof.
  intros Hv HI Hg. destruct (runs_machine rq) eqn:Hrq; [|by eapply kept_other].
  destruct rq; try discriminate Hrq; cbn [handle].
  - eapply leads_conseq; [by apply event_settles|done|]. by intros _ s1 w [H1 _ _ _ _].
  - eapply leads_conseq; [by apply turn_settles|done|]. by intros _ s1 w [H1 _ _ _ _].
  - by apply kept_errors.
  - by apply kept_enable.
Qed.

(** ** Runs *)
Definition closed : protocol := {| session_open := false; session_authorized := false; transaction_open := false |}.
Definition fresh_view : view :=
  {| permission := false; granted := false; proto := Some closed; stored := ""%string |}.
(** What the outside has seen of a run. *)
Definition watch (o : list call) : view := foldl see fresh_view o.
Definition refreshed (v : view) : view :=
  {| permission := permission v; granted := false; proto := proto v; stored := stored v |}.

Fixpoint valid_run (rqs : list request) (s : Charger) : Prop :=
  match rqs with
  | [] => True
  | rq :: rqs' => valid rq s ∧ valid_run rqs' (step rq s).1
  end.

Lemma see_refreshed v o : refreshed (see (refreshed v) o) = refreshed (see v o).
Proof. destruct o as [| | | | | | | | | |[]| | | | | | | | | | | | | | | | | | | | | | |]; reflexivity. Qed.

Lemma refreshed_idem v : refreshed (refreshed v) = refreshed v.
Proof. done. Qed.

Lemma watch_refreshed v o : refreshed (foldl see (refreshed v) o) = refreshed (foldl see v o).
Proof.
  revert v. induction o as [|x o IH]; intros v; [done|]. cbn [foldl].
  by rewrite <- (IH (see (refreshed v) x)), see_refreshed, IH.
Qed.

Lemma step_keeps rq s v :
  valid rq s → Inv (core_of s) (refreshed v) →
  Inv (core_of (step rq s).1) (foldl see (refreshed v) (step rq s).2).
Proof.
  intros Hv HI. destruct (handle_keeps rq s (refreshed v) Hv HI eq_refl s _ (conj eq_refl eq_refl))
    as (a & s' & o & E & H). unfold step. by rewrite E.
Qed.

Lemma inv_refreshed c v : Inv c v → Inv c (refreshed v).
Proof. intros []. by constructor. Qed.

Lemma run_keeps rqs s v :
  valid_run rqs s → Inv (core_of s) (refreshed v) →
  Inv (core_of (run rqs s).1) (refreshed (foldl see v (run rqs s).2)).
Proof.
  revert s v. induction rqs as [|rq rqs IH]; intros s v; cbn [valid_run run]; [done|]. intros [Hv Hr] HI.
  pose proof (inv_refreshed _ _ (step_keeps rq s v Hv HI)) as H1. rewrite watch_refreshed in H1.
  destruct (step rq s) as [s1 o1]. specialize (IH s1 _ Hr H1). destruct (run rqs s1) as [s2 o2]. cbn in *.
  by rewrite foldl_app.
Qed.

Lemma granted_seen v o why : bsp_allow_power_on true why ∈ o → granted (foldl see v o) = true.
Proof.
  assert (∀ o v, granted v = true → granted (foldl see v o) = true) as Hmono.
  { clear. induction o as [|x o IH]; intros v Hv; [done|]. cbn [foldl]. apply IH.
    destruct x as [| | | | | | | | | |[]| | | | | | | | | | | | | | | | | | | | | | |]; cbn; by rewrite ?Hv. }
  revert v. induction o as [|x o IH]; intros v Hin; inversion Hin; subst; cbn [foldl]; [|by apply IH].
  apply Hmono. cbn. apply orb_true_r.
Qed.

Lemma permission_refreshed v o : permission (foldl see (refreshed v) o) = permission (foldl see v o).
Proof. pose proof (watch_refreshed v o) as H. by apply (f_equal permission) in H. Qed.

Lemma may_charge_flags (s : Charger) :
  may_charge (core_of s) →
  (flag_authorized s = true ∧ flag_transaction_active s = true) ∧
  (flag_ev_plugged_in s = true ∧ flag_disable_requested s = false) ∧ shutdown_type s = NoShutdown.
Proof.
  intros [He Hf]. cbn in He, Hf. apply negb_false_iff, bool_decide_eq_true in Hf.
  apply orb_false_iff in He as [[?%negb_false_iff ?%negb_false_iff]%orb_false_iff [?%negb_false_iff ?]%orb_false_iff].
  done.
Qed.

Lemma run_loop_more n m s e s' o :
  run_loop n s = (Ret (Some e), s', o) → n <= m → run_loop m s = (Ret (Some e), s', o).
Proof.
  revert m s o. induction n as [|n IH]; intros m s o E Hm; [done|]. destruct m as [|m]; [lia|]. cbn [run_loop] in *.
  unfold mbind, cmd_mbind, cmd_bind in *. destruct (pass s) as [[[p|[]|] s1] o1]; [|done].
  destruct p; [|done|done]. destruct (run_loop n s1) as [[r s2] o2] eqn:En. injection E as -> -> <-.
  by rewrite (IH m s1 o2 En ltac:(lia)).
Qed.

Lemma run_snoc rqs rq s :
  run (rqs ++ [rq]) s = ((step rq (run rqs s).1).1, (run rqs s).2 ++ (step rq (run rqs s).1).2).
Proof.
  revert s. induction rqs as [|rq' rqs IH]; intros s; cbn [run app].
  - cbn [fst snd app]. destruct (step rq s) as [s1 o1]. cbn. by rewrite app_nil_r.
  - destruct (step rq' s) as [s1 o1]. rewrite IH. destruct (run rqs s1) as [s2 o2]. cbn. by rewrite app_assoc.
Qed.

Lemma turn_step s v :
  Inv (core_of s) (refreshed v) →
  Settled (core_of (step MainTurn s).1) (foldl see (refreshed v) (step MainTurn s).2).
Proof.
  intros HI. destruct (turn_settles _ _ HI s _ (conj eq_refl eq_refl)) as (a & s' & o & E & H).
  unfold step. cbn [handle]. by rewrite E.
Qed.

(** ** Reachable states *)
Section reachable.
Context (pnc : bool) (tp : HlcTerminatePause) (t : Connector_type) (cable : option double) (meters : nat) (now : Z).
Let s0 := Charger_new pnc tp t cable meters now.

Lemma inv_new : Inv (core_of s0) fresh_view.
Proof. constructor; try done. by exists closed. Qed.

Lemma inv_run rqs :
  valid_run rqs s0 → Inv (core_of (run rqs s0).1) (refreshed (watch (run rqs s0).2)).
Proof. intros Hv. apply (run_keeps rqs s0 fresh_view Hv), inv_new. Qed.

(** C4: EvseManager's session events obey the session protocol: a session is opened before
    anything is authorized, a transaction starts only in an authorized open session, one
    at a time, and is finished before its session; the charger's flags are the state of
    the protocol, and the persistent store holds exactly the session of a running
    transaction. *)
Theorem session_protocol rqs :
  valid_run rqs s0 →
  let s := (run rqs s0).1 in
  let v := watch (run rqs s0).2 in
  ∃ p, proto v = Some p ∧ session_open p = session_active s ∧ transaction_open p = flag_transaction_active s ∧
       (flag_authorized s = true → session_authorized p = true) ∧
       stored v = if flag_transaction_active s then session_uuid s else ""%string.
Proof.
  intros Hv. cbv zeta. destruct (inv_run rqs Hv) as [_ _ _ _ _ _ _ _ (p & Hp & H1 & H2 & H3) Hs _ _ _ _].
  exists p. by split_and!.
Qed.

(** C5: the permission to close the contactors is given only to an authorized car with a
    running transaction, while the charger is neither disabled nor in a fatal error. *)
Theorem power_only_when_allowed rqs rq why :
  valid_run rqs s0 → valid rq (run rqs s0).1 →
  bsp_allow_power_on true why ∈ (step rq (run rqs s0).1).2 →
  let s := (step rq (run rqs s0).1).1 in
  flag_authorized s = true ∧ flag_transaction_active s = true ∧ session_active s = true ∧
  flag_ev_plugged_in s = true ∧ flag_disable_requested s = false ∧ shutdown_type s = NoShutdown.
Proof.
  intros Hv Hrq Hin s. pose proof (step_keeps rq _ _ Hrq (inv_run rqs Hv)) as H.
  destruct (inv_granted _ _ H (granted_seen _ _ _ Hin)) as [Hm _]. apply may_charge_flags in Hm as (H1 & H2 & H3).
  split_and!; [apply H1|apply H1|apply (inv_authorized _ _ H), H1|apply H2..|done].
Qed.

(** C6: the loop of the state machine ends after at most [max_passes] passes in every
    reachable state; the bound on the passes is the only fuel of the model. *)
Theorem state_machine_ends rqs n :
  valid_run rqs s0 → max_passes <= n →
  ∃ s' o, run_loop n (run rqs s0).1 = (Ret (Some settled), s', o) ∧
          run_loop max_passes (run rqs s0).1 = (Ret (Some settled), s', o).
Proof.
  intros Hv Hn. destruct (first_loop_at _ _ (inv_run rqs Hv) _ _ (conj eq_refl eq_refl)) as (e & s' & o & E & -> & _).
  exists s', o. split; [|done]. by apply (run_loop_more max_passes).
Qed.

(** After a turn of the main loop the machine is at rest: without a permission in the
    states before and after charging; in PrepareCharging and Charging only with
    authorization, transaction, car, and no fatal error; without car, or when disabled,
    in Idle or Disabled unless it waits for the contactors or a reinitialisation; and
    in a fatal error without a permission, but for the states that do not look at it. *)
Lemma main_turn_rests rqs :
  valid_run rqs s0 →
  let r := run (rqs ++ [MainTurn]) s0 in
  let s := r.1 in
  let st := current_state s in
  let permitted := permission (watch r.2) in
  last_state_detect_state_change s = st ∧
  (permitted = true → unpowered st = false) ∧
  (charging st = true → must_end s = false ∧ shutdown_type s = NoShutdown) ∧
  (not_plugged_or_disabled s = true → ended_in (flag_disable_requested s) st = true) ∧
  (shutdown_type s ≠ NoShutdown → permitted = true → overlooks st = true).
Proof.
  intros Hv. cbv zeta. rewrite run_snoc. cbn [fst snd]. unfold watch. rewrite foldl_app. fold (watch (run rqs s0).2).
  pose proof (turn_step _ _ (inv_run rqs Hv)) as [HI Hst Hch Hfat Hend].
  rewrite <- (permission_refreshed _ (step MainTurn (run rqs s0).1).2).
  set (s := (step MainTurn (run rqs s0).1).1) in *. set (w := foldl see (refreshed _) _) in *. split_and!.
  - done.
  - intros Hp. destruct (inv_permission _ _ HI Hp) as [H _]. by rewrite Hst in H.
  - intros Hc. destruct (Hch Hc) as [H1 H2]. split; [done|]. by apply negb_false_iff, bool_decide_eq_true in H2.
  - done.
  - intros Hf. apply Hfat. by apply negb_true_iff, bool_decide_eq_false.
Qed.

End reachable.

End ChgRuns.
