(* ===== verification/ChargerFacts.v ===== *)
(** * Restart, and the table of enable and disable sources

    After a power loss the clean up at the next start finishes the interrupted transaction.
    The table's decision is the one of the source with the lowest priority number, where a
    request to disable wins a tie. *)

From Stdlib Require Import String Floats.SpecFloat.
From S2P Require Import Prelude Float32 IecStateMachine EvseContext AuthHandler ChargerTypes ChargerOps ChargerStates Charger ChargerCore ChargerPass ChargerLoop ChargerRuns.

Module ChgFacts.

Import Chg ChgOps ChgStates Chgr ChgCore ChgPass ChgLoop ChgRuns.
#[local] Open Scope Z_scope.

(** ** Restart *)
#[global] Instance silent_for {A} (l : list A) (body : A → op ()) : (∀ a, Silent (body a)) → Silent (cfor l body).
Proof. intros Hb c v. apply tracks_for. intros a. apply Hb. Qed.

Lemma cleanup_at c v p id :
  proto v = Some p → transaction_open p = negb (bool_decide (id = ""%string)) → (id = ""%string → stored v = ""%string) →
  leads see (At c v) (cleanup_transactions_on_startup id)
    (λ _ _ w, stored w = ""%string ∧ ∃ p', proto w = Some p' ∧ transaction_open p' = false).
Proof.
  destruct v, p. cbn. intros -> -> Hid. destruct c. unfold cleanup_transactions_on_startup.
  case_bool_decide as He; cbn [negb].
  - walk; apply ret_at; intros ? _; cbn; eauto.
  - walk; apply ret_at; intros ? _; cbn; eauto.
Qed.

(** What the meters are told to stop, and the ends of transactions that are published. *)
Definition meter_stops (o : list call) : list string :=
  omap (λ c, match c with meter_stop_transaction id => Some id | _ => None end) o.
Definition finished_events (o : list call) : list (string * Auth.StopTransactionReason * option Auth.ProvidedIdToken) :=
  omap (λ c, match c with signal_transaction_finished_event id why token => Some (id, why, token) | _ => None end) o.

(** The loop asks at least one meter, if there is one, and each with the same id. *)
Lemma stop_on_meters_run id keep n s :
  ∃ k s', stop_on_meters id keep n s = (Ret tt, s', replicate k (meter_stop_transaction id)) ∧
    (k <= n)%nat ∧ (0 < n → 0 < k)%nat ∧ session_uuid s' = session_uuid s.
Proof.
  revert s. induction n as [|n IH]; intros s; [exists 0%nat, s; cbn; split_and!; [done|lia|lia|done]|].
  cbn [stop_on_meters]. unfold call_stop_transaction. crun.
  set (s1 := set_meter_stop_answers _ s). destruct (stop_status _) eqn:E.
  - crun. destruct (negb _); crun; exists 1%nat; eexists; (split; [done|]); (split_and!; [lia|lia|done]).
  - destruct (IH s1) as (k & s' & Ek & Hk & _ & Hs). rewrite Ek. exists (S k), s'. split_and!; [done|lia|lia|done].
  - crun. exists 1%nat. eexists. split; [done|]. split_and!; [lia|lia|done].
Qed.

Lemma stop_others_run n l s : length l = n →
  ∃ s', cfor l (λ _ : nat, call_stop_transaction "" ;; mret tt) s = (Ret tt, s', replicate n (meter_stop_transaction "")).
Proof.
  revert l s. induction n as [|n IH]; intros [|x l] s Hl; try discriminate Hl; [by eexists|]. injection Hl as Hl.
  destruct (IH l (set_meter_stop_answers (tail (meter_stop_answers s)) s) Hl) as [s' E]. exists s'. cbn [cfor].
  eapply (bind_eq _ _ _ _ _ [meter_stop_transaction ""%string]); [reflexivity|exact E].
Qed.

Lemma meter_stops_replicate k id : meter_stops (replicate k (meter_stop_transaction id)) = replicate k id.
Proof. induction k as [|k IH]; [done|]. cbn. f_equal. exact IH. Qed.
Lemma finished_replicate k id : finished_events (replicate k (meter_stop_transaction id)) = [].
Proof. by induction k. Qed.

Lemma cleanup_run id s :
  ∃ k s' o, cleanup_transactions_on_startup id s = (Ret tt, s', o) ∧
    meter_stops o = replicate k id ++ replicate (billing_meters s) ""%string ∧
    (if decide (id = ""%string) then k = 0%nat else (k <= billing_meters s)%nat ∧ (0 < billing_meters s → 0 < k)%nat) ∧
    finished_events o = if decide (id = ""%string) then [] else [(session_uuid s, Auth.PowerLoss, None)].
Proof.
  unfold cleanup_transactions_on_startup. rewrite bind_get. case_bool_decide as He; cbn [negb cwhen].
  - destruct (stop_others_run (billing_meters s) (seq 0 (billing_meters s)) s ltac:(by rewrite length_seq)) as [s' E].
    exists 0%nat. eexists _, _. split; [eapply bind_eq; [reflexivity|exact E]|]. rewrite !decide_True by done. cbn [app].
    by rewrite meter_stops_replicate, finished_replicate.
  - destruct (stop_on_meters_run id false (billing_meters s) s) as (k & s1 & E1 & Hk & Hk' & Hu).
    destruct (stop_others_run (billing_meters s) (seq 0 (billing_meters s)) s1 ltac:(by rewrite length_seq)) as [s' E].
    exists k. eexists _, _. rewrite !decide_False by done. split.
    { eapply bind_eq; [|exact E]. eapply bind_eq; [reflexivity|]. eapply bind_eq; [exact E1|]. reflexivity. }
    unfold meter_stops, finished_events. rewrite !omap_app.
    fold (meter_stops (replicate k (meter_stop_transaction id))). fold (meter_stops (replicate (billing_meters s) (meter_stop_transaction ""))).
    fold (finished_events (replicate k (meter_stop_transaction id))).
    fold (finished_events (replicate (billing_meters s) (meter_stop_transaction ""))).
    rewrite !meter_stops_replicate, !finished_replicate, Hu. cbn. by rewrite app_nil_r.
Qed.

(** C24: the start after a power loss ends the transaction that was running.  The power
    fails after any run of requests that callers make (with a session id that is not empty
    if a transaction was running); [s1] is the charger of the next start.  Its clean up
    empties the store, obeys the session protocol and leaves no transaction open.  If a
    transaction was running, exactly one end is published, for the reason PowerLoss, under
    the session id [s1] has (none has been set at a start); the meters are asked one after
    the other, at least one if there is one, to stop the transaction with the stored id.
    If none was running, no end is published.  In both cases every meter is then asked to
    stop whatever else it runs. *)
Theorem restart_finishes_transaction pnc tp t cable meters now rqs s1 :
  let r := run rqs (Charger_new pnc tp t cable meters now) in
  valid_run rqs (Charger_new pnc tp t cable meters now) →
  (flag_transaction_active r.1 = true → session_uuid r.1 ≠ ""%string) →
  let v := watch r.2 in
  let o := (step (CleanupOnStartup (stored v)) s1).2 in
  let w := foldl see v o in
  let others := replicate (billing_meters s1) ""%string in
  stored w = ""%string ∧ (∃ p, proto w = Some p ∧ transaction_open p = false) ∧
  if flag_transaction_active r.1
  then finished_events o = [(session_uuid s1, Auth.PowerLoss, None)] ∧
       ∃ k, (k <= billing_meters s1)%nat ∧ (0 < billing_meters s1 → 0 < k)%nat ∧
         meter_stops o = replicate k (session_uuid r.1) ++ others
  else finished_events o = [] ∧ meter_stops o = others.
Proof.
  intros r Hv Hid v o w others. destruct (inv_protocol _ _ (inv_run pnc tp t cable meters now rqs Hv)) as (p & Hp & _ & Htx & _).
  pose proof (inv_stored _ _ (inv_run pnc tp t cable meters now rqs Hv)) as Hst. fold r v in Hp, Htx, Hst.
  cbn in Hp, Htx, Hst.
  destruct (cleanup_at (core_of s1) v p (stored v)) with (s := s1) (v := v) as ([] & s' & o' & E & H); [done| |done|done|].
  { rewrite Htx, Hst. destruct (flag_transaction_active r.1); [|done]. by rewrite bool_decide_eq_false_2 by auto. }
  assert (o = o') as Ho by (unfold o, step; cbn [handle]; by rewrite E). unfold w. rewrite Ho.
  split_and!; [apply H..|]. destruct (cleanup_run (stored v) s1) as (k & s2 & o2 & E2 & Hm & Hk & Hf).
  rewrite E in E2. injection E2 as <- <-. rewrite Hm, Hf, Hst. rewrite Hst in Hk.
  destruct (flag_transaction_active r.1); [|rewrite decide_True in Hk by done; by rewrite decide_True, Hk by done].
  rewrite decide_False in Hk by auto. rewrite decide_False by auto. split; [done|]. exists k. by destruct Hk.
Qed.

(** ** Enable and disable *)
Definition assigned (e : EnableDisableSource) : Prop := enable_state e ≠ Unassigned.

(** [w] wins in [table]: among the assigned entries none has a lower priority number, and
    a tie with a request to disable is itself one. *)
Definition wins (w : EnableDisableSource) (table : list EnableDisableSource) : Prop :=
  w ∈ table ∧ assigned w ∧
  ∀ e, e ∈ table → assigned e →
    enable_priority w <= enable_priority e ∧
    (enable_priority w = enable_priority e → enable_state e = Disable → enable_state w = Disable).

Lemma wins_snoc_same w e table : wins w table → ¬ assigned e → wins w (table ++ [e]).
Proof.
  intros (Hin & Ha & Hw) He. split_and!; [apply elem_of_app; by left|done|].
  intros x [Hx|Hx%list_elem_of_singleton]%elem_of_app Hxa; [by apply Hw|by subst].
Qed.

Lemma wins_snoc w w' e table :
  wins w table → assigned e → w' = w ∨ w' = e →
  enable_priority w' <= enable_priority w → enable_priority w' <= enable_priority e →
  (enable_priority w' = enable_priority w → enable_state w = Disable → enable_state w' = Disable) →
  (enable_priority w' = enable_priority e → enable_state e = Disable → enable_state w' = Disable) →
  wins w' (table ++ [e]).
Proof.
  intros (Hin & Ha & Hw) He Hw' Hp1 Hp2 Hd1 Hd2. split_and!.
  - apply elem_of_app. destruct Hw' as [->| ->]; [by left|right; by apply list_elem_of_singleton].
  - by destruct Hw' as [->| ->].
  - intros x [Hx|Hx%list_elem_of_singleton]%elem_of_app Hxa; [|by subst].
    destruct (Hw x Hx Hxa) as [H1 H2]. split; [lia|]. intros E Hd. apply Hd1; [lia|]. apply H2; [lia|done].
Qed.

Lemma winner table :
  let w := foldl compare_source default_source table in
  (w = default_source ∧ ∀ e, e ∈ table → ¬ assigned e) ∨ wins w table.
Proof.
  cbv zeta. induction table as [|e table IH] using rev_ind; [left; split; [done|]; by intros e He%not_elem_of_nil|].
  rewrite foldl_app. cbn [foldl]. set (w := foldl _ _ _) in *.
  destruct (decide (enable_state e = Unassigned)) as [He|He].
  - assert (compare_source w e = w) as -> by (unfold compare_source; by rewrite He).
    destruct IH as [[Hw Hn]|Hw]; [left|right; apply wins_snoc_same; [done|by intros []]].
    split; [done|]. intros x [Hx|Hx%list_elem_of_singleton]%elem_of_app; [by apply Hn|]. subst. by intros [].
  - right. destruct IH as [[-> Hn]|Hw].
    + assert (compare_source default_source e = e) as -> by (unfold compare_source; by destruct (enable_state e)).
      split_and!; [apply elem_of_app; right; by apply list_elem_of_singleton|done|].
      intros x [Hx|Hx%list_elem_of_singleton]%elem_of_app Hxa; [by destruct (Hn x Hx)|by subst].
    + pose proof Hw as (_ & Ha & _). unfold compare_source.
      destruct (enable_state e) eqn:Hse; [done| |]; (destruct (enable_state w) eqn:Hsw; [done| |]);
        cbn [bool_decide]; repeat case_bool_decide; try discriminate;
        (destruct (Z.eqb_spec (enable_priority e) (enable_priority w));
          [|destruct (Z.ltb_spec (enable_priority e) (enable_priority w))]);
        (eapply wins_snoc; [exact Hw|unfold assigned; congruence|auto|lia|lia|..]); intros; congruence || lia.
Qed.

(** The entries of the table: the last word of each source. *)
Definition latest (l : list EnableDisableSource) (e : EnableDisableSource) : Prop :=
  ∃ l1 l2, l = l1 ++ e :: l2 ∧ Forall (λ x, enable_source x ≠ enable_source e) l2.

Lemma latest_snoc l x e :
  latest (l ++ [x]) e ↔ e = x ∨ latest l e ∧ enable_source x ≠ enable_source e.
Proof.
  split.
  - intros (l1 & l2 & E & Hl). destruct l2 as [|y l2 _] using rev_ind.
    + apply app_inj_tail in E as [_ ->]. by left.
    + rewrite app_comm_cons, app_assoc in E. apply app_inj_tail in E as [-> ->].
      apply Forall_app in Hl as [Hl Hy]. right. split; [by exists l1, l2|]. by inversion Hy.
  - intros [->|[(l1 & l2 & -> & Hl) Hx]]; [by exists l, []|]. exists l1, (l2 ++ [x]).
    split; [by rewrite <- app_assoc|]. apply Forall_app. split; [done|by constructor].
Qed.

Lemma update_sources x table :
  NoDup (enable_source <$> table) →
  NoDup (enable_source <$> update_source x table) ∧
  ∀ e, e ∈ update_source x table ↔ e = x ∨ e ∈ table ∧ enable_source x ≠ enable_source e.
Proof.
  induction table as [|y table IH]; cbn.
  - intros _. split; [apply NoDup_singleton|]. intros e. rewrite list_elem_of_singleton. split; [by left|].
    by intros [?|[?%not_elem_of_nil _]].
  - intros [Hy Hnd]%NoDup_cons. destruct (IH Hnd) as [H1 H2]. case_bool_decide as E.
    + split; [cbn; rewrite <- E; by constructor|]. intros e. rewrite !elem_of_cons. split.
      * intros [->|Hin]; [by left|]. right. split; [by right|]. rewrite <- E. intros Hs. apply Hy. rewrite Hs.
        by apply list_elem_of_fmap_2.
      * intros [->|[[->|Hin] Hs]]; [by left|done|by right].
    + split.
      * cbn. constructor; [|done]. intros (e & Hs & He)%list_elem_of_fmap. apply H2 in He as [->|[He _]]; [done|].
        apply Hy. rewrite Hs. by apply list_elem_of_fmap_2.
      * intros e. rewrite !elem_of_cons, H2. split; [|naive_solver]. intros [->|[->|[? ?]]]; naive_solver.
Qed.

Lemma table_latest l :
  let table := foldl (λ t x, update_source x t) [] l in
  NoDup (enable_source <$> table) ∧ ∀ e, e ∈ table ↔ latest l e.
Proof.
  cbv zeta. induction l as [|x l IH] using rev_ind.
  - split; [constructor|]. intros e. split; [by intros ?%not_elem_of_nil|]. by intros ([] & ? & ? & _).
  - rewrite foldl_app. cbn [foldl]. destruct IH as [Hnd Hl]. destruct (update_sources x _ Hnd) as [H1 H2].
    split; [done|]. intros e. by rewrite H2, latest_snoc, Hl.
Qed.

Lemma update_all l s :
  (cfor l enable_disable_source_table_update : op ()) s =
  (Ret tt, set_enable_disable_source_table (foldl (λ t x, update_source x t) (enable_disable_source_table s) l) s, []).
Proof.
  revert s. induction l as [|x l IH]; intros s; [by destruct s|]. cbn [cfor].
  rewrite (bind_silent _ _ s tt _ eq_refl). rewrite IH. by destruct s.
Qed.

(** C25: the decision of the table of enable and disable sources. After any updates of an
    empty table, parsing it decides for disabled exactly when the last word of some
    source is to disable and no source whose last word is to enable or disable has a
    lower priority number. *)
Theorem enable_decision l s :
  enable_disable_source_table s = [] →
  ∃ b s', (cfor l enable_disable_source_table_update ;; parse_enable_disable_source_table) s = (Ret b, s', []) ∧
    (b = false ↔ ∃ d, latest l d ∧ enable_state d = Disable ∧
                      ∀ e, latest l e → assigned e → enable_priority d <= enable_priority e).
Proof.
  intros Hs. do 2 eexists. split.
  - rewrite (bind_silent _ _ s tt _ (update_all l s)). rewrite Hs. reflexivity.
  - destruct (table_latest l) as [_ Hl]. cbn. set (table := foldl _ [] l) in *.
    destruct (winner table) as [[-> Hn]|(Hin & Ha & Hw)].
    + cbn. split; [done|]. intros (d & Hd & Hdis & _). destruct (Hn d); [by apply Hl|]. unfold assigned. congruence.
    + set (w := foldl compare_source _ _) in *. rewrite negb_false_iff, bool_decide_eq_true. split.
      * intros Hdis. exists w. split_and!; [by apply Hl|done|]. intros e He Hea. by apply Hw; [apply Hl|].
      * intros (d & Hd & Hdis & Hle). assert (assigned d) as Hda by (unfold assigned; congruence).
        destruct (Hw d ltac:(by apply Hl) Hda) as [H1 H2]. apply H2; [|done].
        specialize (Hle w ltac:(by apply Hl) Ha). lia.
Qed.

End ChgFacts.
