(* ===== verification/ChargerBoard.v ===== *)
(** * The charger and the control pilot state machine

    EvseManager gives the charger's calls to the board to [IECStateMachine], and queues the
    events of that machine for the charger's main loop.  [station] is the two of them with
    the queue.  The contactors are told to close only inside a transaction. *)

From Stdlib Require Import String Floats.SpecFloat.
From S2P Require Import Prelude Float32 IecStateMachine IecFacts EvseContext AuthHandler ChargerTypes ChargerOps ChargerStates Charger ChargerCore ChargerPass ChargerLoop ChargerRuns.

Module ChgBoard.

Import Chg ChgOps Chgr ChgCore ChgPass ChgRuns.

(** ** The station *)
Record station := {
  charger : Charger;
  board : Iec.iec;
  bsp_event_queue : list Iec.CPEvent;
}.

(** The charger's calls to the board. *)
Definition forward (c : call) : option Iec.request :=
  match c with
  | bsp_setup v => Some (Iec.req_setup v)
  | bsp_enable b => Some (Iec.req_enable b)
  | bsp_allow_power_on b why => Some (Iec.req_allow_power_on b why)
  | bsp_set_pwm d => Some (Iec.req_set_pwm (to_double d))
  | bsp_set_cp_state_X1 => Some Iec.req_set_cp_state_X1
  | bsp_set_cp_state_F => Some Iec.req_set_cp_state_F
  | bsp_set_cp_state_E => Some Iec.req_set_cp_state_E
  | bsp_set_authorized b => Some (Iec.req_set_authorized b)
  | bsp_switch_three_phases_while_charging n => Some (Iec.req_switch_three_phases n)
  | bsp_set_overcurrent_limit a => Some (Iec.req_set_overcurrent_limit (to_double a))
  | _ => None
  end.

Definition event_of (o : Iec.output) : option Iec.CPEvent :=
  match o with Iec.signal_event e => Some e | _ => None end.

(** What happens: a request to the charger, the charger taking an event from its queue, or
    something on the side of the board (events of the driver, timers, the lock). *)
Inductive happening := Ask (rq : request) | NextEvent | OnBoard (r : Iec.request).

Definition board_side (r : Iec.request) : bool :=
  match r with
  | Iec.req_bsp_event _ | Iec.req_set_pp_ampacity _ | Iec.req_set_max_phases _ | Iec.req_connector_force_unlock
  | Iec.req_set_keep_cable_locked _ | Iec.req_set_ev_simplified_mode_evse_limit _ | Iec.req_timeout_state_c1
  | Iec.req_timeout_unlock_state_F | Iec.req_timeout_captive_lock => true
  | _ => false
  end.

Definition ask (now : Z) (rq : request) (st : station) : station * (list call * list Iec.output) :=
  let '(s, o) := step rq (charger st) in
  let '(b, bo) := IecFacts.handle_all ((now,.) <$> omap forward o) (board st) in
  ({| charger := s; board := b; bsp_event_queue := bsp_event_queue st ++ omap event_of bo |}, (o, bo)).

Definition happen (now : Z) (h : happening) (st : station) : station * (list call * list Iec.output) :=
  match h with
  | Ask rq => ask now rq st
  | NextEvent =>
      match bsp_event_queue st with
      | [] => (st, ([], []))
      | ev :: q => ask now (CpEvent ev) {| charger := charger st; board := board st; bsp_event_queue := q |}
      end
  | OnBoard r =>
      let '(_, b, bo) := Iec.handle now r (board st) in
      ({| charger := charger st; board := b; bsp_event_queue := bsp_event_queue st ++ omap event_of bo |}, ([], bo))
  end.

Definition station_new (c : Charger) (b : Iec.iec) : station :=
  {| charger := c; board := b; bsp_event_queue := [] |}.

Fixpoint happen_all (hs : list (Z * happening)) (st : station) : station * (list call * list Iec.output) :=
  match hs with
  | [] => (st, ([], []))
  | (now, h) :: hs' =>
      let '(st1, (o1, b1)) := happen now h st in
      let '(st2, (o2, b2)) := happen_all hs' st1 in
      (st2, (o1 ++ o2, b1 ++ b2))
  end.

(** Requests to the charger are valid; the side of the board does not speak for it. *)
Definition proper (h : happening) (st : station) : Prop :=
  match h with
  | Ask rq => valid rq (charger st)
  | NextEvent => True
  | OnBoard r => board_side r = true
  end.
Fixpoint all_proper (hs : list (Z * happening)) (st : station) : Prop :=
  match hs with
  | [] => True
  | (now, h) :: hs' => proper h st ∧ all_proper hs' (happen now h st).1
  end.

(** ** The permission reaches the board *)
Definition blind (_ : ()) (_ : Iec.output) : () := tt.

Ltac refused_leaf := let H := fresh in intros ? ? H; first [exact H | reflexivity].

(** Only a permission of the charger allows the board to switch on. *)
Lemma refused_stays now r :
  (∀ why, r ≠ Iec.req_allow_power_on true why) →
  Tracks blind (λ s _, Iec.power_on_allowed s = false) (Iec.handle now r).
Proof.
  intros Hr. destruct r; cbn [Iec.handle]; try (track refused_leaf).
  destruct value; [by destruct (Hr reason)|]. track refused_leaf.
Qed.

Lemma allowed_before now r s :
  Iec.power_on_allowed (st_of (Iec.handle now r s)) = true →
  (∀ why, r ≠ Iec.req_allow_power_on true why) → Iec.power_on_allowed s = true.
Proof.
  intros H Hr. destruct (Iec.power_on_allowed s) eqn:E; [done|].
  pose proof (tracks_st blind _ _ s tt (refused_stays now r Hr) E) as H'. cbn in H'. congruence.
Qed.

Lemma refusal_reaches now why s : Iec.power_on_allowed (st_of (Iec.handle now (Iec.req_allow_power_on false why) s)) = false.
Proof.
  assert (leads blind (λ _ _, True) (Iec.allow_power_on now false why) (λ _ s _, Iec.power_on_allowed s = false)) as H.
  { unfold Iec.allow_power_on. eapply leads_bind with (Q := λ _ s _, Iec.power_on_allowed s = false); [by apply leads_modify|].
    intros []. track refused_leaf. }
  destruct (H s tt I) as (a & s' & o & E & Hs). cbn [Iec.handle]. by rewrite E.
Qed.

(** One call of the charger. *)
Lemma forward_allowed now v c b :
  (Iec.power_on_allowed b = true → permission v = true) →
  Iec.power_on_allowed (IecFacts.handle_all ((now,.) <$> option_list (forward c)) b).1 = true →
  permission (see v c) = true.
Proof.
  intros Hb. assert (∀ r, (IecFacts.handle_all ((now,.) <$> option_list (Some r)) b).1 = st_of (Iec.handle now r b)) as E
    by done.
  destruct c; cbn [forward]; rewrite ?E; try (by apply Hb);
    try (intros Ha; apply Hb; by apply (allowed_before now _ b Ha)).
  - destruct b0; [done|]. by rewrite refusal_reaches.
  - by destruct e.
Qed.

Lemma calls_allowed now o : ∀ v b,
  (Iec.power_on_allowed b = true → permission v = true) →
  Iec.power_on_allowed (IecFacts.handle_all ((now,.) <$> omap forward o) b).1 = true →
  permission (foldl see v o) = true.
Proof.
  induction o as [|c o IH]; intros v b Hb; [done|]. cbn [foldl].
  assert (omap forward (c :: o) = option_list (forward c) ++ omap forward o) as ->
    by (cbn; by destruct (forward c)).
  rewrite fmap_app, IecFacts.handle_all_app. cbn [fst]. apply IH. by apply forward_allowed.
Qed.

(** ** The station's invariant *)
Record Joint (st : station) (v : view) (told : bool) : Prop := {
  joint_charger : Inv (core_of (charger st)) (refreshed v);
  joint_board : IecFacts.cp_inv (board st) told;
  joint_allowed : Iec.power_on_allowed (board st) = true → permission v = true;
}.

Lemma ask_keeps now rq st v told :
  valid rq (charger st) → Joint st v told →
  let '(st', (o, bo)) := ask now rq st in Joint st' (foldl see v o) (foldl IecFacts.power_view told bo).
Proof.
  intros Hv [HI Hb Ha]. unfold ask. pose proof (step_keeps rq _ v Hv HI) as H1.
  destruct (step rq (charger st)) as [s o]. cbn [fst snd] in H1. pose proof (calls_allowed now o v (board st) Ha) as H2.
  pose proof (IecFacts.handle_all_tracks IecFacts.power_view IecFacts.cp_inv ((now,.) <$> omap forward o) (board st) told) as H3.
  destruct (IecFacts.handle_all _ (board st)) as [b bo]. cbn [fst snd] in *. constructor; cbn [charger board].
  - rewrite <- watch_refreshed. by apply inv_refreshed.
  - apply H3; [apply _|done].
  - done.
Qed.

Lemma happen_keeps now h st v told :
  proper h st → Joint st v told →
  let '(st', (o, bo)) := happen now h st in Joint st' (foldl see v o) (foldl IecFacts.power_view told bo).
Proof.
  intros Hp HJ. destruct h as [rq| |r]; cbn [happen proper] in *; [by apply ask_keeps| |].
  - destruct (bsp_event_queue st) as [|ev q]; [done|]. apply ask_keeps; [done|]. by destruct HJ.
  - destruct HJ as [HI Hb Ha]. pose proof (IecFacts.handle_cp_inv now r (board st) told Hb) as (a & b & bo & E & H).
    pose proof (allowed_before now r (board st)) as H2. rewrite E in *. constructor; cbn [charger board foldl]; [done|done|].
    intros Hal. apply Ha, H2; [done|]. intros why ->. discriminate.
Qed.

Lemma happen_all_keeps hs : ∀ st v told,
  all_proper hs st → Joint st v told →
  let '(st', (o, bo)) := happen_all hs st in Joint st' (foldl see v o) (foldl IecFacts.power_view told bo).
Proof.
  induction hs as [|[now h] hs IH]; intros st v told; cbn [all_proper happen_all]; [done|]. intros [Hp Hr] HJ.
  pose proof (happen_keeps now h st v told Hp HJ) as H1. destruct (happen now h st) as [st1 [o1 b1]].
  specialize (IH st1 _ _ Hr H1). destruct (happen_all hs st1) as [st2 [o2 b2]]. by rewrite !foldl_app.
Qed.

(** C3: in every run of the station, while the driver's last instruction is that the
    contactors may close, the car is in CP state C or D and the charger is in a session
    with a running transaction, which the session events have announced and not yet
    ended. *)
Theorem contactors_only_in_transaction pnc tp t cable meters now lock_b use_auth keep delay hs :
  let st0 := station_new (Charger_new pnc tp t cable meters now) (Iec.IECStateMachine_new lock_b use_auth keep delay) in
  all_proper hs st0 →
  let '(st, (o, bo)) := happen_all hs st0 in
  foldl IecFacts.power_view false bo = true →
  (Iec.last_cp_state (board st) = Iec.C ∨ Iec.last_cp_state (board st) = Iec.D) ∧
  flag_transaction_active (charger st) = true ∧ session_active (charger st) = true ∧
  ∃ p, proto (watch o) = Some p ∧ transaction_open p = true ∧ stored (watch o) = session_uuid (charger st).
Proof.
  intros st0 Hp. pose proof (happen_all_keeps hs st0 fresh_view false Hp) as H.
  destruct (happen_all hs st0) as [st [o bo]]. intros Htold. destruct H as [HI Hb Ha]; [constructor; [apply inv_new|by repeat constructor|done]|].
  destruct (IecFacts.ci_power _ _ Hb) as [_ Hal]. specialize (Ha (Hal Htold)). cbn in Ha.
  pose proof (inv_billed _ _ HI Ha) as Htx. cbn in Htx.
  destruct (inv_protocol _ _ HI) as (p & Hp' & H1 & H2 & _). pose proof (inv_stored _ _ HI) as Hst. cbn in *.
  rewrite Htx in *. split_and!; [|done|by apply (inv_transaction _ _ HI)|by exists p].
  pose proof (IecFacts.ci_state _ _ Hb Htold) as Hcd. by destruct (Iec.last_cp_state (board st)); auto.
Qed.

End ChgBoard.
