(* ===== verification/ChargerDemo.v ===== *)
(** * Runs of the charger on concrete inputs

    An AC session with basic charging, the witnesses of the theorems, and the runs behind
    the findings. *)

From Stdlib Require Import String Floats.SpecFloat.
From S2P Require Import Prelude Float32 IecStateMachine IecFacts EvseContext AuthHandler ChargerTypes ChargerOps ChargerStates Charger ChargerCore ChargerPass ChargerLoop ChargerRuns ChargerFacts ChargerBoard.

Module ChgDemo.

Import Chg ChgOps ChgStates Chgr ChgCore ChgPass ChgRuns ChgFacts ChgBoard.
#[local] Open Scope string_scope.
#[local] Open Scope Z_scope.

(** ** An AC session *)
Definition t0 : Z := 1000000000000.
Definition seconds (n : Z) : Z := n * 1000000000.
Notation fresh_charger := (Charger_new false Unknown IEC62196Type2Cable None 1 t0).
Definition ac_config : SetupConfig :=
  {| setup_config := config_new; setup_has_ventilation := false; setup_ac_with_soc_timeout := false;
     setup_tolerance_percent := zero; setup_measurement_noise_A := zero |}.
Definition at_time (n : Z) : request := Environment (t0 + seconds n) (t0 + seconds n) [] [] [] ["s1"].
Definition accepted : Auth.ValidationResult := Auth.ValidationResult_of Evse.auth_Accepted None.
Definition token : Auth.ProvidedIdToken := no_token.

Definition plug_in : list request :=
  [Setup ac_config; StartMain; at_time 0; SetMaxCurrent (flt 16 1) (t0 + seconds 10000); MainTurn;
   CpEvent Iec.CarPluggedIn].
Definition start : list request := plug_in ++ [Authorize true token accepted; MainTurn].
Definition charge_run : list request := start ++ [CpEvent Iec.CarRequestedPower; CpEvent Iec.PowerOn].
Definition stop_run : list request :=
  charge_run ++ [CancelTransaction {| Auth.reason := Auth.Remote; Auth.id_tag := None |}; MainTurn;
                 CpEvent Iec.CarRequestedStopPower; CpEvent Iec.PowerOff; CpEvent Iec.CarUnplugged].

Definition state_after (rqs : list request) : EvseState := current_state (run rqs fresh_charger).1.
Notation seen rqs := (watch (run rqs fresh_charger).2).

Ltac run_valid := cbn [valid_run valid app]; repeat split.

Example charges : (state_after charge_run, permission (seen charge_run), stored (seen charge_run)) = (Charging, true, "s1").
Proof. vm_compute. reflexivity. Qed.
Example ends_idle : (state_after stop_run, permission (seen stop_run), stored (seen stop_run)) = (Idle, false, "").
Proof. vm_compute. reflexivity. Qed.

(** ** Witnesses *)
Lemma session_protocol_witness :
  ∃ p, proto (seen charge_run) = Some p ∧ session_open p = true ∧ transaction_open p = true ∧
       session_authorized p = true ∧ stored (seen charge_run) = "s1".
Proof.
  destruct (session_protocol false Unknown IEC62196Type2Cable None 1 t0 charge_run ltac:(run_valid))
    as (p & Hp & H1 & H2 & H3 & H4).
  exists p. split_and!; [exact Hp|rewrite H1|rewrite H2|apply H3|rewrite H4]; vm_compute; reflexivity.
Defined.

Lemma power_only_when_allowed_witness :
  let s := (step (CpEvent Iec.CarRequestedPower) (run start fresh_charger).1).1 in
  flag_authorized s = true ∧ flag_transaction_active s = true ∧ session_active s = true ∧
  flag_ev_plugged_in s = true ∧ flag_disable_requested s = false ∧ shutdown_type s = NoShutdown.
Proof.
  apply (power_only_when_allowed false Unknown IEC62196Type2Cable None 1 t0 start
           (CpEvent Iec.CarRequestedPower) Iec.FullPowerCharging ltac:(run_valid) I).
  apply (list_elem_of_lookup_2 _ 2%nat). vm_compute. reflexivity.
Defined.

Lemma state_machine_ends_witness :
  ∃ s' o, run_loop 20 (run charge_run fresh_charger).1 = (Ret (Some settled), s', o) ∧
          run_loop max_passes (run charge_run fresh_charger).1 = (Ret (Some settled), s', o).
Proof.
  apply (state_machine_ends false Unknown IEC62196Type2Cable None 1 t0 charge_run 20 ltac:(run_valid)).
  unfold max_passes. lia.
Defined.

(** An emergency while charging: the next turn withdraws the permission. *)
Definition emergency_run : list request := charge_run ++ [ErrorEvents [ForceEmergencyShutdown]].
(** The power fails while charging: the end is published without a session id. *)
Lemma restart_finishes_transaction_witness :
  let v := seen charge_run in
  let o := (step (CleanupOnStartup (stored v)) fresh_charger).2 in
  let w := foldl see v o in
  transaction_open <$> proto v = Some true ∧ stored v = "s1" ∧ stored w = "" ∧
  finished_events o = [("", Auth.PowerLoss, None)] ∧ meter_stops o = ["s1"; ""].
Proof.
  cbv zeta. split; [vm_compute; reflexivity|]. split; [vm_compute; reflexivity|].
  destruct (restart_finishes_transaction false Unknown IEC62196Type2Cable None 1 t0 charge_run fresh_charger)
    as (H1 & _ & H2).
  - run_valid.
  - intros _ H. vm_compute in H. discriminate H.
  - split; [exact H1|]. split; [|vm_compute; reflexivity].
    assert (flag_transaction_active (run charge_run (Charger_new false Unknown IEC62196Type2Cable None 1 t0)).1 = true) as Hf
      by (vm_compute; reflexivity).
    rewrite Hf in H2. exact (proj1 H2).
Defined.

(** The CSMS disables, the technician enables with a higher priority. *)
Definition by_csms : EnableDisableSource :=
  {| enable_source := CSMS; enable_state := Disable; enable_priority := 100 |}.
Definition by_technician : EnableDisableSource :=
  {| enable_source := ServiceTechnician; enable_state := Enable; enable_priority := 10 |}.
Lemma enable_decision_witness :
  ∃ b s', (cfor [by_csms; by_technician] enable_disable_source_table_update ;; parse_enable_disable_source_table)
            fresh_charger = (Ret b, s', []) ∧ b = true.
Proof.
  destruct (enable_decision [by_csms; by_technician] fresh_charger eq_refl) as (b & s' & E & _).
  exists b, s'. split; [exact E|]. vm_compute in E. by injection E as <- _.
Defined.

(** The session on the station: the events of the control pilot go through the queue. *)
Definition station0 : station :=
  station_new fresh_charger (Iec.IECStateMachine_new false false false 0).
Definition charge_station : list (Z * happening) :=
  (0,.) <$> [Ask (Setup ac_config); Ask StartMain; Ask (at_time 0); Ask (SetMaxCurrent (flt 16 1) (t0 + seconds 10000));
   Ask MainTurn; OnBoard (Iec.req_bsp_event Iec.Bsp_A); OnBoard (Iec.req_bsp_event Iec.Bsp_B); NextEvent; NextEvent;
   Ask (Authorize true token accepted); Ask MainTurn; OnBoard (Iec.req_bsp_event Iec.Bsp_C); NextEvent; NextEvent].
Lemma contactors_only_in_transaction_witness :
  let '(st, (o, bo)) := happen_all charge_station station0 in
  foldl IecFacts.power_view false bo = true ∧ current_state (charger st) = Charging ∧
  flag_transaction_active (charger st) = true.
Proof.
  pose proof (contactors_only_in_transaction false Unknown IEC62196Type2Cable None 1 t0 false false false 0 charge_station
    ltac:(cbn [all_proper proper charge_station fmap list_fmap valid board_side]; repeat split)) as H.
  change (station_new _ _) with station0 in H.
  assert (let '(st, (o, bo)) := happen_all charge_station station0 in
    foldl IecFacts.power_view false bo = true ∧ current_state (charger st) = Charging) as H2
    by (vm_compute; split; reflexivity).
  destruct (happen_all charge_station station0) as [st [o bo]]. destruct H2 as [H2 H3]. destruct (H H2) as (_ & H4 & _).
  split_and!; [exact H2|exact H3|exact H4].
Defined.

(** ** Findings *)

(** A DC session: the car has closed the contactors and takes current. *)
Definition dc_config : SetupConfig :=
  {| setup_config :=
       {| ac_enforce_hlc := false; ac_limit_slac_init_retries := true; ac_hlc_use_5percent := false;
          ac_hlc_enabled := true; charge_mode := DC; switch_3ph1ph_delay_s := 10; switch_3ph1ph_cp_state := "X1";
          soft_over_current_timeout_ms := 7000; state_F_after_fault_ms := 300; reinit_duration_ms := 3000;
          reinit_method := "CPStateF"; fail_on_powermeter_errors := false; raise_mrec9 := false;
          sleep_before_enabling_pwm_hlc_mode_ms := 1000; hlc_charge_loop_without_energy_timeout_s := 300 |};
     setup_has_ventilation := false; setup_ac_with_soc_timeout := false; setup_tolerance_percent := zero;
     setup_measurement_noise_A := zero |}.
Definition dc_limits : DcEvseLimits :=
  {| evse_current_limit := flt 100 1; evse_power_limit := flt 50000 1; evse_voltage_limit := flt 500 1;
     evse_discharge_current_limit := None; evse_discharge_power_limit := None |}.
Definition dc_charge_run : list request :=
  [Setup dc_config; StartMain; at_time 0; InformMaxLimits dc_limits; MainTurn; CpEvent Iec.CarPluggedIn; at_time 2;
   Authorize true token accepted; MainTurn; SetHlcAllowCloseContactor true; CpEvent Iec.CarRequestedPower;
   CpEvent Iec.PowerOn; NotifyCurrentdemandStarted; MainTurn].

Definition is_off (c : call) : bool :=
  match c with bsp_allow_power_on false _ | signal_dc_supply_off | bsp_set_cp_state_X1 | signal_hlc_error _ => true | _ => false end.

(** An emergency that comes while the charger waits for the car to stop is not acted upon:
    the contactors keep their permission, the supply is not switched off, and the time
    after which the stop is forced starts anew. *)
Definition stopping_run : list request :=
  dc_charge_run ++ [PauseCharging; at_time 10; MainTurn; at_time 29; ErrorEvents [ForceEmergencyShutdown]].
Lemma emergency_ignored_while_stopping :
  let before := run stopping_run fresh_charger in
  let turn := step MainTurn before.1 in
  let later := run (stopping_run ++ [MainTurn; at_time 48; MainTurn]) fresh_charger in
  current_state before.1 = StoppingCharging ∧ shutdown_type before.1 = EmergencyShutdown ∧
  existsb is_off turn.2 = false ∧
  current_state later.1 = StoppingCharging ∧ permission (watch later.2) = true.
Proof. vm_compute. split_and!; reflexivity. Qed.

(** The same emergency one turn earlier, while charging. *)
Example emergency_while_charging :
  existsb is_off (step MainTurn (run (dc_charge_run ++ [ErrorEvents [ForceEmergencyShutdown]]) fresh_charger).1).2 = true.
Proof. vm_compute. reflexivity. Qed.

(** Withdrawing an authorization that a transaction already uses, while the charger is
    still in WaitingForAuthentication, ends the session before the transaction. *)
Definition hlc_config : SetupConfig :=
  {| setup_config :=
       {| ac_enforce_hlc := false; ac_limit_slac_init_retries := true; ac_hlc_use_5percent := true;
          ac_hlc_enabled := true; charge_mode := AC; switch_3ph1ph_delay_s := 10; switch_3ph1ph_cp_state := "X1";
          soft_over_current_timeout_ms := 7000; state_F_after_fault_ms := 300; reinit_duration_ms := 3000;
          reinit_method := "CPStateF"; fail_on_powermeter_errors := false; raise_mrec9 := false;
          sleep_before_enabling_pwm_hlc_mode_ms := 1000; hlc_charge_loop_without_energy_timeout_s := 300 |};
     setup_has_ventilation := false; setup_ac_with_soc_timeout := false; setup_tolerance_percent := zero;
     setup_measurement_noise_A := zero |}.
Definition hlc_plug_in : list request :=
  [Setup hlc_config; StartMain; at_time 0; SetMaxCurrent (flt 16 1) (t0 + seconds 10000); MainTurn;
   CpEvent Iec.CarPluggedIn].
Definition events_of (rqs : list request) : list call :=
  filter (λ c, is_true (match c with
     | signal_session_started_event _ _ | signal_transaction_started_event _ _ | signal_transaction_finished_event _ _ _
     | signal_simple_event Auth.SessionFinished => true | _ => false end)) (run rqs fresh_charger).2.

Definition withdraw_run : list request :=
  hlc_plug_in ++ [SetMatchingStarted true; Authorize true token accepted; MainTurn; Deauthorize; CpEvent Iec.CarUnplugged].
Lemma withdrawal_ends_session_before_transaction :
  events_of withdraw_run =
    [signal_session_started_event Auth.EVConnected None; signal_transaction_started_event "s1" token;
     signal_simple_event Auth.SessionFinished; signal_transaction_finished_event "" Auth.EVDisconnected None;
     signal_simple_event Auth.SessionFinished] ∧
  proto (seen withdraw_run) = None.
Proof. vm_compute. split; reflexivity. Qed.

(** A reinitialisation that was requested before the car left starts when the charger is
    idle: a session is opened without a car, and a car that is plugged in meanwhile is
    not noticed. *)
Definition late_reinit_run : list request :=
  hlc_plug_in ++ [SetMatchingStarted true; SetSlacMatched true; StartReinit; MainTurn; CpEvent Iec.CarUnplugged;
                  SetSlacMatched false; MainTurn; CpEvent Iec.CarPluggedIn; at_time 4; MainTurn].
Lemma late_reinit_opens_session :
  state_after (take 11 late_reinit_run) = Idle ∧
  state_after (take 13 late_reinit_run) = Reinit ∧
  state_after late_reinit_run = Idle ∧ flag_ev_plugged_in (run late_reinit_run fresh_charger).1 = false ∧
  events_of late_reinit_run =
    [signal_session_started_event Auth.EVConnected None; signal_simple_event Auth.SessionFinished;
     signal_session_started_event Auth.EVConnected None; signal_simple_event Auth.SessionFinished].
Proof. vm_compute. split_and!; reflexivity. Qed.

(** The return for the state of charge swallows the change of the state: the entry actions
    are lost, here the start of the session. *)
Definition soc_config : SetupConfig :=
  {| setup_config := config_new; setup_has_ventilation := false; setup_ac_with_soc_timeout := true;
     setup_tolerance_percent := zero; setup_measurement_noise_A := zero |}.
Definition soc_run : Charger :=
  let s := (run [Setup soc_config; StartMain; at_time 0; SetMaxCurrent (flt 16 1) (t0 + seconds 10000); MainTurn] fresh_charger).1 in
  (* the timer when the event arrives: two passes before it runs out *)
  set_ac_with_soc_timer 50 s.
Lemma soc_return_loses_the_session :
  let '(s, o) := run [CpEvent Iec.CarPluggedIn; MainTurn] soc_run in
  current_state s = WaitingForAuthentication ∧ session_active s = false ∧ o = [signal_ac_with_soc_timeout].
Proof. vm_compute. split_and!; reflexivity. Qed.

(** A second source that disables the charger as well enables it again: a disabled charger
    whose connector was never disabled leaves Disabled on every request for connector 0,
    although the table still says Disable, and no Enabled event is published. *)
Definition by_api : EnableDisableSource :=
  {| enable_source := LocalAPI; enable_state := Disable; enable_priority := 200 |}.
Definition disable_run : list request :=
  [Setup ac_config; StartMain; InitialStatePublish; MainTurn; EnableDisable 0 by_csms].
Lemma second_disable_enables :
  let before := (run disable_run fresh_charger).1 in
  let '(s, o) := step (EnableDisable 0 by_api) before in
  current_state before = Disabled ∧
  current_state s = Idle ∧ active_enable_disable_source s = by_csms ∧ flag_disable_requested s = false ∧
  o = [bsp_enable true].
Proof. vm_compute. split_and!; reflexivity. Qed.

End ChgDemo.
