(* ===== verification/FloatRound.v ===== *)
(** * Rounding of single precision arithmetic

    What the operations of [SpecFloat] guarantee for binary32 numbers: the value of a
    number as an integer number of grains of [2^-298], the order in grains, and for sums,
    products and quotients the rounding error and monotonicity.  Everything is stated on
    integers. *)

From S2P Require Import Prelude Float32.
From Stdlib Require Import Floats.SpecFloat.

Module FloatRound.

Import Float32.

(** ** Grains *)
Definition valid (f : float) : bool := valid_binary prec emax f.
Definition sound (f : float) : bool := valid f && is_finite f.
Definition grain : Z := 298.
Definition grains (f : float) : Z :=
  match f with S754_finite s m e => cond_Zopp s (Zpos m * 2 ^ (e + grain)) | _ => 0 end.

Lemma digits2_pos_spec m : 2 ^ (Zpos (digits2_pos m) - 1) <= Zpos m < 2 ^ Zpos (digits2_pos m).
Proof.
  induction m as [m IH|m IH|]; cbn [digits2_pos]; [| |cbn; lia].
  all: rewrite Pos2Z.inj_succ; replace (Z.succ (Zpos (digits2_pos m)) - 1) with (Z.succ (Zpos (digits2_pos m) - 1)) by lia;
    rewrite !Z.pow_succ_r by lia; lia.
Qed.

Lemma Zdigits2_spec m : 0 < m → 2 ^ (Zdigits2 m - 1) <= m < 2 ^ Zdigits2 m ∧ 0 < Zdigits2 m.
Proof. intros Hm. destruct m; try lia. cbn. split; [apply digits2_pos_spec|lia]. Qed.

Lemma fexp_eq e : fexp prec emax e = Z.max (e - 24) (-149).
Proof. reflexivity. Qed.

Lemma valid_finite s m e :
  valid (S754_finite s m e) = true ↔ -149 <= e <= 104 ∧ Zpos m < 2 ^ 24 ∧ (e = -149 ∨ 2 ^ 23 <= Zpos m).
Proof.
  unfold valid, valid_binary, bounded, canonical_mantissa. rewrite fexp_eq, andb_true_iff, Z.eqb_eq, Z.leb_le.
  change (emax - prec) with 104. pose proof (digits2_pos_spec m) as H. set (d := Zpos (digits2_pos m)) in *.
  assert (0 < d) by (unfold d; lia). split.
  - intros [He Hm]. split; [lia|]. split.
    + eapply Z.lt_le_trans; [apply H|]. apply Z.pow_le_mono_r; lia.
    + destruct (decide (e = -149)) as [|Hn]; [by left|right]. assert (d = 24) as E by lia. rewrite E in H. exact (proj1 H).
  - intros (He & Hm & Hlow). split; [|lia].
    assert (d <= 24) by (destruct (decide (d <= 24)); [done|]; assert (2 ^ 24 <= 2 ^ (d - 1)) by (apply Z.pow_le_mono_r; lia); lia).
    destruct Hlow as [->|Hlow]; [lia|]. assert (24 <= d); [|lia].
    destruct (decide (24 <= d)); [done|]. assert (2 ^ d <= 2 ^ 23) by (apply Z.pow_le_mono_r; lia). lia.
Qed.

(** ** Order *)
Lemma pow_grain e : -298 <= e → 0 < 2 ^ (e + grain).
Proof. unfold grain. intros. apply Z.pow_pos_nonneg; lia. Qed.

Lemma grains_step e1 e2 : -298 <= e1 → e1 <= e2 → 2 ^ (e2 + grain) = 2 ^ (e2 - e1) * 2 ^ (e1 + grain).
Proof. unfold grain. intros. rewrite <- Z.pow_add_r by lia. f_equal. lia. Qed.

(** A number with a smaller exponent is smaller. *)
Lemma lower_exponent m1 e1 m2 e2 s1 s2 :
  valid (S754_finite s1 m1 e1) = true → valid (S754_finite s2 m2 e2) = true → e1 < e2 →
  Zpos m1 * 2 ^ (e1 + grain) < Zpos m2 * 2 ^ (e2 + grain).
Proof.
  intros (H1 & H1' & _)%valid_finite (H2 & _ & [->|H2'])%valid_finite He; [lia|].
  rewrite (grains_step e1 e2) by lia. assert (2 ^ 1 <= 2 ^ (e2 - e1)) by (apply Z.pow_le_mono_r; lia).
  pose proof (pow_grain e1 ltac:(lia)). rewrite Z.mul_assoc. apply Z.mul_lt_mono_pos_r; [done|]. nia.
Qed.

Lemma compare_mantissas m1 m2 e : 0 < e → (Zpos m1 * e ?= Zpos m2 * e) = (Zpos m1 ?= Zpos m2).
Proof. intros. symmetry. rewrite (Z.mul_comm _ e), (Z.mul_comm (Zpos m2)). by apply Zmult_compare_compat_l, Z.lt_gt. Qed.

Lemma SFcompare_grains a b : sound a = true → sound b = true → SFcompare a b = Some (grains a ?= grains b).
Proof.
  unfold sound. rewrite !andb_true_iff. intros [Va Fa] [Vb Fb].
  destruct a as [sa|sa| |sa ma ea], b as [sb|sb| |sb mb eb]; try done; unfold grains.
  - destruct sb; cbn [SFcompare cond_Zopp]; f_equal; pose proof (proj1 (valid_finite _ _ _) Vb) as (H & _); pose proof (pow_grain eb ltac:(lia));
      symmetry; [apply Z.compare_gt_iff|apply Z.compare_lt_iff]; lia.
  - destruct sa; cbn [SFcompare cond_Zopp]; f_equal; pose proof (proj1 (valid_finite _ _ _) Va) as (H & _); pose proof (pow_grain ea ltac:(lia));
      symmetry; [apply Z.compare_lt_iff|apply Z.compare_gt_iff]; lia.
  - pose proof (proj1 (valid_finite _ _ _) Va) as (Ha & _). pose proof (proj1 (valid_finite _ _ _) Vb) as (Hb & _).
    pose proof (pow_grain ea ltac:(lia)) as Pa. pose proof (pow_grain eb ltac:(lia)) as Pb.
    cbn [SFcompare cond_Zopp]. f_equal. destruct sa, sb; cbn [cond_Zopp].
    + destruct (Z.compare_spec ea eb) as [->|He|He].
      * rewrite <- Z.compare_opp, !Z.opp_involutive, compare_mantissas by done. cbn. by rewrite <- Pos.compare_antisym.
      * pose proof (lower_exponent _ _ _ _ _ _ Va Vb He). symmetry. apply Z.compare_gt_iff. lia.
      * pose proof (lower_exponent _ _ _ _ _ _ Vb Va He). symmetry. apply Z.compare_lt_iff. lia.
    + symmetry. apply Z.compare_lt_iff. lia.
    + symmetry. apply Z.compare_gt_iff. lia.
    + destruct (Z.compare_spec ea eb) as [->|He|He].
      * by rewrite compare_mantissas by done.
      * pose proof (lower_exponent _ _ _ _ _ _ Va Vb He). symmetry. apply Z.compare_lt_iff. lia.
      * pose proof (lower_exponent _ _ _ _ _ _ Vb Va He). symmetry. apply Z.compare_gt_iff. lia.
Qed.

Lemma f_lt_grains a b : sound a = true → sound b = true → f_lt a b = (grains a <? grains b).
Proof. intros Ha Hb. unfold f_lt, SFltb, Z.ltb. by rewrite (SFcompare_grains a b). Qed.
Lemma f_ge_grains a b : sound a = true → sound b = true → f_ge a b = (grains b <=? grains a).
Proof. intros Ha Hb. unfold f_ge, SFleb, Z.leb. rewrite (SFcompare_grains b a) by done. by destruct (_ ?= _). Qed.
Lemma f_eq_grains a b : sound a = true → sound b = true → f_eq a b = (grains a =? grains b).
Proof. intros Ha Hb. unfold f_eq, SFeqb. rewrite (SFcompare_grains a b) by done. rewrite Z.eqb_compare. by destruct (_ ?= _). Qed.

(** ** Rounding

    [placed N D r]: the record [r] of a shift says where [N / D] lies: its integral part,
    and whether the rest is nothing, below, at or above one half. *)
Definition placed (N D : Z) (r : shr_record) : Prop :=
  let m := shr_m r in
  0 <= m ∧
  match shr_r r, shr_s r with
  | false, false => N = m * D
  | false, true => m * D < N ∧ 2 * (N - m * D) < D
  | true, false => 2 * (N - m * D) = D
  | true, true => D < 2 * (N - m * D) ∧ N < (m + 1) * D
  end.

Lemma shr_1_placed N D r : 0 < D → placed N D r → placed N (2 * D) (shr_1 r).
Proof.
  unfold placed. destruct r as [m rr ss]. cbn [shr_m shr_r shr_s]. intros HD [Hm H].
  destruct m as [|[m|m|]|m]; cbn -[Z.mul]; [| | | |lia]; destruct rr, ss; cbn -[Z.mul] in *; (split; [lia|]); lia.
Qed.

Lemma iter_shr_1_placed p : ∀ N D r, 0 < D → placed N D r → placed N (2 ^ Zpos p * D) (iter_pos shr_1 p r).
Proof.
  induction p as [p IH|p IH|]; intros N D r HD H; cbn [iter_pos].
  - replace (2 ^ Zpos p~1 * D) with (2 ^ Zpos p * (2 ^ Zpos p * (2 * D))).
    2: { replace (Zpos p~1) with (Zpos p + (Zpos p + 1)) by lia. rewrite !Z.pow_add_r by lia. lia. }
    apply IH; [lia|]. apply IH; [lia|]. by apply shr_1_placed.
  - replace (2 ^ Zpos p~0 * D) with (2 ^ Zpos p * (2 ^ Zpos p * D)).
    2: { replace (Zpos p~0) with (Zpos p + Zpos p) by lia. rewrite Z.pow_add_r by lia. lia. }
    apply IH; [lia|]. by apply IH.
  - by apply shr_1_placed.
Qed.

Lemma placed_bounds N D r : 0 < D → placed N D r → shr_m r * D <= N < (shr_m r + 1) * D.
Proof. unfold placed. intros HD [Hm H]. destruct (shr_r r), (shr_s r); lia. Qed.

Lemma round_nearest N D r :
  0 < D → placed N D r →
  let k := round_nearest_even (shr_m r) (loc_of_shr_record r) in
  0 <= k ∧ shr_m r <= k <= shr_m r + 1 ∧ - D <= 2 * (k * D - N) <= D.
Proof.
  unfold placed. destruct r as [m rr ss]. cbn [shr_m shr_r shr_s]. intros HD [Hm H].
  destruct rr, ss; cbn in *; try destruct (Z.even m); lia.
Qed.

Lemma shr_fexp_placed N D m e l :
  0 < D → placed N D (shr_record_of_loc m l) → e <= fexp prec emax (Zdigits2 m + e) →
  ∃ r, shr_fexp prec emax m e l = (r, fexp prec emax (Zdigits2 m + e)) ∧
       placed N (2 ^ (fexp prec emax (Zdigits2 m + e) - e) * D) r ∧
       (fexp prec emax (Zdigits2 m + e) = e → r = shr_record_of_loc m l).
Proof.
  intros HD H He. unfold shr_fexp, shr. set (e1 := fexp _ _ _) in *.
  destruct (e1 - e) as [|p|p] eqn:E; [| |lia].
  - exists (shr_record_of_loc m l). split_and!; [f_equal; lia| |done]. by rewrite Z.mul_1_l.
  - exists (iter_pos shr_1 p (shr_record_of_loc m l)). split_and!; [f_equal; lia| |lia]. by apply iter_shr_1_placed.
Qed.

(** [f] is [N / D * 2^ex] (with sign [sx]), rounded to a multiple of [2^e1]. *)
Definition nearest (sx : bool) (N D ex : Z) (f : float) (k e1 : Z) : Prop :=
  let D' := 2 ^ (e1 - ex) * D in
  0 <= k ∧ -149 <= e1 ∧ ex <= e1 ∧ - D' <= 2 * (k * D' - N) <= D' ∧ (e1 = -149 ∨ 2 ^ 23 * D' <= N) ∧ N < 2 ^ 24 * D' ∧
  (sound f = true ∧ grains f = cond_Zopp sx (k * 2 ^ (e1 + grain)) ∨
   f = S754_infinity sx ∧ 2 ^ (128 + grain) <= k * 2 ^ (e1 + grain)).

Lemma finish_round sx k e1 :
  0 <= k <= 2 ^ 24 → -149 <= e1 → (e1 = -149 ∨ 2 ^ 23 <= k) →
  let f := let '(mrs, e) := shr_fexp prec emax k e1 loc_Exact in
           match shr_m mrs with
           | Z0 => S754_zero sx
           | Zpos m => if e <=? emax - prec then S754_finite sx m e else S754_infinity sx
           | _ => S754_nan
           end in
  sound f = true ∧ grains f = cond_Zopp sx (k * 2 ^ (e1 + grain)) ∨
  f = S754_infinity sx ∧ 2 ^ (128 + grain) <= k * 2 ^ (e1 + grain).
Proof.
  intros Hk He Hlow. change (emax - prec) with 104. destruct (decide (k = 2 ^ 24)) as [->|Hn].
  - unfold shr_fexp, shr. rewrite fexp_eq. change (Zdigits2 (2 ^ 24)) with 25.
    replace (Z.max (25 + e1 - 24) (-149) - e1) with 1 by lia. change (2 ^ 24) with 16777216.
    cbn -[Z.pow Z.add Z.leb grains cond_Zopp sound Z.mul]. destruct (Z.leb_spec (e1 + 1) 104) as [Hle|Hgt].
    + left. split.
      * unfold sound. rewrite andb_true_iff. split; [|done]. apply valid_finite. lia.
      * cbn [grains]. f_equal. unfold grain. replace (e1 + 1 + 298) with (1 + (e1 + 298)) by lia.
        rewrite (Z.pow_add_r 2 1) by lia. lia.
    + right. split; [done|]. change 16777216 with (2 ^ 24). rewrite <- Z.pow_add_r by (unfold grain; lia). apply Z.pow_le_mono_r; unfold grain; lia.
  - unfold shr_fexp, shr. rewrite fexp_eq. destruct (decide (k = 0)) as [->|Hk0].
    + change (Zdigits2 0) with 0. replace (Z.max (0 + e1 - 24) (-149) - e1) with (- (e1 - Z.max (e1 - 24) (-149))) by lia.
      destruct (- _) eqn:E; [|lia|]; left; (split; [done|]); by destruct sx.
    + pose proof (Zdigits2_spec k ltac:(lia)) as [Hd Hd0].
      assert (Zdigits2 k <= 24).
      { destruct (decide (Zdigits2 k <= 24)); [done|]. assert (2 ^ 24 <= 2 ^ (Zdigits2 k - 1)) by (apply Z.pow_le_mono_r; lia). lia. }
      assert (Z.max (Zdigits2 k + e1 - 24) (-149) - e1 <= 0) by lia.
      destruct (Z.max _ _ - e1) eqn:E; [|lia|]; cbn [shr_m]; destruct k as [|k|]; try lia.
      all: cbn -[Z.pow Z.add Z.leb grains]; destruct (Z.leb_spec e1 104) as [Hle|Hgt];
        [left; split; [unfold sound; rewrite andb_true_iff; split; [apply valid_finite; lia|done]|done]|right; split; [done|]].
      all: assert (2 ^ 23 * 2 ^ (105 + grain) <= Zpos k * 2 ^ (e1 + grain)); [|by rewrite <- Z.pow_add_r in *].
      all: apply Z.mul_le_mono_nonneg; try lia; apply Z.pow_le_mono_r; unfold grain; lia.
Qed.

Lemma binary_round_aux_nearest sx N D mx ex lx :
  0 < mx ∨ mx = 0 ∧ ex <= -149 → 0 < D → placed N D (shr_record_of_loc mx lx) → ex <= fexp prec emax (Zdigits2 mx + ex) →
  ∃ k e1, nearest sx N D ex (binary_round_aux prec emax sx mx ex lx) k e1 ∧ (lx = loc_Exact → e1 = ex → k * D = N).
Proof.
  intros Hm HD Hp He. unfold binary_round_aux.
  destruct (shr_fexp_placed N D mx ex lx HD Hp He) as (r & -> & Hr & Hsame). rewrite fexp_eq in *.
  assert (mx < 2 ^ Zdigits2 mx ∧ 0 <= Zdigits2 mx) as [Hd2 Hd0].
  { destruct Hm as [Hm|[-> _]]; [|done]. destruct (Zdigits2_spec mx Hm). lia. }
  set (d := Zdigits2 mx) in *. set (e1 := Z.max (d + ex - 24) (-149)) in *.
  pose proof (placed_bounds N D _ HD Hp) as Hb.
  assert (shr_m (shr_record_of_loc mx lx) = mx) as Emx by (destruct lx as [|[]]; done). rewrite Emx in Hb.
  set (D' := 2 ^ (e1 - ex) * D) in *. assert (0 < D') by (unfold D'; pose proof (Z.pow_pos_nonneg 2 (e1 - ex)); nia).
  assert (2 ^ d * D <= 2 ^ 24 * D') as Hup.
  { unfold D'. rewrite Z.mul_assoc, <- Z.pow_add_r by lia. apply Z.mul_le_mono_nonneg_r; [lia|]. apply Z.pow_le_mono_r; lia. }
  assert (N < 2 ^ 24 * D') as HN by nia.
  assert (e1 = -149 ∨ 2 ^ 23 * D' <= N) as Hlow.
  { destruct (decide (e1 = -149)) as [|Hn]; [by left|right]. unfold D'. rewrite Z.mul_assoc, <- Z.pow_add_r by lia.
    destruct Hm as [Hm|[Hm ?]]; [|exfalso; unfold d in *; subst mx; cbn in e1; lia].
    destruct (Zdigits2_spec mx Hm) as [[Hd1 _] _]. fold d in Hd1. replace (23 + (e1 - ex)) with (d - 1) by lia. nia. }
  pose proof (placed_bounds _ _ _ ltac:(done) Hr) as Hb'.
  pose proof (round_nearest _ _ _ ltac:(done) Hr) as (Hk0 & Hk1 & Hk). set (k := round_nearest_even _ _) in *.
  exists k, e1. split.
  - unfold nearest. fold D'. split_and!; try done; try lia.
    apply finish_round; [split; [lia|nia]|lia|]. destruct Hlow as [|Hlow]; [by left|right]. nia.
  - intros -> E. assert (r = {| shr_m := mx; shr_r := false; shr_s := false |}) as -> by (by apply Hsame).
    cbn in k. destruct Hp as [_ Hp]. cbn in Hp. unfold k. lia.
Qed.

(** *** Consequences *)
Definition eps : Z := 2 ^ 24.

Section nearest.
Context (sx : bool) (N D ex : Z) (f : float) (k e1 : Z) (HD : 0 < D) (Hex : -298 <= ex) (Hn : nearest sx N D ex f k e1).

(** The value to be rounded, [D] times in grains. *)
Let X : Z := N * 2 ^ (ex + grain).

(** The relative error is at most [2^-24], and the absolute one at most [2^-150] if the
    result is subnormal. *)
Lemma nearest_error :
  eps * Z.abs (D * (k * 2 ^ (e1 + grain)) - X) <= X ∨
  e1 = -149 ∧ 2 * Z.abs (D * (k * 2 ^ (e1 + grain)) - X) <= D * 2 ^ (-149 + grain).
Proof.
  destruct Hn as (Hk & He & Hee & Herr & Hlow & Hup & _). set (D' := 2 ^ (e1 - ex) * D) in *.
  assert (D * 2 ^ (e1 + grain) = D' * 2 ^ (ex + grain)) as E.
  { unfold D'. rewrite (grains_step ex e1) by lia. lia. }
  pose proof (pow_grain ex Hex) as Hg. unfold X, eps. set (g := 2 ^ (ex + grain)) in *.
  assert (D * (k * 2 ^ (e1 + grain)) = k * D' * g) as -> by (rewrite <- Z.mul_assoc, <- E; lia).
  rewrite <- Z.mul_sub_distr_r. rewrite Z.abs_mul, (Z.abs_eq g) by lia.
  destruct Hlow as [->|Hlow]; [right; split; [done|]|left].
  - rewrite E. nia.
  - assert (2 ^ 24 * Z.abs (k * D' - N) <= N) by (change (2 ^ 24) with (2 * 2 ^ 23); nia). nia.
Qed.

Lemma nearest_le z :
  sound z = true → 0 <= grains z → X <= D * grains z → k * 2 ^ (e1 + grain) <= grains z.
Proof.
  intros Hz Hz0 HX. destruct Hn as (Hk & He & Hee & Herr & Hlow & Hup & _). set (D' := 2 ^ (e1 - ex) * D) in *.
  assert (D * 2 ^ (e1 + grain) = D' * 2 ^ (ex + grain)) as E.
  { unfold D'. rewrite (grains_step ex e1) by lia. lia. }
  pose proof (pow_grain ex Hex) as Hg. pose proof (pow_grain e1 ltac:(lia)) as Hg1. unfold X in HX.
  assert (0 < D') as HD' by (unfold D'; pose proof (Z.pow_pos_nonneg 2 (e1 - ex)); nia).
  destruct (decide (k = 0)) as [->|Hk0]; [lia|].
  apply andb_true_iff in Hz as [Vz Fz]. destruct z as [s|s| |s m e]; try done.
  - cbn in HX. exfalso. assert (N <= 0) by nia. nia.
  - assert (s = false) as -> by (destruct s; [cbn in Hz0; pose proof (proj1 (valid_finite _ _ _) Vz) as (H & _); pose proof (pow_grain e); nia|done]).
    cbn [grains cond_Zopp] in *. apply valid_finite in Vz as (Ve & Vm & _).
    assert (e1 <= e) as Hle.
    { destruct Hlow as [|Hlow]; [lia|]. destruct (decide (e1 <= e)); [done|exfalso].
      pose proof (grains_step e e1 ltac:(lia) ltac:(lia)) as Es. pose proof (pow_grain e ltac:(lia)) as Hge.
      assert (2 ^ 1 <= 2 ^ (e1 - e)) by (apply Z.pow_le_mono_r; lia).
      assert (2 ^ 23 * D' * 2 ^ (ex + grain) <= D * (Zpos m * 2 ^ (e + grain))) as H1 by nia.
      rewrite <- Z.mul_assoc, <- E, Es in H1.
      assert (D * (Zpos m * 2 ^ (e + grain)) < D * (2 ^ 24 * 2 ^ (e + grain))) by nia.
      assert (D * (2 ^ 24 * 2 ^ (e + grain)) <= 2 ^ 23 * (D * (2 ^ (e1 - e) * 2 ^ (e + grain)))) by (change (2 ^ 24) with (2 ^ 23 * 2); nia).
      lia. }
    rewrite (grains_step e1 e) in * by lia. set (M := Zpos m * 2 ^ (e - e1)) in *.
    replace (Zpos m * (2 ^ (e - e1) * 2 ^ (e1 + grain))) with (M * 2 ^ (e1 + grain)) in * by (unfold M; lia).
    apply Z.mul_le_mono_nonneg_r; [lia|]. assert (N <= M * D') by nia. nia.
Qed.

Lemma nearest_ge z :
  sound z = true → D * grains z <= X → grains z <= k * 2 ^ (e1 + grain).
Proof.
  intros Hz HX. destruct Hn as (Hk & He & Hee & Herr & Hlow & Hup & _). set (D' := 2 ^ (e1 - ex) * D) in *.
  assert (D * 2 ^ (e1 + grain) = D' * 2 ^ (ex + grain)) as E.
  { unfold D'. rewrite (grains_step ex e1) by lia. lia. }
  pose proof (pow_grain ex Hex) as Hg. pose proof (pow_grain e1 ltac:(lia)) as Hg1. unfold X in HX.
  assert (0 < D') as HD' by (unfold D'; pose proof (Z.pow_pos_nonneg 2 (e1 - ex)); nia).
  destruct (decide (grains z <= 0)) as [|Hpos]; [nia|].
  apply andb_true_iff in Hz as [Vz Fz]. destruct z as [s|s| |s m e]; try done; cbn in Hpos; try lia.
  assert (s = false) as -> by (destruct s; [pose proof (proj1 (valid_finite _ _ _) Vz) as (H & _); pose proof (pow_grain e); cbn in Hpos; nia|done]).
  cbn [grains cond_Zopp] in *. apply valid_finite in Vz as (Ve & Vm & _).
  destruct (decide (e1 <= e)) as [Hle|Hlt].
  - rewrite (grains_step e1 e) in * by lia. set (M := Zpos m * 2 ^ (e - e1)) in *.
    replace (Zpos m * (2 ^ (e - e1) * 2 ^ (e1 + grain))) with (M * 2 ^ (e1 + grain)) in * by (unfold M; lia).
    apply Z.mul_le_mono_nonneg_r; [lia|]. assert (M * D' <= N) by nia. nia.
  - destruct Hlow as [|Hlow]; [lia|]. rewrite (grains_step e e1) by lia. pose proof (pow_grain e ltac:(lia)) as Hge.
    assert (2 ^ 1 <= 2 ^ (e1 - e)) by (apply Z.pow_le_mono_r; lia). assert (2 ^ 23 <= k) by nia.
    rewrite Z.mul_assoc. apply Z.mul_le_mono_nonneg_r; [lia|]. change (2 ^ 24) with (2 ^ 23 * 2 ^ 1) in Vm. nia.
Qed.

End nearest.

(** ** Sums *)
Lemma iter_xO m n : Zpos (Pos.iter xO m n) = Zpos m * 2 ^ Zpos n ∧
                    Zpos (digits2_pos (Pos.iter xO m n)) = Zpos (digits2_pos m) + Zpos n.
Proof.
  induction n as [|n [IH1 IH2]] using Pos.peano_ind; [cbn; lia|]. rewrite Pos.iter_succ.
  rewrite Pos2Z.inj_succ, Z.pow_succ_r by lia. cbn [digits2_pos]. rewrite Pos2Z.inj_succ. lia.
Qed.

Lemma shl_align_spec m e e' :
  let '(m1, e1) := shl_align m e e' in
  e1 = Z.min e e' ∧ Zpos m1 = Zpos m * 2 ^ (e - e1) ∧ Zpos (digits2_pos m1) + e1 = Zpos (digits2_pos m) + e.
Proof.
  unfold shl_align. destruct (e' - e) as [|d|d] eqn:E.
  - replace (e - e) with 0 by lia. lia.
  - replace (e - e) with 0 by lia. lia.
  - destruct (iter_xO m d) as [-> ->]. replace (e - e') with (Zpos d) by lia. lia.
Qed.

Definition f_max : Z := 2 ^ (128 + grain).

(** [f] is the number closest to [S] grains. *)
Record closest (f : float) (S : Z) : Prop := {
  closest_sound : sound f = true;
  closest_error : eps * Z.abs (grains f - S) <= Z.abs S;
  closest_le z : sound z = true → S <= grains z → grains f <= grains z;
  closest_ge z : sound z = true → grains z <= S → grains z <= grains f;
}.

Lemma grains_opp f : grains (SFopp f) = - grains f.
Proof. destruct f as [| | |[] m e]; cbn; lia. Qed.
Lemma sound_opp f : sound (SFopp f) = sound f.
Proof. by destruct f. Qed.

Lemma cond_Zopp_opp s z : cond_Zopp s z = z ∧ s = false ∨ cond_Zopp s z = - z ∧ s = true.
Proof. destruct s; auto. Qed.

(** Rounding of an exact value with the exponent of a number. *)
Lemma binary_round_closest sx m e :
  -149 <= e → Zpos m * 2 ^ (e + grain) * 2 < f_max →
  closest (binary_round prec emax sx m e) (cond_Zopp sx (Zpos m * 2 ^ (e + grain))).
Proof.
  intros He Hmax. unfold binary_round. set (e' := fexp _ _ _).
  pose proof (shl_align_spec m e e') as H. destruct (shl_align m e e') as [mz ez]. destruct H as (Eez & Emz & Edig).
  assert (Zpos mz * 2 ^ (ez + grain) = Zpos m * 2 ^ (e + grain)) as EX.
  { rewrite Emz, (grains_step ez e) by (unfold e' in *; rewrite fexp_eq in *; lia). lia. }
  assert (-149 <= ez) as Hez by (unfold e' in Eez; rewrite fexp_eq in Eez; lia).
  destruct (binary_round_aux_nearest sx (Zpos mz) 1 (Zpos mz) ez loc_Exact) as (k & e1 & Hn & Hexact); [lia|lia| | |].
  { unfold placed. cbn [shr_record_of_loc shr_m shr_r shr_s]. lia. }
  { cbn [Zdigits2]. rewrite Edig. fold e'. lia. }
  set (f := binary_round_aux _ _ _ _ _ _) in *. rewrite <- EX in *. set (X := Zpos mz * 2 ^ (ez + grain)) in *.
  set (v := k * 2 ^ (e1 + grain)).
  assert (0 <= X) by (unfold X; pose proof (pow_grain ez); lia).
  assert (eps * Z.abs (v - X) <= X) as Herr.
  { destruct (nearest_error sx (Zpos mz) 1 ez f k e1 ltac:(lia) ltac:(lia) Hn) as [Hr|[H149 _]].
    - fold X v in Hr. lia.
    - assert (e1 = ez) as E by (destruct Hn as (_ & _ & Hge & _); lia). specialize (Hexact eq_refl E).
      unfold v. rewrite E. replace k with (Zpos mz) by lia. fold X. rewrite Z.sub_diag. cbn. lia. }
  assert (sound f = true ∧ grains f = cond_Zopp sx v) as [Hs Hg].
  { destruct Hn as (_ & _ & _ & _ & _ & _ & [Hf|[_ Hinf]]); [done|]. exfalso.
    unfold eps, f_max in *. fold v in Hinf. lia. }
  pose proof (nearest_le sx (Zpos mz) 1 ez f k e1 ltac:(lia) ltac:(lia) Hn) as Hle.
  pose proof (nearest_ge sx (Zpos mz) 1 ez f k e1 ltac:(lia) ltac:(lia) Hn) as Hge. fold X v in Hle, Hge.
  assert (0 <= v) by (pose proof (pow_grain e1); destruct Hn as (? & ? & _); unfold v; nia).
  constructor; [done|rewrite Hg..].
  - unfold eps in *. destruct sx; cbn [cond_Zopp]; lia.
  - intros z Hz HS. destruct sx; cbn [cond_Zopp] in *.
    + pose proof (Hge (SFopp z)) as H'. rewrite sound_opp, grains_opp in H'. specialize (H' Hz). lia.
    + specialize (Hle z Hz). lia.
  - intros z Hz HS. destruct sx; cbn [cond_Zopp] in *.
    + pose proof (Hle (SFopp z)) as H'. rewrite sound_opp, grains_opp in H'. specialize (H' Hz). lia.
    + specialize (Hge z Hz). lia.
Qed.

Lemma closest_self f : sound f = true → closest f (grains f).
Proof. intros Hf. constructor; [done| |done..]. rewrite Z.sub_diag. cbn. lia. Qed.

Lemma closest_zero s : closest (S754_zero s) 0.
Proof. by apply (closest_self (S754_zero s)). Qed.

Lemma f_add_closest x y :
  sound x = true → sound y = true → Z.abs (grains x + grains y) * 2 < f_max →
  closest (f_add x y) (grains x + grains y).
Proof.
  intros Hx Hy Hmax. destruct x as [sx|sx| |sx mx ex], y as [sy|sy| |sy my ey]; try done.
  - destruct sx, sy; apply closest_zero.
  - cbn [f_add SFadd]. replace (grains (S754_zero sx) + _) with (grains (S754_finite sy my ey)) by done. by apply closest_self.
  - unfold f_add, SFadd. replace (_ + grains (S754_zero sy)) with (grains (S754_finite sx mx ex)) by (cbn; lia).
    by apply closest_self.
  - apply andb_true_iff in Hx as [Vx _], Hy as [Vy _]. apply valid_finite in Vx as (Hex & _), Vy as (Hey & _).
    unfold f_add, SFadd. set (ez := Z.min ex ey).
    pose proof (shl_align_spec mx ex ez) as Hax. destruct (shl_align mx ex ez) as [m1 e1]. destruct Hax as (E1 & Em1 & _).
    pose proof (shl_align_spec my ey ez) as Hay. destruct (shl_align my ey ez) as [m2 e2]. destruct Hay as (E2 & Em2 & _).
    cbn [fst]. assert (e1 = ez) as -> by lia. assert (e2 = ez) as -> by lia.
    set (M := cond_Zopp sx (Zpos m1) + cond_Zopp sy (Zpos m2)).
    assert (grains (S754_finite sx mx ex) + grains (S754_finite sy my ey) = M * 2 ^ (ez + grain)) as ES.
    { cbn [grains]. rewrite (grains_step ez ex), (grains_step ez ey) by lia. unfold M.
      rewrite Em1, Em2. generalize (2 ^ (ex - ez)) (2 ^ (ey - ez)) (2 ^ (ez + grain)). intros.
      destruct sx, sy; cbn [cond_Zopp]; ring. }
    rewrite ES in *. pose proof (pow_grain ez ltac:(lia)) as Hg. clearbody M. destruct M as [|M|M]; cbn [binary_normalize].
    + apply closest_zero.
    + apply (binary_round_closest false M ez); lia.
    + pose proof (binary_round_closest true M ez) as H. cbn [cond_Zopp] in H.
      replace (Zneg M * 2 ^ (ez + grain)) with (- (Zpos M * 2 ^ (ez + grain))) in * by lia. apply H; lia.
Qed.

(** ** Products and quotients

    The error bounds are for the product in units of [2^-596], and for the quotient
    multiplied with the divisor. *)
Definition unit : Z := 2 ^ grain.
Definition half_step : Z := 2 ^ 149.

(** [f * D] is [X], up to rounding. *)
Definition close (f : float) (D X : Z) : Prop :=
  eps * Z.abs (grains f * D - X) <= Z.abs X ∨ 2 * Z.abs (grains f * D - X) <= Z.abs D * half_step.

Lemma f_mul_close x y :
  sound x = true → sound y = true → Z.abs (grains x * grains y) * 2 < f_max * unit →
  sound (f_mul x y) = true ∧ close (f_mul x y) unit (grains x * grains y) ∧
  (∀ z, sound z = true → grains x * grains y = grains z * unit → grains (f_mul x y) = grains z) ∧
  (0 <= grains x * grains y → 0 <= grains (f_mul x y)).
Proof.
  intros Hx Hy Hmax. unfold close.
  destruct x as [sx|sx| |sx mx ex], y as [sy|sy| |sy my ey]; try done;
    [split_and!; [done|left; cbn; lia|cbn; intros; assert (0 < unit) by done; nia|cbn; lia]..|].
  apply andb_true_iff in Hx as [Vx _], Hy as [Vy _].
  apply valid_finite in Vx as (Hex & Hmx & Hnx), Vy as (Hey & Hmy & Hny).
  unfold f_mul, SFmul. set (m := (mx * my)%positive). set (e := ex + ey). set (sz := xorb sx sy).
  assert (grains (S754_finite sx mx ex) * grains (S754_finite sy my ey) = cond_Zopp sz (Zpos m * 2 ^ (e + grain) * unit)) as EX.
  { cbn [grains]. replace (Zpos m * 2 ^ (e + grain) * unit) with ((Zpos mx * 2 ^ (ex + grain)) * (Zpos my * 2 ^ (ey + grain))).
    - destruct sx, sy; cbn [cond_Zopp sz xorb]; lia.
    - assert (2 ^ (e + grain) * unit = 2 ^ (ex + grain) * 2 ^ (ey + grain)) as EP.
      { unfold unit, e. rewrite <- !Z.pow_add_r by (unfold grain; lia). f_equal. lia. }
      rewrite <- (Z.mul_assoc (Zpos m)), EP. unfold m. rewrite Pos2Z.inj_mul.
      generalize (2 ^ (ex + grain)) (2 ^ (ey + grain)). intros. ring. }
  rewrite EX in *. pose proof (pow_grain e ltac:(unfold e; lia)) as Hg. set (X := Zpos m * 2 ^ (e + grain)) in *.
  assert (0 < unit) as Hu by done. assert (0 < X) as HX by (unfold X; lia).
  destruct (binary_round_aux_nearest sz (Zpos m) 1 (Zpos m) e loc_Exact) as (k & e1 & Hn & _); [lia|lia| | |].
  { unfold placed. cbn [shr_record_of_loc shr_m shr_r shr_s]. lia. }
  { rewrite fexp_eq. destruct (decide (e <= -149)); [lia|]. assert (24 <= Zdigits2 (Zpos m)); [|lia].
    assert (2 ^ 23 <= Zpos m) by (unfold m; rewrite Pos2Z.inj_mul; unfold e in *; nia).
    destruct (Zdigits2_spec (Zpos m)) as [[_ Hdm] _]; [lia|]. destruct (decide (24 <= Zdigits2 (Zpos m))); [done|].
    assert (2 ^ Zdigits2 (Zpos m) <= 2 ^ 23) by (apply Z.pow_le_mono_r; lia). lia. }
  set (f := binary_round_aux _ _ _ _ _ _) in *. pose proof (nearest_error sz (Zpos m) 1 e f k e1 ltac:(lia) ltac:(unfold e; lia) Hn) as Herr.
  pose proof (nearest_le sz (Zpos m) 1 e f k e1 ltac:(lia) ltac:(unfold e; lia) Hn) as Hle.
  pose proof (nearest_ge sz (Zpos m) 1 e f k e1 ltac:(lia) ltac:(unfold e; lia) Hn) as Hge.
  fold X in Herr, Hle, Hge. set (v := k * 2 ^ (e1 + grain)) in *. change (2 ^ (-149 + grain)) with half_step in Herr.
  destruct Hn as (Hk & He1 & _ & _ & _ & _ & [[Hs Hv]|[_ Hinf]]).
  - split_and!; [done| | |].
    + rewrite Hv. fold v. unfold eps in *. destruct Herr as [Herr|[_ Herr]]; [left|right]; destruct sz; cbn [cond_Zopp]; nia.
    + intros z Hz E. rewrite Hv. fold v.
      assert (∀ z', sound z' = true → X = grains z' → v = grains z') as Hex'.
      { intros z' Hz' E'. apply Z.le_antisymm; [apply Hle|apply Hge]; try done; lia. }
      destruct sz; cbn [cond_Zopp] in *; [|apply Hex'; [done|nia]].
      pose proof (Hex' (SFopp z)) as H'. rewrite sound_opp, grains_opp in H'. specialize (H' Hz). nia.
    + intros H0. rewrite Hv. fold v. assert (0 <= v) by (pose proof (pow_grain e1); unfold v; nia).
      destruct sz; cbn [cond_Zopp] in *; [exfalso; nia|done].
  - exfalso. fold v in Hinf. change (2 ^ (128 + grain)) with f_max in Hinf. assert (X * 2 < f_max) by (destruct sz; cbn [cond_Zopp] in Hmax; nia).
    assert (half_step * 4 < f_max) by done. unfold eps in *. lia.
Qed.

Lemma new_location_placed m' q r m2 :
  0 < m2 → 0 <= q → 0 <= r < m2 → m' = m2 * q + r → placed m' m2 (shr_record_of_loc q (new_location m2 r)).
Proof.
  intros H2 Hq Hr ->. unfold placed, new_location, new_location_even, new_location_odd.
  destruct (Z.even m2) eqn:Ev.
  - destruct (Z.eqb_spec r 0) as [->|Hr0]; [cbn [shr_record_of_loc shr_m shr_r shr_s]; lia|].
    destruct (Z.compare_spec (2 * r) m2); cbn [shr_record_of_loc shr_m shr_r shr_s]; lia.
  - assert (Z.odd m2 = true) as Ho by (by rewrite <- Z.negb_even, Ev). apply Z.odd_spec in Ho as [h Hh].
    destruct (Z.eqb_spec r 0) as [->|Hr0]; [cbn [shr_record_of_loc shr_m shr_r shr_s]; lia|].
    destruct (Z.compare_spec (2 * r + 1) m2); cbn [shr_record_of_loc shr_m shr_r shr_s]; lia.
Qed.

Lemma grains_neg m e : grains (S754_finite true m e) <= 0.
Proof. cbn [grains cond_Zopp]. pose proof (Z.pow_nonneg 2 (e + grain)). nia. Qed.

(** The quotient of positive numbers. *)
Lemma f_div_close x y :
  sound x = true → sound y = true → 0 < grains x → 0 < grains y → grains x * unit * 2 < f_max * grains y →
  sound (f_div x y) = true ∧ 0 <= grains (f_div x y) ∧ close (f_div x y) (grains y) (grains x * unit).
Proof.
  intros Hx Hy Px Py Hmax. destruct x as [sx|sx| |[] mx ex], y as [sy|sy| |[] my ey]; try done.
  1,2: exfalso; pose proof (grains_neg mx ex); lia.
  1: exfalso; pose proof (grains_neg my ey); lia.
  apply andb_true_iff in Hx as [Vx _], Hy as [Vy _].
  apply valid_finite in Vx as (Hex & Hmx & Hnx), Vy as (Hey & Hmy & Hny).
  unfold f_div, SFdiv, SFdiv_core_binary. cbn [xorb].
  pose proof (Zdigits2_spec (Zpos mx) ltac:(lia)) as [[Hd1 _] Hd1']. pose proof (Zdigits2_spec (Zpos my) ltac:(lia)) as [[_ Hd2] Hd2'].
  set (d1 := Zdigits2 (Zpos mx)) in *. set (d2 := Zdigits2 (Zpos my)) in *.
  set (e := Z.min (fexp prec emax (d1 + ex - (d2 + ey))) (ex - ey)). set (sh := ex - ey - e).
  assert (0 <= sh) as Hsh by (unfold sh; lia).
  set (m' := match sh with Z0 => _ | Zpos _ => _ | Zneg _ => _ end).
  assert (m' = Zpos mx * 2 ^ sh) as Em.
  { unfold m'. destruct sh; [lia|by rewrite Z.shiftl_mul_pow2 by lia|lia]. }
  clearbody m'. pose proof (Z_div_mod m' (Zpos my) ltac:(lia)) as Hqr. destruct (Z.div_eucl m' (Zpos my)) as [q r].
  destruct Hqr as [Eqr Hr]. assert (-298 <= e) as He by (unfold e; rewrite fexp_eq; lia).
  assert (0 < 2 ^ sh) by (apply Z.pow_pos_nonneg; lia). assert (0 <= q) by nia.
  assert (2 ^ 23 <= q ∨ e <= -149) as Hbig.
  { destruct (decide (e <= -149)); [by right|left]. unfold e in *. rewrite fexp_eq in *.
    assert (d2 - d1 + 24 <= sh) by (unfold sh; rewrite fexp_eq; lia).
    assert (2 ^ (23 + d2) <= m').
    { rewrite Em. transitivity (2 ^ (d1 - 1) * 2 ^ sh); [rewrite <- Z.pow_add_r by lia; apply Z.pow_le_mono_r; lia|].
      apply Z.mul_le_mono_nonneg_r; lia. }
    rewrite Z.pow_add_r in * by lia. nia. }
  destruct (binary_round_aux_nearest false m' (Zpos my) q e (new_location (Zpos my) r)) as (k & e1 & Hn & _); [lia|lia| | |].
  { apply new_location_placed; lia. }
  { rewrite fexp_eq. destruct Hbig as [Hq|]; [|lia]. destruct (Zdigits2_spec q) as [[_ H'] _]; [lia|].
    assert (24 <= Zdigits2 q); [|lia]. destruct (decide (24 <= Zdigits2 q)); [done|].
    assert (2 ^ Zdigits2 q <= 2 ^ 23) by (apply Z.pow_le_mono_r; lia). lia. }
  set (f := binary_round_aux _ _ _ _ _ _) in *. pose proof (nearest_error false m' (Zpos my) e f k e1 ltac:(lia) He Hn) as Herr.
  set (v := k * 2 ^ (e1 + grain)) in *. change (2 ^ (-149 + grain)) with half_step in Herr.
  cbn [grains cond_Zopp] in *. pose proof (pow_grain ey ltac:(lia)) as Hgy.
  assert (m' * 2 ^ (e + grain) * 2 ^ (ey + grain) = Zpos mx * 2 ^ (ex + grain) * unit) as EX.
  { rewrite Em. unfold unit. rewrite <- !Z.mul_assoc, <- !Z.pow_add_r by (unfold grain; lia). do 2 f_equal. unfold sh, grain. lia. }
  assert (0 <= v) by (pose proof (pow_grain e1); destruct Hn as (? & ? & _); unfold v; nia).
  rewrite <- EX in Hmax |- *. set (X := m' * 2 ^ (e + grain)) in *. set (gy := 2 ^ (ey + grain)) in *.
  assert (0 < X).
  { apply Z.mul_pos_pos; [rewrite Em; apply Z.mul_pos_pos; lia|by apply pow_grain]. }
  destruct Hn as (Hk & He1 & _ & _ & _ & _ & [[Hs Hv]|[_ Hinf]]).
  - split; [done|]. unfold close, eps in *. rewrite Hv. cbn [cond_Zopp]. fold v. split; [done|].
    replace (v * (Zpos my * gy) - X * gy) with ((Zpos my * v - X) * gy) by lia. rewrite !Z.abs_mul, (Z.abs_eq gy) by lia.
    destruct Herr as [Herr|[_ Herr]]; [left|right]; rewrite Z.mul_assoc.
    + apply Z.mul_le_mono_nonneg_r; lia.
    + rewrite <- (Z.mul_assoc (Z.abs _)), (Z.mul_comm gy), Z.mul_assoc. apply Z.mul_le_mono_nonneg_r; lia.
  - exfalso. fold v in Hinf. change (2 ^ (128 + grain)) with f_max in Hinf. assert (X * 2 < f_max * Zpos my).
    { apply (Z.mul_lt_mono_pos_r gy); lia. }
    assert (half_step * 4 < f_max) by done. assert (f_max * Zpos my <= Zpos my * v) by (rewrite Z.mul_comm; apply Z.mul_le_mono_nonneg_l; lia).
    assert (half_step * 4 * Zpos my < f_max * Zpos my) by (apply Z.mul_lt_mono_pos_r; lia). unfold eps in *. lia.
Qed.

(** ** Signs *)
Lemma sound_inj a b : sound a = true → sound b = true → grains a = grains b → grains a ≠ 0 → a = b.
Proof.
  intros Ha Hb E H0. pose proof (SFcompare_grains a b Ha Hb) as H. rewrite E, Z.compare_refl in H.
  destruct a as [sa|sa| |sa ma ea], b as [sb|sb| |sb mb eb]; try done.
  cbn [SFcompare] in H. injection H as H.
  destruct sa, sb; try done; destruct (Z.compare_spec ea eb) as [->|?|?]; try done;
    change (Pos.compare_cont Eq ma mb) with (Pos.compare ma mb) in H; destruct (Pos.compare_spec ma mb) as [->|?|?]; done.
Qed.

Lemma f_mul_opp x y : f_mul (SFopp x) y = SFopp (f_mul x y).
Proof.
  destruct x as [sx|sx| |sx mx ex], y as [sy|sy| |sy my ey]; try done;
    try (unfold f_mul, SFmul; cbn [SFopp]; f_equal; by destruct sx, sy).
  unfold f_mul, SFmul, SFopp, binary_round_aux. destruct (shr_fexp _ _ _ _ _) as [r e].
  destruct (shr_fexp _ _ (round_nearest_even _ _) _ _) as [r' e']. destruct (shr_m r'); try done.
  - by destruct sx, sy.
  - destruct (_ <=? _); by destruct sx, sy.
Qed.

Definition one : float := of_int 1.

Lemma f_mul_one x : sound x = true → Z.abs (grains x) * 2 < f_max → f_mul one x = x.
Proof.
  intros Hx Hmax. assert (grains one = unit) as E1 by done. assert (0 < unit) as Hu by done.
  destruct (f_mul_close one x eq_refl Hx) as (Hs & _ & Hex & _); [rewrite E1, Z.abs_mul; nia|].
  rewrite E1 in Hex. specialize (Hex x Hx ltac:(lia)).
  destruct x as [sx|sx| |sx mx ex]; try done. apply sound_inj; [done..|]. rewrite Hex.
  apply andb_true_iff in Hx as [Vx _]. apply valid_finite in Vx as (He & _). pose proof (pow_grain ex ltac:(lia)).
  destruct sx; cbn [grains cond_Zopp]; lia.
Qed.

Lemma f_mul_minus_one x : sound x = true → Z.abs (grains x) * 2 < f_max → f_mul (of_int (-1)) x = SFopp x.
Proof. intros Hx Hmax. change (of_int (-1)) with (SFopp one). by rewrite f_mul_opp, f_mul_one. Qed.

End FloatRound.
