(* ===== verification/EnergyMarket.v ===== *)
(** * The energy market

    The data of the energy tree ([types/energy.yaml]), the time slots, the markets at the
    nodes and the offers made to an EVSE ([Market.cpp], [Offer.cpp] of
    [modules/EnergyManagement/EnergyManager]).

    The markets form a tree with pointers to parents and children.  A [Market*] is the path
    to the node, its own index in the parent first; the tree is a store of nodes.
    Time points are nanoseconds of [utc_clock]; a timestamp is the time point that
    [from_rfc3339] gives for the string. *)

From Stdlib Require Import String Floats.SpecFloat.
From S2P Require Import Prelude Float32.

Module Energy.

Import Float32.
#[local] Open Scope string_scope.
#[local] Open Scope Z_scope.

(** ** Data *)
Record NumberWithSource := { value : float; source : string }.
Record IntegerWithSource := { int_value : Z; int_source : string }.

Inductive NodeType := Undefined | Evse | Generic.
Inductive EvseState :=
  Unplugged | WaitForAuth | WaitForEnergy | PrepareCharging | PausedEV | PausedEVSE | Charging | Finished | Disabled.
#[export] Instance NodeType_eq_dec : EqDecision NodeType. Proof. solve_decision. Defined.
#[export] Instance EvseState_eq_dec : EqDecision EvseState. Proof. solve_decision. Defined.

Record LimitsReq := {
  total_power_W : option NumberWithSource;
  ac_max_current_A : option NumberWithSource;
  ac_min_current_A : option NumberWithSource;
  ac_max_phase_count : option IntegerWithSource;
  ac_min_phase_count : option IntegerWithSource;
  ac_supports_changing_phases_during_charging : option bool;
  ac_number_of_active_phases : option Z;
}.
Record LimitsRes := {
  res_total_power_W : option NumberWithSource;
  res_ac_max_current_A : option NumberWithSource;
  res_ac_max_phase_count : option IntegerWithSource;
}.
Record PricePerkWh := { price_timestamp : Z; price_value : float; currency : string }.
Record FrequencyWattPoint := { frequency_Hz : float; point_power_W : float }.
Record SetpointType := {
  sp_ac_current_A : option float;
  sp_total_power_W : option float;
  sp_frequency_table : option (list FrequencyWattPoint);
  sp_priority : Z;
  sp_source : string;
}.
Record ScheduleSetpointEntry := { sp_timestamp : Z; setpoint : option SetpointType }.
Record ScheduleReqEntry := {
  timestamp : Z;
  limits_to_root : LimitsReq;
  limits_to_leaves : LimitsReq;
  conversion_efficiency : option float;
  price_per_kwh : option PricePerkWh;
}.
Record ScheduleResEntry := {
  res_timestamp : Z;
  res_limits_to_root : LimitsRes;
  res_price_per_kwh : option PricePerkWh;
}.
Record OptimizerTarget := {
  energy_amount_needed : option float;
  charge_to_max_percent : option float;
  car_battery_soc : option float;
  leave_time : option string;
  price_limit : option float;
  full_autonomy : option bool;
}.
(** Of the power meters only the frequency of L1 is used. *)
Inductive EnergyFlowRequest := mk_request {
  children : list EnergyFlowRequest;
  uuid : string;
  node_type : NodeType;
  priority_request : option bool;
  evse_state : option EvseState;
  optimizer_target : option OptimizerTarget;
  usage_root_frequency : option float;
  usage_leaves_frequency : option float;
  schedule_import : list ScheduleReqEntry;
  schedule_export : list ScheduleReqEntry;
  schedule_setpoints : list ScheduleSetpointEntry;
}.

Notation ScheduleReq := (list ScheduleReqEntry).
Notation ScheduleRes := (list ScheduleResEntry).
Notation ScheduleSetpoints := (list ScheduleSetpointEntry).

(** Default-constructed limits. *)
Definition LimitsReq_new : LimitsReq :=
  {| total_power_W := None; ac_max_current_A := None; ac_min_current_A := None; ac_max_phase_count := None;
     ac_min_phase_count := None; ac_supports_changing_phases_during_charging := None; ac_number_of_active_phases := None |}.
Definition LimitsRes_new : LimitsRes :=
  {| res_total_power_W := None; res_ac_max_current_A := None; res_ac_max_phase_count := None |}.

(** [x = {v}]: the source is default-constructed. *)
Definition unnamed (v : float) : NumberWithSource := {| value := v; source := "" |}.
Definition number (v : float) (s : string) : NumberWithSource := {| value := v; source := s |}.

(** [limits_to_root] replaced. *)
Definition with_root (l : LimitsReq) (e : ScheduleReqEntry) : ScheduleReqEntry :=
  {| timestamp := timestamp e; limits_to_root := l; limits_to_leaves := limits_to_leaves e;
     conversion_efficiency := conversion_efficiency e; price_per_kwh := price_per_kwh e |}.
Definition with_res (l : LimitsRes) (e : ScheduleResEntry) : ScheduleResEntry :=
  {| res_timestamp := res_timestamp e; res_limits_to_root := l; res_price_per_kwh := res_price_per_kwh e |}.
Definition set_max_current (a : option NumberWithSource) (l : LimitsReq) : LimitsReq :=
  {| total_power_W := total_power_W l; ac_max_current_A := a; ac_min_current_A := ac_min_current_A l;
     ac_max_phase_count := ac_max_phase_count l; ac_min_phase_count := ac_min_phase_count l;
     ac_supports_changing_phases_during_charging := ac_supports_changing_phases_during_charging l;
     ac_number_of_active_phases := ac_number_of_active_phases l |}.
Definition set_total_power (w : option NumberWithSource) (l : LimitsReq) : LimitsReq :=
  {| total_power_W := w; ac_max_current_A := ac_max_current_A l; ac_min_current_A := ac_min_current_A l;
     ac_max_phase_count := ac_max_phase_count l; ac_min_phase_count := ac_min_phase_count l;
     ac_supports_changing_phases_during_charging := ac_supports_changing_phases_during_charging l;
     ac_number_of_active_phases := ac_number_of_active_phases l |}.

(** Double precision numbers of the configuration; [static_cast<float>]. *)
Definition double := spec_float.
Definition to_float (d : double) : float :=
  match d with S754_finite s m e => binary_round prec emax s m e | _ => d end.

(** [a > b] *)
Definition f_gt (a b : float) : bool := f_lt b a.

(** ** The time slots *)
Definition minute : Z := 60 * 1000000000.
Definition hour : Z := 60 * minute.

(** A printed time has milliseconds. *)
Definition to_rfc3339 (t : Z) : Z := Z.quot t 1000000 * 1000000.

Fixpoint add_timestamps (r : EnergyFlowRequest) : list Z :=
  (map timestamp (schedule_import r) ++ map timestamp (schedule_export r) ++
   map sp_timestamp (schedule_setpoints r) ++ flat_map add_timestamps (children r))%list.

(** [std::unique]: of equal neighbours the first remains. *)
Fixpoint unique (l : list Z) : list Z :=
  match l with
  | a :: (b :: _) as l' => if a =? b then unique l' else a :: unique l'
  | _ => l
  end.

(** [leap]: the leap seconds elapsed at the start, from the time zone database. *)
Definition slot_start (start_time interval_duration leap : Z) : Z :=
  start_time - Z.rem start_time interval_duration + leap.

Definition create_timestamps (start_time interval_duration leap : Z) (schedule_length : nat) (r : EnergyFlowRequest) : list Z :=
  let first := slot_start start_time interval_duration leap in
  let slots := map (λ i, first + Z.of_nat i * interval_duration) (seq 0 schedule_length) in
  unique (merge_sort Z.le (slots ++ add_timestamps r)%list).

Record globals_t := {
  start_time : Z;
  slice_ampere : float;
  slice_watt : float;
  timestamps : list Z;
}.
Definition schedule_length (g : globals_t) : nat := length (timestamps g).

Definition init (start interval_minutes duration_hours leap : Z) (ampere watt : float) (r : EnergyFlowRequest) : globals_t :=
  let interval := interval_minutes * minute in
  {| start_time := start; slice_ampere := ampere; slice_watt := watt;
     timestamps := create_timestamps start interval leap (Z.to_nat (Z.quot (duration_hours * hour) interval)) r |}.

Definition empty_schedule_req (g : globals_t) : ScheduleReq :=
  map (λ t, {| timestamp := to_rfc3339 t; limits_to_root := LimitsReq_new; limits_to_leaves := LimitsReq_new;
               conversion_efficiency := None; price_per_kwh := None |}) (timestamps g).
Definition zero_schedule_req (g : globals_t) : ScheduleReq :=
  map (λ a, with_root (set_max_current (Some (unnamed zero)) (set_total_power (Some (unnamed zero)) (limits_to_root a))) a)
    (empty_schedule_req g).
Definition empty_schedule_res (g : globals_t) : ScheduleRes :=
  map (λ t, {| res_timestamp := to_rfc3339 t; res_limits_to_root := LimitsRes_new; res_price_per_kwh := None |}) (timestamps g).
Definition empty_schedule_setpoints (g : globals_t) : ScheduleSetpoints :=
  map (λ t, {| sp_timestamp := to_rfc3339 t; setpoint := None |}) (timestamps g).

(** ** Limits of a node *)
Definition min_optional (a b : option NumberWithSource) : option NumberWithSource :=
  match a, b with
  | Some x, Some y => if f_lt (value x) (value y) then a else b
  | Some _, None => a
  | None, _ => b
  end.
Definition max_optional (a b : option NumberWithSource) : option NumberWithSource :=
  match a, b with
  | Some x, Some y => if f_gt (value x) (value y) then a else b
  | Some _, None => a
  | None, _ => b
  end.
Definition min_optional_int (a b : option IntegerWithSource) : option IntegerWithSource :=
  match a, b with
  | Some x, Some y => if int_value x <? int_value y then a else b
  | Some _, None => a
  | None, _ => b
  end.
Definition max_optional_int (a b : option IntegerWithSource) : option IntegerWithSource :=
  match a, b with
  | Some x, Some y => if int_value x >? int_value y then a else b
  | Some _, None => a
  | None, _ => b
  end.

(** The entry of a schedule that is in force at a time: the loop of [resample] and
    [get_max_available_energy]. *)
Fixpoint corresponding_entry {A} (time : A → Z) (is_begin : bool) (tp : Z) (request : list A) : option A :=
  match request with
  | [] => None
  | r1 :: rest =>
      match rest with
      | [] => Some r1
      | r2 :: _ =>
          if (time r1 <=? tp) && (tp <? time r2) || is_begin && (tp <? time r1) then Some r1
          else corresponding_entry time false tp rest
      end
  end.

Definition resample (g : globals_t) (request : ScheduleSetpoints) : ScheduleSetpoints :=
  map (λ s, match corresponding_entry sp_timestamp true (sp_timestamp s) request with
            | Some r => {| sp_timestamp := sp_timestamp s; setpoint := setpoint r |}
            | None => s
            end) (empty_schedule_setpoints g).

Definition merged_limits (r : ScheduleReqEntry) : LimitsReq :=
  let root := limits_to_root r in
  let leaves := limits_to_leaves r in
  let leaves_power_W :=
    (λ x, number (f_div (value x) (default (of_int 1) (conversion_efficiency r))) (source x)) <$> total_power_W leaves in
  {| total_power_W := min_optional leaves_power_W (total_power_W root);
     ac_max_current_A := min_optional (ac_max_current_A leaves) (ac_max_current_A root);
     ac_min_phase_count := max_optional_int (ac_min_phase_count root) (ac_min_phase_count leaves);
     ac_max_phase_count := min_optional_int (ac_max_phase_count root) (ac_max_phase_count leaves);
     ac_min_current_A := max_optional (ac_min_current_A root) (ac_min_current_A leaves);
     ac_supports_changing_phases_during_charging := None;
     ac_number_of_active_phases := ac_number_of_active_phases root |}.

Definition get_max_available_energy (g : globals_t) (request : ScheduleReq) : ScheduleReq :=
  map (λ a, match corresponding_entry timestamp true (timestamp a) request with
            | Some r => {| timestamp := timestamp a; limits_to_root := merged_limits r;
                           limits_to_leaves := limits_to_leaves a; conversion_efficiency := conversion_efficiency a;
                           price_per_kwh := price_per_kwh r |}
            | None => a
            end) (empty_schedule_req g).

(** The loop over the table; [watt1], [freq1]: the last point at or below the frequency. *)
Fixpoint search_freq_table (freq watt1 freq1 watt2 : float) (table : list FrequencyWattPoint) : float * float * float :=
  match table with
  | [] => (watt1, freq1, watt2)
  | e :: table' =>
      if f_gt (frequency_Hz e) freq then (watt1, freq1, point_power_W e)
      else search_freq_table freq (point_power_W e) (frequency_Hz e) (point_power_W e) table'
  end.
Definition f_opp : float → float := SFopp.
Definition f_sub (a b : float) : float := SFsub prec emax a b.

Definition get_watt_from_freq_table (table : list FrequencyWattPoint) (freq : float) : float :=
  match table with
  | [] => zero
  | [e] => point_power_W e
  | e :: _ =>
      let '(watt1, freq1, watt2) := search_freq_table freq (point_power_W e) zero zero table in
      f_add watt1 (f_mul (f_sub freq freq1) (f_sub watt2 watt1))
  end.

Definition apply_limit_if_smaller (base : option NumberWithSource) (limit : float) (src : string) : option NumberWithSource :=
  match base with
  | None => Some (number limit src)
  | Some b => if f_gt (value b) limit then Some (number limit src) else base
  end.

(** One setpoint on the import and export limits of a slot. *)
Definition current_setpoint (sp : SetpointType) (a : float) (imp exp : LimitsReq) : LimitsReq * LimitsReq :=
  if f_ge a zero then
    (set_max_current (apply_limit_if_smaller (ac_max_current_A imp) a (sp_source sp)) imp,
     set_max_current (Some (number zero (sp_source sp))) exp)
  else
    (set_max_current (Some (number zero (sp_source sp))) imp,
     set_max_current (apply_limit_if_smaller (ac_max_current_A exp) (f_opp a) (sp_source sp)) exp).
Definition power_setpoint (sp : SetpointType) (w : float) (imp exp : LimitsReq) : LimitsReq * LimitsReq :=
  if f_ge w zero then
    (set_total_power (apply_limit_if_smaller (total_power_W imp) w (sp_source sp)) imp,
     set_total_power (Some (number zero (sp_source sp))) exp)
  else
    (set_total_power (Some (number zero (sp_source sp))) imp,
     set_total_power (apply_limit_if_smaller (total_power_W exp) (f_opp w) (sp_source sp)) exp).

Definition apply_setpoint (freq : option float) (s : ScheduleSetpointEntry) (imp exp : LimitsReq) : LimitsReq * LimitsReq :=
  match setpoint s with
  | None => (imp, exp)
  | Some sp =>
      match sp_ac_current_A sp, sp_total_power_W sp, sp_frequency_table sp, freq with
      | Some a, _, _, _ => current_setpoint sp a imp exp
      | None, Some w, _, _ => power_setpoint sp w imp exp
      | None, None, Some table, Some f => power_setpoint sp (get_watt_from_freq_table table f) imp exp
      | _, _, _, _ => (imp, exp)
      end
  end.

Fixpoint apply_setpoints_loop (freq : option float) (sps : ScheduleSetpoints) (imp exp : ScheduleReq) : ScheduleReq * ScheduleReq :=
  match sps, imp, exp with
  | s :: sps', a :: imp', b :: exp' =>
      let '(la, lb) := apply_setpoint freq s (limits_to_root a) (limits_to_root b) in
      let '(imp'', exp'') := apply_setpoints_loop freq sps' imp' exp' in
      (with_root la a :: imp'', with_root lb b :: exp'')
  | _, _, _ => (imp, exp)
  end.
Definition apply_setpoints (imp exp : ScheduleReq) (sps : ScheduleSetpoints) (freq : option float) : ScheduleReq * ScheduleReq :=
  if negb (length sps =? length imp)%nat then (imp, exp)
  else if negb (length sps =? length exp)%nat then (imp, exp)
  else apply_setpoints_loop freq sps imp exp.

(** ** Markets *)
Notation ptr := (list nat).

Record Market := {
  energy_flow_request : EnergyFlowRequest;
  nominal_ac_voltage : float;
  import_max_available : ScheduleReq;
  export_max_available : ScheduleReq;
  setpoints : ScheduleSetpoints;
  sold_root : ScheduleRes;
}.

Definition Market_node (g : globals_t) (voltage : float) (r : EnergyFlowRequest) : Market :=
  let imp := match schedule_import r with [] => zero_schedule_req g | s => get_max_available_energy g s end in
  let exp := match schedule_export r with [] => zero_schedule_req g | s => get_max_available_energy g s end in
  let sps := match schedule_setpoints r with [] => empty_schedule_setpoints g | s => resample g s end in
  let freq := match usage_root_frequency r with Some f => Some f | None => usage_leaves_frequency r end in
  let '(imp', exp') := apply_setpoints imp exp sps freq in
  {| energy_flow_request := r; nominal_ac_voltage := voltage; import_max_available := imp'; export_max_available := exp';
     setpoints := sps; sold_root := empty_schedule_res g |}.

(** The constructor: a node, and one for each child. *)
Fixpoint Market_new (g : globals_t) (voltage : float) (r : EnergyFlowRequest) (this : ptr) : gmap ptr Market :=
  <[this := Market_node g voltage r]>
    ((fix create i l : gmap ptr Market :=
        match l with
        | [] => ∅
        | flow_child :: l' => Market_new g voltage flow_child (i :: this) ∪ create (S i) l'
        end) O (children r)).

Fixpoint get_list_of_evses (r : EnergyFlowRequest) (this : ptr) : list ptr :=
  ((if bool_decide (node_type r = Evse) then [this] else []) ++
   (fix walk i l := match l with [] => [] | child :: l' => get_list_of_evses child (i :: this) ++ walk (S i) l' end)
     O (children r))%list.

(** *** Energy sold and left *)
Definition f_abs_sign (add_sold : bool) : float := of_int (if add_sold then 1 else -1).

(** What the energy sold leaves of a limit: nothing is added to it. *)
Definition sold_part (add_sold : bool) (sold : option NumberWithSource) : float :=
  let s := match sold with Some x => f_mul (f_abs_sign add_sold) (value x) | None => zero end in
  if f_gt s zero then zero else s.
Definition left_of (limit : option NumberWithSource) (part : float) : option NumberWithSource :=
  (λ x, number (f_add (value x) part) (source x)) <$> limit.

Definition available_entry (add_sold : bool) (a : ScheduleReqEntry) (sold : ScheduleResEntry) : ScheduleReqEntry :=
  let l := limits_to_root a in
  let s := res_limits_to_root sold in
  with_root
    (set_max_current (left_of (ac_max_current_A l) (sold_part add_sold (res_ac_max_current_A s)))
       (set_total_power (left_of (total_power_W l) (sold_part add_sold (res_total_power_W s))) l)) a.

(** All schedules have one entry per time slot. *)
Definition get_available_energy (max_available : ScheduleReq) (sold : ScheduleRes) (add_sold : bool) : ScheduleReq :=
  zip_with (available_entry add_sold) max_available sold.
Definition get_available_energy_import (m : Market) : ScheduleReq :=
  get_available_energy (import_max_available m) (sold_root m) false.
Definition get_available_energy_export (m : Market) : ScheduleReq :=
  get_available_energy (export_max_available m) (sold_root m) true.

Definition add_sold_number (a b : option NumberWithSource) : option NumberWithSource :=
  match b with
  | None => a
  | Some y =>
      let src := if negb (f_eq (value y) zero) then source y
                 else match a with Some x => source x | None => "" end in
      Some (number (f_add (value y) (match a with Some x => value x | None => zero end)) src)
  end.
Definition add_phase_count (a b : option IntegerWithSource) : option IntegerWithSource :=
  match b with
  | None => a
  | Some y => match a with Some x => if int_value y >? int_value x then b else a | None => b end
  end.
Definition add_limits (a b : LimitsRes) : LimitsRes :=
  {| res_ac_max_current_A := add_sold_number (res_ac_max_current_A a) (res_ac_max_current_A b);
     res_total_power_W := add_sold_number (res_total_power_W a) (res_total_power_W b);
     res_ac_max_phase_count := add_phase_count (res_ac_max_phase_count a) (res_ac_max_phase_count b) |}.
Definition schedule_add (a b : ScheduleRes) : ScheduleRes :=
  if negb (length a =? length b)%nat then a
  else zip_with (λ x y, with_res (add_limits (res_limits_to_root x) (res_limits_to_root y)) x) a b.

Definition add_sold (traded : ScheduleRes) (m : Market) : Market :=
  {| energy_flow_request := energy_flow_request m; nominal_ac_voltage := nominal_ac_voltage m;
     import_max_available := import_max_available m; export_max_available := export_max_available m;
     setpoints := setpoints m; sold_root := schedule_add (sold_root m) traded |}.

(** [Market::trade]: on this node and on all its parents. *)
Fixpoint trade (traded : ScheduleRes) (this : ptr) (markets : gmap ptr Market) : gmap ptr Market :=
  let markets' := alter (add_sold traded) this markets in
  match this with
  | [] => markets'
  | _ :: parent => trade traded parent markets'
  end.

(** ** Offers *)
Definition apply_one_limit_if_smaller (a b : option NumberWithSource) : option NumberWithSource :=
  match b with
  | None => a
  | Some y =>
      match a with
      | None => b
      | Some x =>
          if f_gt (value x) (value y) then b
          else if f_eq (value x) (value y) then Some (number (value x) (source x ++ "," ++ source y))
          else a
      end
  end.
Definition apply_one_limit_if_greater (a b : option NumberWithSource) : option NumberWithSource :=
  match b with
  | None => a
  | Some y =>
      match a with
      | None => b
      | Some x =>
          if f_lt (value x) (value y) then b
          else if f_eq (value x) (value y) then Some (number (value x) (source x ++ "," ++ source y))
          else a
      end
  end.
Definition apply_one_int_if (better : Z → Z → bool) (a b : option IntegerWithSource) : option IntegerWithSource :=
  match b with
  | None => a
  | Some y =>
      match a with
      | None => b
      | Some x =>
          if better (int_value y) (int_value x) then b
          else if int_value x =? int_value y then
            Some {| int_value := int_value x; int_source := int_source x ++ "," ++ int_source y |}
          else a
      end
  end.

Definition apply_entry (a b : ScheduleReqEntry) : ScheduleReqEntry :=
  let x := limits_to_root a in
  let y := limits_to_root b in
  {| timestamp := timestamp a;
     limits_to_root :=
       {| ac_max_current_A := apply_one_limit_if_smaller (ac_max_current_A x) (ac_max_current_A y);
          ac_max_phase_count := apply_one_int_if Z.ltb (ac_max_phase_count x) (ac_max_phase_count y);
          total_power_W := apply_one_limit_if_smaller (total_power_W x) (total_power_W y);
          ac_min_phase_count := apply_one_int_if Z.gtb (ac_min_phase_count x) (ac_min_phase_count y);
          ac_min_current_A := apply_one_limit_if_greater (ac_min_current_A x) (ac_min_current_A y);
          ac_supports_changing_phases_during_charging := ac_supports_changing_phases_during_charging x;
          ac_number_of_active_phases := ac_number_of_active_phases y |};
     limits_to_leaves := limits_to_leaves a; conversion_efficiency := conversion_efficiency a;
     price_per_kwh := price_per_kwh b |}.
Definition apply_limits (a b : ScheduleReq) : ScheduleReq :=
  if negb (length a =? length b)%nat then a else zip_with apply_entry a b.

Record Offer := {
  offer_target : option OptimizerTarget;
  import_offer : ScheduleReq;
  export_offer : ScheduleReq;
}.

(** The limits of the root first, then those of the nodes on the way to this one. *)
Fixpoint create_offer_for_local_market (g : globals_t) (markets : gmap ptr Market) (market : ptr) : Offer :=
  let o := match market with
           | [] => {| offer_target := None; import_offer := empty_schedule_req g; export_offer := empty_schedule_req g |}
           | _ :: parent => create_offer_for_local_market g markets parent
           end in
  match markets !! market with
  | None => o
  | Some m =>
      {| offer_target := optimizer_target (energy_flow_request m);
         import_offer := apply_limits (import_offer o) (get_available_energy_import m);
         export_offer := apply_limits (export_offer o) (get_available_energy_export m) |}
  end.

End Energy.
