(* ===== verification/EnergyBroker.v ===== *)
(** * Brokers and the energy manager

    The broker that buys for an EVSE ([Broker.cpp], [BrokerFastCharging.cpp]) and the
    optimizer ([EnergyManagerImpl.cpp]).  The loop of [tradeImpl] handles each time slot on
    its own; its body is a command over what the broker keeps for this slot, the trade it
    prepares, and the broker's context.  [utc_clock::now] answers from a list of
    readings. *)

From Stdlib Require Import String Floats.SpecFloat.
From S2P Require Import Prelude Float32 EnergyMarket.

Module Broker.

Import Float32 Energy.
#[local] Open Scope string_scope.
#[local] Open Scope Z_scope.

(** ** Data *)
Inductive SlotType := Import | Export | Undecided.
#[export] Instance SlotType_eq_dec : EqDecision SlotType. Proof. solve_decision. Defined.
Inductive Switch1ph3phMode := Never | Oneway | Both.
#[export] Instance Switch1ph3phMode_eq_dec : EqDecision Switch1ph3phMode. Proof. solve_decision. Defined.
Inductive StickyNess := SinglePhase | ThreePhase | DontChange.

Record BrokerContext := {
  number_1ph3ph_cycles : Z;
  last_ac_number_of_active_phases_import : Z;
  ts_1ph_optimal : Z;
}.
Definition BrokerContext_clear (now : Z) : BrokerContext :=
  {| number_1ph3ph_cycles := 0; last_ac_number_of_active_phases_import := 0; ts_1ph_optimal := now |}.

Record BrokerConfig := {
  switch_1ph_3ph_mode : Switch1ph3phMode;
  stickyness : StickyNess;
  max_nr_of_switches_per_session : Z;
  power_hysteresis_W : Z;
  time_hysteresis_s : Z;
}.

(** What a broker keeps for a time slot between its trades. *)
Record slot := {
  first_trade : bool;
  slot_type : SlotType;
  num_phases : IntegerWithSource;
}.
Definition slot_new : slot :=
  {| first_trade := true; slot_type := Undecided; num_phases := {| int_value := 0; int_source := "empty" |} |}.

Record Broker := { local_market : ptr; slots : list slot }.

(** The state of the loop body. *)
Record bid := {
  b_slot : slot;
  trading : LimitsRes;
  traded : bool;
  context : BrokerContext;
  clock : list Z;
}.
Definition set_slot (f : slot → slot) (b : bid) : bid :=
  {| b_slot := f (b_slot b); trading := trading b; traded := traded b; context := context b; clock := clock b |}.
Definition set_context (f : BrokerContext → BrokerContext) (b : bid) : bid :=
  {| b_slot := b_slot b; trading := trading b; traded := traded b; context := f (context b); clock := clock b |}.
Definition set_slot_type (t : SlotType) (s : slot) : slot :=
  {| first_trade := first_trade s; slot_type := t; num_phases := num_phases s |}.
Definition set_num_phases (n : IntegerWithSource) (s : slot) : slot :=
  {| first_trade := first_trade s; slot_type := slot_type s; num_phases := n |}.
Definition set_traded_once (s : slot) : slot :=
  {| first_trade := false; slot_type := slot_type s; num_phases := num_phases s |}.

Notation op := (cmd bid Empty_set Empty_set).

(** A reading of the clock; when the readings are used up the last one stays. *)
Definition next_reading (readings : list Z) : Z * list Z :=
  match readings with
  | [] => (0, [])
  | [t] => (t, [t])
  | t :: rest => (t, rest)
  end.
Definition utc_now : op Z :=
  λ b, let '(t, rest) := next_reading (clock b) in
       (Ret t, {| b_slot := b_slot b; trading := trading b; traded := traded b; context := context b; clock := rest |}, []).

(** ** Buying *)
Definition buy_ampere_unchecked (ampere : NumberWithSource) (number_of_phases : IntegerWithSource) : op () :=
  cmodify (λ b,
    {| b_slot := set_traded_once (b_slot b);
       trading := {| res_ac_max_current_A := Some ampere; res_ac_max_phase_count := Some number_of_phases;
                     res_total_power_W := res_total_power_W (trading b) |};
       traded := true; context := context b; clock := clock b |}).
Definition buy_watt_unchecked (watt : NumberWithSource) : op () :=
  cmodify (λ b,
    {| b_slot := b_slot b;
       trading := {| res_ac_max_current_A := res_ac_max_current_A (trading b);
                     res_ac_max_phase_count := res_ac_max_phase_count (trading b); res_total_power_W := Some watt |};
       traded := true; context := context b; clock := clock b |}).

Definition sign (import : bool) : float := of_int (if import then 1 else -1).
(** [ampere * number_of_phases * nominal_ac_voltage] *)
Definition power_of (ampere : float) (phases : Z) (voltage : float) : float :=
  f_mul (f_mul ampere (of_int phases)) voltage.

(** Buy [ampere], and the power it takes if there is a limit for it. *)
Definition buy_both (voltage ampere : float) (src : string) (import : bool) (n : IntegerWithSource) : op bool :=
  buy_ampere_unchecked (number (f_mul (sign import) ampere) src) n ;;
  buy_watt_unchecked (number (power_of (f_mul (sign import) ampere) (int_value n) voltage) src) ;;
  mret true.
Definition buy_current (ampere : float) (src : string) (import : bool) (n : IntegerWithSource) : op bool :=
  buy_ampere_unchecked (number (f_mul (sign import) ampere) src) n ;;
  mret true.

(** What is left, if less may be bought. *)
Definition buy_leftovers (voltage : float) (max_current : NumberWithSource) (total_power : option NumberWithSource)
    (import : bool) (n : IntegerWithSource) : op bool :=
  match total_power with
  | Some power =>
      if f_gt (value power) zero then
        if f_ge (value power) (power_of (value max_current) (int_value n) voltage) then
          buy_both voltage (value max_current) (source max_current) import n
        else
          let reduced_ampere := f_div (f_div (value power) (of_int (int_value n))) voltage in
          buy_both voltage reduced_ampere (source power) import n
      else mret false
  | None => buy_current (value max_current) (source max_current) import n
  end.

Definition buy_ampere (voltage : float) (offer : LimitsReq) (ampere : float) (allow_less import : bool)
    (n : IntegerWithSource) : op bool :=
  match ac_max_current_A offer with
  | None => mret false
  | Some max_current =>
      let enough := match total_power_W offer with
                    | Some power => f_ge (value power) (power_of ampere (int_value n) voltage)
                    | None => true
                    end in
      if f_ge (value max_current) ampere && enough then
        match total_power_W offer with
        | Some _ => buy_both voltage ampere (source max_current) import n
        | None => buy_current ampere (source max_current) import n
        end
      else if allow_less && f_gt (value max_current) zero then
        buy_leftovers voltage max_current (total_power_W offer) import n
      else mret false
  end.

Definition buy_watt (offer : LimitsReq) (watt : float) (allow_less import : bool) : op bool :=
  match total_power_W offer with
  | None => mret false
  | Some power =>
      if f_ge (value power) watt then
        buy_watt_unchecked (number (f_mul (sign import) watt) (source power)) ;; mret true
      else if allow_less && f_gt (value power) zero then
        buy_watt_unchecked (number (f_mul (sign import) (value power)) (source power)) ;; mret true
      else mret false
  end.

(** ** Fast charging *)
Definition three : IntegerWithSource := {| int_value := 3; int_source := "BrokerFastCharging_Fallback" |}.
Definition fixed_phases : IntegerWithSource := {| int_value := 3; int_source := "BrokerFastCharging_FixedValue" |}.
Definition active_phases (l : LimitsReq) : Z := default 3 (ac_number_of_active_phases l).
Definition max_phases (l : LimitsReq) : IntegerWithSource := default three (ac_max_phase_count l).
Definition min_phases (l : LimitsReq) : IntegerWithSource := default three (ac_min_phase_count l).
Definition keep_phases (l : LimitsReq) : IntegerWithSource :=
  {| int_value := active_phases l; int_source := "BrokerFastCharging_KeepNrOfPhases" |}.

(** A limit that is set to zero. *)
Definition is_zero (x : option NumberWithSource) : bool :=
  match x with Some n => f_eq (value n) zero | None => false end.
Definition can_trade (l : LimitsReq) : bool := negb (is_zero (total_power_W l) || is_zero (ac_max_current_A l)).

Definition decide_slot_type (imp exp : LimitsReq) : op () :=
  b ← cget;
  cwhen (bool_decide (slot_type (b_slot b) = Undecided))
    (if can_trade imp then cmodify (set_slot (set_slot_type Import))
     else cwhen (can_trade exp) (cmodify (set_slot (set_slot_type Export)))).

Definition min_power_3ph (voltage : float) (l : LimitsReq) : float :=
  match ac_min_current_A l with
  | Some m => power_of (value m) (int_value (max_phases l)) voltage
  | None => zero
  end.

(** The number of phases that suits the power best. *)
Definition optimal_phases (config : BrokerConfig) (l : LimitsReq) (power : NumberWithSource) (min_power : float) : IntegerWithSource :=
  if f_lt (value power) min_power then {| int_value := int_value (min_phases l); int_source := source power |}
  else if bool_decide (switch_1ph_3ph_mode config = Both) && f_gt (value power) (f_add min_power (of_int (power_hysteresis_W config)))
  then max_phases l
  else keep_phases l.

Definition cycles_reached (config : BrokerConfig) (c : BrokerContext) : bool :=
  (0 <? max_nr_of_switches_per_session config) && (max_nr_of_switches_per_session config <? number_1ph3ph_cycles c).
Definition sticky_phases (config : BrokerConfig) (l : LimitsReq) : IntegerWithSource :=
  match stickyness config with
  | SinglePhase => min_phases l
  | ThreePhase => max_phases l
  | DontChange => keep_phases l
  end.

(** The phases for the first trade, and whether the switching cycles are used up. *)
Definition choose_phases (g : globals_t) (config : BrokerConfig) (active : bool) (l : LimitsReq)
    (power : NumberWithSource) (min_power : float) : op (IntegerWithSource * bool) :=
  b ← cget;
  let reached := cycles_reached config (context b) in
  let n := if reached then sticky_phases config l else optimal_phases config l power min_power in
  cwhen ((int_value n =? int_value (min_phases l)) && active)
    (now ← utc_now;
     cmodify (set_context (λ c, {| number_1ph3ph_cycles := number_1ph3ph_cycles c;
       last_ac_number_of_active_phases_import := last_ac_number_of_active_phases_import c; ts_1ph_optimal := now |}))) ;;
  b ← cget;
  let stable_3ph := Z.quot (start_time g - ts_1ph_optimal (context b)) 1000000000 in
  mret (if (0 <? time_hysteresis_s config) && active && (stable_3ph <? time_hysteresis_s config) &&
           (int_value n =? int_value (max_phases l))
        then min_phases l else n, reached).

Definition phases_of_trade (g : globals_t) (config : BrokerConfig) (voltage : float) (active : bool) (l : LimitsReq) :
    op (IntegerWithSource * bool) :=
  b ← cget;
  if first_trade (b_slot b) then
    let min_power := min_power_3ph voltage l in
    match total_power_W l with
    | Some power =>
        if negb (bool_decide (switch_1ph_3ph_mode config = Never)) && f_gt min_power zero
        then choose_phases g config active l power min_power
        else mret (max_phases l, false)
    | None => mret (max_phases l, false)
    end
  else mret ({| int_value := active_phases l; int_source := "BrokerFastCharging_Default" |}, false).

Definition store_decision (l : LimitsReq) : op () :=
  cmodify (set_context (λ c,
    {| number_1ph3ph_cycles := number_1ph3ph_cycles c +
         (if negb (active_phases l =? last_ac_number_of_active_phases_import c) then 1 else 0);
       last_ac_number_of_active_phases_import := active_phases l; ts_1ph_optimal := ts_1ph_optimal c |})).

(** The minimal current on the first trade. *)
Definition needs_minimum (s : slot) (l : LimitsReq) : option float :=
  match ac_min_current_A l with
  | Some m => if first_trade s && f_gt (value m) zero then Some (value m) else None
  | None => None
  end.

Definition import_current (g : globals_t) (config : BrokerConfig) (voltage : float) (active : bool) (l : LimitsReq) : op () :=
  p ← phases_of_trade g config voltage active l;
  store_decision l ;;
  b ← cget;
  match needs_minimum (b_slot b) l with
  | Some minimum =>
      cmodify (set_slot (set_num_phases p.1)) ;;
      bought ← buy_ampere voltage l minimum false true p.1;
      cwhen (negb bought && negb (bool_decide (switch_1ph_3ph_mode config = Never)) && negb p.2)
        (let single := {| int_value := 1; int_source := "BrokerFastCharging_Buy3phFailed" |} in
         cmodify (set_slot (set_num_phases single)) ;;
         buy_ampere voltage l minimum false true single ;;
         mret tt)
  | None => buy_ampere voltage l (slice_ampere g) true true (num_phases (b_slot b)) ;; mret tt
  end.

Definition export_current (g : globals_t) (voltage : float) (l : LimitsReq) : op () :=
  b ← cget;
  match needs_minimum (b_slot b) l with
  | Some minimum => buy_ampere voltage l minimum false false fixed_phases ;; mret tt
  | None => buy_ampere voltage l (slice_ampere g) true false fixed_phases ;; mret tt
  end.

(** Direction and number of phases, decided when the slot is first traded. *)
Definition open_slot (imp exp : LimitsReq) : op () :=
  decide_slot_type imp exp ;;
  b ← cget;
  cwhen (int_value (num_phases (b_slot b)) =? 0)
    (cmodify (set_slot (set_num_phases
       {| int_value := active_phases imp; int_source := "BrokerFastCharging_NumPhasesActive" |}))).

(** The body of the loop of [tradeImpl]. *)
Definition trade_slot (g : globals_t) (config : BrokerConfig) (voltage : float) (active : bool) (imp exp : LimitsReq) : op () :=
  open_slot imp exp ;;
  b ← cget;
  match slot_type (b_slot b) with
  | Import =>
      match ac_max_current_A imp, total_power_W imp with
      | Some _, _ => import_current g config voltage active imp
      | None, Some _ => buy_watt imp (slice_watt g) true true ;; mret tt
      | None, None => mret tt
      end
  | Export =>
      match ac_max_current_A exp, total_power_W exp with
      | Some _, _ => export_current g voltage exp
      | None, Some _ => buy_watt exp (slice_watt g) true false ;; mret tt
      | None, None => mret tt
      end
  | Undecided => mret tt
  end.

(** The slot the start time is in. *)
Fixpoint slot_between (now : Z) (n : nat) (offer : ScheduleReq) : nat :=
  match offer with
  | a :: (b :: _) as rest => if (timestamp a <? now) && (now <? timestamp b) then n else slot_between now (S n) rest
  | _ => O
  end.
Definition active_slot (now : Z) (offer : ScheduleReq) : nat :=
  match offer with
  | [] => O
  | first :: _ =>
      if now <? timestamp first then O
      else if timestamp (List.last offer first) <? now then (length offer - 1)%nat
      else slot_between now O offer
  end.

(** The trade that buys nothing. *)
Definition nothing_bought (l : LimitsReq) : LimitsRes :=
  {| res_ac_max_current_A := match ac_max_current_A l with Some _ => Some (unnamed zero) | None => None end;
     res_total_power_W := match total_power_W l with Some _ => Some (unnamed zero) | None => None end;
     res_ac_max_phase_count := None |}.

Record trade_state := { ts_context : BrokerContext; ts_clock : list Z; ts_traded : bool }.

(** The loop over the slots: their new states and the trades. *)
Fixpoint tradeImpl (g : globals_t) (config : BrokerConfig) (voltage : float) (act i : nat)
    (imp exp : ScheduleReq) (sl : list slot) (t : trade_state) : list slot * list LimitsRes * trade_state :=
  match imp, exp, sl with
  | a :: imp', b :: exp', s :: sl' =>
      let '(_, r, _) := trade_slot g config voltage (act =? i)%nat (limits_to_root a) (limits_to_root b)
        {| b_slot := s; trading := nothing_bought (limits_to_root a); traded := ts_traded t;
           context := ts_context t; clock := ts_clock t |} in
      let '(slots', trades, t') := tradeImpl g config voltage act (S i) imp' exp' sl'
        {| ts_context := context r; ts_clock := clock r; ts_traded := traded r |} in
      (b_slot r :: slots', trading r :: trades, t')
  | _, _, _ => ([], [], t)
  end.

End Broker.
