(* ===== verification/EnergyManager.v ===== *)
(** * The energy manager

    [Broker::trade] and the optimizer ([EnergyManagerImpl.cpp]): brokers trade in rounds
    until nobody buys any more. *)

From Stdlib Require Import String Floats.SpecFloat.
From S2P Require Import Prelude Float32 EnergyMarket EnergyBroker.

Module Manager.

Import Float32 Energy Broker.
#[local] Open Scope string_scope.
#[local] Open Scope Z_scope.

(** ** Configuration *)
Record EnergyManagerConfig := {
  nominal_ac_voltage : double;
  update_interval : Z;
  schedule_interval_duration : Z;
  schedule_total_duration : Z;
  slice_ampere : double;
  slice_watt : double;
  switch_3ph1ph_while_charging_mode : string;
  switch_3ph1ph_max_nr_of_switches_per_session : Z;
  switch_3ph1ph_switch_limit_stickyness : string;
  switch_3ph1ph_power_hysteresis_W : Z;
  switch_3ph1ph_time_hysteresis_s : Z;
}.

Definition to_switch_1ph3ph_mode (m : string) : Switch1ph3phMode :=
  if (m =? "Both")%string then Both else if (m =? "Oneway")%string then Oneway else Never.
Definition to_stickyness (m : string) : StickyNess :=
  if (m =? "DontChange")%string then DontChange else if (m =? "SinglePhase")%string then SinglePhase else ThreePhase.
Definition to_broker_fast_charging_config (c : EnergyManagerConfig) : BrokerConfig :=
  {| switch_1ph_3ph_mode := to_switch_1ph3ph_mode (switch_3ph1ph_while_charging_mode c);
     stickyness := to_stickyness (switch_3ph1ph_switch_limit_stickyness c);
     max_nr_of_switches_per_session := switch_3ph1ph_max_nr_of_switches_per_session c;
     power_hysteresis_W := switch_3ph1ph_power_hysteresis_W c;
     time_hysteresis_s := switch_3ph1ph_time_hysteresis_s c |}.

(** Whether any node asks for priority. *)
Fixpoint is_priority_request (e : EnergyFlowRequest) : bool :=
  default false (priority_request e) || existsb is_priority_request (children e).

(** ** State *)
Record EnergyManagerImpl := {
  config : EnergyManagerConfig;
  cached_request : EnergyFlowRequest;
  contexts : gmap string BrokerContext;
}.
Definition no_request : EnergyFlowRequest :=
  {| children := []; uuid := ""; node_type := Undefined; priority_request := None; evse_state := None;
     optimizer_target := None; usage_root_frequency := None; usage_leaves_frequency := None; schedule_import := [];
     schedule_export := []; schedule_setpoints := [] |}.
Definition EnergyManagerImpl_new (c : EnergyManagerConfig) : EnergyManagerImpl :=
  {| config := c; cached_request := no_request; contexts := ∅ |}.

(** Stores the request; [true]: the optimizer is woken up. *)
Definition on_energy_flow_request (e : EnergyFlowRequest) (i : EnergyManagerImpl) : bool * EnergyManagerImpl :=
  (is_priority_request e, {| config := config i; cached_request := e; contexts := contexts i |}).

(** What changes during an optimization. *)
Record optimization := {
  markets : gmap ptr Market;
  o_contexts : gmap string BrokerContext;
  o_clock : list Z;
}.

(** ** Brokers *)

(** [contexts[uuid]]: created if it does not exist. *)
Definition context_of (id : string) (cs : gmap string BrokerContext) (readings : list Z) :
    BrokerContext * gmap string BrokerContext * list Z :=
  match cs !! id with
  | Some c => (c, cs, readings)
  | None =>
      let '(now, rest) := next_reading readings in
      let c := BrokerContext_clear now in
      (c, <[id := c]> cs, rest)
  end.

Definition session_over (r : EnergyFlowRequest) : bool :=
  bool_decide (evse_state r = Some Unplugged) || bool_decide (evse_state r = Some Finished).

(** The context of an EVSE at the start of an optimization: cleared between sessions. *)
Definition prepare_context (g : globals_t) (hysteresis : Z) (r : EnergyFlowRequest) (o : optimization) : optimization :=
  let '(c, cs, readings) := context_of (uuid r) (o_contexts o) (o_clock o) in
  if session_over r then
    let '(_, rest) := next_reading readings in
    let cleared := {| number_1ph3ph_cycles := 0; last_ac_number_of_active_phases_import := 0;
                      ts_1ph_optimal := start_time g - hysteresis * 1000000000 |} in
    {| markets := markets o; o_contexts := <[uuid r := cleared]> cs; o_clock := rest |}
  else {| markets := markets o; o_contexts := cs; o_clock := readings |}.

Definition Broker_new (g : globals_t) (m : ptr) : Broker := {| local_market := m; slots := replicate (schedule_length g) slot_new |}.

Definition uuid_at (o : optimization) (m : ptr) : string :=
  match markets o !! m with Some n => uuid (energy_flow_request n) | None => "" end.

Definition prepare_contexts (g : globals_t) (hysteresis : Z) (evses : list ptr) (o : optimization) : optimization :=
  foldl (λ o m, match markets o !! m with Some n => prepare_context g hysteresis (energy_flow_request n) o | None => o end) o evses.

(** [Broker::trade]: prepare a trade and execute it on the market. *)
Definition broker_trade (g : globals_t) (bc : BrokerConfig) (voltage : float) (b : Broker) (offer : Offer) (o : optimization) :
    bool * Broker * optimization :=
  if negb (length (import_offer offer) =? length (export_offer offer))%nat then (false, b, o)
  else
    let id := uuid_at o (local_market b) in
    let '(c, cs, readings) := context_of id (o_contexts o) (o_clock o) in
    let '(slots', trades, t) := tradeImpl g bc voltage (active_slot (start_time g) (import_offer offer)) 0
      (import_offer offer) (export_offer offer) (slots b)
      {| ts_context := c; ts_clock := readings; ts_traded := false |} in
    let trading := zip_with (λ e l, with_res l e) (empty_schedule_res g) trades in
    (ts_traded t, {| local_market := local_market b; slots := slots' |},
     {| markets := trade trading (local_market b) (markets o); o_contexts := <[id := ts_context t]> cs; o_clock := ts_clock t |}).

(** ** The optimizer *)
Definition broker_turn (g : globals_t) (bc : BrokerConfig) (voltage : float) (b : Broker) (o : optimization) : bool * Broker * optimization :=
  broker_trade g bc voltage b (create_offer_for_local_market g (markets o) (local_market b)) o.

(** Each broker trades once; [true]: a trade happened. *)
Fixpoint trading_round (g : globals_t) (bc : BrokerConfig) (voltage : float) (brokers : list Broker) (o : optimization) :
    bool * list Broker * optimization :=
  match brokers with
  | [] => (false, [], o)
  | b :: brokers' =>
      let '(t, b', o1) := broker_turn g bc voltage b o in
      let '(ts, bs, o2) := trading_round g bc voltage brokers' o1 in
      (t || ts, b' :: bs, o2)
  end.

(** [n] rounds at most, and only until no trade happens; the number of rounds left. *)
Fixpoint trading_rounds (n : nat) (g : globals_t) (bc : BrokerConfig) (voltage : float) (brokers : list Broker) (o : optimization) :
    nat * list Broker * optimization :=
  match n with
  | O => (O, brokers, o)
  | S n' =>
      let '(t, bs, o') := trading_round g bc voltage brokers o in
      if (t : bool) then trading_rounds n' g bc voltage bs o' else (S n', bs, o')
  end.

Definition max_number_of_trading_rounds : nat := 100.

Record EnforcedLimits := {
  enforced_uuid : string;
  valid_for : Z;
  limits_root_side : LimitsRes;
  enforced_schedule : ScheduleRes;
}.

(** The entry in force at the start time: the last one that is not in the future. *)
Fixpoint select_schedule (start : Z) (selected : ScheduleResEntry) (l : ScheduleRes) : ScheduleResEntry :=
  match l with
  | [] => selected
  | s :: l' => if start <? res_timestamp s then selected else select_schedule start s l'
  end.

Definition enforced_limits (g : globals_t) (interval : Z) (o : optimization) (m : ptr) : list EnforcedLimits :=
  match markets o !! m with
  | None => []
  | Some n =>
      match sold_root n with
      | [] => []
      | front :: _ =>
          [{| enforced_uuid := uuid (energy_flow_request n); valid_for := interval * 10;
              limits_root_side := res_limits_to_root (select_schedule (start_time g) front (sold_root n));
              enforced_schedule := sold_root n |}]
      end
  end.

Record optimizer_run := {
  run_globals : globals_t;
  run_evses : list ptr;
  run_rounds_left : nat;
  run_brokers : list Broker;
  run_end : optimization;
}.

(** The trading of [run_optimizer]; [readings]: of the clock, [leap]: leap seconds. *)
Definition optimize (leap : Z) (request : EnergyFlowRequest) (start : Z) (readings : list Z) (i : EnergyManagerImpl) : optimizer_run :=
  let c := config i in
  let g := init start (schedule_interval_duration c) (schedule_total_duration c) leap (to_float (slice_ampere c)) (to_float (slice_watt c))
    request in
  let voltage := to_float (nominal_ac_voltage c) in
  let evses := get_list_of_evses request [] in
  let o0 := {| markets := Market_new g voltage request []; o_contexts := contexts i; o_clock := readings |} in
  let o1 := prepare_contexts g (switch_3ph1ph_time_hysteresis_s c) evses o0 in
  let '(rounds_left, brokers, o2) := trading_rounds max_number_of_trading_rounds g (to_broker_fast_charging_config c)
    voltage (map (Broker_new g) evses) o1 in
  {| run_globals := g; run_evses := evses; run_rounds_left := rounds_left; run_brokers := brokers; run_end := o2 |}.

Definition run_optimizer (leap : Z) (request : EnergyFlowRequest) (start : Z) (readings : list Z) (i : EnergyManagerImpl) :
    list EnforcedLimits * EnergyManagerImpl :=
  let r := optimize leap request start readings i in
  (flat_map (λ b, enforced_limits (run_globals r) (update_interval (config i)) (run_end r) (local_market b)) (run_brokers r),
   {| config := config i; cached_request := cached_request i; contexts := o_contexts (run_end r) |}).

(** A pass of the worker thread: the optimizer runs on the last request. *)
Definition worker_turn (leap now : Z) (readings : list Z) (i : EnergyManagerImpl) : list EnforcedLimits * EnergyManagerImpl :=
  run_optimizer leap (cached_request i) now readings i.

End Manager.
