(* ===== verification/EnergyAmounts.v ===== *)
(** * Amounts of energy

    What the single precision arithmetic of the energy manager guarantees: what is left of
    a limit, what a broker buys of an offer, and how the account of a node grows.  Amounts
    are compared in grains ([FloatRound]). *)

From Stdlib Require Import String Floats.SpecFloat.
From S2P Require Import Prelude Float32 FloatRound EnergyMarket EnergyBroker.

Module Amounts.

Import Float32 FloatRound Energy Broker.
#[local] Open Scope Z_scope.

(** ** Bounds

    [within a l]: [a] is at most [l], but for rounding: a part in [2^20], and [2^-100]. *)
Definition within (a l : Z) : Prop := 2 ^ 20 * a <= (2 ^ 20 + 1) * l + 2 ^ (20 - 100 + grain).
(** The same for a single purchase: a part in [2^21], and [2^-120]. *)
Definition bought_within (a l : Z) : Prop := 2 ^ 21 * a <= (2 ^ 21 + 1) * l + 2 ^ (21 - 120 + grain).

(** The largest limit: [2^99]. *)
Definition max_limit : Z := 2 ^ (99 + grain).
(** The largest purchase: [2^100]. *)
Definition max_amount : Z := 2 ^ (100 + grain).

(** A limit that can be worked with: a number between 0 and [2^99]. *)
Definition sane (x : float) : bool := sound x && (0 <=? grains x) && (grains x <=? max_limit).

Lemma sane_spec x : sane x = true ↔ sound x = true ∧ 0 <= grains x <= max_limit.
Proof. unfold sane. rewrite !andb_true_iff, !Z.leb_le. tauto. Qed.

(** Large constants stay folded for [lia], which needs only their relations. *)
Lemma constants :
  f_max = 2 ^ 29 * max_limit ∧ max_amount = 2 * max_limit ∧ max_limit = 2 ^ 99 * unit ∧ 0 < unit ∧
  half_step * 2 ^ 149 = unit ∧ 0 < half_step ∧
  2 ^ (20 - 100 + grain) = 2 ^ 69 * half_step ∧ 2 ^ (21 - 120 + grain) = 2 ^ 50 * half_step.
Proof. by vm_compute. Qed.

Ltac amounts := pose proof constants as (? & ? & ? & ? & ? & ? & ? & ?); unfold within, bought_within, eps in *.

(** ** Purchases *)
Lemma close_upper f D X :
  close f D X → 0 <= X → 0 < D → eps * (grains f * D) <= (eps + 1) * X + eps * (D * half_step).
Proof. unfold close. intros [Hc|Hc] HX HD; amounts; lia. Qed.
Lemma close_lower f D X :
  close f D X → 0 <= X → 0 < D → (eps - 1) * X <= eps * (grains f * D) + eps * (D * half_step).
Proof. unfold close. intros [Hc|Hc] HX HD; amounts; lia. Qed.

(** A voltage between 1 and [2^16]. *)
Definition sane_voltage (v : float) : bool := sound v && (unit <=? grains v) && (grains v <=? 2 ^ 16 * unit).
Lemma sane_voltage_spec v : sane_voltage v = true ↔ sound v = true ∧ unit <= grains v <= 2 ^ 16 * unit.
Proof. unfold sane_voltage. rewrite !andb_true_iff, !Z.leb_le. tauto. Qed.

Lemma phases_grains n : 0 <= n <= 3 → sound (of_int n) = true ∧ grains (of_int n) = n * unit.
Proof.
  intros Hn. assert (n = 0 ∨ n = 1 ∨ n = 2 ∨ n = 3) as [->|[->|[->| ->]]] by lia; split; vm_compute; reflexivity.
Qed.

Lemma sound_zero f : sound f = true → grains f = 0 → ∃ s, f = S754_zero s.
Proof.
  intros Hs H0. destruct f as [s|s| |s m e]; try done; [by exists s|]. exfalso.
  apply andb_true_iff in Hs as [V _]. apply valid_finite in V as (He & _). pose proof (pow_grain e ltac:(lia)).
  destruct s; cbn [grains cond_Zopp] in H0; nia.
Qed.

Lemma f_div_zero z w : sound w = true → grains w ≠ 0 → ∃ s, f_div (S754_zero z) w = S754_zero s.
Proof. intros Hw H0. destruct w as [sw|sw| |sw mw ew]; try done. by eexists. Qed.

Section power.
Context (n : Z) (v : float) (Hn : 0 <= n <= 3) (Hv : sane_voltage v = true).

Lemma mul_phases a :
  sound a = true → 0 <= grains a <= max_amount →
  let m := f_mul a (of_int n) in
  sound m = true ∧ 0 <= grains m ∧
  eps * grains m <= (eps + 1) * (grains a * n) + eps * half_step ∧
  (eps - 1) * (grains a * n) <= eps * grains m + eps * half_step.
Proof.
  intros Ha Hb. destruct (phases_grains n Hn) as [Sn Gn]. cbv zeta.
  pose proof (f_mul_close a (of_int n) Ha Sn) as H. rewrite Gn in H. set (m := f_mul a (of_int n)) in *.
  assert (0 <= grains a * n) by nia. assert (grains a * n <= 3 * max_amount) by nia. amounts.
  destruct H as (Hs & Hc & _ & Hp); [nia|]. split; [done|]. split; [apply Hp; nia|].
  pose proof (close_upper _ _ _ Hc) as Hu. pose proof (close_lower _ _ _ Hc) as Hl. unfold eps in *. nia.
Qed.

Lemma mul_voltage m :
  sound m = true → 0 <= grains m <= 2 ^ 2 * max_amount →
  let w := f_mul m v in
  sound w = true ∧ 0 <= grains w ∧
  eps * (grains w * unit) <= (eps + 1) * (grains m * grains v) + eps * (unit * half_step) ∧
  (eps - 1) * (grains m * grains v) <= eps * (grains w * unit) + eps * (unit * half_step).
Proof.
  intros Hm Hb. apply sane_voltage_spec in Hv as [Sv Gv]. cbv zeta.
  pose proof (f_mul_close m v Hm Sv) as H. set (w := f_mul m v) in *.
  assert (0 <= grains m * grains v) by nia. assert (grains m * grains v <= 2 ^ 18 * unit * max_amount) by nia. amounts.
  destruct H as (Hs & Hc & _ & Hp); [nia|]. split; [done|]. split; [by apply Hp|].
  pose proof (close_upper _ _ _ Hc) as Hu. pose proof (close_lower _ _ _ Hc) as Hl. unfold eps in *. nia.
Qed.

(** The power of a current. *)
Lemma power_of_sound a :
  sound a = true → 0 <= grains a <= max_amount →
  sound (power_of a n v) = true ∧ 0 <= grains (power_of a n v) <= max_amount * 2 ^ 20.
Proof.
  intros Ha Hb. destruct (mul_phases a Ha Hb) as (Hs & Hp & Hu & _). unfold power_of. set (m := f_mul a (of_int n)) in *.
  assert (grains m <= 2 ^ 2 * max_amount) by (amounts; nia).
  destruct (mul_voltage m Hs ltac:(lia)) as (Hs2 & Hp2 & Hu2 & _). split; [done|]. split; [done|].
  apply sane_voltage_spec in Hv as [_ Gv]. assert (grains m * grains v <= 2 ^ 18 * max_amount * unit) by nia.
  apply (Z.mul_le_mono_pos_r _ _ unit); [done|]. amounts. nia.
Qed.

Lemma power_of_upper a :
  sound a = true → 0 <= grains a <= max_amount →
  eps * eps * (grains (power_of a n v) * unit) <=
  (eps + 1) * (eps + 1) * (grains a * n * grains v) + 3 * eps * eps * (half_step * grains v).
Proof.
  intros Ha Hb. destruct (mul_phases a Ha Hb) as (Hs & Hp & Hu & _). unfold power_of. set (m := f_mul a (of_int n)) in *.
  assert (grains m <= 2 ^ 2 * max_amount) by (amounts; nia).
  destruct (mul_voltage m Hs ltac:(lia)) as (Hs2 & Hp2 & Hu2 & _). apply sane_voltage_spec in Hv as [_ Gv].
  assert (eps * (grains m * grains v) <= (eps + 1) * (grains a * n * grains v) + eps * (half_step * grains v)).
  { replace (eps * (grains m * grains v)) with (eps * grains m * grains v) by lia.
    transitivity (((eps + 1) * (grains a * n) + eps * half_step) * grains v); [apply Z.mul_le_mono_nonneg_r; lia|lia]. }
  assert (unit * half_step <= half_step * grains v) by (amounts; nia).
  assert (0 <= half_step * grains v) by (amounts; nia). set (P := grains m * grains v) in *. unfold eps in *. lia.
Qed.

Lemma power_of_none a : n = 0 → sound a = true → 0 <= grains a <= max_amount → grains (power_of a n v) = 0.
Proof.
  intros Hn0 Ha Hb. destruct (mul_phases a Ha Hb) as (Hs & Hp & _). unfold power_of. set (m := f_mul a (of_int n)) in *.
  destruct (phases_grains n Hn) as [Sn Gn]. assert (grains (of_int n) = 0) as G0 by lia.
  assert (grains m = 0) as Hm.
  { apply (f_mul_close a (of_int n)) with (z := zero); [done..|rewrite G0; amounts; lia|done|]. rewrite G0. cbn. lia. }
  apply sane_voltage_spec in Hv as [Sv Gv].
  apply (f_mul_close m v) with (z := zero); [done..|rewrite Hm; amounts; lia|done|]. rewrite Hm. cbn. lia.
Qed.

(** The current that a power allows. *)
Lemma reduced_upper t :
  n ≠ 0 → sound t = true → 0 < grains t <= max_limit →
  let r := f_div (f_div t (of_int n)) v in
  sound r = true ∧ 0 <= grains r ∧
  eps * eps * (grains r * n * grains v) <= (eps + 1) * (eps + 1) * (grains t * unit) + 8 * eps * eps * (half_step * grains v).
Proof.
  intros Hn0 Ht Hb. destruct (phases_grains n Hn) as [Sn Gn]. apply sane_voltage_spec in Hv as [Sv Gv]. cbv zeta.
  destruct (f_div_close t (of_int n) Ht Sn) as (Hs & Hp & Hc); [lia|rewrite Gn; amounts; nia|rewrite Gn; amounts; nia|].
  set (q := f_div t (of_int n)) in *. rewrite Gn in Hc.
  assert (eps * (grains q * n) <= (eps + 1) * grains t + eps * (n * half_step)) as Hq.
  { pose proof (close_upper _ _ _ Hc) as H. apply (Z.mul_le_mono_pos_r _ _ unit); [done|]. unfold eps in *. amounts. nia. }
  assert (unit * half_step <= half_step * grains v) by (amounts; nia).
  destruct (decide (grains q = 0)) as [H0|H0].
  - destruct (sound_zero q Hs H0) as [z ->]. destruct (f_div_zero z v Sv) as [s ->]; [amounts; lia|].
    split; [done|]. cbn [grains]. amounts. nia.
  - assert (grains q <= 2 * max_limit) by (amounts; nia).
    destruct (f_div_close q v Hs Sv) as (Hs2 & Hp2 & Hc2); [lia|amounts; lia|amounts; nia|]. split; [done|]. split; [done|].
    set (r := f_div q v) in *. pose proof (close_upper _ _ _ Hc2) as Hr.
    assert (eps * (grains r * grains v) <= (eps + 1) * (grains q * unit) + eps * (grains v * half_step)) as Hr' by (apply Hr; amounts; nia).
    assert (eps * (grains q * n * unit) <= (eps + 1) * (grains t * unit) + eps * (n * (unit * half_step))) by (amounts; nia).
    assert (0 <= half_step * grains v) by (amounts; nia). set (A := grains r * grains v) in *. set (Hh := half_step * grains v) in *.
    assert (n = 1 ∨ n = 2 ∨ n = 3) as [-> | [-> | ->]] by lia; unfold eps in *; lia.
Qed.

(** When a power is too small for a current: the reduced current and its power. *)
Lemma reduced_bought t c :
  sound t = true → 0 < grains t <= max_limit → sound c = true → 0 < grains c <= max_limit →
  f_ge t (power_of c n v) = false →
  let r := f_div (f_div t (of_int n)) v in
  sound r = true ∧ 0 <= grains r <= max_amount ∧ bought_within (grains r) (grains c) ∧
  bought_within (grains (power_of r n v)) (grains t).
Proof.
  intros Ht Hbt Hc Hbc Hlt. destruct (power_of_sound c Hc ltac:(amounts; lia)) as [Hs Hp].
  rewrite (f_ge_grains t _ Ht Hs), Z.leb_gt in Hlt.
  assert (n ≠ 0) as Hn0 by (intros Hn0; rewrite (power_of_none c Hn0 Hc ltac:(amounts; lia)) in Hlt; lia).
  pose proof (power_of_upper c Hc ltac:(amounts; lia)) as Huc.
  destruct (reduced_upper t Hn0 Ht ltac:(lia)) as (Hsr & Hpr & Hur). cbv zeta. set (r := f_div _ v) in *.
  pose proof Hv as [_ Gv]%sane_voltage_spec.
  assert (0 <= half_step * grains v ∧ unit * half_step <= half_step * grains v) as [Hh1 Hh2] by (amounts; nia).
  assert (bought_within (grains r) (grains c)) as Hrc.
  { apply (Z.mul_le_mono_pos_r _ _ (grains v)); [amounts; lia|].
    assert (grains t * unit <= grains (power_of c n v) * unit) by (amounts; nia).
    assert (n = 1 ∨ n = 2 ∨ n = 3) as Hn3 by lia. amounts. set (A := grains r * grains v) in *.
    set (C := grains c * grains v) in *. set (Hh := half_step * grains v) in *. set (T := grains t * unit) in *.
    set (W := grains (power_of c n v) * unit) in *. destruct Hn3 as [-> | [-> | ->]]; lia. }
  assert (grains r <= max_amount) as Hmax by (amounts; lia). split_and!; try done.
  pose proof (power_of_upper r Hsr ltac:(lia)) as Hw. apply (Z.mul_le_mono_pos_r _ _ unit); [done|].
  assert (half_step * grains v <= 2 ^ 16 * (half_step * unit)) by (amounts; nia).
  amounts. set (A := grains r * n * grains v) in *. set (T := grains t * unit) in *. set (Hh := half_step * grains v) in *.
  set (W := grains (power_of r n v) * unit) in *. lia.
Qed.

End power.

(** ** Accounts *)

Lemma closest_opp f S : closest f S → closest (SFopp f) (- S).
Proof.
  intros [Hs He Hl Hg]. constructor.
  - by rewrite sound_opp.
  - rewrite grains_opp. unfold eps in *. lia.
  - intros z Hz HS. rewrite grains_opp. pose proof (Hg (SFopp z)) as H. rewrite sound_opp, grains_opp in H. specialize (H Hz). lia.
  - intros z Hz HS. rewrite grains_opp. pose proof (Hl (SFopp z)) as H. rewrite sound_opp, grains_opp in H. specialize (H Hz). lia.
Qed.

(** An account [sold] of a node with the limit [limit] grows by [amount], which was bought
    of an offer that is at most what is left. *)
Lemma account_bound limit sold left_over offer amount total :
  0 <= limit → sound sold = true → sound amount = true →
  closest left_over (limit + Z.min 0 (- grains sold)) → grains offer <= grains left_over → 0 < grains offer →
  0 <= grains amount → bought_within (grains amount) (grains offer) →
  closest total (grains amount + grains sold) → within (grains total) limit ∧ grains sold <= grains total.
Proof.
  intros HL Hs Ha [_ Hle _ _] Ho Ho0 Ha0 Hb [_ Hte Htl Htg]. split; [|apply Htg; [done|lia]].
  destruct (decide (grains sold <= 0)) as [Hneg|Hpos].
  - specialize (Htl amount Ha ltac:(lia)). amounts. lia.
  - amounts. lia.
Qed.

Lemma representable N : 0 <= N < 2 ^ 24 → ∃ z, sound z = true ∧ grains z = N * max_amount.
Proof.
  intros HN. destruct (decide (N = 0)) as [->|H0]; [by exists zero|].
  destruct (Zdigits2_spec N) as [[Hd1 Hd2] Hd0]; [lia|]. set (d := Zdigits2 N) in *.
  assert (d <= 24) as Hd.
  { destruct (decide (d <= 24)); [done|]. assert (2 ^ 24 <= 2 ^ (d - 1)) by (apply Z.pow_le_mono_r; lia). lia. }
  pose proof (Z.pow_pos_nonneg 2 (24 - d) ltac:(lia) ltac:(lia)) as Hp.
  assert (2 ^ 23 <= N * 2 ^ (24 - d) < 2 ^ 24) as Hm.
  { change (2 ^ 23) with (2 ^ (23 + 0)). split.
    - replace (23 + 0) with ((d - 1) + (24 - d)) by lia. rewrite Z.pow_add_r by lia. nia.
    - assert (2 ^ d * 2 ^ (24 - d) = 2 ^ 24) as E by (rewrite <- Z.pow_add_r by lia; f_equal; lia). nia. }
  destruct (N * 2 ^ (24 - d)) as [|m|m] eqn:E; [lia| |lia].
  exists (S754_finite false m (100 - (24 - d))). split.
  - unfold sound. rewrite andb_true_iff. split; [|done]. apply valid_finite. lia.
  - cbn [grains cond_Zopp]. rewrite <- E. unfold max_amount.
    replace (100 + grain) with ((24 - d) + (100 - (24 - d) + grain)) by lia. rewrite (Z.pow_add_r 2 (24 - d)) by (unfold grain; lia). lia.
Qed.

(** No account overflows in a run. *)
Lemma account_size N sold amount :
  0 <= N < 2 ^ 24 - 1 → sound sold = true → sound amount = true →
  Z.abs (grains sold) <= N * max_amount → Z.abs (grains amount) <= max_amount →
  closest (f_add amount sold) (grains amount + grains sold) ∧ Z.abs (grains (f_add amount sold)) <= (N + 1) * max_amount.
Proof.
  intros HN Hs Ha Hbs Hba.
  assert (closest (f_add amount sold) (grains amount + grains sold)) as H.
  { apply f_add_closest; [done..|]. amounts. nia. }
  split; [done|]. destruct H as [_ _ Hle Hge]. destruct (representable (N + 1) ltac:(lia)) as (z & Hz & Gz).
  specialize (Hle z Hz ltac:(lia)). specialize (Hge (SFopp z)). rewrite sound_opp, grains_opp in Hge. specialize (Hge Hz). lia.
Qed.

Lemma sold_part_spec add_sold sold :
  (∀ x, sold = Some x → sound (value x) = true ∧ Z.abs (grains (value x)) <= 2 ^ 24 * max_amount) →
  let s := match sold with Some x => grains (value x) | None => 0 end in
  sound (sold_part add_sold sold) = true ∧ grains (sold_part add_sold sold) = Z.min 0 (if add_sold then s else - s).
Proof.
  intros H. cbv zeta. unfold sold_part. destruct sold as [x|]; [|destruct add_sold; done].
  destruct (H x eq_refl) as [Hx Hb]. unfold f_abs_sign.
  assert (sound (f_mul (of_int (if add_sold then 1 else -1)) (value x)) = true ∧
          grains (f_mul (of_int (if add_sold then 1 else -1)) (value x)) = if add_sold then grains (value x) else - grains (value x)) as [Hs Hg].
  { destruct add_sold; [change (of_int 1) with one; rewrite f_mul_one|rewrite f_mul_minus_one]; try done; try (amounts; lia).
    by rewrite sound_opp, grains_opp. }
  unfold f_gt. rewrite (f_lt_grains zero) by done. change (grains zero) with 0. rewrite Hg.
  destruct (Z.ltb_spec 0 (if add_sold then grains (value x) else - grains (value x))); [split; [done|]; cbn; lia|].
  split; [done|]. rewrite Hg. lia.
Qed.

End Amounts.
