(* ===== verification/EnergyTrades.v ===== *)
(** * Trades of a broker

    What the body of the trading loop buys in a time slot: never more than the offer, and
    nothing only if the offer is spent. *)

From Stdlib Require Import String Floats.SpecFloat.
From S2P Require Import Prelude Float32 FloatRound EnergyMarket EnergyBroker EnergyAmounts.

Module Trades.

Import Float32 FloatRound Energy Broker Amounts.
#[local] Open Scope Z_scope.

Notation roots := (map limits_to_root).

(** ** Quantities: current and power *)
Inductive quantity := Current | Power.
Definition lim (q : quantity) (l : LimitsReq) : option NumberWithSource :=
  match q with Current => ac_max_current_A l | Power => total_power_W l end.
Definition res (q : quantity) (l : LimitsRes) : option NumberWithSource :=
  match q with Current => res_ac_max_current_A l | Power => res_total_power_W l end.
Definition amount (x : option NumberWithSource) : Z := match x with Some n => grains (value n) | None => 0 end.

(** An amount in the direction of import or export. *)
Definition directed (import : bool) (a : Z) : Z := if import then a else - a.

(** [x] is bought of the offer [l]. *)
Definition paid (import : bool) (l : LimitsReq) (q : quantity) (x : float) : Prop :=
  let a := directed import (grains x) in
  sound x = true ∧ a <= max_amount ∧
  (a = 0 ∨ 0 < a ∧ ∃ y, lim q l = Some y ∧ 0 < grains (value y) ∧ bought_within a (grains (value y))).
Definition bought (imp exp : LimitsReq) (q : quantity) (x : option NumberWithSource) : Prop :=
  match x with None => True | Some n => paid true imp q (value n) ∨ paid false exp q (value n) end.

(** ** Offers *)
Definition sane_count (x : option IntegerWithSource) : bool :=
  match x with Some n => (0 <=? int_value n) && (int_value n <=? 3) | None => true end.
Definition sane_active (x : option Z) : bool := match x with Some n => (0 <=? n) && (n <=? 3) | None => true end.

Record fair (l : LimitsReq) : Prop := {
  fair_limits q y : lim q l = Some y → sound (value y) = true ∧ grains (value y) <= max_limit;
  fair_minimum y : ac_min_current_A l = Some y → sound (value y) = true;
  fair_max_phases : sane_count (ac_max_phase_count l) = true;
  fair_min_phases : sane_count (ac_min_phase_count l) = true;
  fair_active : sane_active (ac_number_of_active_phases l) = true;
}.

Definition phases_ok (n : IntegerWithSource) : Prop := 0 <= int_value n <= 3.
Lemma phases_count x d : sane_count x = true → phases_ok d → phases_ok (default d x).
Proof. destruct x as [n|]; cbn; [|done]. rewrite andb_true_iff, !Z.leb_le. done. Qed.
Lemma fair_phases l : fair l →
  phases_ok (max_phases l) ∧ phases_ok (min_phases l) ∧ 0 <= active_phases l <= 3.
Proof.
  intros [_ _ H1 H2 H3]. split; [by apply phases_count|]. split; [by apply phases_count|].
  unfold active_phases. destruct (ac_number_of_active_phases l); cbn in *; [|lia].
  by rewrite andb_true_iff, !Z.leb_le in H3.
Qed.

(** ** Buying *)
Section buying.
Context (v : float) (Hv : sane_voltage v = true).

(** Buying [a] in one direction. *)
Lemma signed import a :
  sound a = true → 0 <= grains a <= max_amount →
  sound (f_mul (sign import) a) = true ∧ grains (f_mul (sign import) a) = directed import (grains a).
Proof.
  intros Ha Hb. unfold sign, directed.
  destruct import; [change (of_int 1) with one; rewrite f_mul_one|rewrite f_mul_minus_one, sound_opp, grains_opp]; try done; amounts; lia.
Qed.

Lemma signed_power import a n :
  phases_ok n → sound a = true → 0 <= grains a <= max_amount →
  sound (power_of (f_mul (sign import) a) (int_value n) v) = true ∧
  grains (power_of (f_mul (sign import) a) (int_value n) v) = directed import (grains (power_of a (int_value n) v)).
Proof.
  intros Hn Ha Hb. destruct (power_of_sound (int_value n) v Hn Hv a Ha Hb) as [Hs _]. unfold sign, directed.
  destruct import; [change (of_int 1) with one; rewrite f_mul_one|rewrite f_mul_minus_one; unfold power_of]; try done; try (amounts; lia).
  by rewrite !f_mul_opp, sound_opp, grains_opp.
Qed.

Lemma directed_twice import a : directed import (directed import a) = a.
Proof. destruct import; cbn; lia. Qed.

Lemma paid_of import l q x y a :
  sound x = true → grains x = directed import a → 0 <= a → lim q l = Some y → grains (value y) <= max_limit →
  bought_within a (grains (value y)) → (0 < a → 0 < grains (value y)) → paid import l q x.
Proof.
  intros Hs Hg Ha Hy Hmax Hb Hpos. unfold paid. rewrite Hg, directed_twice. split; [done|]. split; [amounts; lia|].
  destruct (decide (a = 0)) as [|Hn]; [by left|right]. split; [lia|]. exists y. split_and!; try done. apply Hpos. lia.
Qed.

(** The state after buying a current, and the power it takes. *)
Definition current_bought (x : NumberWithSource) (w : option NumberWithSource) (n : IntegerWithSource) (b : bid) : bid :=
  {| b_slot := set_traded_once (b_slot b);
     trading := {| res_ac_max_current_A := Some x; res_ac_max_phase_count := Some n; res_total_power_W := w |};
     traded := true; context := context b; clock := clock b |}.
Definition power_bought (w : NumberWithSource) (b : bid) : bid :=
  {| b_slot := b_slot b;
     trading := {| res_ac_max_current_A := res_ac_max_current_A (trading b);
                   res_ac_max_phase_count := res_ac_max_phase_count (trading b); res_total_power_W := Some w |};
     traded := true; context := context b; clock := clock b |}.

(** The power of a trade: what was bought, or what was there if there is no limit. *)
Definition power_paid (import : bool) (l : LimitsReq) (w : option NumberWithSource) (b : bid) : Prop :=
  match total_power_W l with
  | Some _ => ∃ x, w = Some x ∧ paid import l Power (value x)
  | None => w = res_total_power_W (trading b)
  end.

(** An amount of the offer was not to be had. *)
Definition unaffordable (l : LimitsReq) (a : float) (n : IntegerWithSource) : Prop :=
  ∀ c, ac_max_current_A l = Some c →
  grains (value c) < grains a ∨
  ∃ p, total_power_W l = Some p ∧ grains (value p) < grains (power_of a (int_value n) v).
(** Nothing is left of the offer. *)
Definition spent (l : LimitsReq) : Prop := ∃ q y, lim q l = Some y ∧ grains (value y) <= 0.

Lemma buy_leftovers_run l c import n b :
  fair l → phases_ok n → ac_max_current_A l = Some c → 0 < grains (value c) →
  (∃ x w, buy_leftovers v c (total_power_W l) import n b = (Ret true, current_bought x w n b, []) ∧
          paid import l Current (value x) ∧ power_paid import l w b) ∨
  (buy_leftovers v c (total_power_W l) import n b = (Ret false, b, []) ∧ spent l).
Proof.
  intros Hl Hn Hc Hpos. destruct (fair_limits l Hl Current c Hc) as [Sc Mc]. unfold buy_leftovers, power_paid.
  destruct (total_power_W l) as [p|] eqn:Ep.
  - destruct (fair_limits l Hl Power p Ep) as [Sp Mp]. unfold f_gt. rewrite (f_lt_grains zero) by done.
    change (grains zero) with 0. destruct (Z.ltb_spec 0 (grains (value p))) as [Hp|Hp].
    2: { right. split; [done|]. by exists Power, p. }
    left. destruct (f_ge (value p) (power_of (value c) (int_value n) v)) eqn:Ege.
    + destruct (signed import (value c) Sc) as [S1 G1]; [amounts; lia|].
      destruct (signed_power import (value c) n Hn Sc) as [S2 G2]; [amounts; lia|].
      destruct (power_of_sound (int_value n) v Hn Hv (value c) Sc) as [S3 G3]; [amounts; lia|].
      rewrite f_ge_grains, Z.leb_le in Ege by done. eexists _, _. split; [reflexivity|]. split.
      * eapply paid_of; [done..|lia|done|lia|amounts; lia|lia].
      * eexists. split; [done|]. eapply paid_of; [done..|lia|exact Ep|done|amounts; lia|lia].
    + destruct (reduced_bought (int_value n) v Hn Hv (value p) (value c)) as (Sr & Gr & Hr & Hw); [done|lia|done|lia|done|].
      set (r := f_div _ v) in *. destruct (signed import r Sr) as [S1 G1]; [lia|].
      destruct (signed_power import r n Hn Sr) as [S2 G2]; [lia|].
      destruct (power_of_sound (int_value n) v Hn Hv r Sr ltac:(lia)) as [S3 G3].
      eexists _, _. split; [reflexivity|]. split.
      * eapply paid_of; [done..|lia|done|lia|done|lia].
      * eexists. split; [done|]. eapply paid_of; [done..|lia|exact Ep|done|done|lia].
  - left. destruct (signed import (value c) Sc) as [S1 G1]; [amounts; lia|]. eexists _, _. split; [reflexivity|].
    split; [|done]. eapply paid_of; [done..|lia|done|lia|amounts; lia|lia].
Qed.

Lemma buy_ampere_run l a less import n b :
  fair l → phases_ok n → sound a = true → 0 < grains a → ac_max_current_A l ≠ None →
  (∃ x w, buy_ampere v l a less import n b = (Ret true, current_bought x w n b, []) ∧
          paid import l Current (value x) ∧ power_paid import l w b) ∨
  (buy_ampere v l a less import n b = (Ret false, b, []) ∧ if less then spent l else unaffordable l a n).
Proof.
  intros Hl Hn Ha Ha0 Hc. unfold buy_ampere. destruct (ac_max_current_A l) as [c|] eqn:Ec; [clear Hc|done].
  destruct (fair_limits l Hl Current c Ec) as [Sc Mc].
  rewrite (f_ge_grains (value c) a) by done.
  destruct (Z.leb_spec (grains a) (grains (value c))) as [Hle|Hgt]; cbn [andb].
  - destruct (power_of_sound (int_value n) v Hn Hv a Ha) as [S3 G3]; [amounts; lia|].
    destruct (signed import a Ha) as [S1 G1]; [amounts; lia|]. destruct (signed_power import a n Hn Ha) as [S2 G2]; [amounts; lia|].
    destruct (total_power_W l) as [p|] eqn:Ep.
    + destruct (fair_limits l Hl Power p Ep) as [Sp Mp]. rewrite (f_ge_grains (value p)) by done.
      destruct (Z.leb_spec (grains (power_of a (int_value n) v)) (grains (value p))) as [Hpw|Hpw].
      * left. eexists _, _. split; [reflexivity|]. unfold power_paid. rewrite Ep. split.
        -- eapply paid_of; [done..|lia|exact Ec|lia|amounts; lia|lia].
        -- eexists. split; [done|]. eapply paid_of; [done..|lia|exact Ep|done|amounts; lia|lia].
      * unfold f_gt. rewrite (f_lt_grains zero) by done. change (grains zero) with 0.
        destruct (Z.ltb_spec 0 (grains (value c))) as [Hp|Hp]; [|lia]. rewrite andb_true_r. destruct less.
        -- rewrite <- Ep. by apply buy_leftovers_run.
        -- right. split; [done|]. intros c' E. assert (c' = c) as -> by congruence. right. by exists p.
    + left. eexists _, _. split; [reflexivity|]. unfold power_paid. rewrite Ep. split; [|done].
      eapply paid_of; [done..|lia|exact Ec|lia|amounts; lia|lia].
  - unfold f_gt. rewrite (f_lt_grains zero) by done. change (grains zero) with 0. destruct less; cbn [andb].
    + destruct (Z.ltb_spec 0 (grains (value c))) as [Hp|Hp]; [by apply buy_leftovers_run|].
      right. split; [done|]. by exists Current, c.
    + right. split; [done|]. intros c' E. assert (c' = c) as -> by congruence. left. lia.
Qed.

Lemma buy_watt_run l a import b p :
  fair l → total_power_W l = Some p → sound a = true → 0 < grains a →
  (∃ w, buy_watt l a true import b = (Ret true, power_bought w b, []) ∧ paid import l Power (value w)) ∨
  (buy_watt l a true import b = (Ret false, b, []) ∧ spent l).
Proof.
  intros Hl Ep Ha Ha0. unfold buy_watt. rewrite Ep. destruct (fair_limits l Hl Power p Ep) as [Sp Mp].
  rewrite (f_ge_grains (value p) a) by done. destruct (Z.leb_spec (grains a) (grains (value p))) as [Hle|Hgt]; cbn [andb].
  - left. destruct (signed import a Ha) as [S1 G1]; [amounts; lia|]. eexists. split; [reflexivity|].
    eapply paid_of; [done..|lia|exact Ep|done|amounts; lia|lia].
  - unfold f_gt. rewrite (f_lt_grains zero) by done. change (grains zero) with 0.
    destruct (Z.ltb_spec 0 (grains (value p))) as [Hp|Hp]; [left|right].
    + destruct (signed import (value p) Sp) as [S1 G1]; [amounts; lia|]. eexists. split; [reflexivity|].
      eapply paid_of; [done..|lia|exact Ep|done|amounts; lia|lia].
    + split; [done|]. by exists Power, p.
Qed.

End buying.

(** ** A time slot *)
Section time_slot.
Context (g : globals_t) (bc : BrokerConfig) (v : float) (Hv : sane_voltage v = true).
Context (Hsa : sound (slice_ampere g) = true ∧ 0 < grains (slice_ampere g)).
Context (Hsw : sound (slice_watt g) = true ∧ 0 < grains (slice_watt g)).

(** The broker wants nothing of the offer. *)
Definition refuses (s : slot) (l : LimitsReq) (n : IntegerWithSource) : Prop :=
  match ac_max_current_A l, total_power_W l with
  | Some _, _ => match needs_minimum s l with Some m => unaffordable v l m n | None => spent l end
  | None, Some _ => spent l
  | None, None => True
  end.
Definition no_deal (s : slot) (imp exp : LimitsReq) : Prop :=
  match slot_type s with
  | Undecided => can_trade imp = false ∧ can_trade exp = false
  | Import => refuses s imp (num_phases s)
  | Export => refuses s exp fixed_phases
  end.

(** Nothing but the context and the clock changed. *)
Definition same_trade (b b' : bid) : Prop := b_slot b' = b_slot b ∧ trading b' = trading b ∧ traded b' = traded b.

Lemma utc_now_run b : ∃ t b', utc_now b = (Ret t, b', []) ∧ same_trade b b'.
Proof. unfold utc_now. destruct (next_reading (clock b)) as [t rest]. by eexists _, _. Qed.

Lemma optimal_phases_ok l p w : fair l → phases_ok (optimal_phases bc l p w).
Proof.
  intros Hl. destruct (fair_phases l Hl) as (H1 & H2 & H3). unfold optimal_phases.
  destruct (f_lt _ _); [exact H2|]. by destruct (_ && _).
Qed.
Lemma sticky_phases_ok l : fair l → phases_ok (sticky_phases bc l).
Proof. intros Hl. destruct (fair_phases l Hl) as (H1 & H2 & H3). unfold sticky_phases. by destruct (stickyness bc). Qed.

Lemma choose_phases_run active l p w b :
  fair l → ∃ n r b', choose_phases g bc active l p w b = (Ret (n, r), b', []) ∧ same_trade b b' ∧ phases_ok n.
Proof.
  intros Hl. unfold choose_phases. rewrite bind_get.
  set (n := if cycles_reached bc (context b) then sticky_phases bc l else optimal_phases bc l p w).
  assert (phases_ok n) as Hn.
  { unfold n. destruct (cycles_reached _ _); [by apply sticky_phases_ok|by apply optimal_phases_ok]. }
  destruct (fair_phases l Hl) as (_ & H2 & _).
  assert (∃ b1, cwhen ((int_value n =? int_value (min_phases l)) && active)
    (now ← utc_now;
     cmodify (set_context (λ c, {| number_1ph3ph_cycles := number_1ph3ph_cycles c;
       last_ac_number_of_active_phases_import := last_ac_number_of_active_phases_import c; ts_1ph_optimal := now |}))) b =
    (Ret tt, b1, []) ∧ same_trade b b1) as (b1 & E1 & Hs1).
  { destruct (_ && _); [|by exists b]. destruct (utc_now_run b) as (t & b0 & E0 & H0). cbn [cwhen].
    rewrite (bind_silent _ _ _ _ _ E0). by eexists. }
  rewrite (bind_silent _ _ _ _ _ E1), bind_get. eexists _, _, _. split; [reflexivity|]. split; [done|]. fold n. by destruct (_ && _ && _ && _).
Qed.

Lemma phases_of_trade_run active l b :
  fair l → ∃ n r b', phases_of_trade g bc v active l b = (Ret (n, r), b', []) ∧ same_trade b b' ∧ phases_ok n.
Proof.
  intros Hl. destruct (fair_phases l Hl) as (H1 & _ & H3). unfold phases_of_trade. rewrite bind_get.
  destruct (first_trade (b_slot b)); [|by eexists _, _, _].
  destruct (total_power_W l) as [p|]; [|by eexists _, _, _].
  destruct (_ && _); [by apply choose_phases_run|by eexists _, _, _].
Qed.

(** The outcome of a trade in one direction. *)
Record dealt (import : bool) (l : LimitsReq) (n : bid → IntegerWithSource) (b b' : bid) : Prop := {
  dealt_type : slot_type (b_slot b') = slot_type (b_slot b);
  dealt_phases : phases_ok (num_phases (b_slot b'));
  dealt_paid q : res q (trading b') = res q (trading b) ∨ ∃ x, res q (trading b') = Some x ∧ paid import l q (value x);
  dealt_nothing : traded b' = false → traded b = false ∧ trading b' = trading b ∧ refuses (b_slot b') l (n b');
}.

Lemma dealt_current import l f b b0 x w n :
  slot_type (b_slot b0) = slot_type (b_slot b) → phases_ok (num_phases (b_slot b0)) → trading b0 = trading b →
  paid import l Current (value x) → power_paid import l w b0 → dealt import l f b (current_bought x w n b0).
Proof.
  intros Ht Hp Htr Hx Hw. constructor; [done|done| |done]. intros []; cbn; [right; by eexists|].
  unfold power_paid in Hw. destruct (total_power_W l); [|left; by rewrite Hw, Htr].
  destruct Hw as (y & -> & Hy). right. by eexists.
Qed.

Lemma import_current_run active l b :
  fair l → ac_max_current_A l ≠ None → phases_ok (num_phases (b_slot b)) →
  ∃ b', import_current g bc v active l b = (Ret tt, b', []) ∧ dealt true l (λ b, num_phases (b_slot b)) b b'.
Proof.
  intros Hl Hc Hp. unfold import_current.
  destruct (phases_of_trade_run active l b Hl) as (n & r & b1 & E1 & (H1 & H2 & H3) & Hn).
  rewrite (bind_silent _ _ _ _ _ E1). unfold store_decision. rewrite bind_modify, bind_get. cbn [fst snd b_slot set_context].
  set (b2 := set_context _ b1). change (b_slot b2) with (b_slot b1).
  destruct (needs_minimum (b_slot b1) l) as [m|] eqn:Em.
  - assert (sound m = true ∧ 0 < grains m) as [Sm Gm].
    { unfold needs_minimum in Em. destruct (ac_min_current_A l) as [y|] eqn:Ey; [|done].
      pose proof (fair_minimum l Hl y Ey) as Sy. destruct (first_trade (b_slot b1)); cbn in Em; [|done].
      unfold f_gt in Em. rewrite (f_lt_grains zero) in Em by done. change (grains zero) with 0 in Em.
      destruct (Z.ltb_spec 0 (grains (value y))); [|done]. by injection Em as <-. }
    rewrite bind_modify.
    destruct (buy_ampere_run v Hv l m false true n (set_slot (set_num_phases n) b2) Hl Hn Sm Gm Hc) as [(x & w & E & Hx & Hw)|[E Hun]].
    + rewrite (bind_silent _ _ _ _ _ E). cbn [negb andb cwhen]. eexists. split; [reflexivity|].
      apply dealt_current; [cbn; by rewrite H1|done|done|done|done].
    + rewrite (bind_silent _ _ _ _ _ E). cbn [negb andb].
      destruct (negb (bool_decide _) && negb r).
      * cbn [cwhen]. rewrite bind_modify. set (one_phase := {| int_value := 1; int_source := _ |}).
        destruct (buy_ampere_run v Hv l m false true one_phase
          (set_slot (set_num_phases one_phase) (set_slot (set_num_phases n) b2)) Hl ltac:(unfold phases_ok; cbn; lia) Sm Gm Hc)
          as [(x & w & E' & Hx & Hw)|[E' Hun']]; rewrite (bind_silent _ _ _ _ _ E').
        -- eexists. split; [reflexivity|]. apply dealt_current; [cbn; by rewrite H1|unfold phases_ok; cbn; lia|done|done|done].
        -- eexists. split; [reflexivity|]. constructor; [cbn; by rewrite H1|unfold phases_ok; cbn; lia|intros q; left; cbn; by rewrite H2|].
           intros Ht. cbn in Ht |- *. split; [by rewrite <- H3|]. split; [done|]. unfold refuses.
           destruct (ac_max_current_A l); [|done]. unfold needs_minimum in *. cbn. by rewrite Em.
      * eexists. split; [reflexivity|]. constructor; [cbn; by rewrite H1|done|intros q; left; cbn; by rewrite H2|].
        intros Ht. cbn in Ht |- *. split; [by rewrite <- H3|]. split; [done|]. unfold refuses.
        destruct (ac_max_current_A l); [|done]. unfold needs_minimum in *. cbn. by rewrite Em.
  - assert (phases_ok (num_phases (b_slot b1))) as Hp1 by (by rewrite H1).
    destruct (buy_ampere_run v Hv l (slice_ampere g) true true (num_phases (b_slot b1)) b2 Hl Hp1 (proj1 Hsa) (proj2 Hsa) Hc)
      as [(x & w & E & Hx & Hw)|[E Hsp]]; rewrite (bind_silent _ _ _ _ _ E).
    + eexists. split; [reflexivity|]. apply dealt_current; [cbn; by rewrite H1|done|done|done|done].
    + eexists. split; [reflexivity|]. constructor; [cbn; by rewrite H1|done|intros q; left; cbn; by rewrite H2|].
      intros Ht. cbn in Ht |- *. split; [by rewrite <- H3|]. split; [done|]. unfold refuses.
      destruct (ac_max_current_A l); [|done]. by rewrite Em.
Qed.

Lemma needs_minimum_sound s l m : fair l → needs_minimum s l = Some m → sound m = true ∧ 0 < grains m.
Proof.
  intros Hl Em. unfold needs_minimum in Em. destruct (ac_min_current_A l) as [y|] eqn:Ey; [|done].
  pose proof (fair_minimum l Hl y Ey) as Sy. destruct (first_trade s); cbn in Em; [|done].
  unfold f_gt in Em. rewrite (f_lt_grains zero) in Em by done. change (grains zero) with 0 in Em.
  destruct (Z.ltb_spec 0 (grains (value y))); [|done]. by injection Em as <-.
Qed.

Lemma export_current_run l b :
  fair l → ac_max_current_A l ≠ None → phases_ok (num_phases (b_slot b)) →
  ∃ b', export_current g v l b = (Ret tt, b', []) ∧ dealt false l (λ _, fixed_phases) b b'.
Proof.
  intros Hl Hc Hp. unfold export_current. rewrite bind_get. assert (phases_ok fixed_phases) as Hf by (unfold phases_ok; cbn; lia).
  destruct (needs_minimum (b_slot b) l) as [m|] eqn:Em.
  - destruct (needs_minimum_sound _ _ _ Hl Em) as [Sm Gm].
    destruct (buy_ampere_run v Hv l m false false fixed_phases b Hl Hf Sm Gm Hc) as [(x & w & E & Hx & Hw)|[E Hun]];
      rewrite (bind_silent _ _ _ _ _ E); (eexists; split; [reflexivity|]).
    + by apply dealt_current.
    + constructor; [done|done|by left|]. intros Ht. split; [done|]. split; [done|]. unfold refuses. rewrite Em.
      by destruct (ac_max_current_A l).
  - destruct (buy_ampere_run v Hv l (slice_ampere g) true false fixed_phases b Hl Hf (proj1 Hsa) (proj2 Hsa) Hc)
      as [(x & w & E & Hx & Hw)|[E Hsp]]; rewrite (bind_silent _ _ _ _ _ E); (eexists; split; [reflexivity|]).
    + by apply dealt_current.
    + constructor; [done|done|by left|]. intros Ht. split; [done|]. split; [done|]. unfold refuses. rewrite Em.
      by destruct (ac_max_current_A l).
Qed.

Lemma watt_run import l f b p :
  fair l → ac_max_current_A l = None → total_power_W l = Some p → phases_ok (num_phases (b_slot b)) →
  ∃ b', (buy_watt l (slice_watt g) true import ;; mret tt) b = (Ret tt, b', []) ∧ dealt import l f b b'.
Proof.
  intros Hl Hc Ep Hp. destruct (buy_watt_run l (slice_watt g) import b p Hl Ep (proj1 Hsw) (proj2 Hsw)) as [(w & E & Hw)|[E Hsp]];
    rewrite (bind_silent _ _ _ _ _ E); (eexists; split; [reflexivity|]).
  - constructor; [done|done| |done]. intros []; cbn; [by left|right; by eexists].
  - constructor; [done|done|by left|]. intros Ht. split; [done|]. split; [done|]. unfold refuses. by rewrite Hc, Ep.
Qed.

(** The state of the slot when the trade begins. *)
Definition opened (imp exp : LimitsReq) (s : slot) : slot :=
  let s1 := if bool_decide (slot_type s = Undecided) then
              (if can_trade imp then set_slot_type Import s else if can_trade exp then set_slot_type Export s else s)
            else s in
  if int_value (num_phases s1) =? 0
  then set_num_phases {| int_value := active_phases imp; int_source := "BrokerFastCharging_NumPhasesActive"%string |} s1
  else s1.

Lemma open_slot_run imp exp b : open_slot imp exp b = (Ret tt, set_slot (opened imp exp) b, []).
Proof.
  destruct b as [s tr td c cl]. unfold open_slot, decide_slot_type, opened, set_slot. cexpand. cbn [b_slot].
  destruct (bool_decide (slot_type s = Undecided)); [destruct (can_trade imp); [|destruct (can_trade exp)]|];
    cbn [app b_slot set_slot_type num_phases trading traded context clock]; destruct (_ =? 0); reflexivity.
Qed.

(** The outcome of the trade in a slot. *)
Record slot_traded (imp exp : LimitsReq) (b b' : bid) : Prop := {
  slot_phases : phases_ok (num_phases (b_slot b'));
  slot_bought q : bought imp exp q (res q (trading b'));
  slot_nothing : traded b' = false → traded b = false ∧ trading b' = trading b ∧ no_deal (b_slot b') imp exp;
}.

Lemma opened_phases imp exp s : fair imp → phases_ok (num_phases s) → phases_ok (num_phases (opened imp exp s)).
Proof.
  intros Hi Hp. destruct (fair_phases imp Hi) as (_ & _ & Ha). unfold opened.
  destruct (bool_decide _); [destruct (can_trade imp); [|destruct (can_trade exp)]|]; cbn; destruct (_ =? 0); done.
Qed.
Lemma opened_undecided imp exp s :
  slot_type (opened imp exp s) = Undecided → can_trade imp = false ∧ can_trade exp = false.
Proof.
  unfold opened. destruct (bool_decide_reflect (slot_type s = Undecided)) as [Hu|Hu].
  - destruct (can_trade imp), (can_trade exp); cbn; destruct (_ =? 0); done.
  - destruct (_ =? 0); cbn; intros; done.
Qed.

(** A trade in one direction, after the opening. *)
Lemma dealt_slot (import : bool) imp exp n b b' :
  (∀ q, bought imp exp q (res q (trading b))) →
  slot_type (opened imp exp (b_slot b)) = (if import then Import else Export) →
  (n = if import then (λ b, num_phases (b_slot b)) else (λ _, fixed_phases)) →
  dealt import (if import then imp else exp) n (set_slot (opened imp exp) b) b' → slot_traded imp exp b b'.
Proof.
  intros Hb Ht Hn [H1 H2 H3 H4]. constructor; [done| |].
  - intros q. destruct (H3 q) as [E|(x & E & Hx)]; rewrite E; [apply Hb|]. destruct import; [by left|by right].
  - intros Htr. destruct (H4 Htr) as (H5 & H6 & H7). split; [done|]. split; [done|]. unfold no_deal. rewrite H1.
    change (slot_type (b_slot (set_slot _ b))) with (slot_type (opened imp exp (b_slot b))). rewrite Ht, Hn in *.
    by destruct import.
Qed.

Lemma trade_slot_run active imp exp b :
  fair imp → fair exp → phases_ok (num_phases (b_slot b)) → (∀ q, bought imp exp q (res q (trading b))) →
  ∃ b', trade_slot g bc v active imp exp b = (Ret tt, b', []) ∧ slot_traded imp exp b b'.
Proof.
  intros Hi He Hp Hb. pose proof (opened_phases imp exp _ Hi Hp) as Hp'. unfold trade_slot.
  rewrite (bind_silent _ _ _ _ _ (open_slot_run imp exp b)), bind_get. set (b1 := set_slot (opened imp exp) b) in *.
  destruct (slot_type (b_slot b1)) eqn:Et.
  - destruct (ac_max_current_A imp) as [c|] eqn:Ec; [|destruct (total_power_W imp) as [p|] eqn:Ep].
    + destruct (import_current_run active imp b1 Hi ltac:(by rewrite Ec) Hp') as (b' & E & Hd). rewrite E.
      eexists. split; [done|]. by eapply (dealt_slot true).
    + destruct (watt_run true imp (λ b, num_phases (b_slot b)) b1 p Hi Ec Ep Hp') as (b' & E & Hd). rewrite E.
      eexists. split; [done|]. by eapply (dealt_slot true).
    + eexists. split; [done|]. eapply (dealt_slot true); try done. constructor; [done|done|by left|].
      intros Ht. split; [done|]. split; [done|]. unfold refuses. by rewrite Ec, Ep.
  - destruct (ac_max_current_A exp) as [c|] eqn:Ec; [|destruct (total_power_W exp) as [p|] eqn:Ep].
    + destruct (export_current_run exp b1 He ltac:(by rewrite Ec) Hp') as (b' & E & Hd). rewrite E.
      eexists. split; [done|]. by eapply (dealt_slot false).
    + destruct (watt_run false exp (λ _, fixed_phases) b1 p He Ec Ep Hp') as (b' & E & Hd). rewrite E.
      eexists. split; [done|]. by eapply (dealt_slot false).
    + eexists. split; [done|]. eapply (dealt_slot false); try done. constructor; [done|done|by left|].
      intros Ht. split; [done|]. split; [done|]. unfold refuses. by rewrite Ec, Ep.
  - eexists. split; [reflexivity|]. constructor; [done|done|]. intros Ht. split; [done|]. split; [done|].
    unfold no_deal. rewrite Et. by apply (opened_undecided imp exp (b_slot b)).
Qed.

(** ** All time slots *)
Lemma nothing_bought_paid imp exp q : bought imp exp q (res q (nothing_bought imp)).
Proof.
  destruct q; cbn; [destruct (ac_max_current_A imp)|destruct (total_power_W imp)]; cbn; try done;
    left; (split; [done|]); cbn; (split; [by vm_compute|]); by left.
Qed.

Lemma tradeImpl_run act imp : ∀ i exp sl t,
  length exp = length imp → length sl = length imp →
  Forall fair (roots imp) → Forall fair (roots exp) → Forall (λ s, phases_ok (num_phases s)) sl →
  let '(sl', tr, t') := tradeImpl g bc v act i imp exp sl t in
  length sl' = length imp ∧ length tr = length imp ∧ Forall (λ s, phases_ok (num_phases s)) sl' ∧
  (∀ j a b x, imp !! j = Some a → exp !! j = Some b → tr !! j = Some x →
              ∀ q, bought (limits_to_root a) (limits_to_root b) q (res q x)) ∧
  (ts_traded t' = false →
     ts_traded t = false ∧ tr = map nothing_bought (roots imp) ∧
     ∀ j a b s, imp !! j = Some a → exp !! j = Some b → sl' !! j = Some s → no_deal s (limits_to_root a) (limits_to_root b)).
Proof.
  induction imp as [|a imp IH]; intros i exp sl t He Hs Hi Hx Hp.
  { by destruct exp, sl. }
  destruct exp as [|b exp], sl as [|s sl]; try done. cbn in He, Hs, Hi, Hx.
  apply Forall_cons in Hi as [Hia Hi], Hx as [Hxb Hx], Hp as [Hps Hp]. cbn [tradeImpl].
  destruct (trade_slot_run (act =? i)%nat (limits_to_root a) (limits_to_root b)
    {| b_slot := s; trading := nothing_bought (limits_to_root a); traded := ts_traded t;
       context := ts_context t; clock := ts_clock t |} Hia Hxb Hps) as (r & E & [H1 H2 H3]).
  { intros q. apply nothing_bought_paid. }
  rewrite E. specialize (IH (S i) exp sl {| ts_context := context r; ts_clock := clock r; ts_traded := traded r |}).
  destruct (tradeImpl g bc v act (S i) imp exp sl _) as [[sl' tr] t'].
  destruct IH as (L1 & L2 & Hp' & Hb & Hn); [lia|lia|done..|].
  split_and!; [cbn; lia|cbn; lia|by constructor| |].
  - intros [|j] a' b' x; cbn; [intros [= <-] [= <-] [= <-]; apply H2|]. by apply Hb.
  - intros Ht. destruct (Hn Ht) as (Htr & -> & Hd). destruct (H3 Htr) as (H4 & H5 & H6). split; [done|]. split; [by rewrite H5|].
    intros [|j] a' b' s'; cbn; [intros [= <-] [= <-] [= <-]; apply H6|]. by apply Hd.
Qed.

End time_slot.

End Trades.
