(* ===== verification/EnergyFacts.v ===== *)
(** * Accounts of the energy tree

    Offers are bounded by what is left at every node on the way to the root, so that what
    is sold through a node stays within its limits. *)

From Stdlib Require Import String Floats.SpecFloat.
From S2P Require Import Prelude Float32 FloatRound EnergyMarket EnergyBroker EnergyManager EnergyAmounts EnergyTrades.

Module EnergyFacts.

Import Float32 FloatRound Energy Broker Manager Amounts Trades.
#[local] Open Scope Z_scope.

(** ** Limits and accounts of a slot *)
Definition sane_number (x : option NumberWithSource) : bool := match x with Some n => sane (value n) | None => true end.
Definition sane_minimum (x : option NumberWithSource) : bool := match x with Some n => sound (value n) | None => true end.
Definition sane_limits (l : LimitsReq) : bool :=
  sane_number (ac_max_current_A l) && sane_number (total_power_W l) && sane_minimum (ac_min_current_A l) &&
  sane_count (ac_max_phase_count l) && sane_count (ac_min_phase_count l) && sane_active (ac_number_of_active_phases l).

Lemma sane_limits_spec l :
  sane_limits l = true ↔
  (∀ q y, lim q l = Some y → sane (value y) = true) ∧ (∀ y, ac_min_current_A l = Some y → sound (value y) = true) ∧
  sane_count (ac_max_phase_count l) = true ∧ sane_count (ac_min_phase_count l) = true ∧
  sane_active (ac_number_of_active_phases l) = true.
Proof.
  unfold sane_limits. rewrite !andb_true_iff. split.
  - intros [[[[[H1 H2] H3] H4] H5] H6]. split_and!; try done.
    + intros [] y Hy; cbn in Hy; rewrite Hy in *; done.
    + intros y Hy. by rewrite Hy in H3.
  - intros (H1 & H2 & H3 & H4 & H5). pose proof (H1 Current) as Hc. pose proof (H1 Power) as Hp. cbn in Hc, Hp.
    split_and!; try done; unfold sane_number, sane_minimum; case_match; auto.
Qed.

(** The account of a slot after at most [k] trades: its size, and its limits. *)
Record account (k : Z) (imp exp : LimitsReq) (sold : LimitsRes) : Prop := {
  account_sound q x : res q sold = Some x → sound (value x) = true ∧ Z.abs (grains (value x)) <= k * max_amount;
  account_import q y : lim q imp = Some y → within (amount (res q sold)) (grains (value y));
  account_export q y : lim q exp = Some y → within (- amount (res q sold)) (grains (value y));
}.

(** [l] is at most [a], where [a] limits. *)
Definition below (l a : LimitsReq) : Prop :=
  ∀ q y, lim q a = Some y → ∃ x, lim q l = Some x ∧ grains (value x) <= grains (value y).

Section slot.
Context (k : Z) (Hk : 0 <= k < 2 ^ 24 - 1).
Context (imp exp : LimitsReq) (Himp : sane_limits imp = true) (Hexp : sane_limits exp = true).
Context (sold : LimitsRes) (Hacc : account k imp exp sold).

(** What is left of the limits, in one direction. *)
Lemma available_limits (add : bool) (a : ScheduleReqEntry) (s : ScheduleResEntry) :
  limits_to_root a = (if add then exp else imp) → res_limits_to_root s = sold →
  let l := limits_to_root (available_entry add a s) in
  (∀ q y, lim q (limits_to_root a) = Some y →
     ∃ z, lim q l = Some z ∧ closest (value z) (grains (value y) + Z.min 0 (- directed (negb add) (amount (res q sold))))) ∧
  (∀ q, lim q (limits_to_root a) = None → lim q l = None).
Proof.
  intros Ha Hs. cbv zeta. unfold available_entry. cbn [limits_to_root with_root].
  assert (∀ q, sane_limits (limits_to_root a) = true → ∀ y, lim q (limits_to_root a) = Some y →
    closest (f_add (value y) (sold_part add (res q sold))) (grains (value y) + Z.min 0 (- directed (negb add) (amount (res q sold))))) as Hadd.
  { intros q [H1 _]%sane_limits_spec y Hy. specialize (H1 q y Hy). apply sane_spec in H1 as [Sy Gy].
    destruct (sold_part_spec add (res q sold)) as [Sp Gp].
    { intros x Hx. destruct (account_sound _ _ _ _ Hacc q x Hx) as [Sx Bx]. split; [done|]. amounts. nia. }
    replace (Z.min 0 (- directed (negb add) (amount (res q sold)))) with (grains (sold_part add (res q sold))).
    2: { rewrite Gp. unfold amount, directed. destruct add; cbn; lia. }
    apply f_add_closest; [done..|].
    assert (Z.abs (grains (sold_part add (res q sold))) <= 2 ^ 24 * max_amount); [|amounts; lia].
    rewrite Gp. destruct (res q sold) as [x|] eqn:Ex; [|destruct add; cbn; amounts; lia].
    destruct (account_sound _ _ _ _ Hacc q x Ex) as [_ Bx].
    assert (Z.abs (grains (value x)) <= 2 ^ 24 * max_amount) by (amounts; nia). destruct add; lia. }
  assert (sane_limits (limits_to_root a) = true) as Hsane by (rewrite Ha; by destruct add).
  rewrite Hs. split.
  - intros [] y Hy; [pose proof (Hadd Current Hsane y Hy) as H|pose proof (Hadd Power Hsane y Hy) as H]; cbn in Hy, H |- *;
      rewrite Hy; eexists; (split; [reflexivity|exact H]).
  - intros [] Hn; cbn in Hn |- *; by rewrite Hn.
Qed.

Lemma within_mono a a' l : a' <= a → within a l → within a' l.
Proof. unfold within. lia. Qed.
Lemma closest_exact f x : sound x = true → closest f (grains x) → grains f = grains x.
Proof. intros Hx [_ _ Hl Hg]. specialize (Hl x Hx). specialize (Hg x Hx). lia. Qed.

(** Adding a trade to the account. *)
Lemma account_quantity q (oi oe : LimitsReq) x :
  (∀ y, lim q imp = Some y → ∃ o z, lim q oi = Some o ∧ grains (value o) <= grains z ∧
        closest z (grains (value y) + Z.min 0 (- amount (res q sold)))) →
  (∀ y, lim q exp = Some y → ∃ o z, lim q oe = Some o ∧ grains (value o) <= grains z ∧
        closest z (grains (value y) + Z.min 0 (amount (res q sold)))) →
  bought oi oe q x →
  let new := add_sold_number (res q sold) x in
  (∀ n, new = Some n → sound (value n) = true ∧ Z.abs (grains (value n)) <= (k + 1) * max_amount) ∧
  (∀ y, lim q imp = Some y → within (amount new) (grains (value y))) ∧
  (∀ y, lim q exp = Some y → within (- amount new) (grains (value y))).
Proof.
  intros Hi He Hb. cbv zeta. destruct x as [x|]; cbn [add_sold_number].
  2: { split_and!; [|apply (account_import _ _ _ _ Hacc)|apply (account_export _ _ _ _ Hacc)].
       intros n Hn. destruct (account_sound _ _ _ _ Hacc q n Hn). split; [done|]. amounts. lia. }
  set (s := match res q sold with Some y => value y | None => zero end).
  assert (sound s = true ∧ Z.abs (grains s) <= k * max_amount ∧ grains s = amount (res q sold)) as (Ss & Bs & Gs).
  { unfold s, amount. destruct (res q sold) as [y|] eqn:Ey; [|split_and!; try done; cbn; amounts; nia].
    destruct (account_sound _ _ _ _ Hacc q y Ey). by split_and!. }
  assert (sound (value x) = true ∧ Z.abs (grains (value x)) <= max_amount) as [Sx Bx].
  { destruct Hb as [(S & B & [E|[P _]])|(S & B & [E|[P _]])]; cbn [directed] in *; split; try done; lia. }
  destruct (account_size k s (value x) Hk Ss Sx Bs Bx) as [Hc Hsize].
  set (f := f_add (value x) s) in *. unfold number. cbn [amount value].
  split; [intros n [= <-]; split; [apply Hc|exact Hsize]|].
  destruct (decide (grains (value x) = 0)) as [H0|H0].
  { rewrite H0, Z.add_0_l in Hc. apply closest_exact in Hc; [|done]. rewrite Hc, Gs.
    split; [apply (account_import _ _ _ _ Hacc)|apply (account_export _ _ _ _ Hacc)]. }
  destruct Hb as [(_ & _ & [E|[P (o & Ho & Po & Bo)]])|(_ & _ & [E|[P (o & Ho & Po & Bo)]])]; cbn [directed] in *; try lia.
  - assert (grains s <= grains f) as Hup by (apply (closest_ge _ _ Hc); [done|lia]). split.
    + intros y Hy. destruct (Hi y Hy) as (o' & z & Ho' & Hle & Hz). assert (o' = o) as -> by congruence.
      apply (account_bound (grains (value y)) s z (value o) (value x) f); try done; try lia.
      * apply sane_limits_spec in Himp as [H1 _]. specialize (H1 q y Hy). apply sane_spec in H1. lia.
      * by rewrite Gs.
    + intros y Hy. apply (within_mono (- grains s)); [lia|]. rewrite Gs. by apply (account_export _ _ _ _ Hacc).
  - assert (grains f <= grains s) as Hdown by (apply (closest_le _ _ Hc); [done|lia]). split.
    + intros y Hy. apply (within_mono (grains s)); [lia|]. rewrite Gs. by apply (account_import _ _ _ _ Hacc).
    + intros y Hy. destruct (He y Hy) as (o' & z & Ho' & Hle & Hz). assert (o' = o) as -> by congruence.
      rewrite <- grains_opp.
      apply (account_bound (grains (value y)) (SFopp s) z (value o) (SFopp (value x)) (SFopp f)); rewrite ?sound_opp, ?grains_opp; try done; try lia.
      * apply sane_limits_spec in Hexp as [H1 _]. specialize (H1 q y Hy). apply sane_spec in H1. lia.
      * by rewrite Z.opp_involutive, Gs.
      * replace (- grains (value x) + - grains s) with (- (grains (value x) + grains s)) by lia. by apply closest_opp.
Qed.

Lemma account_step a b s oi oe trade :
  limits_to_root a = imp → limits_to_root b = exp → res_limits_to_root s = sold →
  below oi (limits_to_root (available_entry false a s)) → below oe (limits_to_root (available_entry true b s)) →
  (∀ q, bought oi oe q (res q trade)) → account (k + 1) imp exp (add_limits sold trade).
Proof.
  intros Ha Hb Hs Hi He Ht. destruct (available_limits false a s Ha Hs) as [Hai _]. destruct (available_limits true b s Hb Hs) as [Hae _].
  rewrite Ha in Hai. rewrite Hb in Hae. cbn [negb directed] in *.
  assert (∀ q, (∀ y, lim q imp = Some y → ∃ o z, lim q oi = Some o ∧ grains (value o) <= grains z ∧
        closest z (grains (value y) + Z.min 0 (- amount (res q sold))))) as H1.
  { intros q y Hy. destruct (Hai q y Hy) as (z & Hz & Hc). destruct (Hi q z Hz) as (o & Ho & Hle). by exists o, (value z). }
  assert (∀ q, (∀ y, lim q exp = Some y → ∃ o z, lim q oe = Some o ∧ grains (value o) <= grains z ∧
        closest z (grains (value y) + Z.min 0 (amount (res q sold))))) as H2.
  { intros q y Hy. destruct (Hae q y Hy) as (z & Hz & Hc). destruct (He q z Hz) as (o & Ho & Hle). exists o, (value z).
    by rewrite Z.opp_involutive in Hc. }
  assert (∀ q, res q (add_limits sold trade) = add_sold_number (res q sold) (res q trade)) as Hres by (intros []; done).
  constructor; intros q y; rewrite Hres; eapply account_quantity; eauto.
Qed.

(** What is left is a fair offer. *)
Lemma available_fair (add : bool) a s :
  limits_to_root a = (if add then exp else imp) → res_limits_to_root s = sold →
  fair (limits_to_root (available_entry add a s)).
Proof.
  intros Ha Hs. destruct (available_limits add a s Ha Hs) as [H1 H2].
  assert (sane_limits (limits_to_root a) = true) as (L1 & L2 & L3 & L4 & L5)%sane_limits_spec by (rewrite Ha; by destruct add).
  constructor; [|done..].
  intros q y Hy. destruct (lim q (limits_to_root a)) as [x|] eqn:Ex; [|by rewrite (H2 q Ex) in Hy].
  destruct (H1 q x Ex) as (z & Hz & Hc). assert (z = y) as -> by congruence. pose proof (L1 q x Ex) as [Sx Gx]%sane_spec.
  split; [apply Hc|]. transitivity (grains (value x)); [|lia]. apply (closest_le _ _ Hc); [done|lia].
Qed.

End slot.

(** ** Offers *)
Definition limit_ok (x : option NumberWithSource) : Prop :=
  ∀ y, x = Some y → sound (value y) = true ∧ grains (value y) <= max_limit.

Lemma smaller_limit a b :
  limit_ok a → limit_ok b →
  let r := apply_one_limit_if_smaller a b in
  limit_ok r ∧ (∀ y, a = Some y ∨ b = Some y → ∃ x, r = Some x ∧ grains (value x) <= grains (value y)).
Proof.
  intros Ha Hb. cbv zeta. destruct b as [y|]; cbn [apply_one_limit_if_smaller].
  2: { split; [done|]. intros z [Hz|Hz]; [|done]. by exists z. }
  destruct a as [x|]; [|split; [done|]; intros z [Hz|Hz]; [done|]; injection Hz as <-; by exists y].
  destruct (Ha x eq_refl) as [Sx Gx], (Hb y eq_refl) as [Sy Gy]. unfold f_gt. rewrite f_lt_grains, f_eq_grains by done.
  destruct (Z.ltb_spec (grains (value y)) (grains (value x))) as [Hlt|Hge].
  - split; [done|]. intros z [[= <-]|[= <-]]; exists y; split; try done; lia.
  - destruct (Z.eqb_spec (grains (value x)) (grains (value y))) as [He|Hne].
    + split; [intros z [= <-]; done|]. intros z [[= <-]|[= <-]]; eexists; (split; [reflexivity|]); cbn; lia.
    + split; [done|]. intros z [[= <-]|[= <-]]; exists x; split; try done; lia.
Qed.

Lemma greater_limit a b :
  (∀ y, a = Some y → sound (value y) = true) → (∀ y, b = Some y → sound (value y) = true) →
  ∀ y, apply_one_limit_if_greater a b = Some y → sound (value y) = true.
Proof.
  intros Ha Hb y. destruct b as [z|]; cbn; [|apply Ha]. destruct a as [x|]; [|apply Hb].
  destruct (f_lt _ _); [apply Hb|]. destruct (f_eq _ _); [|apply Ha]. intros [= <-]. by apply (Ha x).
Qed.

Lemma applied_count better a b : sane_count a = true → sane_count b = true → sane_count (apply_one_int_if better a b) = true.
Proof.
  intros Ha Hb. destruct b as [y|]; cbn; [|done]. destruct a as [x|]; [|done]. destruct (better _ _); [done|].
  by destruct (_ =? _).
Qed.

Lemma apply_entry_ok a b :
  fair (limits_to_root a) → fair (limits_to_root b) →
  fair (limits_to_root (apply_entry a b)) ∧ below (limits_to_root (apply_entry a b)) (limits_to_root b) ∧
  (∀ c, below (limits_to_root a) c → below (limits_to_root (apply_entry a b)) c).
Proof.
  intros [A1 A2 A3 A4 A5] [B1 B2 B3 B4 B5].
  assert (∀ q, lim q (limits_to_root (apply_entry a b)) =
    apply_one_limit_if_smaller (lim q (limits_to_root a)) (lim q (limits_to_root b))) as E by (intros []; done).
  assert (∀ q, limit_ok (lim q (limits_to_root (apply_entry a b))) ∧
    (∀ y, lim q (limits_to_root a) = Some y ∨ lim q (limits_to_root b) = Some y →
       ∃ x, lim q (limits_to_root (apply_entry a b)) = Some x ∧ grains (value x) <= grains (value y))) as H.
  { intros q. rewrite E. apply smaller_limit; [exact (A1 q)|exact (B1 q)]. }
  split_and!.
  - constructor; [intros q; apply H|by apply greater_limit|by apply applied_count..|done].
  - intros q y Hy. apply H. by right.
  - intros c Hc q y Hy. destruct (Hc q y Hy) as (x & Hx & Hle). destruct (H q) as [_ H']. destruct (H' x) as (z & Hz & Hle'); [by left|].
    exists z. split; [done|lia].
Qed.

Lemma fair_new : fair LimitsReq_new.
Proof. by constructor; [intros []|..]. Qed.

(** ** The store of markets *)
Record node_ok (n : nat) (k : Z) (m : Market) : Prop := {
  node_import : length (import_max_available m) = n;
  node_export : length (export_max_available m) = n;
  node_sold : length (sold_root m) = n;
  node_sane_import : Forall (λ l, sane_limits l = true) (roots (import_max_available m));
  node_sane_export : Forall (λ l, sane_limits l = true) (roots (export_max_available m));
  node_account j a b s : import_max_available m !! j = Some a → export_max_available m !! j = Some b →
    sold_root m !! j = Some s → account k (limits_to_root a) (limits_to_root b) (res_limits_to_root s);
}.
Definition store_ok (n : nat) (k : Z) (h : gmap ptr Market) : Prop := ∀ p m, h !! p = Some m → node_ok n k m.
Definition chain (h : gmap ptr Market) (p : ptr) : Prop := ∀ q, q `suffix_of` p → is_Some (h !! q).

Lemma suffix_cons_case {A} (q : list A) i p : q `suffix_of` i :: p → q = i :: p ∨ q `suffix_of` p.
Proof. intros [[|j l] E]; [by left|right]. injection E as _ ->. by exists l. Qed.

Lemma chain_parent h i p : chain h (i :: p) → chain h p.
Proof. intros H q Hq. apply H. by apply suffix_cons_r. Qed.

Lemma trade_lookup t p : ∀ h q,
  trade t p h !! q = (if decide (q `suffix_of` p) then add_sold t <$> h !! q else h !! q).
Proof.
  induction p as [|i p IH]; intros h q; cbn [trade].
  - destruct (decide (q `suffix_of` [])) as [Hq|Hq].
    + apply suffix_nil_inv in Hq as ->. by rewrite lookup_alter_eq.
    + rewrite lookup_alter_ne; [done|]. intros <-. by apply Hq.
  - rewrite IH. destruct (decide (q = i :: p)) as [->|Hne].
    + rewrite decide_False, decide_True; [by rewrite lookup_alter_eq|done|].
      intros Hs%suffix_length. cbn in Hs. lia.
    + rewrite lookup_alter_ne by done. destruct (decide (q `suffix_of` p)) as [Hs|Hs].
      * rewrite decide_True by (by apply suffix_cons_r). done.
      * rewrite decide_False; [done|]. intros Hq. apply suffix_cons_case in Hq as [?|?]; done.
Qed.

Section store.
Context (n : nat) (k : Z) (h : gmap ptr Market) (Hk : 0 <= k < 2 ^ 24 - 1) (Hst : store_ok n k h).
Context (g : globals_t) (Hg : schedule_length g = n).

Lemma available_lookup max sold add j e :
  get_available_energy max sold add !! j = Some e →
  ∃ a s, max !! j = Some a ∧ sold !! j = Some s ∧ e = available_entry add a s.
Proof. intros H. unfold get_available_energy in H. apply lookup_zip_with_Some in H as (a & s & -> & H1 & H2). by exists a, s. Qed.

Lemma available_ok m (add : bool) :
  node_ok n k m →
  let max := if add then export_max_available m else import_max_available m in
  length (get_available_energy max (sold_root m) add) = n ∧ Forall fair (roots (get_available_energy max (sold_root m) add)).
Proof.
  intros [H1 H2 H3 H4 H5 H6]. cbv zeta. split.
  - unfold get_available_energy. rewrite length_zip_with. destruct add; lia.
  - apply Forall_lookup_2. intros j l Hl. apply list_lookup_fmap_Some in Hl as (e & -> & He).
    apply available_lookup in He as (a & s & Ha & Hs & ->).
    assert (j < n)%nat as Hj by (rewrite <- H3; by eapply lookup_lt_Some).
    destruct (lookup_lt_is_Some_2 (import_max_available m) j ltac:(lia)) as [ai Hai].
    destruct (lookup_lt_is_Some_2 (export_max_available m) j ltac:(lia)) as [ae Hae].
    eapply (available_fair k Hk (limits_to_root ai) (limits_to_root ae)).
    + eapply Forall_lookup_1 in H4; [exact H4|]. by rewrite list_lookup_fmap, Hai.
    + eapply Forall_lookup_1 in H5; [exact H5|]. by rewrite list_lookup_fmap, Hae.
    + by eapply H6.
    + destruct add; congruence.
    + done.
Qed.

(** The offer is below what is left at every node of the chain. *)
Record offer_ok (p : ptr) (o : Offer) : Prop := {
  offer_import : length (import_offer o) = n;
  offer_export : length (export_offer o) = n;
  offer_fair_import : Forall fair (roots (import_offer o));
  offer_fair_export : Forall fair (roots (export_offer o));
  offer_below_import q m j e a : q `suffix_of` p → h !! q = Some m → import_offer o !! j = Some e →
    get_available_energy_import m !! j = Some a → below (limits_to_root e) (limits_to_root a);
  offer_below_export q m j e a : q `suffix_of` p → h !! q = Some m → export_offer o !! j = Some e →
    get_available_energy_export m !! j = Some a → below (limits_to_root e) (limits_to_root a);
}.

Lemma apply_limits_ok old av :
  length old = n → length av = n → Forall fair (roots old) → Forall fair (roots av) →
  length (apply_limits old av) = n ∧ Forall fair (roots (apply_limits old av)) ∧
  (∀ j e a, apply_limits old av !! j = Some e → av !! j = Some a → below (limits_to_root e) (limits_to_root a)) ∧
  (∀ j e e0 c, apply_limits old av !! j = Some e → old !! j = Some e0 → below (limits_to_root e0) c → below (limits_to_root e) c).
Proof.
  intros L1 L2 F1 F2. unfold apply_limits. rewrite L1, L2, Nat.eqb_refl. cbn [negb].
  assert (∀ j e, zip_with apply_entry old av !! j = Some e →
    ∃ x y, old !! j = Some x ∧ av !! j = Some y ∧ e = apply_entry x y ∧ fair (limits_to_root x) ∧ fair (limits_to_root y)) as Hz.
  { intros j e He. apply lookup_zip_with_Some in He as (x & y & -> & Hx & Hy). exists x, y. split_and!; try done.
    - eapply Forall_lookup_1 in F1; [exact F1|]. by rewrite list_lookup_fmap, Hx.
    - eapply Forall_lookup_1 in F2; [exact F2|]. by rewrite list_lookup_fmap, Hy. }
  split_and!.
  - rewrite length_zip_with. lia.
  - apply Forall_lookup_2. intros j l Hl. apply list_lookup_fmap_Some in Hl as (e & -> & He).
    destruct (Hz j e He) as (x & y & _ & _ & -> & Fx & Fy). by apply apply_entry_ok.
  - intros j e a He Ha. destruct (Hz j e He) as (x & y & Hx & Hy & -> & Fx & Fy). assert (a = y) as -> by congruence.
    exact (proj1 (proj2 (apply_entry_ok x y Fx Fy))).
  - intros j e e0 c He He0 Hc. destruct (Hz j e He) as (x & y & Hx & Hy & -> & Fx & Fy). assert (e0 = x) as -> by congruence.
    exact (proj2 (proj2 (apply_entry_ok x y Fx Fy)) c Hc).
Qed.

Lemma empty_fair : length (empty_schedule_req g) = n ∧ Forall fair (roots (empty_schedule_req g)).
Proof.
  split; [unfold empty_schedule_req; by rewrite length_map|]. unfold empty_schedule_req. rewrite map_map.
  apply Forall_forall. intros l Hl. apply list_elem_of_fmap in Hl as (t & -> & _). apply fair_new.
Qed.

Lemma create_offer_ok p : chain h p → offer_ok p (create_offer_for_local_market g h p).
Proof.
  induction p as [|i p IH]; intros Hc; cbn [create_offer_for_local_market].
  - destruct (Hc [] ltac:(done)) as [m Hm]. rewrite Hm. destruct empty_fair as [E1 E2].
    destruct (available_ok m false (Hst _ _ Hm)) as [I1 I2]. destruct (available_ok m true (Hst _ _ Hm)) as [X1 X2].
    destruct (apply_limits_ok _ _ E1 I1 E2 I2) as (A1 & A2 & A3 & _). destruct (apply_limits_ok _ _ E1 X1 E2 X2) as (B1 & B2 & B3 & _).
    constructor; try done; intros q m' j e a Hq Hm' He Ha; apply suffix_nil_inv in Hq as ->; assert (m' = m) as -> by congruence;
      [by eapply A3|by eapply B3].
  - destruct (Hc (i :: p) ltac:(done)) as [m Hm]. rewrite Hm. destruct (IH (chain_parent _ _ _ Hc)) as [O1 O2 O3 O4 O5 O6].
    destruct (available_ok m false (Hst _ _ Hm)) as [I1 I2]. destruct (available_ok m true (Hst _ _ Hm)) as [X1 X2].
    destruct (apply_limits_ok _ _ O1 I1 O3 I2) as (A1 & A2 & A3 & A4). destruct (apply_limits_ok _ _ O2 X1 O4 X2) as (B1 & B2 & B3 & B4).
    constructor; try done; cbn [import_offer export_offer]; intros q m' j e a Hq Hm' He Ha; apply suffix_cons_case in Hq as [->|Hq].
    + assert (m' = m) as -> by congruence. by eapply A3.
    + destruct (lookup_lt_is_Some_2 (import_offer (create_offer_for_local_market g h p)) j) as [e0 He0].
      { rewrite O1, <- A1. by eapply lookup_lt_Some. }
      eapply A4; [exact He|exact He0|]. by eapply O5.
    + assert (m' = m) as -> by congruence. by eapply B3.
    + destruct (lookup_lt_is_Some_2 (export_offer (create_offer_for_local_market g h p)) j) as [e0 He0].
      { rewrite O2, <- B1. by eapply lookup_lt_Some. }
      eapply B4; [exact He|exact He0|]. by eapply O6.
Qed.

(** A trade of what was offered keeps the store. *)
Lemma trade_ok p o (trades : list LimitsRes) :
  offer_ok p o → length trades = n →
  (∀ j a b x, import_offer o !! j = Some a → export_offer o !! j = Some b → trades !! j = Some x →
              ∀ q, bought (limits_to_root a) (limits_to_root b) q (res q x)) →
  store_ok n (k + 1) (trade (zip_with (λ e l, with_res l e) (empty_schedule_res g) trades) p h).
Proof.
  intros [O1 O2 O3 O4 O5 O6] Ht Hb q m' Hm'. rewrite trade_lookup in Hm'. set (tr := zip_with _ _ _) in *.
  assert (length tr = n) as Htr by (unfold tr, empty_schedule_res; rewrite length_zip_with, length_map; unfold schedule_length in Hg; lia).
  assert (∀ m, node_ok n k m → ∀ j a b s, import_max_available m !! j = Some a → export_max_available m !! j = Some b →
    sold_root m !! j = Some s → account (k + 1) (limits_to_root a) (limits_to_root b) (res_limits_to_root s)) as Hmono.
  { intros m Hm j a b s Ha Hbb Hs. destruct (node_account _ _ _ Hm j a b s Ha Hbb Hs) as [K1 K2 K3]. constructor; try done.
    intros q' x Hx. destruct (K1 q' x Hx). split; [done|]. amounts. lia. }
  destruct (decide (q `suffix_of` p)) as [Hq|Hq].
  2: { pose proof (Hst q m' Hm') as Hok. destruct Hok. constructor; try done. by apply Hmono, Hst with q. }
  destruct (h !! q) as [m|] eqn:Hm; [|done]. cbn in Hm'. injection Hm' as <-. pose proof (Hst q m Hm) as Hok.
  destruct Hok as [N1 N2 N3 N4 N5 N6]. unfold add_sold, schedule_add. rewrite N3, Htr, Nat.eqb_refl. cbn [negb].
  constructor; cbn [import_max_available export_max_available sold_root]; try done.
  { rewrite length_zip_with. lia. }
  intros j a b s Ha Hbb Hs. apply lookup_zip_with_Some in Hs as (s0 & t & -> & Hs0 & Htj). cbn [res_limits_to_root with_res].
  unfold tr in Htj. apply lookup_zip_with_Some in Htj as (e0 & x & -> & _ & Hx). cbn [res_limits_to_root with_res].
  assert (j < n)%nat as Hj by (rewrite <- N1; by eapply lookup_lt_Some).
  destruct (lookup_lt_is_Some_2 (import_offer o) j ltac:(lia)) as [ai Hai].
  destruct (lookup_lt_is_Some_2 (export_offer o) j ltac:(lia)) as [ae Hae].
  eapply (account_step k Hk (limits_to_root a) (limits_to_root b)) with (a := a) (b := b) (s := s0) (oi := limits_to_root ai) (oe := limits_to_root ae); try done.
  - eapply Forall_lookup_1 in N4; [exact N4|]. by rewrite list_lookup_fmap, Ha.
  - eapply Forall_lookup_1 in N5; [exact N5|]. by rewrite list_lookup_fmap, Hbb.
  - by eapply N6.
  - eapply O5; [exact Hq|exact Hm|exact Hai|]. unfold get_available_energy_import, get_available_energy. rewrite lookup_zip_with, Ha. cbn. by rewrite Hs0.
  - eapply O6; [exact Hq|exact Hm|exact Hae|]. unfold get_available_energy_export, get_available_energy. rewrite lookup_zip_with, Hbb. cbn. by rewrite Hs0.
  - by eapply Hb.
Qed.

End store.

End EnergyFacts.
