(* ===== verification/EnergyRuns.v ===== *)
(** * Runs of the optimizer

    Every turn of a broker keeps the accounts of all nodes within their limits; a round
    without trades leaves the offers as they were. *)

From Stdlib Require Import String Floats.SpecFloat.
From S2P Require Import Prelude Float32 FloatRound EnergyMarket EnergyBroker EnergyManager EnergyAmounts EnergyTrades EnergyFacts.

Module EnergyRuns.

Import Float32 FloatRound Energy Broker Manager Amounts Trades EnergyFacts.
#[local] Open Scope Z_scope.

(** ** Equal amounts

    Limits that differ only in the sources of their numbers, and in the sign of zero. *)
Definition same_number (x y : option NumberWithSource) : Prop :=
  match x, y with
  | Some a, Some b => sound (value a) = true ∧ sound (value b) = true ∧ grains (value a) = grains (value b)
  | None, None => True
  | _, _ => False
  end.
Definition alike (l l' : LimitsReq) : Prop :=
  (∀ q, same_number (lim q l) (lim q l')) ∧ ac_min_current_A l = ac_min_current_A l'.

Lemma same_number_sym x y : same_number x y → same_number y x.
Proof. destruct x, y; cbn; naive_solver. Qed.

Lemma alike_sym l l' : alike l l' → alike l' l.
Proof. intros [H1 H2]. split; [|done]. intros q. by apply same_number_sym. Qed.

Lemma is_zero_alike x y : same_number x y → is_zero x = is_zero y.
Proof.
  destruct x as [a|], y as [b|]; try done. intros (Sa & Sb & E). cbn. rewrite !f_eq_grains by done. by rewrite E.
Qed.
Lemma can_trade_alike l l' : alike l l' → can_trade l = can_trade l'.
Proof.
  intros [H _]. unfold can_trade. pose proof (is_zero_alike _ _ (H Current)) as H1. pose proof (is_zero_alike _ _ (H Power)) as H2.
  cbn in H1, H2. by rewrite H1, H2.
Qed.
Lemma spent_alike l l' : alike l l' → spent l → spent l'.
Proof.
  intros [H _] (q & y & Hy & Hle). specialize (H q). rewrite Hy in H. destruct (lim q l') as [z|] eqn:Ez; [|done].
  destruct H as (_ & _ & E). exists q, z. split; [done|lia].
Qed.
Lemma unaffordable_alike v l l' a n : alike l l' → unaffordable v l a n → unaffordable v l' a n.
Proof.
  intros [H _] Hu c Hc. pose proof (H Current) as HC. cbn in HC. rewrite Hc in HC.
  destruct (ac_max_current_A l) as [c0|] eqn:Ec; [|done]. destruct HC as (_ & _ & E). destruct (Hu c0 Ec) as [Hlt|(p & Hp & Hlt)]; [left; lia|right].
  pose proof (H Power) as HP. cbn in HP. rewrite Hp in HP. destruct (total_power_W l') as [p'|]; [|done]. destruct HP as (_ & _ & E').
  exists p'. split; [done|lia].
Qed.
Lemma refuses_alike v s l l' n : alike l l' → refuses v s l n → refuses v s l' n.
Proof.
  intros Ha. pose proof Ha as [H Hm]. unfold refuses, needs_minimum. rewrite <- Hm.
  pose proof (H Current) as HC. pose proof (H Power) as HP. cbn in HC, HP.
  destruct (ac_max_current_A l) eqn:E1, (ac_max_current_A l') eqn:E2; try done.
  - destruct (ac_min_current_A l) as [m|]; [|by apply spent_alike].
    destruct (first_trade s && f_gt (value m) zero); [by apply unaffordable_alike|by apply spent_alike].
  - destruct (total_power_W l), (total_power_W l'); try done. by apply spent_alike.
Qed.
Lemma no_deal_alike v s i i' e e' : alike i i' → alike e e' → no_deal v s i e → no_deal v s i' e'.
Proof.
  intros Hi He. unfold no_deal. rewrite (can_trade_alike _ _ Hi), (can_trade_alike _ _ He).
  destruct (slot_type s); [by apply refuses_alike|by apply refuses_alike|done].
Qed.

(** *** Offers of stores with equal accounts *)
Definition same_account (s s' : ScheduleResEntry) : Prop :=
  ∀ q, amount (res q (res_limits_to_root s)) = amount (res q (res_limits_to_root s')).
Record same_market (m m' : Market) : Prop := {
  same_import : import_max_available m = import_max_available m';
  same_export : export_max_available m = export_max_available m';
  same_sold : Forall2 same_account (sold_root m) (sold_root m');
}.
Definition same_store (h h' : gmap ptr Market) : Prop := ∀ p m, h !! p = Some m → ∃ m', h' !! p = Some m' ∧ same_market m m'.

#[export] Instance same_account_equiv : Equivalence same_account.
Proof. split; [by intros s q|by intros s s' H q|intros a b c Hab Hbc q; by rewrite Hab]. Qed.
#[export] Instance same_store_refl : Reflexive same_store.
Proof. intros h p m Hm. exists m. split; [done|]. by constructor. Qed.
#[export] Instance same_store_trans : Transitive same_store.
Proof.
  intros h1 h2 h3 H1 H2 p m Hm. destruct (H1 p m Hm) as (m' & Hm' & [A1 A2 A3]). destruct (H2 p m' Hm') as (m'' & Hm'' & [B1 B2 B3]).
  exists m''. split; [done|]. constructor; [congruence..|]. by transitivity (sold_root m').
Qed.

Lemma same_sum x p p' :
  sound x = true → sound p = true → sound p' = true → grains p = grains p' →
  closest (f_add x p) (grains x + grains p) → closest (f_add x p') (grains x + grains p') →
  grains (f_add x p) = grains (f_add x p').
Proof.
  intros Hx Hp Hp' E C C'. destruct (decide (grains p = 0)) as [H0|H0].
  - rewrite <- E, H0, Z.add_0_r in C'. rewrite H0, Z.add_0_r in C. apply closest_exact in C, C'; try done. congruence.
  - by rewrite (sound_inj p p') by done.
Qed.

Lemma same_number_smaller a a' b b' :
  same_number a a' → same_number b b' → same_number (apply_one_limit_if_smaller a b) (apply_one_limit_if_smaller a' b').
Proof.
  destruct b as [y|], b' as [y'|]; try done. destruct a as [x|], a' as [x'|]; try done.
  intros (Sx & Sx' & Ex) (Sy & Sy' & Ey). cbn [apply_one_limit_if_smaller]. unfold f_gt.
  rewrite !f_lt_grains, !f_eq_grains by done. rewrite <- Ex, <- Ey.
  destruct (_ <? _); [done|]. by destruct (_ =? _).
Qed.

Lemma apply_entry_alike a a' b b' :
  alike (limits_to_root a) (limits_to_root a') → alike (limits_to_root b) (limits_to_root b') →
  alike (limits_to_root (apply_entry a b)) (limits_to_root (apply_entry a' b')).
Proof.
  intros [A1 A2] [B1 B2]. split; [|cbn; by rewrite A2, B2].
  intros []; cbn; apply same_number_smaller; first [exact (A1 Current)|exact (B1 Current)|exact (A1 Power)|exact (B1 Power)].
Qed.

(** Offers of [n] slots with the same amounts. *)
Definition offers_alike (o o' : ScheduleReq) : Prop := Forall2 alike (roots o) (roots o').

Lemma apply_limits_alike a a' b b' :
  offers_alike a a' → offers_alike b b' → length a = length b →
  offers_alike (apply_limits a b) (apply_limits a' b').
Proof.
  intros Ha Hb Hl. pose proof (Forall2_length _ _ _ Ha) as L1. pose proof (Forall2_length _ _ _ Hb) as L2. rewrite !length_map in L1, L2.
  unfold apply_limits. rewrite <- L1, <- L2, Hl, Nat.eqb_refl. cbn [negb]. clear L1 L2. unfold offers_alike in *.
  revert a' b b' Ha Hb Hl. induction a as [|x a IH]; intros [|x' a'] [|y b] [|y' b'] Ha Hb Hl; try done;
    try (by inversion Ha); try (by inversion Hb); try (by constructor).
  apply Forall2_cons in Ha as [Hx Ha], Hb as [Hy Hb]. constructor; [by apply apply_entry_alike|]. apply IH; [done|done|]. by injection Hl.
Qed.

Section same_offers.
Context (n : nat) (k k' : Z) (h h' : gmap ptr Market) (Hk : 0 <= k < 2 ^ 24 - 1) (Hk' : 0 <= k' < 2 ^ 24 - 1).
Context (Hst : store_ok n k h) (Hst' : store_ok n k' h') (Hsame : same_store h h').
Context (g : globals_t) (Hg : schedule_length g = n).

Lemma available_value q add a s y :
  lim q (limits_to_root a) = Some y →
  lim q (limits_to_root (available_entry add a s)) =
  Some (number (f_add (value y) (sold_part add (res q (res_limits_to_root s)))) (source y)).
Proof. destruct q; cbn; by intros ->. Qed.

Lemma account_part j imp exp sold q add :
  0 <= j < 2 ^ 24 - 1 → account j imp exp sold →
  sound (sold_part add (res q sold)) = true ∧ grains (sold_part add (res q sold)) = Z.min 0 (- directed (negb add) (amount (res q sold))).
Proof.
  intros Hj Ha. destruct (sold_part_spec add (res q sold)) as [Sp Gp].
  { intros x Hx. destruct (account_sound _ _ _ _ Ha q x Hx) as [Sx Bx]. split; [done|]. amounts. nia. }
  split; [done|]. rewrite Gp. unfold amount, directed. destruct add; cbn; lia.
Qed.

Lemma available_alike m m' (add : bool) :
  node_ok n k m → node_ok n k' m' → same_market m m' →
  offers_alike (get_available_energy (if add then export_max_available m else import_max_available m) (sold_root m) add)
               (get_available_energy (if add then export_max_available m' else import_max_available m') (sold_root m') add).
Proof.
  intros [N1 N2 N3 N4 N5 N6] [N1' N2' N3' N4' N5' N6'] [S1 S2 S3]. rewrite <- S1, <- S2. apply Forall2_fmap_2, Forall2_same_length_lookup_2.
  { unfold get_available_energy. rewrite !length_zip_with. destruct add; lia. }
  intros j e e' (a & s & Ha & Hs & ->)%available_lookup (a' & s' & Ha' & Hs' & ->)%available_lookup.
  assert (a' = a) as -> by congruence. pose proof (Forall2_lookup_lr _ _ _ _ _ _ S3 Hs Hs') as Hss.
  assert (j < n)%nat as Hj by (rewrite <- N3; by eapply lookup_lt_Some).
  destruct (lookup_lt_is_Some_2 (import_max_available m) j ltac:(lia)) as [ai Hai].
  destruct (lookup_lt_is_Some_2 (export_max_available m) j ltac:(lia)) as [ae Hae].
  assert (sane_limits (limits_to_root ai) = true) as Hi.
  { eapply Forall_lookup_1 in N4; [exact N4|]. by rewrite list_lookup_fmap, Hai. }
  assert (sane_limits (limits_to_root ae) = true) as He.
  { eapply Forall_lookup_1 in N5; [exact N5|]. by rewrite list_lookup_fmap, Hae. }
  assert (limits_to_root a = if add then limits_to_root ae else limits_to_root ai) as Hroot by (destruct add; congruence).
  destruct (available_limits k Hk _ _ Hi He _ (N6 j ai ae s Hai Hae Hs) add a s Hroot eq_refl) as [P1 P2].
  assert (account k' (limits_to_root ai) (limits_to_root ae) (res_limits_to_root s')) as Hacc' by (apply (N6' j); congruence).
  destruct (available_limits k' Hk' _ _ Hi He _ Hacc' add a s' Hroot eq_refl) as [P1' P2'].
  split; [|done]. intros q. destruct (lim q (limits_to_root a)) as [y|] eqn:Ey.
  - destruct (P1 q y Ey) as (z & Ez & Hz), (P1' q y Ey) as (z' & Ez' & Hz'). rewrite Ez, Ez'. rewrite <- (Hss q) in Hz'.
    split; [apply Hz|]. split; [apply Hz'|]. 
    rewrite (available_value q add a s y Ey) in Ez. rewrite (available_value q add a s' y Ey) in Ez'. injection Ez as <-. injection Ez' as <-.
    destruct (account_part k _ _ _ q add Hk (N6 j ai ae s Hai Hae Hs)) as [S G]. destruct (account_part k' _ _ _ q add Hk' Hacc') as [S' G'].
    rewrite <- (Hss q) in G'. rewrite <- G in Hz. rewrite <- G' in Hz'. cbn [value number] in *. apply same_sum; try done; [|congruence].
    assert (sane_limits (limits_to_root a) = true) as [Hsa _]%sane_limits_spec by (rewrite Hroot; by destruct add).
    by apply (proj1 (sane_spec _) (Hsa q y Ey)).
  - by rewrite (P2 q Ey), (P2' q Ey).
Qed.

Lemma create_offer_alike p :
  chain h p →
  offers_alike (import_offer (create_offer_for_local_market g h p)) (import_offer (create_offer_for_local_market g h' p)) ∧
  offers_alike (export_offer (create_offer_for_local_market g h p)) (export_offer (create_offer_for_local_market g h' p)).
Proof.
  assert (offers_alike (empty_schedule_req g) (empty_schedule_req g)) as He.
  { unfold offers_alike. apply Forall2_fmap_2, Forall_Forall2_diag, Forall_forall. intros e Hin.
    apply list_elem_of_fmap in Hin as (t & -> & _). by split; [intros []|]. }
  induction p as [|i p IH]; intros Hc; cbn [create_offer_for_local_market].
  - destruct (Hc [] ltac:(done)) as [m Hm]. destruct (Hsame _ _ Hm) as (m' & Hm' & Hs). rewrite Hm, Hm'. cbn [import_offer export_offer].
    pose proof (Hst _ _ Hm) as Hn. pose proof (Hst' _ _ Hm') as Hn'.
    pose proof (available_ok n k Hk g Hg m false Hn) as [L1 _]. pose proof (available_ok n k Hk g Hg m true Hn) as [L2 _].
    destruct (empty_fair n g Hg) as [L0 _].
    split; apply apply_limits_alike; [done|by apply (available_alike _ _ false)|by rewrite L0|done|by apply (available_alike _ _ true)|by rewrite L0].
  - destruct (Hc (i :: p) ltac:(done)) as [m Hm]. destruct (Hsame _ _ Hm) as (m' & Hm' & Hs). rewrite Hm, Hm'. cbn [import_offer export_offer].
    pose proof (Hst _ _ Hm) as Hn. pose proof (Hst' _ _ Hm') as Hn'. apply chain_parent in Hc.
    pose proof (available_ok n k Hk g Hg m false Hn) as [L1 _]. pose proof (available_ok n k Hk g Hg m true Hn) as [L2 _].
    destruct (create_offer_ok n k h Hk Hst g Hg p Hc) as [O1 O2 _ _ _ _]. destruct (IH Hc) as [I1 I2].
    split; apply apply_limits_alike; [done|by apply (available_alike _ _ false)|by rewrite O1|done|by apply (available_alike _ _ true)|by rewrite O2].
Qed.

End same_offers.

(** ** Turns of the brokers *)

(** What trades leave as it is. *)
Definition fixed_part (m : Market) := (energy_flow_request m, import_max_available m, export_max_available m).
Definition kept (h h' : gmap ptr Market) : Prop := ∀ p, fixed_part <$> h !! p = fixed_part <$> h' !! p.
#[export] Instance kept_equiv : Equivalence kept.
Proof. split; [by intros h p|by intros h h' H p|intros h1 h2 h3 H1 H2 p; by rewrite H1]. Qed.

Lemma trade_kept t p h : kept h (trade t p h).
Proof. intros q. rewrite trade_lookup. case_decide; [|done]. by destruct (h !! q). Qed.
Lemma kept_chain h h' p : kept h h' → chain h p → chain h' p.
Proof.
  intros Hk Hc q Hq. destruct (Hc q Hq) as [m Hm]. specialize (Hk q). rewrite Hm in Hk.
  destruct (h' !! q); [by eexists|done].
Qed.

(** Zero sold. *)
Lemma add_nothing k imp exp sold q x :
  0 <= k < 2 ^ 24 - 1 → account k imp exp sold → (x = None ∨ x = Some (unnamed zero)) →
  amount (res q sold) = amount (add_sold_number (res q sold) x).
Proof.
  intros Hk Ha [->| ->]; [done|]. unfold add_sold_number, number, unnamed. cbn [amount value].
  set (s := match res q sold with Some y => value y | None => zero end).
  assert (sound s = true ∧ Z.abs (grains s) <= k * max_amount ∧ grains s = amount (res q sold)) as (Ss & Bs & Gs).
  { unfold s, amount. destruct (res q sold) as [y|] eqn:Ey; [|split_and!; try done; cbn; amounts; nia].
    destruct (account_sound _ _ _ _ Ha q y Ey). by split_and!. }
  destruct (account_size k s zero Hk Ss eq_refl Bs) as [Hc _]; [cbn; amounts; lia|]. change (grains zero) with 0 in Hc.
  rewrite Z.add_0_l in Hc. apply closest_exact in Hc; [|done]. congruence.
Qed.

Lemma trade_nothing n k h g p (offer : ScheduleReq) :
  0 <= k < 2 ^ 24 - 1 → store_ok n k h → schedule_length g = n → length offer = n →
  same_store h (trade (zip_with (λ e l, with_res l e) (empty_schedule_res g) (map nothing_bought (roots offer))) p h).
Proof.
  intros Hk Hst Hg Hlen q m Hm. set (tr := zip_with _ _ _).
  assert (length tr = n) as Htr.
  { unfold tr, empty_schedule_res. rewrite length_zip_with, !length_map. unfold schedule_length in Hg. lia. }
  rewrite trade_lookup, Hm. case_decide as Hq; [|exists m; split; [done|by constructor]].
  eexists. split; [reflexivity|]. destruct (Hst q m Hm) as [N1 N2 N3 N4 N5 N6]. constructor; [done|done|].
  unfold add_sold, schedule_add. cbn [sold_root]. rewrite N3, Htr, Nat.eqb_refl. cbn [negb].
  apply Forall2_same_length_lookup_2; [rewrite length_zip_with; lia|].
  intros j s s' Hs Hs'. apply lookup_zip_with_Some in Hs' as (s0 & t & -> & Hs0 & Ht). assert (s0 = s) as -> by congruence.
  unfold tr in Ht. apply lookup_zip_with_Some in Ht as (e0 & x & -> & _ & Hx).
  apply list_lookup_fmap_Some in Hx as (l & -> & _).
  assert (j < n)%nat as Hj by (rewrite <- N3; by eapply lookup_lt_Some).
  destruct (lookup_lt_is_Some_2 (import_max_available m) j ltac:(lia)) as [ai Hai].
  destruct (lookup_lt_is_Some_2 (export_max_available m) j ltac:(lia)) as [ae Hae].
  pose proof (N6 j ai ae s Hai Hae Hs) as Hacc. intros q'.
  assert (∀ x, (x = None ∨ x = Some (unnamed zero)) →
    amount (res q' (res_limits_to_root s)) = amount (add_sold_number (res q' (res_limits_to_root s)) x)) as H.
  { intros x. by eapply add_nothing. }
  destruct q'; cbn [res res_limits_to_root with_res add_limits res_ac_max_current_A res_total_power_W nothing_bought] in *;
    apply H; [destruct (ac_max_current_A l)|destruct (total_power_W l)]; auto.
Qed.

Section turns.
Context (g : globals_t) (bc : BrokerConfig) (v : float) (Hv : sane_voltage v = true).
Context (Hsa : sound (Energy.slice_ampere g) = true ∧ 0 < grains (Energy.slice_ampere g)).
Context (Hsw : sound (Energy.slice_watt g) = true ∧ 0 < grains (Energy.slice_watt g)).
Context (n : nat) (Hg : schedule_length g = n).

Record broker_ok (h : gmap ptr Market) (b : Broker) : Prop := {
  broker_chain : chain h (local_market b);
  broker_slots : length (slots b) = n;
  broker_phases : Forall (λ s, phases_ok (num_phases s)) (slots b);
}.

(** The broker has nothing to buy of what is left. *)
Definition settled (h : gmap ptr Market) (b : Broker) : Prop :=
  let o := create_offer_for_local_market g h (local_market b) in
  ∀ j a e s, import_offer o !! j = Some a → export_offer o !! j = Some e → slots b !! j = Some s →
  no_deal v s (limits_to_root a) (limits_to_root e).

Lemma settled_same k k' h h' b :
  0 <= k < 2 ^ 24 - 1 → 0 <= k' < 2 ^ 24 - 1 → store_ok n k h → store_ok n k' h' → same_store h h' →
  chain h (local_market b) → settled h b → settled h' b.
Proof.
  intros Hk Hk' Hst Hst' Hs Hc Hse. destruct (create_offer_alike n k k' h h' Hk Hk' Hst Hst' Hs g Hg _ Hc) as [I E].
  intros j a e s Ha He Hsl.
  assert (∀ o o' : ScheduleReq, offers_alike o o' → ∀ x', o' !! j = Some x' → ∃ x, o !! j = Some x ∧ alike (limits_to_root x) (limits_to_root x')) as Hl.
  { intros o o' Ho x' Hx'. unfold offers_alike in Ho.
    destruct (Forall2_lookup_r _ _ _ j (limits_to_root x') Ho) as (l & Hl & Hal); [by rewrite list_lookup_fmap, Hx'|].
    apply list_lookup_fmap_Some in Hl as (x & -> & Hx). by exists x. }
  destruct (Hl _ _ I a Ha) as (a0 & Ha0 & Haa). destruct (Hl _ _ E e He) as (e0 & He0 & Hee).
  eapply no_deal_alike; [exact Haa|exact Hee|]. by eapply Hse.
Qed.

(** What a turn does: the trades, slot by slot, bought of the offer. *)
Record turn (b b' : Broker) (t : bool) (o o' : optimization) (trades : list LimitsRes) : Prop := {
  turn_markets : markets o' = trade (zip_with (λ e l, with_res l e) (empty_schedule_res g) trades) (local_market b) (markets o);
  turn_trade :
    let offer := create_offer_for_local_market g (markets o) (local_market b) in
    ∃ act t0 t1, tradeImpl g bc v act 0 (import_offer offer) (export_offer offer) (slots b) t0 = (slots b', trades, t1);
  turn_length : length trades = n;
  turn_bought j a e x :
    let offer := create_offer_for_local_market g (markets o) (local_market b) in
    import_offer offer !! j = Some a → export_offer offer !! j = Some e → trades !! j = Some x →
    ∀ q, bought (limits_to_root a) (limits_to_root e) q (res q x);
  turn_local : local_market b' = local_market b;
  turn_broker : broker_ok (markets o') b';
  turn_nothing : t = false →
    (∃ offer, length offer = n ∧ trades = map nothing_bought (roots offer)) ∧ settled (markets o) b';
}.

Lemma broker_turn_run k b o :
  0 <= k < 2 ^ 24 - 1 → store_ok n k (markets o) → broker_ok (markets o) b →
  let '(t, b', o') := broker_turn g bc v b o in ∃ trades, turn b b' t o o' trades.
Proof.
  intros Hk Hst [Hc Hsl Hph]. unfold broker_turn, broker_trade. set (offer := create_offer_for_local_market _ _ _).
  destruct (create_offer_ok n k (markets o) Hk Hst g Hg _ Hc : offer_ok _ _ _ offer) as [O1 O2 O3 O4 O5 O6].
  rewrite O1, O2, Nat.eqb_refl. cbn [negb]. destruct (context_of _ _ _) as [[c cs] readings].
  pose proof (tradeImpl_run g bc v Hv Hsa Hsw (active_slot (start_time g) (import_offer offer)) (import_offer offer) 0 (export_offer offer) (slots b)
    {| ts_context := c; ts_clock := readings; ts_traded := false |}) as H.
  destruct (tradeImpl _ _ _ _ _ _ _ _ _) as [[sl' tr] t'] eqn:Et. destruct H as (L1 & L2 & Hp' & Hb & Hn); [lia|lia|done..|].
  exists tr. constructor; cbn [markets local_market]; try done; [by eexists _, _, _|lia|..].
  - constructor; [eapply kept_chain; [apply trade_kept|done]|cbn; lia|done].
  - intros Ht. destruct (Hn Ht) as (_ & Htr & Hd). split; [by exists (import_offer offer)|done].
Qed.

(** A turn: at most one more trade on each account. *)
Lemma broker_turn_ok k b o :
  0 <= k < 2 ^ 24 - 2 → store_ok n k (markets o) → broker_ok (markets o) b →
  let '(t, b', o') := broker_turn g bc v b o in
  store_ok n (k + 1) (markets o') ∧ kept (markets o) (markets o') ∧ broker_ok (markets o') b' ∧
  local_market b' = local_market b ∧ (t = false → same_store (markets o) (markets o') ∧ settled (markets o') b').
Proof.
  intros Hk Hst Hok. pose proof (broker_turn_run k b o ltac:(lia) Hst Hok) as H.
  destruct (broker_turn g bc v b o) as [[t b'] o']. destruct H as (tr & [H1 _ H2 H3 H4 H5 H6]). destruct Hok as [Hc _ _].
  assert (store_ok n (k + 1) (markets o')) as Hst'.
  { rewrite H1. eapply (trade_ok n k (markets o) ltac:(lia) Hst g Hg); [|done|done]. by apply (create_offer_ok n k _ ltac:(lia)). }
  split; [done|]. split; [rewrite H1; apply trade_kept|]. split; [done|]. split; [done|].
  intros Ht. destruct (H6 Ht) as [(off & Hoff & Htr) Hs].
  assert (same_store (markets o) (markets o')) as Hsame by (rewrite H1, Htr; apply (trade_nothing n k); try done; lia).
  split; [done|]. apply (settled_same k (k + 1) (markets o)); try done; try lia. by rewrite H4.
Qed.

Lemma broker_ok_kept h h' b : kept h h' → broker_ok h b → broker_ok h' b.
Proof. intros Hk [H1 H2 H3]. constructor; [by eapply kept_chain|done..]. Qed.

(** ** Rounds

    [I] is an invariant of the turns of brokers at the EVSEs in [A]; it may count turns. *)
Section rounds.
Context (I : Z → gmap ptr Market → Prop) (A : ptr → Prop).
Context (HI : ∀ k b b' t o o' tr, 0 <= k < 2 ^ 24 - 1 → store_ok n k (markets o) → broker_ok (markets o) b →
  A (local_market b) → turn b b' t o o' tr → I k (markets o) → I (k + 1) (markets o')).

Lemma broker_turn_inv k b o :
  0 <= k < 2 ^ 24 - 1 → store_ok n k (markets o) → broker_ok (markets o) b → A (local_market b) → I k (markets o) →
  I (k + 1) (markets (broker_turn g bc v b o).2).
Proof.
  intros Hk Hst Hb Ha Hi. pose proof (broker_turn_run k b o Hk Hst Hb) as H.
  destruct (broker_turn g bc v b o) as [[t b'] o']. destruct H as [tr Ht]. by eapply HI.
Qed.

(** A round, with one turn for each broker. *)
Lemma trading_round_ok bs : ∀ k o,
  0 <= k → k + Z.of_nat (length bs) < 2 ^ 24 - 1 → store_ok n k (markets o) → Forall (broker_ok (markets o)) bs →
  Forall A (map local_market bs) → I k (markets o) →
  let '(t, bs', o') := trading_round g bc v bs o in
  let k' := k + Z.of_nat (length bs) in
  store_ok n k' (markets o') ∧ I k' (markets o') ∧ kept (markets o) (markets o') ∧ Forall (broker_ok (markets o')) bs' ∧
  map local_market bs' = map local_market bs ∧
  (t = false → same_store (markets o) (markets o') ∧ Forall (settled (markets o')) bs').
Proof.
  induction bs as [|b bs IH]; intros k o H0 Hk Hst Hok Ha Hi; cbn [trading_round].
  { rewrite Z.add_0_r. by split_and!. }
  apply Forall_cons in Hok as [Hb Hok], Ha as [Hab Ha]. cbn [length] in *. pose proof (broker_turn_ok k b o ltac:(lia) Hst Hb) as Hturn.
  pose proof (broker_turn_inv k b o ltac:(lia) Hst Hb Hab Hi) as Hi1.
  destruct (broker_turn g bc v b o) as [[t b'] o1]. destruct Hturn as (S1 & K1 & B1 & M1 & N1).
  specialize (IH (k + 1) o1 ltac:(lia) ltac:(lia) S1).
  destruct (trading_round g bc v bs o1) as [[ts bs'] o2]. destruct IH as (S2 & I2 & K2 & B2 & M2 & N2); [|done..|].
  { eapply Forall_impl; [exact Hok|]. intros x. by apply broker_ok_kept. }
  replace (k + Z.of_nat (S (length bs))) with (k + 1 + Z.of_nat (length bs)) by lia. split_and!; try done.
  - by transitivity (markets o1).
  - constructor; [by eapply broker_ok_kept|done].
  - cbn. by rewrite M1, M2.
  - intros [-> ->]%orb_false_iff. destruct (N1 eq_refl) as [A1 A2], (N2 eq_refl) as [C1 C2]. split; [by transitivity (markets o1)|].
    constructor; [|done]. eapply (settled_same (k + 1) (k + 1 + Z.of_nat (length bs))); try done; try lia. apply B1.
Qed.

Lemma trading_rounds_ok r : ∀ k bs o,
  0 <= k → k + Z.of_nat r * Z.of_nat (length bs) < 2 ^ 24 - 1 → store_ok n k (markets o) → Forall (broker_ok (markets o)) bs →
  Forall A (map local_market bs) → I k (markets o) →
  let '(remaining, bs', o') := trading_rounds r g bc v bs o in
  (∃ k', 0 <= k' <= k + Z.of_nat r * Z.of_nat (length bs) ∧ store_ok n k' (markets o') ∧ I k' (markets o')) ∧
  kept (markets o) (markets o') ∧
  map local_market bs' = map local_market bs ∧ ((0 < remaining)%nat → Forall (settled (markets o')) bs').
Proof.
  induction r as [|r IH]; intros k bs o H0 Hk Hst Hok Ha Hi; cbn [trading_rounds].
  { split_and!; [exists k; split; [lia|done]|done|done|lia]. }
  pose proof (trading_round_ok bs k o H0 ltac:(lia) Hst Hok Ha Hi) as Hround.
  destruct (trading_round g bc v bs o) as [[t bs'] o1]. destruct Hround as (S1 & I1 & K1 & B1 & M1 & N1). destruct t.
  - assert (length bs' = length bs) as Hlen by (apply (f_equal length) in M1; by rewrite !length_map in M1).
    specialize (IH (k + Z.of_nat (length bs)) bs' o1 ltac:(lia)). rewrite Hlen, M1 in IH. specialize (IH ltac:(lia) S1 B1 Ha I1).
    destruct (trading_rounds r g bc v bs' o1) as [[remaining bs''] o']. destruct IH as ((k' & Hk' & E) & K2 & M2 & N2).
    split_and!; [exists k'; split; [lia|done]|by transitivity (markets o1)|congruence|done].
  - split_and!; [exists (k + Z.of_nat (length bs)); split; [lia|done]|done|done|]. intros _. by apply N1.
Qed.

End rounds.

End turns.

End EnergyRuns.
