(* ===== verification/EnergyTree.v ===== *)
(** * The tree of markets

    The store that the constructor of [Market] builds has one node for each node of the
    request; the brokers of the optimizer start on accounts that are empty. *)

From Stdlib Require Import String Floats.SpecFloat.
From S2P Require Import Prelude Float32 FloatRound EnergyMarket EnergyBroker EnergyManager EnergyAmounts EnergyTrades EnergyFacts EnergyRuns.

Module EnergyTree.

Import Float32 FloatRound Energy Broker Manager Amounts Trades EnergyFacts EnergyRuns.
#[local] Open Scope Z_scope.

(** ** Nodes of a request *)

(** Induction on requests, with the hypothesis for all children. *)
Lemma request_ind (P : EnergyFlowRequest → Prop) :
  (∀ r, Forall P (children r) → P r) → ∀ r, P r.
Proof.
  intros H. fix IH 1. intros r. apply H. destruct r as [cs]. cbn [children]. clear -IH.
  induction cs as [|c cs IHcs]; constructor; [apply IH|exact IHcs].
Qed.

(** The node at a path, from the top. *)
Fixpoint descend (r : EnergyFlowRequest) (path : list nat) : option EnergyFlowRequest :=
  match path with
  | [] => Some r
  | i :: path' => match children r !! i with Some c => descend c path' | None => None end
  end.

Lemma descend_app r path1 path2 :
  descend r (path1 ++ path2)%list = match descend r path1 with Some c => descend c path2 | None => None end.
Proof. revert r. induction path1 as [|i path1 IH]; intros r; cbn; [done|]. by destruct (children r !! i). Qed.

(** [q] is below [this], at a node that satisfies [P]. *)
Definition at_path (r : EnergyFlowRequest) (this q : ptr) (P : EnergyFlowRequest → Prop) : Prop :=
  ∃ path r', q = (rev path ++ this)%list ∧ descend r path = Some r' ∧ P r'.

Lemma at_path_cases r this q P :
  at_path r this q P ↔ (q = this ∧ P r) ∨ ∃ j c, children r !! j = Some c ∧ at_path c (j :: this) q P.
Proof.
  split.
  - intros ([|j path] & r' & -> & Hd & HP); cbn in Hd.
    + left. injection Hd as <-. done.
    + right. destruct (children r !! j) as [c|] eqn:Hc; [|done]. exists j, c. split; [done|]. exists path, r'.
      split_and!; try done. cbn. by rewrite <- app_assoc.
  - intros [[-> HP]|(j & c & Hc & path & r' & -> & Hd & HP)]; [by exists [], r|].
    exists (j :: path), r'. cbn. rewrite Hc. split_and!; try done. by rewrite <- app_assoc.
Qed.

(** Paths through different children differ. *)
Lemma below_child (j j' : nat) this (path path' : list nat) :
  (rev path ++ j :: this = rev path' ++ j' :: this)%list → j = j'.
Proof.
  intros E. assert (length (rev path) = length (rev path')) as Hl by (apply (f_equal length) in E; rewrite !length_app in E; cbn in E; lia).
  by apply app_inj_1 in E as [_ [= ->]].
Qed.
Lemma not_below (path this : list nat) j : (rev path ++ j :: this)%list ≠ this.
Proof. intros E. apply (f_equal length) in E. rewrite length_app in E. cbn in E. lia. Qed.

(** ** The store of the constructor *)
Notation new_children g v this := (fix create i l : gmap ptr Market :=
  match l with [] => ∅ | c :: l' => Market_new g v c (i :: this) ∪ create (S i) l' end).

Lemma Market_new_unfold g v r this :
  Market_new g v r this = <[this := Market_node g v r]> (new_children g v this O (children r)).
Proof. by destruct r. Qed.

Lemma Market_new_lookup g v r : ∀ this q m,
  Market_new g v r this !! q = Some m ↔ at_path r this q (λ r', m = Market_node g v r').
Proof.
  induction r as [r IH] using request_ind. intros this q m. rewrite Market_new_unfold, at_path_cases.
  assert (∀ l i, Forall (λ c, ∀ this q m, Market_new g v c this !! q = Some m ↔ at_path c this q (λ r', m = Market_node g v r')) l →
    new_children g v this i l !! q = Some m ↔
    ∃ j c, l !! j = Some c ∧ at_path c ((i + j)%nat :: this) q (λ r', m = Market_node g v r')) as Hcs.
  { clear IH. induction l as [|c l IHl]; intros i Hl.
    { rewrite lookup_empty. split; [done|]. by intros (j & c & ? & _). }
    apply Forall_cons in Hl as [Hc Hl]. rewrite lookup_union_Some_raw, IHl, Hc by done. split.
    - intros [H|[_ (j & c' & Hj & H)]]; [exists O, c; by rewrite Nat.add_0_r|].
      exists (S j), c'. split; [done|]. by rewrite Nat.add_succ_r.
    - intros ([|j] & c' & Hj & H); [left; injection Hj as <-; by rewrite Nat.add_0_r in H|right].
      rewrite Nat.add_succ_r in H. split; [|by exists j, c']. destruct (Market_new g v c (i :: this) !! q) as [m'|] eqn:E; [|done].
      apply Hc in E as (p1 & r1 & -> & _). destruct H as (p2 & r2 & E & _). apply below_child in E. lia. }
  destruct (decide (q = this)) as [->|Hne].
  - rewrite lookup_insert_eq. split; [intros [= <-]; by left|]. intros [[_ ->]|(j & c & _ & path & r' & E & _)]; [done|].
    by apply symmetry, not_below in E.
  - rewrite lookup_insert_ne, Hcs by done. split; [intros H; by right|]. by intros [[? _]|H].
Qed.

Notation walk_children this := (fix walk i l := match l with [] => [] | c :: l' => get_list_of_evses c (i :: this) ++ walk (S i) l' end)%list.

Lemma get_list_of_evses_unfold r this :
  get_list_of_evses r this = ((if bool_decide (node_type r = Evse) then [this] else []) ++ walk_children this O (children r))%list.
Proof. by destruct r. Qed.

Lemma evses_at r : ∀ this q, q ∈ get_list_of_evses r this ↔ at_path r this q (λ r', node_type r' = Evse).
Proof.
  induction r as [r IH] using request_ind. intros this q. rewrite get_list_of_evses_unfold, at_path_cases, elem_of_app.
  assert (∀ l i, Forall (λ c, ∀ this q, q ∈ get_list_of_evses c this ↔ at_path c this q (λ r', node_type r' = Evse)) l →
    q ∈ walk_children this i l ↔ ∃ j c, l !! j = Some c ∧ at_path c ((i + j)%nat :: this) q (λ r', node_type r' = Evse)) as Hcs.
  { clear IH. induction l as [|c l IHl]; intros i Hl.
    { rewrite elem_of_nil. split; [done|]. by intros (j & c & ? & _). }
    apply Forall_cons in Hl as [Hc Hl]. rewrite elem_of_app, IHl, Hc by done. split.
    - intros [H|(j & c' & Hj & H)]; [exists O, c; by rewrite Nat.add_0_r|]. exists (S j), c'. split; [done|]. by rewrite Nat.add_succ_r.
    - intros ([|j] & c' & Hj & H); [left; injection Hj as <-; by rewrite Nat.add_0_r in H|right].
      rewrite Nat.add_succ_r in H. by exists j, c'. }
  rewrite Hcs by done. destruct (bool_decide_reflect (node_type r = Evse)); rewrite ?list_elem_of_singleton, ?elem_of_nil; naive_solver.
Qed.

(** All nodes on the way to a node are in the store. *)
Lemma Market_new_chain g v r p P : at_path r [] p P → chain (Market_new g v r []) p.
Proof.
  intros (path & r' & -> & Hd & _) q [front E]. rewrite app_nil_r in E.
  assert (path = rev q ++ rev front)%list as -> by (rewrite <- rev_app_distr, <- E; symmetry; apply rev_involutive).
  rewrite descend_app in Hd. destruct (descend r (rev q)) as [c|] eqn:Hc; [|done].
  exists (Market_node g v c). apply Market_new_lookup. exists (rev q), c. by rewrite rev_involutive, app_nil_r.
Qed.

(** ** Empty accounts *)
Definition sane_market (m : Market) : bool :=
  forallb sane_limits (roots (import_max_available m)) && forallb sane_limits (roots (export_max_available m)).
Definition sane_store (h : gmap ptr Market) : bool := forallb (λ x, sane_market x.2) (map_to_list h).

Lemma apply_setpoints_length imp exp sps freq :
  length (apply_setpoints imp exp sps freq).1 = length imp ∧ length (apply_setpoints imp exp sps freq).2 = length exp.
Proof.
  unfold apply_setpoints. destruct (negb _); [done|]. destruct (negb _); [done|]. revert imp exp.
  induction sps as [|s sps IH]; intros [|a imp] [|b exp]; try done. cbn [apply_setpoints_loop]. destruct (apply_setpoint _ _ _ _) as [la lb].
  destruct (IH imp exp). destruct (apply_setpoints_loop freq sps imp exp). cbn in *. lia.
Qed.

Lemma Market_node_length g v r :
  length (import_max_available (Market_node g v r)) = schedule_length g ∧
  length (export_max_available (Market_node g v r)) = schedule_length g ∧
  energy_flow_request (Market_node g v r) = r ∧ sold_root (Market_node g v r) = empty_schedule_res g.
Proof.
  unfold Market_node. set (imp := match schedule_import r with [] => _ | _ => _ end). set (exp := match schedule_export r with [] => _ | _ => _ end).
  set (sps := match schedule_setpoints r with [] => _ | _ => _ end). set (freq := match usage_root_frequency r with Some _ => _ | _ => _ end).
  assert (length imp = schedule_length g) as Hi.
  { unfold imp, zero_schedule_req, get_max_available_energy, empty_schedule_req. destruct (schedule_import r); by rewrite !length_map. }
  assert (length exp = schedule_length g) as He.
  { unfold exp, zero_schedule_req, get_max_available_energy, empty_schedule_req. destruct (schedule_export r); by rewrite !length_map. }
  destruct (apply_setpoints_length imp exp sps freq). destruct (apply_setpoints imp exp sps freq). cbn in *. split_and!; try done; lia.
Qed.

Lemma new_account imp exp : sane_limits imp = true → sane_limits exp = true → account 0 imp exp LimitsRes_new.
Proof.
  intros [Hi _]%sane_limits_spec [He _]%sane_limits_spec. constructor; [by intros []|..]; intros q y Hy.
  - specialize (Hi q y Hy). apply sane_spec in Hi as [_ Hg]. replace (amount (res q LimitsRes_new)) with 0 by (by destruct q). amounts. lia.
  - specialize (He q y Hy). apply sane_spec in He as [_ Hg]. replace (amount (res q LimitsRes_new)) with 0 by (by destruct q). amounts. lia.
Qed.

Lemma new_store_ok g v r : sane_store (Market_new g v r []) = true → store_ok (schedule_length g) 0 (Market_new g v r []).
Proof.
  intros Hs q m Hm. assert (sane_market m = true) as [H1 H2]%andb_true_iff.
  { unfold sane_store in Hs. rewrite forallb_forall in Hs. apply (Hs (q, m)), list_elem_of_In, elem_of_map_to_list, Hm. }
  apply Market_new_lookup in Hm as (path & r' & _ & _ & ->). destruct (Market_node_length g v r') as (L1 & L2 & _ & E).
  assert (∀ l : ScheduleReq, forallb sane_limits (roots l) = true → Forall (λ l, sane_limits l = true) (roots l)) as Hf.
  { intros l Hl. rewrite forallb_forall in Hl. apply Forall_forall. intros x Hx. by apply Hl, list_elem_of_In. }
  apply Hf in H1, H2. constructor; try done.
  - rewrite E. unfold empty_schedule_res. by rewrite length_map.
  - intros j a b s Ha Hb Hsl. rewrite E in Hsl. unfold empty_schedule_res in Hsl. apply list_lookup_fmap_Some in Hsl as (t & -> & _).
    apply new_account; [eapply Forall_lookup_1 in H1; [exact H1|]|eapply Forall_lookup_1 in H2; [exact H2|]]; by rewrite list_lookup_fmap, ?Ha, ?Hb.
Qed.

End EnergyTree.
