(* ===== verification/EnergyTotals.v ===== *)
(** * Totals of the EVSEs

    The account of a node is what the EVSEs below it have bought, but for rounding: the
    account of an EVSE and those of the nodes above it add up the same trades. *)

From Stdlib Require Import String Floats.SpecFloat.
From S2P Require Import Prelude Float32 FloatRound EnergyMarket EnergyBroker EnergyManager EnergyAmounts EnergyTrades EnergyFacts EnergyRuns EnergyTree.

Module EnergyTotals.

Import Float32 FloatRound Energy Broker Manager Amounts Trades EnergyFacts EnergyRuns EnergyTree.
#[local] Open Scope Z_scope.

(** ** EVSEs of a request *)
Fixpoint evses_are_leaves (r : EnergyFlowRequest) : bool :=
  if bool_decide (node_type r = Evse) then bool_decide (length (children r) = 0%nat) else forallb evses_are_leaves (children r).

Lemma evses_are_leaves_unfold r :
  evses_are_leaves r = if bool_decide (node_type r = Evse) then bool_decide (length (children r) = 0%nat) else forallb evses_are_leaves (children r).
Proof. by destruct r. Qed.

Lemma leaves_descend path : ∀ r c, evses_are_leaves r = true → descend r path = Some c → evses_are_leaves c = true.
Proof.
  induction path as [|i path IH]; intros r c Hr Hd; cbn in Hd; [by injection Hd as <-|].
  destruct (children r !! i) as [d|] eqn:Hc; [|done]. apply (IH d); [|done]. rewrite evses_are_leaves_unfold in Hr.
  destruct (bool_decide (node_type r = Evse)).
  - apply bool_decide_eq_true in Hr. apply lookup_lt_Some in Hc. lia.
  - rewrite forallb_forall in Hr. apply Hr, list_elem_of_In. by eapply list_elem_of_lookup_2.
Qed.

(** No EVSE is above another one. *)
Lemma evses_apart r p p' :
  evses_are_leaves r = true → p ∈ get_list_of_evses r [] → p' ∈ get_list_of_evses r [] → p `suffix_of` p' → p = p'.
Proof.
  intros Hl (path & c & -> & Hd & Hc)%evses_at (path' & c' & -> & Hd' & _)%evses_at [front E]. rewrite !app_nil_r in *.
  assert (path' = path ++ rev front)%list as ->.
  { rewrite <- (rev_involutive path'), E, rev_app_distr, rev_involutive. done. }
  rewrite descend_app, Hd in Hd'. destruct (rev front) as [|i l]; [by rewrite app_nil_r|].
  pose proof (leaves_descend path r c Hl Hd) as Hlc. rewrite evses_are_leaves_unfold, Hc, bool_decide_eq_true_2 in Hlc by done.
  apply bool_decide_eq_true in Hlc. cbn in Hd'. destruct (children c) as [|d ds]; [done|]. done.
Qed.

Lemma evses_NoDup r : ∀ this, NoDup (get_list_of_evses r this).
Proof.
  induction r as [r IH] using request_ind. intros this. rewrite get_list_of_evses_unfold.
  assert (∀ l i, Forall (λ c, ∀ this, NoDup (get_list_of_evses c this)) l → NoDup (walk_children this i l) ∧
    ∀ q, q ∈ walk_children this i l → ∃ (path : list nat) j, q = (rev path ++ j :: this)%list ∧ (i <= j)%nat) as Hw.
  { clear IH. induction l as [|c l IHl]; intros i Hl; [split; [constructor|]; by intros q ?%elem_of_nil|].
    apply Forall_cons in Hl as [Hc Hl]. destruct (IHl (S i) Hl) as [N1 N2]. split.
    - apply NoDup_app. split_and!; [done| |done]. intros q (path & r' & -> & _)%evses_at (path' & j & E & Hj)%N2.
      apply below_child in E. lia.
    - intros q [(path & r' & -> & _)%evses_at|(path & j & -> & Hj)%N2]%elem_of_app; [by exists path, i|]. exists path, j. split; [done|lia]. }
  destruct (Hw (children r) O IH) as [N1 N2]. destruct (bool_decide _); [|done]. constructor; [|done].
  intros (path & j & E & _)%N2. by apply symmetry, not_below in E.
Qed.

(** ** Amounts sold *)
Definition sold_at (h : gmap ptr Market) (q : quantity) (j : nat) (p : ptr) : Z :=
  match h !! p with
  | Some m => match sold_root m !! j with Some s => amount (res q (res_limits_to_root s)) | None => 0 end
  | None => 0
  end.
Fixpoint sum {A} (f : A → Z) (l : list A) : Z := match l with [] => 0 | x :: l' => f x + sum f l' end.
Definition evses_below (p : ptr) (evses : list ptr) : list ptr := filter (λ e, p `suffix_of` e) evses.

Lemma sum_ext {A} (f f' : A → Z) l : (∀ x, x ∈ l → f x = f' x) → sum f l = sum f' l.
Proof.
  intros H. induction l as [|x l IH]; cbn; [done|]. rewrite (H x) by (by left). f_equal. apply IH. intros y Hy. apply H. by right.
Qed.
Lemma sum_nonneg {A} (f : A → Z) l : (∀ x, x ∈ l → 0 <= f x) → 0 <= sum f l.
Proof.
  intros H. induction l as [|x l IH]; cbn; [done|]. pose proof (H x ltac:(by left)).
  assert (0 <= sum f l) by (apply IH; intros y Hy; apply H; by right). lia.
Qed.
Lemma sum_update {A} (f f' : A → Z) x l :
  NoDup l → x ∈ l → (∀ y, y ∈ l → y ≠ x → f' y = f y) → sum f' l = sum f l + (f' x - f x).
Proof.
  intros Hn Hx H. induction l as [|y l IH]; [by apply elem_of_nil in Hx|]. apply NoDup_cons in Hn as [Hy Hn]. cbn.
  apply elem_of_cons in Hx as [<-|Hx].
  - assert (sum f' l = sum f l) as E.
    { apply sum_ext. intros z Hz. apply H; [by right|]. by intros ->. }
    lia.
  - rewrite (H y) by (by left || by intros ->). specialize (IH Hn Hx). rewrite IH; [lia|]. intros z Hz. apply H. by right.
Qed.

(** The account of [p] covers the EVSEs below it, after [t] turns. *)
Record covers (t : Z) (h : gmap ptr Market) (evses : list ptr) (q : quantity) (j : nat) (p : ptr) : Prop := {
  covers_node : 0 <= sold_at h q j p;
  covers_evses e : e ∈ evses_below p evses → 0 <= sold_at h q j e;
  covers_total : (eps + 1 - 2 * t) * sum (sold_at h q j) (evses_below p evses) <= (eps + 1) * sold_at h q j p;
}.

(** Adding a purchase [x] with one rounding. *)
Definition added (x old new : Z) : Prop :=
  old <= new ∧ x <= new ∧ eps * new <= (eps + 1) * (old + x) ∧ (eps - 1) * (old + x) <= eps * new.

Lemma covers_step t S A S' A' x :
  0 <= t → 2 * t + 2 <= eps → 0 <= S → 0 <= A → 0 <= x → 0 <= S' →
  (eps + 1 - 2 * t) * S <= (eps + 1) * A → eps * S' <= (eps + 1) * (S + x) → (eps - 1) * (A + x) <= eps * A' →
  (eps + 1 - 2 * (t + 1)) * S' <= (eps + 1) * A'.
Proof.
  intros Ht He HS HA Hx HS' H1 H2 H3.
  assert (0 < eps) by done. apply (Z.mul_le_mono_pos_l _ _ eps); [done|].
  assert ((eps + 1) * ((eps - 1 - 2 * t) * S) <= (eps - 1) * ((eps + 1 - 2 * t) * S)) as H4 by nia.
  assert ((eps + 1) * ((eps - 1 - 2 * t) * S) <= (eps + 1) * ((eps - 1) * A)) as H5 by nia.
  assert ((eps - 1 - 2 * t) * S <= (eps - 1) * A) as H6 by (apply (Z.mul_le_mono_pos_l _ _ (eps + 1)); lia).
  assert ((eps - 1 - 2 * t) * x <= (eps - 1) * x) as H7 by nia.
  transitivity ((eps + 1 - 2 * (t + 1)) * ((eps + 1) * (S + x))); [nia|].
  transitivity ((eps + 1) * ((eps - 1) * (A + x))); [nia|]. nia.
Qed.

(** ** Turns *)

(** The node exports nothing. *)
Definition no_export (m : Market) (q : quantity) (j : nat) : Prop :=
  ∃ b y, export_max_available m !! j = Some b ∧ lim q (limits_to_root b) = Some y ∧ grains (value y) = 0.
(** The EVSE cannot export: it or a node above it exports nothing. *)
Definition imports_only (h : gmap ptr Market) (q : quantity) (j : nat) (e : ptr) : Prop :=
  ∃ p m, p `suffix_of` e ∧ h !! p = Some m ∧ no_export m q j.

Lemma imports_only_kept h h' q j e : kept h h' → imports_only h q j e → imports_only h' q j e.
Proof.
  intros Hk (p & m & Hp & Hm & Hno). specialize (Hk p). rewrite Hm in Hk. destruct (h' !! p) as [m'|] eqn:Hm'; [|done].
  injection Hk as _ _ E. exists p, m'. split_and!; try done. unfold no_export. by rewrite <- E.
Qed.

Section turns.
Context (g : globals_t) (bc : BrokerConfig) (v : float) (n : nat) (Hg : schedule_length g = n) (evses : list ptr) (q : quantity) (j : nat) (Hj : (j < n)%nat).

Lemma amount_added k imp exp sold x :
  0 <= k < 2 ^ 24 - 1 → account k imp exp sold → 0 <= amount (res q sold) →
  (∀ y, x = Some y → sound (value y) = true ∧ 0 <= grains (value y) <= max_amount) →
  added (amount x) (amount (res q sold)) (amount (add_sold_number (res q sold) x)).
Proof.
  intros Hk Ha H0 Hx. unfold added. destruct x as [x|]; cbn [add_sold_number].
  2: { change (amount None) with 0. unfold eps in *. lia. }
  destruct (Hx x eq_refl) as [Sx Gx]. change (amount (Some x)) with (grains (value x)).
  set (s := match res q sold with Some y => value y | None => zero end).
  assert (sound s = true ∧ Z.abs (grains s) <= k * max_amount ∧ grains s = amount (res q sold)) as (Ss & Bs & Gs).
  { unfold s, amount. destruct (res q sold) as [y|] eqn:Ey; [|split_and!; try done; cbn; amounts; nia].
    destruct (account_sound _ _ _ _ Ha q y Ey). by split_and!. }
  destruct (account_size k s (value x) Hk Ss Sx Bs ltac:(lia)) as [[_ Hc _ Hge] _].
  unfold number. cbn [amount value]. rewrite Gs in *.
  pose proof (Hge s Ss) as H1. pose proof (Hge (value x) Sx) as H2. unfold eps in *. lia.
Qed.

Section turn.
Context (k : Z) (b b' : Broker) (t : bool) (o o' : optimization) (tr : list LimitsRes).
Context (Hk : 0 <= k < 2 ^ 24 - 1) (Hst : store_ok n k (markets o)) (Hb : chain (markets o) (local_market b)).
Context (Hturn : turn g bc v n b b' t o o' tr).

(** What was bought in the slot. *)
Definition purchase : option NumberWithSource := match tr !! j with Some x => res q x | None => None end.

Lemma sold_at_turn p :
  p `suffix_of` local_market b → 0 <= sold_at (markets o) q j p →
  (∀ y, purchase = Some y → sound (value y) = true ∧ 0 <= grains (value y) <= max_amount) →
  added (amount purchase) (sold_at (markets o) q j p) (sold_at (markets o') q j p).
Proof.
  intros Hp H0 Hx. destruct (Hb p Hp) as [m Hm]. destruct (Hst p m Hm) as [N1 N2 N3 N4 N5 N6].
  destruct (lookup_lt_is_Some_2 (sold_root m) j ltac:(lia)) as [s Hs].
  destruct (lookup_lt_is_Some_2 (import_max_available m) j ltac:(lia)) as [ai Hai].
  destruct (lookup_lt_is_Some_2 (export_max_available m) j ltac:(lia)) as [ae Hae].
  pose proof (turn_length _ _ _ _ _ _ _ _ _ _ Hturn) as Hl. destruct (lookup_lt_is_Some_2 tr j ltac:(lia)) as [x Hxj].
  assert (length (empty_schedule_res g) = n) as Hle by (unfold empty_schedule_res; by rewrite length_map).
  destruct (lookup_lt_is_Some_2 (empty_schedule_res g) j ltac:(lia)) as [e He].
  unfold purchase in *. rewrite Hxj in *. unfold sold_at in *. rewrite (turn_markets _ _ _ _ _ _ _ _ _ _ Hturn), trade_lookup, decide_True, Hm in * by done.
  cbn [fmap option_fmap option_map]. unfold add_sold, schedule_add. cbn [sold_root].
  rewrite length_zip_with, N3, Hle, Hl, Nat.min_id, Nat.eqb_refl. cbn [negb].
  rewrite Hs in *. rewrite lookup_zip_with, Hs. cbn. rewrite lookup_zip_with, He. cbn. rewrite Hxj. cbn [res_limits_to_root with_res mbind option_bind].
  assert (res q (add_limits (res_limits_to_root s) x) = add_sold_number (res q (res_limits_to_root s)) (res q x)) as -> by (by destruct q).
  by eapply amount_added; [exact Hk|eapply N6|..].
Qed.

Lemma sold_at_kept p : ¬ p `suffix_of` local_market b → sold_at (markets o') q j p = sold_at (markets o) q j p.
Proof. intros Hp. unfold sold_at. by rewrite (turn_markets _ _ _ _ _ _ _ _ _ _ Hturn), trade_lookup, decide_False. Qed.

(** Where nothing is exported, no export is offered, and trades are imports. *)
Lemma no_export_offer p m e :
  p `suffix_of` local_market b → markets o !! p = Some m → no_export m q j →
  export_offer (create_offer_for_local_market g (markets o) (local_market b)) !! j = Some e →
  ∃ w, lim q (limits_to_root e) = Some w ∧ grains (value w) <= 0.
Proof.
  intros Hp Hm (ae & y0 & Hae & Hy0 & Hz) He.
  destruct (create_offer_ok n k (markets o) Hk Hst g Hg _ Hb) as [_ _ _ _ _ O6].
  destruct (Hst p m Hm) as [N1 N2 N3 N4 N5 N6].
  destruct (lookup_lt_is_Some_2 (sold_root m) j ltac:(lia)) as [s Hs].
  destruct (lookup_lt_is_Some_2 (import_max_available m) j ltac:(lia)) as [ai Hai].
  assert (sane_limits (limits_to_root ai) = true) as Si.
  { eapply Forall_lookup_1 in N4; [exact N4|]. by rewrite list_lookup_fmap, Hai. }
  assert (sane_limits (limits_to_root ae) = true) as Se.
  { eapply Forall_lookup_1 in N5; [exact N5|]. by rewrite list_lookup_fmap, Hae. }
  destruct (available_limits k Hk _ _ Si Se _ (N6 j ai ae s Hai Hae Hs) true ae s eq_refl eq_refl) as [P1 _].
  destruct (P1 q y0 Hy0) as (z & Hzl & Hc).
  destruct (O6 p m j e (available_entry true ae s) Hp Hm He) with (q := q) (y := z) as (w & Hw & Hle); [|done|].
  { unfold get_available_energy_export, get_available_energy. rewrite lookup_zip_with, Hae. cbn. by rewrite Hs. }
  exists w. split; [done|]. transitivity (grains (value z)); [done|].
  apply (closest_le _ _ Hc zero); [done|]. rewrite Hz. change (grains zero) with 0. lia.
Qed.

Lemma purchase_import :
  imports_only (markets o) q j (local_market b) →
  ∀ y, purchase = Some y → sound (value y) = true ∧ 0 <= grains (value y) <= max_amount.
Proof.
  intros (p & m & Hp & Hm & Hno) y Hy. unfold purchase in Hy. destruct (tr !! j) as [x|] eqn:Hx; [|done].
  destruct (create_offer_ok n k (markets o) Hk Hst g Hg _ Hb) as [O1 O2 _ _ _ _].
  destruct (lookup_lt_is_Some_2 (import_offer (create_offer_for_local_market g (markets o) (local_market b))) j ltac:(lia)) as [a Ha].
  destruct (lookup_lt_is_Some_2 (export_offer (create_offer_for_local_market g (markets o) (local_market b))) j ltac:(lia)) as [e He].
  pose proof (turn_bought _ _ _ _ _ _ _ _ _ _ Hturn j a e x Ha He Hx q) as Hbt. rewrite Hy in Hbt.
  destruct (no_export_offer p m e Hp Hm Hno He) as (w & Hw & Hw0).
  destruct Hbt as [(S1 & B1 & [E|[P _]])|(S1 & B1 & [E|[P (w' & Hw' & Pw & _)]])]; cbn [directed] in *; try (split; [done|]; amounts; lia).
  assert (w' = w) as -> by congruence. lia.
Qed.

Lemma covers_turn p :
  NoDup evses → (∀ e e', e ∈ evses → e' ∈ evses → e `suffix_of` e' → e = e') → local_market b ∈ evses →
  (∀ e, e ∈ evses_below p evses → imports_only (markets o) q j e) → 2 * k + 2 <= eps →
  covers k (markets o) evses q j p → covers (k + 1) (markets o') evses q j p.
Proof.
  intros Hn Hap Hin Hno He [C1 C2 C3]. destruct (decide (p `suffix_of` local_market b)) as [Hp|Hp].
  - assert (local_market b ∈ evses_below p evses) as Hinb by (by apply list_elem_of_filter).
    pose proof (purchase_import (Hno _ Hinb)) as Hx. set (x := amount purchase).
    assert (0 <= x) as Hx0 by (unfold x, amount; destruct purchase as [y|]; [apply (Hx y)|]; done).
    destruct (sold_at_turn p Hp C1 Hx) as (A0 & _ & A2 & A3).
    destruct (sold_at_turn (local_market b) ltac:(done) (C2 _ Hinb) Hx) as (E0 & _ & E2 & E3). fold x in A2, A3, E2, E3.
    assert (∀ e, e ∈ evses_below p evses → e ≠ local_market b → sold_at (markets o') q j e = sold_at (markets o) q j e) as Hoth.
    { intros e [_ Hee]%list_elem_of_filter Hne. apply sold_at_kept. intros Hs. by apply Hne, Hap. }
    assert (NoDup (evses_below p evses)) as Hnb by (by apply NoDup_filter).
    pose proof (sum_update _ _ _ _ Hnb Hinb Hoth) as Hsum.
    assert (∀ e, e ∈ evses_below p evses → 0 <= sold_at (markets o') q j e) as Hpos.
    { intros e Hee. destruct (decide (e = local_market b)) as [->|Hne]; [specialize (C2 _ Hinb); lia|]. rewrite Hoth by done. by apply C2. }
    constructor; [lia|done|]. apply (covers_step k (sum (sold_at (markets o) q j) (evses_below p evses)) (sold_at (markets o) q j p) _ _ x);
      try done; try lia; [by apply sum_nonneg|by apply sum_nonneg|].
    assert (sold_at (markets o) q j (local_market b) <= sum (sold_at (markets o) q j) (evses_below p evses)) as Hle.
    { clear -C2 Hinb. induction (evses_below p evses) as [|e l IH]; [by apply elem_of_nil in Hinb|]. cbn.
      pose proof (C2 e ltac:(by left)). assert (0 <= sum (sold_at (markets o) q j) l) by (apply sum_nonneg; intros; apply C2; by right).
      apply elem_of_cons in Hinb as [->|Hin]; [lia|]. specialize (IH ltac:(intros; apply C2; by right) Hin). lia. }
    rewrite Hsum. unfold eps in *. lia.
  - assert (∀ e, e ∈ evses_below p evses → sold_at (markets o') q j e = sold_at (markets o) q j e) as Hoth.
    { intros e [Hpe _]%list_elem_of_filter. apply sold_at_kept. intros Hs. apply Hp. by transitivity e. }
    constructor; rewrite ?(sold_at_kept p Hp); [done|intros e Hee; rewrite Hoth by done; by apply C2|].
    rewrite (sum_ext _ (sold_at (markets o) q j)) by done. assert (0 <= sum (sold_at (markets o) q j) (evses_below p evses)) by (by apply sum_nonneg). lia.
Qed.

End turn.

End turns.

End EnergyTotals.
