(* ===== verification/EnergyOptimizer.v ===== *)
(** * Guarantees of the optimizer

    Runs of [optimize] and [run_optimizer]: limits are respected at every node, what is
    published for the EVSEs below a node adds up to its account, and trading stops only
    when nothing is left to buy, or after the last round. *)

From Stdlib Require Import String Floats.SpecFloat.
From S2P Require Import Prelude Float32 FloatRound EnergyMarket EnergyBroker EnergyManager EnergyAmounts EnergyTrades EnergyFacts EnergyRuns EnergyTree EnergyTotals.

Module EnergyOptimizer.

Import Float32 FloatRound Energy Broker Manager Amounts Trades EnergyFacts EnergyRuns EnergyTree EnergyTotals.
#[local] Open Scope Z_scope.

(** ** Runs *)
Definition sane_slice (x : float) : bool := sound x && (0 <? grains x).
Lemma sane_slice_spec x : sane_slice x = true ↔ sound x = true ∧ 0 < grains x.
Proof. unfold sane_slice. by rewrite andb_true_iff, Z.ltb_lt. Qed.

(** The time slots of a run. *)
Definition run_slots (leap : Z) (request : EnergyFlowRequest) (start : Z) (i : EnergyManagerImpl) : globals_t :=
  let c := config i in
  init start (schedule_interval_duration c) (schedule_total_duration c) leap (to_float (slice_ampere c)) (to_float (slice_watt c)) request.
(** The voltage of a run. *)
Definition run_voltage (i : EnergyManagerImpl) : float := to_float (nominal_ac_voltage (config i)).
(** The markets before the first trade. *)
Definition first_markets (leap : Z) (request : EnergyFlowRequest) (start : Z) (i : EnergyManagerImpl) : gmap ptr Market :=
  Market_new (run_slots leap request start i) (run_voltage i) request [].

(** Configuration and limits are numbers in range, for at most 10000 EVSEs. *)
Definition sane_run (leap : Z) (request : EnergyFlowRequest) (start : Z) (i : EnergyManagerImpl) : bool :=
  sane_voltage (run_voltage i) && sane_slice (to_float (slice_ampere (config i))) && sane_slice (to_float (slice_watt (config i))) &&
  sane_store (first_markets leap request start i) && (Z.of_nat (length (get_list_of_evses request [])) <=? 10000).

Section run.
Context (leap : Z) (request : EnergyFlowRequest) (start : Z) (readings : list Z) (i : EnergyManagerImpl).
Notation run := (optimize leap request start readings i).
Notation g := (run_slots leap request start i).
Notation voltage := (run_voltage i).
Notation evses := (get_list_of_evses request []).

Lemma run_slots_run : run_globals run = g ∧ run_evses run = evses.
Proof. unfold optimize. destruct (trading_rounds _ _ _ _ _ _) as [[? ?] ?]. done. Qed.

Lemma prepare_contexts_markets h l o : markets (prepare_contexts g h l o) = markets o.
Proof.
  revert o. induction l as [|m l IH]; intros o; cbn; [done|]. unfold prepare_contexts in IH. rewrite IH.
  destruct (markets o !! m); [|done]. unfold prepare_context. destruct (context_of _ _ _) as [[? ?] ?].
  destruct (session_over _); [|done]. by destruct (next_reading _).
Qed.

Lemma brokers_new l : (∀ p, p ∈ l → p ∈ evses) → Forall (broker_ok (schedule_length g) (first_markets leap request start i)) (map (Broker_new g) l).
Proof.
  intros Hl. apply Forall_forall. intros b Hb. apply list_elem_of_fmap in Hb as (p & -> & Hp). constructor; cbn.
  - eapply Market_new_chain, evses_at, Hl, Hp.
  - by rewrite length_replicate.
  - apply Forall_replicate. unfold phases_ok. cbn. lia.
Qed.

(** What a run keeps, for any invariant [I] of the turns of the EVSEs' brokers. *)
Lemma optimize_ok (I : Z → gmap ptr Market → Prop) :
  sane_run leap request start i = true →
  (∀ k b b' t o o' tr, 0 <= k → k + 1 <= 100 * Z.of_nat (length evses) → store_ok (schedule_length g) k (markets o) →
     broker_ok (schedule_length g) (markets o) b → local_market b ∈ evses →
     turn g (to_broker_fast_charging_config (config i)) voltage (schedule_length g) b b' t o o' tr → I k (markets o) → I (k + 1) (markets o')) →
  I 0 (first_markets leap request start i) →
  ∃ k, 0 <= k <= 100 * Z.of_nat (length evses) ∧ store_ok (schedule_length g) k (markets (run_end run)) ∧ I k (markets (run_end run)) ∧
       kept (first_markets leap request start i) (markets (run_end run)) ∧ map local_market (run_brokers run) = evses ∧
       ((0 < run_rounds_left run)%nat → Forall (settled g voltage (markets (run_end run))) (run_brokers run)).
Proof.
  intros Hs HI HI0. unfold sane_run in Hs. rewrite !andb_true_iff, !sane_slice_spec, Z.leb_le in Hs.
  destruct Hs as [[[[Hv Ha] Hw] Hst] Hn]. unfold optimize.
  pose proof (trading_rounds_ok g (to_broker_fast_charging_config (config i)) voltage Hv Ha Hw (schedule_length g) eq_refl
    (λ k h, k <= 100 * Z.of_nat (length evses) → I k h) (λ p, p ∈ evses)) as H.
  assert (∀ k b b' t o o' tr, 0 <= k < 2 ^ 24 - 1 → store_ok (schedule_length g) k (markets o) →
    broker_ok (schedule_length g) (markets o) b → local_market b ∈ evses → turn g (to_broker_fast_charging_config (config i)) voltage (schedule_length g) b b' t o o' tr →
    (k <= 100 * Z.of_nat (length evses) → I k (markets o)) → k + 1 <= 100 * Z.of_nat (length evses) → I (k + 1) (markets o')) as HI'.
  { intros k b b' t o o' tr Hk Hst' Hb Hin Ht Hi Hle. eapply HI; try done; [lia|]. apply Hi. lia. }
  specialize (H HI' max_number_of_trading_rounds 0 (map (Broker_new g) evses)).
  set (o1 := prepare_contexts _ _ _ _). specialize (H o1).
  assert (markets o1 = first_markets leap request start i) as E1 by apply prepare_contexts_markets. rewrite E1 in H.
  fold (run_slots leap request start i).
  destruct (trading_rounds _ _ _ _ _ _) as [[remaining bs] o2].
  assert (map local_market (map (Broker_new g) evses) = evses) as Em by (rewrite map_map; apply map_id).
  rewrite length_map, Em in H. unfold max_number_of_trading_rounds in H.
  destruct H as ((k & Hk & S & HIk) & K & M & N); [lia|lia|by apply new_store_ok|by apply brokers_new|by apply Forall_forall|done|].
  exists k. cbn [run_end run_brokers run_rounds_left]. split_and!; try done; try lia. apply HIk. lia.
Qed.

Lemma first_node path r' :
  descend request path = Some r' → first_markets leap request start i !! rev path = Some (Market_node g voltage r').
Proof. intros Hd. apply Market_new_lookup. exists path, r'. by rewrite app_nil_r. Qed.

Lemma kept_node h path r' :
  kept (first_markets leap request start i) h → descend request path = Some r' →
  ∃ m, h !! rev path = Some m ∧ fixed_part m = fixed_part (Market_node g voltage r').
Proof.
  intros Hk Hd. specialize (Hk (rev path)). rewrite (first_node path r' Hd) in Hk.
  destruct (h !! rev path) as [m|]; [|done]. exists m. split; [done|]. symmetry. by apply (inj Some).
Qed.

End run.

(** ** Limits *)

(** C8: The net amount traded through a node ([sold_root]) stays within its limits. For every node of
    the request, every time slot and both current and power: what the EVSEs below the
    node bought minus what they sold is at most its import limit and at least minus its
    export limit, within the rounding of single precision (one part in 2^20). What single
    EVSEs buy from each other below the node does not pass through it. Limits and
    configuration are numbers in range ([sane_run]); nothing is assumed of the clock, the
    state of the phase switching or of the shape of the tree. *)
Theorem limits_respected leap request start readings i path r' :
  sane_run leap request start i = true → descend request path = Some r' →
  let node := Market_node (run_slots leap request start i) (run_voltage i) r' in
  ∃ m, markets (run_end (optimize leap request start readings i)) !! rev path = Some m ∧ energy_flow_request m = r' ∧
  length (sold_root m) = schedule_length (run_slots leap request start i) ∧
  ∀ j imp exp s q,
    import_max_available node !! j = Some imp → export_max_available node !! j = Some exp → sold_root m !! j = Some s →
    (∀ y, lim q (limits_to_root imp) = Some y → within (amount (res q (res_limits_to_root s))) (grains (value y))) ∧
    (∀ y, lim q (limits_to_root exp) = Some y → within (- amount (res q (res_limits_to_root s))) (grains (value y))).
Proof.
  intros Hs Hd. destruct (optimize_ok leap request start readings i (λ _ _, True) Hs) as (k & _ & Hst & _ & Hk & _); [done|done|].
  destruct (kept_node leap request start i _ path r' Hk Hd) as (m & Hm & [= E1 E2 E3]). cbv zeta. exists m.
  destruct (Hst _ _ Hm) as [_ _ N3 _ _ N6].
  split; [done|]. split; [rewrite E1; apply (Market_node_length (run_slots leap request start i))|]. split; [done|].
  intros j imp exp s q Hi He Hsl. rewrite <- E2 in Hi. rewrite <- E3 in He. 
  destruct (N6 j imp exp s Hi He Hsl) as [_ A1 A2]. split; [apply A1|apply A2].
Qed.

(** C27: Trading is exhausted.  If the optimizer ends before its last round, no broker could
    have bought anything more: in every time slot, what the nodes above the EVSE have left
    is spent, or is less than the minimal current the EVSE asks for. *)
Theorem trading_exhausts leap request start readings i :
  sane_run leap request start i = true →
  let r := optimize leap request start readings i in
  (0 < run_rounds_left r)%nat →
  map local_market (run_brokers r) = get_list_of_evses request [] ∧
  ∀ b j imp exp s, b ∈ run_brokers r →
    let offer := create_offer_for_local_market (run_globals r) (markets (run_end r)) (local_market b) in
    import_offer offer !! j = Some imp → export_offer offer !! j = Some exp → slots b !! j = Some s →
    no_deal (run_voltage i) s (limits_to_root imp) (limits_to_root exp).
Proof.
  intros Hs. cbv zeta. intros Hleft. destruct (optimize_ok leap request start readings i (λ _ _, True) Hs) as (k & _ & _ & _ & _ & M & N); [done|done|].
  split; [done|]. intros b j imp exp s Hb. rewrite (proj1 (run_slots_run leap request start readings i)).
  specialize (N Hleft). rewrite Forall_forall in N. by apply N.
Qed.

(** ** Results *)

(** The amount an EVSE may draw in a slot. *)
Definition enforced_at (q : quantity) (j : nat) (e : EnforcedLimits) : Z :=
  match enforced_schedule e !! j with Some s => amount (res q (res_limits_to_root s)) | None => 0 end.

(** The schedule of a node has the time slots of the run. *)
Definition slotted (g : globals_t) (h : gmap ptr Market) : Prop :=
  ∀ p m, h !! p = Some m → map res_timestamp (sold_root m) = map to_rfc3339 (timestamps g).

Lemma slotted_turn g bc v n k b b' t o o' tr :
  store_ok n k (markets o) → turn g bc v n b b' t o o' tr → slotted g (markets o) → slotted g (markets o').
Proof.
  intros Hst Ht Hs p m Hm. rewrite (turn_markets _ _ _ _ _ _ _ _ _ _ Ht), trade_lookup in Hm. case_decide; [|by apply (Hs p)].
  destruct (markets o !! p) as [m0|] eqn:Hm0; [|done]. injection Hm as <-. rewrite <- (Hs p m0 Hm0).
  unfold add_sold, schedule_add. cbn [sold_root]. destruct (Nat.eqb_spec (length (sold_root m0)) (length (zip_with (λ e l, with_res l e) (empty_schedule_res g) tr))) as [E|E]; [|done].
  cbn [negb]. revert E. generalize (zip_with (λ e l, with_res l e) (empty_schedule_res g) tr). generalize (sold_root m0).
  intros l. induction l as [|x l IH]; intros [|y l'] E; try done. cbn. f_equal. apply IH. by injection E.
Qed.

Lemma slotted_first leap request start i : slotted (run_slots leap request start i) (first_markets leap request start i).
Proof.
  intros p m (path & r' & _ & _ & ->)%Market_new_lookup. rewrite (proj2 (proj2 (proj2 (Market_node_length _ _ _)))).
  unfold empty_schedule_res. by rewrite map_map.
Qed.

(** *** The time slots are in order *)
Lemma unique_elem x l : x ∈ unique l → x ∈ l.
Proof.
  induction l as [|a [|b l] IH]; [done|done|]. change (unique (a :: b :: l)) with (if a =? b then unique (b :: l) else a :: unique (b :: l)).
  destruct (a =? b); intros H; [right; by apply IH|]. apply elem_of_cons in H as [->|H]; [by left|right; by apply IH].
Qed.
Lemma unique_sorted l : StronglySorted Z.le l → StronglySorted Z.lt (unique l).
Proof.
  induction l as [|a [|b l] IH]; intros H; [constructor|by repeat constructor|].
  change (unique (a :: b :: l)) with (if a =? b then unique (b :: l) else a :: unique (b :: l)).
  apply StronglySorted_inv in H as [H Ha]. specialize (IH H). destruct (Z.eqb_spec a b) as [|Hne]; [done|]. constructor; [done|].
  apply Forall_forall. intros x Hx%unique_elem. rewrite Forall_forall in Ha. apply StronglySorted_inv in H as [_ Hb]. rewrite Forall_forall in Hb.
  pose proof (Ha b ltac:(by left)). apply elem_of_cons in Hx as [->|Hx]; [lia|]. specialize (Hb x Hx). lia.
Qed.
Lemma run_slots_sorted leap request start i : StronglySorted Z.lt (timestamps (run_slots leap request start i)).
Proof. apply unique_sorted, Sorted_StronglySorted; [intros x y z; lia|]. apply Sorted_merge_sort. intros x y. lia. Qed.

Lemma to_rfc3339_mono a b : a <= b → to_rfc3339 a <= to_rfc3339 b.
Proof. intros H. unfold to_rfc3339. pose proof (Z.quot_le_mono a b 1000000 ltac:(lia) H). lia. Qed.

(** The entry [select_schedule] chooses. *)
Definition in_force (start : Z) (schedule : ScheduleRes) (l : LimitsRes) : Prop :=
  ∃ j s, schedule !! j = Some s ∧ l = res_limits_to_root s ∧
         ∀ j' s', schedule !! j' = Some s' → if decide (j < j')%nat then start < res_timestamp s' else j' = O ∨ res_timestamp s' <= start.

Lemma select_schedule_spec start : ∀ l before sel,
  StronglySorted Z.le (map res_timestamp (before ++ l)%list) →
  (before = [] ∧ head l = Some sel ∨ ∃ front, before = (front ++ [sel])%list) →
  (∀ s, s ∈ before → res_timestamp s <= start) →
  in_force start (before ++ l)%list (res_limits_to_root (select_schedule start sel l)).
Proof.
  induction l as [|s l IH]; intros before sel Hs Hb Hle; cbn [select_schedule].
  - destruct Hb as [[_ ?]|[front ->]]; [done|]. rewrite app_nil_r. exists (length front), sel.
    rewrite lookup_app_r, Nat.sub_diag by lia. split_and!; try done. intros j' s' Hj'.
    case_decide; [apply lookup_lt_Some in Hj'; rewrite length_app in Hj'; cbn in Hj'; lia|]. right. apply Hle. by eapply list_elem_of_lookup_2.
  - assert (∀ s', s' ∈ l → res_timestamp s <= res_timestamp s') as Hafter.
    { intros s' Hin. rewrite map_app in Hs. apply StronglySorted_app_1_r in Hs. apply StronglySorted_inv in Hs as [_ Hf].
      rewrite Forall_forall in Hf. apply Hf. by apply list_elem_of_fmap_2. }
    destruct (Z.ltb_spec start (res_timestamp s)) as [Hlt|Hge].
    + destruct Hb as [[-> [= ->]]|[front ->]].
      * exists O, sel. split_and!; try done. intros [|j'] s' Hj'; [by left|]. rewrite decide_True by lia. cbn in Hj'.
        apply list_elem_of_lookup_2, Hafter in Hj'. lia.
      * exists (length front), sel. rewrite <- app_assoc, lookup_app_r, Nat.sub_diag by lia. split_and!; try done.
        intros j' s' Hj'. case_decide as Hd.
        -- rewrite lookup_app_r in Hj' by lia. destruct (j' - length front)%nat as [|[|d]] eqn:E; [lia|by injection Hj' as <-|].
           cbn in Hj'. apply list_elem_of_lookup_2, Hafter in Hj'. lia.
        -- right. apply Hle. apply (list_elem_of_lookup_2 _ j'). rewrite app_assoc in Hj'. rewrite lookup_app_l in Hj'; [done|].
           rewrite length_app. cbn. lia.
    + replace (before ++ s :: l)%list with ((before ++ [s]) ++ l)%list in * by (by rewrite <- app_assoc).
      apply IH; [done|right; by exists before|]. intros s' [?|?%list_elem_of_singleton]%elem_of_app; [by apply Hle|by subst].
Qed.

Section published.
Context (leap : Z) (request : EnergyFlowRequest) (start : Z) (readings : list Z) (i : EnergyManagerImpl).
Notation run := (optimize leap request start readings i).
Notation g := (run_slots leap request start i).
Notation evses := (get_list_of_evses request []).
Notation published := (run_optimizer leap request start readings i).1.

(** The limits published for the node at [p]. *)
Definition published_for (p : ptr) (e : EnforcedLimits) : Prop :=
  ∃ r' m, descend request (rev p) = Some r' ∧ node_type r' = Evse ∧ markets (run_end run) !! p = Some m ∧
  enforced_uuid e = uuid r' ∧ valid_for e = update_interval (config i) * 10 ∧ enforced_schedule e = sold_root m ∧
  map res_timestamp (enforced_schedule e) = map to_rfc3339 (timestamps g) ∧ in_force start (enforced_schedule e) (limits_root_side e).

Lemma enforced_run p :
  sane_run leap request start i = true → timestamps g ≠ [] → p ∈ evses →
  ∃ e, enforced_limits g (update_interval (config i)) (run_end run) p = [e] ∧ published_for p e.
Proof.
  intros Hs Hts Hp. destruct (optimize_ok leap request start readings i (λ _ h, slotted g h) Hs) as (k & _ & _ & Hsl & Hk & _).
  { intros. by eapply slotted_turn. }
  { apply slotted_first. }
  apply evses_at in Hp as (path & r' & -> & Hd & Ht). rewrite app_nil_r.
  destruct (kept_node leap request start i _ path r' Hk Hd) as (m & Hm & [= E1 _ _]). specialize (Hsl _ _ Hm).
  rewrite (proj1 (proj2 (proj2 (Market_node_length g (run_voltage i) r')))) in E1.
  unfold enforced_limits. rewrite Hm. destruct (sold_root m) as [|front l] eqn:El.
  { by destruct (timestamps g). }
  eexists. split; [reflexivity|]. exists r', m. rewrite rev_involutive. cbn [enforced_uuid valid_for limits_root_side enforced_schedule].
  rewrite El. split_and!; try done; [by rewrite E1|].
  apply (select_schedule_spec _ (front :: l) []); [|by left|by intros s ?%elem_of_nil].
  cbn [app]. rewrite Hsl. pose proof (run_slots_sorted leap request start i) as Hso. clear -Hso. induction Hso as [|t ts Hso IH Hf]; constructor; [done|].
  apply Forall_forall. intros x Hx. apply list_elem_of_fmap in Hx as (y & -> & Hy). rewrite Forall_forall in Hf. apply to_rfc3339_mono.
  specialize (Hf y Hy). lia.
Qed.

Lemma published_evses :
  sane_run leap request start i = true → timestamps g ≠ [] → Forall2 published_for evses published.
Proof.
  intros Hs Hts. unfold run_optimizer. cbn [fst]. destruct (run_slots_run leap request start readings i) as [-> _].
  destruct (optimize_ok leap request start readings i (λ _ _, True) Hs) as (k & _ & _ & _ & _ & M & _); [done|done|].
  assert (∀ p, p ∈ evses → ∃ e, enforced_limits g (update_interval (config i)) (run_end run) p = [e] ∧ published_for p e) as H by (intros; by apply enforced_run).
  rewrite <- M in H |- *. clear M. induction (run_brokers run) as [|b bs IH]; cbn; [constructor|].
  destruct (H (local_market b) ltac:(by left)) as (e & -> & He). constructor; [done|]. apply IH. intros p Hp. apply H. by right.
Qed.

Lemma first_sold q j p : sold_at (first_markets leap request start i) q j p = 0.
Proof.
  unfold sold_at. destruct (first_markets leap request start i !! p) as [m|] eqn:Hm; [|done].
  apply Market_new_lookup in Hm as (? & c & _ & _ & ->). rewrite (proj2 (proj2 (proj2 (Market_node_length g (run_voltage i) c)))).
  unfold empty_schedule_res. rewrite list_lookup_fmap. destruct (timestamps g !! j); [by destruct q|done].
Qed.

(** The account of a node covers the EVSEs below it. *)
Lemma covers_run path r' q j :
  sane_run leap request start i = true → evses_are_leaves request = true → descend request path = Some r' →
  (j < schedule_length g)%nat →
  (∀ e, e ∈ evses_below (rev path) evses → imports_only (first_markets leap request start i) q j e) →
  covers (100 * Z.of_nat (length evses)) (markets (run_end run)) evses q j (rev path).
Proof.
  intros Hs Hl Hd Hj Hno. set (h0 := first_markets leap request start i) in *.
  assert (∀ p, sold_at h0 q j p = 0) as H0 by apply first_sold.
  assert (sum (sold_at h0 q j) (evses_below (rev path) evses) = 0) as Hsum.
  { rewrite (sum_ext _ (λ _, 0)) by done. generalize (evses_below (rev path) evses). clear. intros l. induction l; cbn; lia. }
  destruct (optimize_ok leap request start readings i (λ k h, kept h0 h ∧ covers k h evses q j (rev path)) Hs) as (k & Hk & _ & [_ [C1 C2 C3]] & _).
  { intros k b b' t o o' tr Hk0 Hk1 Hst Hb Hin Ht [Hkept Hc]. split.
    { transitivity (markets o); [done|]. rewrite (turn_markets _ _ _ _ _ _ _ _ _ _ Ht). apply trade_kept. }
    unfold sane_run in Hs. apply andb_true_iff in Hs as [_ Hn]. apply Z.leb_le in Hn.
    eapply (covers_turn g (to_broker_fast_charging_config (config i)) (run_voltage i) (schedule_length g) eq_refl evses q j Hj k b b' t o o' tr); try done.
    - lia.
    - apply Hb.
    - apply evses_NoDup.
    - intros e e'. by apply evses_apart.
    - intros e Hee. eapply imports_only_kept; [done|by apply Hno].
    - unfold eps. lia. }
  { split; [done|]. fold h0. constructor; [by rewrite H0|intros; by rewrite H0|].
    rewrite Hsum, H0. lia. }
  constructor; [done|done|].
  assert (0 <= sum (sold_at (markets (run_end run)) q j) (evses_below (rev path) evses)) by (by apply sum_nonneg). nia.
Qed.

Lemma published_sum q j p l es :
  Forall2 published_for l es →
  sum (sold_at (markets (run_end run)) q j) (evses_below p l) = sum (λ x, enforced_at q j x.2) (filter (λ x, p `suffix_of` x.1) (zip l es)).
Proof.
  intros H. induction H as [|e x l es He H IH]; [done|]. unfold evses_below in *. cbn [zip_with]. rewrite !filter_cons. cbn [fst].
  case_decide; [|done]. cbn [sum snd]. rewrite IH. f_equal. destruct He as (r' & m & _ & _ & Hm & _ & _ & E & _).
  unfold sold_at, enforced_at. by rewrite Hm, E.
Qed.

End published.

(** The total of the EVSEs below a node. *)
Lemma limits_total leap request start readings i path r' q j imp y :
  sane_run leap request start i = true → evses_are_leaves request = true → descend request path = Some r' →
  let node := Market_node (run_slots leap request start i) (run_voltage i) r' in
  import_max_available node !! j = Some imp → lim q (limits_to_root imp) = Some y →
  let evses := get_list_of_evses request [] in
  (∀ e, e ∈ evses_below (rev path) evses → imports_only (first_markets leap request start i) q j e) →
  let below_node := filter (λ x, rev path `suffix_of` x.1) (zip evses (run_optimizer leap request start readings i).1) in
  ∃ account, within account (grains (value y)) ∧
    (2 ^ 24 + 1 - 200 * Z.of_nat (length evses)) * sum (λ x, enforced_at q j x.2) below_node <= (2 ^ 24 + 1) * account.
Proof.
  intros Hs Hl Hd node Hi Hy evses Hno below_node.
  assert (j < schedule_length (run_slots leap request start i))%nat as Hj.
  { rewrite <- (proj1 (Market_node_length _ (run_voltage i) r')). by eapply lookup_lt_Some. }
  destruct (covers_run leap request start readings i path r' q j Hs Hl Hd Hj Hno) as [C1 C2 C3].
  exists (sold_at (markets (run_end (optimize leap request start readings i))) q j (rev path)). split.
  - destruct (optimize_ok leap request start readings i (λ _ _, True) Hs) as (k & _ & Hst & _ & Hk & _); [done|done|].
    destruct (kept_node leap request start i _ path r' Hk Hd) as (m & Hm & [= E1 E2 E3]). destruct (Hst _ _ Hm) as [N1 N2 N3 _ _ N6].
    unfold sold_at. rewrite Hm. destruct (lookup_lt_is_Some_2 (sold_root m) j) as [s Hsl].
    { lia. }
    destruct (lookup_lt_is_Some_2 (export_max_available m) j ltac:(lia)) as [exp He].
    rewrite Hsl. unfold node in Hi. rewrite <- E2 in Hi. by destruct (N6 j imp exp s Hi He Hsl) as [_ A1 _]; apply (A1 q y).
  - assert (timestamps (run_slots leap request start i) ≠ []) as Hts.
    { intros E. unfold schedule_length in Hj. rewrite E in Hj. cbn in Hj. lia. }
    rewrite (published_sum leap request start readings i q j (rev path) _ _ (published_evses leap request start readings i Hs Hts)) in C3.
    unfold eps in C3. fold evses in C3. fold below_node in C3. lia.
Qed.

(** C9: The limits published for the EVSEs add up. For every node, every time slot and
    both current and power: what the EVSEs below the node may draw in total is covered by
    an account that is within the import limit of the node. The account and the total
    differ by rounding only: two parts in 2^24 for each of the turns the brokers had (100
    for each EVSE). EVSEs are leaves of the tree, and those below the node cannot export. *)
Theorem published_limits_add_up leap request start readings i path r' q j imp y :
  sane_run leap request start i = true → evses_are_leaves request = true → descend request path = Some r' →
  let node := Market_node (run_slots leap request start i) (run_voltage i) r' in
  import_max_available node !! j = Some imp → lim q (limits_to_root imp) = Some y →
  let evses := get_list_of_evses request [] in
  (∀ e, e ∈ evses_below (rev path) evses → imports_only (first_markets leap request start i) q j e) →
  let below_node := filter (λ x, rev path `suffix_of` x.1) (zip evses (run_optimizer leap request start readings i).1) in
  ∃ account, within account (grains (value y)) ∧
    (2 ^ 24 + 1 - 200 * Z.of_nat (length evses)) * sum (λ x, enforced_at q j x.2) below_node <= (2 ^ 24 + 1) * account.
Proof. apply limits_total. Qed.


End EnergyOptimizer.
