(* ===== verification/EnergyMinimum.v ===== *)
(** * The minimal current

    An EVSE that asks for a minimal current gets at least that, or nothing: the first
    purchase in a time slot is the minimal current, all or nothing. *)

From Stdlib Require Import String Floats.SpecFloat.
From S2P Require Import Prelude Float32 FloatRound EnergyMarket EnergyBroker EnergyManager EnergyAmounts EnergyTrades EnergyFacts EnergyRuns EnergyTree EnergyTotals EnergyOptimizer.

Module EnergyMinimum.

Import Float32 FloatRound Energy Broker Manager Amounts Trades EnergyFacts EnergyRuns EnergyTree EnergyTotals EnergyOptimizer.
#[local] Open Scope Z_scope.

(** ** A time slot *)

(** The minimal current of an offer is at least [y]. *)
Definition demands (l : LimitsReq) (y : Z) : Prop := ∃ m, ac_min_current_A l = Some m ∧ 0 < y <= grains (value m).
(** No current is offered. *)
Definition offers_none (l : LimitsReq) : Prop := ∀ c, ac_max_current_A l = Some c → grains (value c) <= 0.

Lemma buy_ampere_exact v l a import n b :
  fair l → sound a = true → 0 < grains a →
  (∃ src w, buy_ampere v l a false import n b = (Ret true, current_bought (number (f_mul (sign import) a) src) w n b, []) ∧ grains a <= max_limit) ∨
  buy_ampere v l a false import n b = (Ret false, b, []).
Proof.
  intros Hl Ha H0. unfold buy_ampere. destruct (ac_max_current_A l) as [c|] eqn:Ec; [|by right].
  destruct (fair_limits l Hl Current c Ec) as [Sc Mc]. rewrite (f_ge_grains (value c) a) by done. cbn [andb].
  destruct (Z.leb_spec (grains a) (grains (value c))) as [Hle|Hgt]; [|by right]. cbn [andb].
  destruct (total_power_W l) as [p|]; [destruct (f_ge (value p) _); [|by right]|]; left; eexists _, _; (split; [reflexivity|lia]).
Qed.

Lemma buy_ampere_none v l a less import n b :
  fair l → offers_none l → sound a = true → 0 < grains a → buy_ampere v l a less import n b = (Ret false, b, []).
Proof.
  intros Hl Hn Ha H0. unfold buy_ampere. destruct (ac_max_current_A l) as [c|] eqn:Ec; [|done].
  destruct (fair_limits l Hl Current c Ec) as [Sc _]. specialize (Hn c Ec). rewrite (f_ge_grains (value c) a) by done.
  unfold f_gt. rewrite (f_lt_grains zero) by done. change (grains zero) with 0.
  destruct (Z.leb_spec (grains a) (grains (value c))); [lia|]. destruct (Z.ltb_spec 0 (grains (value c))); [lia|]. by rewrite andb_false_r.
Qed.

(** The outcome of a trade: from [first] to [s'], having bought [x]. *)
Definition minimal (y : Z) (first : bool) (s' : slot) (x : option NumberWithSource) : Prop :=
  if first_trade s' then first = true ∧ amount x = 0 else 0 <= amount x ∧ (first = true → y <= amount x).

Section slot.
Context (g : globals_t) (bc : BrokerConfig) (v : float) (Hv : sane_voltage v = true).
Context (Hsa : sound (Energy.slice_ampere g) = true ∧ 0 < grains (Energy.slice_ampere g)).
Context (y : Z).

Definition outcome (b b' : bid) : Prop := minimal y (first_trade (b_slot b)) (b_slot b') (res Current (trading b')).

Lemma bought_minimum b b0 a src w n :
  sound a = true → 0 < grains a <= max_limit → y <= grains a → outcome b (current_bought (number (f_mul (sign true) a) src) w n b0).
Proof.
  intros Ha Hb Hy. unfold outcome, minimal. cbn [b_slot current_bought set_traded_once first_trade trading res res_ac_max_current_A].
  destruct (signed true a Ha) as [_ E]; [amounts; lia|]. unfold number. cbn [amount value]. rewrite E. cbn [directed]. lia.
Qed.

Lemma import_current_minimum active l b :
  fair l → demands l y → ac_max_current_A l ≠ None → phases_ok (num_phases (b_slot b)) → amount (res Current (trading b)) = 0 →
  ∃ b', import_current g bc v active l b = (Ret tt, b', []) ∧ outcome b b'.
Proof.
  intros Hl (m & Em & Hy & Hm) Hc Hp H0. unfold import_current.
  destruct (phases_of_trade_run g bc v active l b Hl) as (n & r & b1 & E1 & (H1 & H2 & H3) & Hn).
  rewrite (bind_silent _ _ _ _ _ E1). unfold store_decision. rewrite bind_modify, bind_get. cbn [fst snd b_slot set_context].
  set (b2 := set_context _ b1). pose proof (fair_minimum l Hl m Em) as Sm. unfold needs_minimum. rewrite Em, H1.
  assert (f_gt (value m) zero = true) as ->.
  { unfold f_gt. rewrite f_lt_grains by done. apply Z.ltb_lt. change (grains zero) with 0. lia. }
  destruct (first_trade (b_slot b)) eqn:Ef; cbn [andb].
  - rewrite bind_modify.
    destruct (buy_ampere_exact v l (value m) true n (set_slot (set_num_phases n) b2) Hl Sm ltac:(lia)) as [(src & w & E & Hmax)|E];
      rewrite (bind_silent _ _ _ _ _ E); cbn [negb andb].
    { cbn [cwhen]. eexists. split; [reflexivity|]. apply bought_minimum; [done|lia|done]. }
    destruct (negb (bool_decide _) && negb r); cbn [cwhen].
    + rewrite bind_modify.
      set (one_phase := {| int_value := 1; int_source := _ |}).
      destruct (buy_ampere_exact v l (value m) true one_phase (set_slot (set_num_phases one_phase) (set_slot (set_num_phases n) b2)) Hl Sm ltac:(lia))
        as [(src & w & E' & Hmax)|E']; rewrite (bind_silent _ _ _ _ _ E'); (eexists; split; [reflexivity|]).
      { apply bought_minimum; [done|lia|done]. }
      unfold outcome, minimal. cbn in H0 |- *. rewrite H1, H2, Ef. done.
    + eexists. split; [reflexivity|]. unfold outcome, minimal. cbn in H0 |- *. rewrite H1, H2, Ef. done.
  - destruct (buy_ampere_run v Hv l (Energy.slice_ampere g) true true (num_phases (b_slot b)) b2 Hl Hp (proj1 Hsa) (proj2 Hsa) Hc)
      as [(x & w & E & (_ & _ & Hx) & _)|[E _]]; rewrite (bind_silent _ _ _ _ _ E); (eexists; split; [reflexivity|]);
      unfold outcome, minimal; rewrite Ef.
    + cbn. cbn [directed] in Hx. split; [|done]. destruct Hx as [->|[Hx _]]; lia.
    + cbn in H0 |- *. rewrite H1, Ef, H2, H0. done.
Qed.

Lemma export_current_minimum l b :
  fair l → offers_none l → amount (res Current (trading b)) = 0 →
  ∃ b', export_current g v l b = (Ret tt, b', []) ∧ outcome b b'.
Proof.
  intros Hl Hn H0. unfold export_current. rewrite bind_get.
  assert (∀ a less, sound a = true → 0 < grains a →
    ∃ b', (buy_ampere v l a less false fixed_phases ;; mret tt) b = (Ret tt, b', []) ∧ outcome b b') as H.
  { intros a less Ha Ha0. rewrite (bind_silent _ _ _ _ _ (buy_ampere_none v l a less false fixed_phases b Hl Hn Ha Ha0)).
    eexists. split; [reflexivity|]. unfold outcome, minimal. destruct (first_trade (b_slot b)); rewrite H0; done. }
  destruct (needs_minimum (b_slot b) l) as [m|] eqn:Em; [|apply H; apply Hsa].
  destruct (needs_minimum_sound _ _ _ Hl Em). by apply H.
Qed.

Lemma watt_minimum l import b :
  amount (res Current (trading b)) = 0 →
  ∃ b', (buy_watt l (Energy.slice_watt g) true import ;; mret tt) b = (Ret tt, b', []) ∧ outcome b b'.
Proof.
  intros H0. assert (∀ b', first_trade (b_slot b') = first_trade (b_slot b) → res Current (trading b') = res Current (trading b) → outcome b b') as Hsame.
  { intros b' E1 E2. unfold outcome, minimal. rewrite E1, E2, H0. by destruct (first_trade (b_slot b)). }
  unfold buy_watt. destruct (total_power_W l) as [p|]; [|eexists; split; [reflexivity|by apply Hsame]].
  destruct (f_ge _ _); [eexists; split; [reflexivity|by apply Hsame]|].
  destruct (_ && _); (eexists; split; [reflexivity|by apply Hsame]).
Qed.

Lemma opened_first imp exp s : first_trade (opened imp exp s) = first_trade s.
Proof.
  unfold opened. destruct (bool_decide _); [destruct (can_trade imp); [|destruct (can_trade exp)]|]; cbn; by destruct (_ =? 0).
Qed.

Lemma trade_slot_minimum active imp exp b :
  fair imp → fair exp → demands imp y → offers_none exp → phases_ok (num_phases (b_slot b)) → trading b = nothing_bought imp →
  ∃ b', trade_slot g bc v active imp exp b = (Ret tt, b', []) ∧ outcome b b'.
Proof.
  intros Hi He Hd Hn Hp Ht. pose proof (opened_phases imp exp _ Hi Hp) as Hp'. unfold trade_slot.
  rewrite (bind_silent _ _ _ _ _ (open_slot_run imp exp b)), bind_get. set (b1 := set_slot (opened imp exp) b) in *.
  assert (amount (res Current (trading b1)) = 0) as H0 by (cbn; rewrite Ht; cbn; by destruct (ac_max_current_A imp)).
  assert (∀ b', outcome b1 b' → outcome b b') as Hout by (intros b'; unfold outcome; cbn; by rewrite opened_first).
  assert (outcome b1 b1) as Hsame by (unfold outcome, minimal; rewrite H0; by destruct (first_trade (b_slot b1))).
  destruct (slot_type (b_slot b1)).
  - destruct (ac_max_current_A imp) as [c|] eqn:Ec; [|destruct (total_power_W imp) as [p|]].
    + destruct (import_current_minimum active imp b1 Hi Hd ltac:(by rewrite Ec) Hp' H0) as (b' & E & Ho). exists b'. eauto.
    + destruct (watt_minimum imp true b1 H0) as (b' & E & Ho). exists b'. eauto.
    + exists b1. eauto.
  - destruct (ac_max_current_A exp) as [c|] eqn:Ec; [|destruct (total_power_W exp) as [p|]].
    + destruct (export_current_minimum exp b1 He Hn H0) as (b' & E & Ho). exists b'. eauto.
    + destruct (watt_minimum exp false b1 H0) as (b' & E & Ho). exists b'. eauto.
    + exists b1. eauto.
  - exists b1. eauto.
Qed.

(** The same in all time slots. *)
Lemma tradeImpl_minimum act imp : ∀ i exp sl t j a e s,
  Forall fair (roots imp) → Forall fair (roots exp) → Forall (λ s, phases_ok (num_phases s)) sl →
  imp !! j = Some a → exp !! j = Some e → sl !! j = Some s → demands (limits_to_root a) y → offers_none (limits_to_root e) →
  let '(sl', tr, _) := tradeImpl g bc v act i imp exp sl t in
  ∃ s' x, sl' !! j = Some s' ∧ tr !! j = Some x ∧ minimal y (first_trade s) s' (res Current x).
Proof.
  induction imp as [|a0 imp IH]; intros i [|e0 exp] [|s0 sl] t j a e s Hi He Hp Ha Hex Hs Hd Hn; try done.
  cbn in Hi, He. apply Forall_cons in Hi as [Hi0 Hi], He as [He0 He], Hp as [Hp0 Hp]. cbn [tradeImpl].
  set (b := {| b_slot := s0 |}). destruct j as [|j].
  - cbn in Ha, Hex, Hs. simplify_eq.
    destruct (trade_slot_minimum (act =? i)%nat (limits_to_root a) (limits_to_root e) b Hi0 He0 Hd Hn Hp0 eq_refl) as (b' & E & Ho). rewrite E.
    destruct (tradeImpl g bc v act (S i) imp exp sl _) as [[sl' tr] t']. by exists (b_slot b'), (trading b').
  - destruct (trade_slot _ _ _ _ _ _ b) as [[? r] ?].
    specialize (IH (S i) exp sl {| ts_context := context r; ts_clock := clock r; ts_traded := traded r |} j a e s Hi He Hp Ha Hex Hs Hd Hn).
    destruct (tradeImpl g bc v act (S i) imp exp sl _) as [[sl' tr] t']. done.
Qed.

End slot.

(** ** Offers *)
Lemma greater_demands a w :
  (∀ x, a = Some x → sound (value x) = true) → sound (value w) = true →
  ∃ m, apply_one_limit_if_greater a (Some w) = Some m ∧ grains (value w) <= grains (value m).
Proof.
  intros Ha Hw. cbn. destruct a as [x|]; [|by exists w]. specialize (Ha x eq_refl). rewrite f_lt_grains, f_eq_grains by done.
  destruct (Z.ltb_spec (grains (value x)) (grains (value w))); [by exists w|].
  destruct (Z.eqb_spec (grains (value x)) (grains (value w))); eexists; (split; [reflexivity|]); cbn; lia.
Qed.

(** An offer demands the minimal current of its node. *)
Lemma create_offer_demands g n k h p m j ai w a :
  schedule_length g = n → 0 <= k < 2 ^ 24 - 1 → store_ok n k h → chain h p → h !! p = Some m → import_max_available m !! j = Some ai →
  ac_min_current_A (limits_to_root ai) = Some w → 0 < grains (value w) →
  import_offer (create_offer_for_local_market g h p) !! j = Some a → demands (limits_to_root a) (grains (value w)).
Proof.
  intros Hg Hk Hst Hc Hm Hai Hw H0 Ha. destruct (Hst p m Hm) as [N1 N2 N3 N4 N5 N6].
  assert (sound (value w) = true) as Sw.
  { assert (sane_limits (limits_to_root ai) = true) as (_ & H & _)%sane_limits_spec; [|by apply H].
    eapply Forall_lookup_1 in N4; [exact N4|]. by rewrite list_lookup_fmap, Hai. }
  assert (∀ prev, length prev = n → Forall fair (roots prev) →
    apply_limits prev (get_available_energy_import m) !! j = Some a → demands (limits_to_root a) (grains (value w))) as H.
  { intros prev Hl Hf Hap. destruct (available_ok n k Hk g Hg m false (Hst p m Hm)) as [La _].
    unfold apply_limits in Hap. unfold get_available_energy_import in Hap. rewrite Hl, La, Nat.eqb_refl in Hap. cbn [negb] in Hap.
    apply lookup_zip_with_Some in Hap as (x & z & -> & Hx & Hz). apply available_lookup in Hz as (a' & s & Ha' & _ & ->).
    assert (a' = ai) as -> by congruence.
    destruct (greater_demands (ac_min_current_A (limits_to_root x)) w) as (mm & Em & Hle); [|done|].
    { intros u Hu. eapply Forall_lookup_1 in Hf; [|by rewrite list_lookup_fmap, Hx]. by apply (fair_minimum _ Hf). }
    exists mm. cbn. rewrite Hw. split; [done|lia]. }
  destruct p as [|i p]; cbn [create_offer_for_local_market] in Ha; rewrite Hm in Ha; cbn [import_offer] in Ha.
  - destruct (empty_fair n g Hg). by eapply H.
  - destruct (create_offer_ok n k h Hk Hst g Hg p (chain_parent _ _ _ Hc)) as [O1 _ O3 _ _ _]. by eapply H.
Qed.

(** ** Turns *)
Section target.
Context (g : globals_t) (bc : BrokerConfig) (v : float) (Hv : sane_voltage v = true).
Context (Hsa : sound (Energy.slice_ampere g) = true ∧ 0 < grains (Energy.slice_ampere g)).
Context (Hsw : sound (Energy.slice_watt g) = true ∧ 0 < grains (Energy.slice_watt g)).
Context (n : nat) (Hg : schedule_length g = n).
(** The EVSE, its limits in the slot, and its minimal current. *)
Context (h0 : gmap ptr Market) (p : ptr) (m0 : Market) (Hm0 : h0 !! p = Some m0) (j : nat) (ai : ScheduleReqEntry) (w : NumberWithSource).
Context (Hai : import_max_available m0 !! j = Some ai) (Hw : ac_min_current_A (limits_to_root ai) = Some w) (H0 : 0 < grains (value w)).
Context (Hno : no_export m0 Current j).

(** The current sold to the EVSE, for the state of the slot. *)
Definition enough (h : gmap ptr Market) (s : slot) : Prop :=
  if first_trade s then sold_at h Current j p = 0 else grains (value w) <= sold_at h Current j p.
Definition supplied (h : gmap ptr Market) (b : Broker) : Prop :=
  local_market b = p → ∃ s, slots b !! j = Some s ∧ enough h s.

Lemma supplied_turn k b b' t o o' tr :
  0 <= k < 2 ^ 24 - 1 → kept h0 (markets o) → store_ok n k (markets o) → broker_ok n (markets o) b → turn g bc v n b b' t o o' tr →
  local_market b = p → supplied (markets o) b → supplied (markets o') b'.
Proof.
  intros Hk Hkept Hst [Hc Hsl Hph] Ht Hp Hs _. destruct (Hs Hp) as (s & Hsj & Hen).
  pose proof (Hkept p) as Em. rewrite Hm0 in Em. destruct (markets o !! p) as [m|] eqn:Hm; [|done]. injection Em as _ E2 E3.
  rewrite E2 in Hai. assert (no_export m Current j) as Hnom by (unfold no_export; by rewrite <- E3).
  destruct (Hst p m Hm) as [N1 N2 N3 _ _ _]. assert (j < n)%nat as Hj by (rewrite <- N1; by eapply lookup_lt_Some).
  destruct (turn_trade _ _ _ _ _ _ _ _ _ _ Ht) as (act & t0 & t1 & Etr).
  destruct (create_offer_ok n k (markets o) Hk Hst g Hg _ Hc) as [O1 O2 O3 O4 _ _].
  set (offer := create_offer_for_local_market g (markets o) (local_market b)) in *.
  destruct (lookup_lt_is_Some_2 (import_offer offer) j ltac:(lia)) as [a Ha].
  destruct (lookup_lt_is_Some_2 (export_offer offer) j ltac:(lia)) as [e He].
  assert (demands (limits_to_root a) (grains (value w))) as Hd.
  { eapply (create_offer_demands g n k (markets o) (local_market b) m j ai); try done. by rewrite Hp. }
  assert (offers_none (limits_to_root e)) as Hne.
  { destruct (no_export_offer g n Hg Current j Hj k b o Hk Hst Hc p m e ltac:(by rewrite Hp) Hm Hnom He) as (x & Hx & Hx0).
    intros c Hcc. assert (x = c) as -> by (cbn in Hx; congruence). done. }
  pose proof (tradeImpl_minimum g bc v Hv Hsa (grains (value w)) act (import_offer offer) 0 (export_offer offer) (slots b) t0 j a e s O3 O4 Hph Ha He Hsj Hd Hne) as Hmin.
  rewrite Etr in Hmin. destruct Hmin as (s' & x & Hs' & Hx & Hmin). exists s'. split; [done|].
  assert (0 <= sold_at (markets o) Current j p) as Hpos by (unfold enough in Hen; destruct (first_trade s); lia).
  pose proof (purchase_import g bc v n Hg Current j Hj k b b' t o o' tr Hk Hst Hc Ht) as Hpur.
  specialize (Hpur ltac:(exists p, m; split_and!; try done; by rewrite Hp)).
  pose proof (sold_at_turn g bc v n Hg Current j Hj k b b' t o o' tr Hk Hst Hc Ht p ltac:(by rewrite Hp) Hpos Hpur) as (A1 & A2 & A3 & _).
  unfold purchase in *. rewrite Hx in *. unfold enough, minimal in *. unfold eps in *.
  destruct (first_trade s'); [destruct Hmin as [Hf Hz]; rewrite Hf in Hen; lia|]. destruct (first_trade s); [|lia].
  destruct Hmin as [_ Hmin]. specialize (Hmin eq_refl). lia.
Qed.

(** Turns of the others leave the EVSE alone. *)
Lemma others_round bs k o :
  0 <= k → k + Z.of_nat (length bs) < 2 ^ 24 - 1 → store_ok n k (markets o) → Forall (broker_ok n (markets o)) bs →
  Forall (λ e, ¬ p `suffix_of` e) (map local_market bs) →
  sold_at (markets (trading_round g bc v bs o).2) Current j p = sold_at (markets o) Current j p.
Proof.
  intros Hk Hk' Hst Hok Ha.
  pose proof (trading_round_ok g bc v Hv Hsa Hsw n Hg (λ _ h, sold_at h Current j p = sold_at (markets o) Current j p) (λ e, ¬ p `suffix_of` e)) as H.
  specialize (H ltac:(intros k1 b b' t o1 o2 tr _ _ _ Hb Ht E; cbv beta in *; by rewrite (sold_at_kept g bc v n Current j b b' t o1 o2 tr Ht p Hb))).
  specialize (H bs k o Hk Hk' Hst Hok Ha eq_refl). destruct (trading_round g bc v bs o) as [[t bs'] o']. apply H.
Qed.

Lemma supplied_round bs : ∀ k o,
  0 <= k → k + Z.of_nat (length bs) < 2 ^ 24 - 1 → store_ok n k (markets o) → Forall (broker_ok n (markets o)) bs → kept h0 (markets o) →
  NoDup (map local_market bs) → (∀ e, e ∈ map local_market bs → p `suffix_of` e → p = e) →
  Forall (supplied (markets o)) bs →
  let '(_, bs', o') := trading_round g bc v bs o in Forall (supplied (markets o')) bs'.
Proof.
  induction bs as [|b bs IH]; intros k o Hk Hk' Hst Hok Hkept Hnd Hap Hs; cbn [trading_round]; [constructor|].
  cbn [length map] in *. apply NoDup_cons in Hnd as [Hnb Hnd]. apply Forall_cons in Hok as [Hb Hok], Hs as [Hsb Hs].
  pose proof (broker_turn_ok g bc v Hv Hsa Hsw n Hg k b o ltac:(lia) Hst Hb) as Hturn.
  pose proof (broker_turn_run g bc v Hv Hsa Hsw n Hg k b o ltac:(lia) Hst Hb) as Hrun.
  destruct (broker_turn g bc v b o) as [[t b'] o1]. destruct Hturn as (S1 & K1 & B1 & M1 & _). destruct Hrun as [tr Ht].
  assert (Forall (broker_ok n (markets o1)) bs) as Hok1 by (eapply Forall_impl; [exact Hok|]; intros x; by apply broker_ok_kept).
  specialize (IH (k + 1) o1 ltac:(lia) ltac:(lia) S1 Hok1 ltac:(by transitivity (markets o)) Hnd ltac:(intros e He; apply Hap; by right)).
  pose proof (others_round bs (k + 1) o1 ltac:(lia) ltac:(lia) S1 Hok1) as Hoth.
  destruct (trading_round g bc v bs o1) as [[ts bs'] o2]. cbn [snd] in Hoth.
  destruct (decide (local_market b = p)) as [Hp|Hp].
  - assert (Forall (λ e, ¬ p `suffix_of` e) (map local_market bs)) as Hns.
    { apply Forall_forall. intros e He Hse. rewrite <- (Hap e) in He by (done || by right). by rewrite Hp in Hnb. }
    pose proof (supplied_turn k b b' t o o1 tr ltac:(lia) Hkept Hst Hb Ht Hp Hsb) as Hb'.
    constructor; [intros E; destruct (Hb' E) as (s & ? & ?); exists s; split; [done|]; unfold enough; by rewrite (Hoth Hns)|]. apply IH.
    apply Forall_forall. intros x Hx E. destruct Hnb. rewrite Hp, <- E. by apply list_elem_of_fmap_2.
  - constructor; [intros E; by rewrite M1 in E|]. apply IH. eapply Forall_impl; [exact Hs|]. intros x Hx E. destruct (Hx E) as (s & ? & ?). exists s.
    split; [done|]. unfold enough.
    rewrite (sold_at_kept g bc v n Current j b b' t o o1 tr Ht p); [done|]. intros Hse. apply Hp. symmetry. apply Hap; [by left|done].
Qed.

Lemma supplied_rounds r : ∀ k bs o,
  0 <= k → k + Z.of_nat r * Z.of_nat (length bs) < 2 ^ 24 - 1 → store_ok n k (markets o) → Forall (broker_ok n (markets o)) bs →
  kept h0 (markets o) → NoDup (map local_market bs) → (∀ e, e ∈ map local_market bs → p `suffix_of` e → p = e) →
  Forall (supplied (markets o)) bs →
  let '(_, bs', o') := trading_rounds r g bc v bs o in Forall (supplied (markets o')) bs'.
Proof.
  induction r as [|r IH]; intros k bs o Hk Hk' Hst Hok Hkept Hnd Hap Hs; cbn [trading_rounds]; [done|].
  pose proof (supplied_round bs k o Hk ltac:(lia) Hst Hok Hkept Hnd Hap Hs) as Hs'.
  pose proof (trading_round_ok g bc v Hv Hsa Hsw n Hg (λ _ _, True) (λ _, True) ltac:(done) bs k o Hk ltac:(lia) Hst Hok) as H.
  destruct (trading_round g bc v bs o) as [[t bs'] o1]. destruct H as (S1 & _ & K1 & B1 & M1 & _); [by apply Forall_forall|done|].
  destruct t; [|done]. assert (length bs' = length bs) as Hlen by (apply (f_equal length) in M1; by rewrite !length_map in M1).
  apply (IH (k + Z.of_nat (length bs))); rewrite ?Hlen, ?M1; try done; [lia|lia|by transitivity (markets o)].
Qed.

End target.

(** ** Runs *)
Lemma supplied_run leap request start readings i p m j imp w :
  sane_run leap request start i = true → evses_are_leaves request = true → p ∈ get_list_of_evses request [] →
  first_markets leap request start i !! p = Some m → import_max_available m !! j = Some imp →
  ac_min_current_A (limits_to_root imp) = Some w → 0 < grains (value w) → no_export m Current j →
  let r := optimize leap request start readings i in Forall (supplied p j w (markets (run_end r))) (run_brokers r).
Proof.
  intros Hs Hl Hin Hm Hi Hw H0 Hno. cbv zeta. unfold sane_run in Hs. rewrite !andb_true_iff, !sane_slice_spec, Z.leb_le in Hs.
  destruct Hs as [[[[Hv Ha] Hws] Hst] Hn]. unfold optimize. fold (run_slots leap request start i). set (g := run_slots leap request start i) in *.
  set (evses := get_list_of_evses request []) in *. set (o1 := prepare_contexts _ _ _ _).
  assert (markets o1 = first_markets leap request start i) as E1 by apply prepare_contexts_markets.
  assert (map local_market (map (Broker_new g) evses) = evses) as Em by (rewrite map_map; apply map_id).
  pose proof (supplied_rounds g (to_broker_fast_charging_config (config i)) (run_voltage i) Hv Ha Hws (schedule_length g) eq_refl
    (first_markets leap request start i) p m Hm j imp w Hi Hw H0 Hno max_number_of_trading_rounds 0 (map (Broker_new g) evses) o1) as H.
  rewrite E1, length_map, Em in H. unfold max_number_of_trading_rounds in *.
  destruct (trading_rounds _ _ _ _ _ o1) as [[remaining bs] o2]. cbn [run_end run_brokers]. apply H; try done; try lia.
  - by apply new_store_ok.
  - by apply brokers_new.
  - apply evses_NoDup.
  - intros e He Hse. by apply (evses_apart request).
  - apply Forall_forall. intros b Hb _. apply list_elem_of_fmap in Hb as (p' & -> & _). exists slot_new. split.
    + apply lookup_replicate. split; [done|]. apply Market_new_lookup in Hm as (? & c & _ & _ & ->).
      rewrite <- (proj1 (Market_node_length g (run_voltage i) c)). by eapply lookup_lt_Some.
    + apply first_sold.
Qed.

(** C26: An EVSE gets its minimal current, or nothing. In a tree whose EVSEs are leaves,
    for an EVSE with a minimal current that exports nothing, the current published for
    any time slot is zero or at least the minimal current. *)
Theorem minimum_or_nothing leap request start readings i path r' j imp w exp z e :
  sane_run leap request start i = true → evses_are_leaves request = true →
  descend request path = Some r' →
  let node := Market_node (run_slots leap request start i) (run_voltage i) r' in
  import_max_available node !! j = Some imp → ac_min_current_A (limits_to_root imp) = Some w → 0 < grains (value w) →
  export_max_available node !! j = Some exp → ac_max_current_A (limits_to_root exp) = Some z → grains (value z) = 0 →
  (rev path, e) ∈ zip (get_list_of_evses request []) (run_optimizer leap request start readings i).1 →
  enforced_at Current j e = 0 ∨ grains (value w) <= enforced_at Current j e.
Proof.
  intros Hs Hl Hd node Hi Hw H0 He Hz Hz0 Hin. set (g := run_slots leap request start i) in *. set (v := nominal_ac_voltage (config i)) in *.
  assert (timestamps g ≠ []) as Hts.
  { intros E. apply lookup_lt_Some in Hi. unfold node in Hi. rewrite (proj1 (Market_node_length _ _ _)) in Hi.
    unfold schedule_length in Hi. rewrite E in Hi. cbn in Hi. lia. }
  pose proof (published_evses leap request start readings i Hs Hts) as Hf.
  apply list_elem_of_lookup in Hin as (x & Hx). apply lookup_zip_with_Some in Hx as (p' & e' & [= <- <-] & Hp & Hex).
  destruct (Forall2_lookup_lr _ _ _ _ _ _ Hf Hp Hex) as (_ & m & _ & _ & Hm & _ & _ & Esched & _).
  unfold enforced_at. rewrite Esched.
  assert (∃ b, b ∈ run_brokers (optimize leap request start readings i) ∧ local_market b = rev path ∧
    supplied (rev path) j w (markets (run_end (optimize leap request start readings i))) b) as (b & _ & Hloc & Hsup).
  { destruct (optimize_ok leap request start readings i (λ _ _, True) Hs) as (k & _ & _ & _ & _ & M & _); [done|done|].
    assert (rev path ∈ get_list_of_evses request []) as Hev by (by eapply list_elem_of_lookup_2).
    pose proof (supplied_run leap request start readings i (rev path) node j imp w Hs Hl Hev (first_node leap request start i path r' Hd) Hi Hw H0
      ltac:(by exists exp, z)) as Hall.
    rewrite <- M in Hev. apply list_elem_of_fmap in Hev as (b & Eb & Hb). exists b. split_and!; try done.
    rewrite Forall_forall in Hall. by apply Hall. }
  destruct (Hsup Hloc) as (s & _ & Hen). unfold enough, sold_at in Hen. rewrite Hm in Hen. destruct (first_trade s); [by left|by right].
Qed.

End EnergyMinimum.
