(* ===== verification/EnergyNode.v ===== *)
(** * The energy node

    A fuse of the energy tree ([modules/EnergyManagement/EnergyNode]): it collects the
    requests of its children, adds its own limit and external limits, and routes enforced
    limits to the children ([energyImpl.cpp], [energy_schedule_utils.cpp],
    [external_energy_limitsImpl.cpp]).

    The connection to a consumer is its index in [r_energy_consumer]. *)

From Stdlib Require Import String Floats.SpecFloat.
From S2P Require Import Prelude Float32 EnergyMarket EnergyBroker EnergyManager.

Module Node.

Import Float32 Energy Manager.
#[local] Open Scope string_scope.
#[local] Open Scope Z_scope.

(** ** Double precision

    Promotion of a [float] is exact, so that numbers of both kinds are compared by value. *)
Definition d_mul (a b : double) : double := SFmul 53 1024 a b.
Definition d_div (a b : double) : double := SFdiv 53 1024 a b.
Definition d_of_int (z : Z) : double := binary_normalize 53 1024 z 0 false.

Definition exponent (a : double) : Z := match a with S754_finite _ _ e => e | _ => 0 end.
(** In units of [2^lo]. *)
Definition units (lo : Z) (a : double) : Z :=
  match a with S754_finite s m e => cond_Zopp s (Zpos m) * 2 ^ (e - lo) | _ => 0 end.
Definition d_lt (a b : double) : bool :=
  match a, b with
  | S754_nan, _ | _, S754_nan => false
  | S754_infinity true, S754_infinity true => false
  | S754_infinity true, _ => true
  | _, S754_infinity true => false
  | S754_infinity false, _ => false
  | _, S754_infinity false => true
  | _, _ => let lo := Z.min (exponent a) (exponent b) in units lo a <? units lo b
  end.

(** ** Configuration and state *)
Record NodeConf := {
  fuse_limit_A : double;
  phase_count : Z;
  nominal_voltage_V : double;
  enhance_external_schedule : bool;
}.

Record EnergyState := {
  request : EnergyFlowRequest;
  energy_pricing : list PricePerkWh;
  child_connections : gmap string nat;
}.

Inductive node_output :=
| publish_energy_flow_request (r : EnergyFlowRequest)
| call_enforce_limits (connection : nat) (value : EnforcedLimits).
(** [std::map::at], and a loop that does not end. *)
Inductive node_error := out_of_range | no_return.
Notation op := (cmd EnergyState node_output node_error).

Definition set_schedules (imp exp : ScheduleReq) (r : EnergyFlowRequest) : EnergyFlowRequest :=
  {| children := children r; uuid := uuid r; node_type := node_type r; priority_request := priority_request r;
     evse_state := evse_state r; optimizer_target := optimizer_target r; usage_root_frequency := usage_root_frequency r;
     usage_leaves_frequency := usage_leaves_frequency r; schedule_import := imp; schedule_export := exp;
     schedule_setpoints := schedule_setpoints r |}.
Definition set_setpoints (sps : ScheduleSetpoints) (r : EnergyFlowRequest) : EnergyFlowRequest :=
  {| children := children r; uuid := uuid r; node_type := node_type r; priority_request := priority_request r;
     evse_state := evse_state r; optimizer_target := optimizer_target r; usage_root_frequency := usage_root_frequency r;
     usage_leaves_frequency := usage_leaves_frequency r; schedule_import := schedule_import r;
     schedule_export := schedule_export r; schedule_setpoints := sps |}.
Definition set_children (cs : list EnergyFlowRequest) (r : EnergyFlowRequest) : EnergyFlowRequest :=
  {| children := cs; uuid := uuid r; node_type := node_type r; priority_request := priority_request r;
     evse_state := evse_state r; optimizer_target := optimizer_target r; usage_root_frequency := usage_root_frequency r;
     usage_leaves_frequency := usage_leaves_frequency r; schedule_import := schedule_import r;
     schedule_export := schedule_export r; schedule_setpoints := schedule_setpoints r |}.
Definition set_usage_root (f : option float) (r : EnergyFlowRequest) : EnergyFlowRequest :=
  {| children := children r; uuid := uuid r; node_type := node_type r; priority_request := priority_request r;
     evse_state := evse_state r; optimizer_target := optimizer_target r; usage_root_frequency := f;
     usage_leaves_frequency := usage_leaves_frequency r; schedule_import := schedule_import r;
     schedule_export := schedule_export r; schedule_setpoints := schedule_setpoints r |}.
Definition set_request (f : EnergyFlowRequest → EnergyFlowRequest) (s : EnergyState) : EnergyState :=
  {| request := f (request s); energy_pricing := energy_pricing s; child_connections := child_connections s |}.

(** ** Limits *)
Definition source_cfg (id : string) : string := id ++ "/module_config".

(** [now]: a reading of the clock; [leap]: the leap seconds elapsed. *)
Definition get_local_schedule_req_entry (c : NodeConf) (id : string) (now leap : Z) : ScheduleReqEntry :=
  let l := {| total_power_W := None; ac_max_current_A := Some (number (to_float (fuse_limit_A c)) (source_cfg id));
              ac_min_current_A := None;
              ac_max_phase_count := Some {| int_value := phase_count c; int_source := source_cfg id |};
              ac_min_phase_count := None; ac_supports_changing_phases_during_charging := None;
              ac_number_of_active_phases := None |} in
  {| timestamp := to_rfc3339 (now - now mod hour + leap); limits_to_root := l; limits_to_leaves := l;
     conversion_efficiency := None; price_per_kwh := None |}.
Definition get_local_schedule (c : NodeConf) (id : string) (now leap : Z) : ScheduleReq :=
  [get_local_schedule_req_entry c id now leap].

Definition positive_count (x : option IntegerWithSource) : option Z :=
  match x with Some n => if 0 <? int_value n then Some (int_value n) else None | None => None end.
Definition effective_phase_count (default : Z) (e : ScheduleReqEntry) : Z :=
  let n := match positive_count (ac_max_phase_count (limits_to_root e)) with
           | Some n => n
           | None => match positive_count (ac_max_phase_count (limits_to_leaves e)) with Some n => n | None => default end
           end in
  if n <=? 0 then 1 else n.

(** The current limit from the power, if there is none. *)
Definition enhance (source : string) (phases : Z) (voltage : double) (e : ScheduleReqEntry) : ScheduleReqEntry :=
  match total_power_W (limits_to_root e), ac_max_current_A (limits_to_root e) with
  | Some w, None =>
      if f_gt (value w) zero && d_lt zero voltage then
        let current := to_float (d_div (value w) (d_mul voltage (d_of_int (effective_phase_count phases e)))) in
        with_root (set_max_current (Some (number current source)) (limits_to_root e)) e
      else e
  | _, _ => e
  end.
Definition apply_fuse (source : string) (fuse : double) (e : ScheduleReqEntry) : ScheduleReqEntry :=
  let over := match ac_max_current_A (limits_to_root e) with Some x => d_lt fuse (value x) | None => true end in
  if over then with_root (set_max_current (Some (number (to_float fuse) source)) (limits_to_root e)) e else e.
Definition set_max_phases (n : option IntegerWithSource) (l : LimitsReq) : LimitsReq :=
  {| total_power_W := total_power_W l; ac_max_current_A := ac_max_current_A l; ac_min_current_A := ac_min_current_A l;
     ac_max_phase_count := n; ac_min_phase_count := ac_min_phase_count l;
     ac_supports_changing_phases_during_charging := ac_supports_changing_phases_during_charging l;
     ac_number_of_active_phases := ac_number_of_active_phases l |}.
Definition apply_phases (source : string) (phases : Z) (e : ScheduleReqEntry) : ScheduleReqEntry :=
  let over := match ac_max_phase_count (limits_to_root e) with Some x => phases <? int_value x | None => true end in
  if (0 <? phases) && over
  then with_root (set_max_phases (Some {| int_value := phases; int_source := source |}) (limits_to_root e)) e else e.

Definition process_schedule_with_limits (schedule : ScheduleReq) (source : string) (fuse : double) (phases : Z)
    (voltage : double) (enhance_with_current_limits : bool) : ScheduleReq :=
  map (λ e, apply_phases source phases (apply_fuse source fuse
              (if enhance_with_current_limits then enhance source phases voltage e else e))) schedule.

Record ExternalLimits := {
  ext_schedule_import : ScheduleReq;
  ext_schedule_export : ScheduleReq;
  ext_schedule_setpoints : ScheduleSetpoints;
}.

Definition external_schedule (c : NodeConf) (id : string) (now leap : Z) (schedule : ScheduleReq) : ScheduleReq :=
  match schedule with
  | [] => get_local_schedule c id now leap
  | _ => process_schedule_with_limits schedule (source_cfg id) (fuse_limit_A c) (phase_count c) (nominal_voltage_V c)
           (enhance_external_schedule c)
  end.
(** [now1], [now2]: the readings of the clock for the import and the export schedule. *)
Definition set_external_limits (c : NodeConf) (id : string) (now1 now2 leap : Z) (l : ExternalLimits) : op () :=
  cmodify (set_request (λ r, set_schedules (external_schedule c id now1 leap (ext_schedule_import l)) (schedule_export r) r)) ;;
  cmodify (set_request (λ r, set_schedules (schedule_import r) (external_schedule c id now2 leap (ext_schedule_export l)) r)) ;;
  cmodify (set_request (set_setpoints (ext_schedule_setpoints l))).

Record CapabilityLimits := { max_current_A : float; max_phase_count : Z; cap_nominal_voltage_V : float; cap_total_power_W : float }.
Definition capabilities (c : NodeConf) : CapabilityLimits :=
  {| max_current_A := to_float (fuse_limit_A c); max_phase_count := phase_count c;
     cap_nominal_voltage_V := to_float (nominal_voltage_V c);
     cap_total_power_W := to_float (d_mul (d_mul (nominal_voltage_V c) (fuse_limit_A c))
       (d_of_int (if phase_count c =? 0 then 1 else phase_count c))) |}.

(** ** Prices *)

(** The variables of the loop of [merge_price_into_schedule]: what the iterators have left
    (the next entry is read from it once more at the end), and the valid entries. *)
Record merging := {
  it_schedule : ScheduleReq;
  it_price : list PricePerkWh;
  next_entry_schedule : ScheduleReqEntry;
  next_entry_price : PricePerkWh;
  currently_valid_entry_schedule : ScheduleReqEntry;
  currently_valid_entry_price : PricePerkWh;
  joined_schedule : ScheduleReq;
}.

Definition with_price (p : PricePerkWh) (e : ScheduleReqEntry) : ScheduleReqEntry :=
  {| timestamp := timestamp e; limits_to_root := limits_to_root e; limits_to_leaves := limits_to_leaves e;
     conversion_efficiency := conversion_efficiency e; price_per_kwh := Some p |}.
Definition with_timestamp (t : Z) (e : ScheduleReqEntry) : ScheduleReqEntry :=
  {| timestamp := t; limits_to_root := limits_to_root e; limits_to_leaves := limits_to_leaves e;
     conversion_efficiency := conversion_efficiency e; price_per_kwh := price_per_kwh e |}.

(** One pass of the loop; [None]: the condition is false. *)
Definition merge_pass (m : merging) : option merging :=
  match it_schedule m, it_price m with
  | _ :: schedule', _ :: price' =>
      let tp_schedule := timestamp (next_entry_schedule m) in
      let tp_price := price_timestamp (next_entry_price m) in
      if tp_schedule <? tp_price then
        Some {| it_schedule := schedule'; it_price := it_price m;
                next_entry_schedule := List.hd (next_entry_schedule m) schedule'; next_entry_price := next_entry_price m;
                currently_valid_entry_schedule := next_entry_schedule m;
                currently_valid_entry_price := currently_valid_entry_price m;
                joined_schedule := joined_schedule m ++ [with_price (currently_valid_entry_price m) (next_entry_schedule m)] |}%list
      else if tp_price <? tp_schedule then
        Some {| it_schedule := it_schedule m; it_price := price';
                next_entry_schedule := next_entry_schedule m; next_entry_price := List.hd (next_entry_price m) price';
                currently_valid_entry_schedule := currently_valid_entry_schedule m;
                currently_valid_entry_price := next_entry_price m;
                joined_schedule := joined_schedule m ++
                  [with_timestamp tp_price (with_price (next_entry_price m) (currently_valid_entry_schedule m))] |}%list
      else Some m
  | _, _ => None
  end.

(** At most [n] passes; [None]: the loop has not ended. *)
Fixpoint merge_loop (n : nat) (m : merging) : option ScheduleReq :=
  match merge_pass m with
  | None => Some (joined_schedule m)
  | Some m' => match n with O => None | S n' => merge_loop n' m' end
  end.

Definition merge_start (s : ScheduleReqEntry) (schedule : ScheduleReq) (p : PricePerkWh) (price : list PricePerkWh) : merging :=
  {| it_schedule := s :: schedule; it_price := p :: price; next_entry_schedule := s; next_entry_price := p;
     currently_valid_entry_schedule := s; currently_valid_entry_price := p; joined_schedule := [] |}.

(** Whether the loop ends; the schedule is not changed. *)
Definition merge_price_into_schedule (schedule : ScheduleReq) (price : list PricePerkWh) : option ScheduleReq :=
  match schedule, price with
  | s :: schedule', p :: price' =>
      match merge_loop (length schedule + length price) (merge_start s schedule' p price') with
      | Some _ => Some schedule
      | None => None
      end
  | _, _ => Some schedule
  end.

Definition publish_complete_energy_object : op () :=
  s ← cget;
  match schedule_export (request s), energy_pricing s with
  | _ :: _, _ :: _ =>
      match merge_price_into_schedule (schedule_export (request s)) (energy_pricing s) with
      | Some exp => cemit (publish_energy_flow_request (set_schedules (schedule_import (request s)) exp (request s)))
      | None => cthrow no_return
      end
  | _, _ => cemit (publish_energy_flow_request (request s))
  end.

(** ** Messages *)
Definition EnergyState_init (c : NodeConf) (id : string) (now1 now2 leap : Z) : EnergyState :=
  {| request := {| children := []; uuid := id; node_type := Generic; priority_request := None; evse_state := None;
                   optimizer_target := None; usage_root_frequency := None; usage_leaves_frequency := None;
                   schedule_import := get_local_schedule c id now1 leap; schedule_export := get_local_schedule c id now2 leap;
                   schedule_setpoints := [] |};
     energy_pricing := []; child_connections := ∅ |}.

Definition ready : op () := s ← cget; cemit (publish_energy_flow_request (request s)).

(** The rotation of the phases leaves the frequency as it is. *)
Definition on_powermeter (frequency : option float) : op () :=
  cmodify (set_request (set_usage_root frequency)) ;; publish_complete_energy_object.
Definition on_energy_pricing (price : list PricePerkWh) : op () :=
  cmodify (λ s, {| request := request s; energy_pricing := price; child_connections := child_connections s |}) ;;
  publish_complete_energy_object.

(** The child with the uuid replaced, or one more. *)
Fixpoint update_child (r : EnergyFlowRequest) (cs : list EnergyFlowRequest) : list EnergyFlowRequest :=
  match cs with
  | [] => [r]
  | c :: cs' => if (uuid c =? uuid r)%string then r :: cs' else c :: update_child r cs'
  end.
Definition update_child_energy_flow_request (connection : nat) (r : EnergyFlowRequest) : op () :=
  cmodify (set_request (λ q, set_children (update_child r (children q)) q)) ;;
  cmodify (λ s, {| request := request s; energy_pricing := energy_pricing s;
                   child_connections := <[uuid r := connection]> (child_connections s) |}) ;;
  publish_complete_energy_object.

Fixpoint energy_flow_request_contains_uuid (r : EnergyFlowRequest) (id : string) : bool :=
  (uuid r =? id)%string || existsb (λ c, energy_flow_request_contains_uuid c id) (children r).

Fixpoint find_target_connections (s : EnergyState) (id : string) (cs : list EnergyFlowRequest) : op (list nat) :=
  match cs with
  | [] => mret []
  | c :: cs' =>
      if energy_flow_request_contains_uuid c id then
        connection ← match child_connections s !! uuid c with Some n => mret n | None => cthrow out_of_range end;
        rest ← find_target_connections s id cs';
        mret (connection :: rest)
      else find_target_connections s id cs'
  end.

(** [consumers]: the number of connections. *)
Definition handle_enforce_limits (consumers : nat) (v : EnforcedLimits) : op () :=
  s ← cget;
  if (enforced_uuid v =? uuid (request s))%string then mret tt
  else
    targets ← find_target_connections s (enforced_uuid v) (children (request s));
    cfor (match targets with [] => seq 0 consumers | _ => targets end) (λ n, cemit (call_enforce_limits n v)).

End Node.
