(* ===== verification/EnergyNodeFacts.v ===== *)
(** * Guarantees of the energy node

    Requests that a node publishes respect its fuse; enforced limits are routed to the
    children they are for; when merging prices ends; and, with the energy manager, EVSEs
    behind a fuse never get more than the fuse in total. *)

From Stdlib Require Import String Floats.SpecFloat.
From S2P Require Import Prelude Float32 FloatRound EnergyMarket EnergyBroker EnergyManager EnergyAmounts EnergyTrades EnergyFacts EnergyRuns EnergyTree EnergyTotals EnergyOptimizer EnergyNode.

Module NodeFacts.

Import Float32 FloatRound Energy Manager Amounts Trades EnergyFacts EnergyRuns EnergyTree EnergyTotals EnergyOptimizer Node.
#[local] Open Scope string_scope.
#[local] Open Scope Z_scope.

(** ** The fuse *)
Definition fused (c : NodeConf) (e : ScheduleReqEntry) : Prop :=
  (∃ x, ac_max_current_A (limits_to_root e) = Some x ∧
        (value x = to_float (fuse_limit_A c) ∨ d_lt (fuse_limit_A c) (value x) = false)) ∧
  (0 < phase_count c → ∃ n, ac_max_phase_count (limits_to_root e) = Some n ∧ int_value n <= phase_count c).

Lemma process_schedule_fused c id schedule :
  Forall (fused c) (process_schedule_with_limits schedule (source_cfg id) (fuse_limit_A c) (phase_count c) (nominal_voltage_V c) (enhance_external_schedule c)).
Proof.
  apply Forall_forall. intros e He. apply list_elem_of_fmap in He as (e0 & -> & _).
  set (e1 := if enhance_external_schedule c then _ else e0).
  assert (∃ x, ac_max_current_A (limits_to_root (apply_fuse (source_cfg id) (fuse_limit_A c) e1)) = Some x ∧
    (value x = to_float (fuse_limit_A c) ∨ d_lt (fuse_limit_A c) (value x) = false)) as (x & Hx & Hf).
  { unfold apply_fuse. destruct (ac_max_current_A (limits_to_root e1)) as [y|] eqn:Ey; [destruct (d_lt _ _) eqn:Ed|].
    - eexists. split; [reflexivity|by left].
    - exists y. split; [done|by right].
    - eexists. split; [reflexivity|by left]. }
  set (e2 := apply_fuse _ _ _) in *. unfold apply_phases.
  destruct (Z.ltb_spec 0 (phase_count c)) as [Hp|Hp]; cbn [andb]; [|split; [by exists x|lia]].
  destruct (ac_max_phase_count (limits_to_root e2)) as [n|] eqn:En; [destruct (Z.ltb_spec (phase_count c) (int_value n))|].
  - split; [by exists x|]. intros _. eexists. split; [reflexivity|done].
  - split; [by exists x|]. intros _. exists n. split; [done|lia].
  - split; [by exists x|]. intros _. eexists. split; [reflexivity|done].
Qed.

Lemma local_schedule_fused c id now leap : Forall (fused c) (get_local_schedule c id now leap).
Proof.
  repeat constructor; cbn; [eexists; split; [reflexivity|by left]|]. intros _. eexists. split; [reflexivity|done].
Qed.

Lemma external_schedule_fused c id now leap schedule :
  external_schedule c id now leap schedule ≠ [] ∧ Forall (fused c) (external_schedule c id now leap schedule).
Proof.
  destruct schedule as [|e schedule]; cbn [external_schedule]; [split; [done|apply local_schedule_fused]|].
  split; [done|apply process_schedule_fused].
Qed.

(** ** Runs of a node *)
Inductive event :=
| Powermeter (frequency : option float)
| Energy_pricing (price : list PricePerkWh)
| Child_request (connection : nat) (r : EnergyFlowRequest)
| External_limits (l : ExternalLimits) (now1 now2 leap : Z)
| Enforce_limits (v : EnforcedLimits).
Definition handle (c : NodeConf) (id : string) (consumers : nat) (e : event) : op () :=
  match e with
  | Powermeter f => on_powermeter f
  | Energy_pricing p => on_energy_pricing p
  | Child_request n r => update_child_energy_flow_request n r
  | External_limits l now1 now2 leap => set_external_limits c id now1 now2 leap l
  | Enforce_limits v => handle_enforce_limits consumers v
  end.
(** Start-up, and the messages that follow. *)
Definition node_run (c : NodeConf) (id : string) (consumers : nat) (now1 now2 leap : Z) (events : list event) :
    outcome node_error () * EnergyState * list node_output :=
  (ready ;; cfor events (handle c id consumers)) (EnergyState_init c id now1 now2 leap).

(** A request with the limits of the node, and one entry for each child. *)
Record request_ok (c : NodeConf) (id : string) (r : EnergyFlowRequest) : Prop := {
  ok_uuid : uuid r = id;
  ok_import : schedule_import r ≠ [] ∧ Forall (fused c) (schedule_import r);
  ok_export : schedule_export r ≠ [] ∧ Forall (fused c) (schedule_export r);
  ok_children : NoDup (map uuid (children r));
}.
Record state_ok (c : NodeConf) (id : string) (s : EnergyState) : Prop := {
  ok_request : request_ok c id (request s);
  ok_connections r : r ∈ children (request s) → is_Some (child_connections s !! uuid r);
}.
Definition output_ok (c : NodeConf) (id : string) (o : node_output) : Prop :=
  match o with publish_energy_flow_request r => request_ok c id r | call_enforce_limits _ _ => True end.

Lemma update_child_elem r cs x : x ∈ update_child r cs → x = r ∨ x ∈ cs.
Proof.
  induction cs as [|c cs IH]; cbn; [rewrite list_elem_of_singleton; by left|]. destruct (uuid c =? uuid r)%string; rewrite !elem_of_cons; naive_solver.
Qed.
Lemma update_child_uuids r cs : map uuid (update_child r cs) = if bool_decide (uuid r ∈ map uuid cs) then map uuid cs else (map uuid cs ++ [uuid r])%list.
Proof.
  induction cs as [|c cs IH]; cbn; [done|]. destruct (String.eqb_spec (uuid c) (uuid r)) as [E|E]; cbn.
  - rewrite bool_decide_true by (rewrite E; by left). by rewrite E.
  - rewrite IH. case_bool_decide as H1; case_bool_decide as H2; try done; exfalso.
    + apply H2. by right.
    + apply elem_of_cons in H2 as [H2|H2]; [by apply E|done].
Qed.

Section handlers.
Context (c : NodeConf) (id : string) (consumers : nat).

(** What an operation does from a state that is in order. *)
Definition good (m : op ()) : Prop :=
  ∀ s, state_ok c id s → state_ok c id (st_of (m s)) ∧ Forall (output_ok c id) (out_of (m s)) ∧
       (res_of (m s) = Ret tt ∨ res_of (m s) = Throw no_return).

Lemma publish_good : good publish_complete_energy_object.
Proof.
  intros s Hs. unfold publish_complete_energy_object. rewrite bind_get. pose proof (ok_request _ _ _ Hs) as Hr.
  assert (∀ m : op (), m = cemit (publish_energy_flow_request (request s)) →
    state_ok c id (st_of (m s)) ∧ Forall (output_ok c id) (out_of (m s)) ∧ (res_of (m s) = Ret tt ∨ res_of (m s) = Throw no_return)) as Hpub.
  { intros m ->. split_and!; [done|by apply (Forall_singleton (output_ok c id))|by left]. }
  destruct (schedule_export (request s)) as [|e exp] eqn:Ee; [by apply Hpub|]. destruct (energy_pricing s) as [|p price] eqn:Ep; [by apply Hpub|].
  unfold merge_price_into_schedule. destruct (merge_loop _ _); [|split_and!; [done|constructor|by right]].
  split_and!; [done| |by left]. apply (Forall_singleton (output_ok c id)). destruct Hr as [R1 R2 R3 R4]. constructor; try done. by rewrite Ee in R3.
Qed.

Lemma modify_good f (m : op ()) : (∀ s, state_ok c id s → state_ok c id (f s)) → good m → good (cmodify f ;; m).
Proof. intros Hf Hm s Hs. rewrite bind_modify. apply Hm, Hf, Hs. Qed.

Lemma update_child_good n r : good (update_child_energy_flow_request n r).
Proof.
  intros s Hs. unfold update_child_energy_flow_request. rewrite !bind_modify. apply publish_good. destruct Hs as [[R1 R2 R3 R4] Hc].
  constructor; cbn.
  - constructor; try done. cbn. rewrite update_child_uuids. case_bool_decide; [done|]. apply NoDup_app. split_and!; [done| |apply NoDup_singleton].
    intros x Hx ->%list_elem_of_singleton. done.
  - intros x [->|Hx]%update_child_elem; [rewrite lookup_insert_eq; by eexists|].
    destruct (decide (uuid x = uuid r)) as [->|Hne]; [rewrite lookup_insert_eq; by eexists|]. rewrite lookup_insert_ne by done. by apply Hc.
Qed.

(** Where limits for a uuid are sent. *)
Definition connections_for (s : EnergyState) (id' : string) : list nat :=
  omap (λ r, if energy_flow_request_contains_uuid r id' then child_connections s !! uuid r else None) (children (request s)).

Lemma find_targets_run s s' id' cs :
  (∀ r, r ∈ cs → is_Some (child_connections s !! uuid r)) →
  find_target_connections s id' cs s' =
    (Ret (omap (λ r, if energy_flow_request_contains_uuid r id' then child_connections s !! uuid r else None) cs), s', []).
Proof.
  induction cs as [|r cs IH]; intros Hc; [done|]. cbn [find_target_connections omap list_omap].
  specialize (IH ltac:(intros x Hx; apply Hc; by right)). destruct (energy_flow_request_contains_uuid r id'); [|done].
  destruct (Hc r ltac:(by left)) as [n Hn]. rewrite Hn. cprim. by rewrite (bind_pure _ _ _ _ IH).
Qed.

Lemma cfor_emit v s l : cfor l (λ n, cemit (call_enforce_limits n v) : op ()) s = (Ret tt, s, map (λ n, call_enforce_limits n v) l).
Proof. induction l as [|n l IH]; [done|]. cbn [cfor map]. by apply (bind_eq _ _ _ tt s [call_enforce_limits n v]). Qed.

Lemma enforce_run v s :
  state_ok c id s →
  handle_enforce_limits consumers v s =
    (Ret tt, s, map (λ n, call_enforce_limits n v)
       (if (enforced_uuid v =? id)%string then [] else
        match connections_for s (enforced_uuid v) with [] => seq 0 consumers | l => l end)).
Proof.
  intros [Hr Hc]. unfold handle_enforce_limits. rewrite bind_get, (ok_uuid _ _ _ Hr). destruct (_ =? _)%string; [done|].
  rewrite (bind_pure _ _ _ _ (find_targets_run s s (enforced_uuid v) _ Hc)). fold (connections_for s (enforced_uuid v)).
  rewrite cfor_emit. by destruct (connections_for s (enforced_uuid v)).
Qed.

Lemma handle_good e : good (handle c id consumers e).
Proof.
  destruct e as [f|p|n r|l now1 now2 leap|v]; cbn [handle].
  - apply modify_good; [|apply publish_good]. intros s [[R1 R2 R3 R4] Hc]. constructor; [by constructor|done].
  - apply modify_good; [|apply publish_good]. intros s [[R1 R2 R3 R4] Hc]. constructor; [by constructor|done].
  - apply update_child_good.
  - intros s [[R1 R2 R3 R4] Hc]. unfold set_external_limits. rewrite !bind_modify.
    split_and!; [|constructor|by left]. constructor; [|done]. constructor; try done; apply external_schedule_fused.
  - intros s Hs. rewrite (enforce_run v s Hs). split_and!; [done| |by left]. apply Forall_forall. intros o Ho.
    apply list_elem_of_fmap in Ho as (n & -> & _). done.
Qed.

Lemma cfor_good events : good (cfor events (handle c id consumers)).
Proof.
  induction events as [|e events IH]; intros s Hs; [split_and!; [done|constructor|by left]|]. cbn [cfor].
  destruct (handle_good e s Hs) as (H1 & H2 & H3). unfold mbind, cmd_mbind, cmd_bind.
  destruct (handle c id consumers e s) as [[[[]| |] s1] t1]; cbn in *; try done; try naive_solver.
  destruct (IH s1 H1) as (G1 & G2 & G3). destruct (cfor events (handle c id consumers) s1) as [[r s2] t2]. split_and!; [done|by apply Forall_app|done].
Qed.

Lemma init_ok now1 now2 leap : state_ok c id (EnergyState_init c id now1 now2 leap).
Proof.
  constructor; [|by intros r ?%elem_of_nil]. constructor; [done|split; [done|apply local_schedule_fused]..|constructor].
Qed.

Lemma node_run_ok now1 now2 leap events :
  let r := node_run c id consumers now1 now2 leap events in
  state_ok c id (st_of r) ∧ Forall (output_ok c id) (out_of r) ∧ (res_of r = Ret tt ∨ res_of r = Throw no_return).
Proof.
  cbv zeta. unfold node_run, ready. pose proof (init_ok now1 now2 leap) as H0. set (s := EnergyState_init _ _ _ _ _) in *.
  destruct (cfor_good events s H0) as (H1 & H2 & H3). unfold mbind, cmd_mbind, cmd_bind, cget, cemit.
  destruct (cfor events (handle c id consumers) s) as [[r s2] t2]. cbn in *. split_and!; [done| |done]. constructor; [apply H0|done].
Qed.

End handlers.

(** C28: A node never publishes more than its fuse. Whatever messages it receives, every
    request it publishes has, in every entry of its import and its export schedule, a
    current limit that is the fuse limit in single precision or is not found greater than
    the fuse limit in the comparison in double precision (which a NaN passes), and, if
    the configured phase count is positive, a number of phases of at most the configured
    one; its children have different uuids; and no message makes the lookup of a
    connection fail. *)
Theorem published_within_fuse c id consumers now1 now2 leap events :
  let r := node_run c id consumers now1 now2 leap events in
  res_of r ≠ Throw out_of_range ∧
  ∀ q, publish_energy_flow_request q ∈ out_of r →
    uuid q = id ∧ NoDup (map uuid (children q)) ∧ schedule_import q ≠ [] ∧ schedule_export q ≠ [] ∧
    ∀ e, e ∈ schedule_import q ∨ e ∈ schedule_export q →
      (∃ x, ac_max_current_A (limits_to_root e) = Some x ∧
            (value x = to_float (fuse_limit_A c) ∨ d_lt (fuse_limit_A c) (value x) = false)) ∧
      (0 < phase_count c → ∃ n, ac_max_phase_count (limits_to_root e) = Some n ∧ int_value n <= phase_count c).
Proof.
  destruct (node_run_ok c id consumers now1 now2 leap events) as (_ & Ho & Hr). cbv zeta. split; [destruct Hr as [-> | ->]; done|].
  intros q Hq. rewrite Forall_forall in Ho. destruct (Ho _ Hq) as [R1 [R2 R2'] [R3 R3'] R4]. rewrite !Forall_forall in *.
  split_and!; try done. intros e [He|He]; [by apply R2'|by apply R3'].
Qed.

(** ** Routing *)

(** [u] is the uuid of a node of the tree [q]. *)
Definition has_node (q : EnergyFlowRequest) (u : string) : Prop := ∃ path q', descend q path = Some q' ∧ uuid q' = u.

Lemma contains_uuid_spec q u : energy_flow_request_contains_uuid q u = true ↔ has_node q u.
Proof.
  revert q. induction q as [q IH] using request_ind.
  assert (energy_flow_request_contains_uuid q u = (uuid q =? u)%string || existsb (λ c, energy_flow_request_contains_uuid c u) (children q))
    as -> by (by destruct q).
  rewrite orb_true_iff, String.eqb_eq, existsb_exists. rewrite Forall_forall in IH. split.
  - intros [E|(c & Hc & H)]; [by exists [], q|]. apply list_elem_of_In in Hc. apply (IH c Hc) in H as (path & q' & Hd & Hu).
    apply list_elem_of_lookup_1 in Hc as [k Hk]. exists (k :: path), q'. cbn. by rewrite Hk.
  - intros ([|k path] & q' & Hd & Hu); cbn in Hd; [injection Hd as <-; by left|].
    destruct (children q !! k) as [c|] eqn:Hk; [|done]. apply list_elem_of_lookup_2 in Hk. right. exists c.
    split; [by apply list_elem_of_In|]. apply (IH c Hk). by exists path, q'.
Qed.

(** The last request received for a uuid, and the connection it came through. *)
Definition learn (f : string → option (nat * EnergyFlowRequest)) (e : event) : string → option (nat * EnergyFlowRequest) :=
  match e with Child_request n r => λ u, if (uuid r =? u)%string then Some (n, r) else f u | _ => f end.
Definition last_request (events : list event) : string → option (nat * EnergyFlowRequest) := foldl learn (λ _, None) events.

Definition tracks (f : string → option (nat * EnergyFlowRequest)) (s : EnergyState) : Prop :=
  (∀ u, child_connections s !! u = fst <$> f u) ∧
  ∀ q, q ∈ children (request s) ↔ ∃ n, f (uuid q) = Some (n, q).

Lemma update_child_iff r cs x : NoDup (map uuid cs) → x ∈ update_child r cs ↔ x = r ∨ x ∈ cs ∧ uuid x ≠ uuid r.
Proof.
  induction cs as [|q cs IH]; cbn; [intros _; rewrite list_elem_of_singleton; set_solver|].
  intros [Hq Hn]%NoDup_cons. specialize (IH Hn). assert (∀ y, y ∈ cs → uuid y ≠ uuid q) as Hd.
  { intros y Hy E. apply Hq. rewrite <- E. by apply list_elem_of_fmap_2. }
  destruct (String.eqb_spec (uuid q) (uuid r)) as [E|E]; rewrite !elem_of_cons.
  - rewrite E in Hd. split; [intros [->|Hx]; auto|]. intros [->|[[->|Hx] H]]; [by left|done|by right].
  - rewrite IH. naive_solver.
Qed.

Lemma publish_frame s : st_of (publish_complete_energy_object s) = s.
Proof.
  unfold publish_complete_energy_object. rewrite bind_get. repeat case_match; done.
Qed.

Lemma handle_tracks c id consumers e f s :
  state_ok c id s → tracks f s → tracks (learn f e) (st_of (handle c id consumers e s)).
Proof.
  intros Hs [Hc Hq]. destruct e as [x|p|n r|l now1 now2 leap|v]; cbn [handle learn].
  - unfold on_powermeter. rewrite bind_modify, publish_frame. done.
  - unfold on_energy_pricing. rewrite bind_modify, publish_frame. done.
  - unfold update_child_energy_flow_request. rewrite !bind_modify, publish_frame. split; cbn.
    + intros u. destruct (String.eqb_spec (uuid r) u) as [->|Hu]; [by rewrite lookup_insert_eq|].
      by rewrite lookup_insert_ne.
    + intros q. rewrite update_child_iff by apply Hs. rewrite Hq.
      destruct (String.eqb_spec (uuid r) (uuid q)) as [E|E]; naive_solver.
  - unfold set_external_limits. by rewrite !bind_modify.
  - by rewrite (enforce_run c id consumers v s Hs).
Qed.

Lemma cfor_tracks c id consumers events f s :
  state_ok c id s → tracks f s → res_of (cfor events (handle c id consumers) s) = Ret tt →
  tracks (foldl learn f events) (st_of (cfor events (handle c id consumers) s)).
Proof.
  revert f s. induction events as [|e events IH]; intros f s Hs Ht; [done|]. cbn [cfor foldl].
  pose proof (handle_tracks c id consumers e f s Hs Ht) as H1. destruct (handle_good c id consumers e s Hs) as (H2 & _ & _).
  unfold mbind, cmd_mbind, cmd_bind. destruct (handle c id consumers e s) as [[[[]| |] s1] t1]; try done. cbn in H1, H2.
  specialize (IH (learn f e) s1 H2 H1). by destruct (cfor events (handle c id consumers) s1) as [[r s2] t2].
Qed.

Lemma node_run_tracks c id consumers now1 now2 leap events :
  let r := node_run c id consumers now1 now2 leap events in
  res_of r = Ret tt → tracks (last_request events) (st_of r).
Proof.
  cbv zeta. unfold node_run, ready. pose proof (init_ok c id now1 now2 leap) as H0. set (s := EnergyState_init _ _ _ _ _) in *.
  assert (tracks (λ _, None) s) as Ht.
  { split; [intros u; apply lookup_empty|]. intros q. cbn. split; [by intros ?%elem_of_nil|by intros [? ?]]. }
  pose proof (cfor_tracks c id consumers events _ s H0 Ht) as H. unfold mbind, cmd_mbind, cmd_bind, cget, cemit.
  destruct (cfor events (handle c id consumers) s) as [[r s2] t2]. exact H.
Qed.

(** C30: Enforced limits reach the part of the tree they are for.  After any messages that a
    node has dealt with, take the last request it received for each uuid and the connection
    that request came through.  Limits for the node itself are not passed on.  Other limits
    are passed once for each of these requests that has a node with their uuid at any depth,
    through its connection; if there is none, to all consumers.  The state is unchanged. *)
Theorem limits_routed c id consumers now1 now2 leap events v :
  let r := node_run c id consumers now1 now2 leap events in
  res_of r = Ret tt →
  ∃ targets : list (nat * EnergyFlowRequest),
    NoDup (map (λ t, uuid t.2) targets) ∧
    (∀ n q, (n, q) ∈ targets ↔ last_request events (uuid q) = Some (n, q) ∧ has_node q (enforced_uuid v)) ∧
    handle_enforce_limits consumers v (st_of r) =
      (Ret tt, st_of r, map (λ n, call_enforce_limits n v)
        (if decide (enforced_uuid v = id) then [] else
         match targets with [] => seq 0 consumers | _ => map fst targets end)).
Proof.
  intros r Hr. destruct (node_run_ok c id consumers now1 now2 leap events) as (Hs & _).
  destruct (node_run_tracks c id consumers now1 now2 leap events Hr) as [Hc Hq]. fold r in Hs, Hc, Hq. set (s := st_of r) in *.
  set (pick q := if energy_flow_request_contains_uuid q (enforced_uuid v) then (λ n, (n, q)) <$> child_connections s !! uuid q else None).
  exists (omap pick (children (request s))). split_and!.
  - destruct Hs as [[_ _ _ Hn] _]. clear -Hn. induction (children (request s)) as [|q l IH]; [constructor|].
    cbn in Hn. apply NoDup_cons in Hn as [Hq Hn]. cbn. unfold pick at 1. destruct (energy_flow_request_contains_uuid q _); [|auto].
    destruct (child_connections s !! uuid q); cbn; [|auto]. apply NoDup_cons. split; [|auto]. intros H. apply Hq. clear -H.
    apply list_elem_of_fmap in H as ((n & q') & E & (q1 & H1 & H2)%list_elem_of_omap). rewrite E. unfold pick in H2.
    destruct (energy_flow_request_contains_uuid q1 _); [|done]. destruct (child_connections s !! uuid q1); [|done].
    injection H2 as _ <-. by apply list_elem_of_fmap_2.
  - intros n q. rewrite list_elem_of_omap, <- contains_uuid_spec. split.
    + intros (q1 & H1 & H2). unfold pick in H2. destruct (energy_flow_request_contains_uuid q1 _) eqn:E; [|done].
      rewrite Hc in H2. apply Hq in H1 as [n1 H1]. rewrite H1 in H2. cbn in H2. by injection H2 as -> ->.
    + intros [H1 H2]. exists q. split; [apply Hq; by exists n|]. unfold pick. by rewrite H2, Hc, H1.
  - rewrite (enforce_run c id consumers v s Hs). f_equal. f_equal.
    destruct (String.eqb_spec (enforced_uuid v) id) as [E|E]; [by rewrite decide_True|]. rewrite decide_False by done.
    assert (connections_for s (enforced_uuid v) = map fst (omap pick (children (request s)))) as ->.
    { unfold connections_for, pick. clear Hq. induction (children (request s)) as [|q l IH]; [done|]. cbn.
      destruct (energy_flow_request_contains_uuid q _); [|exact IH]. destruct (child_connections s !! uuid q); cbn; by rewrite IH. }
    by destruct (omap pick (children (request s))).
Qed.

(** ** Prices *)
Definition left_over (m : merging) : nat := (length (it_schedule m) + length (it_price m))%nat.

Lemma merge_pass_less m m' : merge_pass m = Some m' → m' = m ∨ (left_over m' < left_over m)%nat.
Proof.
  unfold merge_pass, left_over. destruct (it_schedule m) as [|s sch] eqn:Es; [done|]. destruct (it_price m) as [|p pr] eqn:Ep; [done|].
  destruct (_ <? _); [intros [= <-]; right; cbn; lia|]. destruct (_ <? _); intros [= <-]; [right; cbn; lia|by left].
Qed.
Lemma merge_stalled m n : merge_pass m = Some m → merge_loop n m = None.
Proof. intros H. induction n as [|n IH]; cbn; rewrite H; done. Qed.

(** The loop ends within [left_over] passes, or not at all. *)
Lemma merge_loop_enough n : ∀ m k, merge_loop n m ≠ None → (left_over m <= k)%nat → merge_loop k m = merge_loop n m.
Proof.
  induction n as [|n IH]; intros m k Hn Hk; destruct (merge_pass m) as [m'|] eqn:Em.
  - cbn in Hn. by rewrite Em in Hn.
  - destruct k; cbn; by rewrite Em.
  - destruct (merge_pass_less m m' Em) as [->|Hl]; [by rewrite (merge_stalled m (S n) Em) in Hn|].
    destruct k as [|k]; [lia|]. cbn in Hn |- *. rewrite Em in *. apply IH; [done|lia].
  - destruct k; cbn; by rewrite Em.
Qed.

(** The next entries are those the iterators point to. *)
Definition coherent (m : merging) : Prop :=
  (∀ s l, it_schedule m = s :: l → next_entry_schedule m = s) ∧ (∀ p l, it_price m = p :: l → next_entry_price m = p).
Lemma coherent_pass m m' : coherent m → merge_pass m = Some m' → coherent m'.
Proof.
  intros [H1 H2]. unfold merge_pass. destruct (it_schedule m) as [|s sch] eqn:Es; [done|]. destruct (it_price m) as [|p pr] eqn:Ep; [done|].
  destruct (_ <? _); [intros [= <-]; split; cbn; [by intros s' l ->|intros p' l E; apply (H2 p' l); congruence]|].
  destruct (_ <? _); intros [= <-]; [|split; intros ? l E; [apply (H1 _ l)|apply (H2 _ l)]; congruence].
  split; cbn; [intros s' l E; apply (H1 s' l); congruence|by intros p' l ->].
Qed.

Lemma merge_apart n : ∀ m,
  coherent m → (left_over m <= n)%nat →
  (∀ s p, s ∈ it_schedule m → p ∈ it_price m → timestamp s ≠ price_timestamp p) → merge_loop n m ≠ None.
Proof.
  induction n as [|n IH]; intros m Hc Hn Hap; cbn; destruct (merge_pass m) as [m'|] eqn:Em; try done.
  - unfold merge_pass, left_over in *. destruct (it_schedule m); [done|]. cbn in Hn. lia.
  - apply IH; [by eapply coherent_pass|..].
    + destruct (merge_pass_less m m' Em) as [->|Hl]; [exfalso|lia]. destruct Hc as [H1 H2]. unfold merge_pass in Em.
      destruct (it_schedule m) as [|s sch] eqn:Es; [done|]. destruct (it_price m) as [|p pr] eqn:Ep; [done|].
      specialize (Hap s p ltac:(by left) ltac:(by left)). rewrite (H1 s sch eq_refl), (H2 p pr eq_refl) in Em.
      destruct (Z.ltb_spec (timestamp s) (price_timestamp p)).
      { injection Em as Em. apply (f_equal it_schedule) in Em. cbn in Em. rewrite Es in Em. apply (f_equal length) in Em. cbn in Em. lia. }
      destruct (Z.ltb_spec (price_timestamp p) (timestamp s)); [|lia].
      injection Em as Em. apply (f_equal it_price) in Em. cbn in Em. rewrite Ep in Em. apply (f_equal length) in Em. cbn in Em. lia.
    + intros s p Hs Hp. apply Hap; clear -Em Hs Hp; unfold merge_pass in Em;
        destruct (it_schedule m) as [|s0 sch] eqn:Es; try done; destruct (it_price m) as [|p0 pr] eqn:Ep; try done;
        destruct (_ <? _); try (destruct (_ <? _)); injection Em as <-; cbn in Hs, Hp; rewrite ?Es, ?Ep in *; done || by right.
Qed.

(** C29: When merging prices ends.  If no entry of the schedule has the timestamp of a price,
    the loop ends and the schedule is as it was, without prices.  If the first entry and the
    first price have the same timestamp, it never ends, however many passes it gets; and in
    no case is there a pass that decides it after the number of entries and prices. *)
Theorem merge_ends_or_hangs s schedule p price :
  let m := merge_start s schedule p price in
  ((∀ s' p', s' ∈ s :: schedule → p' ∈ p :: price → timestamp s' ≠ price_timestamp p') →
     merge_price_into_schedule (s :: schedule) (p :: price) = Some (s :: schedule)) ∧
  (timestamp s = price_timestamp p → merge_price_into_schedule (s :: schedule) (p :: price) = None ∧ ∀ n, merge_loop n m = None) ∧
  (∀ n, merge_loop n m ≠ None → merge_price_into_schedule (s :: schedule) (p :: price) = Some (s :: schedule)).
Proof.
  cbv zeta. set (m := merge_start s schedule p price).
  assert (merge_loop (length (s :: schedule) + length (p :: price)) m ≠ None →
    merge_price_into_schedule (s :: schedule) (p :: price) = Some (s :: schedule)) as Hok.
  { unfold merge_price_into_schedule. fold m. by destruct (merge_loop _ m). }
  split_and!.
  - intros Hap. apply Hok, merge_apart; [|done|done]. split; cbn; [by intros ? ? [= <- <-]|by intros ? ? [= <- <-]].
  - intros E. assert (merge_pass m = Some m) as Hp.
    { unfold merge_pass, m. cbn. rewrite E, !Z.ltb_irrefl. done. }
    split; [|by intros n; apply merge_stalled]. unfold merge_price_into_schedule. fold m. by rewrite (merge_stalled m _ Hp).
  - intros n Hn. apply Hok. by rewrite (merge_loop_enough n m).
Qed.

(** ** Behind the fuse *)

(** A fuse limit that can be worked with. *)
Definition sane_fuse (d : double) : bool :=
  match d with
  | S754_zero false => true
  | S754_finite false m e => (-149 <=? e) && (Zpos m * 2 ^ (e + grain) * 2 <? f_max)
  | _ => false
  end.

Lemma to_float_closest d : sane_fuse d = true → closest (to_float d) (grains d) ∧ 0 <= grains (to_float d).
Proof.
  destruct d as [[]| | |[] m e]; try done; cbn [sane_fuse to_float].
  rewrite andb_true_iff, Z.leb_le, Z.ltb_lt. intros [He Hm]. pose proof (binary_round_closest false m e He Hm) as Hc.
  split; [exact Hc|]. apply (closest_ge _ _ Hc zero); [done|]. cbn. pose proof (pow_grain e ltac:(lia)). lia.
Qed.

Lemma d_lt_grains d x : sane_fuse d = true → sound x = true → d_lt d x = (grains d <? grains x).
Proof.
  intros Hd Hx.
  assert (∀ lo a, (a = d ∨ a = x) → lo <= exponent a → -298 <= lo → grains a = units lo a * 2 ^ (lo + grain)) as Hu.
  { intros lo a Ha Hlo H298. destruct a as [s|s| |s m e]; try (cbn; lia). cbn [grains units exponent] in *.
    rewrite (grains_step lo e) by lia. destruct s; cbn; lia. }
  assert (-298 <= exponent x) as Hex.
  { destruct x as [s|s| |s m e]; cbn; try lia. apply andb_true_iff in Hx as [V _]. apply valid_finite in V as (He & _). lia. }
  assert (-298 <= exponent d) as Hed.
  { destruct d as [[]| | |[] m e]; try done; cbn in *. rewrite andb_true_iff, Z.leb_le in Hd. lia. }
  assert (d_lt d x = (units (Z.min (exponent d) (exponent x)) d <? units (Z.min (exponent d) (exponent x)) x)) as ->.
  { destruct d as [[]|[]| |[] m e], x as [s'|s'| |s' m' e']; try done. }
  rewrite (Hu (Z.min (exponent d) (exponent x)) d), (Hu (Z.min (exponent d) (exponent x)) x) by (try tauto; lia).
  pose proof (pow_grain (Z.min (exponent d) (exponent x)) ltac:(lia)).
  destruct (Z.ltb_spec (units (Z.min (exponent d) (exponent x)) d) (units (Z.min (exponent d) (exponent x)) x));
    destruct (Z.ltb_spec (units (Z.min (exponent d) (exponent x)) d * 2 ^ (Z.min (exponent d) (exponent x) + grain))
      (units (Z.min (exponent d) (exponent x)) x * 2 ^ (Z.min (exponent d) (exponent x) + grain))); try done; nia.
Qed.

Lemma fuse_le d x :
  sane_fuse d = true → valid x = true → (x = to_float d ∨ d_lt d x = false) → is_number x → f_le x (to_float d).
Proof.
  intros Hd Hv Hx Hn. destruct (to_float_closest d Hd) as [Hc H0]. pose proof (closest_sound _ _ Hc) as Sf.
  destruct (is_finite x) eqn:Hf.
  - assert (sound x = true) as Sx by (unfold sound; by rewrite Hv, Hf). unfold f_le. rewrite f_ge_grains by done. apply Z.leb_le.
    destruct Hx as [->|Hx]; [done|]. rewrite (d_lt_grains d x Hd Sx), Z.ltb_ge in Hx. by apply (closest_ge _ _ Hc).
  - destruct x as [s|[]| |s m e]; try done.
    + apply f_ge_spec. split_and!; [intros E; by rewrite E in Sf|done|]. unfold place_lt.
      destruct (to_float d) as [s|s| |[] m e]; cbn; try lia; done.
    + destruct Hx as [Hx|Hx]; [rewrite <- Hx in Sf; by apply andb_true_iff in Sf as [_ ?]|].
      by destruct d as [[]| | |[] m e].
Qed.

(** A current limit of at most [F]. *)
Definition limited (F : float) (l : LimitsReq) : Prop :=
  ∃ y, ac_max_current_A l = Some y ∧ (is_number (value y) → f_le (value y) F).

Lemma corresponding_entry_elem {A} (time : A → Z) tp l : ∀ first, l ≠ [] → ∃ e, corresponding_entry time first tp l = Some e ∧ e ∈ l.
Proof.
  induction l as [|a [|b l] IH]; intros first Hl; [done|exists a; split; [done|by left]|].
  change (corresponding_entry time first tp (a :: b :: l)) with
    (if (time a <=? tp) && (tp <? time b) || first && (tp <? time a) then Some a else corresponding_entry time false tp (b :: l)).
  destruct (_ || _); [exists a; split; [done|by left]|]. destruct (IH false ltac:(done)) as (e & He & Hin). exists e. split; [done|by right].
Qed.

Lemma merged_limited F e : limited F (limits_to_root e) → limited F (merged_limits e).
Proof.
  intros (y & Hy & Hle). unfold limited. cbn. rewrite Hy. destruct (ac_max_current_A (limits_to_leaves e)) as [x|]; cbn [min_optional]; [|by exists y].
  destruct (f_lt (value x) (value y)) eqn:Hlt; [|by exists y]. exists x. split; [done|]. intros Hn.
  transitivity (value y); [by apply f_lt_le|]. apply Hle. apply f_lt_spec in Hlt. naive_solver.
Qed.

Lemma setpoint_limited F freq s imp exp : f_le zero F → limited F imp → limited F (apply_setpoint freq s imp exp).1.
Proof.
  intros H0 (y & Hy & Hle). unfold apply_setpoint. destruct (setpoint s) as [sp|]; [|by exists y].
  assert (∀ w, limited F (power_setpoint sp w imp exp).1) as Hpow.
  { intros w. unfold power_setpoint. destruct (f_ge w zero); by exists y. }
  destruct (sp_ac_current_A sp) as [a|]; [|destruct (sp_total_power_W sp); [done|]; destruct (sp_frequency_table sp), freq; done || by exists y].
  unfold current_setpoint. destruct (f_ge a zero); cbn [fst]; [|eexists; split; [reflexivity|done]].
  unfold limited. cbn [set_max_current ac_max_current_A]. rewrite Hy. cbn [apply_limit_if_smaller]. unfold f_gt.
  destruct (f_lt a (value y)) eqn:Hlt; [|by exists y]. eexists. split; [reflexivity|]. intros _. cbn [value number].
  transitivity (value y); [by apply f_lt_le|]. apply Hle. apply f_lt_spec in Hlt. naive_solver.
Qed.

Lemma setpoints_limited F freq sps : f_le zero F → ∀ imp exp,
  Forall (limited F) (roots imp) → Forall (limited F) (roots (apply_setpoints imp exp sps freq).1).
Proof.
  intros H0 imp exp Hi. unfold apply_setpoints. destruct (negb _); [done|]. destruct (negb _); [done|]. revert imp exp Hi.
  induction sps as [|s sps IH]; intros [|a imp] [|b exp] Hi; try done. cbn [map] in Hi. apply Forall_cons in Hi as [Ha Hi]. cbn [apply_setpoints_loop].
  pose proof (setpoint_limited F freq s (limits_to_root a) (limits_to_root b) H0 Ha) as Hs. destruct (apply_setpoint freq s _ _) as [la lb].
  specialize (IH imp exp Hi). destruct (apply_setpoints_loop freq sps imp exp) as [imp' exp']. cbn [fst map] in *. constructor; done.
Qed.

Lemma Market_node_limited g v r F :
  f_le zero F → schedule_import r ≠ [] → Forall (limited F) (roots (schedule_import r)) →
  Forall (limited F) (roots (import_max_available (Market_node g v r))).
Proof.
  intros H0 Hne Hi. unfold Market_node. destruct (schedule_import r) as [|e l] eqn:Es; [done|]. rewrite <- Es in *.
  set (imp := get_max_available_energy g _). set (exp := match schedule_export r with [] => _ | _ => _ end).
  set (sps := match schedule_setpoints r with [] => _ | _ => _ end). set (freq := match usage_root_frequency r with Some _ => _ | _ => _ end).
  assert (Forall (limited F) (roots imp)) as Himp.
  { apply Forall_forall. intros x Hx. apply list_elem_of_fmap in Hx as (a & -> & Ha). apply list_elem_of_fmap in Ha as (b & -> & Hb).
    destruct (corresponding_entry_elem timestamp (timestamp b) (schedule_import r) true ltac:(by rewrite Es)) as (y & -> & Hy). cbn.
    apply merged_limited. rewrite Forall_forall in Hi. apply Hi. by apply list_elem_of_fmap_2. }
  pose proof (setpoints_limited F freq sps H0 imp exp Himp) as H. by destruct (apply_setpoints imp exp sps freq).
Qed.

(** C7: Behind a fuse.  Let a node of the tree be an energy node, with a request it published
    in any run.  Then in every time slot the EVSEs below it get no more current, in total,
    than its fuse limit, but for rounding.  EVSEs are leaves of the tree and those below the
    node cannot export. *)
Theorem fuse_protects c id consumers now1 now2 leap0 events r' leap request start readings i path j :
  sane_fuse (fuse_limit_A c) = true →
  publish_energy_flow_request r' ∈ out_of (node_run c id consumers now1 now2 leap0 events) →
  (∀ e x, e ∈ schedule_import r' → ac_max_current_A (limits_to_root e) = Some x → valid (value x) = true) →
  sane_run leap request start i = true → evses_are_leaves request = true → descend request path = Some r' →
  (j < schedule_length (run_slots leap request start i))%nat →
  let evses := get_list_of_evses request [] in
  (∀ e, e ∈ evses_below (rev path) evses → imports_only (first_markets leap request start i) Current j e) →
  let below_fuse := filter (λ x, rev path `suffix_of` x.1) (zip evses (run_optimizer leap request start readings i).1) in
  ∃ account, within account (grains (to_float (fuse_limit_A c))) ∧
    (2 ^ 24 + 1 - 200 * Z.of_nat (length evses)) * sum (λ x, enforced_at Current j x.2) below_fuse <= (2 ^ 24 + 1) * account.
Proof.
  intros Hfu Hpub Hval Hs Hl Hd Hj evses Hno below_fuse. set (g := run_slots leap request start i) in *.
  destruct (node_run_ok c id consumers now1 now2 leap0 events) as (_ & Ho & _). rewrite Forall_forall in Ho.
  destruct (Ho _ Hpub) as [_ [Hne Hf] _ _]. destruct (to_float_closest _ Hfu) as [Hc H0]. pose proof (closest_sound _ _ Hc) as Sf.
  assert (f_le zero (to_float (fuse_limit_A c))) as Hz by (unfold f_le; rewrite f_ge_grains by done; by apply Z.leb_le).
  pose proof (Market_node_limited g (run_voltage i) r' _ Hz Hne) as Hlim.
  assert (length (import_max_available (Market_node g (run_voltage i) r')) = schedule_length g) as Hlen by apply Market_node_length.
  destruct (lookup_lt_is_Some_2 (import_max_available (Market_node g (run_voltage i) r')) j ltac:(lia)) as [imp Himp].
  assert (limited (to_float (fuse_limit_A c)) (limits_to_root imp)) as (y & Hy & Hle).
  { eapply Forall_lookup_1; [apply Hlim|by rewrite list_lookup_fmap, Himp]. apply Forall_forall. intros x Hx.
    apply list_elem_of_fmap in Hx as (e & -> & He). rewrite Forall_forall in Hf. destruct (Hf e He) as [(z & Ez & Hz') _].
    exists z. split; [done|]. intros Hn. by apply fuse_le; [|eapply Hval|..]. }
  destruct (limits_total leap request start readings i path r' Current j imp y Hs Hl Hd Himp Hy Hno) as (account & Hw & Ht).
  exists account. split; [|done]. assert (sane (value y) = true) as [Sy _]%sane_spec.
  { destruct (optimize_ok leap request start readings i (λ _ _, True) Hs) as (k & _ & Hst & _ & Hk & _); [done|done|].
    destruct (kept_node leap request start i _ path r' Hk Hd) as (m & Hm & [= E1 E2 E3]). destruct (Hst _ _ Hm) as [_ _ _ N4 _ _].
    eapply Forall_lookup_1 in N4; [|rewrite E2, list_lookup_fmap; fold g; by rewrite Himp]. apply sane_limits_spec in N4 as [H _]. by apply (H Current y). }
  assert (is_number (value y)) as Hn by (intros E; by rewrite E in Sy). specialize (Hle Hn). unfold f_le in Hle.
  rewrite f_ge_grains, Z.leb_le in Hle by done. amounts. lia.
Qed.

End NodeFacts.
