(* ===== verification/EnergyDemo.v ===== *)
(** * Runs of the energy manager

    Concrete trees: sharing of a limit, phases, and what the bound on the rounds costs; the
    witnesses of the theorems of [EnergyOptimizer]. *)

From Stdlib Require Import String Floats.SpecFloat.
From S2P Require Import Prelude Float32 FloatRound EnergyMarket EnergyBroker EnergyManager EnergyAmounts EnergyTrades EnergyFacts EnergyRuns EnergyTree EnergyTotals EnergyOptimizer EnergyMinimum EnergyNode EnergyNodeFacts.

Module EnergyDemo.

Import Float32 FloatRound Energy Broker Manager Amounts Trades EnergyFacts EnergyRuns EnergyTree EnergyTotals EnergyOptimizer EnergyMinimum.
Import Node (d_of_int, d_div).
#[local] Open Scope string_scope.
#[local] Open Scope Z_scope.

(** ** Trees *)
Definition phases (n : Z) : option IntegerWithSource := Some {| int_value := n; int_source := "evse" |}.
Definition limits (current power minimum : option Z) : LimitsReq :=
  {| total_power_W := (λ x, number (of_int x) "power") <$> power; ac_max_current_A := (λ x, number (of_int x) "current") <$> current;
     ac_min_current_A := (λ x, number (of_int x) "minimum") <$> minimum; ac_max_phase_count := phases 3; ac_min_phase_count := phases 1;
     ac_supports_changing_phases_during_charging := None; ac_number_of_active_phases := Some 3 |}.
(** A schedule of one entry, 1000 s after the epoch. *)
Definition always (l : LimitsReq) : ScheduleReq :=
  [{| timestamp := 1000 * 1000000000; limits_to_root := l; limits_to_leaves := LimitsReq_new; conversion_efficiency := None;
      price_per_kwh := None |}].
Definition node (t : NodeType) (id : string) (cs : list EnergyFlowRequest) (current power minimum : option Z) : EnergyFlowRequest :=
  {| children := cs; uuid := id; node_type := t; priority_request := None; evse_state := None; optimizer_target := None;
     usage_root_frequency := None; usage_leaves_frequency := None; schedule_import := always (limits current power minimum);
     schedule_export := always (limits (Some 0) (Some 0) None); schedule_setpoints := [] |}.

(** The default configuration, for schedules of one hour. *)
Definition defaults : EnergyManagerConfig :=
  {| nominal_ac_voltage := d_of_int 230; update_interval := 1; schedule_interval_duration := 60; schedule_total_duration := 1;
     slice_ampere := d_div (d_of_int 1) (d_of_int 2); slice_watt := d_of_int 500; switch_3ph1ph_while_charging_mode := "Never";
     switch_3ph1ph_max_nr_of_switches_per_session := 0; switch_3ph1ph_switch_limit_stickyness := "DontChange";
     switch_3ph1ph_power_hysteresis_W := 200; switch_3ph1ph_time_hysteresis_s := 600 |}.
Definition manager : EnergyManagerImpl := EnergyManagerImpl_new defaults.
Definition leap_seconds : Z := 27 * 1000000000.
Definition now : Z := 1000500 * 1000000.

(** Thousandths of the limits published for the EVSEs. *)
Definition thousandths (x : option NumberWithSource) : option Z := (λ y, grains (value y) / (unit / 1000)) <$> x.
Definition published (r : EnergyFlowRequest) : list (string * option Z * option Z) :=
  map (λ e, (enforced_uuid e, thousandths (res_ac_max_current_A (limits_root_side e)), thousandths (res_total_power_W (limits_root_side e))))
    (run_optimizer leap_seconds r now [now] manager).1.

(** A fuse of 30 A for two EVSEs. *)
Definition shared : EnergyFlowRequest :=
  node Generic "grid" [node Evse "left" [] (Some 32) None (Some 6); node Evse "right" [] (Some 32) None (Some 6)] (Some 30) None None.

Example shared_evenly : published shared = [("left", Some 15000, None); ("right", Some 15000, None)].
Proof. by vm_compute. Qed.

(** 10 A are not enough for the minimal current of two EVSEs: one gets all. *)
Definition scarce : EnergyFlowRequest :=
  node Generic "grid" [node Evse "left" [] (Some 32) None (Some 6); node Evse "right" [] (Some 32) None (Some 6)] (Some 10) None None.
Example scarce_one : published scarce = [("left", Some 10000, None); ("right", Some 0, None)].
Proof. by vm_compute. Qed.

(** The power of the grid limits the current, on three phases. *)
Definition weak : EnergyFlowRequest :=
  node Generic "grid" [node Evse "left" [] (Some 32) None (Some 6)] (Some 63) (Some 11040) None.
Example weak_power : published weak = [("left", Some 16000, Some 11040000)].
Proof. by vm_compute. Qed.

(** ** Rounds

    After 100 rounds trading stops: slices of 500 W make 50 kW, although 150 kW are free
    at every node. *)
Definition powerful : EnergyFlowRequest := node Generic "grid" [node Evse "dc" [] None (Some 150000) None] None (Some 200000) None.
Example rounds_cap :
  published powerful = [("dc", None, Some 50000000)] ∧
  run_rounds_left (optimize leap_seconds powerful now [now] manager) = O.
Proof. by vm_compute. Qed.

(** At the very start of a time slot the first slot counts as the active one. *)
Definition at_times (ts : list Z) : ScheduleReq := flat_map (λ t, map (Node.with_timestamp t) (always LimitsReq_new)) ts.
Example boundary_is_first_slot :
  active_slot 20 (at_times [10; 20; 30]) = 0%nat ∧ active_slot 21 (at_times [10; 20; 30]) = 1%nat.
Proof. by vm_compute. Qed.

(** Between 49 Hz and 51 Hz the power at 50 Hz is that at 51 Hz, not the mean. *)
Example frequency_table_overshoots :
  get_watt_from_freq_table [{| frequency_Hz := of_int 49; point_power_W := of_int 1000 |}; {| frequency_Hz := of_int 51; point_power_W := of_int 2000 |}]
    (of_int 50) = of_int 2000.
Proof. by vm_compute. Qed.

(** ** Witnesses *)
Lemma limits_respected_witness :
  sane_run leap_seconds shared now manager = true ∧ descend shared [] = Some shared ∧
  ∃ m, markets (run_end (optimize leap_seconds shared now [now] manager)) !! [] = Some m ∧
    energy_flow_request m = shared ∧ length (sold_root m) = 2%nat.
Proof.
  assert (sane_run leap_seconds shared now manager = true) as H by (vm_compute; reflexivity).
  split; [exact H|]. split; [reflexivity|].
  destruct (limits_respected leap_seconds shared now [now] manager [] shared H eq_refl) as (m & Hm & Hr & Hl & _).
  exists m. split; [exact Hm|]. split; [exact Hr|]. rewrite Hl. vm_compute. reflexivity.
Defined.

Lemma trading_exhausts_witness :
  sane_run leap_seconds shared now manager = true ∧
  map local_market (run_brokers (optimize leap_seconds shared now [now] manager)) = [[0]; [1]]%nat.
Proof.
  assert (sane_run leap_seconds shared now manager = true) as H by (vm_compute; reflexivity). split; [exact H|].
  destruct (trading_exhausts leap_seconds shared now [now] manager H) as [Hm _].
  { apply Nat.ltb_lt. vm_compute. reflexivity. }
  exact Hm.
Defined.

(** The first slot of a node, with its limits. *)
Ltac first_slot node Hi :=
  destruct (import_max_available node !! 0%nat) as [imp|] eqn:Hi; [|vm_compute in Hi; discriminate Hi].

Lemma shared_imports e :
  e ∈ evses_below [] (get_list_of_evses shared []) → imports_only (first_markets leap_seconds shared now manager) Current 0 e.
Proof.
  intros _. pose (run_node := Market_node (run_slots leap_seconds shared now manager) (of_int 230) shared). exists [], run_node.
  split; [exists e; by rewrite app_nil_r|]. split; [exact (first_node leap_seconds shared now manager [] shared eq_refl)|].
  destruct (export_max_available run_node !! 0%nat) as [exp|] eqn:He; [|vm_compute in He; discriminate He].
  exists exp, (number (of_int 0) "current"). split; [done|]. vm_compute in He. injection He as <-. by vm_compute.
Qed.

Lemma published_limits_add_up_witness :
  evses_are_leaves shared = true ∧
  ∃ account y, value y = of_int 30 ∧ within account (grains (value y)) ∧
    (2 ^ 24 + 1 - 400) * (2 * (15 * unit)) <= (2 ^ 24 + 1) * account.
Proof.
  assert (sane_run leap_seconds shared now manager = true) as H by (vm_compute; reflexivity). split; [reflexivity|].
  pose (run_node := Market_node (run_slots leap_seconds shared now manager) (of_int 230) shared). first_slot run_node Hi.
  assert (lim Current (limits_to_root imp) = Some (number (of_int 30) "current")) as Hy.
  { vm_compute in Hi. injection Hi as <-. vm_compute. reflexivity. }
  destruct (published_limits_add_up leap_seconds shared now [now] manager [] shared Current 0 imp _
    H eq_refl eq_refl Hi Hy shared_imports) as (account & Hw & Ht).
  exists account, (number (of_int 30) "current"). split; [reflexivity|]. split; [exact Hw|].
  refine (Z.le_trans _ _ _ _ Ht). apply Z.leb_le. vm_compute. reflexivity.
Defined.

Lemma minimum_or_nothing_witness :
  ∃ e, enforced_uuid e = "right" ∧ (enforced_at Current 0 e = 0 ∨ 6 * unit <= enforced_at Current 0 e).
Proof.
  assert (sane_run leap_seconds scarce now manager = true) as H by (vm_compute; reflexivity).
  destruct ((run_optimizer leap_seconds scarce now [now] manager).1 !! 1%nat) as [e|] eqn:Ee; [|vm_compute in Ee; discriminate Ee].
  pose (evse := node Evse "right" [] (Some 32) None (Some 6)).
  pose (run_node := Market_node (run_slots leap_seconds scarce now manager) (of_int 230) evse). first_slot run_node Hi.
  destruct (export_max_available run_node !! 0%nat) as [exp|] eqn:He; [|vm_compute in He; discriminate He].
  assert (ac_min_current_A (limits_to_root imp) = Some (number (of_int 6) "minimum")) as Hw.
  { vm_compute in Hi. injection Hi as <-. vm_compute. reflexivity. }
  assert (ac_max_current_A (limits_to_root exp) = Some (number (of_int 0) "current")) as Hz.
  { vm_compute in He. injection He as <-. vm_compute. reflexivity. }
  exists e. split; [vm_compute in Ee; injection Ee as <-; reflexivity|].
  apply (minimum_or_nothing leap_seconds scarce now [now] manager [1]%nat evse 0 imp (number (of_int 6) "minimum") exp
    (number (of_int 0) "current") e H eq_refl eq_refl Hi Hw); [vm_compute; reflexivity|exact He|exact Hz|reflexivity|].
  apply (list_elem_of_lookup_2 _ 1). apply lookup_zip_with_Some. exists [1]%nat, e.
  split; [reflexivity|]. split; [reflexivity|]. exact Ee.
Defined.

(** ** A fuse *)
Import Node NodeFacts.

Definition fuse_30A : NodeConf :=
  {| fuse_limit_A := d_of_int 30; phase_count := 3; nominal_voltage_V := d_of_int 230; enhance_external_schedule := false |}.
Definition children_requests : list event :=
  [Child_request 0 (node Evse "left" [] (Some 32) None (Some 6)); Child_request 1 (node Evse "right" [] (Some 32) None (Some 6))].
Definition behind_fuse : EnergyFlowRequest :=
  request (st_of (node_run fuse_30A "fuse" 2 now now leap_seconds children_requests)).

Example behind_fuse_published : published behind_fuse = [("left", Some 15000, None); ("right", Some 15000, None)].
Proof. by vm_compute. Qed.

(** Prices from the start of the hour, which is when the schedule of a node starts: merging
    them does not end. *)
Definition hourly (t : Z) : PricePerkWh := {| price_timestamp := t; price_value := of_int 1; currency := "EUR" |}.
Example prices_hang :
  res_of (node_run fuse_30A "fuse" 2 now now leap_seconds [Energy_pricing [hourly leap_seconds]]) = Throw no_return ∧
  map timestamp (schedule_export (request (EnergyState_init fuse_30A "fuse" now now leap_seconds))) = [leap_seconds].
Proof. by vm_compute. Qed.

(** Prices at other times are not published either. *)
Example prices_lost :
  out_of (node_run fuse_30A "fuse" 2 now now leap_seconds [Energy_pricing [hourly now]]) =
  [publish_energy_flow_request (request (EnergyState_init fuse_30A "fuse" now now leap_seconds));
   publish_energy_flow_request (request (EnergyState_init fuse_30A "fuse" now now leap_seconds))].
Proof. by vm_compute. Qed.

(** A garage with an EVSE, first heard of through connection 0 and then through connection
    1: limits for its EVSE go through connection 1 only. *)
Definition garage : EnergyFlowRequest := node Generic "garage" [node Evse "left" [] (Some 32) None (Some 6)] (Some 32) None None.
Definition garage_requests : list event :=
  [Child_request 0 garage; Child_request 2 (node Evse "right" [] (Some 32) None (Some 6)); Child_request 1 garage].
Definition limits_for (id : string) : EnforcedLimits :=
  {| enforced_uuid := id; valid_for := 10;
     limits_root_side := {| res_total_power_W := None; res_ac_max_current_A := None; res_ac_max_phase_count := None |};
     enforced_schedule := [] |}.

Lemma limits_routed_witness :
  let s := st_of (node_run fuse_30A "fuse" 3 now now leap_seconds garage_requests) in
  (∃ targets, (1%nat, garage) ∈ targets ∧ handle_enforce_limits 3 (limits_for "left") s =
    (Ret tt, s, map (λ n, call_enforce_limits n (limits_for "left")) (map fst targets))) ∧
  out_of (handle_enforce_limits 3 (limits_for "left") s) = [call_enforce_limits 1 (limits_for "left")] ∧
  out_of (handle_enforce_limits 3 (limits_for "roof") s) =
    map (λ n, call_enforce_limits n (limits_for "roof")) [0; 1; 2]%nat.
Proof.
  cbv zeta. split; [|split; vm_compute; reflexivity].
  destruct (limits_routed fuse_30A "fuse" 3 now now leap_seconds garage_requests (limits_for "left")) as (targets & _ & Ht & E);
    [vm_compute; reflexivity|].
  assert ((1%nat, garage) ∈ targets) as Hin.
  { apply Ht. split; [reflexivity|]. by exists [0]%nat, (node Evse "left" [] (Some 32) None (Some 6)). }
  exists targets. split; [exact Hin|]. rewrite E. rewrite decide_False by done. by destruct targets as [|t targets]; [apply elem_of_nil in Hin|].
Defined.

Lemma fuse_protects_witness :
  sane_fuse (fuse_limit_A fuse_30A) = true ∧
  ∃ account, within account (30 * unit) ∧ (2 ^ 24 + 1 - 400) * (2 * (15 * unit)) <= (2 ^ 24 + 1) * account.
Proof.
  split; [vm_compute; reflexivity|].
  assert (sane_run leap_seconds behind_fuse now manager = true) as H by (vm_compute; reflexivity).
  destruct (fuse_protects fuse_30A "fuse" 2 now now leap_seconds children_requests behind_fuse leap_seconds behind_fuse now [now] manager [] 0)
    as (account & Hw & Ht).
  - vm_compute. reflexivity.
  - apply (list_elem_of_lookup_2 _ 2). vm_compute. reflexivity.
  - intros e x He Hx. vm_compute in He. apply list_elem_of_singleton in He as ->. vm_compute in Hx. injection Hx as <-. vm_compute. reflexivity.
  - exact H.
  - vm_compute. reflexivity.
  - reflexivity.
  - apply Nat.ltb_lt. vm_compute. reflexivity.
  - intros e He.
    assert (evses_below (rev []) (get_list_of_evses behind_fuse []) = [[0]; [1]]%nat) as E by (vm_compute; reflexivity). rewrite E in He.
    assert (∀ id, no_export (Market_node (run_slots leap_seconds behind_fuse now manager) (of_int 230) (node Evse id [] (Some 32) None (Some 6))) Current 0) as Hno.
    { intros id. eexists _, (number (of_int 0) "current"). split; [vm_compute; reflexivity|]. split; vm_compute; reflexivity. }
    apply elem_of_cons in He as [->|He]; [|apply list_elem_of_singleton in He as ->].
    + eexists [0]%nat, _. split; [reflexivity|]. split; [exact (first_node leap_seconds behind_fuse now manager [0]%nat _ eq_refl)|apply Hno].
    + eexists [1]%nat, _. split; [reflexivity|]. split; [exact (first_node leap_seconds behind_fuse now manager [1]%nat _ eq_refl)|apply Hno].
  - exists account. split; [exact Hw|]. refine (Z.le_trans _ _ _ _ Ht). apply Z.leb_le. vm_compute. reflexivity.
Defined.

End EnergyDemo.
